(* ===== verification/_CoqProject ===== *)
-Q . S2P
Prelude.v
GoMonad.v
Eraftpb.v
Wire.v
WireFacts.v
EraftpbWire.v
EraftpbRound.v
RaftStorage.v
RaftLog.v
Raft.v
RaftFacts.v
RaftInv.v
RaftAppend.v
RaftSafe.v
RaftProps.v
RawNode.v
RawNodeProps.v
RaftVote.v
RaftCluster.v
RaftConf.v
Codec.v
GoHeap.v
Mvcc.v
Latches.v
Meta.v
BTree.v
BTreeFacts.v
BTreeShape.v
BTreeInsert.v
BTreeRemove.v
BTreeIter.v
BTreeProps.v
Metapb.v
RegionInfo.v
RegionTree.v
RegionTreeProps.v
RegionsInfo.v
RegionsInfoProps.v
RegionIndex.v
Store.v
Cluster.v
ClusterProps.v
Etcd.v
IdAlloc.v
Tso.v
TsoProps.v
RaftServerpb.v
Engine.v
EngineIter.v
SchedStorage.v
SchedServer.v
SchedServerProps.v
SchedServerRun.v
SchedClient.v
SnapFile.v
PeerStorage.v
PeerStorageProps.v
RaftCmdpb.v
SnapMgr.v
SnapProps.v
SnapTransfer.v
RaftstoreUtil.v
Peer.v
PeerMsg.v
Runner.v
RunnerProps.v
PeerProps.v
PeerSplit.v
PeerConf.v
PeerRun.v
SnapRace.v
PeerTickProps.v
RaftStore.v
RaftStoreProps.v
RaftStoreStart.v
RaftStoreRun.v
Node.v
NodeProps.v
NodeRun.v
