(* ===== verification/Prelude.v ===== *)
(** * TinyKV: a verification development

    TinyKV is a replicated key-value store.  Each region of the key space is a Raft
    group; a store persists the groups' logs and applies committed entries to its
    engine, a transaction layer encodes versions, locks and commits into plain keys
    and values, and a scheduler keeps track of the regions and stores and hands out
    ids and timestamps.  This library models the Raft package, the wire format of its
    messages, the storage of a Raft group on disk, the peers of a store and the handling of
    their messages, the router and the workers of a store and how it starts, snapshots from
    the leader to the follower, the storage format and latches of the transaction layer, and
    the scheduler: its B-tree, the regions and stores of the cluster, the id allocator, the
    timestamp oracle, what it keeps in etcd, the handlers of its service, its client in a
    store, and how a store bootstraps the cluster.

    ** Conventions

    Go code is translated to functions in state-passing style.  A call returns an
    [outcome]: a value, an error, a panic, or [OutOfFuel] for a loop written with
    fuel.  Panics are explicit: an index out of range, a nil dereference, a division
    by zero and a [panic] call all give [Panic].  A [uint64] is a [Z] with wrap-around
    ([⊞], [⊟]), an [int] is truncated by [int64].  Slices are lists where only their
    contents matter; [GoHeap] has slices over shared arrays for code that depends on
    aliasing.  [rand.Int], [rand.Intn], the clock and the capacity [append] chooses are
    parameters.

    Packages outside the repository are type classes with their documented behaviour as
    laws: [Etcd] with [EtcdLaws] (reads and atomic transactions) and [Badger] with
    [BadgerLaws] (reads, ordered iteration and atomic updates), each with a finite map as
    an instance.  Inside, [Storage] with [StorageLaws] is what the Raft package asks of a
    storage, with [MemoryStorage] and [PeerStorage] as instances, and [Codec] with
    [CodecLaws] what the engine asks of a protobuf message.  [KVBase] with [KVBaseLaws] is
    what the scheduler asks of its key-value base, and [SchedulerClient] with the contract
    [client_ok] what a node asks of the client of the scheduler.

    ** Files

    - [Prelude]: outcomes, record update, machine integers, slices, byte strings, the
      judgements [wp] and [wlp], and the tactics.  [GoMonad]: calls that change a state and
      may fail, as a monad, with partial and total judgements.
    - [Eraftpb], [Wire], [EraftpbWire]: the structs of
      [proto/pkg/eraftpb/eraftpb.pb.go] and their generated [Marshal], [Size] and
      [Unmarshal]; [WireFacts] and [EraftpbRound] prove the round trips, that
      [Unmarshal] of a message terminates, and that a length near [2^63] panics.
    - [RaftStorage]: the [Storage] interface of [raft/storage.go] as a type class with
      laws, and [MemoryStorage] as an instance.
    - [RaftLog]: [raft/log.go].  [Raft]: [raft/raft.go], one function per handler, and
      [Step].  [RawNode]: [raft/rawnode.go].
    - [RaftFacts], [RaftInv], [RaftAppend], [RaftSafe]: what the handlers
      may change, the invariant [raft_wf] and its preservation, and the receiver
      rules of the Raft paper ([raft_merge]) that [handleAppendEntries] refines.
    - [RaftProps], [RaftVote], [RaftConf], [RawNodeProps]: the properties of one peer:
      [Step] and [tick] never panic and keep committed entries, the leader's commit
      rule, votes and elections, membership changes, and that [Ready] and [Advance]
      hand out every committed entry once and in order.
    - [RaftCluster]: peers that exchange messages.  Two reachable states show that
      Election Safety and State Machine Safety do not hold for this code.  Its last part is a
      message of the state machine after it crossed the wire.
    - [Codec]: [kv/util/codec/codec.go]; decoding is exactly the inverse of encoding,
      and encoding keeps the byte order.
    - [Mvcc]: timestamped keys, locks and write records of [kv/transaction/mvcc].
    - [Latches]: [kv/transaction/latches/latches.go] with commands interleaved by a
      step relation: exclusion, all-or-none acquisition, and progress.
    - [Meta]: the keys of [kv/raftstore/meta/keys.go].
    - [BTree]: [scheduler/pkg/btree/btree.go].  [BTreeFacts], [BTreeShape], [BTreeInsert],
      [BTreeRemove], [BTreeIter]: ranks, the shape of nodes,
      and what each operation does to the items in order; [BTreeProps]: every history
      of calls behaves as on a sorted list, keeps the tree balanced, and the iterators
      visit exactly their range.
    - [Metapb], [RegionInfo], [RegionTree], [RegionsInfo]: [scheduler/server/core/region.go],
      [region_option.go] and [region_tree.go]; [RegionTreeProps] and [RegionsInfoProps]: the
      indices agree with a plain list of disjoint regions, scans and random choice.
      [RegionIndex]: the trees of regions of each store are exact.
    - [Store], [Cluster]: [store.go], [store_option.go] and [basic_cluster.go] of
      [scheduler/server/core], and [scheduler/server/cluster.go]; [ClusterProps]: which
      heartbeats are accepted and what they change, and the life of stores.
    - [Etcd], [IdAlloc]: the allocators of [scheduler/server/id/id.go] on several servers
      never hand out an id twice.  [Tso], [TsoProps]: likewise the timestamps of
      [scheduler/server/tso/tso.go].
    - [SchedStorage]: [scheduler/server/core/storage.go]; loading the stores page by page ends
      and finds each of them once, and [scheduler/server/kv/etcd_kv.go] is a key-value base.
      [SchedServer]: the handlers of [scheduler/server/grpc_service.go], the bootstrap
      and the change of leader of [server.go], and the rest of [cluster.go] and
      [cluster_worker.go], on the state of a server ([Server]).  [SchedServerProps]: a new
      leader has the stores and the configuration of the old one, a cluster is bootstrapped
      once, the safe point does not move back while requests do not overlap.  [SchedServerRun]: samples, and two updates of
      the safe point that overlap.
    - [SchedClient]: [kv/raftstore/scheduler_client/client.go] over a network that loses
      requests and answers.  [Node]: [kv/raftstore/node.go] and [bootstrap.go], where the
      process may die at every write and every call.  [NodeProps]: a start that was cut off is
      resumed, and where it is not.  [NodeRun]: samples, and runs against the server above.
    - [RaftServerpb], [Engine]: the persistent states of a peer on the wire, and write
      batches and messages in an engine ([kv/util/engine_util]).  [EngineIter]: its iterators
      over column families, and [DeleteRange], which deletes just the keys of its range.
    - [SnapFile]: snapshot files over a file system ([kv/raftstore/snap/snap.go],
      [snap_builder.go], [kv/util/file.go]), in the monad [smM].  [SnapMgr]: the snapshot
      manager, the region worker and the transfer of snapshots ([snap_manager.go],
      [runner/region_task.go], [raft_storage/snap_runner.go]).  [SnapProps]: building,
      reading, writing and saving.  [SnapTransfer]: a snapshot carries a region to another
      store, and which snapshots are idle.
    - [PeerStorage]: [kv/raftstore/peer_storage.go] and [meta/values.go];
      [PeerStorageProps]: reads, [SaveReadyState] and restarts, and samples.
    - [RaftCmdpb], [RaftstoreUtil]: the commands of [proto/pkg/raft_cmdpb], and the checks
      and errors of [kv/raftstore/util].
    - [Peer]: [kv/raftstore/peer.go], [ticker.go], [cmd_resp.go] and the regions of a store.
      [PeerMsg]: [kv/raftstore/peer_msg_handler.go], one function per method, on the state
      of a handler ([handler]: the peer, the regions of the store, and the list of what was
      sent).
    - [PeerProps]: applying committed entries is a fold over their commands, the same on
      every replica, and answers the waiting clients.  [PeerSplit]: a peer is created on what
      is on disk, also after a crash between two entries, and a split cuts a region in two.
      [PeerConf]: the members of the region and of the Raft group stay the same, and what
      becomes of a peer that is removed.  [PeerRun]: samples, and runs of a peer that lose an entry it
      acknowledged, an answer to a client, and the ability to change the membership.
    - [Runner]: the workers of [kv/raftstore/runner] that delete log entries, look for split
      keys and talk to the scheduler.  [RunnerProps]: compaction is invisible to the peer,
      split keys are balanced and keep versions together; its samples are in [PeerRun].
    - [PeerTickProps]: under the default configuration of [kv/config/config.go] a peer never
      reports its region on a tick.  [SnapRace]: a snapshot that is applied while the peer
      goes on can lose a write.
    - [RaftStore]: [kv/raftstore/raftstore.go], [router.go], [raft_worker.go],
      [store_worker.go] and the tick driver: a store ([raftstore]) with its peers, queues and
      engines, one function per worker, and the relation [running] in which they take turns.
      [RaftStoreProps]: the router knows live peers only, and an old message does not bring a
      destroyed peer back.  [RaftStoreStart]: a store starts with the regions it has on disk.
      [RaftStoreRun]: samples, and runs in which a replica is refused after a split and a
      command is dropped.

    ** Assumptions of the theorems

    [Step_safe] and the properties built on it assume the invariant and [msg_ok],
    which bounds indices away from [2^64] and asks of an append message that its
    entries are contiguous and do not contradict committed ones.  The second part is
    what a correct leader provides; since Election Safety fails in this code, no
    theorem derives it from the cluster.  Where log and message have entries with the
    same index and term the code takes those of the message; that these are the same in
    their data is Log Matching, a property of the cluster, and the premise [log_matching]
    of the exact part of [Step_safe] and [append_accepted] ([committed_data_overwritten]
    shows what happens without it).  Messages are delivered as values: an append
    message of the code points into the sender's log, and the model copies the
    entries when the message is sent.

    The theorems on regions ask that a region ends after it starts ([valid]), those on
    heartbeats that they are processed one after the other.  The id allocator is followed
    for fewer than [2^64 / 1000] steps and the timestamp oracle for fewer than [2^30]
    steps and up to a time horizon, so that nothing overflows;
    [first_sync_overflow] shows what happens without a horizon.  [ps_ok] bounds the
    indices of a peer storage away from [2^64] and [ready_ok] is what [Ready] provides: a
    contiguous run of entries that starts inside or right after the log, and no snapshot.

    The theorems on the message handler are for every encoding of commands ([cmdBytes],
    [cmdOf]) and of region states ([regionStateBytes], which is never empty).  [kv_entry]
    is an entry without data or with one well-formed command on keys, and not one of
    administration or of a change of membership; [user_entry] writes no key of the store's
    own.  [unanswerable] is the one case in which such entries make a peer panic.  [split_ok]
    is a split inside the region whose new id is not in use, [change_wf] a change of
    membership of a known type, and [indexed] says that the store has the region in its index.

    The theorems on snapshots are for encodings that can be decoded, for tables that are not
    empty when they have pairs, and for an engine that takes tables with different keys by
    putting their pairs.  They ask that the files of the snapshot are not there yet
    ([fresh]).  [log_keys] says that the keys in the range of a region's log are keys of
    entries.  [saved] says that the engines of a store that starts are as a store leaves
    them: regions are under their ids, and those that are not tombstones can be started.

    The theorems on the scheduler's storage are for encodings of stores and of the cluster that
    can be decoded, and for store ids below the largest one, which [LoadStores] does not reach
    ([ok_request]).  A node is started against a client that hands out ids that are not 0 and
    answers according to whether the cluster is bootstrapped ([client_ok]).  Any call may fail;
    a call that fails has had no effect, but for a [Bootstrap] whose answer is lost where
    [lossy] allows that.

    ** Fuel

    [Step] recurses at most once (a leadership transfer or a timeout starts an
    election), and two levels are enough ([StepF_enough]).  A varint has at most ten
    bytes.  [Unmarshal], [skip] and the codec loops get one round per input byte;
    [Message_Unmarshal_terminates], [EncodeBytes_enc] and [DecodeBytes_canonical]
    show that they do not run out.  Reading and writing a snapshot get a round for every
    file and every byte, an iterator one for every pair that is left.  A method of a B-tree
    gets two calls for every level, because a child may have to grow before the method goes on
    with it; the theorems of [BTreeProps] return a value for every history, so this is enough.
    [LoadStores] gets a page for every stored key and one more ([LoadStores_complete]).

    ** Not modelled

    Of the raftstore the shutdown of a store; of the scheduler its operators and schedulers,
    the coordinator, the heartbeat streams, and start-up over etcd.  Float weights and scores of stores, copy-on-write
    and the free list of B-tree nodes, errors of the engine and of etcd other than lost
    answers, gRPC and network code, the coprocessor and the other protobuf packages are
    left out as well.  Most methods of [MvccTxn] and [Scanner], the standalone storage and
    the server handlers have no body in the source.  Log output, [String] methods and
    error texts are left out. *)

From Stdlib Require Import ZArith Lia ZifyBool List Sorting.Permutation.
From stdpp Require Import base option list gmap tactics.

#[global] Set Default Goal Selector "!".
Open Scope Z_scope.

(** ** Outcomes of Go code

    A Go call returns a value, returns an [error], or panics; a loop modelled
    with fuel may also run out of it ([OutOfFuel]), which the development proves
    impossible wherever fuel is used. *)
Inductive outcome (E A : Type) : Type :=
  | Ret (a : A)
  | Err (e : E)
  | Panic
  | OutOfFuel.
Arguments Ret {E A} a.
Arguments Err {E A} e.
Arguments Panic {E A}.
Arguments OutOfFuel {E A}.

Declare Scope go_scope.
Delimit Scope go_scope with go.
Open Scope go_scope.

Notation "'let!' x := c 'in' k" :=
  (match c with
   | Ret x => k
   | Err e => Err e
   | Panic => Panic
   | OutOfFuel => OutOfFuel
   end)
  (at level 10, x pattern, c at level 200, k at level 200,
   format "'[v' 'let!'  x  :=  c  'in' '/' k ']'") : go_scope.

(** [errPanic]: an error becomes a panic. *)
Definition must {E A} (o : outcome E A) : outcome E A :=
  match o with Err _ => Panic | _ => o end.

(** [v, _ := f()]: an error is dropped and the zero value is used. *)
Definition ignore_err {E A} (zero : A) (o : outcome E A) : outcome E A :=
  match o with Err _ => Ret zero | _ => o end.

(** A [for] loop over a slice whose body may panic. *)
Fixpoint foldM {E A B} (f : A -> B -> outcome E A) (a : A) (l : list B)
    : outcome E A :=
  match l with
  | [] => Ret a
  | x :: t => let! a' := f a x in foldM f a' t
  end.

(** A nil-pointer dereference panics. *)
Definition deref {E A} (o : option A) : outcome E A :=
  match o with Some a => Ret a | None => Panic end.

(** ** Field update

    [r <| f := v |>] is the record [r] with its field [f] set to [v]: Go's
    [r.f = v] in state-passing style. *)
Class Setter {R T : Type} (proj : R -> T) := upd : (T -> T) -> R -> R.
Arguments upd {R T} proj {_} _ _ /.

(** The field setters are unfolded by [rec_simpl], to compare whole records. *)
Create HintDb setters.
Ltac rec_simpl := unfold upd; autounfold with setters; cbn.

Notation "r <| f ::= g |>" := (upd f g r)
  (at level 1, f at level 0, left associativity,
   format "r  <|  f  ::=  g  |>") : go_scope.
Notation "r <| f := v |>" := (upd f (fun _ => v) r)
  (at level 1, f at level 0, left associativity,
   format "r  <|  f  :=  v  |>") : go_scope.

(** ** Machine integers *)
Definition two64 : Z := 18446744073709551616.
Definition two63 : Z := 9223372036854775808.
Definition two32 : Z := 4294967296.
Definition two31 : Z := 2147483648.

(** A [uint64] is a [Z] in [[0, 2^64)]. *)
Definition is_u64 (z : Z) : Prop := 0 <= z < two64.
Definition wrap64 (z : Z) : Z := z mod two64.
(** An [int] (64-bit) is a [Z] in [[-2^63, 2^63)]. *)
Definition int64 (z : Z) : Z := (z + two63) mod two64 - two63.
(** An [int32]. *)
Definition int32 (z : Z) : Z := (z + two31) mod two32 - two31.

Definition u64_add (a b : Z) : Z := wrap64 (a + b).
Definition u64_sub (a b : Z) : Z := wrap64 (a - b).
Notation "a ⊞ b" := (u64_add a b) (at level 50, left associativity) : go_scope.
Notation "a ⊟ b" := (u64_sub a b) (at level 50, left associativity) : go_scope.

Lemma two64_pos : 0 < two64. Proof. unfold two64. lia. Qed.

Lemma wrap64_small z : is_u64 z -> wrap64 z = z.
Proof. unfold is_u64, wrap64. intros. apply Z.mod_small. lia. Qed.

Lemma wrap64_range z : is_u64 (wrap64 z).
Proof. unfold is_u64, wrap64. apply Z.mod_pos_bound. apply two64_pos. Qed.

Lemma u64_add_small a b : is_u64 (a + b) -> a ⊞ b = a + b.
Proof. apply wrap64_small. Qed.

Lemma u64_sub_small a b : is_u64 (a - b) -> a ⊟ b = a - b.
Proof. apply wrap64_small. Qed.

Lemma u64_add_range a b : is_u64 (a ⊞ b).
Proof. apply wrap64_range. Qed.

Lemma int64_small z : - two63 <= z < two63 -> int64 z = z.
Proof.
  unfold int64, two63, two64. intros.
  rewrite Z.mod_small; lia.
Qed.

Lemma int32_small z : - two31 <= z < two31 -> int32 z = z.
Proof.
  unfold int32, two31, two32. intros.
  rewrite Z.mod_small; lia.
Qed.

(** ** Slices *)
Definition len {A} (l : list A) : Z := Z.of_nat (length l).

(** [l[i]] panics out of range. *)
Definition index {E A} (l : list A) (i : Z) : outcome E A :=
  if (0 <=? i) then deref (l !! Z.to_nat i) else Panic.

(** [l[lo:hi]] and [l[lo:]] panic unless [0 <= lo <= hi <= len l]. *)
Definition slice {E A} (l : list A) (lo hi : Z) : outcome E (list A) :=
  if (0 <=? lo) && (lo <=? hi) && (hi <=? len l)
  then Ret (take (Z.to_nat (hi - lo)) (drop (Z.to_nat lo) l))
  else Panic.
Definition slice_from {E A} (l : list A) (lo : Z) : outcome E (list A) :=
  slice l lo (len l).
Definition slice_to {E A} (l : list A) (hi : Z) : outcome E (list A) :=
  slice l 0 hi.

(** ** Byte strings

    A byte is a [Z] in [[0, 256)]; [bytes.Compare] is lexicographic. *)
Definition is_byte (b : Z) : Prop := 0 <= b < 256.
Definition is_bytes (l : list Z) : Prop := Forall is_byte l.

Fixpoint bytes_compare (a b : list Z) : comparison :=
  match a, b with
  | [], [] => Eq
  | [], _ :: _ => Lt
  | _ :: _, [] => Gt
  | x :: a', y :: b' =>
      match x ?= y with Eq => bytes_compare a' b' | c => c end
  end.

Lemma bytes_compare_refl a : bytes_compare a a = Eq.
Proof. induction a as [|x a IH]; simpl; [done|]. by rewrite Z.compare_refl. Qed.

Lemma bytes_compare_eq a : forall b, bytes_compare a b = Eq -> a = b.
Proof.
  induction a as [|x a IH]; intros [|y b]; simpl; try done.
  destruct (Z.compare_spec x y) as [->| |]; try done. intros H. f_equal. by apply IH.
Qed.

(** Prefixes of the same length are compared first. *)
Lemma bytes_compare_app a : forall b x y,
  length a = length b ->
  bytes_compare (a ++ x) (b ++ y) =
    match bytes_compare a b with Eq => bytes_compare x y | c => c end.
Proof.
  induction a as [|u a IH]; intros [|v b] x y H; simpl in *; try done.
  destruct (u ?= v); [apply IH; lia|done|done].
Qed.

(** ** Lemmas on slices *)
Lemma len_nonneg {A} (l : list A) : 0 <= len l.
Proof. unfold len. lia. Qed.
Lemma len_nil {A} : len ([] : list A) = 0.
Proof. done. Qed.
Lemma len_cons {A} (x : A) l : len (x :: l) = len l + 1.
Proof. unfold len. simpl. lia. Qed.
Lemma len_app {A} (l k : list A) : len (l ++ k) = len l + len k.
Proof. unfold len. rewrite length_app. lia. Qed.
Lemma len_take {A} (l : list A) n : len (take n l) = Z.min (Z.of_nat n) (len l).
Proof. unfold len. rewrite length_take. lia. Qed.
Lemma len_drop {A} (l : list A) n : len (drop n l) = Z.max 0 (len l - Z.of_nat n).
Proof. unfold len. rewrite length_drop. lia. Qed.
Lemma len_0_nil {A} (l : list A) : len l = 0 -> l = [].
Proof. destruct l; [done|]. rewrite len_cons. pose proof (len_nonneg l). lia. Qed.

Create Rewrite HintDb go_len.
Create HintDb raft.
#[export] Hint Rewrite @len_nil @len_cons @len_app @len_take @len_drop : go_len.

Lemma index_lookup {E A} (l : list A) i x :
  0 <= i -> l !! Z.to_nat i = Some x -> index (E:=E) l i = Ret x.
Proof.
  intros Hi Hl. unfold index. destruct (Z.leb_spec 0 i); [|lia].
  by rewrite Hl.
Qed.

Lemma index_inv {E A} (l : list A) i x :
  index (E:=E) l i = Ret x -> 0 <= i < len l /\ l !! Z.to_nat i = Some x.
Proof.
  unfold index. destruct (Z.leb_spec 0 i) as [Hi|]; [|done].
  destruct (l !! Z.to_nat i) eqn:Hl; [|done]. intros [= ->].
  apply lookup_lt_Some in Hl as Hlt. unfold len. split; [lia|done].
Qed.

Lemma index_total {E A} (l : list A) i :
  0 <= i < len l -> exists x, index (E:=E) l i = Ret x /\ l !! Z.to_nat i = Some x.
Proof.
  intros Hi. destruct (l !! Z.to_nat i) as [x|] eqn:Hl.
  - exists x. split; [|done]. apply index_lookup; [lia|done].
  - apply lookup_ge_None in Hl. unfold len in Hi. lia.
Qed.

Lemma index_neg {E A} (l : list A) i : i < 0 -> index (E:=E) l i = Panic.
Proof. intros. unfold index. destruct (Z.leb_spec 0 i); [lia|done]. Qed.

Lemma slice_ok {E A} (l : list A) lo hi :
  0 <= lo <= hi -> hi <= len l ->
  slice (E:=E) l lo hi = Ret (take (Z.to_nat (hi - lo)) (drop (Z.to_nat lo) l)).
Proof.
  intros. unfold slice.
  destruct (Z.leb_spec 0 lo), (Z.leb_spec lo hi), (Z.leb_spec hi (len l)); simpl; done || lia.
Qed.

Lemma slice_from_ok {E A} (l : list A) lo :
  0 <= lo <= len l -> slice_from (E:=E) l lo = Ret (drop (Z.to_nat lo) l).
Proof.
  intros. unfold slice_from. rewrite slice_ok by lia. f_equal.
  apply take_ge. rewrite length_drop. unfold len. lia.
Qed.

Lemma slice_to_ok {E A} (l : list A) hi :
  0 <= hi <= len l -> slice_to (E:=E) l hi = Ret (take (Z.to_nat hi) l).
Proof.
  intros. unfold slice_to. rewrite slice_ok by lia.
  by rewrite Z.sub_0_r, drop_0.
Qed.

Lemma slice_inv {E A} (l : list A) lo hi x :
  slice (E:=E) l lo hi = Ret x ->
  0 <= lo <= hi /\ hi <= len l /\ x = take (Z.to_nat (hi - lo)) (drop (Z.to_nat lo) l).
Proof.
  unfold slice.
  destruct (Z.leb_spec 0 lo), (Z.leb_spec lo hi), (Z.leb_spec hi (len l)); simpl; try done.
  intros [= <-]. auto.
Qed.

(** ** Tactics *)

(** [bind_inv H] opens the binds of [H : (let! x := c in k) = Ret v]. *)
Ltac bind_inv H :=
  repeat match type of H with
  | match ?c with Ret _ => _ | Err _ => _ | Panic => _ | OutOfFuel => _ end = Ret _ =>
      let E := fresh "E" in destruct c eqn:E; try discriminate H
  | (let '(_, _) := ?p in _) = Ret _ => destruct p
  end.

(** [zif] decides the comparison of the outermost [if] of the goal. *)
Ltac zif :=
  match goal with
  | |- context [if ?c then _ else _] =>
    match c with
    | Z.ltb ?a ?b => destruct (Z.ltb_spec a b)
    | Z.leb ?a ?b => destruct (Z.leb_spec a b)
    | Z.eqb ?a ?b => destruct (Z.eqb_spec a b)
    | Z.gtb ?a ?b => rewrite (Z.gtb_ltb a b); destruct (Z.ltb_spec b a)
    | Z.geb ?a ?b => rewrite (Z.geb_leb a b); destruct (Z.leb_spec b a)
    end
  end.
(** [bif] splits on the condition of the outermost [if] of the goal. *)
Ltac bif :=
  match goal with
  | |- context [if ?c then _ else _] => let E := fresh "E" in destruct c eqn:E
  end.
(** [zcmp] splits on every boolean comparison of the goal. *)
Ltac zcmp :=
  repeat match goal with
  | |- context [Z.ltb ?a ?b] => destruct (Z.ltb_spec a b)
  | |- context [Z.leb ?a ?b] => destruct (Z.leb_spec a b)
  | |- context [Z.eqb ?a ?b] => destruct (Z.eqb_spec a b)
  | |- context [Z.gtb ?a ?b] => rewrite (Z.gtb_ltb a b)
  | |- context [Z.geb ?a ?b] => rewrite (Z.geb_leb a b)
  end.
(** The same on a hypothesis. *)
Ltac zcmp_in H :=
  repeat match type of H with
  | context [Z.ltb ?a ?b] => destruct (Z.ltb_spec a b)
  | context [Z.leb ?a ?b] => destruct (Z.leb_spec a b)
  | context [Z.eqb ?a ?b] => destruct (Z.eqb_spec a b)
  | context [Z.gtb ?a ?b] => rewrite (Z.gtb_ltb a b) in H
  | context [Z.geb ?a ?b] => rewrite (Z.geb_leb a b) in H
  end.

(** ** Hoare-style judgements on outcomes

    [wp o P]: the call returns, with a value satisfying [P] (total correctness).
    [wlp o P]: if the call returns a value, the value satisfies [P]. *)
Definition wp {E A} (o : outcome E A) (P : A -> Prop) : Prop :=
  match o with Ret a => P a | _ => False end.
Definition wlp {E A} (o : outcome E A) (P : A -> Prop) : Prop :=
  match o with Ret a => P a | _ => True end.

Section wp.
Context {E : Type}.

Lemma wp_ret {A} (a : A) (P : A -> Prop) : P a -> wp (E:=E) (Ret a) P.
Proof. done. Qed.
Lemma wlp_ret {A} (a : A) (P : A -> Prop) : P a -> wlp (E:=E) (Ret a) P.
Proof. done. Qed.

Lemma wp_bind {A B} (c : outcome E A) (k : A -> outcome E B) P :
  wp c (fun x => wp (k x) P) -> wp (let! x := c in k x) P.
Proof. by destruct c. Qed.
Lemma wlp_bind {A B} (c : outcome E A) (k : A -> outcome E B) P :
  wlp c (fun x => wlp (k x) P) -> wlp (let! x := c in k x) P.
Proof. by destruct c. Qed.

Lemma wp_mono {A} (o : outcome E A) (P Q : A -> Prop) :
  wp o P -> (forall a, P a -> Q a) -> wp o Q.
Proof. destruct o; simpl; auto. Qed.
Lemma wlp_mono {A} (o : outcome E A) (P Q : A -> Prop) :
  wlp o P -> (forall a, P a -> Q a) -> wlp o Q.
Proof. destruct o; simpl; auto. Qed.

Lemma wp_wlp {A} (o : outcome E A) (P Q : A -> Prop) :
  wp o P -> wlp o Q -> wp o (fun a => P a /\ Q a).
Proof. destruct o; simpl; auto. Qed.

Lemma wp_inv {A} (o : outcome E A) P : wp o P -> exists a, o = Ret a /\ P a.
Proof. destruct o; simpl; eauto; done. Qed.
Lemma wlp_inv {A} (o : outcome E A) P a : wlp o P -> o = Ret a -> P a.
Proof. intros H ->. done. Qed.

Lemma wp_foldM {A B} (f : A -> B -> outcome E A) (I : A -> Prop) a l :
  I a -> (forall a x, I a -> x ∈ l -> wp (f a x) I) -> wp (foldM f a l) I.
Proof.
  revert a. induction l as [|x l IH]; intros a Ha Hf; simpl; [done|].
  apply wp_bind. eapply wp_mono.
  - apply Hf; [done|set_solver].
  - intros a' Ha'. apply IH; [done|]. intros. apply Hf; [done|set_solver].
Qed.
Lemma wlp_foldM {A B} (f : A -> B -> outcome E A) (I : A -> Prop) a l :
  I a -> (forall a x, I a -> x ∈ l -> wlp (f a x) I) -> wlp (foldM f a l) I.
Proof.
  revert a. induction l as [|x l IH]; intros a Ha Hf; simpl; [done|].
  apply wlp_bind. eapply wlp_mono.
  - apply Hf; [done|set_solver].
  - intros a' Ha'. apply IH; [done|]. intros. apply Hf; [done|set_solver].
Qed.

Lemma wp_deref {A} (o : option A) a P : o = Some a -> P a -> wp (E:=E) (deref o) P.
Proof. by intros ->. Qed.
Lemma wlp_deref {A} (o : option A) P :
  (forall a, o = Some a -> P a) -> wlp (E:=E) (deref o) P.
Proof. destruct o; simpl; auto. Qed.
Lemma wlp_true {A} (o : outcome E A) P : (forall a, o = Ret a -> P a) -> wlp o P.
Proof. destruct o; simpl; auto. Qed.

End wp.

(** [wlp_walk call] goes through every way a function can take; [call] solves [wlp c ?P] for
    the calls of which something is known. *)
Ltac wlp_walk call :=
  repeat (cbv beta iota zeta;
  match goal with
  | |- wlp (Ret _) _ => apply wlp_ret
  | |- wlp Panic _ => exact I
  | |- wlp OutOfFuel _ => exact I
  | |- wlp (Err _) _ => exact I
  | |- wlp (match ?c with _ => _ end) _ =>
    first [ let Hc := fresh "Hc" in eassert (Hc : wlp c _) by (solve [call]); destruct c; cbv [wlp] in Hc; cbn [fst snd] in Hc
          | destruct c ]
  | |- wlp _ _ => solve [call]
  end).

Lemma foldl_inv {A B} (f : A -> B -> A) (I : A -> Prop) a l :
  I a -> (forall a x, I a -> x ∈ l -> I (f a x)) -> I (foldl f a l).
Proof.
  revert a. induction l as [|x l IH]; intros a Ha Hf; simpl; [done|].
  apply IH; [apply Hf; [done|set_solver]|]. intros. apply Hf; [done|set_solver].
Qed.
