(* ===== verification/GoMonad.v ===== *)
(** * GoMonad: computations on a state

    A computation takes a state and gives the state it leaves together with its outcome, so
    that what a call has changed before it fails is not lost.  [triple] is the judgement the
    proofs about such computations use. *)

From stdpp Require Import base option list tactics.
From S2P Require Import Prelude.

Section Monad.
Context {E W : Type}.
Definition st (A : Type) : Type := W -> W * outcome E A.
Definition ret {A} (a : A) : st A := fun s => (s, Ret a).
Definition fail {A} (e : E) : st A := fun s => (s, Err e).
Definition bind {A B} (c : st A) (k : A -> st B) : st B := fun s =>
  match c s with
  | (s, Ret a) => k a s
  | (s, Err e) => (s, Err e)
  | (s, Panic) => (s, Panic)
  | (s, OutOfFuel) => (s, OutOfFuel)
  end.
Definition gets {A} (f : W -> A) : st A := fun s => (s, Ret (f s)).
Definition modify (f : W -> W) : st unit := fun s => (f s, Ret tt).
(** A computation that has errors of its own. *)
Definition lift {X A} (inj : X -> E) (o : outcome X A) : st A := fun s =>
  (s, match o with Ret a => Ret a | Err e => Err (inj e) | Panic => Panic | OutOfFuel => OutOfFuel end).

(** From [P], a computation that returns ends in [Q], and one that does not in [R]. *)
Definition triple {A} (P : W -> Prop) (m : st A) (Q : A -> W -> Prop) (R : W -> Prop) : Prop :=
  forall s, P s -> match m s with (s', Ret a) => Q a s' | (s', _) => R s' end.
Lemma triple_bind {A B} P (m : st A) Q (k : A -> st B) T R :
  triple P m Q R -> (forall a, triple (Q a) (k a) T R) -> triple P (bind m k) T R.
Proof.
  intros Hm Hk s Hs. specialize (Hm s Hs). unfold bind. destruct (m s) as [s' [a| | |]]; [|done..]. by apply Hk.
Qed.
Lemma triple_pre {A} (P P' : W -> Prop) (m : st A) Q R :
  (forall s, P s -> P' s) -> triple P' m Q R -> triple P m Q R.
Proof. intros Hp Hm s Hs. apply Hm, Hp, Hs. Qed.
End Monad.
Arguments st : clear implicits.
Notation "'do!' x <- c ; k" := (bind c (fun x => k)) (at level 10, x pattern, c at level 100, k at level 200).
Notation "c ;; k" := (bind c (fun _ => k)) (at level 100, right associativity).

(** The same for computations that must not panic. *)
Section Total.
Context {E W : Type}.
Definition total {A} (P : W -> Prop) (m : st E W A) (Q : A -> W -> Prop) (R : W -> Prop) : Prop :=
  forall s, P s -> match m s with (s', Ret a) => Q a s' | (s', Err _) => R s' | _ => False end.
Lemma total_bind {A B} P (m : st E W A) Q (k : A -> st E W B) T R :
  total P m Q R -> (forall a, total (Q a) (k a) T R) -> total P (bind m k) T R.
Proof.
  intros Hm Hk s Hs. specialize (Hm s Hs). unfold bind. destruct (m s) as [s' [a| | |]]; [|done..]. by apply Hk.
Qed.
Lemma total_ret {A} (a : A) (Q : A -> W -> Prop) R : total (Q a) (ret a) Q R.
Proof. by intros s Hs. Qed.
Lemma total_pre {A} (P P' : W -> Prop) (m : st E W A) Q R :
  (forall s, P s -> P' s) -> total P' m Q R -> total P m Q R.
Proof. intros Hp Hm s Hs. apply Hm, Hp, Hs. Qed.
Lemma total_post {A} P (m : st E W A) (Q Q' : A -> W -> Prop) R :
  total P m Q R -> (forall a s, Q a s -> Q' a s) -> total P m Q' R.
Proof. intros Hm Hq s Hs. specialize (Hm s Hs). destruct (m s) as [s' []]; auto. Qed.
End Total.
