(* ===== verification/Eraftpb.v ===== *)
(** * Eraftpb: the data exchanged by the Raft module

    The structs and enums of [proto/pkg/eraftpb/eraftpb.pb.go].  A Go pointer that
    may be nil is an [option]; a [[]byte] whose nil-ness the code observes is an
    [option] of a byte list; [XXX_unrecognized] holds the wire bytes of unknown
    fields.  A protobuf enum is open: a value outside the
    declared constants is the last constructor of its type. *)

From stdpp Require Import base option list tactics.
From S2P Require Import Prelude.

Inductive EntryType :=
  | EntryType_EntryNormal
  | EntryType_EntryConfChange
  | EntryType_other (n : Z).

Inductive MessageType :=
  | MsgHup
  | MsgBeat
  | MsgPropose
  | MsgAppend
  | MsgAppendResponse
  | MsgRequestVote
  | MsgRequestVoteResponse
  | MsgSnapshot
  | MsgHeartbeat
  | MsgHeartbeatResponse
  | MsgTransferLeader
  | MsgTimeoutNow
  | MsgType_other (n : Z).

Inductive ConfChangeType :=
  | ConfChangeType_AddNode
  | ConfChangeType_RemoveNode
  | ConfChangeType_other (n : Z).

#[export] Instance EntryType_eq_dec : EqDecision EntryType.
Proof. solve_decision. Defined.
#[export] Instance MessageType_eq_dec : EqDecision MessageType.
Proof. solve_decision. Defined.
#[export] Instance ConfChangeType_eq_dec : EqDecision ConfChangeType.
Proof. solve_decision. Defined.

Record Entry := mkEntry {
  e_EntryType : EntryType;
  e_Term : Z;
  e_Index : Z;
  e_Data : option (list Z);
  e_XXX_unrecognized : option (list Z);
}.
#[export] Instance set_e_EntryType : Setter e_EntryType := fun g e =>
  mkEntry (g (e_EntryType e)) (e_Term e) (e_Index e) (e_Data e) (e_XXX_unrecognized e).
#[export] Instance set_e_Term : Setter e_Term := fun g e =>
  mkEntry (e_EntryType e) (g (e_Term e)) (e_Index e) (e_Data e) (e_XXX_unrecognized e).
#[export] Instance set_e_Index : Setter e_Index := fun g e =>
  mkEntry (e_EntryType e) (e_Term e) (g (e_Index e)) (e_Data e) (e_XXX_unrecognized e).
#[export] Instance set_e_Data : Setter e_Data := fun g e =>
  mkEntry (e_EntryType e) (e_Term e) (e_Index e) (g (e_Data e)) (e_XXX_unrecognized e).
#[export] Instance set_e_XXX_unrecognized : Setter e_XXX_unrecognized := fun g e =>
  mkEntry (e_EntryType e) (e_Term e) (e_Index e) (e_Data e) (g (e_XXX_unrecognized e)).
#[export] Hint Unfold set_e_EntryType set_e_Term set_e_Index set_e_Data
  set_e_XXX_unrecognized : setters.

Record ConfState := mkConfState {
  cs_Nodes : list Z;
  cs_XXX_unrecognized : option (list Z);
}.
#[export] Instance set_cs_Nodes : Setter cs_Nodes := fun g c =>
  mkConfState (g (cs_Nodes c)) (cs_XXX_unrecognized c).
#[export] Instance set_cs_XXX_unrecognized : Setter cs_XXX_unrecognized := fun g c =>
  mkConfState (cs_Nodes c) (g (cs_XXX_unrecognized c)).
#[export] Hint Unfold set_cs_Nodes set_cs_XXX_unrecognized : setters.

Record SnapshotMetadata := mkSnapshotMetadata {
  sm_ConfState : option ConfState;
  sm_Index : Z;
  sm_Term : Z;
  sm_XXX_unrecognized : option (list Z);
}.
#[export] Instance set_sm_ConfState : Setter sm_ConfState := fun g s =>
  mkSnapshotMetadata (g (sm_ConfState s)) (sm_Index s) (sm_Term s) (sm_XXX_unrecognized s).
#[export] Instance set_sm_Index : Setter sm_Index := fun g s =>
  mkSnapshotMetadata (sm_ConfState s) (g (sm_Index s)) (sm_Term s) (sm_XXX_unrecognized s).
#[export] Instance set_sm_Term : Setter sm_Term := fun g s =>
  mkSnapshotMetadata (sm_ConfState s) (sm_Index s) (g (sm_Term s)) (sm_XXX_unrecognized s).
#[export] Instance set_sm_XXX_unrecognized : Setter sm_XXX_unrecognized := fun g s =>
  mkSnapshotMetadata (sm_ConfState s) (sm_Index s) (sm_Term s) (g (sm_XXX_unrecognized s)).
#[export] Hint Unfold set_sm_ConfState set_sm_Index set_sm_Term
  set_sm_XXX_unrecognized : setters.

Record Snapshot := mkSnapshot {
  s_Data : option (list Z);
  s_Metadata : option SnapshotMetadata;
  s_XXX_unrecognized : option (list Z);
}.
#[export] Instance set_s_Data : Setter s_Data := fun g s =>
  mkSnapshot (g (s_Data s)) (s_Metadata s) (s_XXX_unrecognized s).
#[export] Instance set_s_Metadata : Setter s_Metadata := fun g s =>
  mkSnapshot (s_Data s) (g (s_Metadata s)) (s_XXX_unrecognized s).
#[export] Instance set_s_XXX_unrecognized : Setter s_XXX_unrecognized := fun g s =>
  mkSnapshot (s_Data s) (s_Metadata s) (g (s_XXX_unrecognized s)).
#[export] Hint Unfold set_s_Data set_s_Metadata set_s_XXX_unrecognized : setters.

Record Message := mkMessage {
  m_MsgType : MessageType;
  m_To : Z;
  m_From : Z;
  m_Term : Z;
  m_LogTerm : Z;
  m_Index : Z;
  m_Entries : list Entry;
  m_Commit : Z;
  m_Snapshot : option Snapshot;
  m_Reject : bool;
  m_ConflictTerm : Z;
  m_CommitUse : bool;
  m_XXX_unrecognized : option (list Z);
}.
#[export] Instance set_m_MsgType : Setter m_MsgType := fun g m =>
  mkMessage (g (m_MsgType m)) (m_To m) (m_From m) (m_Term m) (m_LogTerm m) (m_Index m) (m_Entries m) (m_Commit m) (m_Snapshot m) (m_Reject m) (m_ConflictTerm m) (m_CommitUse m) (m_XXX_unrecognized m).
#[export] Instance set_m_To : Setter m_To := fun g m =>
  mkMessage (m_MsgType m) (g (m_To m)) (m_From m) (m_Term m) (m_LogTerm m) (m_Index m) (m_Entries m) (m_Commit m) (m_Snapshot m) (m_Reject m) (m_ConflictTerm m) (m_CommitUse m) (m_XXX_unrecognized m).
#[export] Instance set_m_From : Setter m_From := fun g m =>
  mkMessage (m_MsgType m) (m_To m) (g (m_From m)) (m_Term m) (m_LogTerm m) (m_Index m) (m_Entries m) (m_Commit m) (m_Snapshot m) (m_Reject m) (m_ConflictTerm m) (m_CommitUse m) (m_XXX_unrecognized m).
#[export] Instance set_m_Term : Setter m_Term := fun g m =>
  mkMessage (m_MsgType m) (m_To m) (m_From m) (g (m_Term m)) (m_LogTerm m) (m_Index m) (m_Entries m) (m_Commit m) (m_Snapshot m) (m_Reject m) (m_ConflictTerm m) (m_CommitUse m) (m_XXX_unrecognized m).
#[export] Instance set_m_LogTerm : Setter m_LogTerm := fun g m =>
  mkMessage (m_MsgType m) (m_To m) (m_From m) (m_Term m) (g (m_LogTerm m)) (m_Index m) (m_Entries m) (m_Commit m) (m_Snapshot m) (m_Reject m) (m_ConflictTerm m) (m_CommitUse m) (m_XXX_unrecognized m).
#[export] Instance set_m_Index : Setter m_Index := fun g m =>
  mkMessage (m_MsgType m) (m_To m) (m_From m) (m_Term m) (m_LogTerm m) (g (m_Index m)) (m_Entries m) (m_Commit m) (m_Snapshot m) (m_Reject m) (m_ConflictTerm m) (m_CommitUse m) (m_XXX_unrecognized m).
#[export] Instance set_m_Entries : Setter m_Entries := fun g m =>
  mkMessage (m_MsgType m) (m_To m) (m_From m) (m_Term m) (m_LogTerm m) (m_Index m) (g (m_Entries m)) (m_Commit m) (m_Snapshot m) (m_Reject m) (m_ConflictTerm m) (m_CommitUse m) (m_XXX_unrecognized m).
#[export] Instance set_m_Commit : Setter m_Commit := fun g m =>
  mkMessage (m_MsgType m) (m_To m) (m_From m) (m_Term m) (m_LogTerm m) (m_Index m) (m_Entries m) (g (m_Commit m)) (m_Snapshot m) (m_Reject m) (m_ConflictTerm m) (m_CommitUse m) (m_XXX_unrecognized m).
#[export] Instance set_m_Snapshot : Setter m_Snapshot := fun g m =>
  mkMessage (m_MsgType m) (m_To m) (m_From m) (m_Term m) (m_LogTerm m) (m_Index m) (m_Entries m) (m_Commit m) (g (m_Snapshot m)) (m_Reject m) (m_ConflictTerm m) (m_CommitUse m) (m_XXX_unrecognized m).
#[export] Instance set_m_Reject : Setter m_Reject := fun g m =>
  mkMessage (m_MsgType m) (m_To m) (m_From m) (m_Term m) (m_LogTerm m) (m_Index m) (m_Entries m) (m_Commit m) (m_Snapshot m) (g (m_Reject m)) (m_ConflictTerm m) (m_CommitUse m) (m_XXX_unrecognized m).
#[export] Instance set_m_ConflictTerm : Setter m_ConflictTerm := fun g m =>
  mkMessage (m_MsgType m) (m_To m) (m_From m) (m_Term m) (m_LogTerm m) (m_Index m) (m_Entries m) (m_Commit m) (m_Snapshot m) (m_Reject m) (g (m_ConflictTerm m)) (m_CommitUse m) (m_XXX_unrecognized m).
#[export] Instance set_m_CommitUse : Setter m_CommitUse := fun g m =>
  mkMessage (m_MsgType m) (m_To m) (m_From m) (m_Term m) (m_LogTerm m) (m_Index m) (m_Entries m) (m_Commit m) (m_Snapshot m) (m_Reject m) (m_ConflictTerm m) (g (m_CommitUse m)) (m_XXX_unrecognized m).
#[export] Instance set_m_XXX_unrecognized : Setter m_XXX_unrecognized := fun g m =>
  mkMessage (m_MsgType m) (m_To m) (m_From m) (m_Term m) (m_LogTerm m) (m_Index m) (m_Entries m) (m_Commit m) (m_Snapshot m) (m_Reject m) (m_ConflictTerm m) (m_CommitUse m) (g (m_XXX_unrecognized m)).
#[export] Hint Unfold set_m_MsgType set_m_To set_m_From set_m_Term set_m_LogTerm
  set_m_Index set_m_Entries set_m_Commit set_m_Snapshot set_m_Reject
  set_m_ConflictTerm set_m_CommitUse set_m_XXX_unrecognized : setters.

Record HardState := mkHardState {
  hs_Term : Z;
  hs_Vote : Z;
  hs_Commit : Z;
  hs_XXX_unrecognized : option (list Z);
}.
#[export] Instance set_hs_Term : Setter hs_Term := fun g h =>
  mkHardState (g (hs_Term h)) (hs_Vote h) (hs_Commit h) (hs_XXX_unrecognized h).
#[export] Instance set_hs_Vote : Setter hs_Vote := fun g h =>
  mkHardState (hs_Term h) (g (hs_Vote h)) (hs_Commit h) (hs_XXX_unrecognized h).
#[export] Instance set_hs_Commit : Setter hs_Commit := fun g h =>
  mkHardState (hs_Term h) (hs_Vote h) (g (hs_Commit h)) (hs_XXX_unrecognized h).
#[export] Instance set_hs_XXX_unrecognized : Setter hs_XXX_unrecognized := fun g h =>
  mkHardState (hs_Term h) (hs_Vote h) (hs_Commit h) (g (hs_XXX_unrecognized h)).
#[export] Hint Unfold set_hs_Term set_hs_Vote set_hs_Commit set_hs_XXX_unrecognized : setters.

Record ConfChange := mkConfChange {
  cc_ChangeType : ConfChangeType;
  cc_NodeId : Z;
  cc_Context : option (list Z);
  cc_XXX_unrecognized : option (list Z);
}.
#[export] Instance set_cc_ChangeType : Setter cc_ChangeType := fun g c =>
  mkConfChange (g (cc_ChangeType c)) (cc_NodeId c) (cc_Context c) (cc_XXX_unrecognized c).
#[export] Instance set_cc_NodeId : Setter cc_NodeId := fun g c =>
  mkConfChange (cc_ChangeType c) (g (cc_NodeId c)) (cc_Context c) (cc_XXX_unrecognized c).
#[export] Instance set_cc_Context : Setter cc_Context := fun g c =>
  mkConfChange (cc_ChangeType c) (cc_NodeId c) (g (cc_Context c)) (cc_XXX_unrecognized c).
#[export] Instance set_cc_XXX_unrecognized : Setter cc_XXX_unrecognized := fun g c =>
  mkConfChange (cc_ChangeType c) (cc_NodeId c) (cc_Context c) (g (cc_XXX_unrecognized c)).
#[export] Hint Unfold set_cc_ChangeType set_cc_NodeId set_cc_Context
  set_cc_XXX_unrecognized : setters.

(** Zero values. *)
Definition zero_Entry : Entry := mkEntry EntryType_EntryNormal 0 0 None None.
Definition zero_Message : Message :=
  mkMessage MsgHup 0 0 0 0 0 [] 0 None false 0 false None.
Definition zero_HardState : HardState := mkHardState 0 0 0 None.
Definition zero_Snapshot : Snapshot := mkSnapshot None None None.

#[export] Instance Entry_eq_dec : EqDecision Entry.
Proof. solve_decision. Defined.
#[export] Instance ConfState_eq_dec : EqDecision ConfState.
Proof. solve_decision. Defined.
#[export] Instance SnapshotMetadata_eq_dec : EqDecision SnapshotMetadata.
Proof. solve_decision. Defined.
#[export] Instance Snapshot_eq_dec : EqDecision Snapshot.
Proof. solve_decision. Defined.
#[export] Instance Message_eq_dec : EqDecision Message.
Proof. solve_decision. Defined.
#[export] Instance HardState_eq_dec : EqDecision HardState.
Proof. solve_decision. Defined.

(** [HardState.Equal] and [HardState.IsEmpty]. *)
Definition HardState_Equal (st cur : HardState) : bool :=
  (hs_Commit st =? hs_Commit cur) && (hs_Vote st =? hs_Vote cur)
  && (hs_Term st =? hs_Term cur).
Definition HardState_IsEmpty (st : HardState) : bool :=
  HardState_Equal st zero_HardState.

Lemma HardState_Equal_spec a b :
  HardState_Equal a b = true <->
  hs_Term a = hs_Term b /\ hs_Vote a = hs_Vote b /\ hs_Commit a = hs_Commit b.
Proof.
  unfold HardState_Equal. rewrite !andb_true_iff, !Z.eqb_eq. tauto.
Qed.
