(* ===== verification/Wire.v ===== *)
(** * Wire: the protobuf wire format as the generated code reads and writes it

    The loops every generated [MarshalTo], [Size] and [Unmarshal] of
    [proto/pkg/eraftpb/eraftpb.pb.go] repeats, as combinators: a [writer] stores
    into a fixed-size buffer at an index and panics past its end; a field reader
    moves an index over the input.  [int] arithmetic on indices wraps at 64 bits. *)

From stdpp Require Import base option list tactics.
From S2P Require Import Prelude.

(** The errors of the generated code; the message texts are not modelled. *)
Inductive wire_error :=
  | ErrInvalidLength
  | ErrIntOverflow
  | ErrUnexpectedEOF
  | ErrEndGroup
  | ErrIllegalTag (fieldNum : Z)
  | ErrWrongWireType (wireType : Z)
  | ErrIllegalWireType (wireType : Z).

(** [dAtA[i] = b]. *)
Definition store {E} (dAtA : list Z) (i b : Z) : outcome E (list Z) :=
  if (0 <=? i) && (i <? len dAtA) then Ret (<[Z.to_nat i := b]> dAtA) else Panic.

(** [uint8(v)] and [uint64(v)]. *)
Definition uint8 (z : Z) : Z := z mod 256.
Definition uint64 (z : Z) : Z := wrap64 z.

(** ** Writing *)

(** [encodeVarintEraftpb]: at most ten rounds for a [uint64]. *)
Fixpoint encodeVarintLoop {E} (fuel : nat) (dAtA : list Z) (offset v : Z)
    : outcome E (list Z * Z) :=
  match fuel with
  | O => OutOfFuel
  | S fuel' =>
    if v >=? 128 then
      let! dAtA := store dAtA offset (uint8 (Z.lor (Z.land v 127) 128)) in
      encodeVarintLoop fuel' dAtA (offset + 1) (Z.shiftr v 7)
    else
      let! dAtA := store dAtA offset (uint8 v) in
      Ret (dAtA, offset + 1)
  end.
Definition encodeVarint {E} (dAtA : list Z) (offset v : Z) : outcome E (list Z * Z) :=
  encodeVarintLoop 10 dAtA offset v.

(** [sovEraftpb]: the number of bytes of a varint. *)
Fixpoint sovLoop (fuel : nat) (x n : Z) : Z :=
  match fuel with
  | O => n
  | S fuel' =>
    let n := n + 1 in
    let x := Z.shiftr x 7 in
    if x =? 0 then n else sovLoop fuel' x n
  end.
Definition sov (x : Z) : Z := sovLoop 10 x 0.

(** A statement sequence of [MarshalTo]: it fills the buffer and moves [i]. *)
Definition writer := list Z -> Z -> outcome wire_error (list Z * Z).

Definition wseq (w1 w2 : writer) : writer := fun dAtA i =>
  let! (dAtA, i) := w1 dAtA i in w2 dAtA i.
Notation "w1 ;> w2" := (wseq w1 w2) (at level 60, right associativity) : go_scope.
Definition wskip : writer := fun dAtA i => Ret (dAtA, i).
Definition wif (c : bool) (w : writer) : writer := if c then w else wskip.

(** [dAtA[i] = b; i++] *)
Definition put (b : Z) : writer := fun dAtA i =>
  let! dAtA := store dAtA i b in Ret (dAtA, i + 1).
(** [i = encodeVarint(dAtA, i, v)] *)
Definition put_varint (v : Z) : writer := fun dAtA i => encodeVarint dAtA i v.
(** [i += copy(dAtA[i:], src)]: as many bytes as fit. *)
Definition put_copy (src : list Z) : writer := fun dAtA i =>
  let! rest := slice_from dAtA i in
  let n := Nat.min (length rest) (length src) in
  Ret (take (Z.to_nat i) dAtA ++ take n src ++ drop n rest, i + Z.of_nat n).
(** [n, err := x.MarshalTo(dAtA[i:]); ...; i += n]: the callee fills a window of
    the same array. *)
Definition put_msg (marshalTo : list Z -> outcome wire_error (list Z * Z)) : writer :=
  fun dAtA i =>
  let! rest := slice_from dAtA i in
  let! (rest, n) := marshalTo rest in
  Ret (take (Z.to_nat i) dAtA ++ rest, i + n).

(** [if m.f != 0 { tag; varint }]. *)
Definition put_field_varint (tag v : Z) : writer :=
  wif (negb (v =? 0)) (put tag ;> put_varint (uint64 v)).
(** [if len(m.f) > 0 { tag; length; copy }]. *)
Definition put_field_bytes (tag : Z) (data : option (list Z)) : writer :=
  let b := default [] data in
  wif (len b >? 0) (put tag ;> put_varint (uint64 (len b)) ;> put_copy b).
(** [if m.XXX_unrecognized != nil { copy }]. *)
Definition put_unrecognized (u : option (list Z)) : writer :=
  match u with Some b => put_copy b | None => wskip end.
(** An embedded message: [tag; size; MarshalTo]. *)
Definition put_field_msg (tag size : Z)
    (marshalTo : list Z -> outcome wire_error (list Z * Z)) : writer :=
  put tag ;> put_varint (uint64 size) ;> put_msg marshalTo.

(** The summands of [Size]. *)
Definition size_varint (v : Z) : Z := if negb (v =? 0) then 1 + sov (uint64 v) else 0.
Definition size_delim (l : Z) : Z := 1 + l + sov (uint64 l).
Definition size_bytes (data : option (list Z)) : Z :=
  let l := len (default [] data) in if l >? 0 then size_delim l else 0.
Definition size_unrecognized (u : option (list Z)) : Z :=
  match u with Some b => len b | None => 0 end.

(** [Marshal]: a buffer of [Size()] zero bytes, filled, cut at [n]. *)
Definition marshalWith (size : Z) (marshalTo : list Z -> outcome wire_error (list Z * Z))
    : outcome wire_error (list Z) :=
  let! (dAtA, n) := marshalTo (replicate (Z.to_nat size) 0) in
  slice_to dAtA n.

(** ** Reading *)

(** The varint loop of [Unmarshal]; [conv] truncates to the type of the variable. *)
Fixpoint readVarintLoop (conv : Z -> Z) (dAtA : list Z) (fuel : nat) (iNdEx shift acc : Z)
    : outcome wire_error (Z * Z) :=
  match fuel with
  | O => OutOfFuel
  | S fuel' =>
    if shift >=? 64 then Err ErrIntOverflow else
    if iNdEx >=? len dAtA then Err ErrUnexpectedEOF else
    let! b := index dAtA iNdEx in
    let acc := conv (Z.lor acc (Z.shiftl (Z.land b 127) shift)) in
    if b <? 128 then Ret (acc, iNdEx + 1)
    else readVarintLoop conv dAtA fuel' (iNdEx + 1) (shift + 7) acc
  end.
Definition readVarint (conv : Z -> Z) (dAtA : list Z) (iNdEx : Z)
    : outcome wire_error (Z * Z) :=
  readVarintLoop conv dAtA 11 iNdEx 0 0.

(** A [case] of the field switch: it gets the wire type, the input, the message
    and the index after the tag. *)
Definition field_reader (M : Type) :=
  Z -> list Z -> M -> Z -> outcome wire_error (M * Z).

Definition read_varint {M} (conv : Z -> Z) (set : Z -> M -> M) : field_reader M :=
  fun wireType dAtA m iNdEx =>
  if negb (wireType =? 0) then Err (ErrWrongWireType wireType) else
  let! (v, iNdEx) := readVarint conv dAtA iNdEx in
  Ret (set v m, iNdEx).

(** A length-delimited field: [k] consumes the window. *)
Definition read_delim {M} (k : list Z -> M -> outcome wire_error M) : field_reader M :=
  fun wireType dAtA m iNdEx =>
  if negb (wireType =? 2) then Err (ErrWrongWireType wireType) else
  let! (byteLen, iNdEx) := readVarint int64 dAtA iNdEx in
  if byteLen <? 0 then Err ErrInvalidLength else
  let postIndex := int64 (iNdEx + byteLen) in
  if postIndex >? len dAtA then Err ErrUnexpectedEOF else
  let! window := slice dAtA iNdEx postIndex in
  let! m := k window m in
  Ret (m, postIndex).

Definition read_bytes {M} (set : option (list Z) -> M -> M) : field_reader M :=
  read_delim (fun window m => Ret (set (Some window) m)).

(** [skipEraftpb]: the length of the field at the head of [dAtA].  Inside a group
    the fields up to the end-group tag are skipped in turn. *)
Fixpoint groupLoop (skip : list Z -> outcome wire_error Z) (fuel : nat)
    (dAtA : list Z) (iNdEx : Z) : outcome wire_error Z :=
  match fuel with
  | O => OutOfFuel
  | S fuel' =>
    let start := iNdEx in
    let! (innerWire, iNdEx) := readVarint wrap64 dAtA iNdEx in
    if Z.land innerWire 7 =? 4 then Ret iNdEx else
    let! rest := slice_from dAtA start in
    let! next := skip rest in
    groupLoop skip fuel' dAtA (int64 (start + next))
  end.

(** The varint loop of [case 0], which only moves the index. *)
Fixpoint skipVarint (dAtA : list Z) (fuel : nat) (iNdEx shift : Z) : outcome wire_error Z :=
  match fuel with
  | O => OutOfFuel
  | S fuel' =>
    if shift >=? 64 then Err ErrIntOverflow else
    if iNdEx >=? len dAtA then Err ErrUnexpectedEOF else
    let! b := index dAtA iNdEx in
    if b <? 128 then Ret (iNdEx + 1) else skipVarint dAtA fuel' (iNdEx + 1) (shift + 7)
  end.

Fixpoint skipF (fuel : nat) (dAtA : list Z) : outcome wire_error Z :=
  match fuel with
  | O => OutOfFuel
  | S fuel' =>
    if 0 <? len dAtA then
      let! (wire, iNdEx) := readVarint wrap64 dAtA 0 in
      let wireType := Z.land wire 7 in
      if wireType =? 0 then skipVarint dAtA 11 iNdEx 0
      else if wireType =? 1 then Ret (int64 (iNdEx + 8))
      else if wireType =? 2 then
        let! (length, iNdEx) := readVarint int64 dAtA iNdEx in
        let iNdEx := int64 (iNdEx + length) in
        if length <? 0 then Err ErrInvalidLength else Ret iNdEx
      else if wireType =? 3 then groupLoop (skipF fuel') fuel' dAtA iNdEx
      else if wireType =? 4 then Ret iNdEx
      else if wireType =? 5 then Ret (int64 (iNdEx + 4))
      else Err (ErrIllegalWireType wireType)
    else Panic
  end.
Definition skip (dAtA : list Z) : outcome wire_error Z := skipF (S (length dAtA)) dAtA.

(** The loop of [Unmarshal]: [field] is the field switch, [unrec] appends to
    [XXX_unrecognized]. *)
Fixpoint unmarshalLoop {M} (field : Z -> option (field_reader M))
    (unrec : list Z -> M -> M) (dAtA : list Z) (fuel : nat) (iNdEx : Z) (m : M)
    : outcome wire_error M :=
  match fuel with
  | O => OutOfFuel
  | S fuel' =>
    if iNdEx <? len dAtA then
      let preIndex := iNdEx in
      let! (wire, iNdEx) := readVarint wrap64 dAtA iNdEx in
      let fieldNum := int32 (Z.shiftr wire 3) in
      let wireType := Z.land wire 7 in
      if wireType =? 4 then Err ErrEndGroup else
      if fieldNum <=? 0 then Err (ErrIllegalTag fieldNum) else
      match field fieldNum with
      | Some reader =>
        let! (m, iNdEx) := reader wireType dAtA m iNdEx in
        unmarshalLoop field unrec dAtA fuel' iNdEx m
      | None =>
        let! rest := slice_from dAtA preIndex in
        let! skippy := skip rest in
        if skippy <? 0 then Err ErrInvalidLength else
        let next := int64 (preIndex + skippy) in
        if next >? len dAtA then Err ErrUnexpectedEOF else
        let! bytes := slice dAtA preIndex next in
        unmarshalLoop field unrec dAtA fuel' next (unrec bytes m)
      end
    else if iNdEx >? len dAtA then Err ErrUnexpectedEOF else Ret m
  end.

Definition unmarshalWith {M} (field : Z -> option (field_reader M))
    (unrec : list Z -> M -> M) (m : M) (dAtA : list Z) : outcome wire_error M :=
  unmarshalLoop field unrec dAtA (S (length dAtA)) 0 m.

(** [append(m.XXX_unrecognized, bytes...)]. *)
Definition append_unrec (bytes : list Z) (u : option (list Z)) : option (list Z) :=
  match u with
  | Some b => Some (b ++ bytes)
  | None => if bytes is [] then None else Some bytes
  end.
