(* ===== verification/WireFacts.v ===== *)
(** * WireFacts: writing and reading the wire format

    [emits w bs]: the writer [w] stores exactly the bytes [bs].  [consumes]: the
    [Unmarshal] loop reads [bs] and turns one message into another.  Both compose,
    so that the round trip of a message follows field by field.  The loops of
    [skip] and [Unmarshal] are shown to terminate on every input. *)

From stdpp Require Import base option list tactics.
From S2P Require Import Prelude.
From S2P Require Import Wire.

(** ** Varints *)

(** The bytes of a varint, low seven bits first. *)
Fixpoint varint_bytes (n : nat) (v : Z) : list Z :=
  match n with
  | O => []
  | S n' => if v <? 128 then [v] else Z.lor (Z.land v 127) 128 :: varint_bytes n' (Z.shiftr v 7)
  end.
Definition varint (v : Z) : list Z := varint_bytes 10 v.

(** [v] fits in [n] groups of seven bits. *)
Definition fits (n : nat) (v : Z) : Prop := 0 <= v < 2 ^ (7 * Z.of_nat n).

Lemma fits_u64 v : is_u64 v -> fits 10 v.
Proof. unfold is_u64, two64, fits. simpl. lia. Qed.

Lemma fits_0 v : fits 0 v -> v = 0.
Proof. unfold fits. simpl. lia. Qed.

Lemma fits_S n v : fits (S n) v -> fits n (Z.shiftr v 7).
Proof.
  unfold fits. intros [H0 H1]. rewrite Z.shiftr_div_pow2 by lia.
  split; [apply Z.div_pos; lia|]. apply Z.div_lt_upper_bound; [lia|].
  rewrite <- Z.pow_add_r by lia. by replace (7 + 7 * Z.of_nat n) with (7 * Z.of_nat (S n)) by lia.
Qed.

Lemma low7 v : 0 <= v -> Z.land v 127 = v mod 128.
Proof. intros. exact (Z.land_ones v 7 ltac:(lia)). Qed.

Lemma high_byte v : 0 <= v -> Z.lor (Z.land v 127) 128 = v mod 128 + 128.
Proof.
  intros Hv. rewrite low7 by done. assert (Hl : Z.land (v mod 2 ^ 7) (2 ^ 7) = 0).
  { apply Z.bits_inj'. intros i Hi. rewrite Z.land_spec, Z.bits_0, Z.pow2_bits_eqb by lia.
    destruct (Z.eqb_spec 7 i) as [<-|]; [|apply andb_false_r].
    by rewrite Z.mod_pow2_bits_high by lia. }
  change (Z.lor (v mod 2 ^ 7) (2 ^ 7) = v mod 2 ^ 7 + 2 ^ 7).
  by rewrite <- Z.lxor_lor, Z.add_nocarry_lxor.
Qed.

Lemma varint_is_bytes n v : 0 <= v -> is_bytes (varint_bytes n v).
Proof.
  revert v. induction n as [|n IH]; intros v Hv; simpl; [constructor|].
  pose proof (Z.mod_pos_bound v 128 ltac:(lia)).
  zif.
  - constructor; [|constructor]. split; lia.
  - constructor.
    + rewrite high_byte by lia. split; lia.
    + apply IH. by apply Z.shiftr_nonneg.
Qed.

Lemma varint_len_pos n v : 1 <= len (varint_bytes (S n) v).
Proof. simpl. zif; [done|]. rewrite len_cons. pose proof (len_nonneg (varint_bytes n (Z.shiftr v 7))). lia. Qed.

Lemma varint_len_le n v : len (varint_bytes n v) <= Z.of_nat n.
Proof.
  revert v. induction n as [|n IH]; intros v; simpl; [done|].
  zif; [rewrite len_cons, len_nil; lia|]. rewrite len_cons. specialize (IH (Z.shiftr v 7)). lia.
Qed.

Lemma shiftr7_0 v : 0 <= v -> Z.shiftr v 7 = 0 <-> v < 128.
Proof.
  intros Hv. rewrite Z.shiftr_div_pow2 by lia. change (2 ^ 7) with 128. split; intros H.
  - pose proof (Z.div_mod v 128). pose proof (Z.mod_pos_bound v 128). lia.
  - apply Z.div_small. lia.
Qed.

Lemma sovLoop_len n v k : fits (S n) v -> sovLoop (S n) v k = k + len (varint_bytes (S n) v).
Proof.
  revert v k. induction n as [|n IH]; intros v k Hv.
  - apply fits_S in Hv as Hs. apply fits_0 in Hs. cbn [sovLoop]. rewrite Hs. simpl.
    unfold fits in Hv. simpl in Hv. zif; [done|lia].
  - assert (H0 : 0 <= v) by apply Hv. pose proof (shiftr7_0 v H0).
    change (sovLoop (S (S n)) v k) with
      (if Z.shiftr v 7 =? 0 then k + 1 else sovLoop (S n) (Z.shiftr v 7) (k + 1)).
    change (varint_bytes (S (S n)) v) with
      (if v <? 128 then [v] else Z.lor (Z.land v 127) 128 :: varint_bytes (S n) (Z.shiftr v 7)).
    zif.
    + zif; [done|lia].
    + rewrite IH by (by apply fits_S). zif; [lia|]. rewrite len_cons. lia.
Qed.

Lemma sov_len v : is_u64 v -> sov v = len (varint v).
Proof. intros Hv. exact (sovLoop_len 9 v 0 (fits_u64 v Hv)). Qed.

(** ** Writers *)

Definition emits (w : writer) (bs : list Z) : Prop :=
  forall pre buf, len bs <= len buf ->
    w (pre ++ buf) (len pre) = Ret (pre ++ bs ++ drop (length bs) buf, len (pre ++ bs)).

(** [MarshalTo] seen from outside: it fills the head of the window. *)
Definition fills (marshalTo : list Z -> outcome wire_error (list Z * Z)) (bs : list Z) : Prop :=
  forall buf, len bs <= len buf ->
    marshalTo buf = Ret (bs ++ drop (length bs) buf, len bs).

Lemma store_app {E} pre x buf b :
  store (E:=E) (pre ++ x :: buf) (len pre) b = Ret (pre ++ b :: buf).
Proof.
  unfold store. rewrite len_app, len_cons. pose proof (len_nonneg pre). pose proof (len_nonneg buf).
  zcmp; try lia. simpl. f_equal. unfold len. rewrite Nat2Z.id.
  by rewrite insert_app_r_alt, Nat.sub_diag by lia.
Qed.

Lemma uint8_byte b : is_byte b -> uint8 b = b.
Proof. intros. unfold uint8. by apply Z.mod_small. Qed.

Lemma emits_seq w1 w2 b1 b2 : emits w1 b1 -> emits w2 b2 -> emits (w1 ;> w2) (b1 ++ b2).
Proof.
  intros H1 H2 pre buf Hl. rewrite len_app in Hl. pose proof (len_nonneg b2).
  unfold wseq. rewrite H1 by lia. rewrite app_assoc, H2.
  - by rewrite drop_drop, length_app, !app_assoc.
  - rewrite len_drop. pose proof (len_nonneg b1). unfold len in *. lia.
Qed.

Lemma emits_skip : emits wskip [].
Proof. intros pre buf _. unfold wskip. by rewrite app_nil_r. Qed.

Lemma emits_if (c : bool) w bs : (c = true -> emits w bs) -> emits (wif c w) (if c then bs else []).
Proof. intros Hw. destruct c; [by apply Hw|apply emits_skip]. Qed.

Lemma emits_put b : emits (put b) [b].
Proof.
  intros pre [|x buf] Hl; rewrite ?len_cons, ?len_nil in Hl; [lia|]. unfold put.
  rewrite store_app. simpl. by rewrite drop_0, len_app.
Qed.

Lemma encodeVarintLoop_emits n v :
  fits (S n) v -> emits (fun d i => encodeVarintLoop (S n) d i v) (varint_bytes (S n) v).
Proof.
  revert v. induction n as [|n IH]; intros v Hv pre [|x buf] Hl.
  1,3: exfalso; match type of Hl with len (varint_bytes (S ?k) _) <= _ =>
         pose proof (varint_len_pos k v) end; rewrite len_nil in Hl; lia.
  - unfold fits in Hv. simpl in Hv |- *. zif; [lia|]. zif; [|lia].
    rewrite store_app, uint8_byte by (split; lia). simpl. by rewrite drop_0, len_app.
  - change (varint_bytes (S (S n)) v) with (if v <? 128 then [v]
      else Z.lor (Z.land v 127) 128 :: varint_bytes (S n) (Z.shiftr v 7)) in *.
    change (encodeVarintLoop (S (S n)) ?d ?i v) with (if v >=? 128 then
      let! dAtA := store (E:=wire_error) d i (uint8 (Z.lor (Z.land v 127) 128)) in
      encodeVarintLoop (S n) dAtA (i + 1) (Z.shiftr v 7)
      else let! dAtA := store d i (uint8 v) in Ret (dAtA, i + 1)).
    assert (H0 : 0 <= v) by apply Hv. pose proof (Z.mod_pos_bound v 128 ltac:(lia)).
    destruct (v <? 128) eqn:Hc;
      [replace (v >=? 128) with false by lia|replace (v >=? 128) with true by lia].
    1: rewrite store_app, uint8_byte by (split; lia); simpl; by rewrite drop_0, len_app.
    rewrite store_app, uint8_byte by (rewrite high_byte by lia; split; lia).
    rewrite (cons_middle _ pre buf), app_assoc.
    replace (len pre + 1) with (len (pre ++ [Z.lor (Z.land v 127) 128])) by (by rewrite len_app).
    rewrite (IH (Z.shiftr v 7)).
    + by rewrite <- !app_assoc.
    + by apply fits_S.
    + rewrite !len_cons in Hl. lia.
Qed.

Lemma emits_varint v : is_u64 v -> emits (put_varint v) (varint v).
Proof. intros Hv. exact (encodeVarintLoop_emits 9 v (fits_u64 v Hv)). Qed.

Lemma window_from {E} (pre buf : list Z) : slice_from (E:=E) (pre ++ buf) (len pre) = Ret buf.
Proof.
  rewrite slice_from_ok by (rewrite len_app; pose proof (len_nonneg pre); pose proof (len_nonneg buf); lia).
  unfold len. by rewrite Nat2Z.id, drop_app_length.
Qed.

Lemma emits_copy src : emits (put_copy src) src.
Proof.
  intros pre buf Hl. unfold put_copy. rewrite window_from.
  rewrite (Nat.min_r _ _) by (unfold len in Hl; lia).
  unfold len at 1. rewrite Nat2Z.id, take_app_length, take_ge by lia.
  by rewrite len_app.
Qed.

Lemma emits_msg mt bs : fills mt bs -> emits (put_msg mt) bs.
Proof.
  intros Hf pre buf Hl. unfold put_msg. rewrite window_from, Hf by done.
  unfold len at 1. by rewrite Nat2Z.id, take_app_length, len_app.
Qed.

Lemma emits_fills w bs : emits w bs -> fills (fun d => w d 0) bs.
Proof. intros Hw buf Hl. exact (Hw [] buf Hl). Qed.

Lemma marshalWith_fills size mt bs :
  fills mt bs -> size = len bs -> marshalWith size mt = Ret bs.
Proof.
  intros Hf ->. unfold marshalWith. rewrite Hf.
  - rewrite slice_to_ok.
    + unfold len. by rewrite Nat2Z.id, take_app_length.
    + rewrite len_app. pose proof (len_nonneg bs).
      pose proof (len_nonneg (drop (length bs) (replicate (Z.to_nat (len bs)) 0))). lia.
  - unfold len. rewrite length_replicate. lia.
Qed.

(** ** Reading varints *)

(** A truncation that ignores the bits it has already dropped. *)
Class Truncates (conv : Z -> Z) :=
  conv_lor : forall a b, conv (Z.lor (conv a) b) = conv (Z.lor a b).

Lemma lor_mod a b n : 0 <= n -> Z.lor a b mod 2 ^ n = Z.lor (a mod 2 ^ n) (b mod 2 ^ n).
Proof. intros. rewrite <- !Z.land_ones by done. apply Z.land_lor_distr_l. Qed.

Lemma truncates_mod conv n :
  0 <= n -> (forall a, conv a mod 2 ^ n = a mod 2 ^ n) ->
  (forall a b, a mod 2 ^ n = b mod 2 ^ n -> conv a = conv b) -> Truncates conv.
Proof. intros Hn Hm Hc a b. apply Hc. by rewrite !lor_mod, Hm. Qed.

Lemma signed_mod (h w a : Z) : 0 < w -> ((a + h) mod w - h) mod w = a mod w.
Proof. intros. rewrite Zminus_mod_idemp_l. f_equal. lia. Qed.
Lemma signed_ext (h w a b : Z) :
  a mod w = b mod w -> (a + h) mod w - h = (b + h) mod w - h.
Proof. intros H. f_equal. by rewrite Zplus_mod, H, <- Zplus_mod. Qed.

#[export] Instance wrap64_truncates : Truncates wrap64.
Proof.
  apply (truncates_mod _ 64); [lia| |]; unfold wrap64; change two64 with (2 ^ 64).
  - intros. by rewrite Z.mod_mod.
  - done.
Qed.
#[export] Instance int64_truncates : Truncates int64.
Proof.
  apply (truncates_mod _ 64); [lia| |]; unfold int64; change two64 with (2 ^ 64); intros.
  - by apply signed_mod.
  - by apply signed_ext.
Qed.
#[export] Instance int32_truncates : Truncates int32.
Proof.
  apply (truncates_mod _ 32); [lia| |]; unfold int32; change two32 with (2 ^ 32); intros.
  - by apply signed_mod.
  - by apply signed_ext.
Qed.

(** Seven bits and the rest make up the number. *)
Lemma split7 v s : 0 <= s ->
  Z.lor (Z.shiftl (Z.land v 127) s) (Z.shiftl (Z.shiftr v 7) (s + 7)) = Z.shiftl v s.
Proof.
  intros Hs. rewrite Z.add_comm, <- Z.shiftl_shiftl, <- Z.shiftl_lor by lia. f_equal.
  apply Z.bits_inj'. intros i Hi. change 127 with (Z.ones 7).
  rewrite Z.lor_spec, Z.land_spec, Z.testbit_ones_nonneg by lia. zcmp.
  - rewrite Z.shiftl_spec_low by lia. by rewrite andb_true_r, orb_false_r.
  - rewrite Z.shiftl_spec, Z.shiftr_spec by lia. rewrite andb_false_r. simpl. f_equal. lia.
Qed.

Lemma index_app {E} pre (b : Z) suf : index (E:=E) (pre ++ b :: suf) (len pre) = Ret b.
Proof.
  apply index_lookup; [apply len_nonneg|]. unfold len. rewrite Nat2Z.id.
  rewrite lookup_app_r, Nat.sub_diag by lia. done.
Qed.

Lemma high_byte_low v : 0 <= v -> Z.land (Z.lor (Z.land v 127) 128) 127 = Z.land v 127.
Proof.
  intros. rewrite Z.land_lor_distr_l, <- Z.land_assoc. change (Z.land 127 127) with 127.
  change (Z.land 128 127) with 0. apply Z.lor_0_r.
Qed.

Lemma low7_small v : 0 <= v < 128 -> Z.land v 127 = v.
Proof. intros. rewrite low7 by lia. apply Z.mod_small. lia. Qed.

Lemma readVarintLoop_bytes conv `{!Truncates conv} n v acc pre suf :
  (n < 10)%nat -> fits (S n) v ->
  let s := 63 - 7 * Z.of_nat n in
  readVarintLoop conv (pre ++ varint_bytes (S n) v ++ suf) (S (S n)) (len pre) s acc
  = Ret (conv (Z.lor acc (Z.shiftl v s)), len (pre ++ varint_bytes (S n) v)).
Proof.
  cbv zeta. revert v acc pre. induction n as [|n IH]; intros v acc pre Hn Hv.
  - assert (0 <= v < 128) by exact Hv.
    cbn [readVarintLoop varint_bytes]. replace (v <? 128) with true by lia. cbn [app].
    rewrite len_app, len_cons, index_app.
    pose proof (len_nonneg suf). zif; [lia|]. zif; [lia|].
    rewrite low7_small by done. replace (v <? 128) with true by lia.
    by rewrite len_app.
  - assert (H0 : 0 <= v) by apply Hv. pose proof (Z.mod_pos_bound v 128 ltac:(lia)).
    change (varint_bytes (S (S n)) v) with (if v <? 128 then [v]
      else Z.lor (Z.land v 127) 128 :: varint_bytes (S n) (Z.shiftr v 7)).
    remember (S (S n)) as k eqn:Hk. cbn [readVarintLoop].
    zif; [lia|]. destruct (v <? 128) eqn:Hc; cbn [app].
    + rewrite len_app, len_cons, index_app. pose proof (len_nonneg suf). zif; [lia|].
      rewrite low7_small by lia. rewrite Hc. by rewrite len_app.
    + rewrite len_app, len_cons, index_app.
      pose proof (len_nonneg (varint_bytes (S n) (Z.shiftr v 7) ++ suf)). zif; [lia|].
      rewrite high_byte_low by done.
      replace (Z.lor (Z.land v 127) 128 <? 128) with false by (rewrite high_byte by done; lia).
      rewrite (cons_middle _ pre), app_assoc.
      replace (len pre + 1) with (len (pre ++ [Z.lor (Z.land v 127) 128])) by (by rewrite len_app).
      replace (63 - 7 * Z.of_nat (S n) + 7) with (63 - 7 * Z.of_nat n) by lia. subst k.
      rewrite IH by (lia || by apply fits_S). f_equal. f_equal; [|by rewrite <- app_assoc].
      rewrite conv_lor, <- Z.lor_assoc. do 2 f_equal.
      replace (63 - 7 * Z.of_nat n) with (63 - 7 * Z.of_nat (S n) + 7) by lia.
      apply split7. lia.
Qed.

Lemma readVarint_bytes conv `{!Truncates conv} v pre suf :
  is_u64 v ->
  readVarint conv (pre ++ varint v ++ suf) (len pre) = Ret (conv v, len (pre ++ varint v)).
Proof.
  intros Hv. pose proof (readVarintLoop_bytes conv 9 v 0 pre suf ltac:(lia) (fits_u64 v Hv)) as H.
  cbv zeta in H. change (63 - 7 * Z.of_nat 9) with 0 in H. by rewrite Z.shiftl_0_r in H.
Qed.

(** ** The loops terminate *)

(** The call does not run out of fuel, and its result satisfies [P]. *)
Definition ends {E A} (o : outcome E A) (P : A -> Prop) : Prop :=
  match o with OutOfFuel => False | Ret a => P a | _ => True end.

Lemma ends_bind {E A B} (c : outcome E A) (k : A -> outcome E B) P Q :
  ends c P -> (forall a, P a -> ends (k a) Q) -> ends (let! x := c in k x) Q.
Proof. destruct c; simpl; auto. Qed.
Lemma ends_mono {E A} (o : outcome E A) (P Q : A -> Prop) :
  ends o P -> (forall a, P a -> Q a) -> ends o Q.
Proof. destruct o; simpl; auto. Qed.

Lemma index_ends {E A} (l : list A) i : ends (index (E:=E) l i) (fun _ => 0 <= i).
Proof. unfold index. zif; [|done]. by destruct (l !! _). Qed.
Lemma slice_ends {E A} (l : list A) lo hi :
  ends (slice (E:=E) l lo hi) (fun r => 0 <= lo <= hi /\ hi <= len l /\ len r = hi - lo).
Proof.
  unfold slice. bif; [|done]. simpl. split_and!; try lia.
  rewrite len_take, len_drop. lia.
Qed.

Lemma readVarintLoop_ends conv dAtA n i s acc :
  64 <= s + 7 * Z.of_nat n ->
  ends (readVarintLoop conv dAtA (S n) i s acc)
    (fun p => 0 <= i < snd p /\ snd p <= len dAtA /\ exists x, fst p = conv x).
Proof.
  revert i s acc. induction n as [|n IH]; intros i s acc Hs.
  - cbn [readVarintLoop]. zif; [done|lia].
  - remember (S n) as k. cbn [readVarintLoop]. zif; [done|]. zif; [done|].
    eapply ends_bind; [apply index_ends|]. intros b Hi. cbn beta in Hi. zif.
    { cbn [ends snd fst]. split_and!; [lia..|by eexists]. }
    subst k. eapply ends_mono; [apply IH; lia|]. cbn beta. intros p (? & ? & ?).
    split_and!; [lia..|done].
Qed.
Lemma readVarint_ends conv dAtA i :
  ends (readVarint conv dAtA i)
    (fun p => 0 <= i < snd p /\ snd p <= len dAtA /\ exists x, fst p = conv x).
Proof. by apply readVarintLoop_ends. Qed.

Lemma skipVarint_ends dAtA n i s :
  64 <= s + 7 * Z.of_nat n ->
  ends (skipVarint dAtA (S n) i s) (fun i' => 0 <= i < i' /\ i' <= len dAtA).
Proof.
  revert i s. induction n as [|n IH]; intros i s Hs.
  - cbn [skipVarint]. zif; [done|lia].
  - remember (S n) as k. cbn [skipVarint]. zif; [done|]. zif; [done|].
    eapply ends_bind; [apply index_ends|]. intros b Hi. cbn beta in Hi. zif; [cbn [ends snd]; lia|]. subst k.
    eapply ends_mono; [apply IH; lia|]. cbn beta. intros i'. lia.
Qed.

(** A skip length: positive, or far below zero after an overflow. *)
Definition two62 : Z := 4611686018427387904.
Definition skip_len (n : Z) : Prop := - two63 <= n < - two62 \/ 0 < n < two63.

Lemma int64_overflow a : two63 <= a < two63 + two62 -> int64 a = a - two64.
Proof.
  unfold int64, two62, two63, two64. intros Ha.
  replace (a + 9223372036854775808) with (a - 9223372036854775808 + 1 * 18446744073709551616) by lia.
  rewrite Z.mod_add, Z.mod_small by lia. lia.
Qed.

Lemma skip_len_add i n : 0 < i < two62 -> 0 <= n < two63 -> skip_len (int64 (i + n)).
Proof.
  intros Hi Hn. destruct (Z.lt_ge_cases (i + n) two63).
  - rewrite int64_small by (unfold two63 in *; lia). right. lia.
  - rewrite int64_overflow by lia. left. unfold two62, two63, two64 in *. lia.
Qed.

(** The index after a skip: further on, or negative. *)
Lemma skip_next i n : 0 <= i < two62 -> skip_len n ->
  int64 (i + n) = i + n /\ 0 < n \/ int64 (i + n) < 0.
Proof.
  intros Hi [Hn|Hn].
  - right. rewrite int64_small; unfold two62, two63 in *; lia.
  - destruct (Z.lt_ge_cases (i + n) two63).
    + left. split; [|lia]. apply int64_small. unfold two63 in *; lia.
    + right. rewrite int64_overflow; unfold two62, two63, two64 in *; lia.
Qed.

Lemma groupLoop_neg skipf dAtA n i P :
  i < 0 -> (0 < n)%nat -> ends (groupLoop skipf n dAtA i) P.
Proof.
  intros Hi Hn. destruct n as [|n]; [lia|]. cbn [groupLoop].
  eapply ends_bind; [apply readVarint_ends|]. intros [w j]. cbn. lia.
Qed.

Lemma groupLoop_ends skipf dAtA n i :
  len dAtA < two62 -> (forall d, len d < len dAtA -> ends (skipf d) skip_len) ->
  0 < i -> len dAtA - i < Z.of_nat n -> (0 < n)%nat ->
  ends (groupLoop skipf n dAtA i) skip_len.
Proof.
  intros Hl Hsk. revert i. induction n as [|n IH]; intros i Hi Hn H0; [lia|]. cbn [groupLoop].
  eapply ends_bind; [apply readVarint_ends|]. intros [w j] (Hj & Hj' & _). cbn [snd] in Hj, Hj'.
  zif; [right; unfold two62, two63 in *; lia|].
  eapply ends_bind; [apply slice_ends|]. intros rest (_ & _ & Hr).
  eapply ends_bind; [apply Hsk; lia|]. intros next Hnext.
  destruct (skip_next i next) as [[-> Hpos]|Hneg]; [lia|done| |].
  - apply IH; lia.
  - apply groupLoop_neg; [done|lia].
Qed.

Lemma int64_range x : - two63 <= int64 x < two63.
Proof.
  unfold int64, two63, two64. pose proof (Z.mod_pos_bound (x + 9223372036854775808) 18446744073709551616).
  lia.
Qed.

Lemma skipF_ends n dAtA :
  len dAtA < Z.of_nat n -> len dAtA < two62 -> ends (skipF n dAtA) skip_len.
Proof.
  revert dAtA. induction n as [|n IH]; intros dAtA Hn Hl; [pose proof (len_nonneg dAtA); lia|].
  cbn [skipF]. zif; [|done].
  eapply ends_bind; [apply readVarint_ends|]. intros [w j] (Hj & Hj' & _). cbn [snd] in Hj, Hj'.
  zif.
  { eapply ends_mono; [by apply skipVarint_ends|]. intros i' Hi'. right.
    unfold two62, two63 in *. lia. }
  zif; [apply skip_len_add; unfold two63; lia|]. zif.
  { eapply ends_bind; [apply readVarint_ends|]. intros [x k] (Hk & Hk' & v & Hv).
    cbn [snd fst] in Hk, Hk', Hv. pose proof (int64_range v). zif; [done|].
    apply skip_len_add; lia. }
  zif; [apply groupLoop_ends; try lia; intros d Hd; apply IH; lia|].
  zif; [right; unfold two62, two63 in *; lia|].
  zif; [apply skip_len_add; unfold two63; lia|done].
Qed.

Lemma skip_ends dAtA : len dAtA < two62 -> ends (skip dAtA) skip_len.
Proof. apply skipF_ends. unfold len. lia. Qed.

(** A field reader that terminates and moves the index forward. *)
Definition reader_ends {M} (rd : field_reader M) : Prop :=
  forall wt dAtA m i, 0 <= i -> len dAtA < two62 ->
    ends (rd wt dAtA m i) (fun p => i <= snd p).

Lemma read_varint_ends {M} conv (set : Z -> M -> M) : reader_ends (read_varint conv set).
Proof.
  intros wt dAtA m i Hi Hl. unfold read_varint. destruct (negb _); [done|].
  eapply ends_bind; [apply readVarint_ends|]. intros [v j] (Hj & _). cbn in *. lia.
Qed.

Lemma read_delim_ends {M} (k : list Z -> M -> outcome wire_error M) :
  (forall w m, len w < two62 -> ends (k w m) (fun _ => True)) -> reader_ends (read_delim k).
Proof.
  intros Hk wt dAtA m i Hi Hl. unfold read_delim. destruct (negb _); [done|].
  eapply ends_bind; [apply readVarint_ends|]. intros [v j] (Hj & _). cbn [snd] in Hj.
  zif; [done|]. zif; [done|]. eapply ends_bind; [apply slice_ends|]. intros w (Hw & _ & Hw').
  eapply ends_bind; [apply Hk; lia|]. intros m' _. cbn. lia.
Qed.

(** [Unmarshal] terminates on every input: one round per input byte is enough. *)
Lemma unmarshalLoop_ends {M} (field : Z -> option (field_reader M)) unrec dAtA n i m :
  (forall k rd, field k = Some rd -> reader_ends rd) ->
  0 <= i -> len dAtA < two62 -> len dAtA - i < Z.of_nat n -> (0 < n)%nat ->
  ends (unmarshalLoop field unrec dAtA n i m) (fun _ => True).
Proof.
  intros Hf Hi Hl. revert i m Hi. induction n as [|n IH]; intros i m Hi Hn H0; [lia|].
  cbn [unmarshalLoop]. zif; [|zif; done].
  eapply ends_bind; [apply readVarint_ends|]. intros [w j] (Hj & Hj' & _). cbn [snd] in Hj, Hj'.
  zif; [done|]. zif; [done|]. destruct (field _) as [rd|] eqn:Hrd.
  - eapply ends_bind; [apply (Hf _ _ Hrd); lia|]. intros [m' i'] Hi'. cbn in Hi'.
    apply IH; lia.
  - eapply ends_bind; [apply slice_ends|]. intros rest (_ & _ & Hrest).
    eapply ends_bind; [apply skip_ends; lia|]. intros n' Hskip. zif; [done|]. zif; [done|].
    eapply ends_bind; [apply slice_ends|]. intros bs (Hbs & _).
    destruct (skip_next i n') as [[-> Hpos]|Hneg]; [lia|done| |lia].
    apply IH; lia.
Qed.

Lemma unmarshalWith_ends {M} (field : Z -> option (field_reader M)) unrec m dAtA :
  (forall k rd, field k = Some rd -> reader_ends rd) -> len dAtA < two62 ->
  ends (unmarshalWith field unrec m dAtA) (fun _ => True).
Proof. intros. apply unmarshalLoop_ends; try done; unfold len in *; lia. Qed.

(** ** Round trips *)

Section Consumes.
Context {M : Type} (field : Z -> option (field_reader M)) (unrec : list Z -> M -> M).

(** The reader turns the payload [bs] and the message [m] into [m']. *)
Definition reads (rd : field_reader M) (wt : Z) (bs : list Z) (m m' : M) : Prop :=
  forall pre suf, len (pre ++ bs ++ suf) < two63 ->
    rd wt (pre ++ bs ++ suf) m (len pre) = Ret (m', len (pre ++ bs)).

(** The loop turns the bytes [bs] and the message [m] into [m']. *)
Definition consumes (bs : list Z) (m m' : M) : Prop :=
  exists k, (k <= length bs)%nat /\ forall pre suf fuel,
    len (pre ++ bs ++ suf) < two63 ->
    unmarshalLoop field unrec (pre ++ bs ++ suf) (k + fuel) (len pre) m
    = unmarshalLoop field unrec (pre ++ bs ++ suf) fuel (len (pre ++ bs)) m'.

Lemma consumes_nil m : consumes [] m m.
Proof. exists 0%nat. split; [done|]. intros pre suf fuel _. by rewrite app_nil_r. Qed.

Lemma consumes_app b1 b2 m1 m2 m3 :
  consumes b1 m1 m2 -> consumes b2 m2 m3 -> consumes (b1 ++ b2) m1 m3.
Proof.
  intros (k1 & Hk1 & H1) (k2 & Hk2 & H2). exists (k1 + k2)%nat.
  rewrite length_app. split; [lia|]. intros pre suf fuel Hl.
  rewrite <- Nat.add_assoc, <- app_assoc. rewrite <- app_assoc in Hl. rewrite H1 by done.
  rewrite app_assoc in Hl. rewrite (app_assoc pre b1 (b2 ++ suf)), H2 by done.
  by rewrite <- (app_assoc pre b1 b2).
Qed.

Lemma tag_varint t : 0 <= t < 128 -> varint t = [t].
Proof.
  intros. change (varint t) with (if t <? 128 then [t]
    else Z.lor (Z.land t 127) 128 :: varint_bytes 9 (Z.shiftr t 7)).
  by replace (t <? 128) with true by lia.
Qed.

(** A one-byte tag and its payload. *)
Lemma consumes_field t rd bs m m' :
  0 < Z.shiftr t 3 -> t < 128 -> Z.land t 7 <> 4 -> field (Z.shiftr t 3) = Some rd ->
  reads rd (Z.land t 7) bs m m' -> consumes (t :: bs) m m'.
Proof.
  intros Hn Ht Hg Hf Hr.
  assert (H0 : 0 <= t) by (apply (Z.shiftr_nonneg t 3); lia).
  assert (Hs : Z.shiftr t 3 < 128).
  { rewrite Z.shiftr_div_pow2 by lia. apply Z.div_lt_upper_bound; simpl; lia. }
  exists 1%nat. split; [simpl; lia|]. intros pre suf fuel Hl. cbn [Nat.add unmarshalLoop].
  assert (Hv := readVarint_bytes wrap64 t pre (bs ++ suf) ltac:(unfold is_u64, two64; lia)).
  rewrite tag_varint in Hv by lia. cbn [app] in Hv, Hl |- *. rewrite Hv.
  rewrite wrap64_small by (unfold is_u64, two64; lia).
  rewrite int32_small by (unfold two31; lia).
  replace (len pre <? len (pre ++ t :: bs ++ suf)) with true.
  2:{ rewrite len_app, len_cons. pose proof (len_nonneg (bs ++ suf)). lia. }
  zif; [by destruct Hg|]. zif; [lia|]. rewrite Hf.
  rewrite (cons_middle t pre), app_assoc, Hr.
  - by rewrite <- !app_assoc.
  - by rewrite <- !app_assoc.
Qed.

Lemma unmarshalWith_consumes bs m m' :
  consumes bs m m' -> len bs < two63 -> unmarshalWith field unrec m bs = Ret m'.
Proof.
  intros (k & Hk & Hc) Hl. unfold unmarshalWith.
  specialize (Hc [] [] (S (length bs) - k)%nat). rewrite app_nil_r in Hc. cbn [app] in Hc.
  replace (k + (S (length bs) - k))%nat with (S (length bs)) in Hc by lia.
  change 0 with (len ([] : list Z)). rewrite (Hc Hl). destruct (S (length bs) - k)%nat eqn:E; [lia|]. cbn [unmarshalLoop].
  zif; [lia|]. zif; [lia|done].
Qed.

End Consumes.

Lemma reads_varint {M} conv `{!Truncates conv} (set : Z -> M -> M) v m :
  is_u64 v -> reads (read_varint conv set) 0 (varint v) m (set (conv v) m).
Proof.
  intros Hv pre suf Hl. unfold read_varint. cbn [negb Z.eqb].
  by rewrite readVarint_bytes.
Qed.

Lemma reads_delim {M} (k : list Z -> M -> outcome wire_error M) w m m' :
  len w < two63 -> k w m = Ret m' ->
  reads (read_delim k) 2 (varint (len w) ++ w) m m'.
Proof.
  intros Hw Hk pre suf Hl. unfold read_delim. change (2 =? 2) with true. cbn [negb].
  pose proof (len_nonneg w). pose proof (len_nonneg suf).
  rewrite <- app_assoc, readVarint_bytes by (apply _ || unfold is_u64, two63, two64 in *; lia).
  rewrite int64_small by (unfold two63 in *; lia). zif; [lia|].
  rewrite !len_app in *. pose proof (len_nonneg pre). pose proof (len_nonneg (varint (len w))).
  rewrite int64_small by (unfold two63 in *; lia). zif; [lia|].
  rewrite slice_ok by (rewrite ?len_app; lia).
  rewrite app_assoc, drop_app_length', take_app_length', Hk.
  - f_equal. f_equal. lia.
  - unfold len. lia.
  - rewrite length_app. unfold len. lia.
Qed.

(** ** The encodings of the field kinds *)

Definition enc_varint (tag v : Z) : list Z :=
  if negb (v =? 0) then tag :: varint (uint64 v) else [].
Definition enc_delim (tag : Z) (bs : list Z) : list Z := tag :: varint (len bs) ++ bs.
Definition enc_bytes (tag : Z) (data : option (list Z)) : list Z :=
  if len (default [] data) >? 0 then enc_delim tag (default [] data) else [].

Lemma len_enc_delim tag bs : is_u64 (len bs) -> len (enc_delim tag bs) = size_delim (len bs).
Proof.
  intros. unfold enc_delim, size_delim, uint64. rewrite wrap64_small, sov_len by done.
  rewrite len_cons, len_app. lia.
Qed.
Lemma len_enc_varint tag v : len (enc_varint tag v) = size_varint v.
Proof.
  unfold enc_varint, size_varint, uint64. destruct (negb _); [|done].
  rewrite sov_len by apply wrap64_range. rewrite len_cons. lia.
Qed.
Lemma len_enc_delim_ge tag bs : len bs <= len (enc_delim tag bs).
Proof.
  unfold enc_delim. rewrite len_cons, len_app. pose proof (len_nonneg (varint (len bs))). lia.
Qed.
Lemma len_enc_bytes tag data :
  is_u64 (len (enc_bytes tag data)) -> len (enc_bytes tag data) = size_bytes data.
Proof.
  unfold enc_bytes, size_bytes. zif; [|done]. intros Hl. apply len_enc_delim.
  pose proof (len_enc_delim_ge tag (default [] data)). unfold is_u64 in *.
  pose proof (len_nonneg (default [] data)). lia.
Qed.

Lemma emits_field_varint tag v : emits (put_field_varint tag v) (enc_varint tag v).
Proof.
  apply emits_if. intros _. apply (emits_seq _ _ [tag]); [apply emits_put|].
  apply emits_varint, wrap64_range.
Qed.
Lemma emits_delim tag bs w :
  is_u64 (len bs) -> emits w bs ->
  emits (put tag ;> put_varint (uint64 (len bs)) ;> w) (enc_delim tag bs).
Proof.
  intros Hl Hw. apply (emits_seq _ _ [tag]); [apply emits_put|].
  apply emits_seq; [|done]. unfold uint64. rewrite wrap64_small by done. by apply emits_varint.
Qed.
Lemma emits_field_bytes tag data :
  is_u64 (len (enc_bytes tag data)) -> emits (put_field_bytes tag data) (enc_bytes tag data).
Proof.
  intros Hl. unfold put_field_bytes, enc_bytes in *. apply emits_if. intros Hc. rewrite Hc in Hl.
  apply emits_delim; [|apply emits_copy].
  pose proof (len_enc_delim_ge tag (default [] data)). unfold is_u64 in *.
  pose proof (len_nonneg (default [] data)). lia.
Qed.
Lemma emits_field_msg tag size mt bs :
  is_u64 (len bs) -> size = len bs -> fills mt bs ->
  emits (put_field_msg tag size mt) (enc_delim tag bs).
Proof. intros Hl -> Hf. apply emits_delim; [done|]. by apply emits_msg. Qed.
Lemma emits_unrecognized u : emits (put_unrecognized u) (default [] u).
Proof. destruct u; [apply emits_copy|apply emits_skip]. Qed.

Section FieldConsumes.
Context {M : Type} (field : Z -> option (field_reader M)) (unrec : list Z -> M -> M).

(** A varint field whose zero value is not written. *)
Lemma consumes_varint conv `{!Truncates conv} set t v x m :
  0 < Z.shiftr t 3 -> t < 128 -> Z.land t 7 = 0 ->
  field (Z.shiftr t 3) = Some (read_varint conv set) ->
  (v = 0 -> set x m = m) -> (v <> 0 -> conv (uint64 v) = x) ->
  consumes field unrec (enc_varint t v) m (set x m).
Proof.
  intros Hn Ht Hw Hf H0 Hx. unfold enc_varint. destruct (Z.eqb_spec v 0); cbn [negb].
  - rewrite H0 by done. apply consumes_nil.
  - rewrite <- Hx by done. eapply consumes_field; [done|done|rewrite Hw; done|done|].
    rewrite Hw. apply reads_varint; [done|]. apply wrap64_range.
Qed.

Lemma consumes_delim k t bs m m' :
  0 < Z.shiftr t 3 -> t < 128 -> Z.land t 7 = 2 ->
  field (Z.shiftr t 3) = Some (read_delim k) ->
  len bs < two63 -> k bs m = Ret m' -> consumes field unrec (enc_delim t bs) m m'.
Proof.
  intros Hn Ht Hw Hf Hl Hk. eapply consumes_field; [done|done|rewrite Hw; done|done|].
  rewrite Hw. by apply reads_delim.
Qed.

Lemma consumes_bytes set t data m :
  0 < Z.shiftr t 3 -> t < 128 -> Z.land t 7 = 2 ->
  field (Z.shiftr t 3) = Some (read_bytes set) ->
  len (enc_bytes t data) < two63 -> (data = None -> set data m = m) -> data <> Some [] ->
  consumes field unrec (enc_bytes t data) m (set data m).
Proof.
  intros Hn Ht Hw Hf Hl H0 Hne. unfold enc_bytes in *. destruct data as [b|].
  - change (default [] (Some b)) with b in *. zif.
    + replace (len b >? 0) with true in Hl by lia. pose proof (len_enc_delim_ge t b).
      eapply consumes_delim; try done. lia.
    + destruct Hne. f_equal. apply len_0_nil. pose proof (len_nonneg b). lia.
  - rewrite H0 by done. apply consumes_nil.
Qed.

End FieldConsumes.
