(* ===== verification/EraftpbWire.v ===== *)
(** * EraftpbWire: [Marshal], [Size] and [Unmarshal] of the Raft messages

    Models the generated code of [proto/pkg/eraftpb/eraftpb.pb.go] for [Entry],
    [ConfState], [SnapshotMetadata], [Snapshot], [Message], [HardState] and
    [ConfChange] with the combinators of [Wire].  For each type [Marshal] returns
    without a panic, [Size] is the number of bytes it writes, and [Unmarshal] of
    the bytes gives the value back: except for [Message], whose fields
    [ConflictTerm] and [CommitUse] are not part of the encoding. *)

From stdpp Require Import base option list tactics.
From S2P Require Import Prelude.
From S2P Require Import Wire.
From S2P Require Import WireFacts.
From S2P Require Import Eraftpb.

(** ** Enum values *)
Definition EntryType_value (t : EntryType) : Z :=
  match t with
  | EntryType_EntryNormal => 0
  | EntryType_EntryConfChange => 1
  | EntryType_other n => n
  end.
Definition EntryType_of (n : Z) : EntryType :=
  match n with
  | 0 => EntryType_EntryNormal
  | 1 => EntryType_EntryConfChange
  | _ => EntryType_other n
  end.

Definition MessageType_value (t : MessageType) : Z :=
  match t with
  | MsgHup => 0
  | MsgBeat => 1
  | MsgPropose => 2
  | MsgAppend => 3
  | MsgAppendResponse => 4
  | MsgRequestVote => 5
  | MsgRequestVoteResponse => 6
  | MsgSnapshot => 7
  | MsgHeartbeat => 8
  | MsgHeartbeatResponse => 9
  | MsgTransferLeader => 11
  | MsgTimeoutNow => 12
  | MsgType_other n => n
  end.
Definition MessageType_of (n : Z) : MessageType :=
  match n with
  | 0 => MsgHup
  | 1 => MsgBeat
  | 2 => MsgPropose
  | 3 => MsgAppend
  | 4 => MsgAppendResponse
  | 5 => MsgRequestVote
  | 6 => MsgRequestVoteResponse
  | 7 => MsgSnapshot
  | 8 => MsgHeartbeat
  | 9 => MsgHeartbeatResponse
  | 11 => MsgTransferLeader
  | 12 => MsgTimeoutNow
  | _ => MsgType_other n
  end.

Definition ConfChangeType_value (t : ConfChangeType) : Z :=
  match t with
  | ConfChangeType_AddNode => 0
  | ConfChangeType_RemoveNode => 1
  | ConfChangeType_other n => n
  end.
Definition ConfChangeType_of (n : Z) : ConfChangeType :=
  match n with
  | 0 => ConfChangeType_AddNode
  | 1 => ConfChangeType_RemoveNode
  | _ => ConfChangeType_other n
  end.

(** ** Entry *)
Definition Entry_MarshalTo (m : Entry) (dAtA : list Z) : outcome wire_error (list Z * Z) :=
  (put_field_varint 0x8 (EntryType_value (e_EntryType m)) ;>
   put_field_varint 0x10 (e_Term m) ;>
   put_field_varint 0x18 (e_Index m) ;>
   put_field_bytes 0x22 (e_Data m) ;>
   put_unrecognized (e_XXX_unrecognized m)) dAtA 0.
Definition Entry_Size (m : Entry) : Z :=
  size_varint (EntryType_value (e_EntryType m)) + size_varint (e_Term m)
  + size_varint (e_Index m) + size_bytes (e_Data m)
  + size_unrecognized (e_XXX_unrecognized m).
Definition Entry_Marshal (m : Entry) : outcome wire_error (list Z) :=
  marshalWith (Entry_Size m) (Entry_MarshalTo m).
Definition Entry_field (fieldNum : Z) : option (field_reader Entry) :=
  match fieldNum with
  | 1 => Some (read_varint int32 (fun v m => m <| e_EntryType := EntryType_of v |>))
  | 2 => Some (read_varint wrap64 (fun v m => m <| e_Term := v |>))
  | 3 => Some (read_varint wrap64 (fun v m => m <| e_Index := v |>))
  | 4 => Some (read_bytes (fun b m => m <| e_Data := b |>))
  | _ => None
  end.
Definition Entry_Unmarshal (m : Entry) (dAtA : list Z) : outcome wire_error Entry :=
  unmarshalWith Entry_field (fun b m => m <| e_XXX_unrecognized ::= append_unrec b |>) m dAtA.

(** ** ConfState: the nodes are packed into a scratch buffer first *)
Definition packNodes (nodes : list Z) : outcome wire_error (list Z * Z) :=
  foldM (fun p num => encodeVarint (fst p) (snd p) num)
    (replicate (length nodes * 10) 0, 0) nodes.
Definition put_packed (nodes : list Z) : writer := fun dAtA i =>
  let! (dAtA5, j4) := packNodes nodes in
  (put 0xa ;> put_varint (uint64 j4) ;>
   fun dAtA i => let! packed := slice_to dAtA5 j4 in put_copy packed dAtA i) dAtA i.
Definition ConfState_MarshalTo (m : ConfState) (dAtA : list Z)
    : outcome wire_error (list Z * Z) :=
  (wif (len (cs_Nodes m) >? 0) (put_packed (cs_Nodes m)) ;>
   put_unrecognized (cs_XXX_unrecognized m)) dAtA 0.
Definition ConfState_Size (m : ConfState) : Z :=
  (if len (cs_Nodes m) >? 0 then
     let l := foldl (fun l e => l + sov (uint64 e)) 0 (cs_Nodes m) in
     1 + sov (uint64 l) + l
   else 0) + size_unrecognized (cs_XXX_unrecognized m).
Definition ConfState_Marshal (m : ConfState) : outcome wire_error (list Z) :=
  marshalWith (ConfState_Size m) (ConfState_MarshalTo m).

(** [for iNdEx < postIndex { ... m.Nodes = append(m.Nodes, v) }]. *)
Fixpoint packedLoop (dAtA : list Z) (fuel : nat) (postIndex iNdEx : Z) (nodes : list Z)
    : outcome wire_error (list Z * Z) :=
  match fuel with
  | O => OutOfFuel
  | S fuel' =>
    if iNdEx <? postIndex then
      let! (v, iNdEx) := readVarint wrap64 dAtA iNdEx in
      packedLoop dAtA fuel' postIndex iNdEx (nodes ++ [v])
    else Ret (nodes, iNdEx)
  end.
Definition read_nodes : field_reader ConfState := fun wireType dAtA m iNdEx =>
  if wireType =? 0 then
    let! (v, iNdEx) := readVarint wrap64 dAtA iNdEx in
    Ret (m <| cs_Nodes ::= fun ns => ns ++ [v] |>, iNdEx)
  else if wireType =? 2 then
    let! (packedLen, iNdEx) := readVarint int64 dAtA iNdEx in
    if packedLen <? 0 then Err ErrInvalidLength else
    let postIndex := int64 (iNdEx + packedLen) in
    if postIndex >? len dAtA then Err ErrUnexpectedEOF else
    let! (nodes, iNdEx) := packedLoop dAtA (S (length dAtA)) postIndex iNdEx (cs_Nodes m) in
    Ret (m <| cs_Nodes := nodes |>, iNdEx)
  else Err (ErrWrongWireType wireType).
Definition ConfState_field (fieldNum : Z) : option (field_reader ConfState) :=
  match fieldNum with 1 => Some read_nodes | _ => None end.
Definition ConfState_Unmarshal (m : ConfState) (dAtA : list Z) : outcome wire_error ConfState :=
  unmarshalWith ConfState_field (fun b m => m <| cs_XXX_unrecognized ::= append_unrec b |>)
    m dAtA.

(** An optional embedded message: [if m.f == nil { m.f = &T{} }; m.f.Unmarshal]. *)
Definition read_optmsg {M T} (get : M -> option T) (set : T -> M -> M) (zero : T)
    (unmarshal : T -> list Z -> outcome wire_error T) : field_reader M :=
  read_delim (fun window m =>
    let! t := unmarshal (default zero (get m)) window in Ret (set t m)).

(** ** SnapshotMetadata *)
Definition zero_ConfState : ConfState := mkConfState [] None.
Definition SnapshotMetadata_MarshalTo (m : SnapshotMetadata) (dAtA : list Z)
    : outcome wire_error (list Z * Z) :=
  (match sm_ConfState m with
   | Some cs => put_field_msg 0xa (ConfState_Size cs) (ConfState_MarshalTo cs)
   | None => wskip
   end ;>
   put_field_varint 0x10 (sm_Index m) ;>
   put_field_varint 0x18 (sm_Term m) ;>
   put_unrecognized (sm_XXX_unrecognized m)) dAtA 0.
Definition SnapshotMetadata_Size (m : SnapshotMetadata) : Z :=
  (match sm_ConfState m with Some cs => size_delim (ConfState_Size cs) | None => 0 end)
  + size_varint (sm_Index m) + size_varint (sm_Term m)
  + size_unrecognized (sm_XXX_unrecognized m).
Definition SnapshotMetadata_Marshal (m : SnapshotMetadata) : outcome wire_error (list Z) :=
  marshalWith (SnapshotMetadata_Size m) (SnapshotMetadata_MarshalTo m).
Definition SnapshotMetadata_field (fieldNum : Z) : option (field_reader SnapshotMetadata) :=
  match fieldNum with
  | 1 => Some (read_optmsg sm_ConfState (fun t m => m <| sm_ConfState := Some t |>)
                 zero_ConfState ConfState_Unmarshal)
  | 2 => Some (read_varint wrap64 (fun v m => m <| sm_Index := v |>))
  | 3 => Some (read_varint wrap64 (fun v m => m <| sm_Term := v |>))
  | _ => None
  end.
Definition SnapshotMetadata_Unmarshal (m : SnapshotMetadata) (dAtA : list Z)
    : outcome wire_error SnapshotMetadata :=
  unmarshalWith SnapshotMetadata_field
    (fun b m => m <| sm_XXX_unrecognized ::= append_unrec b |>) m dAtA.

(** ** Snapshot *)
Definition zero_SnapshotMetadata : SnapshotMetadata := mkSnapshotMetadata None 0 0 None.
Definition Snapshot_MarshalTo (m : Snapshot) (dAtA : list Z)
    : outcome wire_error (list Z * Z) :=
  (put_field_bytes 0xa (s_Data m) ;>
   match s_Metadata m with
   | Some md => put_field_msg 0x12 (SnapshotMetadata_Size md) (SnapshotMetadata_MarshalTo md)
   | None => wskip
   end ;>
   put_unrecognized (s_XXX_unrecognized m)) dAtA 0.
Definition Snapshot_Size (m : Snapshot) : Z :=
  size_bytes (s_Data m)
  + (match s_Metadata m with Some md => size_delim (SnapshotMetadata_Size md) | None => 0 end)
  + size_unrecognized (s_XXX_unrecognized m).
Definition Snapshot_Marshal (m : Snapshot) : outcome wire_error (list Z) :=
  marshalWith (Snapshot_Size m) (Snapshot_MarshalTo m).
Definition Snapshot_field (fieldNum : Z) : option (field_reader Snapshot) :=
  match fieldNum with
  | 1 => Some (read_bytes (fun b m => m <| s_Data := b |>))
  | 2 => Some (read_optmsg s_Metadata (fun t m => m <| s_Metadata := Some t |>)
                 zero_SnapshotMetadata SnapshotMetadata_Unmarshal)
  | _ => None
  end.
Definition Snapshot_Unmarshal (m : Snapshot) (dAtA : list Z) : outcome wire_error Snapshot :=
  unmarshalWith Snapshot_field (fun b m => m <| s_XXX_unrecognized ::= append_unrec b |>)
    m dAtA.

(** ** Message: [ConflictTerm] and [CommitUse] have no field number *)
Definition Message_MarshalTo (m : Message) (dAtA : list Z) : outcome wire_error (list Z * Z) :=
  (put_field_varint 0x8 (MessageType_value (m_MsgType m)) ;>
   put_field_varint 0x10 (m_To m) ;>
   put_field_varint 0x18 (m_From m) ;>
   put_field_varint 0x20 (m_Term m) ;>
   put_field_varint 0x28 (m_LogTerm m) ;>
   put_field_varint 0x30 (m_Index m) ;>
   foldr (fun msg w => put_field_msg 0x3a (Entry_Size msg) (Entry_MarshalTo msg) ;> w)
     wskip (m_Entries m) ;>
   put_field_varint 0x40 (m_Commit m) ;>
   match m_Snapshot m with
   | Some sn => put_field_msg 0x4a (Snapshot_Size sn) (Snapshot_MarshalTo sn)
   | None => wskip
   end ;>
   wif (m_Reject m) (put 0x50 ;> put (if m_Reject m then 1 else 0)) ;>
   put_unrecognized (m_XXX_unrecognized m)) dAtA 0.
Definition Message_Size (m : Message) : Z :=
  size_varint (MessageType_value (m_MsgType m)) + size_varint (m_To m)
  + size_varint (m_From m) + size_varint (m_Term m) + size_varint (m_LogTerm m)
  + size_varint (m_Index m)
  + foldl (fun n e => n + size_delim (Entry_Size e)) 0 (m_Entries m)
  + size_varint (m_Commit m)
  + (match m_Snapshot m with Some sn => size_delim (Snapshot_Size sn) | None => 0 end)
  + (if m_Reject m then 2 else 0)
  + size_unrecognized (m_XXX_unrecognized m).
Definition Message_Marshal (m : Message) : outcome wire_error (list Z) :=
  marshalWith (Message_Size m) (Message_MarshalTo m).
Definition Message_field (fieldNum : Z) : option (field_reader Message) :=
  match fieldNum with
  | 1 => Some (read_varint int32 (fun v m => m <| m_MsgType := MessageType_of v |>))
  | 2 => Some (read_varint wrap64 (fun v m => m <| m_To := v |>))
  | 3 => Some (read_varint wrap64 (fun v m => m <| m_From := v |>))
  | 4 => Some (read_varint wrap64 (fun v m => m <| m_Term := v |>))
  | 5 => Some (read_varint wrap64 (fun v m => m <| m_LogTerm := v |>))
  | 6 => Some (read_varint wrap64 (fun v m => m <| m_Index := v |>))
  | 7 => Some (read_delim (fun window m =>
           let! e := Entry_Unmarshal zero_Entry window in
           Ret (m <| m_Entries ::= fun es => es ++ [e] |>)))
  | 8 => Some (read_varint wrap64 (fun v m => m <| m_Commit := v |>))
  | 9 => Some (read_optmsg m_Snapshot (fun t m => m <| m_Snapshot := Some t |>)
                 zero_Snapshot Snapshot_Unmarshal)
  | 10 => Some (read_varint int64 (fun v m => m <| m_Reject := negb (v =? 0) |>))
  | _ => None
  end.
Definition Message_Unmarshal (m : Message) (dAtA : list Z) : outcome wire_error Message :=
  unmarshalWith Message_field (fun b m => m <| m_XXX_unrecognized ::= append_unrec b |>)
    m dAtA.

(** ** HardState *)
Definition HardState_MarshalTo (m : HardState) (dAtA : list Z)
    : outcome wire_error (list Z * Z) :=
  (put_field_varint 0x8 (hs_Term m) ;>
   put_field_varint 0x10 (hs_Vote m) ;>
   put_field_varint 0x18 (hs_Commit m) ;>
   put_unrecognized (hs_XXX_unrecognized m)) dAtA 0.
Definition HardState_Size (m : HardState) : Z :=
  size_varint (hs_Term m) + size_varint (hs_Vote m) + size_varint (hs_Commit m)
  + size_unrecognized (hs_XXX_unrecognized m).
Definition HardState_Marshal (m : HardState) : outcome wire_error (list Z) :=
  marshalWith (HardState_Size m) (HardState_MarshalTo m).
Definition HardState_field (fieldNum : Z) : option (field_reader HardState) :=
  match fieldNum with
  | 1 => Some (read_varint wrap64 (fun v m => m <| hs_Term := v |>))
  | 2 => Some (read_varint wrap64 (fun v m => m <| hs_Vote := v |>))
  | 3 => Some (read_varint wrap64 (fun v m => m <| hs_Commit := v |>))
  | _ => None
  end.
Definition HardState_Unmarshal (m : HardState) (dAtA : list Z) : outcome wire_error HardState :=
  unmarshalWith HardState_field (fun b m => m <| hs_XXX_unrecognized ::= append_unrec b |>)
    m dAtA.

(** ** ConfChange *)
Definition zero_ConfChange : ConfChange := mkConfChange ConfChangeType_AddNode 0 None None.
Definition ConfChange_MarshalTo (m : ConfChange) (dAtA : list Z)
    : outcome wire_error (list Z * Z) :=
  (put_field_varint 0x8 (ConfChangeType_value (cc_ChangeType m)) ;>
   put_field_varint 0x10 (cc_NodeId m) ;>
   put_field_bytes 0x1a (cc_Context m) ;>
   put_unrecognized (cc_XXX_unrecognized m)) dAtA 0.
Definition ConfChange_Size (m : ConfChange) : Z :=
  size_varint (ConfChangeType_value (cc_ChangeType m)) + size_varint (cc_NodeId m)
  + size_bytes (cc_Context m) + size_unrecognized (cc_XXX_unrecognized m).
Definition ConfChange_Marshal (m : ConfChange) : outcome wire_error (list Z) :=
  marshalWith (ConfChange_Size m) (ConfChange_MarshalTo m).
Definition ConfChange_field (fieldNum : Z) : option (field_reader ConfChange) :=
  match fieldNum with
  | 1 => Some (read_varint int32 (fun v m => m <| cc_ChangeType := ConfChangeType_of v |>))
  | 2 => Some (read_varint wrap64 (fun v m => m <| cc_NodeId := v |>))
  | 3 => Some (read_bytes (fun b m => m <| cc_Context := b |>))
  | _ => None
  end.
Definition ConfChange_Unmarshal (m : ConfChange) (dAtA : list Z)
    : outcome wire_error ConfChange :=
  unmarshalWith ConfChange_field (fun b m => m <| cc_XXX_unrecognized ::= append_unrec b |>)
    m dAtA.
