(* ===== verification/EraftpbRound.v ===== *)
(** * EraftpbRound: the Raft messages survive the wire

    [Codec] is what a generated message type offers to the code that embeds it, and
    [CodecLaws] what it promises: the encoding has the announced size, is written
    without a panic, and is read back.  Each type of [EraftpbWire] is an instance,
    proved from the instances of the types it embeds. *)

From stdpp Require Import base option list tactics.
From S2P Require Import Prelude.
From S2P Require Import Wire.
From S2P Require Import WireFacts.
From S2P Require Import Eraftpb.
From S2P Require Import EraftpbWire.

Class Codec (T : Type) := {
  c_Size : T -> Z;
  c_MarshalTo : T -> list Z -> outcome wire_error (list Z * Z);
  c_Unmarshal : T -> list Z -> outcome wire_error T;
  c_zero : T;
  (** the bytes of a value, the values the laws speak of, and what is read back *)
  c_enc : T -> list Z;
  c_ok : T -> Prop;
  c_norm : T -> T;
}.

Class CodecLaws (T : Type) `{Codec T} := {
  c_size : forall m : T, c_ok m -> len (c_enc m) < two63 -> c_Size m = len (c_enc m);
  c_fills : forall m : T, c_ok m -> len (c_enc m) < two63 -> fills (c_MarshalTo m) (c_enc m);
  c_round : forall m : T, c_ok m -> len (c_enc m) < two63 ->
    c_Unmarshal c_zero (c_enc m) = Ret (c_norm m);
}.

Definition c_Marshal {T} `{Codec T} (m : T) : outcome wire_error (list Z) :=
  marshalWith (c_Size m) (c_MarshalTo m).

Lemma codec_roundtrip {T} `{CodecLaws T} (m : T) :
  c_ok m -> len (c_enc m) < two63 ->
  exists bs, c_Marshal m = Ret bs /\ len bs = c_Size m /\ c_Unmarshal c_zero bs = Ret (c_norm m).
Proof.
  intros Hok Hl. exists (c_enc m). split_and!.
  - apply marshalWith_fills; [by apply c_fills|by apply c_size].
  - symmetry. by apply c_size.
  - by apply c_round.
Qed.

(** An optional embedded message. *)
Definition enc_opt {T} `{Codec T} (t : Z) (x : option T) : list Z :=
  match x with Some y => enc_delim t (c_enc y) | None => [] end.

(** [len_facts] records that the lengths in sight are not negative. *)
Ltac len_facts :=
  repeat match goal with
  | |- context [len ?l] => lazymatch goal with
      | _ : 0 <= len l |- _ => fail
      | _ => pose proof (len_nonneg l) end
  | _ : context [len ?l] |- _ => lazymatch goal with
      | _ : 0 <= len l |- _ => fail
      | _ => pose proof (len_nonneg l) end
  end.
Ltac u64_len := unfold is_u64, two63, two64 in *; len_facts; lia.

Lemma u64_trip v : is_u64 v -> wrap64 (uint64 v) = v.
Proof. intros. unfold uint64. by rewrite (wrap64_small v), wrap64_small. Qed.

(** An enum value goes through [int32] and [uint64] and back. *)
Lemma int32_trip v : - two31 <= v < two31 -> int32 (uint64 v) = v.
Proof.
  intros Hv. transitivity (int32 v); [|by apply int32_small].
  unfold int32, uint64, wrap64. apply signed_ext.
  change two64 with (two32 * two32). rewrite Z.rem_mul_r by (unfold two32; lia).
  rewrite Z.mul_comm, Z.mod_add by (unfold two32; lia). apply Z.mod_mod. unfold two32. lia.
Qed.

Definition int32_ok (v : Z) : Prop := - two31 <= v < two31.
Definition bytes_ok (b : option (list Z)) : Prop := b <> Some [].

Section Fields.
Context {M : Type} (field : Z -> option (field_reader M)) (unrec : list Z -> M -> M).

Lemma consumes_u64 set t v m :
  0 < Z.shiftr t 3 -> t < 128 -> Z.land t 7 = 0 ->
  field (Z.shiftr t 3) = Some (read_varint wrap64 set) ->
  (v = 0 -> set v m = m) -> is_u64 v ->
  consumes field unrec (enc_varint t v) m (set v m).
Proof. intros. apply (consumes_varint _ _ wrap64); auto using u64_trip. Qed.

Lemma consumes_enum set t v m :
  0 < Z.shiftr t 3 -> t < 128 -> Z.land t 7 = 0 ->
  field (Z.shiftr t 3) = Some (read_varint int32 set) ->
  (v = 0 -> set v m = m) -> int32_ok v ->
  consumes field unrec (enc_varint t v) m (set v m).
Proof. intros. apply (consumes_varint _ _ int32); auto using int32_trip. Qed.

(** An embedded message that is absent in the message read so far. *)
Lemma consumes_optmsg {T} `{CodecLaws T} get (set : T -> M -> M) t (x : option T) m m' :
  0 < Z.shiftr t 3 -> t < 128 -> Z.land t 7 = 2 ->
  field (Z.shiftr t 3) = Some (read_optmsg get set c_zero c_Unmarshal) ->
  get m = None -> len (enc_opt t x) < two63 ->
  from_option c_ok True x ->
  m' = from_option (fun y => set (c_norm y) m) m x ->
  consumes field unrec (enc_opt t x) m m'.
Proof.
  intros Hn Ht Hw Hf Hg Hl Hok ->. destruct x as [x|]; cbn [from_option enc_opt] in *; [|apply consumes_nil].
  pose proof (len_enc_delim_ge t (c_enc x)).
  eapply consumes_delim; [done|done|done|exact Hf|lia|].
  cbv beta. rewrite Hg. change (default c_zero None) with c_zero.
  by rewrite c_round by (done || lia).
Qed.

End Fields.

Ltac next_u64 set :=
  eapply consumes_app; [apply (consumes_u64 _ _ set); [done|done|done|done|by intros ->|done]|].
Ltac next_enum set :=
  eapply consumes_app; [apply (consumes_enum _ _ set); [done|done|done|done|by intros ->|done]|].
Ltac next_bytes set :=
  eapply consumes_app; [apply (consumes_bytes _ _ set); [done|done|done|done|u64_len|by intros ->|done]|].

(** ** Entry *)
Definition Entry_enc (m : Entry) : list Z :=
  enc_varint 0x8 (EntryType_value (e_EntryType m)) ++ enc_varint 0x10 (e_Term m)
  ++ enc_varint 0x18 (e_Index m) ++ enc_bytes 0x22 (e_Data m)
  ++ default [] (e_XXX_unrecognized m).
(** Values a [uint64] or enum field can hold; empty data is written like nil, and
    no unknown fields were received. *)
Definition Entry_ok (m : Entry) : Prop :=
  int32_ok (EntryType_value (e_EntryType m)) /\
  EntryType_of (EntryType_value (e_EntryType m)) = e_EntryType m /\
  is_u64 (e_Term m) /\ is_u64 (e_Index m) /\ bytes_ok (e_Data m) /\
  e_XXX_unrecognized m = None.

#[export] Instance Entry_codec : Codec Entry := {|
  c_Size := Entry_Size; c_MarshalTo := Entry_MarshalTo; c_Unmarshal := Entry_Unmarshal;
  c_zero := zero_Entry; c_enc := Entry_enc; c_ok := Entry_ok; c_norm := fun m => m |}.

Lemma len_unrecognized u : len (default [] u) = size_unrecognized u.
Proof. by destruct u. Qed.

#[export] Instance Entry_laws : CodecLaws Entry.
Proof.
  split; intros m (Ht & Ht' & Htm & Hi & Hd & Hx) Hl; cbn in *; unfold Entry_enc in *;
    rewrite !len_app in Hl.
  - unfold Entry_Size. rewrite !len_app, !len_enc_varint, len_enc_bytes, len_unrecognized
      by u64_len. lia.
  - unfold Entry_MarshalTo. apply emits_fills.
    repeat (apply emits_seq; [apply emits_field_varint|]).
    apply emits_seq; [apply emits_field_bytes; u64_len|apply emits_unrecognized].
  - eapply unmarshalWith_consumes; [|rewrite !len_app; lia].
    next_enum (fun v m => m <| e_EntryType := EntryType_of v |>).
    next_u64 (fun v m => m <| e_Term := v |>).
    next_u64 (fun v m => m <| e_Index := v |>).
    next_bytes (fun b m => m <| e_Data := b |>).
    rewrite Ht', Hx. destruct m; cbn in *; subst. apply consumes_nil.
Qed.

Lemma enc_varint_len_le t v : len (enc_varint t v) <= 11.
Proof.
  unfold enc_varint. destruct (negb _); [|done]. rewrite len_cons.
  pose proof (varint_len_le 10 (uint64 v)). unfold varint. lia.
Qed.

(** ** HardState *)
Definition HardState_enc (m : HardState) : list Z :=
  enc_varint 0x8 (hs_Term m) ++ enc_varint 0x10 (hs_Vote m) ++ enc_varint 0x18 (hs_Commit m)
  ++ default [] (hs_XXX_unrecognized m).
Definition HardState_ok (m : HardState) : Prop :=
  is_u64 (hs_Term m) /\ is_u64 (hs_Vote m) /\ is_u64 (hs_Commit m)
  /\ hs_XXX_unrecognized m = None.

#[export] Instance HardState_codec : Codec HardState := {|
  c_Size := HardState_Size; c_MarshalTo := HardState_MarshalTo;
  c_Unmarshal := HardState_Unmarshal; c_zero := zero_HardState;
  c_enc := HardState_enc; c_ok := HardState_ok; c_norm := fun m => m |}.
#[export] Instance HardState_laws : CodecLaws HardState.
Proof.
  split; intros m (Ht & Hv & Hc & Hx) Hl; cbn in *; unfold HardState_enc in *;
    rewrite !len_app in Hl.
  - unfold HardState_Size. rewrite !len_app, !len_enc_varint, len_unrecognized. lia.
  - unfold HardState_MarshalTo. apply emits_fills.
    repeat (apply emits_seq; [apply emits_field_varint|]). apply emits_unrecognized.
  - eapply unmarshalWith_consumes; [|rewrite !len_app; lia].
    next_u64 (fun v m => m <| hs_Term := v |>).
    next_u64 (fun v m => m <| hs_Vote := v |>).
    next_u64 (fun v m => m <| hs_Commit := v |>).
    rewrite Hx. destruct m; cbn in *; subst. apply consumes_nil.
Qed.

(** ** ConfChange *)
Definition ConfChange_enc (m : ConfChange) : list Z :=
  enc_varint 0x8 (ConfChangeType_value (cc_ChangeType m)) ++ enc_varint 0x10 (cc_NodeId m)
  ++ enc_bytes 0x1a (cc_Context m) ++ default [] (cc_XXX_unrecognized m).
Definition ConfChange_ok (m : ConfChange) : Prop :=
  int32_ok (ConfChangeType_value (cc_ChangeType m)) /\
  ConfChangeType_of (ConfChangeType_value (cc_ChangeType m)) = cc_ChangeType m /\
  is_u64 (cc_NodeId m) /\ bytes_ok (cc_Context m) /\ cc_XXX_unrecognized m = None.

#[export] Instance ConfChange_codec : Codec ConfChange := {|
  c_Size := ConfChange_Size; c_MarshalTo := ConfChange_MarshalTo;
  c_Unmarshal := ConfChange_Unmarshal; c_zero := zero_ConfChange;
  c_enc := ConfChange_enc; c_ok := ConfChange_ok; c_norm := fun m => m |}.
#[export] Instance ConfChange_laws : CodecLaws ConfChange.
Proof.
  split; intros m (Ht & Ht' & Hi & Hd & Hx) Hl; cbn in *; unfold ConfChange_enc in *;
    rewrite !len_app in Hl.
  - unfold ConfChange_Size. rewrite !len_app, !len_enc_varint, len_enc_bytes, len_unrecognized
      by u64_len. lia.
  - unfold ConfChange_MarshalTo. apply emits_fills.
    repeat (apply emits_seq; [apply emits_field_varint|]).
    apply emits_seq; [apply emits_field_bytes; u64_len|apply emits_unrecognized].
  - eapply unmarshalWith_consumes; [|rewrite !len_app; lia].
    next_enum (fun v m => m <| cc_ChangeType := ConfChangeType_of v |>).
    next_u64 (fun v m => m <| cc_NodeId := v |>).
    next_bytes (fun b m => m <| cc_Context := b |>).
    rewrite Ht', Hx. destruct m; cbn in *; subst. apply consumes_nil.
Qed.

(** ** ConfState *)
Definition packed (nodes : list Z) : list Z := concat (varint <$> nodes).
Definition ConfState_enc (m : ConfState) : list Z :=
  (if len (cs_Nodes m) >? 0 then enc_delim 0xa (packed (cs_Nodes m)) else [])
  ++ default [] (cs_XXX_unrecognized m).
Definition ConfState_ok (m : ConfState) : Prop :=
  Forall is_u64 (cs_Nodes m) /\ cs_XXX_unrecognized m = None.

#[export] Instance ConfState_codec : Codec ConfState := {|
  c_Size := ConfState_Size; c_MarshalTo := ConfState_MarshalTo;
  c_Unmarshal := ConfState_Unmarshal; c_zero := zero_ConfState;
  c_enc := ConfState_enc; c_ok := ConfState_ok; c_norm := fun m => m |}.

Lemma packed_cons v ns : packed (v :: ns) = varint v ++ packed ns.
Proof. done. Qed.

Lemma packed_len nodes : len (packed nodes) <= 10 * len nodes.
Proof.
  induction nodes as [|v ns IH]; [done|]. rewrite packed_cons, len_app, len_cons.
  pose proof (varint_len_le 10 v). unfold varint. lia.
Qed.

Lemma packed_size nodes : Forall is_u64 nodes ->
  foldl (fun l e => l + sov (uint64 e)) 0 nodes = len (packed nodes).
Proof.
  intros Hn. cut (forall k, foldl (fun l e => l + sov (uint64 e)) k nodes = k + len (packed nodes)).
  { intros H. by rewrite H. }
  induction Hn as [|v ns Hv _ IH]; intros k; cbn [foldl]; [change (k = k + 0); lia|].
  rewrite IH, packed_cons, len_app. unfold uint64. rewrite wrap64_small, sov_len by done. lia.
Qed.

Lemma packNodes_ok nodes : Forall is_u64 nodes ->
  exists rest, packNodes nodes = Ret (packed nodes ++ rest, len (packed nodes)).
Proof.
  intros Hn. unfold packNodes.
  cut (forall pre buf, len (packed nodes) <= len buf ->
    foldM (E:=wire_error) (fun p num => encodeVarint (fst p) (snd p) num) (pre ++ buf, len pre) nodes
    = Ret (pre ++ packed nodes ++ drop (length (packed nodes)) buf, len (pre ++ packed nodes))).
  { intros H. eexists. apply (H [] (replicate (length nodes * 10) 0)).
    pose proof (packed_len nodes). unfold len in *. rewrite length_replicate. lia. }
  induction Hn as [|v ns Hv _ IH]; intros pre buf Hl; cbn [foldM fst snd].
  - by rewrite app_nil_r.
  - rewrite packed_cons, len_app in Hl. len_facts.
    pose proof (emits_varint v Hv pre buf ltac:(lia)) as He. unfold put_varint in He.
    rewrite He, app_assoc, IH by (rewrite len_drop; unfold len in *; lia).
    by rewrite packed_cons, drop_drop, length_app, <- !app_assoc.
Qed.

Lemma put_packed_emits nodes : Forall is_u64 nodes -> len (packed nodes) < two63 ->
  emits (put_packed nodes) (enc_delim 0xa (packed nodes)).
Proof.
  intros Hn Hl pre buf Hb. unfold put_packed. destruct (packNodes_ok nodes Hn) as [rest ->].
  apply emits_delim; [u64_len| |done].
  intros pre' buf' Hb'. rewrite slice_to_ok by (rewrite len_app; len_facts; lia).
  unfold len at 1. rewrite Nat2Z.id, take_app_length. by apply emits_copy.
Qed.

Lemma packedLoop_ok nodes : Forall is_u64 nodes -> forall pre suf n ns0,
  (length nodes < n)%nat ->
  packedLoop (pre ++ packed nodes ++ suf) n (len (pre ++ packed nodes)) (len pre) ns0
  = Ret (ns0 ++ nodes, len (pre ++ packed nodes)).
Proof.
  induction 1 as [|v ns Hv _ IH]; intros pre suf n ns0 Hn; (destruct n as [|n]; [simpl in Hn; lia|]);
    cbn [packedLoop].
  - unfold packed. cbn [fmap list_fmap concat]. rewrite !app_nil_r. by zif; [lia|].
  - rewrite packed_cons, <- app_assoc. zif.
    + rewrite (readVarint_bytes wrap64) by done. rewrite wrap64_small by done. rewrite app_assoc, (app_assoc pre (varint v)), IH.
      * by rewrite <- app_assoc.
      * simpl in Hn. lia.
    + rewrite !len_app in *. pose proof (varint_len_pos 9 v). unfold varint in *. len_facts. lia.
Qed.

Lemma packed_count nodes : len nodes <= len (packed nodes).
Proof.
  induction nodes as [|v ns IH]; [done|]. rewrite packed_cons, len_app, len_cons.
  pose proof (varint_len_pos 9 v). unfold varint. lia.
Qed.

Lemma reads_nodes nodes m : Forall is_u64 nodes ->
  reads read_nodes 2 (varint (len (packed nodes)) ++ packed nodes) m
    (m <| cs_Nodes := cs_Nodes m ++ nodes |>).
Proof.
  intros Hn pre suf Hl. unfold read_nodes. change (2 =? 0) with false. change (2 =? 2) with true.
  rewrite <- app_assoc in *. rewrite !len_app in Hl. pose proof (packed_count nodes).
  rewrite (readVarint_bytes int64) by u64_len.
  rewrite int64_small by u64_len. zif; [len_facts; lia|].
  rewrite int64_small by (rewrite len_app; u64_len).
  replace (len (pre ++ varint (len (packed nodes))) + len (packed nodes))
    with (len ((pre ++ varint (len (packed nodes))) ++ packed nodes)) by (by rewrite len_app).
  rewrite app_assoc. zif.
  - rewrite !len_app in *. len_facts. lia.
  - rewrite packedLoop_ok; [by rewrite <- app_assoc|done|].
    rewrite !length_app. unfold len in *. lia.
Qed.

#[export] Instance ConfState_laws : CodecLaws ConfState.
Proof.
  split; intros m (Hn & Hx) Hl; cbn in *; unfold ConfState_enc in *; rewrite len_app in Hl;
    pose proof (len_enc_delim_ge 0xa (packed (cs_Nodes m))).
  - unfold ConfState_Size. rewrite len_app, len_unrecognized.
    destruct (len (cs_Nodes m) >? 0); [|done].
    rewrite packed_size, len_enc_delim by (done || u64_len). unfold size_delim. lia.
  - unfold ConfState_MarshalTo. apply emits_fills, emits_seq; [|apply emits_unrecognized].
    apply emits_if. intros Hc. rewrite Hc in Hl. apply put_packed_emits; [done|len_facts; lia].
  - eapply unmarshalWith_consumes; [|rewrite len_app; lia].
    rewrite Hx in *. rewrite app_nil_r. destruct m as [nodes u]; cbn in *; subst u. zif.
    + unfold enc_delim. eapply consumes_field; [done|done|done|done|].
      by apply (reads_nodes nodes zero_ConfState).
    + assert (nodes = []) as -> by (apply len_0_nil; len_facts; lia). apply consumes_nil.
Qed.

(** ** SnapshotMetadata and Snapshot *)
Definition SnapshotMetadata_enc (m : SnapshotMetadata) : list Z :=
  enc_opt 0xa (sm_ConfState m)
  ++ enc_varint 0x10 (sm_Index m) ++ enc_varint 0x18 (sm_Term m)
  ++ default [] (sm_XXX_unrecognized m).
Definition SnapshotMetadata_ok (m : SnapshotMetadata) : Prop :=
  from_option ConfState_ok True (sm_ConfState m) /\ is_u64 (sm_Index m) /\ is_u64 (sm_Term m)
  /\ sm_XXX_unrecognized m = None.
#[export] Instance SnapshotMetadata_codec : Codec SnapshotMetadata := {|
  c_Size := SnapshotMetadata_Size; c_MarshalTo := SnapshotMetadata_MarshalTo;
  c_Unmarshal := SnapshotMetadata_Unmarshal; c_zero := zero_SnapshotMetadata;
  c_enc := SnapshotMetadata_enc; c_ok := SnapshotMetadata_ok; c_norm := fun m => m |}.

(** The size and the writer of an optional embedded message. *)
Lemma size_optmsg {T} `{CodecLaws T} t (x : option T) :
  from_option c_ok True x -> len (enc_opt t x) < two63 ->
  len (enc_opt t x)
  = match x with Some y => size_delim (c_Size y) | None => 0 end.
Proof.
  destruct x as [y|]; [|done]. cbn [from_option enc_opt]. intros Hok Hl. pose proof (len_enc_delim_ge t (c_enc y)).
  rewrite c_size by (done || lia). apply len_enc_delim. u64_len.
Qed.
Lemma emits_optmsg {T} `{CodecLaws T} t (x : option T) :
  from_option c_ok True x -> len (enc_opt t x) < two63 ->
  emits (match x with Some y => put_field_msg t (c_Size y) (c_MarshalTo y) | None => wskip end)
    (enc_opt t x).
Proof.
  destruct x as [y|]; [|intros; apply emits_skip]. cbn [from_option enc_opt]. intros Hok Hl.
  pose proof (len_enc_delim_ge t (c_enc y)).
  apply emits_field_msg; [u64_len|apply c_size; [done|lia]|apply c_fills; [done|lia]].
Qed.

#[export] Instance SnapshotMetadata_laws : CodecLaws SnapshotMetadata.
Proof.
  split; intros m (Hcs & Hi & Ht & Hx) Hl; cbn [c_enc c_Size c_MarshalTo c_Unmarshal c_norm
    SnapshotMetadata_codec] in *; unfold SnapshotMetadata_enc in *;
    rewrite !len_app in Hl.
  - unfold SnapshotMetadata_Size. rewrite !len_app, !len_enc_varint, len_unrecognized.
    rewrite size_optmsg by (done || (len_facts; lia)). cbn. lia.
  - unfold SnapshotMetadata_MarshalTo. apply emits_fills.
    apply emits_seq; [refine (emits_optmsg 0xa (sm_ConfState m) _ _); [done|len_facts; lia]|].
    repeat (apply emits_seq; [apply emits_field_varint|]). apply emits_unrecognized.
  - eapply unmarshalWith_consumes; [|rewrite !len_app; lia].
    eapply consumes_app.
    { eapply (consumes_optmsg (T:=ConfState) _ _ sm_ConfState
        (fun t m => m <| sm_ConfState := Some t |>)); try done; len_facts; lia. }
    destruct m as [[cs|] i t u]; cbn in *; subst u.
    all: next_u64 (fun v m => m <| sm_Index := v |>).
    all: next_u64 (fun v m => m <| sm_Term := v |>).
    all: apply consumes_nil.
Qed.

Definition Snapshot_enc (m : Snapshot) : list Z :=
  enc_bytes 0xa (s_Data m) ++ enc_opt 0x12 (s_Metadata m) ++ default [] (s_XXX_unrecognized m).
Definition Snapshot_ok (m : Snapshot) : Prop :=
  bytes_ok (s_Data m) /\ from_option SnapshotMetadata_ok True (s_Metadata m)
  /\ s_XXX_unrecognized m = None.
#[export] Instance Snapshot_codec : Codec Snapshot := {|
  c_Size := Snapshot_Size; c_MarshalTo := Snapshot_MarshalTo; c_Unmarshal := Snapshot_Unmarshal;
  c_zero := zero_Snapshot; c_enc := Snapshot_enc; c_ok := Snapshot_ok; c_norm := fun m => m |}.
#[export] Instance Snapshot_laws : CodecLaws Snapshot.
Proof.
  split; intros m (Hd & Hmd & Hx) Hl; cbn [c_enc c_Size c_MarshalTo c_Unmarshal c_norm
    Snapshot_codec] in *; unfold Snapshot_enc in *; rewrite !len_app in Hl.
  - unfold Snapshot_Size. rewrite !len_app, len_enc_bytes, len_unrecognized by u64_len.
    rewrite size_optmsg by (done || (len_facts; lia)). cbn. lia.
  - unfold Snapshot_MarshalTo. apply emits_fills.
    apply emits_seq; [apply emits_field_bytes; u64_len|].
    apply emits_seq; [refine (emits_optmsg 0x12 (s_Metadata m) _ _); [done|len_facts; lia]|].
    apply emits_unrecognized.
  - eapply unmarshalWith_consumes; [|rewrite !len_app; lia].
    next_bytes (fun b m => m <| s_Data := b |>).
    eapply consumes_app.
    { eapply (consumes_optmsg (T:=SnapshotMetadata) _ _ s_Metadata
        (fun t m => m <| s_Metadata := Some t |>)); try done; len_facts; lia. }
    rewrite Hx. destruct m as [? [] ?]; cbn in *; subst; apply consumes_nil.
Qed.

(** ** Message *)
Definition Message_enc (m : Message) : list Z :=
  enc_varint 0x8 (MessageType_value (m_MsgType m)) ++ enc_varint 0x10 (m_To m)
  ++ enc_varint 0x18 (m_From m) ++ enc_varint 0x20 (m_Term m) ++ enc_varint 0x28 (m_LogTerm m)
  ++ enc_varint 0x30 (m_Index m) ++ concat ((enc_delim 0x3a ∘ c_enc) <$> m_Entries m)
  ++ enc_varint 0x40 (m_Commit m) ++ enc_opt 0x4a (m_Snapshot m)
  ++ (if m_Reject m then [0x50; 1] else []) ++ default [] (m_XXX_unrecognized m).
Definition Message_ok (m : Message) : Prop :=
  int32_ok (MessageType_value (m_MsgType m)) /\
  MessageType_of (MessageType_value (m_MsgType m)) = m_MsgType m /\
  Forall is_u64 [m_To m; m_From m; m_Term m; m_LogTerm m; m_Index m; m_Commit m] /\
  Forall Entry_ok (m_Entries m) /\ from_option Snapshot_ok True (m_Snapshot m) /\
  m_XXX_unrecognized m = None.
(** What the receiver gets: the two fields without a field number are lost. *)
Definition Message_received (m : Message) : Message :=
  m <| m_ConflictTerm := 0 |> <| m_CommitUse := false |>.
#[export] Instance Message_codec : Codec Message := {|
  c_Size := Message_Size; c_MarshalTo := Message_MarshalTo; c_Unmarshal := Message_Unmarshal;
  c_zero := zero_Message; c_enc := Message_enc; c_ok := Message_ok; c_norm := Message_received |}.

Lemma size_entries es k :
  Forall Entry_ok es -> len (concat ((enc_delim 0x3a ∘ c_enc) <$> es)) < two63 ->
  foldl (fun n e => n + size_delim (Entry_Size e)) k es
  = k + len (concat ((enc_delim 0x3a ∘ c_enc) <$> es)).
Proof.
  intros Hes. revert k. induction Hes as [|e es He _ IH]; intros k Hl.
  - change (k = k + 0). lia.
  - cbn [foldl fmap list_fmap concat compose] in *. rewrite len_app in *.
    pose proof (len_enc_delim_ge 0x3a (c_enc e)).
    rewrite IH by (len_facts; lia).
    change (Entry_Size e) with (c_Size e). rewrite c_size, <- len_enc_delim with (tag := 0x3a)
      by (done || u64_len). lia.
Qed.

Lemma emits_entries es :
  Forall Entry_ok es -> len (concat ((enc_delim 0x3a ∘ c_enc) <$> es)) < two63 ->
  emits (foldr (fun msg w => put_field_msg 0x3a (Entry_Size msg) (Entry_MarshalTo msg) ;> w)
           wskip es) (concat ((enc_delim 0x3a ∘ c_enc) <$> es)).
Proof.
  induction 1 as [|e es He _ IH]; intros Hl; [apply emits_skip|].
  cbn [foldr fmap list_fmap concat compose] in *. rewrite len_app in *.
  pose proof (len_enc_delim_ge 0x3a (c_enc e)).
  apply emits_seq; [|apply IH; len_facts; lia].
  apply emits_field_msg; [u64_len|refine (c_size e _ _)|refine (c_fills e _ _)];
    done || (len_facts; lia).
Qed.

Lemma consumes_entries unrec es m :
  Forall Entry_ok es -> len (concat ((enc_delim 0x3a ∘ c_enc) <$> es)) < two63 ->
  consumes Message_field unrec (concat ((enc_delim 0x3a ∘ c_enc) <$> es)) m
    (m <| m_Entries := m_Entries m ++ es |>).
Proof.
  intros Hes. revert m. induction Hes as [|e es He _ IH]; intros m Hl.
  - rewrite app_nil_r. destruct m. apply consumes_nil.
  - cbn [fmap list_fmap concat compose] in *. rewrite len_app in *.
    pose proof (len_enc_delim_ge 0x3a (c_enc e)).
    eapply consumes_app.
    + eapply consumes_delim; [done|done|done|reflexivity|len_facts; lia|].
      cbv beta. change Entry_Unmarshal with (c_Unmarshal (T:=Entry)).
      change zero_Entry with (c_zero (T:=Entry)).
      rewrite (c_round e) by (done || (len_facts; lia)). reflexivity.
    + assert (IH' := IH (m <| m_Entries ::= fun es => es ++ [e] |>) ltac:(len_facts; lia)).
      rewrite (cons_middle e), app_assoc. by destruct m.
Qed.

#[export] Instance Message_laws : CodecLaws Message.
Proof.
  split; intros m (Ht & Ht' & Hu & Hes & Hsn & Hx) Hl; cbn [c_enc c_Size c_MarshalTo c_Unmarshal
    c_norm Message_codec] in *; unfold Message_enc in *; rewrite !len_app in Hl.
  - unfold Message_Size. rewrite !len_app, !len_enc_varint, len_unrecognized.
    rewrite size_optmsg by (done || (len_facts; lia)).
    rewrite size_entries by (done || (len_facts; lia)). cbn [c_Size Snapshot_codec].
    assert (len (if m_Reject m then [0x50; 1] else []) = if m_Reject m then 2 else 0)
      by (by destruct (m_Reject m)). lia.
  - unfold Message_MarshalTo. apply emits_fills.
    do 6 (apply emits_seq; [apply emits_field_varint|]).
    apply emits_seq; [apply emits_entries; [done|len_facts; lia]|].
    apply emits_seq; [apply emits_field_varint|].
    apply emits_seq; [refine (emits_optmsg 0x4a (m_Snapshot m) _ _); [done|len_facts; lia]|].
    apply emits_seq; [|apply emits_unrecognized].
    apply emits_if. intros ->. exact (emits_seq _ _ [0x50] [1] (emits_put _) (emits_put _)).
  - eapply unmarshalWith_consumes; [|rewrite !len_app; lia].
    rewrite !list.Forall_cons in Hu. destruct Hu as (H1 & H2 & H3 & H4 & H5 & H6 & _).
    next_enum (fun v m => m <| m_MsgType := MessageType_of v |>).
    next_u64 (fun v m => m <| m_To := v |>).
    next_u64 (fun v m => m <| m_From := v |>).
    next_u64 (fun v m => m <| m_Term := v |>).
    next_u64 (fun v m => m <| m_LogTerm := v |>).
    next_u64 (fun v m => m <| m_Index := v |>).
    eapply consumes_app; [apply consumes_entries; [done|len_facts; lia]|].
    next_u64 (fun v m => m <| m_Commit := v |>).
    eapply consumes_app.
    { eapply (consumes_optmsg (T:=Snapshot) _ _ m_Snapshot
        (fun t m => m <| m_Snapshot := Some t |>)); try done; len_facts; lia. }
    rewrite Hx, app_nil_r, Ht'. destruct m as [mt a b c d e es cm sn rj ct cu u]; cbn in Hx; subst u.
    destruct rj; cbn [m_Reject]; [|destruct sn; apply consumes_nil].
    match goal with |- consumes _ _ _ ?m0 ?m1 =>
      replace m1 with (m0 <| m_Reject := negb (int64 1 =? 0) |>) by (by destruct sn) end.
    eapply (consumes_field _ _ 0x50 _ (varint 1)); [done|done|done|reflexivity|].
    by apply (reads_varint int64 (fun v m => m <| m_Reject := negb (v =? 0) |>)).
Qed.

(** ** Round trips *)

(** An entry is marshalled without a panic into [Size] bytes, and unmarshalling
    them gives the entry back. *)
Theorem Entry_roundtrip m :
  Entry_ok m -> len (Entry_enc m) < two63 ->
  exists bs, Entry_Marshal m = Ret bs /\ len bs = Entry_Size m
    /\ Entry_Unmarshal zero_Entry bs = Ret m.
Proof. exact (codec_roundtrip (T:=Entry) m). Qed.

(** A snapshot, its metadata and membership included, survives the wire. *)
Theorem Snapshot_roundtrip m :
  Snapshot_ok m -> len (Snapshot_enc m) < two63 ->
  exists bs, Snapshot_Marshal m = Ret bs /\ len bs = Snapshot_Size m
    /\ Snapshot_Unmarshal zero_Snapshot bs = Ret m.
Proof. exact (codec_roundtrip (T:=Snapshot) m). Qed.

Lemma message_wire m :
  Message_ok m -> len (Message_enc m) < two63 ->
  exists bs, Message_Marshal m = Ret bs /\ len bs = Message_Size m
    /\ Message_Unmarshal zero_Message bs = Ret (Message_received m).
Proof. exact (codec_roundtrip (T:=Message) m). Qed.

(** C32. A Raft message is marshalled without a panic into [Size] bytes; the receiver
    reads the same message, except that [ConflictTerm] and [CommitUse] are always
    zero: they are not part of the encoding. *)
Theorem Message_roundtrip m :
  Message_ok m -> len (Message_enc m) < two63 ->
  exists bs, Message_Marshal m = Ret bs /\ len bs = Message_Size m
    /\ Message_Unmarshal zero_Message bs
       = Ret (m <| m_ConflictTerm := 0 |> <| m_CommitUse := false |>).
Proof. exact (message_wire m). Qed.

(** The hard state a peer persists is read back unchanged. *)
Theorem HardState_roundtrip m :
  HardState_ok m ->
  exists bs, HardState_Marshal m = Ret bs /\ len bs = HardState_Size m
    /\ HardState_Unmarshal zero_HardState bs = Ret m.
Proof.
  intros Hok. refine (codec_roundtrip (T:=HardState) m Hok _).
  destruct Hok as (_ & _ & _ & Hx). change (len (HardState_enc m) < two63).
  unfold HardState_enc. rewrite Hx, app_nil_r, !len_app.
  pose proof (enc_varint_len_le 0x8 (hs_Term m)). pose proof (enc_varint_len_le 0x10 (hs_Vote m)).
  pose proof (enc_varint_len_le 0x18 (hs_Commit m)). unfold two63. lia.
Qed.

(** A membership change survives the wire. *)
Theorem ConfChange_roundtrip m :
  ConfChange_ok m -> len (ConfChange_enc m) < two63 ->
  exists bs, ConfChange_Marshal m = Ret bs /\ len bs = ConfChange_Size m
    /\ ConfChange_Unmarshal zero_ConfChange bs = Ret m.
Proof. exact (codec_roundtrip (T:=ConfChange) m). Qed.

(** A message, an entry and a snapshot with every field set. *)
Definition sample_Entry : Entry := mkEntry EntryType_EntryConfChange 7 300 (Some [1; 2; 200]) None.
Definition sample_Snapshot : Snapshot :=
  mkSnapshot (Some [9]) (Some (mkSnapshotMetadata (Some (mkConfState [1; 2; 300] None)) 5 6 None))
    None.
Definition sample_Message : Message :=
  mkMessage MsgAppend 1 2 3 4 5 [sample_Entry; zero_Entry] 6 (Some sample_Snapshot) true 8 true None.

Ltac u64s := repeat (constructor; [by vm_compute|]); constructor.

Lemma sample_Entry_ok : Entry_ok sample_Entry.
Proof. repeat split; by vm_compute. Qed.
Lemma sample_Snapshot_ok : Snapshot_ok sample_Snapshot.
Proof.
  split_and!; [done| |done]. split_and!; [|by vm_compute|by vm_compute|done].
  split; [|done]. u64s.
Qed.
Lemma sample_Message_ok : Message_ok sample_Message.
Proof.
  split_and!; [by vm_compute|done| | |apply sample_Snapshot_ok|done].
  - u64s.
  - constructor; [apply sample_Entry_ok|]. constructor; [|constructor].
    repeat split; by vm_compute.
Qed.

Lemma Entry_roundtrip_witness :
  exists bs, Entry_Marshal sample_Entry = Ret bs /\ len bs = Entry_Size sample_Entry
    /\ Entry_Unmarshal zero_Entry bs = Ret sample_Entry.
Proof. apply (Entry_roundtrip sample_Entry); [apply sample_Entry_ok|by vm_compute]. Defined.
Lemma Snapshot_roundtrip_witness :
  exists bs, Snapshot_Marshal sample_Snapshot = Ret bs /\ len bs = Snapshot_Size sample_Snapshot
    /\ Snapshot_Unmarshal zero_Snapshot bs = Ret sample_Snapshot.
Proof. apply (Snapshot_roundtrip sample_Snapshot); [apply sample_Snapshot_ok|by vm_compute]. Defined.
Lemma Message_roundtrip_witness :
  exists bs, Message_Marshal sample_Message = Ret bs /\ len bs = Message_Size sample_Message
    /\ Message_Unmarshal zero_Message bs
       = Ret (sample_Message <| m_ConflictTerm := 0 |> <| m_CommitUse := false |>).
Proof. apply (Message_roundtrip sample_Message); [apply sample_Message_ok|by vm_compute]. Defined.
Lemma HardState_roundtrip_witness :
  exists bs, HardState_Marshal (mkHardState 1 2 300 None) = Ret bs
    /\ len bs = HardState_Size (mkHardState 1 2 300 None)
    /\ HardState_Unmarshal zero_HardState bs = Ret (mkHardState 1 2 300 None).
Proof. apply (HardState_roundtrip (mkHardState 1 2 300 None)). repeat split; by vm_compute. Defined.
Lemma ConfChange_roundtrip_witness :
  exists bs, ConfChange_Marshal (mkConfChange ConfChangeType_RemoveNode 3 (Some [5]) None) = Ret bs
    /\ len bs = ConfChange_Size (mkConfChange ConfChangeType_RemoveNode 3 (Some [5]) None)
    /\ ConfChange_Unmarshal zero_ConfChange bs
       = Ret (mkConfChange ConfChangeType_RemoveNode 3 (Some [5]) None).
Proof.
  apply (ConfChange_roundtrip (mkConfChange ConfChangeType_RemoveNode 3 (Some [5]) None));
    [repeat split|]; by vm_compute.
Defined.

(** ** Termination, and a panic *)

Lemma packedLoop_ends dAtA n post i ns :
  len dAtA - i < Z.of_nat n -> (0 < n)%nat -> 0 <= i ->
  ends (packedLoop dAtA n post i ns) (fun p => i <= snd p).
Proof.
  revert i ns. induction n as [|n IH]; intros i ns Hn H0 Hi; [lia|]. cbn [packedLoop].
  zif; [|cbn; lia].
  eapply ends_bind; [apply readVarint_ends|]. intros [v j] (Hj & Hj' & _). cbn [snd] in Hj, Hj'.
  eapply ends_mono; [apply IH; lia|]. cbn beta. intros p. lia.
Qed.

Lemma read_nodes_ends : reader_ends read_nodes.
Proof.
  intros wt dAtA m i Hi Hl. unfold read_nodes. zif.
  - eapply ends_bind; [apply readVarint_ends|]. intros [v j] (Hj & _). cbn in *. lia.
  - zif; [|done]. eapply ends_bind; [apply readVarint_ends|]. intros [v j] (Hj & _).
    cbn [snd] in Hj. zif; [done|]. zif; [done|].
    eapply ends_bind; [apply packedLoop_ends; unfold len; lia|].
    intros [ns k] Hk. cbn in *. lia.
Qed.

Ltac field_ends :=
  let k := fresh "k" in let rd := fresh "rd" in let H := fresh "H" in
  intros k rd H; repeat (case_match; simplify_eq);
  try apply read_varint_ends; try (by apply read_delim_ends).

Lemma optmsg_ends {M T} (get : M -> option T) (set : T -> M -> M) zero unm :
  (forall t w, len w < two62 -> ends (unm t w) (fun _ => True)) ->
  reader_ends (read_optmsg get set zero unm).
Proof.
  intros Hu. apply read_delim_ends. intros w m Hw. eapply ends_bind; [by apply Hu|]. done.
Qed.

Lemma Entry_Unmarshal_ends m w : len w < two62 -> ends (Entry_Unmarshal m w) (fun _ => True).
Proof. intros. apply unmarshalWith_ends; [|done]. unfold Entry_field. field_ends. Qed.
Lemma ConfState_Unmarshal_ends m w :
  len w < two62 -> ends (ConfState_Unmarshal m w) (fun _ => True).
Proof.
  intros. apply unmarshalWith_ends; [|done]. unfold ConfState_field. field_ends.
  apply read_nodes_ends.
Qed.
Lemma SnapshotMetadata_Unmarshal_ends m w :
  len w < two62 -> ends (SnapshotMetadata_Unmarshal m w) (fun _ => True).
Proof.
  intros. apply unmarshalWith_ends; [|done]. unfold SnapshotMetadata_field. field_ends.
  apply optmsg_ends, ConfState_Unmarshal_ends.
Qed.
Lemma Snapshot_Unmarshal_ends m w :
  len w < two62 -> ends (Snapshot_Unmarshal m w) (fun _ => True).
Proof.
  intros. apply unmarshalWith_ends; [|done]. unfold Snapshot_field. field_ends.
  apply optmsg_ends, SnapshotMetadata_Unmarshal_ends.
Qed.

(** Unmarshalling a Raft message terminates on every input shorter than [2^62]
    bytes, valid or not: one round of each loop per input byte is enough. *)
Theorem Message_Unmarshal_terminates m dAtA :
  len dAtA < two62 -> Message_Unmarshal m dAtA <> OutOfFuel.
Proof.
  intros Hl. cut (ends (Message_Unmarshal m dAtA) (fun _ => True)).
  { intros He Ho. by rewrite Ho in He. }
  apply unmarshalWith_ends; [|done]. unfold Message_field. field_ends.
  - apply read_delim_ends. intros w x Hw.
    eapply ends_bind; [by apply Entry_Unmarshal_ends|]. done.
  - apply optmsg_ends, Snapshot_Unmarshal_ends.
Qed.

Lemma Message_Unmarshal_terminates_witness :
  Message_Unmarshal zero_Message [0x3a; 0x2; 0x10; 0x5; 0x13; 0x14] <> OutOfFuel.
Proof. apply Message_Unmarshal_terminates. by vm_compute. Defined.

(** A length of [2^63 - 1] passes the checks of [Unmarshal]: the sum with the
    index wraps to a negative number, and slicing the input panics instead of
    returning an error. *)
Theorem Unmarshal_length_overflow_panics :
  Entry_Unmarshal zero_Entry
    [0x22; 0xff; 0xff; 0xff; 0xff; 0xff; 0xff; 0xff; 0xff; 0x7f] = Panic.
Proof. by vm_compute. Qed.
