(* ===== verification/RaftStorage.v ===== *)
(** * RaftStorage: the [Storage] interface and [MemoryStorage]

    Models [raft/storage.go].  [Storage] is the Go interface as a type class of
    operations; [StorageLaws] states what the Raft module relies on from an
    implementation.  [MemoryStorage] is the in-memory implementation; its mutex
    makes every method atomic, so each method is one function on the state. *)

From stdpp Require Import base option list strings tactics.
From S2P Require Import Prelude.
From S2P Require Import Eraftpb.

(** The error values of the package. *)
Inductive error :=
  | ErrCompacted
  | ErrSnapOutOfDate
  | ErrUnavailable
  | ErrSnapshotTemporarilyUnavailable
  | ErrStepLocalMsg
  | ErrStepPeerNotFound
  | ErrProposalDropped
  | ErrMsg (msg : string).

Class Storage (S : Type) := {
  st_InitialState : S -> outcome error (HardState * ConfState);
  st_Entries : S -> Z -> Z -> outcome error (list Entry);
  st_Term : S -> Z -> outcome error Z;
  st_LastIndex : S -> outcome error Z;
  st_FirstIndex : S -> outcome error Z;
  (** [Snapshot] may change the storage: a generation task is started or its
      result is consumed. *)
  st_Snapshot : S -> S * outcome error Snapshot;
}.

(** Entries with consecutive indices starting at [lo]. *)
Definition contiguous (lo : Z) (es : list Entry) : Prop :=
  forall (i : nat) e, es !! i = Some e -> e_Index e = lo + Z.of_nat i.

Lemma contiguous_app lo (es es' : list Entry) :
  contiguous lo es -> contiguous (lo + len es) es' -> contiguous lo (es ++ es').
Proof.
  intros H1 H2 i e He. apply lookup_app_Some in He as [He|[Hi He]].
  - by apply H1.
  - apply H2 in He. unfold len in He. lia.
Qed.

Lemma contiguous_take lo n (es : list Entry) :
  contiguous lo es -> contiguous lo (take n es).
Proof. intros Hc i e He. apply lookup_take_Some in He as [He _]. by apply Hc. Qed.

Lemma contiguous_drop lo n (es : list Entry) :
  contiguous lo es -> contiguous (lo + Z.of_nat n) (drop n es).
Proof. intros Hc i e He. rewrite lookup_drop in He. apply Hc in He. lia. Qed.

Lemma contiguous_nil lo : contiguous lo [].
Proof. intros i e He. by rewrite lookup_nil in He. Qed.

Lemma contiguous_one lo e : e_Index e = lo -> contiguous lo [e].
Proof. intros <- [|i] e' He; simpl in *; [|done]. injection He as ->. lia. Qed.
#[export] Hint Resolve contiguous_app contiguous_take contiguous_drop contiguous_nil
  contiguous_one : raft.

(** What the Raft module relies on: a well-formed storage has a first and a last
    index, serves every range between them with consecutive entries, and knows
    the term of every index from the one before the first. *)
Class StorageLaws (S : Type) `{Storage S} := {
  st_wf : S -> Prop;
  st_first : S -> Z;
  st_last : S -> Z;
  st_bounds : forall s, st_wf s ->
    1 <= st_first s /\ st_first s <= st_last s + 1 /\ st_last s + 1 < two64;
  st_FirstIndex_law : forall s, st_wf s -> st_FirstIndex s = Ret (st_first s);
  st_LastIndex_law : forall s, st_wf s -> st_LastIndex s = Ret (st_last s);
  st_Entries_law : forall s lo hi, st_wf s ->
    st_first s <= lo -> lo <= hi -> hi <= st_last s + 1 ->
    exists es, st_Entries s lo hi = Ret es /\ contiguous lo es /\ len es = hi - lo;
  st_Term_law : forall s i, st_wf s -> st_first s - 1 <= i <= st_last s ->
    exists t, st_Term s i = Ret t;
  st_InitialState_law : forall s, st_wf s ->
    exists hs cs, st_InitialState s = Ret (hs, cs)
      /\ st_first s - 1 <= hs_Commit hs <= st_last s;
  st_Snapshot_law : forall s, st_wf s ->
    st_wf (fst (st_Snapshot s)) /\ st_first (fst (st_Snapshot s)) = st_first s /\
    st_last (fst (st_Snapshot s)) = st_last s /\
    ((exists e, snd (st_Snapshot s) = Err e) \/
     (exists snap md, snd (st_Snapshot s) = Ret snap /\ s_Metadata snap = Some md));
}.

(** ** MemoryStorage *)
Record MemoryStorage := mkMemoryStorage {
  ms_hardState : HardState;
  ms_snapshot : Snapshot;
  ms_ents : list Entry;
}.
#[export] Instance set_ms_hardState : Setter ms_hardState := fun g m =>
  mkMemoryStorage (g (ms_hardState m)) (ms_snapshot m) (ms_ents m).
#[export] Instance set_ms_snapshot : Setter ms_snapshot := fun g m =>
  mkMemoryStorage (ms_hardState m) (g (ms_snapshot m)) (ms_ents m).
#[export] Instance set_ms_ents : Setter ms_ents := fun g m =>
  mkMemoryStorage (ms_hardState m) (ms_snapshot m) (g (ms_ents m)).
#[export] Hint Unfold set_ms_hardState set_ms_snapshot set_ms_ents : setters.

Module MemoryStorage.

Definition NewMemoryStorage : MemoryStorage :=
  mkMemoryStorage zero_HardState
    (mkSnapshot None
       (Some (mkSnapshotMetadata (Some (mkConfState [] None)) 0 0 None)) None)
    [zero_Entry].

Definition InitialState (ms : MemoryStorage)
    : outcome error (HardState * ConfState) :=
  let! md := deref (s_Metadata (ms_snapshot ms)) in
  let! cs := deref (sm_ConfState md) in
  Ret (ms_hardState ms, cs).

Definition SetHardState (ms : MemoryStorage) (st : HardState)
    : outcome error MemoryStorage :=
  Ret (ms <| ms_hardState := st |>).

Definition firstIndex (ms : MemoryStorage) : outcome error Z :=
  let! e0 := index (ms_ents ms) 0 in Ret (e_Index e0 ⊞ 1).

Definition lastIndex (ms : MemoryStorage) : outcome error Z :=
  let! e0 := index (ms_ents ms) 0 in
  Ret (e_Index e0 ⊞ len (ms_ents ms) ⊟ 1).

Definition Entries (ms : MemoryStorage) (lo hi : Z)
    : outcome error (list Entry) :=
  let! e0 := index (ms_ents ms) 0 in
  let offset := e_Index e0 in
  if lo <=? offset then Err ErrCompacted else
  let! last := lastIndex ms in
  if hi >? last ⊞ 1 then Panic else
  let! ents := slice (ms_ents ms) (lo ⊟ offset) (hi ⊟ offset) in
  if (len (ms_ents ms) =? 1) && negb (len ents =? 0) then Err ErrUnavailable
  else Ret ents.

Definition Term (ms : MemoryStorage) (i : Z) : outcome error Z :=
  let! e0 := index (ms_ents ms) 0 in
  let offset := e_Index e0 in
  if i <? offset then Err ErrCompacted else
  if int64 (i ⊟ offset) >=? len (ms_ents ms) then Err ErrUnavailable else
  let! e := index (ms_ents ms) (i ⊟ offset) in
  Ret (e_Term e).

Definition LastIndex (ms : MemoryStorage) : outcome error Z := lastIndex ms.
Definition FirstIndex (ms : MemoryStorage) : outcome error Z := firstIndex ms.
Definition GetSnapshot (ms : MemoryStorage) : MemoryStorage * outcome error Snapshot :=
  (ms, Ret (ms_snapshot ms)).

Definition ApplySnapshot (ms : MemoryStorage) (snap : Snapshot)
    : outcome error MemoryStorage :=
  let! msmd := deref (s_Metadata (ms_snapshot ms)) in
  let! md := deref (s_Metadata snap) in
  if sm_Index msmd >=? sm_Index md then Err ErrSnapOutOfDate else
  Ret (ms <| ms_snapshot := snap |>
          <| ms_ents := [zero_Entry <| e_Term := sm_Term md |>
                                    <| e_Index := sm_Index md |>] |>).

(** [CreateSnapshot] returns the new snapshot beside the changed storage. *)
Definition CreateSnapshot (ms : MemoryStorage) (i : Z) (cs : option ConfState)
    (data : option (list Z)) : outcome error (Snapshot * MemoryStorage) :=
  let! md := deref (s_Metadata (ms_snapshot ms)) in
  if i <=? sm_Index md then Err ErrSnapOutOfDate else
  let! e0 := index (ms_ents ms) 0 in
  let! last := lastIndex ms in
  if i >? last then Panic else
  let! e := index (ms_ents ms) (i ⊟ e_Index e0) in
  let md1 := md <| sm_Index := i |> <| sm_Term := e_Term e |> in
  let md2 := match cs with Some c => md1 <| sm_ConfState := Some c |> | None => md1 end in
  let snap := (ms_snapshot ms) <| s_Metadata := Some md2 |> <| s_Data := data |> in
  Ret (snap, ms <| ms_snapshot := snap |>).

Definition Compact (ms : MemoryStorage) (compactIndex : Z)
    : outcome error MemoryStorage :=
  let! e0 := index (ms_ents ms) 0 in
  let offset := e_Index e0 in
  if compactIndex <=? offset then Err ErrCompacted else
  let! last := lastIndex ms in
  if compactIndex >? last then Panic else
  let i := compactIndex ⊟ offset in
  let! ei := index (ms_ents ms) i in
  let! rest := slice_from (ms_ents ms) (i ⊞ 1) in
  Ret (ms <| ms_ents :=
         (zero_Entry <| e_Index := e_Index ei |> <| e_Term := e_Term ei |>) :: rest |>).

Definition Append (ms : MemoryStorage) (entries : list Entry)
    : outcome error MemoryStorage :=
  if len entries =? 0 then Ret ms else
  let! first := firstIndex ms in
  let! e0 := index entries 0 in
  let last := e_Index e0 ⊞ len entries ⊟ 1 in
  if last <? first then Ret ms else
  let! entries :=
    (if first >? e_Index e0
     then slice_from entries (first ⊟ e_Index e0) else Ret entries) in
  let! e0 := index entries 0 in
  let! m0 := index (ms_ents ms) 0 in
  let offset := e_Index e0 ⊟ e_Index m0 in
  if len (ms_ents ms) >? offset then
    let! keep := slice_to (ms_ents ms) offset in
    Ret (ms <| ms_ents := keep ++ entries |>)
  else if len (ms_ents ms) =? offset then
    Ret (ms <| ms_ents := ms_ents ms ++ entries |>)
  else Panic.

#[export] Instance Storage_MemoryStorage : Storage MemoryStorage := {|
  st_InitialState := InitialState;
  st_Entries := Entries;
  st_Term := Term;
  st_LastIndex := LastIndex;
  st_FirstIndex := FirstIndex;
  st_Snapshot := GetSnapshot;
|}.

(** *** Facts on MemoryStorage *)

(** The index of the dummy entry at position 0. *)
Definition offset (ms : MemoryStorage) : Z :=
  match ms_ents ms with e0 :: _ => e_Index e0 | [] => 0 end.

(** Well-formed: a dummy entry followed by consecutive entries. *)
Record ms_shape (ms : MemoryStorage) : Prop := {
  mss_ne : ms_ents ms <> [];
  mss_off : 0 <= offset ms;
  mss_contig : contiguous (offset ms) (ms_ents ms);
  mss_len : len (ms_ents ms) < two63;
  mss_room : offset ms + len (ms_ents ms) < two64;
}.

(** A storage a peer can start from: it also has snapshot metadata and a commit
    index inside the stored log. *)
Record ms_wf (ms : MemoryStorage) : Prop := {
  msw_shape : ms_shape ms;
  msw_meta : exists md cs, s_Metadata (ms_snapshot ms) = Some md /\ sm_ConfState md = Some cs;
  msw_commit : offset ms <= hs_Commit (ms_hardState ms) <= offset ms + len (ms_ents ms) - 1;
}.

(** The stored entry with log index [i] (the dummy entry included). *)
Definition entry_at (ms : MemoryStorage) (i : Z) : option Entry :=
  if i <? offset ms then None else ms_ents ms !! Z.to_nat (i - offset ms).

Lemma index0 ms : ms_shape ms ->
  exists e0, index (E:=error) (ms_ents ms) 0 = Ret e0 /\ e_Index e0 = offset ms.
Proof.
  intros [Hne _ _ _ _]. unfold offset. destruct (ms_ents ms) as [|e0 t] eqn:He; [done|].
  exists e0. split; [|done]. by apply index_lookup.
Qed.

Lemma len_pos ms : ms_shape ms -> 1 <= len (ms_ents ms).
Proof.
  intros [Hne _ _ _ _]. destruct (ms_ents ms); [done|].
  rewrite len_cons. pose proof (len_nonneg l). lia.
Qed.

Lemma firstIndex_ok ms : ms_shape ms -> firstIndex ms = Ret (offset ms + 1).
Proof.
  intros Hs. destruct (index0 ms Hs) as (e0 & He & Hi). pose proof (len_pos ms Hs).
  destruct Hs. unfold firstIndex. rewrite He, Hi, u64_add_small; [done|].
  unfold is_u64. lia.
Qed.

Lemma lastIndex_ok ms :
  ms_shape ms -> lastIndex ms = Ret (offset ms + len (ms_ents ms) - 1).
Proof.
  intros Hs. destruct (index0 ms Hs) as (e0 & He & Hi). pose proof (len_pos ms Hs).
  destruct Hs. unfold lastIndex. rewrite He, Hi, u64_add_small by (unfold is_u64; lia).
  rewrite u64_sub_small; [done|]. unfold is_u64. lia.
Qed.

Lemma Entries_ok ms lo hi :
  ms_shape ms -> offset ms < lo <= hi -> hi <= offset ms + len (ms_ents ms) ->
  Entries ms lo hi
  = Ret (take (Z.to_nat (hi - lo)) (drop (Z.to_nat (lo - offset ms)) (ms_ents ms))).
Proof.
  intros Hs Hlo Hhi. destruct (index0 ms Hs) as (e0 & He & Hi).
  pose proof (len_pos ms Hs). pose proof (mss_off ms Hs). pose proof (mss_room ms Hs).
  unfold Entries. rewrite He, lastIndex_ok, Hi by done.
  rewrite u64_add_small, !u64_sub_small by (unfold is_u64; lia).
  zif; [lia|]. zif; [lia|]. rewrite slice_ok by lia.
  replace (hi - offset ms - (lo - offset ms)) with (hi - lo) by lia.
  destruct (_ && _) eqn:Hb; [|done]. exfalso.
  apply andb_true_iff in Hb as [Hb1 Hb2].
  rewrite negb_true_iff in Hb2. autorewrite with go_len in *. lia.
Qed.

Lemma Term_ok ms i :
  ms_shape ms -> offset ms <= i <= offset ms + len (ms_ents ms) - 1 ->
  exists e, entry_at ms i = Some e /\ Term ms i = Ret (e_Term e).
Proof.
  intros Hs Hi. destruct (index0 ms Hs) as (e0 & He & Ho).
  pose proof (len_pos ms Hs). pose proof (mss_off ms Hs). pose proof (mss_room ms Hs).
  pose proof (mss_len ms Hs). unfold Term, entry_at.
  rewrite He, Ho, u64_sub_small by (unfold is_u64; lia).
  rewrite int64_small by (unfold two63 in *; lia). zif; [lia|]. zif; [lia|].
  destruct (index_total (E:=error) (ms_ents ms) (i - offset ms)) as (e & -> & Hl); [lia|].
  eauto.
Qed.

Lemma Term_compacted ms i :
  ms_shape ms -> i < offset ms -> Term ms i = Err ErrCompacted.
Proof.
  intros Hs Hi. destruct (index0 ms Hs) as (e0 & He & Ho).
  unfold Term. rewrite He, Ho. zcmp; done || lia.
Qed.

#[export] Program Instance StorageLaws_MemoryStorage : StorageLaws MemoryStorage := {|
  st_wf := ms_wf;
  st_first := fun ms => offset ms + 1;
  st_last := fun ms => offset ms + len (ms_ents ms) - 1;
|}.
Next Obligation.
  intros ms [Hs _ _]. pose proof (len_pos ms Hs). destruct Hs. lia.
Qed.
Next Obligation. intros ms [Hs _ _]. by apply firstIndex_ok. Qed.
Next Obligation. intros ms [Hs _ _]. by apply lastIndex_ok. Qed.
Next Obligation.
  intros ms lo hi [Hs _ _] ???. eexists. split_and!.
  - apply Entries_ok; [done|lia|lia].
  - intros i e He. rewrite lookup_take in He. case_decide; [|done].
    rewrite lookup_drop in He. apply (mss_contig ms Hs) in He. lia.
  - autorewrite with go_len. lia.
Qed.
Next Obligation.
  intros ms i [Hs _ _] Hi. destruct (Term_ok ms i) as (e & _ & He); [done|lia|].
  exists (e_Term e). exact He.
Qed.
Next Obligation.
  intros ms [Hs (md & cs & Hm & Hc) Hcm]. exists (ms_hardState ms), cs.
  split; [|lia]. change (InitialState ms = Ret (ms_hardState ms, cs)).
  unfold InitialState. rewrite Hm. cbn. by rewrite Hc.
Qed.
Next Obligation.
  intros ms [Hs (md & cs & Hm & Hc) Hcm]. split_and!; [by split; eauto|done|done|].
  right. by exists (ms_snapshot ms), md.
Qed.

(** *** What [Append] and [Compact] do to the stored log *)

Lemma contiguous_head lo (es : list Entry) e t :
  contiguous lo es -> es = e :: t -> e_Index e = lo.
Proof. intros Hc ->. specialize (Hc 0%nat e eq_refl). lia. Qed.

(** The stored log after [es], starting at index [lo > offset], replaced the tail. *)
Lemma append_shape ms lo es :
  ms_shape ms -> contiguous lo es -> offset ms < lo <= offset ms + len (ms_ents ms) ->
  lo + len es < two64 -> len (ms_ents ms) + len es < two63 ->
  let ms' := ms <| ms_ents := take (Z.to_nat (lo - offset ms)) (ms_ents ms) ++ es |> in
  ms_shape ms' /\ offset ms' = offset ms /\
  forall i, entry_at ms' i =
    if i <? lo then entry_at ms i
    else es !! Z.to_nat (i - lo).
Proof.
  intros Hs Hc Hlo Hr Hlen ms'.
  assert (Ho : offset ms' = offset ms).
  { unfold ms', offset. cbn. pose proof (mss_ne ms Hs).
    unfold offset in Hlo. destruct (ms_ents ms) as [|e0 t]; [done|].
    destruct (Z.to_nat (lo - e_Index e0)) eqn:?; [lia|done]. }
  assert (Hl : len (take (Z.to_nat (lo - offset ms)) (ms_ents ms)) = lo - offset ms).
  { autorewrite with go_len. lia. }
  destruct Hs as [Hne Hoff Hcon Hln Hrm]. split_and!; [split|done|].
  - cbn. intros [Ht _]%app_eq_nil. rewrite Ht, len_nil in Hl. lia.
  - lia.
  - rewrite Ho. cbn. apply contiguous_app; [by apply contiguous_take|].
    by rewrite Hl, Zplus_minus.
  - cbn. rewrite len_app. lia.
  - rewrite Ho. cbn. rewrite len_app. lia.
  - intros i. unfold entry_at. rewrite Ho. unfold ms'. cbn.
    rewrite lookup_app, lookup_take, length_take. unfold len in *.
    do 2 zif; try lia; try done; case_decide; try lia.
    + destruct (ms_ents ms !! _) eqn:He; [done|]. apply lookup_ge_None in He. lia.
    + f_equal. lia.
Qed.

(** [Append] once the entries start after the dummy entry. *)
Lemma append_tail ms lo es :
  ms_shape ms -> es <> [] -> contiguous lo es -> offset ms < lo ->
  lo + len es < two64 ->
  (let! e0 := index es 0 in
   let! m0 := index (ms_ents ms) 0 in
   let offset := e_Index e0 ⊟ e_Index m0 in
   if len (ms_ents ms) >? offset then
     let! keep := slice_to (ms_ents ms) offset in
     Ret (ms <| ms_ents := keep ++ es |>)
   else if len (ms_ents ms) =? offset then
     Ret (ms <| ms_ents := ms_ents ms ++ es |>)
   else Panic : outcome error MemoryStorage)
  = if lo <=? offset ms + len (ms_ents ms)
    then Ret (ms <| ms_ents := take (Z.to_nat (lo - offset ms)) (ms_ents ms) ++ es |>)
    else Panic.
Proof.
  intros Hs Hne Hc Hlo Hr. destruct (index0 ms Hs) as (m0 & Hm & Hmi).
  destruct es as [|e t]; [done|].
  pose proof (contiguous_head lo (e :: t) e t Hc eq_refl) as He.
  rewrite (index_lookup (e :: t) 0 e) by done. rewrite Hm. cbv zeta. rewrite He, Hmi.
  pose proof (mss_off ms Hs). pose proof (len_nonneg t).
  rewrite len_cons in Hr. rewrite u64_sub_small by (unfold is_u64; lia).
  zif; [|zif].
  - rewrite slice_to_ok by lia. zif; [done|lia].
  - zif; [|lia]. rewrite take_ge; [done|]. unfold len in *. lia.
  - zif; [lia|done].
Qed.

(** [Append] as one formula: the first index written is the larger of the first
    new index and the index after the dummy entry. *)
Lemma Append_eq ms lo es :
  ms_shape ms -> es <> [] -> contiguous lo es -> 0 <= lo -> lo + len es < two64 ->
  let lo' := Z.max lo (offset ms + 1) in
  Append ms es =
    if lo + len es - 1 <? offset ms + 1 then Ret ms
    else if lo' <=? offset ms + len (ms_ents ms)
         then Ret (ms <| ms_ents := take (Z.to_nat (lo' - offset ms)) (ms_ents ms)
                                    ++ drop (Z.to_nat (lo' - lo)) es |>)
         else Panic.
Proof.
  intros Hs Hne Hc Hlo Hr lo'. pose proof (len_pos ms Hs). pose proof (mss_room ms Hs).
  pose proof (mss_off ms Hs).
  destruct es as [|e t] eqn:Hes; [done|]. rewrite <- Hes in *.
  pose proof (contiguous_head lo es e t Hc Hes) as Hei.
  assert (1 <= len es) by (rewrite Hes, len_cons; pose proof (len_nonneg t); lia).
  unfold Append. zif; [lia|].
  rewrite firstIndex_ok, (index_lookup es 0 e) by (done || by rewrite Hes). rewrite Hei.
  rewrite u64_add_small, u64_sub_small by (unfold is_u64; lia).
  zif; [done|]. cbv zeta.
  assert (Hsk : (if offset ms + 1 >? lo then slice_from es ((offset ms + 1) ⊟ lo) else Ret es)
                = Ret (E:=error) (drop (Z.to_nat (lo' - lo)) es)).
  { unfold lo'. zif.
    - rewrite u64_sub_small, slice_from_ok by (unfold is_u64; lia). do 2 f_equal. lia.
    - rewrite Z.max_l, Z.sub_diag by lia. done. }
  rewrite Hsk. apply append_tail; [done| | |lia|].
  - intros Hd. apply (f_equal length) in Hd. rewrite length_drop in Hd. simpl in Hd.
    unfold len in *. lia.
  - replace lo' with (lo + Z.of_nat (Z.to_nat (lo' - lo))) at 1 by lia.
    by apply contiguous_drop.
  - rewrite len_drop. lia.
Qed.

(** What [Append] does, on each of its branches: nothing when every entry is
    already compacted, a panic when the entries leave a gap, and otherwise the
    log from the first new entry on is replaced by the new entries, the entries
    at or before the compaction point being skipped. *)
Theorem Append_spec ms lo es :
  ms_shape ms -> es <> [] -> contiguous lo es -> 0 <= lo -> lo + len es < two64 ->
  len (ms_ents ms) + len es < two63 ->
  (lo + len es - 1 <= offset ms -> Append ms es = Ret ms) /\
  (offset ms + len (ms_ents ms) < lo -> Append ms es = Panic) /\
  (offset ms < lo + len es - 1 -> lo <= offset ms + len (ms_ents ms) ->
   exists ms', Append ms es = Ret ms' /\ ms_shape ms' /\ offset ms' = offset ms /\
     forall i, entry_at ms' i =
       if i <? Z.max lo (offset ms + 1) then entry_at ms i
       else es !! Z.to_nat (i - lo)).
Proof.
  intros Hs Hne Hc Hlo Hr Hlen. pose proof (len_pos ms Hs).
  assert (1 <= len es).
  { destruct es; [done|]. rewrite len_cons. pose proof (len_nonneg es). lia. }
  rewrite (Append_eq ms lo es) by done. cbv zeta. split_and!; intros.
  - zif; [done|lia].
  - zif; [lia|]. zif; [lia|done].
  - zif; [lia|]. zif; [|lia]. eexists. split; [reflexivity|].
    set (lo' := Z.max lo (offset ms + 1)) in *.
    destruct (append_shape ms lo' (drop (Z.to_nat (lo' - lo)) es)) as (Hs' & Ho & Hi);
      rewrite ?len_drop; try lia; [done| |].
    + replace lo' with (lo + Z.of_nat (Z.to_nat (lo' - lo))) at 1 by lia.
      by apply contiguous_drop.
    + split_and!; [done|done|]. intros i. rewrite Hi. zif; [done|].
      rewrite lookup_drop. f_equal. lia.
Qed.

(** The stored log after compaction at [i], where the entry [ei] is. *)
Lemma compact_shape ms i ei :
  ms_shape ms -> offset ms < i -> entry_at ms i = Some ei ->
  let ms' := ms <| ms_ents :=
    (zero_Entry <| e_Index := e_Index ei |> <| e_Term := e_Term ei |>)
    :: drop (Z.to_nat (i - offset ms + 1)) (ms_ents ms) |> in
  ms_shape ms' /\ offset ms' = i /\
  offset ms' + len (ms_ents ms') = offset ms + len (ms_ents ms) /\
  (forall j, i < j -> entry_at ms' j = entry_at ms j) /\
  (forall j, j < i -> entry_at ms' j = None) /\
  Term ms' i = Ret (e_Term ei).
Proof.
  intros Hs Hi Hei ms'.
  unfold entry_at in Hei. zcmp_in Hei; [done|].
  pose proof (mss_contig ms Hs _ _ Hei) as Hidx. apply lookup_lt_Some in Hei as Hlt.
  destruct Hs as [Hne Hoff Hcon Hln Hrm].
  assert (Ho : offset ms' = i) by (unfold offset; cbn; lia).
  assert (Hl : len (ms_ents ms') = offset ms + len (ms_ents ms) - i).
  { cbn [ms' ms_ents upd set_ms_ents]. rewrite len_cons, len_drop. unfold len. lia. }
  assert (Hs' : ms_shape ms').
  { split; rewrite ?Ho, ?Hl; try lia; [done|].
    intros [|j] e He; [injection He as <-; cbn; lia|].
    change (drop (Z.to_nat (i - offset ms + 1)) (ms_ents ms) !! j = Some e) in He.
    rewrite lookup_drop in He. apply Hcon in He. lia. }
  split_and!; [done|done|lia| | |].
  - intros j Hj. unfold entry_at. rewrite Ho. zif; [lia|]. zif; [lia|]. cbn.
    replace (Z.to_nat (j - i)) with (S (Z.to_nat (j - i - 1))) by lia.
    change (drop (Z.to_nat (i - offset ms + 1)) (ms_ents ms) !! Z.to_nat (j - i - 1)
            = ms_ents ms !! Z.to_nat (j - offset ms)).
    rewrite lookup_drop. f_equal. lia.
  - intros j Hj. unfold entry_at. rewrite Ho. zif; [done|lia].
  - destruct (Term_ok ms' i) as (e & He & ->); [done|unfold len in *; lia|].
    unfold entry_at in He. rewrite Ho in He. zcmp_in He; [lia|].
    rewrite Z.sub_diag in He. cbn in He. by injection He as <-.
Qed.

(** [Compact] at an index inside the log keeps every entry after it and the term
    of the entry at it, and forgets what is before; at or before the dummy entry
    it is refused, past the end it panics. *)
Theorem Compact_spec ms i :
  ms_shape ms -> 0 <= i < two64 ->
  (i <= offset ms -> Compact ms i = Err ErrCompacted) /\
  (offset ms + len (ms_ents ms) - 1 < i -> Compact ms i = Panic) /\
  (offset ms < i <= offset ms + len (ms_ents ms) - 1 ->
   exists ms', Compact ms i = Ret ms' /\ ms_shape ms' /\ offset ms' = i /\
     offset ms' + len (ms_ents ms') = offset ms + len (ms_ents ms) /\
     (forall j, i < j -> entry_at ms' j = entry_at ms j) /\
     (forall j, j < i -> entry_at ms' j = None) /\
     Term ms' i = Term ms i).
Proof.
  intros Hs Hi. destruct (index0 ms Hs) as (e0 & He & Ho).
  pose proof (mss_off ms Hs). pose proof (mss_room ms Hs). pose proof (len_pos ms Hs).
  unfold Compact. rewrite He, lastIndex_ok, Ho by done. split_and!; intros.
  - zif; [done|lia].
  - zif; [lia|]. zif; [done|lia].
  - zif; [lia|]. zif; [lia|].
    destruct (Term_ok ms i) as (ei & Hei & ->); [done|lia|].
    rewrite u64_sub_small by (unfold is_u64; lia).
    assert (Hix : index (E:=error) (ms_ents ms) (i - offset ms) = Ret ei).
    { unfold entry_at in Hei. zcmp_in Hei; [done|]. apply index_lookup; [lia|done]. }
    rewrite Hix, u64_add_small, slice_from_ok by (unfold is_u64; lia).
    eexists. split; [reflexivity|]. apply compact_shape; [done|lia|done].
Qed.

(** A storage with the dummy entry 5 and the entries 6 and 7. *)
Definition sample : MemoryStorage :=
  NewMemoryStorage <| ms_ents :=
    [zero_Entry <| e_Index := 5 |> <| e_Term := 2 |>;
     zero_Entry <| e_Index := 6 |> <| e_Term := 2 |>;
     zero_Entry <| e_Index := 7 |> <| e_Term := 3 |>] |>.

Lemma sample_shape : ms_shape sample.
Proof.
  split; [done|by vm_compute| |by vm_compute|by vm_compute].
  intros [|[|[|i]]] e He; cbn in He; simplify_eq; cbn; lia.
Qed.

Lemma Append_spec_witness :
  exists ms', Append sample [zero_Entry <| e_Index := 7 |> <| e_Term := 4 |>] = Ret ms'
    /\ ms_shape ms' /\ e_Term <$> entry_at ms' 7 = Some 4 /\ e_Term <$> entry_at ms' 6 = Some 2.
Proof.
  destruct (Append_spec sample 7 [zero_Entry <| e_Index := 7 |> <| e_Term := 4 |>])
    as (_ & _ & H).
  - apply sample_shape.
  - done.
  - by apply contiguous_one.
  - lia.
  - by vm_compute.
  - by vm_compute.
  - destruct H as (ms' & HA & Hs & _ & Hi); [by vm_compute|by vm_compute|].
    exists ms'. split_and!; [exact HA|exact Hs|by rewrite Hi|by rewrite Hi].
Defined.

Lemma Compact_spec_witness :
  exists ms', Compact sample 6 = Ret ms' /\ ms_shape ms' /\ offset ms' = 6 /\
    Term ms' 6 = Ret 2.
Proof.
  destruct (Compact_spec sample 6) as (_ & _ & H).
  - apply sample_shape.
  - unfold two64. lia.
  - destruct H as (ms' & HC & Hs & Ho & _ & _ & _ & Ht); [by vm_compute|].
    exists ms'. split_and!; [exact HC|exact Hs|exact Ho|by rewrite Ht].
Defined.

End MemoryStorage.

#[export] Existing Instance MemoryStorage.Storage_MemoryStorage.
#[export] Existing Instance MemoryStorage.StorageLaws_MemoryStorage.
