(* ===== verification/RaftLog.v ===== *)
(** * RaftLog: the in-memory log of a Raft peer

    Models [raft/log.go].  The log keeps the entries after the last snapshot;
    [realIdx] maps a log index to a position of [entries], [-1] standing for an
    index covered by the snapshot. *)

From stdpp Require Import base option list tactics.
From S2P Require Import Prelude.
From S2P Require Import Eraftpb.
From S2P Require Import RaftStorage.

Record RaftLog (S : Type) := mkRaftLog {
  l_storage : S;
  l_committed : Z;
  l_applied : Z;
  l_stabled : Z;
  l_entries : list Entry;
  l_pendingSnapshot : option Snapshot;
  l_lastIdxOfSnapshot : Z;
  l_lastTermOfSnapshot : Z;
}.
Arguments mkRaftLog {S}.
Arguments l_storage {S}.
Arguments l_committed {S}.
Arguments l_applied {S}.
Arguments l_stabled {S}.
Arguments l_entries {S}.
Arguments l_pendingSnapshot {S}.
Arguments l_lastIdxOfSnapshot {S}.
Arguments l_lastTermOfSnapshot {S}.
#[export] Instance set_l_storage {S} : Setter (@l_storage S) := fun g l =>
  mkRaftLog (g (l_storage l)) (l_committed l) (l_applied l) (l_stabled l) (l_entries l) (l_pendingSnapshot l) (l_lastIdxOfSnapshot l) (l_lastTermOfSnapshot l).
#[export] Instance set_l_committed {S} : Setter (@l_committed S) := fun g l =>
  mkRaftLog (l_storage l) (g (l_committed l)) (l_applied l) (l_stabled l) (l_entries l) (l_pendingSnapshot l) (l_lastIdxOfSnapshot l) (l_lastTermOfSnapshot l).
#[export] Instance set_l_applied {S} : Setter (@l_applied S) := fun g l =>
  mkRaftLog (l_storage l) (l_committed l) (g (l_applied l)) (l_stabled l) (l_entries l) (l_pendingSnapshot l) (l_lastIdxOfSnapshot l) (l_lastTermOfSnapshot l).
#[export] Instance set_l_stabled {S} : Setter (@l_stabled S) := fun g l =>
  mkRaftLog (l_storage l) (l_committed l) (l_applied l) (g (l_stabled l)) (l_entries l) (l_pendingSnapshot l) (l_lastIdxOfSnapshot l) (l_lastTermOfSnapshot l).
#[export] Instance set_l_entries {S} : Setter (@l_entries S) := fun g l =>
  mkRaftLog (l_storage l) (l_committed l) (l_applied l) (l_stabled l) (g (l_entries l)) (l_pendingSnapshot l) (l_lastIdxOfSnapshot l) (l_lastTermOfSnapshot l).
#[export] Instance set_l_pendingSnapshot {S} : Setter (@l_pendingSnapshot S) := fun g l =>
  mkRaftLog (l_storage l) (l_committed l) (l_applied l) (l_stabled l) (l_entries l) (g (l_pendingSnapshot l)) (l_lastIdxOfSnapshot l) (l_lastTermOfSnapshot l).
#[export] Instance set_l_lastIdxOfSnapshot {S} : Setter (@l_lastIdxOfSnapshot S) := fun g l =>
  mkRaftLog (l_storage l) (l_committed l) (l_applied l) (l_stabled l) (l_entries l) (l_pendingSnapshot l) (g (l_lastIdxOfSnapshot l)) (l_lastTermOfSnapshot l).
#[export] Instance set_l_lastTermOfSnapshot {S} : Setter (@l_lastTermOfSnapshot S) := fun g l =>
  mkRaftLog (l_storage l) (l_committed l) (l_applied l) (l_stabled l) (l_entries l) (l_pendingSnapshot l) (l_lastIdxOfSnapshot l) (g (l_lastTermOfSnapshot l)).
#[export] Hint Unfold set_l_storage set_l_committed set_l_applied set_l_stabled
  set_l_entries set_l_pendingSnapshot set_l_lastIdxOfSnapshot
  set_l_lastTermOfSnapshot : setters.

Section RaftLog.
Context {S : Type} `{Storage S}.

(** [newLog] recovers the log from the storage; a storage error panics. *)
Definition newLog (storage : S) : outcome error (RaftLog S) :=
  let! firstIdx := must (st_FirstIndex storage) in
  let! lastIdx := must (st_LastIndex storage) in
  let! entries := must (st_Entries storage firstIdx (lastIdx ⊞ 1)) in
  let! lastTerm := ignore_err 0 (st_Term storage (firstIdx ⊟ 1)) in
  let! (initState, _) := must (st_InitialState storage) in
  Ret (mkRaftLog storage (hs_Commit initState) (firstIdx ⊟ 1) lastIdx entries None
         (firstIdx ⊟ 1) lastTerm).

Definition LastIndex (l : RaftLog S) : Z :=
  match list.last (l_entries l) with
  | None => l_lastIdxOfSnapshot l
  | Some e => e_Index e
  end.

Definition realIdx (l : RaftLog S) (logicalIdx : Z) : outcome error Z :=
  if logicalIdx <=? l_lastIdxOfSnapshot l then Ret (-1) else
  let realIdx := logicalIdx ⊟ l_lastIdxOfSnapshot l ⊟ 1 in
  if realIdx >=? len (l_entries l) then Panic
  else Ret realIdx.

Definition Term (l : RaftLog S) (i : Z) : outcome error Z :=
  let! realIdx := realIdx l i in
  if realIdx =? -1 then Ret (l_lastTermOfSnapshot l) else
  let! e := index (l_entries l) realIdx in
  Ret (e_Term e).

Definition maybeCompact (l : RaftLog S) : outcome error (RaftLog S) :=
  let lastSnapIdx := l_lastIdxOfSnapshot l in
  let! storageFirstIdx := must (st_FirstIndex (l_storage l)) in
  if lastSnapIdx <? storageFirstIdx ⊟ 1 then
    let! t := Term l (storageFirstIdx ⊟ 1) in
    let! i := realIdx l storageFirstIdx in
    let! entries := slice_from (l_entries l) i in
    Ret (l <| l_lastTermOfSnapshot := t |>
           <| l_entries := entries |>
           <| l_lastIdxOfSnapshot := storageFirstIdx ⊟ 1 |>)
  else Ret l.

Definition hasUnstableEnts (l : RaftLog S) : bool :=
  l_stabled l <? LastIndex l.

(** [for ; idx <= hi; idx++ { ents = append(ents, entries[idx]) }]. *)
Fixpoint collect (entries : list Entry) (idx : Z) (n : nat)
    : outcome error (list Entry) :=
  match n with
  | O => Ret []
  | Datatypes.S n' =>
      let! e := index entries idx in
      let! rest := collect entries (idx + 1) n' in
      Ret (e :: rest)
  end.

Definition unstableEntries (l : RaftLog S) : outcome error (list Entry) :=
  let! a := realIdx l (l_stabled l) in
  let! b := realIdx l (LastIndex l) in
  collect (l_entries l) (a + 1) (Z.to_nat (b - a)).

Definition hasNextEnts (l : RaftLog S) : outcome error bool :=
  let! appliedIdx := realIdx l (l_applied l) in
  let! commitIdx := realIdx l (l_committed l) in
  Ret (appliedIdx <? commitIdx).

Definition nextEnts (l : RaftLog S) : outcome error (list Entry) :=
  let! appliedIdx := realIdx l (l_applied l) in
  let! commitIdx := realIdx l (l_committed l) in
  collect (l_entries l) (appliedIdx + 1) (Z.to_nat (commitIdx - appliedIdx)).

Definition AppendEntry (l : RaftLog S) (entry : Entry) : RaftLog S :=
  l <| l_entries := l_entries l ++ [entry] |>.

End RaftLog.

(** ** The shape of a log *)

(** The entries are consecutive from the one after the snapshot, and the next
    index still fits a [uint64]. *)
Record log_shape {S} (l : RaftLog S) : Prop := {
  ls_snap : 0 <= l_lastIdxOfSnapshot l;
  ls_contig : contiguous (l_lastIdxOfSnapshot l + 1) (l_entries l);
  ls_room : l_lastIdxOfSnapshot l + len (l_entries l) + 1 < two64;
}.

(** The order of the picture at the top of [raft/log.go]:
    snapshot <= applied <= committed <= last, and snapshot <= stabled <= last. *)
Record log_wf {S} (l : RaftLog S) : Prop := {
  lw_shape : log_shape l;
  lw_applied : l_lastIdxOfSnapshot l <= l_applied l <= l_committed l;
  lw_committed : l_committed l <= LastIndex l;
  lw_stabled : l_lastIdxOfSnapshot l <= l_stabled l <= LastIndex l;
}.

Section RaftLogFacts.
Context {S : Type} `{Storage S}.
Implicit Type l : RaftLog S.

Lemma LastIndex_shape l :
  log_shape l -> LastIndex l = l_lastIdxOfSnapshot l + len (l_entries l).
Proof.
  intros [Hs Hc _]. unfold LastIndex.
  destruct (list.last (l_entries l)) as [e|] eqn:He.
  - rewrite last_lookup in He. apply lookup_lt_Some in He as Hlt.
    apply Hc in He as ->. unfold len. lia.
  - apply last_None in He as ->. rewrite len_nil. lia.
Qed.

Lemma LastIndex_ge l : log_shape l -> l_lastIdxOfSnapshot l <= LastIndex l.
Proof. intros Hs. rewrite LastIndex_shape by done. pose proof (len_nonneg (l_entries l)). lia. Qed.

Lemma realIdx_snap l i : i <= l_lastIdxOfSnapshot l -> realIdx l i = Ret (-1).
Proof. intros. unfold realIdx. zcmp; done || lia. Qed.

Lemma realIdx_in l i :
  log_shape l -> l_lastIdxOfSnapshot l < i <= LastIndex l ->
  realIdx l i = Ret (i - l_lastIdxOfSnapshot l - 1).
Proof.
  intros Hl Hi. pose proof (LastIndex_shape l Hl) as HL. destruct Hl as [Hs _ Hr].
  unfold realIdx. rewrite !u64_sub_small.
  2-3: rewrite ?u64_sub_small; unfold is_u64 in *; lia.
  zcmp; lia || done.
Qed.

(** [realIdx] at or after the snapshot, as one formula. *)
Lemma realIdx_ok l i :
  log_shape l -> l_lastIdxOfSnapshot l <= i <= LastIndex l ->
  realIdx l i = Ret (i - l_lastIdxOfSnapshot l - 1).
Proof.
  intros Hl Hi. destruct (Z.eq_dec i (l_lastIdxOfSnapshot l)) as [->|].
  - rewrite realIdx_snap by lia. f_equal. lia.
  - apply realIdx_in; [done|lia].
Qed.

Lemma realIdx_beyond l i :
  log_shape l -> LastIndex l < i < two64 -> realIdx l i = Panic.
Proof.
  intros Hl Hi. pose proof (LastIndex_shape l Hl) as HL. destruct Hl as [Hs _ Hr].
  pose proof (len_nonneg (l_entries l)).
  unfold realIdx. rewrite !u64_sub_small.
  2-3: rewrite ?u64_sub_small; unfold is_u64 in *; lia.
  zcmp; lia || done.
Qed.

(** The entry stored at log index [i]. *)
Definition entry_at (l : RaftLog S) (i : Z) : option Entry :=
  if i <=? l_lastIdxOfSnapshot l then None
  else l_entries l !! Z.to_nat (i - l_lastIdxOfSnapshot l - 1).

Lemma entry_at_total l i :
  log_shape l -> l_lastIdxOfSnapshot l < i <= LastIndex l ->
  exists e, entry_at l i = Some e /\ e_Index e = i.
Proof.
  intros Hl Hi. rewrite LastIndex_shape in Hi by done. unfold entry_at. zcmp; [lia|].
  destruct (index_total (E:=error) (l_entries l) (i - l_lastIdxOfSnapshot l - 1))
    as (e & _ & He); [lia|].
  exists e. split; [done|]. apply (ls_contig l Hl) in He. lia.
Qed.

Lemma index_realIdx l i e :
  log_shape l -> entry_at l i = Some e ->
  index (E:=error) (l_entries l) (i - l_lastIdxOfSnapshot l - 1) = Ret e.
Proof.
  intros Hl. unfold entry_at. zcmp; [done|]. intros He.
  apply index_lookup; [lia|done].
Qed.

Lemma Term_snap l i : i <= l_lastIdxOfSnapshot l -> Term l i = Ret (l_lastTermOfSnapshot l).
Proof. intros. unfold Term. by rewrite realIdx_snap. Qed.

Lemma Term_at l i e :
  log_shape l -> i <= LastIndex l -> entry_at l i = Some e -> Term l i = Ret (e_Term e).
Proof.
  intros Hl Hi He. assert (l_lastIdxOfSnapshot l < i).
  { unfold entry_at in He. zcmp_in He; [done|lia]. }
  unfold Term. rewrite realIdx_in by (done || lia).
  zcmp; [lia|]. by rewrite (index_realIdx l i e).
Qed.

Lemma Term_total l i : log_shape l -> i <= LastIndex l -> exists t, Term l i = Ret t.
Proof.
  intros Hl Hi. destruct (Z.le_gt_cases i (l_lastIdxOfSnapshot l)).
  - eexists. by apply Term_snap.
  - destruct (entry_at_total l i) as (e & He & _); [done|lia|].
    eexists. by apply Term_at.
Qed.

Lemma collect_ok (es : list Entry) i n :
  0 <= i -> i + Z.of_nat n <= len es ->
  collect es i n = Ret (take n (drop (Z.to_nat i) es)).
Proof.
  revert i. induction n as [|n IH]; intros i Hi Hn; simpl; [done|].
  destruct (index_total (E:=error) es i) as (e & -> & He); [lia|].
  rewrite IH by lia. f_equal.
  rewrite (drop_S _ _ _ He). simpl. do 3 f_equal. lia.
Qed.

(** The unstable entries are the entries after [stabled]. *)
Lemma unstableEntries_ok l :
  log_wf l ->
  unstableEntries l
  = Ret (drop (Z.to_nat (l_stabled l - l_lastIdxOfSnapshot l)) (l_entries l)).
Proof.
  intros [Hl _ _ Hst]. pose proof (LastIndex_shape l Hl) as HL.
  pose proof (LastIndex_ge l Hl).
  unfold unstableEntries. rewrite !realIdx_ok by (done || lia).
  rewrite collect_ok by lia. f_equal.
  rewrite take_ge.
  - f_equal. lia.
  - rewrite length_drop. unfold len in HL. lia.
Qed.

(** The entries to apply next are those after [applied] up to [committed]. *)
Lemma nextEnts_ok l :
  log_wf l ->
  nextEnts l
  = Ret (take (Z.to_nat (l_committed l - l_applied l))
           (drop (Z.to_nat (l_applied l - l_lastIdxOfSnapshot l)) (l_entries l))).
Proof.
  intros [Hl Ha Hc _]. pose proof (LastIndex_shape l Hl) as HL.
  unfold nextEnts. rewrite !realIdx_ok by (done || lia).
  rewrite collect_ok by lia. do 2 f_equal; [lia|]. f_equal. lia.
Qed.

Lemma hasNextEnts_ok l :
  log_wf l -> hasNextEnts l = Ret (l_applied l <? l_committed l).
Proof.
  intros [Hl Ha Hc _]. unfold hasNextEnts.
  rewrite !realIdx_ok by (done || lia). f_equal. zcmp; lia || done.
Qed.

End RaftLogFacts.
