(* ===== verification/Raft.v ===== *)
(** * Raft: the consensus state machine of one peer

    Models [raft/raft.go] (and the helpers of [raft/util.go] it uses).  Every
    method of [*Raft] is a function that takes the state and returns the changed
    state; a nil map entry, an index out of range or a call of [panic] makes the
    result [Panic].  [r_msgs] is the outbox.  Go's [rand.Int] is a parameter
    [rand_Int]: its n-th call returns [rand_Int n], and [r_rand] counts the calls
    made so far. *)

From stdpp Require Import base option list gmap strings tactics.
From S2P Require Import Prelude.
From S2P Require Import Eraftpb.
From S2P Require Import RaftStorage.
From S2P Require Import RaftLog.

Definition None_id : Z := 0.

Inductive StateType := StateFollower | StateCandidate | StateLeader.
#[export] Instance StateType_eq_dec : EqDecision StateType.
Proof. solve_decision. Defined.

Record Config (S : Type) := mkConfig {
  cfg_ID : Z;
  cfg_peers : option (list Z);
  cfg_ElectionTick : Z;
  cfg_HeartbeatTick : Z;
  cfg_Storage : option S;
  cfg_Applied : Z;
}.
Arguments mkConfig {S}.
Arguments cfg_ID {S}.
Arguments cfg_peers {S}.
Arguments cfg_ElectionTick {S}.
Arguments cfg_HeartbeatTick {S}.
Arguments cfg_Storage {S}.
Arguments cfg_Applied {S}.

(** [Config.validate]: [None] when the configuration is accepted. *)
Definition validate {S} (c : Config S) : option error :=
  if cfg_ID c =? None_id then Some (ErrMsg "cannot use none as id")
  else if cfg_HeartbeatTick c <=? 0 then
    Some (ErrMsg "heartbeat tick must be greater than 0")
  else if cfg_ElectionTick c <=? cfg_HeartbeatTick c then
    Some (ErrMsg "election tick must be greater than heartbeat tick")
  else match cfg_Storage c with
       | None => Some (ErrMsg "storage cannot be nil")
       | Some _ => None
       end.

Record Progress := mkProgress {
  pr_Match : Z;
  pr_Next : Z;
}.
#[export] Instance set_pr_Match : Setter pr_Match := fun g p =>
  mkProgress (g (pr_Match p)) (pr_Next p).
#[export] Instance set_pr_Next : Setter pr_Next := fun g p =>
  mkProgress (pr_Match p) (g (pr_Next p)).
#[export] Hint Unfold set_pr_Match set_pr_Next : setters.

Record Raft (S : Type) := mkRaft {
  r_id : Z;
  r_Term : Z;
  r_Vote : Z;
  r_VoteTotal : Z;
  r_VoteReceived : Z;
  r_RaftLog : RaftLog S;
  r_Prs : gmap Z Progress;
  r_State : StateType;
  r_votes : gmap Z bool;
  r_msgs : list Message;
  r_Lead : Z;
  r_heartbeatTimeout : Z;
  r_electionTimeout : Z;
  r_electionTimeoutRandom : Z;
  r_heartbeatElapsed : Z;
  r_electionElapsed : Z;
  r_leadTransferee : Z;
  r_PendingConfIndex : Z;
  r_peers : list Z;
  r_rand : nat;
}.
Arguments mkRaft {S}.
Arguments r_id {S}.
Arguments r_Term {S}.
Arguments r_Vote {S}.
Arguments r_VoteTotal {S}.
Arguments r_VoteReceived {S}.
Arguments r_RaftLog {S}.
Arguments r_Prs {S}.
Arguments r_State {S}.
Arguments r_votes {S}.
Arguments r_msgs {S}.
Arguments r_Lead {S}.
Arguments r_heartbeatTimeout {S}.
Arguments r_electionTimeout {S}.
Arguments r_electionTimeoutRandom {S}.
Arguments r_heartbeatElapsed {S}.
Arguments r_electionElapsed {S}.
Arguments r_leadTransferee {S}.
Arguments r_PendingConfIndex {S}.
Arguments r_peers {S}.
Arguments r_rand {S}.
#[export] Instance set_r_id {S} : Setter (@r_id S) := fun g r =>
  mkRaft (g (r_id r)) (r_Term r) (r_Vote r) (r_VoteTotal r) (r_VoteReceived r) (r_RaftLog r) (r_Prs r) (r_State r) (r_votes r) (r_msgs r) (r_Lead r) (r_heartbeatTimeout r) (r_electionTimeout r) (r_electionTimeoutRandom r) (r_heartbeatElapsed r) (r_electionElapsed r) (r_leadTransferee r) (r_PendingConfIndex r) (r_peers r) (r_rand r).
#[export] Instance set_r_Term {S} : Setter (@r_Term S) := fun g r =>
  mkRaft (r_id r) (g (r_Term r)) (r_Vote r) (r_VoteTotal r) (r_VoteReceived r) (r_RaftLog r) (r_Prs r) (r_State r) (r_votes r) (r_msgs r) (r_Lead r) (r_heartbeatTimeout r) (r_electionTimeout r) (r_electionTimeoutRandom r) (r_heartbeatElapsed r) (r_electionElapsed r) (r_leadTransferee r) (r_PendingConfIndex r) (r_peers r) (r_rand r).
#[export] Instance set_r_Vote {S} : Setter (@r_Vote S) := fun g r =>
  mkRaft (r_id r) (r_Term r) (g (r_Vote r)) (r_VoteTotal r) (r_VoteReceived r) (r_RaftLog r) (r_Prs r) (r_State r) (r_votes r) (r_msgs r) (r_Lead r) (r_heartbeatTimeout r) (r_electionTimeout r) (r_electionTimeoutRandom r) (r_heartbeatElapsed r) (r_electionElapsed r) (r_leadTransferee r) (r_PendingConfIndex r) (r_peers r) (r_rand r).
#[export] Instance set_r_VoteTotal {S} : Setter (@r_VoteTotal S) := fun g r =>
  mkRaft (r_id r) (r_Term r) (r_Vote r) (g (r_VoteTotal r)) (r_VoteReceived r) (r_RaftLog r) (r_Prs r) (r_State r) (r_votes r) (r_msgs r) (r_Lead r) (r_heartbeatTimeout r) (r_electionTimeout r) (r_electionTimeoutRandom r) (r_heartbeatElapsed r) (r_electionElapsed r) (r_leadTransferee r) (r_PendingConfIndex r) (r_peers r) (r_rand r).
#[export] Instance set_r_VoteReceived {S} : Setter (@r_VoteReceived S) := fun g r =>
  mkRaft (r_id r) (r_Term r) (r_Vote r) (r_VoteTotal r) (g (r_VoteReceived r)) (r_RaftLog r) (r_Prs r) (r_State r) (r_votes r) (r_msgs r) (r_Lead r) (r_heartbeatTimeout r) (r_electionTimeout r) (r_electionTimeoutRandom r) (r_heartbeatElapsed r) (r_electionElapsed r) (r_leadTransferee r) (r_PendingConfIndex r) (r_peers r) (r_rand r).
#[export] Instance set_r_RaftLog {S} : Setter (@r_RaftLog S) := fun g r =>
  mkRaft (r_id r) (r_Term r) (r_Vote r) (r_VoteTotal r) (r_VoteReceived r) (g (r_RaftLog r)) (r_Prs r) (r_State r) (r_votes r) (r_msgs r) (r_Lead r) (r_heartbeatTimeout r) (r_electionTimeout r) (r_electionTimeoutRandom r) (r_heartbeatElapsed r) (r_electionElapsed r) (r_leadTransferee r) (r_PendingConfIndex r) (r_peers r) (r_rand r).
#[export] Instance set_r_Prs {S} : Setter (@r_Prs S) := fun g r =>
  mkRaft (r_id r) (r_Term r) (r_Vote r) (r_VoteTotal r) (r_VoteReceived r) (r_RaftLog r) (g (r_Prs r)) (r_State r) (r_votes r) (r_msgs r) (r_Lead r) (r_heartbeatTimeout r) (r_electionTimeout r) (r_electionTimeoutRandom r) (r_heartbeatElapsed r) (r_electionElapsed r) (r_leadTransferee r) (r_PendingConfIndex r) (r_peers r) (r_rand r).
#[export] Instance set_r_State {S} : Setter (@r_State S) := fun g r =>
  mkRaft (r_id r) (r_Term r) (r_Vote r) (r_VoteTotal r) (r_VoteReceived r) (r_RaftLog r) (r_Prs r) (g (r_State r)) (r_votes r) (r_msgs r) (r_Lead r) (r_heartbeatTimeout r) (r_electionTimeout r) (r_electionTimeoutRandom r) (r_heartbeatElapsed r) (r_electionElapsed r) (r_leadTransferee r) (r_PendingConfIndex r) (r_peers r) (r_rand r).
#[export] Instance set_r_votes {S} : Setter (@r_votes S) := fun g r =>
  mkRaft (r_id r) (r_Term r) (r_Vote r) (r_VoteTotal r) (r_VoteReceived r) (r_RaftLog r) (r_Prs r) (r_State r) (g (r_votes r)) (r_msgs r) (r_Lead r) (r_heartbeatTimeout r) (r_electionTimeout r) (r_electionTimeoutRandom r) (r_heartbeatElapsed r) (r_electionElapsed r) (r_leadTransferee r) (r_PendingConfIndex r) (r_peers r) (r_rand r).
#[export] Instance set_r_msgs {S} : Setter (@r_msgs S) := fun g r =>
  mkRaft (r_id r) (r_Term r) (r_Vote r) (r_VoteTotal r) (r_VoteReceived r) (r_RaftLog r) (r_Prs r) (r_State r) (r_votes r) (g (r_msgs r)) (r_Lead r) (r_heartbeatTimeout r) (r_electionTimeout r) (r_electionTimeoutRandom r) (r_heartbeatElapsed r) (r_electionElapsed r) (r_leadTransferee r) (r_PendingConfIndex r) (r_peers r) (r_rand r).
#[export] Instance set_r_Lead {S} : Setter (@r_Lead S) := fun g r =>
  mkRaft (r_id r) (r_Term r) (r_Vote r) (r_VoteTotal r) (r_VoteReceived r) (r_RaftLog r) (r_Prs r) (r_State r) (r_votes r) (r_msgs r) (g (r_Lead r)) (r_heartbeatTimeout r) (r_electionTimeout r) (r_electionTimeoutRandom r) (r_heartbeatElapsed r) (r_electionElapsed r) (r_leadTransferee r) (r_PendingConfIndex r) (r_peers r) (r_rand r).
#[export] Instance set_r_heartbeatTimeout {S} : Setter (@r_heartbeatTimeout S) := fun g r =>
  mkRaft (r_id r) (r_Term r) (r_Vote r) (r_VoteTotal r) (r_VoteReceived r) (r_RaftLog r) (r_Prs r) (r_State r) (r_votes r) (r_msgs r) (r_Lead r) (g (r_heartbeatTimeout r)) (r_electionTimeout r) (r_electionTimeoutRandom r) (r_heartbeatElapsed r) (r_electionElapsed r) (r_leadTransferee r) (r_PendingConfIndex r) (r_peers r) (r_rand r).
#[export] Instance set_r_electionTimeout {S} : Setter (@r_electionTimeout S) := fun g r =>
  mkRaft (r_id r) (r_Term r) (r_Vote r) (r_VoteTotal r) (r_VoteReceived r) (r_RaftLog r) (r_Prs r) (r_State r) (r_votes r) (r_msgs r) (r_Lead r) (r_heartbeatTimeout r) (g (r_electionTimeout r)) (r_electionTimeoutRandom r) (r_heartbeatElapsed r) (r_electionElapsed r) (r_leadTransferee r) (r_PendingConfIndex r) (r_peers r) (r_rand r).
#[export] Instance set_r_electionTimeoutRandom {S} : Setter (@r_electionTimeoutRandom S) := fun g r =>
  mkRaft (r_id r) (r_Term r) (r_Vote r) (r_VoteTotal r) (r_VoteReceived r) (r_RaftLog r) (r_Prs r) (r_State r) (r_votes r) (r_msgs r) (r_Lead r) (r_heartbeatTimeout r) (r_electionTimeout r) (g (r_electionTimeoutRandom r)) (r_heartbeatElapsed r) (r_electionElapsed r) (r_leadTransferee r) (r_PendingConfIndex r) (r_peers r) (r_rand r).
#[export] Instance set_r_heartbeatElapsed {S} : Setter (@r_heartbeatElapsed S) := fun g r =>
  mkRaft (r_id r) (r_Term r) (r_Vote r) (r_VoteTotal r) (r_VoteReceived r) (r_RaftLog r) (r_Prs r) (r_State r) (r_votes r) (r_msgs r) (r_Lead r) (r_heartbeatTimeout r) (r_electionTimeout r) (r_electionTimeoutRandom r) (g (r_heartbeatElapsed r)) (r_electionElapsed r) (r_leadTransferee r) (r_PendingConfIndex r) (r_peers r) (r_rand r).
#[export] Instance set_r_electionElapsed {S} : Setter (@r_electionElapsed S) := fun g r =>
  mkRaft (r_id r) (r_Term r) (r_Vote r) (r_VoteTotal r) (r_VoteReceived r) (r_RaftLog r) (r_Prs r) (r_State r) (r_votes r) (r_msgs r) (r_Lead r) (r_heartbeatTimeout r) (r_electionTimeout r) (r_electionTimeoutRandom r) (r_heartbeatElapsed r) (g (r_electionElapsed r)) (r_leadTransferee r) (r_PendingConfIndex r) (r_peers r) (r_rand r).
#[export] Instance set_r_leadTransferee {S} : Setter (@r_leadTransferee S) := fun g r =>
  mkRaft (r_id r) (r_Term r) (r_Vote r) (r_VoteTotal r) (r_VoteReceived r) (r_RaftLog r) (r_Prs r) (r_State r) (r_votes r) (r_msgs r) (r_Lead r) (r_heartbeatTimeout r) (r_electionTimeout r) (r_electionTimeoutRandom r) (r_heartbeatElapsed r) (r_electionElapsed r) (g (r_leadTransferee r)) (r_PendingConfIndex r) (r_peers r) (r_rand r).
#[export] Instance set_r_PendingConfIndex {S} : Setter (@r_PendingConfIndex S) := fun g r =>
  mkRaft (r_id r) (r_Term r) (r_Vote r) (r_VoteTotal r) (r_VoteReceived r) (r_RaftLog r) (r_Prs r) (r_State r) (r_votes r) (r_msgs r) (r_Lead r) (r_heartbeatTimeout r) (r_electionTimeout r) (r_electionTimeoutRandom r) (r_heartbeatElapsed r) (r_electionElapsed r) (r_leadTransferee r) (g (r_PendingConfIndex r)) (r_peers r) (r_rand r).
#[export] Instance set_r_peers {S} : Setter (@r_peers S) := fun g r =>
  mkRaft (r_id r) (r_Term r) (r_Vote r) (r_VoteTotal r) (r_VoteReceived r) (r_RaftLog r) (r_Prs r) (r_State r) (r_votes r) (r_msgs r) (r_Lead r) (r_heartbeatTimeout r) (r_electionTimeout r) (r_electionTimeoutRandom r) (r_heartbeatElapsed r) (r_electionElapsed r) (r_leadTransferee r) (r_PendingConfIndex r) (g (r_peers r)) (r_rand r).
#[export] Instance set_r_rand {S} : Setter (@r_rand S) := fun g r =>
  mkRaft (r_id r) (r_Term r) (r_Vote r) (r_VoteTotal r) (r_VoteReceived r) (r_RaftLog r) (r_Prs r) (r_State r) (r_votes r) (r_msgs r) (r_Lead r) (r_heartbeatTimeout r) (r_electionTimeout r) (r_electionTimeoutRandom r) (r_heartbeatElapsed r) (r_electionElapsed r) (r_leadTransferee r) (r_PendingConfIndex r) (r_peers r) (g (r_rand r)).
#[export] Hint Unfold set_r_id set_r_Term set_r_Vote set_r_VoteTotal
  set_r_VoteReceived set_r_RaftLog set_r_Prs set_r_State set_r_votes set_r_msgs
  set_r_Lead set_r_heartbeatTimeout set_r_electionTimeout
  set_r_electionTimeoutRandom set_r_heartbeatElapsed set_r_electionElapsed
  set_r_leadTransferee set_r_PendingConfIndex set_r_peers set_r_rand : setters.

Record SoftState := mkSoftState { ss_Lead : Z; ss_RaftState : StateType }.

(** [min] and [max] of [raft/util.go]. *)
Definition min (a b : Z) : Z := if a >? b then b else a.
Definition max (a b : Z) : Z := if a >? b then a else b.
(** [Max] and [Min] of [raft/log.go], on [int]. *)
Definition Max (x y : Z) : Z := if x >? y then x else y.
Definition Min (x y : Z) : Z := if x <? y then x else y.

Section Raft.
Context {S : Type} `{Storage S} (rand_Int : nat -> Z).

(** [newRaft]: a rejected configuration or a storage error panics. *)
Definition newRaft (c : Config S) : outcome error (Raft S) :=
  match validate c, cfg_Storage c with
  | None, Some storage =>
    let! log := newLog storage in
    let! (state, configSt) := must (st_InitialState storage) in
    let peers := match cfg_peers c with Some ps => ps | None => cs_Nodes configSt end in
    let log := match cfg_peers c with
               | Some _ => log
               | None => log <| l_applied := max (cfg_Applied c) (l_applied log) |>
               end in
    let log := log <| l_committed := hs_Commit state |> in
    let lastIdx := LastIndex log in
    let pr := mkProgress (l_lastIdxOfSnapshot log) (lastIdx ⊞ 1) in
    let! timeout :=
      (if cfg_ElectionTick c =? 0 then Panic else
       Ret (int64 (cfg_ElectionTick c + Z.rem (rand_Int 0) (cfg_ElectionTick c)))) in
    Ret (mkRaft (cfg_ID c) (hs_Term state) (hs_Vote state) 0 0 log
           (foldl (fun prs p => <[p := pr]> prs) ∅ peers)
           StateFollower ∅ [] 0 (cfg_HeartbeatTick c) (cfg_ElectionTick c) timeout
           0 0 0 0 peers 1)
  | _, _ => Panic
  end.

Definition GetSoftState (r : Raft S) : SoftState :=
  mkSoftState (r_Lead r) (r_State r).
Definition GetHardState (r : Raft S) : HardState :=
  mkHardState (r_Term r) (r_Vote r) (l_committed (r_RaftLog r)) None.

(** [r.msgs = append(r.msgs, m)]. *)
Definition send (r : Raft S) (m : Message) : Raft S :=
  r <| r_msgs := r_msgs r ++ [m] |>.

Definition sendHeartbeat (r : Raft S) (to : Z) : Raft S :=
  send r (zero_Message <| m_MsgType := MsgHeartbeat |> <| m_To := to |>
                       <| m_From := r_id r |> <| m_Term := r_Term r |>).

Definition sendHeartbeats (r : Raft S) : Raft S :=
  foldl (fun r p => if p =? r_id r then r else sendHeartbeat r p) r (r_peers r).

(** [r.electionTimeoutRandom = r.electionTimeout + rand.Int()%r.electionTimeout]. *)
Definition resetElectionTimeout (r : Raft S) : outcome error (Raft S) :=
  if r_electionTimeout r =? 0 then Panic else
  Ret (r <| r_electionTimeoutRandom :=
              int64 (r_electionTimeout r
                     + Z.rem (rand_Int (r_rand r)) (r_electionTimeout r)) |>
         <| r_rand ::= Datatypes.S |>).

Definition becomeFollower (r : Raft S) (term lead : Z) : outcome error (Raft S) :=
  resetElectionTimeout
    (r <| r_Term := term |> <| r_Lead := lead |> <| r_State := StateFollower |>
       <| r_Vote := 0 |> <| r_electionElapsed := 0 |>).

(** [r.Prs[id].f = ...]: a missing entry is a nil dereference. *)
Definition updProgress (r : Raft S) (id : Z) (f : Progress -> Progress)
    : outcome error (Raft S) :=
  let! p := deref (r_Prs r !! id) in
  Ret (r <| r_Prs := <[id := f p]> (r_Prs r) |>).

Definition needSnapshot (r : Raft S) (nextIdx : Z) : bool :=
  nextIdx <=? l_lastIdxOfSnapshot (r_RaftLog r).

(** [sendSnapshot]: nothing is sent while the storage has no snapshot ready. *)
Definition sendSnapshot (r : Raft S) (to : Z) : outcome error (Raft S) :=
  let '(st, snap) := st_Snapshot (l_storage (r_RaftLog r)) in
  let r := r <| r_RaftLog ::= fun l => l <| l_storage := st |> |> in
  match snap with
  | Err _ => Ret r
  | Panic => Panic
  | OutOfFuel => OutOfFuel
  | Ret snapshot =>
    let m := zero_Message <| m_MsgType := MsgSnapshot |> <| m_To := to |>
               <| m_From := r_id r |> <| m_Term := r_Term r |>
               <| m_Snapshot := Some snapshot |> in
    let! md := deref (s_Metadata snapshot) in
    let! r := updProgress r to (fun p => p <| pr_Next := sm_Index md ⊞ 1 |>) in
    Ret (send r m)
  end.

(** [for logicalIdx := nextIdx; logicalIdx <= lastIdx; logicalIdx++]: the entries
    from [logicalIdx] on.  [fuel] bounds the iterations. *)
Fixpoint entriesFrom (l : RaftLog S) (fuel : nat) (logicalIdx lastIdx : Z)
    : outcome error (list Entry) :=
  match fuel with
  | O => OutOfFuel
  | Datatypes.S fuel' =>
    if logicalIdx <=? lastIdx then
      let! i := realIdx l logicalIdx in
      let! e := index (l_entries l) i in
      let! rest := entriesFrom l fuel' (logicalIdx ⊞ 1) lastIdx in
      Ret (e :: rest)
    else Ret []
  end.

(** [sendAppend] also returns the [bool] of the source. *)
Definition sendAppend (r : Raft S) (to : Z) : outcome error (Raft S * bool) :=
  let l := r_RaftLog r in
  let lastIdx := LastIndex l in
  let! p := deref (r_Prs r !! to) in
  let nextIdx := pr_Next p in
  if needSnapshot r nextIdx then
    let! r := sendSnapshot r to in Ret (r, true)
  else if nextIdx >? lastIdx then Ret (r, false)
  else
    let! entries := entriesFrom l (Z.to_nat (lastIdx - nextIdx + 2)) nextIdx lastIdx in
    let! term := must (Term l (nextIdx ⊟ 1)) in
    Ret (send r (zero_Message <| m_MsgType := MsgAppend |> <| m_To := to |>
                   <| m_From := r_id r |> <| m_Term := r_Term r |>
                   <| m_LogTerm := term |> <| m_Index := nextIdx ⊟ 1 |>
                   <| m_Commit := l_committed l |> <| m_Entries := entries |>), true).

Definition broadCastAE (r : Raft S) : outcome error (Raft S) :=
  foldM (fun r p => if p =? r_id r then Ret r
                    else let! (r, _) := sendAppend r p in Ret r) r (r_peers r).

(** The body of the loop of [handleMsgPropose]. *)
Definition proposeEntry (r : Raft S) (entry : Entry) : Raft S :=
  let entry := entry <| e_Term := r_Term r |>
                     <| e_Index := LastIndex (r_RaftLog r) ⊞ 1 |> in
  if decide (e_EntryType entry = EntryType_EntryConfChange) then
    if negb (r_PendingConfIndex r =? None_id) then r
    else r <| r_PendingConfIndex := e_Index entry |>
           <| r_RaftLog ::= fun l => AppendEntry l entry |>
  else r <| r_RaftLog ::= fun l => AppendEntry l entry |>.

Definition handleMsgPropose (r : Raft S) (m : Message) : outcome error (Raft S) :=
  let r := foldl proposeEntry r (m_Entries m) in
  let lastIdx := LastIndex (r_RaftLog r) in
  let! r := updProgress r (r_id r)
              (fun p => p <| pr_Match := lastIdx |> <| pr_Next := lastIdx ⊞ 1 |>) in
  if len (r_peers r) =? 1
  then Ret (r <| r_RaftLog ::= fun l => l <| l_committed := lastIdx |> |>)
  else Ret r.

Definition becomeLeader (r : Raft S) : outcome error (Raft S) :=
  let r := r <| r_State := StateLeader |> <| r_leadTransferee := None_id |>
             <| r_heartbeatElapsed := 0 |> <| r_Lead := r_id r |> in
  let entry := zero_Entry <| e_Term := r_Term r |>
                 <| e_Index := LastIndex (r_RaftLog r) ⊞ 1 |> in
  let m := zero_Message <| m_MsgType := MsgAppend |> <| m_To := r_id r |>
             <| m_From := r_id r |> <| m_Entries := [entry] |>
             <| m_Term := r_Term r |> in
  let! r := handleMsgPropose r m in
  broadCastAE r.

Definition becomeCandidate (r : Raft S) : outcome error (Raft S) :=
  let! r := resetElectionTimeout
    (r <| r_Term := r_Term r ⊞ 1 |> <| r_VoteReceived := 1 |>
       <| r_VoteTotal := 1 |> <| r_Vote := r_id r |>
       <| r_votes := <[r_id r := true]> (r_votes r) |>
       <| r_State := StateCandidate |> <| r_electionElapsed := 0 |>) in
  if len (r_peers r) =? 1 then becomeLeader r else Ret r.

Definition requestVote (r : Raft S) (to : Z) : outcome error (Raft S) :=
  let lastIdx := LastIndex (r_RaftLog r) in
  let! lastTerm := must (Term (r_RaftLog r) lastIdx) in
  Ret (send r (zero_Message <| m_MsgType := MsgRequestVote |> <| m_To := to |>
                 <| m_From := r_id r |> <| m_Term := r_Term r |>
                 <| m_LogTerm := lastTerm |> <| m_Index := lastIdx |>)).

Definition requestVotes (r : Raft S) : outcome error (Raft S) :=
  foldM (fun r p => if p =? r_id r then Ret r else requestVote r p) r (r_peers r).

Definition tick (r : Raft S) : outcome error (Raft S) :=
  let r := r <| r_electionElapsed ::= fun n => int64 (n + 1) |>
             <| r_heartbeatElapsed ::= fun n => int64 (n + 1) |> in
  if decide (r_State r = StateLeader) then
    if r_heartbeatElapsed r >=? r_heartbeatTimeout r
    then Ret (sendHeartbeats (r <| r_heartbeatElapsed := 0 |>))
    else Ret r
  else if r_electionElapsed r >=? r_electionTimeoutRandom r then
    let! r := becomeCandidate r in requestVotes r
  else Ret r.

Definition handleVoteRequest (r : Raft S) (m : Message) : outcome error (Raft S) :=
  let response := zero_Message <| m_MsgType := MsgRequestVoteResponse |>
                    <| m_To := m_From m |> <| m_From := r_id r |>
                    <| m_Reject := true |> in
  if ((r_Term r =? m_Term m) && bool_decide (r_State r = StateFollower)
        && ((r_Vote r =? 0) || (r_Vote r =? m_From m)))
     || (m_Term m >? r_Term r)
  then
    let lastIndex := LastIndex (r_RaftLog r) in
    let! lastTerm := ignore_err 0 (Term (r_RaftLog r) lastIndex) in
    let! r := becomeFollower r (m_Term m) 0 in
    if (m_LogTerm m >? lastTerm)
       || ((m_LogTerm m =? lastTerm) && (m_Index m >=? lastIndex))
    then let r := r <| r_Vote := m_From m |> in
         Ret (send r (response <| m_Reject := false |> <| m_Term := r_Term r |>))
    else Ret (send r (response <| m_Term := r_Term r |>))
  else Ret (send r (response <| m_Term := r_Term r |>)).

Definition handleVoteResponse (r : Raft S) (m : Message) : outcome error (Raft S) :=
  if m_Term m =? r_Term r then
    let r := r <| r_VoteTotal := r_VoteTotal r ⊞ 1 |> in
    let r := if m_Reject m then r else r <| r_VoteReceived := r_VoteReceived r ⊞ 1 |> in
    if negb (m_Reject m) && (r_VoteReceived r >? len (r_peers r) / 2)
    then becomeLeader r
    else if r_VoteTotal r =? len (r_peers r) then becomeFollower r (r_Term r) 0
    else Ret r
  else if m_Term m >? r_Term r then
    let r := r <| r_Term := m_Term m |> in
    becomeFollower r (r_Term r) 0
  else Ret r.

Definition containsPeer (r : Raft S) (peer : Z) : bool :=
  existsb (fun id => id =? peer) (r_peers r).

(** *** Append entries *)

(** The message telling a peer the new commit index ([CommitUse]). *)
Definition commitMsg (r : Raft S) (to commit : Z) : Message :=
  zero_Message <| m_MsgType := MsgAppend |> <| m_Term := r_Term r |>
    <| m_From := r_id r |> <| m_To := to |> <| m_CommitUse := true |>
    <| m_Commit := commit |>.

Definition timeoutNowMsg (r : Raft S) (to : Z) : Message :=
  zero_Message <| m_MsgType := MsgTimeoutNow |> <| m_To := to |> <| m_From := r_id r |>.

(** The peers, other than the sender and this peer, whose match index reaches
    [idx] (the counting loop of [handleMsgAppendResponse]). *)
Fixpoint matchedPeers (r : Raft S) (from idx : Z) (peers : list Z)
    : outcome error (list Z) :=
  match peers with
  | [] => Ret []
  | p :: rest =>
    if (p =? from) || (p =? r_id r) then matchedPeers r from idx rest
    else
      let! pr := deref (r_Prs r !! p) in
      let! others := matchedPeers r from idx rest in
      Ret (if pr_Match pr >=? idx then p :: others else others)
  end.

(** The search of the last entry whose term is the conflict term; the loop
    stops at the first larger term. *)
Fixpoint searchConflict (entries : list Entry) (conflictTerm : Z) (found : option Z)
    : option Z :=
  match entries with
  | [] => found
  | log :: rest =>
    let found := if e_Term log =? conflictTerm then Some (e_Index log ⊞ 1) else found in
    if e_Term log >? conflictTerm then found
    else searchConflict rest conflictTerm found
  end.

Definition handleMsgAppendResponse (r : Raft S) (m : Message)
    : outcome error (Raft S) :=
  let from := m_From m in
  if negb (m_Reject m) then
    let! p := deref (r_Prs r !! from) in
    if m_Index m <=? pr_Match p then Ret r else
    let! r := updProgress r from
                (fun p => p <| pr_Match := m_Index m |> <| pr_Next := m_Index m ⊞ 1 |>) in
    let r := if (from =? r_leadTransferee r) && (m_Index m =? LastIndex (r_RaftLog r))
             then send r (timeoutNowMsg r from) else r in
    if m_Index m <=? l_committed (r_RaftLog r)
    then Ret (send r (commitMsg r from (m_Index m))) else
    let! i := realIdx (r_RaftLog r) (m_Index m) in
    let! e := index (l_entries (r_RaftLog r)) i in
    if e_Term e <? r_Term r then Ret r else
    let! others := matchedPeers r from (m_Index m) (r_peers r) in
    let counts := 2 + len others in
    if counts >? len (r_peers r) / 2 then
      let r := r <| r_RaftLog ::= fun l => l <| l_committed := m_Index m |> |> in
      Ret (foldl (fun r p => send r (commitMsg r p (m_Index m))) r (from :: others))
    else Ret r
  else
    let! p := deref (r_Prs r !! from) in
    let next :=
      if negb (m_ConflictTerm m =? 0) then
        match searchConflict (l_entries (r_RaftLog r)) (m_ConflictTerm m) None with
        | Some nextIdx => nextIdx
        | None => m_Index m ⊞ 1
        end
      else max (m_Index m ⊞ 1) (pr_Match p ⊞ 1) in
    let! r := updProgress r from (fun p => p <| pr_Next := next |>) in
    let! (r, _) := sendAppend r from in
    Ret r.

(** The position of the first entry with index [idx] and term [term]. *)
Fixpoint findEntry (entries : list Entry) (idx term : Z) (i : nat) : option nat :=
  match entries with
  | [] => None
  | e :: rest =>
    if (e_Index e =? idx) && (e_Term e =? term) then Some i
    else findEntry rest idx term (Datatypes.S i)
  end.

(** The position of the first entry of [dropped] that differs in index or term
    from the entry of [ents] at the same position. *)
Fixpoint firstConflict (dropped ents : list Entry) : option Entry :=
  match dropped, ents with
  | d :: dropped', e :: ents' =>
    if negb (e_Index d =? e_Index e) || negb (e_Term d =? e_Term e) then Some d
    else firstConflict dropped' ents'
  | _, _ => None
  end.

(** [for i := range entries { if entries[i].Term == t { ...; break } }]. *)
Definition firstOfTerm (entries : list Entry) (t : Z) : option Entry :=
  List.find (fun e => e_Term e =? t) entries.

(** The reply to a refused append: the conflict hint for the leader. *)
Definition conflictReply (l : RaftLog S) (m reply : Message) : outcome error Message :=
  if m_Index m >? LastIndex l then
    Ret (reply <| m_Index := LastIndex l |> <| m_ConflictTerm := 0 |>)
  else if len (l_entries l) =? 0 then
    Ret (reply <| m_ConflictTerm := l_lastTermOfSnapshot l |>)
  else
    let! i := realIdx l (m_Index m) in
    let idx := Max (int64 (l_lastIdxOfSnapshot l)) i in
    let! ct := (if idx =? int64 (l_lastIdxOfSnapshot l)
                then Ret (l_lastTermOfSnapshot l)
                else let! e := index (l_entries l) idx in Ret (e_Term e)) in
    let reply := reply <| m_ConflictTerm := ct |> in
    Ret (match firstOfTerm (l_entries l) ct with
         | Some e => reply <| m_Index := e_Index e ⊟ 1 |>
         | None => reply
         end).

(** The log after the entries of an accepted append are merged in: [kept] are
    the entries up to the match point, [dropped] the ones after it. *)
Definition mergeEntries (l : RaftLog S) (kept dropped ents : list Entry) : RaftLog S :=
  if len ents >? 0 then
    let conflict := firstConflict dropped ents in
    let subset := (len dropped >? len ents)
                  && match conflict with None => true | Some _ => false end in
    let stabled := match conflict with
                   | Some d => min (l_stabled l) (e_Index d ⊟ 1)
                   | None => l_stabled l
                   end in
    l <| l_stabled := stabled |>
      <| l_entries := kept ++ (if subset then dropped else ents) |>
  else l <| l_entries := kept ++ dropped |>.

(** Step 5: the commit index moves to the leader's, not past the last new entry. *)
Definition advanceCommit (l : RaftLog S) (m : Message) : outcome error (RaftLog S) :=
  let lastNewEntIndex :=
    match list.last (m_Entries m) with Some e => e_Index e | None => m_Index m end in
  if m_Commit m >? l_committed l then
    let l := l <| l_committed :=
                    max (min (m_Commit m) lastNewEntIndex) (l_committed l) |> in
    if l_committed l >? LastIndex l then Panic else Ret l
  else Ret l.

Definition handleAppendEntries (r : Raft S) (m : Message) : outcome error (Raft S) :=
  if m_CommitUse m then
    if m_Commit m >? LastIndex (r_RaftLog r) then Panic else
    Ret (r <| r_RaftLog ::= fun l => l <| l_committed := max (l_committed l) (m_Commit m) |> |>)
  else
  let reply := zero_Message <| m_MsgType := MsgAppendResponse |>
                 <| m_From := r_id r |> <| m_To := m_From m |> <| m_Reject := true |> in
  if m_Term m <? r_Term r then Ret (send r (reply <| m_Term := r_Term r |>)) else
  let r := r <| r_Term := m_Term m |> <| r_Lead := m_From m |> in
  let reply := reply <| m_Term := r_Term r |> in
  let! r := (if decide (r_State r = StateFollower) then Ret r
             else becomeFollower r (m_Term m) (m_From m)) in
  let l := r_RaftLog r in
  let matched :=
    if (m_Index m =? l_lastIdxOfSnapshot l) && (m_LogTerm m =? l_lastTermOfSnapshot l)
    then Some ([], l_entries l)
    else match findEntry (l_entries l) (m_Index m) (m_LogTerm m) 0 with
         | Some i => Some (take (Datatypes.S i) (l_entries l),
                           drop (Datatypes.S i) (l_entries l))
         | None => None
         end in
  match matched with
  | None =>
    let! reply := conflictReply l m reply in
    Ret (send r reply)
  | Some (kept, dropped) =>
    let l := mergeEntries l kept dropped (m_Entries m) in
    let reply := reply <| m_Reject := false |> <| m_Index := LastIndex l |> in
    let! l := advanceCommit l m in
    Ret (send (r <| r_RaftLog := l |>) reply)
  end.

(** *** Heartbeats and snapshots *)

Definition handleHeartbeat (r : Raft S) (m : Message) : outcome error (Raft S) :=
  let msg := zero_Message <| m_MsgType := MsgHeartbeatResponse |>
               <| m_To := m_From m |> <| m_From := r_id r |> in
  if m_Term m <? r_Term r then
    Ret (send r (msg <| m_Reject := true |> <| m_Term := r_Term r |>))
  else
    let! r := becomeFollower r (m_Term m) (m_From m) in
    Ret (send r (msg <| m_Index := LastIndex (r_RaftLog r) |>)).

Definition handleHeartbeatResponse (r : Raft S) (m : Message) : outcome error (Raft S) :=
  if m_Reject m then becomeFollower r (m_Term m) 0
  else if m_Index m =? 0 then sendSnapshot r (m_From m)
  else if m_Index m <? LastIndex (r_RaftLog r) then
    let! (r, _) := sendAppend r (m_From m) in Ret r
  else Ret r.

Definition handleSnapshot (r : Raft S) (m : Message) : outcome error (Raft S) :=
  let! snap := deref (m_Snapshot m) in
  let! metaData := deref (s_Metadata snap) in
  let idx := sm_Index metaData in
  if idx <=? LastIndex (r_RaftLog r) then Ret r else
  let r := r <| r_RaftLog ::= fun l =>
    l <| l_lastIdxOfSnapshot := idx |> <| l_lastTermOfSnapshot := sm_Term metaData |>
      <| l_committed := idx |> <| l_applied := idx |> <| l_stabled := idx |>
      <| l_pendingSnapshot := Some snap |> <| l_entries := [] |> |> in
  let! cs := deref (sm_ConfState metaData) in
  let r := r <| r_peers := cs_Nodes cs |>
             <| r_Prs := foldl (fun prs id => <[id := mkProgress idx (idx ⊞ 1)]> prs)
                           (r_Prs r) (cs_Nodes cs) |> in
  let! r := becomeFollower r (m_Term m) (m_From m) in
  Ret (send r (zero_Message <| m_MsgType := MsgAppendResponse |> <| m_From := r_id r |>
                 <| m_To := m_From m |> <| m_Term := r_Term r |>
                 <| m_Index := LastIndex (r_RaftLog r) |>)).

(** *** Leader transfer and membership change *)

(** [handleMsgTimeOut] and [handleLeaderTransfer] call [Step] again: it is their
    argument [step]. *)
Definition handleMsgTimeOut (step : Raft S -> Message -> outcome error (Raft S))
    (r : Raft S) : outcome error (Raft S) :=
  if bool_decide (r_State r = StateCandidate) || negb (containsPeer r (r_id r))
  then Ret r
  else step r (zero_Message <| m_From := r_id r |> <| m_To := r_id r |>
                            <| m_MsgType := MsgHup |>).

Definition handleLeaderTransfer (step : Raft S -> Message -> outcome error (Raft S))
    (r : Raft S) (m : Message) : outcome error (Raft S) :=
  if negb (bool_decide (r_State r = StateLeader)) then
    if negb (r_Lead r =? None_id)
    then step r (zero_Message <| m_From := m_From m |> <| m_To := r_Lead r |>
                              <| m_MsgType := MsgHup |>)
    else Ret r
  else
  let transfereeId := m_From m in
  if negb (containsPeer r transfereeId) then Ret r else
  if transfereeId =? r_id r then Ret r else
  if negb (r_leadTransferee r =? None_id) && (r_leadTransferee r =? transfereeId)
  then Ret r else
  let r := r <| r_leadTransferee := transfereeId |> in
  let! p := deref (r_Prs r !! transfereeId) in
  if LastIndex (r_RaftLog r) =? pr_Match p then Ret (send r (timeoutNowMsg r transfereeId))
  else let! (r, _) := sendAppend r transfereeId in Ret r.

(** The dispatch of [Step], [step] being [Step] itself. *)
Definition StepWith (step : Raft S -> Message -> outcome error (Raft S))
    (r : Raft S) (m : Message) : outcome error (Raft S) :=
  match r_State r, m_MsgType m with
  | StateFollower, MsgSnapshot => handleSnapshot r m
  | StateFollower, MsgAppend => handleAppendEntries r m
  | StateFollower, MsgHup => let! r := becomeCandidate r in requestVotes r
  | StateFollower, MsgRequestVote => handleVoteRequest r m
  | StateFollower, MsgHeartbeat => handleHeartbeat r m
  | StateFollower, MsgTimeoutNow => handleMsgTimeOut step r
  | StateFollower, MsgTransferLeader => handleLeaderTransfer step r m
  | StateCandidate, MsgSnapshot => handleSnapshot r m
  | StateCandidate, MsgAppend => handleAppendEntries r m
  | StateCandidate, MsgHup => let! r := becomeCandidate r in requestVotes r
  | StateCandidate, MsgRequestVoteResponse => handleVoteResponse r m
  | StateCandidate, MsgRequestVote => handleVoteRequest r m
  | StateCandidate, MsgHeartbeat => handleHeartbeat r m
  | StateCandidate, MsgTimeoutNow => handleMsgTimeOut step r
  | StateCandidate, MsgTransferLeader => handleLeaderTransfer step r m
  | StateLeader, MsgSnapshot => handleSnapshot r m
  | StateLeader, MsgBeat => Ret (sendHeartbeats (r <| r_heartbeatElapsed := 0 |>))
  | StateLeader, MsgAppend => handleAppendEntries r m
  | StateLeader, MsgPropose => let! r := handleMsgPropose r m in broadCastAE r
  | StateLeader, MsgAppendResponse => handleMsgAppendResponse r m
  | StateLeader, MsgRequestVote => handleVoteRequest r m
  | StateLeader, MsgHeartbeat => handleHeartbeat r m
  | StateLeader, MsgHeartbeatResponse => handleHeartbeatResponse r m
  | StateLeader, MsgTransferLeader => handleLeaderTransfer step r m
  | _, _ => Ret r
  end.

(** [Step] with its recursion bounded by [fuel]; the recursion has depth at most
    two, since the inner call is always a [MsgHup]. *)
Fixpoint StepF (fuel : nat) : Raft S -> Message -> outcome error (Raft S) :=
  match fuel with
  | O => fun _ _ => OutOfFuel
  | Datatypes.S fuel' => StepWith (StepF fuel')
  end.

Definition Step (r : Raft S) (m : Message) : outcome error (Raft S) := StepF 2 r m.

Definition addNode (r : Raft S) (id : Z) : Raft S :=
  if containsPeer r id then r <| r_PendingConfIndex := None_id |>
  else r <| r_peers := r_peers r ++ [id] |>
         <| r_Prs := <[id := mkProgress 0 (LastIndex (r_RaftLog r))]> (r_Prs r) |>
         <| r_PendingConfIndex := None_id |>.

(** [removePeer]: the loop ranges over the slice header taken at its start, while
    the removal shifts the shared backing array [arr] and shortens [r.peers] to
    [n] elements; [idx] is the loop index and [todo] the iterations left. *)
Fixpoint removePeerLoop (id : Z) (arr : list Z) (n idx : Z) (todo : nat)
    : outcome error (list Z) :=
  match todo with
  | O => slice_to arr n
  | Datatypes.S todo' =>
    let! peer := index arr idx in
    if id =? peer then
      let! live := slice_to arr n in
      let! before := slice_to live idx in
      let! after := slice_from live (idx + 1) in
      let! rest := slice_from arr (n - 1) in
      removePeerLoop id (before ++ after ++ rest) (n - 1) (idx + 1) todo'
    else removePeerLoop id arr n (idx + 1) todo'
  end.

Definition removePeer (r : Raft S) (id : Z) : outcome error (Raft S) :=
  let! peers := removePeerLoop id (r_peers r) (len (r_peers r)) 0 (length (r_peers r)) in
  Ret (r <| r_peers := peers |>).

(** The number of peers whose match index reaches [idx]. *)
Definition countMatched (r : Raft S) (idx : Z) : outcome error Z :=
  foldM (fun n p => let! pr := deref (r_Prs r !! p) in
                    Ret (if pr_Match pr >=? idx then n + 1 else n)) 0 (r_peers r).

(** The commit loop of [removeNode], from [idx] to the last index. *)
Fixpoint commitLoop (r : Raft S) (fuel : nat) (idx : Z) (newCommit : bool)
    : outcome error (Raft S * bool) :=
  match fuel with
  | O => OutOfFuel
  | Datatypes.S fuel' =>
    if idx <=? LastIndex (r_RaftLog r) then
      let! matched := countMatched r idx in
      let! term := ignore_err 0 (Term (r_RaftLog r) idx) in
      if (term =? r_Term r) && (matched >? len (r_peers r) / 2)
      then commitLoop (r <| r_RaftLog ::= fun l => l <| l_committed := idx |> |>)
             fuel' (idx ⊞ 1) true
      else commitLoop r fuel' (idx ⊞ 1) newCommit
    else Ret (r, newCommit)
  end.

Definition removeNode (r : Raft S) (id : Z) : outcome error (Raft S) :=
  if negb (containsPeer r id) then Ret r else
  let r := r <| r_Prs := delete id (r_Prs r) |> in
  let! r := removePeer r id in
  let! r :=
    (if decide (r_State r = StateLeader) then
       let l := r_RaftLog r in
       let! (r, newCommit) :=
         commitLoop r (Z.to_nat (LastIndex l - l_committed l + 2)) (l_committed l ⊞ 1) false in
       if newCommit then broadCastAE r else Ret r
     else Ret r) in
  Ret (r <| r_PendingConfIndex := None_id |>).

End Raft.
