(* ===== verification/RaftFacts.v ===== *)
(** * RaftFacts: frame lemmas and monotonicity for the Raft state machine

    What the sending and proposing functions may change, and the case analysis of
    [Step] that later files use. *)

From stdpp Require Import base option list gmap strings tactics.
From S2P Require Import Prelude.
From S2P Require Import Eraftpb.
From S2P Require Import RaftStorage.
From S2P Require Import RaftLog.
From S2P Require Import Raft.

Lemma min_Z a b : min a b = Z.min a b.
Proof. unfold min. zcmp; lia. Qed.
Lemma max_Z a b : max a b = Z.max a b.
Proof. unfold max. zcmp; lia. Qed.
Lemma Max_Z a b : Max a b = Z.max a b.
Proof. unfold Max. zcmp; lia. Qed.

Section Frames.
Context {S : Type} `{Storage S} (rand_Int : nat -> Z).
Implicit Types (r : Raft S) (m : Message).

(** [r'] is [r] after sending messages: only the outbox grew, and the progress of
    the peers and the state of the storage may have changed. *)
Definition sends (r r' : Raft S) : Prop :=
  exists st prs ms,
    r' = r <| r_RaftLog ::= fun l => l <| l_storage := st |> |>
           <| r_Prs := prs |> <| r_msgs := r_msgs r ++ ms |>.

Lemma sends_eq r st prs :
  sends r (r <| r_RaftLog ::= fun l => l <| l_storage := st |> |> <| r_Prs := prs |>).
Proof.
  exists st, prs, []. rewrite app_nil_r. by destruct r.
Qed.

Lemma sends_prs r prs : sends r (r <| r_Prs := prs |>).
Proof.
  pose proof (sends_eq r (l_storage (r_RaftLog r)) prs) as Hs.
  destruct r as [? ? ? ? ? [] ? ? ? ? ? ? ? ? ? ? ? ? ? ?]. exact Hs.
Qed.

Lemma sends_storage r st :
  sends r (r <| r_RaftLog ::= fun l => l <| l_storage := st |> |>).
Proof. pose proof (sends_eq r st (r_Prs r)) as Hs. by destruct r. Qed.

#[export] Instance sends_preorder : PreOrder sends.
Proof.
  split.
  - intros r. pose proof (sends_prs r (r_Prs r)) as Hs. by destruct r.
  - intros r1 r2 r3 (st & prs & ms & ->) (st' & prs' & ms' & ->).
    exists st', prs', (ms ++ ms'). cbn. by rewrite app_assoc.
Qed.

Lemma send_sends r m : sends r (send r m).
Proof.
  exists (l_storage (r_RaftLog r)), (r_Prs r), [m].
  by destruct r as [? ? ? ? ? [] ? ? ? ? ? ? ? ? ? ? ? ? ? ?].
Qed.

Lemma foldl_sends {B} (f : Raft S -> B -> Raft S) r l :
  (forall r x, sends r (f r x)) -> sends r (foldl f r l).
Proof.
  intros Hf. apply (foldl_inv f (sends r)); [reflexivity|]. intros. etransitivity; eauto.
Qed.

Lemma foldM_sends {B} (f : Raft S -> B -> outcome error (Raft S)) r l :
  (forall r x, wlp (f r x) (sends r)) -> wlp (foldM f r l) (sends r).
Proof.
  intros Hf. apply (wlp_foldM f (sends r)); [reflexivity|]. intros a x Ha _.
  eapply wlp_mono; [apply Hf|]. intros. etransitivity; eauto.
Qed.

Lemma sendHeartbeats_sends r : sends r (sendHeartbeats r).
Proof.
  apply foldl_sends. intros r' p. zif; [reflexivity|]. apply send_sends.
Qed.

Lemma updProgress_sends r id f : wlp (updProgress r id f) (sends r).
Proof. unfold updProgress. apply wlp_bind, wlp_deref. intros p _. apply sends_prs. Qed.

Lemma sendSnapshot_sends r to : wlp (sendSnapshot r to) (sends r).
Proof.
  unfold sendSnapshot. destruct (st_Snapshot _) as [st [snap| | |]]; try done.
  - apply wlp_bind, wlp_deref. intros md _.
    apply wlp_bind. eapply wlp_mono; [apply updProgress_sends|].
    intros r' Hr'. apply wlp_ret. etransitivity; [|apply send_sends]. etransitivity; [|exact Hr'].
    apply sends_storage.
  - apply sends_storage.
Qed.

Lemma sendAppend_sends r to : wlp (sendAppend r to) (fun p => sends r (fst p)).
Proof.
  unfold sendAppend. apply wlp_bind, wlp_deref. intros p _.
  destruct (needSnapshot _ _).
  - apply wlp_bind. eapply wlp_mono; [apply sendSnapshot_sends|]. auto.
  - zif; [apply wlp_ret; simpl; reflexivity|]. apply wlp_bind, wlp_true. intros es _.
    apply wlp_bind, wlp_true. intros t _. apply send_sends.
Qed.

Lemma broadCastAE_sends r : wlp (broadCastAE r) (sends r).
Proof.
  apply foldM_sends. intros r' p. zif; [apply wlp_ret; simpl; reflexivity|].
  apply wlp_bind. eapply wlp_mono; [apply sendAppend_sends|]. intros [r'' b]. done.
Qed.

Lemma requestVotes_sends r : wlp (requestVotes r) (sends r).
Proof.
  apply foldM_sends. intros r' p. zif; [apply wlp_ret; simpl; reflexivity|].
  unfold requestVote. apply wlp_bind, wlp_true. intros t _. apply send_sends.
Qed.

(** The fields that neither sending nor proposing touches. *)
Definition core (r : Raft S) :=
  (r_id r, r_Term r, r_Vote r, r_VoteTotal r, r_VoteReceived r, r_State r, r_votes r,
   r_Lead r, r_heartbeatTimeout r, r_electionTimeout r, r_electionTimeoutRandom r,
   r_heartbeatElapsed r, r_electionElapsed r, r_leadTransferee r, r_peers r, r_rand r).
Definition log_core (l : RaftLog S) :=
  (l_applied l, l_stabled l, l_pendingSnapshot l, l_lastIdxOfSnapshot l,
   l_lastTermOfSnapshot l).

(** [r'] is [r] after proposing: entries were appended to the log. *)
Definition proposes (r r' : Raft S) : Prop :=
  core r' = core r /\ r_msgs r' = r_msgs r /\
  log_core (r_RaftLog r') = log_core (r_RaftLog r) /\
  l_storage (r_RaftLog r') = l_storage (r_RaftLog r) /\
  exists es, l_entries (r_RaftLog r') = l_entries (r_RaftLog r) ++ es.

Lemma sends_core r r' :
  sends r r' -> core r' = core r /\ log_core (r_RaftLog r') = log_core (r_RaftLog r)
    /\ l_entries (r_RaftLog r') = l_entries (r_RaftLog r)
    /\ l_committed (r_RaftLog r') = l_committed (r_RaftLog r)
    /\ r_PendingConfIndex r' = r_PendingConfIndex r
    /\ exists ms, r_msgs r' = r_msgs r ++ ms.
Proof. intros (st & prs & ms & ->). split_and!; [done..|by exists ms]. Qed.

Lemma proposeEntry_proposes r e :
  proposes r (proposeEntry r e)
  /\ l_committed (r_RaftLog (proposeEntry r e)) = l_committed (r_RaftLog r)
  /\ r_Prs (proposeEntry r e) = r_Prs r.
Proof.
  unfold proposeEntry. case_decide; [destruct (negb _)|]; repeat split; cbn.
  - exists []. by rewrite app_nil_r.
  - eauto.
  - eauto.
Qed.

Lemma proposeEntries_proposes r es :
  proposes r (foldl proposeEntry r es)
  /\ l_committed (r_RaftLog (foldl proposeEntry r es)) = l_committed (r_RaftLog r)
  /\ r_Prs (foldl proposeEntry r es) = r_Prs r.
Proof.
  apply (foldl_inv _ (fun r' => proposes r r'
    /\ l_committed (r_RaftLog r') = l_committed (r_RaftLog r) /\ r_Prs r' = r_Prs r)).
  - repeat split. exists []. by rewrite app_nil_r.
  - intros r' e ((Hc & Hm & Hl & Hs & es' & He) & Hcm & Hp) _.
    destruct (proposeEntry_proposes r' e) as ((Hc' & Hm' & Hl' & Hs' & es'' & He') & Hcm' & Hp').
    split_and!; [split_and!|congruence..]; try congruence.
    exists (es' ++ es''). by rewrite He', He, app_assoc.
Qed.

Lemma handleMsgPropose_proposes r m : wlp (handleMsgPropose r m) (proposes r).
Proof.
  unfold handleMsgPropose.
  destruct (proposeEntries_proposes r (m_Entries m)) as ((Hc & Hm & Hl & Hs & He) & _ & _).
  apply wlp_bind, wlp_bind, wlp_deref. intros p _. apply wlp_ret.
  zif; apply wlp_ret; unfold proposes, core, log_core in *; cbn; done.
Qed.

(** [becomeLeader] only changes its role and appends entries to the log. *)
Definition asLeader (r : Raft S) : Raft S :=
  r <| r_State := StateLeader |> <| r_leadTransferee := None_id |>
    <| r_heartbeatElapsed := 0 |> <| r_Lead := r_id r |>.

Definition extends (r r' : Raft S) : Prop :=
  core r' = core r /\ log_core (r_RaftLog r') = log_core (r_RaftLog r) /\
  exists es, l_entries (r_RaftLog r') = l_entries (r_RaftLog r) ++ es.

Lemma proposes_sends_extends r r' r'' : proposes r r' -> sends r' r'' -> extends r r''.
Proof.
  intros (Hc & _ & Hl & _ & es & He) (Hc' & Hl' & He' & _)%sends_core.
  split_and!; [congruence..|]. exists es. congruence.
Qed.

Lemma sends_extends r r' : sends r r' -> extends r r'.
Proof.
  intros (Hc & Hl & He & _)%sends_core. split_and!; [done..|].
  exists []. by rewrite app_nil_r.
Qed.

Lemma extends_sends r r' r'' : extends r r' -> sends r' r'' -> extends r r''.
Proof.
  intros (Hc & Hl & es & He) (Hc' & Hl' & He' & _)%sends_core.
  split_and!; [congruence..|]. exists es. congruence.
Qed.

Lemma becomeLeader_extends r : wlp (becomeLeader r) (extends (asLeader r)).
Proof.
  unfold becomeLeader. apply wlp_bind. eapply wlp_mono; [apply handleMsgPropose_proposes|].
  intros r' Hp. eapply wlp_mono; [apply broadCastAE_sends|]. intros r'' Hs.
  by eapply proposes_sends_extends.
Qed.

(** The state [becomeCandidate] builds before a single-peer group elects itself. *)
Lemma becomeCandidate_core r :
  wlp (becomeCandidate rand_Int r) (fun r' =>
    r_Term r' = r_Term r ⊞ 1 /\ r_Vote r' = r_id r /\ r_id r' = r_id r /\
    r_peers r' = r_peers r /\ log_core (r_RaftLog r') = log_core (r_RaftLog r) /\
    (exists es, l_entries (r_RaftLog r') = l_entries (r_RaftLog r) ++ es) /\
    (r_State r' = StateCandidate /\ r_VoteReceived r' = 1 /\ r_VoteTotal r' = 1 \/
     r_State r' = StateLeader /\ len (r_peers r) = 1)).
Proof.
  unfold becomeCandidate, resetElectionTimeout. zif; [done|]. cbn [r_peers].
  zif.
  - eapply wlp_mono; [apply becomeLeader_extends|]. intros r' (Hc & Hl & es & He).
    injection Hc. intros. cbn in *. split_and!; try congruence; eauto.
  - apply wlp_ret. cbn. split_and!; try done; [exists []; by rewrite app_nil_r|auto].
Qed.

Lemma becomeFollower_spec r term lead :
  wlp (becomeFollower rand_Int r term lead) (fun r' =>
    r_Term r' = term /\ r_Lead r' = lead /\ r_State r' = StateFollower /\ r_Vote r' = 0
    /\ r_id r' = r_id r /\ r_peers r' = r_peers r /\ r_RaftLog r' = r_RaftLog r
    /\ r_Prs r' = r_Prs r /\ r_msgs r' = r_msgs r).
Proof. unfold becomeFollower, resetElectionTimeout. zif; [done|]. apply wlp_ret. by cbn. Qed.

End Frames.

(** ** Case analysis on [Step] *)
#[local] Opaque becomeCandidate requestVotes handleSnapshot handleAppendEntries
  handleVoteRequest handleVoteResponse handleHeartbeat handleHeartbeatResponse
  handleMsgPropose broadCastAE handleMsgAppendResponse sendHeartbeats sendAppend send.

Section StepCases.
Context {S : Type} `{Storage S} (rand_Int : nat -> Z).
Implicit Types (r : Raft S) (m : Message).

Definition campaign (r : Raft S) : outcome error (Raft S) :=
  let! x := becomeCandidate rand_Int r in requestVotes x.

(** On a leader, [handleLeaderTransfer] does not call [Step] again. *)
Lemma handleLeaderTransfer_leader step step' r m :
  r_State r = StateLeader ->
  handleLeaderTransfer step r m = handleLeaderTransfer step' r m.
Proof. intros Hs. unfold handleLeaderTransfer. by rewrite bool_decide_true. Qed.

Lemma StepF_hup n r m :
  m_MsgType m = MsgHup -> r_State r <> StateLeader ->
  StepF rand_Int (Datatypes.S n) r m = campaign r.
Proof.
  intros Hm Hs. unfold StepF, StepWith. rewrite Hm.
  destruct (r_State r); [reflexivity..|congruence].
Qed.

(** Every result of [Step] is the result of one handler. *)
Lemma Step_cases (Q : outcome error (Raft S) -> Prop) r m :
  (m_MsgType m = MsgSnapshot -> Q (handleSnapshot rand_Int r m)) ->
  (m_MsgType m = MsgAppend -> Q (handleAppendEntries rand_Int r m)) ->
  (r_State r <> StateLeader -> Q (campaign r)) ->
  (m_MsgType m = MsgRequestVote -> Q (handleVoteRequest rand_Int r m)) ->
  (m_MsgType m = MsgHeartbeat -> Q (handleHeartbeat rand_Int r m)) ->
  (r_State r = StateCandidate -> m_MsgType m = MsgRequestVoteResponse ->
   Q (handleVoteResponse rand_Int r m)) ->
  (r_State r = StateLeader -> m_MsgType m = MsgBeat ->
   Q (Ret (sendHeartbeats (r <| r_heartbeatElapsed := 0 |>)))) ->
  (r_State r = StateLeader -> m_MsgType m = MsgPropose ->
   Q (let! x := handleMsgPropose r m in broadCastAE x)) ->
  (r_State r = StateLeader -> m_MsgType m = MsgAppendResponse ->
   Q (handleMsgAppendResponse r m)) ->
  (r_State r = StateLeader -> m_MsgType m = MsgHeartbeatResponse ->
   Q (handleHeartbeatResponse rand_Int r m)) ->
  (r_State r = StateLeader -> m_MsgType m = MsgTransferLeader ->
   Q (handleLeaderTransfer (fun _ _ => Panic) r m)) ->
  Q (Ret r) ->
  Q (Step rand_Int r m).
Proof.
  intros Hsnap Happ Hcamp Hvote Hhb Hvr Hbeat Hprop Har Hhr Hlt Hid.
  assert (Hcamp' : r_State r <> StateLeader -> forall m',
            m_MsgType m' = MsgHup -> Q (StepF rand_Int 1 r m')).
  { intros Hs m' Hm'. rewrite StepF_hup by done. by apply Hcamp. }
  change (Step rand_Int r m) with (StepWith rand_Int (StepF rand_Int 1) r m).
  unfold StepWith. destruct (r_State r) eqn:Hst, (m_MsgType m) eqn:Hm; auto.
  all: try (apply Hcamp; congruence).
  all: try (unfold handleMsgTimeOut; destruct (_ || _); [done|apply Hcamp'; [discriminate|reflexivity]]).
  all: try (unfold handleLeaderTransfer; rewrite bool_decide_false by congruence;
            cbn [negb]; destruct (negb _); [apply Hcamp'; [discriminate|reflexivity]|done]).
  erewrite handleLeaderTransfer_leader by done. by apply Hlt.
Qed.

(** Depth two is enough for the recursion of [Step]. *)
Lemma StepF_enough n r m : StepF rand_Int (Datatypes.S (Datatypes.S n)) r m = Step rand_Int r m.
Proof.
  assert (Hhup : forall r m, m_MsgType m = MsgHup ->
            StepF rand_Int (Datatypes.S n) r m = StepF rand_Int 1 r m).
  { intros r' m' Hm. cbn [StepF]. unfold StepWith. rewrite Hm. by destruct (r_State r'). }
  change (StepWith rand_Int (StepF rand_Int (Datatypes.S n)) r m
          = StepWith rand_Int (StepF rand_Int 1) r m).
  unfold StepWith, handleMsgTimeOut, handleLeaderTransfer.
  destruct (r_State r), (m_MsgType m); try reflexivity.
  all: rewrite !Hhup by reflexivity; reflexivity.
Qed.

End StepCases.

(** ** How one peer's term moves

    What each handler does to the term, and that [Step] never lowers it unless a
    snapshot or a refused-heartbeat message is stale. *)
#[local] Transparent becomeCandidate requestVotes handleSnapshot handleAppendEntries
  handleVoteRequest handleVoteResponse handleHeartbeat handleHeartbeatResponse
  handleMsgPropose broadCastAE handleMsgAppendResponse sendHeartbeats sendAppend send.
Section Term.
Context {S : Type} `{Storage S} (rand_Int : nat -> Z).
Implicit Types (r : Raft S) (m : Message).

Definition term_ge (t : Z) (r : Raft S) : Prop := t <= r_Term r.

Lemma sends_term t r r' : sends r r' -> term_ge t r -> term_ge t r'.
Proof. intros (Hc & _)%sends_core. unfold term_ge. injection Hc. intros. lia. Qed.

Lemma sends_Term r r' : sends r r' -> r_Term r' = r_Term r.
Proof. intros (Hc & _)%sends_core. by injection Hc. Qed.

Lemma becomeFollower_term r t lead :
  wlp (becomeFollower rand_Int r t lead) (fun r' => r_Term r' = t).
Proof. eapply wlp_mono; [apply becomeFollower_spec|]. by intros ? [? _]. Qed.

Lemma campaign_term r :
  r_Term r + 1 < two64 -> 0 <= r_Term r ->
  wlp (campaign rand_Int r) (fun r' => r_Term r' = r_Term r + 1).
Proof.
  intros Ht H0. unfold campaign. apply wlp_bind.
  eapply wlp_mono; [apply becomeCandidate_core|]. intros r1 (Ht1 & _).
  eapply wlp_mono; [apply requestVotes_sends|]. intros r2 Hs%sends_Term.
  rewrite Hs, Ht1, u64_add_small; unfold is_u64; lia.
Qed.

Lemma handleAppendEntries_term r m :
  wlp (handleAppendEntries rand_Int r m)
    (fun r' => r_Term r' = if m_CommitUse m then r_Term r else Z.max (r_Term r) (m_Term m)).
Proof.
  unfold handleAppendEntries. destruct (m_CommitUse m).
  { zif; [done|]. by apply wlp_ret. }
  zif; [apply wlp_ret; cbn; lia|]. apply wlp_bind.
  eapply (wlp_mono _ (fun r' => r_Term r' = m_Term m)).
  { case_decide; [by apply wlp_ret|apply becomeFollower_term]. }
  intros r1 Ht. destruct (if _ && _ then _ else _) as [[kept dropped]|].
  - apply wlp_bind, wlp_true. intros l _. apply wlp_ret. cbn in *. lia.
  - apply wlp_bind, wlp_true. intros reply _. apply wlp_ret. cbn in *. lia.
Qed.

Lemma handleVoteRequest_term r m :
  wlp (handleVoteRequest rand_Int r m) (fun r' => r_Term r' = Z.max (r_Term r) (m_Term m)
                                                  \/ r_Term r' = r_Term r).
Proof.
  unfold handleVoteRequest. bif.
  - apply wlp_bind, wlp_true. intros lt _. apply wlp_bind.
    eapply wlp_mono; [apply becomeFollower_term|]. intros r1 Ht.
    assert (r_Term r <= m_Term m) by lia.
    bif; apply wlp_ret; cbn in *; lia.
  - apply wlp_ret. by right.
Qed.

Lemma handleHeartbeat_term r m :
  wlp (handleHeartbeat rand_Int r m) (fun r' => r_Term r' = Z.max (r_Term r) (m_Term m)).
Proof.
  unfold handleHeartbeat. zif; [apply wlp_ret; cbn; lia|].
  apply wlp_bind. eapply wlp_mono; [apply becomeFollower_term|]. intros r1 Ht.
  apply wlp_ret. cbn in *. lia.
Qed.

Lemma handleVoteResponse_term r m :
  wlp (handleVoteResponse rand_Int r m) (fun r' => r_Term r' = Z.max (r_Term r) (m_Term m)).
Proof.
  assert (Hlead : forall r0, wlp (becomeLeader r0) (fun r' => r_Term r' = r_Term r0)).
  { intros r0. eapply wlp_mono; [apply becomeLeader_extends|].
    intros r' (Hc & _). injection Hc. by intros. }
  unfold handleVoteResponse. zif; [|zif; [|by apply wlp_ret; lia]].
  - destruct (_ && _); [|zif; [|apply wlp_ret]].
    + eapply wlp_mono; [apply Hlead|]. intros r' ->. destruct (m_Reject m); cbn; lia.
    + eapply wlp_mono; [apply becomeFollower_term|]. intros r' ->.
      destruct (m_Reject m); cbn; lia.
    + destruct (m_Reject m); cbn; lia.
  - eapply wlp_mono; [apply becomeFollower_term|]. intros r' ->. cbn. lia.
Qed.

Lemma handleMsgAppendResponse_term r m :
  wlp (handleMsgAppendResponse r m) (fun r' => r_Term r' = r_Term r).
Proof.
  unfold handleMsgAppendResponse. destruct (negb _).
  - apply wlp_bind, wlp_deref. intros p _. zif; [by apply wlp_ret|].
    apply wlp_bind. eapply wlp_mono; [apply updProgress_sends|]. intros r1 Hs%sends_Term.
    set (r2 := if _ && _ then _ else _).
    assert (Hs2 : r_Term r2 = r_Term r) by (subst r2; destruct (_ && _); done).
    zif; [by apply wlp_ret|]. apply wlp_bind, wlp_true. intros i _.
    apply wlp_bind, wlp_true. intros e _. zif; [by apply wlp_ret|].
    apply wlp_bind, wlp_true. intros others _. zif; [|by apply wlp_ret].
    apply wlp_ret. erewrite sends_Term; [|apply foldl_sends; intros; apply send_sends].
    done.
  - apply wlp_bind, wlp_deref. intros p _. apply wlp_bind.
    eapply wlp_mono; [apply updProgress_sends|]. intros r1 Hs%sends_Term.
    apply wlp_bind. eapply wlp_mono; [apply sendAppend_sends|]. intros [r2 b] Hs2%sends_Term.
    apply wlp_ret. cbn in Hs2. congruence.
Qed.

Lemma handleLeaderTransfer_term r m :
  r_State r = StateLeader ->
  wlp (handleLeaderTransfer (fun _ _ => Panic) r m) (fun r' => r_Term r' = r_Term r).
Proof.
  intros Hst. unfold handleLeaderTransfer. rewrite bool_decide_true by done. cbn [negb].
  destruct (negb _); [by apply wlp_ret|]. zif; [by apply wlp_ret|].
  destruct (_ && _); [by apply wlp_ret|]. apply wlp_bind, wlp_deref. intros p _.
  zif; [by apply wlp_ret|]. apply wlp_bind.
  eapply wlp_mono; [apply sendAppend_sends|]. intros [r2 b] Hs%sends_Term.
  apply wlp_ret. exact Hs.
Qed.

(** A message that may carry a stale term and is not checked for it: a snapshot,
    or a refused heartbeat. *)
Definition unchecked_term (m : Message) : Prop :=
  m_MsgType m = MsgSnapshot \/ (m_MsgType m = MsgHeartbeatResponse /\ m_Reject m = true).

(** The term of a peer never decreases, as long as a snapshot or a
    refused-heartbeat message does not carry a term smaller than the peer's. *)
Theorem Step_term_mono r m r' :
  0 <= r_Term r -> r_Term r + 1 < two64 ->
  (unchecked_term m -> r_Term r <= m_Term m) ->
  Step rand_Int r m = Ret r' -> r_Term r <= r_Term r'.
Proof.
  intros H0 Ht Hu. cut (wlp (Step rand_Int r m) (fun r' => r_Term r <= r_Term r')).
  { intros Hw Hr. by rewrite Hr in Hw. }
  apply (Step_cases rand_Int (fun o => wlp o (fun r' => r_Term r <= r_Term r'))).
  - intros Hm. unfold handleSnapshot. apply wlp_bind, wlp_deref. intros snap _.
    apply wlp_bind, wlp_deref. intros md _. zif; [by apply wlp_ret|].
    apply wlp_bind, wlp_deref. intros cs _. apply wlp_bind.
    eapply wlp_mono; [apply becomeFollower_term|]. intros r1 Ht1. apply wlp_ret. cbn.
    cbn in Ht1. rewrite Ht1. apply Hu. by left.
  - intros _. eapply wlp_mono; [apply handleAppendEntries_term|]. intros r1.
    destruct (m_CommitUse m); lia.
  - intros _. eapply wlp_mono; [apply campaign_term; done|]. cbn; intros r1; lia.
  - intros _. eapply wlp_mono; [apply handleVoteRequest_term|]. cbn; intros r1; lia.
  - intros _. eapply wlp_mono; [apply handleHeartbeat_term|]. cbn; intros r1; lia.
  - intros _ _. eapply wlp_mono; [apply handleVoteResponse_term|]. cbn; intros r1; lia.
  - intros _ _. apply wlp_ret. rewrite (sends_Term _ _ (sendHeartbeats_sends _)). done.
  - intros _ _. apply wlp_bind. eapply wlp_mono; [apply handleMsgPropose_proposes|].
    intros r1 (Hc & _). eapply wlp_mono; [apply broadCastAE_sends|].
    intros r2 Hs%sends_Term. injection Hc. intros. lia.
  - intros _ _. eapply wlp_mono; [apply handleMsgAppendResponse_term|]. cbn; intros r1; lia.
  - intros _ Hm. unfold handleHeartbeatResponse. destruct (m_Reject m) eqn:Hrej.
    + eapply wlp_mono; [apply becomeFollower_term|]. intros r1 ->. apply Hu. by right.
    + zif; [|zif; [|by apply wlp_ret]].
      * eapply wlp_mono; [apply sendSnapshot_sends|]. intros r1 Hs%sends_Term. lia.
      * apply wlp_bind. eapply wlp_mono; [apply sendAppend_sends|].
        intros [r1 b] Hs%sends_Term. apply wlp_ret. cbn in Hs. lia.
  - intros Hst _. eapply wlp_mono; [by apply handleLeaderTransfer_term|]. cbn; intros r1; lia.
  - apply wlp_ret. lia.
Qed.

End Term.
