(* ===== verification/RaftInv.v ===== *)
(** * RaftInv: the state invariant of a Raft peer, and that no handler panics

    [raft_wf] is what [newRaft] establishes on a well-formed storage and every
    message handler keeps; under it, and for messages that satisfy [msg_ok], each
    handler returns: no index is out of range, no progress entry is missing and no
    [panic] is reached. *)

From stdpp Require Import base option list gmap strings tactics.
From S2P Require Import Prelude.
From S2P Require Import Eraftpb.
From S2P Require Import RaftStorage.
From S2P Require Import RaftLog.
From S2P Require Import Raft.
From S2P Require Import RaftFacts.

Section Inv.
Context {S : Type} `{HS : Storage S} `{HLaws : !StorageLaws S} (rand_Int : nat -> Z).
Implicit Types (r : Raft S) (m : Message) (l : RaftLog S).

Definition wf_parts (l : RaftLog S) (timeout : Z) (prs : gmap Z Progress) (id : Z)
    (peers : list Z) : Prop :=
  log_wf l /\ st_wf (l_storage l) /\ 0 < timeout /\ is_Some (prs !! id) /\
  (forall p, p ∈ peers -> is_Some (prs !! p)).

Definition raft_wf (r : Raft S) : Prop :=
  wf_parts (r_RaftLog r) (r_electionTimeout r) (r_Prs r) (r_id r) (r_peers r).

Lemma raft_wf_self r : raft_wf r -> is_Some (r_Prs r !! r_id r).
Proof. by intros (_ & _ & _ & ? & _). Qed.
Lemma raft_wf_peer r p : raft_wf r -> p ∈ r_peers r -> is_Some (r_Prs r !! p).
Proof. intros (_ & _ & _ & _ & Hps). apply Hps. Qed.
Lemma raft_wf_log r : raft_wf r -> log_wf (r_RaftLog r).
Proof. by intros (? & _). Qed.
#[local] Hint Resolve raft_wf_self raft_wf_peer raft_wf_log lw_shape : raft.

(** [l'] is [l] after appending entries and, possibly, committing more. *)
Definition grows (l l' : RaftLog S) : Prop :=
  log_core l' = log_core l /\ l_committed l <= l_committed l' /\
  exists es, l_entries l' = l_entries l ++ es.

#[export] Instance grows_preorder : PreOrder grows.
Proof.
  split.
  - intros l. split_and!; [done|lia|]. exists []. by rewrite app_nil_r.
  - intros l1 l2 l3 (Hc & Hk & es & He) (Hc' & Hk' & es' & He').
    split_and!; [congruence|lia|]. exists (es ++ es'). by rewrite He', He, app_assoc.
Qed.

Lemma sends_grows r r' : sends r r' -> grows (r_RaftLog r) (r_RaftLog r').
Proof.
  intros (_ & Hl & He & Hc & _)%sends_core. split_and!; [done|lia|].
  exists []. by rewrite app_nil_r.
Qed.

Lemma commit_grows l c : l_committed l <= c -> grows l (l <| l_committed := c |>).
Proof. intros Hc. split_and!; [done|exact Hc|]. exists []. by rewrite app_nil_r. Qed.

(** A handler keeps the invariant and only extends the log. *)
Definition good (r r' : Raft S) : Prop :=
  raft_wf r' /\ grows (r_RaftLog r) (r_RaftLog r').

Lemma good_same r r' : raft_wf r' -> r_RaftLog r' = r_RaftLog r -> good r r'.
Proof. intros Hw Hl. split; [done|]. rewrite Hl. reflexivity. Qed.
Lemma good_trans r r1 r2 : good r r1 -> good r1 r2 -> good r r2.
Proof. intros [_ H1] [Hw H2]. split; [done|]. by transitivity (r_RaftLog r1). Qed.
Lemma good_sends r r1 r2 : good r r1 -> raft_wf r2 /\ sends r1 r2 -> good r r2.
Proof.
  intros [_ H1] [Hw H2%sends_grows]. split; [done|]. by transitivity (r_RaftLog r1).
Qed.
Lemma sends_good r r' : raft_wf r' /\ sends r r' -> good r r'.
Proof. intros [Hw Hs%sends_grows]. done. Qed.
#[local] Hint Resolve good_same good_sends sends_good : raft.

(** *** Logs *)

Lemma log_wf_storage l st : log_wf l -> log_wf (l <| l_storage := st |>).
Proof. intros [[] ? ? ?]. split; [split|..]; done. Qed.

Lemma log_wf_commit l c :
  log_wf l -> l_committed l <= c <= LastIndex l -> log_wf (l <| l_committed := c |>).
Proof.
  intros [Hs Ha Hc Hst] Hle. split; [by destruct Hs|cbn; lia|..].
  - change (c <= LastIndex l). lia.
  - done.
Qed.

Lemma AppendEntry_shape l e :
  log_shape l -> e_Index e = LastIndex l + 1 -> LastIndex l + 2 < two64 ->
  log_shape (AppendEntry l e) /\ LastIndex (AppendEntry l e) = LastIndex l + 1.
Proof.
  intros Hs He Hr. pose proof (LastIndex_shape l Hs) as HL'.
  assert (Hs' : log_shape (AppendEntry l e)).
  { destruct Hs as [H0 Hc Hrm]. split; cbn.
    - done.
    - apply contiguous_app; [done|]. apply contiguous_one. lia.
    - rewrite len_app, len_cons, len_nil. lia. }
  split; [done|]. rewrite (LastIndex_shape _ Hs'). cbn. rewrite len_app, len_cons, len_nil. lia.
Qed.

Lemma AppendEntry_wf l e :
  log_wf l -> e_Index e = LastIndex l + 1 -> LastIndex l + 2 < two64 ->
  log_wf (AppendEntry l e) /\ LastIndex (AppendEntry l e) = LastIndex l + 1.
Proof.
  intros [Hs Ha Hc Hst] He Hr. destruct (AppendEntry_shape l e) as [Hs' HL']; try done.
  split; [|done]. split; [done|done|..]; rewrite HL'; cbn; lia.
Qed.

(** *** Sending *)

Lemma entriesFrom_ok l n i :
  log_shape l -> l_lastIdxOfSnapshot l < i <= LastIndex l + 1 ->
  LastIndex l + 1 - i < Z.of_nat n ->
  entriesFrom l n i (LastIndex l)
  = Ret (drop (Z.to_nat (i - l_lastIdxOfSnapshot l - 1)) (l_entries l)).
Proof.
  intros Hl. pose proof (LastIndex_shape l Hl) as HL'. pose proof (ls_room l Hl).
  pose proof (ls_snap l Hl).
  revert i. induction n as [|n IH]; intros i Hi Hn; [lia|]. simpl. zif.
  - rewrite realIdx_in by (done || lia).
    destruct (index_total (E:=error) (l_entries l) (i - l_lastIdxOfSnapshot l - 1))
      as (e & -> & He); [lia|].
    rewrite u64_add_small by (unfold is_u64; lia). rewrite IH by lia.
    rewrite (drop_S _ _ _ He). do 3 f_equal. lia.
  - rewrite drop_ge; [done|]. unfold len in *. lia.
Qed.

Lemma updProgress_eq r id f p :
  raft_wf r -> r_Prs r !! id = Some p ->
  updProgress r id f = Ret (r <| r_Prs := <[id := f p]> (r_Prs r) |>)
  /\ raft_wf (r <| r_Prs := <[id := f p]> (r_Prs r) |>).
Proof.
  intros (Hl & Hst & Ht & Hid & Hps) Hp. unfold updProgress. rewrite Hp. split; [done|].
  split_and!; try done; cbn.
  - rewrite lookup_insert_is_Some. destruct (decide (id = r_id r)); auto.
  - intros q Hq. rewrite lookup_insert_is_Some.
    destruct (decide (id = q)); [by left|right; auto].
Qed.

Lemma updProgress_wp r id f :
  raft_wf r -> is_Some (r_Prs r !! id) ->
  wp (updProgress r id f) (fun r' => raft_wf r' /\ sends r r' /\
    r' = r <| r_Prs := r_Prs r' |> /\ dom (r_Prs r') = dom (r_Prs r)).
Proof.
  intros Hw [p Hp]. destruct (updProgress_eq r id f p Hw Hp) as [-> Hw1].
  apply wp_ret. split_and!; [done|apply sends_prs|by destruct r|].
  cbn. rewrite dom_insert_L. apply elem_of_dom_2 in Hp.
  apply subseteq_union_1_L. by apply singleton_subseteq_l.
Qed.

Lemma send_wf r m : raft_wf r -> raft_wf (send r m).
Proof. done. Qed.

Lemma sendSnapshot_wp r to :
  raft_wf r -> is_Some (r_Prs r !! to) ->
  wp (sendSnapshot r to) (fun r' => raft_wf r' /\ sends r r').
Proof.
  intros (Hl & Hst & Ht & Hid & Hps) Hto. unfold sendSnapshot.
  destruct (st_Snapshot_law _ Hst) as (Hst' & _ & _ & Ho).
  destruct (st_Snapshot (l_storage (r_RaftLog r))) as [st o]. cbn in Hst', Ho.
  assert (Hr1 : raft_wf (r <| r_RaftLog ::= fun l => l <| l_storage := st |> |>)).
  { split_and!; try done. by apply log_wf_storage. }
  destruct Ho as [[e ->]|(snap & md & -> & Hmd)].
  - split; [done|]. apply sends_storage.
  - apply wp_bind. eapply wp_deref; [done|]. apply wp_bind.
    eapply wp_mono; [by apply updProgress_wp|]. intros r2 (Hw & Hs & _). apply wp_ret.
    split; [done|]. etransitivity; [apply sends_storage|].
    etransitivity; [exact Hs|apply send_sends].
Qed.

Lemma sendAppend_wp r to :
  raft_wf r -> is_Some (r_Prs r !! to) ->
  wp (sendAppend r to) (fun p => raft_wf (fst p) /\ sends r (fst p)).
Proof.
  intros Hw [p Hp]. destruct Hw as (Hl & Hst & Ht & Hid & Hps) eqn:Hw'. clear Hw'.
  pose proof (lw_shape _ Hl) as Hsh. pose proof (ls_snap _ Hsh).
  unfold sendAppend. apply wp_bind. eapply wp_deref; [done|].
  unfold needSnapshot. zif.
  - apply wp_bind. eapply wp_mono; [by apply sendSnapshot_wp|]. done.
  - zif; [apply wp_ret; split; [done|reflexivity]|].
    rewrite entriesFrom_ok by (done || lia).
    rewrite u64_sub_small.
    2:{ unfold is_u64. pose proof (LastIndex_shape _ Hsh). pose proof (ls_room _ Hsh). lia. }
    destruct (Term_total (r_RaftLog r) (pr_Next p - 1)) as [t ->]; [done|lia|].
    apply wp_ret. split; [done|apply send_sends].
Qed.

(** A sending loop keeps the invariant. *)
Lemma foldM_sends_wp {B} (f : Raft S -> B -> outcome error (Raft S)) r xs :
  raft_wf r ->
  (forall r' x, x ∈ xs -> raft_wf r' -> sends r r' ->
     wp (f r' x) (fun r'' => raft_wf r'' /\ sends r' r'')) ->
  wp (foldM f r xs) (fun r' => raft_wf r' /\ sends r r').
Proof.
  intros Hw Hf. apply (wp_foldM f (fun r' => raft_wf r' /\ sends r r')).
  - split; [done|reflexivity].
  - intros r' x [Hw' Hs] Hx. eapply wp_mono; [by apply Hf|].
    intros r'' [Hw'' Hs']. split; [done|]. by etransitivity.
Qed.

Lemma sends_peers r r' : sends r r' -> r_peers r' = r_peers r.
Proof. intros (Hc & _)%sends_core. by injection Hc. Qed.

Lemma broadCastAE_wp r :
  raft_wf r -> wp (broadCastAE r) (fun r' => raft_wf r' /\ sends r r').
Proof.
  intros Hw. apply foldM_sends_wp; [done|]. intros r' p Hp Hw' Hs.
  zif; [apply wp_ret; split; [done|reflexivity]|]. apply wp_bind.
  eapply wp_mono.
  - apply sendAppend_wp; [done|]. destruct Hw' as (_ & _ & _ & _ & Hps).
    apply Hps. by rewrite (sends_peers _ _ Hs).
  - intros [r'' b] [Hw'' Hs'']. by apply wp_ret.
Qed.

Lemma requestVotes_wp r :
  raft_wf r -> wp (requestVotes r) (fun r' => raft_wf r' /\ sends r r').
Proof.
  intros Hw. apply foldM_sends_wp; [done|]. intros r' p _ Hw' Hs.
  zif; [apply wp_ret; split; [done|reflexivity]|]. unfold requestVote.
  destruct (Term_total (r_RaftLog r') (LastIndex (r_RaftLog r'))) as [t ->].
  - apply Hw'.
  - done.
  - apply wp_ret. split; [done|apply send_sends].
Qed.

Lemma sendHeartbeats_wf r : raft_wf r -> raft_wf (sendHeartbeats r).
Proof.
  intros Hw. apply (foldl_inv _ raft_wf); [done|]. intros r' p Hw' _. by zif.
Qed.

(** *** Proposing and elections *)

(** There is room for [n] more entries before the last index reaches 2^64. *)
Definition room (l : RaftLog S) (n : Z) : Prop := LastIndex l + n + 1 < two64.

Lemma proposeEntry_wf r e :
  raft_wf r -> room (r_RaftLog r) 1 ->
  raft_wf (proposeEntry r e)
  /\ LastIndex (r_RaftLog r) <= LastIndex (r_RaftLog (proposeEntry r e))
     <= LastIndex (r_RaftLog r) + 1.
Proof.
  intros Hw Hr. pose proof Hw as (Hl & Hst & Ht & Hid & Hps). unfold room in Hr.
  pose proof (LastIndex_ge _ (lw_shape _ Hl)). pose proof (ls_snap _ (lw_shape _ Hl)).
  unfold proposeEntry. rewrite u64_add_small by (unfold is_u64; lia).
  set (e' := e <| e_Term := _ |> <| e_Index := _ |>).
  destruct (AppendEntry_wf (r_RaftLog r) e') as [Hl' HL']; [done|done|lia|].
  assert (raft_wf (r <| r_RaftLog ::= fun l => AppendEntry l e' |>)) by (split_and!; done).
  case_decide; [destruct (negb _)|].
  - split; [done|lia].
  - split; [done|]. cbn [r_RaftLog set_r_RaftLog set_r_PendingConfIndex upd] in *. cbn. lia.
  - split; [done|]. cbn. lia.
Qed.

Lemma proposeEntries_wf es r :
  raft_wf r -> room (r_RaftLog r) (len es) ->
  raft_wf (foldl proposeEntry r es)
  /\ LastIndex (r_RaftLog r) <= LastIndex (r_RaftLog (foldl proposeEntry r es))
     <= LastIndex (r_RaftLog r) + len es.
Proof.
  revert r. induction es as [|e es IH]; intros r Hw Hr; simpl.
  - rewrite len_nil. split; [done|lia].
  - unfold room in Hr. rewrite len_cons in Hr. pose proof (len_nonneg es).
    destruct (proposeEntry_wf r e) as [Hw' HL']; [done|unfold room; lia|].
    destruct (IH (proposeEntry r e)) as [Hw'' HL'']; [done|unfold room; lia|].
    rewrite len_cons. split; [done|lia].
Qed.

Lemma commit_last_wf r :
  raft_wf r ->
  raft_wf (r <| r_RaftLog ::= fun l => l <| l_committed := LastIndex (r_RaftLog r) |> |>).
Proof.
  intros (Hl & Hst & Ht & Hid & Hps). split_and!; try done.
  apply log_wf_commit; [done|]. pose proof (lw_committed _ Hl). lia.
Qed.

Lemma handleMsgPropose_wp r m :
  raft_wf r -> room (r_RaftLog r) (len (m_Entries m)) ->
  wp (handleMsgPropose r m) (fun r' => good r r' /\ core r' = core r).
Proof.
  intros Hw Hr. destruct (proposeEntries_wf (m_Entries m) r) as [Hw1 HL]; [done..|].
  destruct (proposeEntries_proposes r (m_Entries m)) as ((Hc & _ & Hl & _ & He) & Hk & _).
  unfold handleMsgPropose. set (r1 := foldl _ _ _) in *. clearbody r1.
  assert (Hg : grows (r_RaftLog r) (r_RaftLog r1)) by (split_and!; [done|lia|done]).
  apply wp_bind. eapply wp_mono; [apply updProgress_wp; auto with raft|].
  intros r2 (Hw2 & _ & Heq & _).
  assert (Hl2 : r_RaftLog r2 = r_RaftLog r1) by (rewrite Heq; done).
  assert (Hc2 : core r2 = core r) by (rewrite Heq; done).
  rewrite <- Hl2. rewrite <- Hl2 in Hg. zif; apply wp_ret.
  - split; [split; [by apply commit_last_wf|]|done]. etransitivity; [exact Hg|].
    apply commit_grows. apply (raft_wf_log _ Hw2).
  - done.
Qed.

Lemma becomeLeader_wp r :
  raft_wf r -> room (r_RaftLog r) 1 ->
  wp (becomeLeader r) (fun r' => good r r' /\ core r' = core (asLeader r)).
Proof.
  intros Hw Hr. unfold becomeLeader. apply wp_bind.
  eapply wp_mono; [apply handleMsgPropose_wp; done|]. intros r1 [Hg Hc].
  eapply wp_mono; [apply broadCastAE_wp, Hg|]. intros r2 [Hw2 Hs].
  split; [|destruct (sends_core _ _ Hs) as [Hc' _]; rewrite Hc', Hc; done].
  apply (good_trans _ r1); [exact Hg|]. by apply sends_good.
Qed.

Lemma becomeFollower_wp r t lead :
  raft_wf r ->
  wp (becomeFollower rand_Int r t lead)
    (fun r' => raft_wf r' /\ r_RaftLog r' = r_RaftLog r /\ r_Prs r' = r_Prs r).
Proof.
  intros Hw. pose proof Hw as (_ & _ & Ht & _). unfold becomeFollower, resetElectionTimeout.
  zif; [cbn in *; lia|]. apply wp_ret. done.
Qed.

Lemma becomeFollower_good r0 r t lead :
  raft_wf r -> r_RaftLog r = r_RaftLog r0 -> wp (becomeFollower rand_Int r t lead) (good r0).
Proof.
  intros Hw Hl. eapply wp_mono; [by apply becomeFollower_wp|]. intros r' (? & ? & _).
  apply good_same; congruence.
Qed.

Lemma becomeCandidate_wp r :
  raft_wf r -> room (r_RaftLog r) 1 -> wp (becomeCandidate rand_Int r) (good r).
Proof.
  intros Hw Hr. pose proof Hw as (_ & _ & Ht & _). unfold becomeCandidate, resetElectionTimeout.
  zif; [cbn in *; lia|]. cbn [r_peers]. zif.
  - eapply wp_mono; [by apply becomeLeader_wp|]. intros r' [Hg _]. exact Hg.
  - by apply wp_ret, good_same.
Qed.

Lemma campaign_wp r :
  raft_wf r -> room (r_RaftLog r) 1 -> wp (campaign rand_Int r) (good r).
Proof.
  intros Hw Hr. unfold campaign. apply wp_bind.
  eapply wp_mono; [by apply becomeCandidate_wp|]. intros r1 Hg.
  eapply wp_mono; [apply requestVotes_wp, Hg|]. intros r2. by apply good_sends.
Qed.

Lemma handleVoteRequest_wp r m :
  raft_wf r -> wp (handleVoteRequest rand_Int r m) (good r).
Proof.
  intros Hw. unfold handleVoteRequest. bif; [|by apply wp_ret, good_same].
  destruct (Term_total (r_RaftLog r) (LastIndex (r_RaftLog r))) as [t ->]; [apply Hw|done|].
  cbn [ignore_err]. apply wp_bind. eapply wp_mono; [by apply becomeFollower_wp|].
  intros r1 (Hw1 & Hl1 & _). bif; by apply wp_ret, good_same.
Qed.

Lemma handleVoteResponse_wp r m :
  raft_wf r -> room (r_RaftLog r) 1 -> wp (handleVoteResponse rand_Int r m) (good r).
Proof.
  intros Hw Hr. unfold handleVoteResponse.
  zif; [|zif; [by apply becomeFollower_good|by apply wp_ret, good_same]].
  set (r1 := if m_Reject m then _ else _).
  assert (Hw1 : raft_wf r1 /\ r_RaftLog r1 = r_RaftLog r)
    by (subst r1; destruct (m_Reject m); done).
  destruct Hw1 as [Hw1 Hl1]. unfold good. rewrite <- Hl1. fold (good r1).
  bif; [|zif; [by apply becomeFollower_good|by apply wp_ret, good_same]].
  eapply wp_mono; [apply becomeLeader_wp; [done|by rewrite Hl1]|]. by intros ? [? _].
Qed.

Lemma handleHeartbeat_wp r m : raft_wf r -> wp (handleHeartbeat rand_Int r m) (good r).
Proof.
  intros Hw. unfold handleHeartbeat. zif; [by apply wp_ret, good_same|]. apply wp_bind.
  eapply wp_mono; [by apply becomeFollower_wp|]. intros r1 (Hw1 & Hl1 & _).
  by apply wp_ret, good_same.
Qed.

Lemma handleHeartbeatResponse_wp r m :
  raft_wf r -> is_Some (r_Prs r !! m_From m) ->
  wp (handleHeartbeatResponse rand_Int r m) (good r).
Proof.
  intros Hw Hp. unfold handleHeartbeatResponse. bif; [|zif; [|zif]].
  - by apply becomeFollower_good.
  - eapply wp_mono; [by apply sendSnapshot_wp|]. apply sends_good.
  - apply wp_bind. eapply wp_mono; [by apply sendAppend_wp|]. intros [r1 b] Hs.
    by apply wp_ret, sends_good.
  - by apply wp_ret, good_same.
Qed.

End Inv.
