(* ===== verification/RaftAppend.v ===== *)
(** * RaftAppend: how a follower merges the entries of a leader

    [raft_merge] is rule 3 and 4 of the AppendEntries receiver of the Raft paper.
    The merge of [handleAppendEntries] takes the entries of the message also where the paper
    keeps an entry of the log with the same index and term ([overwrites]).  Up to that it
    produces the log of the paper, keeps every entry up to the commit index and the entries
    below the [stabled] mark it leaves; when the message satisfies the Log Matching property
    ([log_matching]) the logs are the same. *)

From stdpp Require Import base option list gmap strings tactics.
From S2P Require Import Prelude.
From S2P Require Import Eraftpb.
From S2P Require Import RaftStorage.
From S2P Require Import RaftLog.
From S2P Require Import Raft.
From S2P Require Import RaftFacts.
From S2P Require Import RaftInv.

(** An entry is identified by its index and term. *)
Definition key (e : Entry) : Z * Z := (e_Index e, e_Term e).

(** An entry of the log after a message with the entries [ents]: what it was, or the entry of the
    message with its index and term. *)
Definition overwrites (ents : list Entry) (e e' : Entry) : Prop := e' = e \/ e' ∈ ents /\ key e' = key e.
(** Log Matching: an entry of the message with the index and term of an entry of the log is that entry. *)
Definition log_matching (es ents : list Entry) : Prop :=
  forall e e', e ∈ es -> e' ∈ ents -> key e' = key e -> e' = e.

Lemma overwrites_refl ents es : Forall2 (overwrites ents) es es.
Proof. induction es; constructor; [by left|done]. Qed.
Lemma overwrites_exact ents es es' :
  log_matching es ents -> Forall2 (overwrites ents) es es' -> es' = es.
Proof.
  intros Hm Hf. induction Hf as [|e e' es es' He Hf IH]; [done|]. f_equal.
  - destruct He as [->|[Hin Hk]]; [done|]. apply Hm; [apply list_elem_of_here|done..].
  - apply IH. intros x x' Hx. apply Hm. by apply list_elem_of_further.
Qed.
Lemma log_matching_sub es es' ents : es ⊆ es' -> log_matching es' ents -> log_matching es ents.
Proof. intros Hs Hm e e' He. apply Hm. by apply Hs. Qed.
(** The entries of a message match themselves. *)
Lemma log_matching_self lo ents : contiguous lo ents -> log_matching ents ents.
Proof.
  intros Hc e e' [i Hi]%list_elem_of_lookup [j Hj]%list_elem_of_lookup [= Hk _].
  rewrite (Hc i e Hi), (Hc j e' Hj) in Hk. assert (i = j) as -> by lia. congruence.
Qed.

(** Drop the existing entries from the first that conflicts with a new one, then
    add the new entries that are not in the log. *)
Fixpoint raft_merge (old new : list Entry) : list Entry :=
  match new, old with
  | [], _ => old
  | _, [] => new
  | e :: new', o :: old' =>
    if e_Term o =? e_Term e then o :: raft_merge old' new' else new
  end.

(** The length of the common prefix, up to keys. *)
Fixpoint common (old new : list Entry) : nat :=
  match old, new with
  | o :: old', e :: new' => if decide (key o = key e) then S (common old' new') else O
  | _, _ => O
  end.

(** The entries [mergeEntries] keeps after the match point. *)
Definition merged (dropped ents : list Entry) : list Entry :=
  if len ents >? 0 then
    if (len dropped >? len ents)
       && match firstConflict dropped ents with None => true | Some _ => false end
    then dropped else ents
  else dropped.

Lemma mergeEntries_entries {S} (l : RaftLog S) kept dropped ents :
  l_entries (mergeEntries l kept dropped ents) = kept ++ merged dropped ents.
Proof. unfold mergeEntries, merged. by zif. Qed.

Lemma key_eq_test d e :
  negb (e_Index d =? e_Index e) || negb (e_Term d =? e_Term e)
  = negb (bool_decide (key d = key e)).
Proof.
  unfold key. destruct (Z.eqb_spec (e_Index d) (e_Index e)), (Z.eqb_spec (e_Term d) (e_Term e));
    simpl; symmetry; [rewrite bool_decide_true by congruence|rewrite bool_decide_false by congruence..];
    done.
Qed.

Lemma firstConflict_spec dropped ents :
  match firstConflict dropped ents with
  | Some d => dropped !! common dropped ents = Some d
              /\ (common dropped ents < length ents)%nat
  | None => common dropped ents = Nat.min (length dropped) (length ents)
  end.
Proof.
  revert ents. induction dropped as [|d dropped IH]; intros [|e ents]; simpl; try done.
  rewrite key_eq_test. case_decide as Hk.
  - rewrite bool_decide_true by done. simpl. specialize (IH ents).
    destruct (firstConflict dropped ents); [split|]; lia || apply IH.
  - rewrite bool_decide_false by done. simpl. split; [done|lia].
Qed.

Lemma overwrites_further e ents d d' : overwrites ents d d' -> overwrites (e :: ents) d d'.
Proof. intros [->|[Hin Hk]]; [by left|right]. split; [by apply list_elem_of_further|done]. Qed.
Lemma common_take dropped ents n :
  (n <= common dropped ents)%nat -> Forall2 (overwrites ents) (take n dropped) (take n ents).
Proof.
  revert ents n. induction dropped as [|d dropped IH]; intros [|e ents] [|n]; simpl; intros Hn; try (lia || by constructor).
  revert Hn. case_decide; [|lia]. intros Hn. constructor.
  - right. split; [apply list_elem_of_here|done].
  - eapply list.Forall2_impl; [apply IH; lia|]. apply overwrites_further.
Qed.

(** The merge is the one of the paper, with the entries of the message in place of those it matches. *)
Lemma merged_raft_merge lo dropped ents :
  contiguous lo dropped -> contiguous lo ents ->
  Forall2 (overwrites ents) (raft_merge dropped ents) (merged dropped ents).
Proof.
  unfold merged. revert lo ents.
  induction dropped as [|d dropped IH]; intros lo [|e ents] Hd He.
  1-3: zcmp; try apply overwrites_refl; autorewrite with go_len in *; try (pose proof (len_nonneg ents)); lia.
  assert (Hi : e_Index d = e_Index e).
  { rewrite (Hd 0%nat d eq_refl), (He 0%nat e eq_refl). done. }
  assert (IH' := IH (lo + 1) ents). clear IH.
  cbn [firstConflict raft_merge]. rewrite Hi, Z.eqb_refl. cbn [negb orb].
  destruct (Z.eqb_spec (e_Term d) (e_Term e)) as [Ht|Ht]; cbn [negb].
  2:{ autorewrite with go_len. pose proof (len_nonneg ents). zif; [|lia].
      rewrite andb_false_r. apply overwrites_refl. }
  assert (Hk : overwrites (e :: ents) d e).
  { right. split; [apply list_elem_of_here|unfold key; congruence]. }
  assert (IH : Forall2 (overwrites (e :: ents)) (raft_merge dropped ents)
    (if len ents >? 0 then
       if (len dropped >? len ents) && match firstConflict dropped ents with None => true | Some _ => false end
       then dropped else ents else dropped)).
  { eapply list.Forall2_impl; [apply IH'|apply overwrites_further].
    - intros i x Hx. rewrite (Hd (S i) x Hx). lia.
    - intros i x Hx. rewrite (He (S i) x Hx). lia. }
  autorewrite with go_len. pose proof (len_nonneg ents). pose proof (len_nonneg dropped).
  zif; [|lia]. replace (len dropped + 1 >? len ents + 1) with (len dropped >? len ents) by lia.
  revert IH. zif.
  - destruct (_ && _); intros IH; constructor; try done. by left.
  - assert (Hn : ents = []) by (apply len_0_nil; lia). subst.
    destruct dropped as [|d' dropped]; cbn; intros IH; (constructor; [|done]); [done|by left].
Qed.
(** The merged entries match the message when the old ones do. *)
Lemma raft_merge_elem dropped ents e : e ∈ raft_merge dropped ents -> e ∈ dropped \/ e ∈ ents.
Proof.
  revert ents. induction dropped as [|d dropped IH]; intros [|x ents]; cbn [raft_merge]; [tauto..|].
  destruct (_ =? _); [|tauto]. rewrite !elem_of_cons. intros [->|[?|?]%IH]; tauto.
Qed.

Section Merge.
Context {S : Type}.
Implicit Type l : RaftLog S.

(** The logs have the same snapshot and the same entries up to index [i], up to those the message
    with the entries [ents] overwrites. *)
Definition agree_upto (ents : list Entry) (l l' : RaftLog S) (i : Z) : Prop :=
  l_lastIdxOfSnapshot l' = l_lastIdxOfSnapshot l /\
  l_lastTermOfSnapshot l' = l_lastTermOfSnapshot l /\
  let n := Z.to_nat (i - l_lastIdxOfSnapshot l) in
  Forall2 (overwrites ents) (take n (l_entries l)) (take n (l_entries l')).
(** The entries up to index [i] are the same. *)
Definition same_upto (l l' : RaftLog S) (i : Z) : Prop :=
  l_lastIdxOfSnapshot l' = l_lastIdxOfSnapshot l /\
  l_lastTermOfSnapshot l' = l_lastTermOfSnapshot l /\
  let n := Z.to_nat (i - l_lastIdxOfSnapshot l) in take n (l_entries l') = take n (l_entries l).
Lemma agree_same ents l l' i :
  log_matching (l_entries l) ents -> agree_upto ents l l' i -> same_upto l l' i.
Proof.
  intros Hm (H1 & H2 & Hf). split_and!; [done..|]. apply (overwrites_exact ents); [|done].
  eapply log_matching_sub; [|exact Hm]. intros e He. by apply elem_of_take in He as (j & ?%list_elem_of_lookup_2 & _).
Qed.

(** What makes the entries of a message mergeable after [kept]. *)
Record mergeable (l : RaftLog S) (kept dropped ents : list Entry) : Prop := {
  mg_shape : log_shape l;
  mg_split : l_entries l = kept ++ dropped;
  mg_ents : contiguous (l_lastIdxOfSnapshot l + len kept + 1) ents;
  mg_room : l_lastIdxOfSnapshot l + len kept + len ents + 1 < two64;
}.

Section Mergeable.
Context (l : RaftLog S) (kept dropped ents : list Entry)
  (Hm : mergeable l kept dropped ents).

Lemma mergeable_dropped : contiguous (l_lastIdxOfSnapshot l + len kept + 1) dropped.
Proof.
  intros i e He. destruct Hm as [[_ Hc _] Hs _ _].
  rewrite (Hc (length kept + i)%nat e).
  - unfold len. lia.
  - rewrite Hs, lookup_app_r by lia. by rewrite Nat.add_sub' .
Qed.

Lemma mergeable_last : LastIndex l = l_lastIdxOfSnapshot l + len kept + len dropped.
Proof.
  rewrite LastIndex_shape by apply Hm. rewrite (mg_split _ _ _ _ Hm), len_app. lia.
Qed.

Lemma merged_cases :
  merged dropped ents = dropped \/
  merged dropped ents = ents /\
  (len dropped <= len ents \/ exists d, firstConflict dropped ents = Some d).
Proof.
  unfold merged. zif; [|by left].
  destruct (firstConflict dropped ents) as [d|] eqn:Hc.
  - rewrite andb_false_r. right. eauto.
  - rewrite andb_true_r. zif; [by left|right]. auto.
Qed.

Lemma mergeEntries_shape : log_shape (mergeEntries l kept dropped ents).
Proof.
  assert (Hf : l_lastIdxOfSnapshot (mergeEntries l kept dropped ents) = l_lastIdxOfSnapshot l)
    by (unfold mergeEntries; by zif).
  pose proof mergeable_dropped as Hd. destruct Hm as [[H0 Hc Hr] Hs He Hr2].
  assert (Hk : contiguous (l_lastIdxOfSnapshot l + 1) kept).
  { rewrite Hs in Hc. replace kept with (take (length kept) (kept ++ dropped)).
    - by apply contiguous_take.
    - by rewrite take_app_length. }
  rewrite Hs, len_app in Hr.
  split; rewrite Hf; [done|..]; rewrite mergeEntries_entries.
  - apply contiguous_app; [done|].
    replace (l_lastIdxOfSnapshot l + 1 + len kept) with (l_lastIdxOfSnapshot l + len kept + 1) by lia.
    destruct merged_cases as [->|[-> _]]; done.
  - rewrite len_app. destruct merged_cases as [->|[-> _]]; lia.
Qed.

Lemma mergeEntries_last :
  LastIndex (mergeEntries l kept dropped ents)
  = l_lastIdxOfSnapshot l + len kept + len (merged dropped ents).
Proof.
  rewrite LastIndex_shape by apply mergeEntries_shape. rewrite mergeEntries_entries, len_app.
  assert (l_lastIdxOfSnapshot (mergeEntries l kept dropped ents) = l_lastIdxOfSnapshot l)
    by (unfold mergeEntries; by zif). lia.
Qed.

(** Where the first conflict is. *)
Lemma conflict_index d :
  firstConflict dropped ents = Some d ->
  e_Index d = l_lastIdxOfSnapshot l + len kept + 1 + Z.of_nat (common dropped ents)
  /\ (common dropped ents < length ents)%nat.
Proof.
  intros Hd. pose proof (firstConflict_spec dropped ents) as Hf. rewrite Hd in Hf.
  destruct Hf as [Hd' Hlt]. apply mergeable_dropped in Hd'. done.
Qed.

(** A mark of the log that no conflict reaches stays inside the log, and the
    entries up to it are kept. *)
Lemma mergeEntries_mark c :
  l_lastIdxOfSnapshot l <= c <= LastIndex l ->
  (forall d, firstConflict dropped ents = Some d -> c < e_Index d) ->
  agree_upto ents l (mergeEntries l kept dropped ents) c
  /\ c <= LastIndex (mergeEntries l kept dropped ents).
Proof.
  intros Hc Hnc. rewrite mergeEntries_last. rewrite mergeable_last in Hc.
  unfold agree_upto. rewrite mergeEntries_entries, (mg_split _ _ _ _ Hm).
  split; [split_and!; [by unfold mergeEntries; zif..|]|].
  - cbn zeta. rewrite !take_app. apply List.Forall2_app; [apply overwrites_refl|].
    destruct merged_cases as [->|[-> Hcase]]; [apply overwrites_refl|]. apply common_take.
    destruct (firstConflict dropped ents) as [d|] eqn:Hd.
    + destruct (conflict_index d Hd). specialize (Hnc d eq_refl). unfold len in *. lia.
    + pose proof (firstConflict_spec dropped ents) as Hf. rewrite Hd in Hf.
      destruct Hcase as [Hle|[d Hd']]; [|congruence]. unfold len in *. lia.
  - destruct merged_cases as [->|[-> [Hle|[d Hd]]]]; [lia|lia|].
    destruct (conflict_index d Hd). specialize (Hnc d Hd). unfold len in *. lia.
Qed.

End Mergeable.
End Merge.

(** ** The match point *)

Section Match.
Context {S : Type}.
Implicit Type l : RaftLog S.

(** The term of the log at index [i], the snapshot's last entry included. *)
Definition log_term (l : RaftLog S) (i : Z) : option Z :=
  if i =? l_lastIdxOfSnapshot l then Some (l_lastTermOfSnapshot l)
  else e_Term <$> entry_at l i.

(** The split of the log at the entry the leader's message follows. *)
Definition matchPoint (l : RaftLog S) (idx term : Z) : option (list Entry * list Entry) :=
  if (idx =? l_lastIdxOfSnapshot l) && (term =? l_lastTermOfSnapshot l)
  then Some ([], l_entries l)
  else match findEntry (l_entries l) idx term 0 with
       | Some i => Some (take (Datatypes.S i) (l_entries l),
                         drop (Datatypes.S i) (l_entries l))
       | None => None
       end.

Lemma findEntry_spec es idx term k :
  match findEntry es idx term k with
  | Some i => (k <= i)%nat /\ exists e, es !! (i - k)%nat = Some e /\ key e = (idx, term)
  | None => forall e, e ∈ es -> key e <> (idx, term)
  end.
Proof.
  revert k. induction es as [|e es IH]; intros k; simpl.
  { intros e He. by apply elem_of_nil in He. }
  destruct (_ && _) eqn:Hk.
  - split; [lia|]. exists e. rewrite Nat.sub_diag. split; [done|].
    unfold key. f_equal; lia.
  - specialize (IH (Datatypes.S k)). destruct (findEntry es idx term (Datatypes.S k)) as [i|].
    + destruct IH as (Hi & e' & He' & Hk'). split; [lia|]. exists e'. split; [|done].
      by replace (i - k)%nat with (Datatypes.S (i - Datatypes.S k)) by lia.
    + intros e' [->|He']%elem_of_cons; [|by apply IH]. unfold key. intros [= <- <-]. lia.
Qed.

Lemma matchPoint_Some l idx term kept dropped :
  log_shape l -> matchPoint l idx term = Some (kept, dropped) ->
  log_term l idx = Some term /\ l_lastIdxOfSnapshot l + len kept = idx
  /\ kept ++ dropped = l_entries l.
Proof.
  intros Hl. unfold matchPoint. bif.
  - intros [= <- <-]. unfold log_term. zif; [|lia].
    split_and!; [f_equal; lia|rewrite len_nil; lia|done].
  - pose proof (findEntry_spec (l_entries l) idx term 0) as Hf.
    destruct (findEntry _ _ _ _) as [i|]; [|done]. intros [= <- <-].
    destruct Hf as (_ & e & He & Hk). rewrite Nat.sub_0_r in He.
    apply (ls_contig l Hl) in He as Hi. injection Hk as <- <-.
    apply lookup_lt_Some in He as Hlt. split_and!.
    + unfold log_term, entry_at. zif; [lia|]. zif; [lia|].
      replace (Z.to_nat _) with i by lia. by rewrite He.
    + rewrite len_take. unfold len. lia.
    + apply take_drop.
Qed.

Lemma matchPoint_None l idx term :
  log_shape l -> matchPoint l idx term = None -> log_term l idx <> Some term.
Proof.
  intros Hl. unfold matchPoint. bif; [done|].
  pose proof (findEntry_spec (l_entries l) idx term 0) as Hf.
  destruct (findEntry _ _ _ _) as [i|]; [done|]. intros _. unfold log_term. zif.
  - intros [= Ht]. lia.
  - unfold entry_at. zif; [done|]. intros (e & He & ->)%fmap_Some.
    apply (ls_contig l Hl) in He as Hi. apply list_elem_of_lookup_2 in He.
    apply (Hf e He). unfold key. f_equal. lia.
Qed.

End Match.

(** ** The handler *)

Section Append.
Context {S : Type} `{HS : Storage S} `{HLaws : !StorageLaws S} (rand_Int : nat -> Z).
Implicit Types (r : Raft S) (m : Message) (l : RaftLog S).

(** An append message a follower with log [l] can receive: its entries are
    consecutive and agree with what the follower knows to be committed. *)
Record append_ok (l : RaftLog S) (m : Message) : Prop := {
  ao_ents : contiguous (m_Index m + 1) (m_Entries m);
  ao_room : m_Index m + len (m_Entries m) + 1 < two64;
  ao_committed : forall e, e ∈ m_Entries m ->
    l_lastIdxOfSnapshot l < e_Index e <= l_committed l ->
    e_Term <$> entry_at l (e_Index e) = Some (e_Term e);
  ao_snap : l_lastIdxOfSnapshot l < two63;
}.

Lemma append_mergeable l m kept dropped :
  log_shape l -> append_ok l m -> matchPoint l (m_Index m) (m_LogTerm m) = Some (kept, dropped) ->
  mergeable l kept dropped (m_Entries m).
Proof.
  intros Hl [He Hr _ _] (_ & Hk & Hs)%matchPoint_Some; [|done]. split; [done|done|..].
  - by rewrite Hk.
  - lia.
Qed.

(** No entry of the message conflicts with a committed one. *)
Lemma append_conflict l m kept dropped d :
  append_ok l m -> mergeable l kept dropped (m_Entries m) ->
  l_lastIdxOfSnapshot l + len kept = m_Index m ->
  firstConflict dropped (m_Entries m) = Some d -> l_committed l < e_Index d.
Proof.
  intros Hok Hm Hk Hd. destruct (conflict_index _ _ _ _ Hm d Hd) as [Hi Hlt].
  destruct (Z.le_gt_cases (e_Index d) (l_committed l)) as [Hle|]; [exfalso|lia].
  pose proof (firstConflict_spec dropped (m_Entries m)) as Hf. rewrite Hd in Hf.
  destruct Hf as [Hd' _]. apply lookup_lt_is_Some in Hlt as [e He].
  assert (Hei : e_Index e = e_Index d).
  { apply (ao_ents _ _ Hok) in He. lia. }
  pose proof (len_nonneg kept).
  pose proof (ao_committed _ _ Hok e (list_elem_of_lookup_2 _ _ _ He)) as Hc.
  rewrite Hei in Hc. specialize (Hc ltac:(lia)).
  unfold entry_at in Hc. zcmp_in Hc; [lia|].
  rewrite (mg_split _ _ _ _ Hm), lookup_app_r in Hc by (unfold len in *; lia).
  replace (Z.to_nat _ - _)%nat with (common dropped (m_Entries m)) in Hc by (unfold len in *; lia).
  rewrite Hd' in Hc. injection Hc as Hc.
  assert (Hke : key d = key e) by (unfold key; congruence).
  revert Hd' He Hke. clear. generalize (m_Entries m) as ents.
  induction dropped as [|x xs IH]; intros [|y ys]; simpl; try done.
  case_decide; [apply IH|]. simpl. congruence.
Qed.

Lemma mergeEntries_frame l kept dropped ents :
  l_lastIdxOfSnapshot (mergeEntries l kept dropped ents) = l_lastIdxOfSnapshot l
  /\ l_applied (mergeEntries l kept dropped ents) = l_applied l
  /\ l_committed (mergeEntries l kept dropped ents) = l_committed l
  /\ l_storage (mergeEntries l kept dropped ents) = l_storage l
  /\ (l_stabled (mergeEntries l kept dropped ents) = l_stabled l
       /\ firstConflict dropped ents = None \/
      ents = [] /\ l_stabled (mergeEntries l kept dropped ents) = l_stabled l \/
      exists d, firstConflict dropped ents = Some d
        /\ l_stabled (mergeEntries l kept dropped ents) = min (l_stabled l) (e_Index d ⊟ 1)).
Proof.
  unfold mergeEntries. zif; split_and!; try done; cbn.
  - destruct (firstConflict dropped ents); eauto.
  - right; left. split; [|done]. apply len_0_nil. pose proof (len_nonneg ents). lia.
Qed.

Lemma firstConflict_nil dropped : firstConflict dropped [] = None.
Proof. by destruct dropped. Qed.

(** Every entry below the new [stabled] mark is one that was in the log. *)
Lemma mergeEntries_stabled l kept dropped ents :
  log_wf l -> mergeable l kept dropped ents ->
  let l' := mergeEntries l kept dropped ents in
  l_lastIdxOfSnapshot l <= l_stabled l' <= l_stabled l /\
  agree_upto ents l l' (l_stabled l') /\ l_stabled l' <= LastIndex l'.
Proof.
  intros Hl Hm l'. pose proof (lw_stabled _ Hl) as Hst. pose proof (len_nonneg kept).
  pose proof (ls_snap _ (lw_shape _ Hl)).
  destruct (mergeEntries_frame l kept dropped ents) as (_ & _ & _ & _ & Hcase).
  assert (Hb : l_lastIdxOfSnapshot l <= l_stabled l' <= l_stabled l /\
    forall d, firstConflict dropped ents = Some d -> l_stabled l' < e_Index d).
  { destruct Hcase as [[He Hn]|[[-> He]|(d & Hd & He)]]; fold l' in He.
    - split; [lia|]. intros d Hd. congruence.
    - rewrite firstConflict_nil. split; [lia|done].
    - destruct (conflict_index _ _ _ _ Hm d Hd) as [Hi _].
      assert (Hlast := mergeable_last _ _ _ _ Hm). assert (Hroom := ls_room _ (lw_shape _ Hl)).
      rewrite LastIndex_shape in Hlast by apply Hl.
      assert (Hin : (common dropped ents < length dropped)%nat).
      { pose proof (firstConflict_spec dropped ents) as Hf. rewrite Hd in Hf.
        by eapply lookup_lt_Some, Hf. }
      rewrite u64_sub_small in He by (unfold is_u64, len in *; lia).
      rewrite min_Z in He. split; [lia|]. intros d' Hd'. simplify_eq. lia. }
  destruct Hb as [Hb Hnc]. split; [done|].
  apply mergeEntries_mark; [done|lia|done].
Qed.

Lemma mergeEntries_wf l m kept dropped :
  log_wf l -> append_ok l m -> matchPoint l (m_Index m) (m_LogTerm m) = Some (kept, dropped) ->
  let l' := mergeEntries l kept dropped (m_Entries m) in
  log_wf l' /\ agree_upto (m_Entries m) l l' (l_committed l)
  /\ m_Index m + len (m_Entries m) <= LastIndex l'.
Proof.
  intros Hl Hok Hmp l'. assert (Hm := append_mergeable _ _ _ _ (lw_shape _ Hl) Hok Hmp).
  destruct (matchPoint_Some _ _ _ _ _ (lw_shape _ Hl) Hmp) as (_ & Hk & _).
  destruct (mergeEntries_stabled l kept dropped (m_Entries m)) as (Hst & _ & Hst'); [done..|].
  destruct (mergeEntries_mark _ _ _ _ Hm (l_committed l)) as [Hag Hc].
  { pose proof (lw_applied _ Hl). pose proof (lw_committed _ Hl). lia. }
  { intros d. by apply append_conflict with (kept := kept). }
  destruct (mergeEntries_frame l kept dropped (m_Entries m)) as (Hf1 & Hf2 & Hf3 & _).
  fold l' in Hst, Hst', Hag, Hc, Hf1, Hf2, Hf3.
  split_and!; [split|done|].
  - by apply mergeEntries_shape.
  - rewrite Hf1, Hf2, Hf3. apply Hl.
  - by rewrite Hf3.
  - rewrite Hf1. lia.
  - unfold l'. rewrite (mergeEntries_last _ _ _ _ Hm), <- Hk.
    assert (len (m_Entries m) <= len (merged dropped (m_Entries m))); [|lia].
    unfold merged. pose proof (len_nonneg dropped).
    zif; [|lia]. destruct (len dropped >? _) eqn:?; simpl; [|lia].
    destruct (firstConflict _ _); lia.
Qed.

(** The commit index after an accepted append. *)
Definition new_commit (c : Z) (m : Message) : Z :=
  Z.max c (Z.min (m_Commit m) (m_Index m + len (m_Entries m))).

Lemma advanceCommit_ok l m :
  log_wf l -> contiguous (m_Index m + 1) (m_Entries m) ->
  m_Index m + len (m_Entries m) <= LastIndex l ->
  let l' := l <| l_committed := new_commit (l_committed l) m |> in
  advanceCommit l m = Ret l' /\ log_wf l'.
Proof.
  intros Hl He Hle l'. pose proof (lw_committed _ Hl) as Hc.
  assert (Hnew : match list.last (m_Entries m) with Some e => e_Index e | None => m_Index m end
                 = m_Index m + len (m_Entries m)).
  { destruct (list.last (m_Entries m)) as [e|] eqn:Hlast.
    - rewrite last_lookup in Hlast. apply lookup_lt_Some in Hlast as Hlt.
      apply He in Hlast as ->. unfold len. lia.
    - apply last_None in Hlast as ->. rewrite len_nil. lia. }
  split.
  - unfold advanceCommit. rewrite Hnew. zif.
    + assert (max (min (m_Commit m) (m_Index m + len (m_Entries m))) (l_committed l)
              = new_commit (l_committed l) m) as -> by (rewrite max_Z, min_Z; unfold new_commit; lia).
      fold l'. change (LastIndex l') with (LastIndex l). change (l_committed l') with
        (new_commit (l_committed l) m). zif; [unfold new_commit in *; lia|done].
    + f_equal. assert (Hn : new_commit (l_committed l) m = l_committed l)
        by (unfold new_commit; lia). subst l'. rewrite Hn. by destruct l.
  - apply log_wf_commit; [done|]. unfold new_commit. lia.
Qed.

(** What a peer's state and log are after it accepted the append message [m]. *)
Record accepted (r : Raft S) (m : Message) (r' : Raft S) : Prop := {
  ac_wf : raft_wf r';
  ac_role : r_Term r' = m_Term m /\ r_State r' = StateFollower /\ r_Lead r' = m_From m;
  ac_log : let n := Z.to_nat (m_Index m - l_lastIdxOfSnapshot (r_RaftLog r)) in
    let paper := take n (l_entries (r_RaftLog r)) ++ raft_merge (drop n (l_entries (r_RaftLog r))) (m_Entries m) in
    Forall2 (overwrites (m_Entries m)) paper (l_entries (r_RaftLog r'))
    /\ (log_matching (l_entries (r_RaftLog r)) (m_Entries m) -> l_entries (r_RaftLog r') = paper);
  ac_commit : l_committed (r_RaftLog r') = new_commit (l_committed (r_RaftLog r)) m;
  ac_committed : agree_upto (m_Entries m) (r_RaftLog r) (r_RaftLog r') (l_committed (r_RaftLog r))
    /\ l_applied (r_RaftLog r') = l_applied (r_RaftLog r);
  ac_stabled : l_stabled (r_RaftLog r') <= l_stabled (r_RaftLog r)
    /\ agree_upto (m_Entries m) (r_RaftLog r) (r_RaftLog r') (l_stabled (r_RaftLog r'));
  ac_reply : r_msgs r' = r_msgs r ++
    [zero_Message <| m_MsgType := MsgAppendResponse |> <| m_From := r_id r |>
       <| m_To := m_From m |> <| m_Term := m_Term m |>
       <| m_Index := LastIndex (r_RaftLog r') |>];
}.

(** The role part of the handler: a peer that does not follow yet steps down. *)
Lemma append_role r m :
  raft_wf r ->
  wp (let x := r <| r_Term := m_Term m |> <| r_Lead := m_From m |> in
      if decide (r_State x = StateFollower) then Ret x
      else becomeFollower rand_Int x (m_Term m) (m_From m))
    (fun r' => raft_wf r' /\ r_RaftLog r' = r_RaftLog r /\ r_msgs r' = r_msgs r
       /\ r_id r' = r_id r /\ r_Term r' = m_Term m /\ r_State r' = StateFollower
       /\ r_Lead r' = m_From m).
Proof.
  intros Hw. cbn zeta. case_decide; [by apply wp_ret|].
  set (x := r <| r_Term := _ |> <| r_Lead := _ |>).
  assert (Hx : raft_wf x) by done.
  pose proof (becomeFollower_wp rand_Int x (m_Term m) (m_From m) Hx) as H1.
  pose proof (becomeFollower_spec rand_Int x (m_Term m) (m_From m)) as H2.
  eapply wp_mono; [exact (wp_wlp _ _ _ H1 H2)|]. cbn. intros r' [(Hw' & _) H']. intuition.
Qed.

(** The log and commit index built by the accepting branch. *)
Lemma accept_log l m kept dropped :
  log_wf l -> append_ok l m -> matchPoint l (m_Index m) (m_LogTerm m) = Some (kept, dropped) ->
  let l1 := mergeEntries l kept dropped (m_Entries m) in
  let l2 := l1 <| l_committed := new_commit (l_committed l) m |> in
  let n := Z.to_nat (m_Index m - l_lastIdxOfSnapshot l) in
  advanceCommit l1 m = Ret l2 /\ log_wf l2
  /\ (let paper := take n (l_entries l) ++ raft_merge (drop n (l_entries l)) (m_Entries m) in
      Forall2 (overwrites (m_Entries m)) paper (l_entries l2)
      /\ (log_matching (l_entries l) (m_Entries m) -> l_entries l2 = paper))
  /\ agree_upto (m_Entries m) l l2 (l_committed l)
  /\ l_stabled l2 <= l_stabled l /\ agree_upto (m_Entries m) l l2 (l_stabled l2)
  /\ l_storage l2 = l_storage l /\ l_applied l2 = l_applied l.
Proof.
  intros Hl Hok Hmp l1 l2 n. assert (Hm := append_mergeable _ _ _ _ (lw_shape _ Hl) Hok Hmp).
  destruct (matchPoint_Some _ _ _ _ _ (lw_shape _ Hl) Hmp) as (_ & Hk & Hsp).
  destruct (mergeEntries_wf l m kept dropped) as (Hl1 & Hag & Hle); [done..|].
  destruct (advanceCommit_ok _ m Hl1 (ao_ents _ _ Hok) Hle) as [Ha Hl2].
  destruct (mergeEntries_stabled l kept dropped (m_Entries m)) as (Hst & Hst' & _); [done..|].
  destruct (mergeEntries_frame l kept dropped (m_Entries m)) as (_ & Hf2 & Hf3 & Hf4 & _).
  rewrite Hf3 in Ha, Hl2.
  split_and!; [exact Ha|exact Hl2| |exact Hag|exact (proj2 Hst)|exact Hst'|exact Hf4|exact Hf2].
  change (l_entries l2) with (l_entries l1). unfold l1.
  rewrite mergeEntries_entries, <- Hsp.
  assert (Hn : n = length kept) by (unfold n, len in *; lia).
  rewrite Hn, take_app_length, drop_app_length. cbn zeta.
  assert (Hf : Forall2 (overwrites (m_Entries m)) (kept ++ raft_merge dropped (m_Entries m)) (kept ++ merged dropped (m_Entries m))).
  { apply List.Forall2_app; [apply overwrites_refl|].
    eapply merged_raft_merge; [exact (mergeable_dropped _ _ _ _ Hm)|apply Hm]. }
  split; [exact Hf|]. intros Hlm. apply (overwrites_exact (m_Entries m)); [|exact Hf].
  intros e e' [He|[He|He]%raft_merge_elem]%elem_of_app; [apply Hlm, elem_of_app; by left|apply Hlm, elem_of_app; by right|].
  by apply (log_matching_self _ _ (ao_ents _ _ Hok)).
Qed.

Lemma handleAppendEntries_accepted r m :
  raft_wf r -> append_ok (r_RaftLog r) m -> m_CommitUse m = false -> r_Term r <= m_Term m ->
  log_term (r_RaftLog r) (m_Index m) = Some (m_LogTerm m) ->
  wp (handleAppendEntries rand_Int r m) (accepted r m).
Proof.
  intros Hw Hok Hcu Ht Hlt. unfold handleAppendEntries. rewrite Hcu. zif; [lia|].
  apply wp_bind. eapply wp_mono; [by apply append_role|].
  intros r1 (Hw1 & Hl1 & Hm1 & Hid & Hrole).
  fold (matchPoint (r_RaftLog r1) (m_Index m) (m_LogTerm m)).
  rewrite Hl1. assert (Hl := raft_wf_log _ Hw).
  destruct (matchPoint (r_RaftLog r) _ _) as [[kept dropped]|] eqn:Hmp.
  2:{ apply matchPoint_None in Hmp; [done|by apply lw_shape]. }
  destruct (accept_log _ _ _ _ Hl Hok Hmp) as (Ha & Hl2 & Hkey & Hag & Hst & Hst' & Hsto & Hap).
  rewrite Ha. apply wp_ret.
  destruct Hw1 as (_ & Hstw & Hto & Hself & Hps). rewrite Hl1 in Hstw.
  split; [|exact Hrole|exact Hkey|done|exact (conj Hag Hap)|exact (conj Hst Hst')|].
  - split_and!; try done. rewrite <- Hsto in Hstw. exact Hstw.
  - cbn [send r_msgs set_r_msgs upd]. unfold send. cbn. by rewrite Hm1.
Qed.

Lemma conflictReply_wp l m reply :
  log_wf l -> l_lastIdxOfSnapshot l < two63 ->
  wp (conflictReply l m reply) (fun msg => m_Reject msg = m_Reject reply
    /\ m_MsgType msg = m_MsgType reply /\ m_To msg = m_To reply
    /\ m_From msg = m_From reply /\ m_Term msg = m_Term reply).
Proof.
  intros Hl H63. pose proof (lw_shape _ Hl) as Hs. pose proof (ls_snap _ Hs) as H0.
  unfold conflictReply. zif; [by apply wp_ret|]. zif; [by apply wp_ret|].
  pose proof (LastIndex_shape _ Hs) as HLi. pose proof (len_nonneg (l_entries l)).
  rewrite int64_small by (unfold two63 in *; lia).
  assert (exists i, realIdx l (m_Index m) = Ret i /\ -1 <= i < len (l_entries l)) as (i & -> & Hi).
  { destruct (Z.le_gt_cases (m_Index m) (l_lastIdxOfSnapshot l)).
    - rewrite realIdx_snap by done. eexists. split; [done|lia].
    - rewrite realIdx_in by (done || lia). eexists. split; [done|lia]. }
  apply wp_bind. apply (wp_mono _ (fun _ => True)).
  - rewrite Max_Z. zif; [done|].
    destruct (index_total (E:=error) (l_entries l) (Z.max (l_lastIdxOfSnapshot l) i))
      as (e & -> & _); [lia|done].
  - intros ct _. by destruct (firstOfTerm _ _).
Qed.

(** What a refused append leaves: only the role may change. *)
Lemma handleAppendEntries_refused r m :
  raft_wf r -> l_lastIdxOfSnapshot (r_RaftLog r) < two63 -> m_CommitUse m = false ->
  (r_Term r <= m_Term m -> log_term (r_RaftLog r) (m_Index m) <> Some (m_LogTerm m)) ->
  wp (handleAppendEntries rand_Int r m) (fun r' => raft_wf r' /\
    r_RaftLog r' = r_RaftLog r /\ r_Term r' = Z.max (r_Term r) (m_Term m) /\
    exists reply, r_msgs r' = r_msgs r ++ [reply] /\ m_Reject reply = true
      /\ m_MsgType reply = MsgAppendResponse /\ m_To reply = m_From m
      /\ m_Term reply = r_Term r').
Proof.
  intros Hw H63 Hcu Hno. unfold handleAppendEntries. rewrite Hcu. zif.
  { apply wp_ret. split_and!; [done|done|cbn; lia|]. eexists. split_and!; done. }
  apply wp_bind. eapply wp_mono; [by apply append_role|].
  intros r1 (Hw1 & Hl1 & Hm1 & Hid & Ht1 & _).
  fold (matchPoint (r_RaftLog r1) (m_Index m) (m_LogTerm m)).
  rewrite Hl1. assert (Hl := raft_wf_log _ Hw).
  destruct (matchPoint (r_RaftLog r) _ _) as [[kept dropped]|] eqn:Hmp.
  { apply matchPoint_Some in Hmp as (Hmp & _); [|by apply lw_shape]. by destruct Hno. }
  apply wp_bind. eapply wp_mono; [by apply conflictReply_wp|].
  intros reply (Hrej & Hty & Hto & _ & Htm). apply wp_ret. split_and!.
  - done.
  - done.
  - cbn. lia.
  - exists reply. unfold send. cbn in *. rewrite Hm1. split_and!; congruence.
Qed.

End Append.
