(* ===== verification/RaftSafe.v ===== *)
(** * RaftSafe: no handler panics, and what a step keeps of the log

    [Step_safe] and [tick_safe]: from a well-formed state, a message that satisfies
    [msg_ok] is handled without a panic and leaves a well-formed state.
    A step never lowers the commit index; it leaves a committed entry as it is, or puts the
    entry of the message with the same index and term in its place. *)

From stdpp Require Import base option list gmap strings tactics.
From S2P Require Import Prelude.
From S2P Require Import Eraftpb.
From S2P Require Import RaftStorage.
From S2P Require Import RaftLog.
From S2P Require Import Raft.
From S2P Require Import RaftFacts.
From S2P Require Import RaftInv.
From S2P Require Import RaftAppend.

Section Safe.
Context {S : Type} `{HS : Storage S} `{HLaws : !StorageLaws S} (rand_Int : nat -> Z).
Implicit Types (r : Raft S) (m : Message) (l : RaftLog S).

(** The entries a message can bring into the log. *)
Definition incoming (m : Message) : list Entry := match m_MsgType m with MsgAppend => m_Entries m | _ => [] end.
(** [l'] keeps what [l] has committed: the commit index does not go down, the applied index is the same
    and so are the entries up to the commit index, up to those that [ents] overwrites, unless a snapshot
    past the whole log replaced them. *)
Definition keeps (ents : list Entry) (l l' : RaftLog S) : Prop :=
  l_committed l <= l_committed l' /\
  (agree_upto ents l l' (l_committed l) /\ l_applied l' = l_applied l \/
   LastIndex l < l_lastIdxOfSnapshot l').
(** The same with the very same entries. *)
Definition keeps_same (l l' : RaftLog S) : Prop :=
  l_committed l <= l_committed l' /\
  (same_upto l l' (l_committed l) /\ l_applied l' = l_applied l \/
   LastIndex l < l_lastIdxOfSnapshot l').
Lemma keeps_exact ents l l' : log_matching (l_entries l) ents -> keeps ents l l' -> keeps_same l l'.
Proof.
  intros Hm [Hc [[Ha Hp]|Hs]]; (split; [done|]); [left|by right]. split; [|done]. by eapply agree_same.
Qed.

Lemma grows_keeps ents l l' : log_wf l -> grows l l' -> keeps ents l l'.
Proof.
  intros Hl (Hc & Hk & es & He). split; [done|left]. injection Hc as Ha Hs Hp Hi Ht.
  split; [|done]. split_and!; [done..|]. cbn zeta. rewrite He, take_app_le; [apply overwrites_refl|].
  pose proof (lw_committed _ Hl). rewrite LastIndex_shape in * by apply Hl. unfold len in *. lia.
Qed.

(** The state after a step: well formed, with the committed entries kept. *)
Definition safe (ents : list Entry) (r r' : Raft S) : Prop :=
  raft_wf r' /\ keeps ents (r_RaftLog r) (r_RaftLog r').

Lemma good_safe ents r r' : raft_wf r -> good r r' -> safe ents r r'.
Proof. intros Hw [Hw' Hg]. split; [done|]. apply grows_keeps; [apply Hw|done]. Qed.

(** *** The leader's side of replication *)

Lemma matchedPeers_wp r from idx ps :
  (forall p, p ∈ ps -> is_Some (r_Prs r !! p)) ->
  wp (matchedPeers r from idx ps) (fun others => others `sublist_of` ps /\
    (forall p, p ∈ others -> p <> from /\ p <> r_id r /\
       exists pr, r_Prs r !! p = Some pr /\ idx <= pr_Match pr)).
Proof.
  induction ps as [|p ps IH]; intros Hps; simpl.
  { split; [constructor|]. intros p Hp. by apply elem_of_nil in Hp. }
  assert (IH' := IH (fun q Hq => Hps q (list_elem_of_further _ _ _ Hq))). clear IH.
  destruct (_ || _) eqn:Hskip.
  - eapply wp_mono; [exact IH'|]. intros others [Hs Ho]. split; [by constructor|done].
  - destruct (Hps p) as [pr Hpr]; [by left|]. rewrite Hpr. cbn [deref].
    apply wp_bind. eapply wp_mono; [exact IH'|]. intros others [Hs Ho]. apply wp_ret. zif.
    + split; [by constructor|]. intros q [->|Hq]%elem_of_cons; [|by apply Ho].
      split_and!; [lia|lia|]. eauto.
    + split; [by constructor|done].
Qed.

Lemma commitTo_wf r c :
  raft_wf r -> l_committed (r_RaftLog r) <= c <= LastIndex (r_RaftLog r) ->
  raft_wf (r <| r_RaftLog ::= fun l => l <| l_committed := c |> |>).
Proof. intros (Hl & Hst & Ht & Hid & Hps) Hc. split_and!; try done. by apply log_wf_commit. Qed.

Lemma foldl_send_wf {B} r (f : Raft S -> B -> Message) xs :
  raft_wf r -> raft_wf (foldl (fun r p => send r (f r p)) r xs).
Proof. intros Hw. by apply (foldl_inv _ raft_wf). Qed.

Lemma foldl_send_log {B} r (f : Raft S -> B -> Message) xs :
  r_RaftLog (foldl (fun r p => send r (f r p)) r xs) = r_RaftLog r.
Proof. by apply (foldl_inv _ (fun x => r_RaftLog x = r_RaftLog r)). Qed.

Lemma handleMsgAppendResponse_wp r m :
  raft_wf r -> is_Some (r_Prs r !! m_From m) ->
  (m_Reject m = false -> m_Index m <= LastIndex (r_RaftLog r)) ->
  wp (handleMsgAppendResponse r m) (good r).
Proof.
  intros Hw [p Hp] Hidx. unfold handleMsgAppendResponse. rewrite Hp. cbn [deref].
  destruct (m_Reject m); cbn [negb].
  - apply wp_bind. eapply wp_mono; [apply updProgress_wp; eauto|]. intros r1 (Hw1 & Hs & Heq & Hd).
    apply wp_bind. eapply wp_mono; [apply sendAppend_wp; [done|]|].
    { apply elem_of_dom. rewrite Hd. by apply elem_of_dom_2 in Hp. }
    intros [r2 b] [Hw2 Hs2]. apply wp_ret, sends_good. split; [done|by etransitivity].
  - zif; [by apply wp_ret, good_same|]. apply wp_bind.
    eapply wp_mono; [apply updProgress_wp; eauto|]. intros r1 (Hw1 & _ & Heq & _).
    assert (Hl1 : r_RaftLog r1 = r_RaftLog r) by (by rewrite Heq).
    set (r2 := if _ && _ then _ else _).
    assert (Hr2 : raft_wf r2 /\ r_RaftLog r2 = r_RaftLog r)
      by (subst r2; destruct (_ && _); done).
    clearbody r2. destruct Hr2 as [Hw2 Hl2]. rewrite Hl2.
    zif; [by apply wp_ret, good_same|].
    assert (Hl := raft_wf_log _ Hw). pose proof (lw_applied _ Hl).
    specialize (Hidx eq_refl). rewrite realIdx_in by (apply Hl || lia).
    pose proof (LastIndex_shape _ (lw_shape _ Hl)).
    destruct (index_total (E:=error) (l_entries (r_RaftLog r))
                (m_Index m - l_lastIdxOfSnapshot (r_RaftLog r) - 1)) as (e & -> & _); [lia|].
    zif; [by apply wp_ret, good_same|]. apply wp_bind.
    eapply wp_mono; [apply matchedPeers_wp; intros; by apply raft_wf_peer|].
    intros others _. zif; [|by apply wp_ret, good_same]. apply wp_ret. split.
    + apply foldl_send_wf. apply commitTo_wf; [done|]. rewrite Hl2. lia.
    + rewrite foldl_send_log. cbn. rewrite Hl2. apply commit_grows. lia.
Qed.

Lemma handleLeaderTransfer_wp r m :
  raft_wf r -> r_State r = StateLeader ->
  wp (handleLeaderTransfer (fun _ _ => Panic) r m) (good r).
Proof.
  intros Hw Hst. unfold handleLeaderTransfer. rewrite bool_decide_true by done. cbn [negb].
  destruct (containsPeer r (m_From m)) eqn:Hp; cbn [negb]; [|by apply wp_ret, good_same].
  zif; [by apply wp_ret, good_same|]. bif; [by apply wp_ret, good_same|].
  assert (Hin : m_From m ∈ r_peers r).
  { apply existsb_exists in Hp as (x & Hx & Heq). apply list_elem_of_In in Hx.
    by replace (m_From m) with x by lia. }
  destruct (raft_wf_peer _ _ Hw Hin) as [p Hpr].
  set (r1 := r <| r_leadTransferee := _ |>). assert (Hw1 : raft_wf r1) by done.
  change (r_Prs r1) with (r_Prs r). rewrite Hpr. cbn [deref].
  zif; [by apply wp_ret, good_same|]. apply wp_bind.
  eapply wp_mono; [apply sendAppend_wp; [done|by exists p]|]. intros [r2 b] Hs.
  apply wp_ret. apply (good_sends r r1); [by apply good_same|done].
Qed.

(** *** Snapshots and appends *)

Definition snapshot_ok (m : Message) : Prop :=
  exists snap md cs, m_Snapshot m = Some snap /\ s_Metadata snap = Some md
    /\ sm_ConfState md = Some cs /\ sm_Index md + 1 < two64.

Lemma foldl_insert_is_Some (prs : gmap Z Progress) ids pr q :
  is_Some (prs !! q) \/ q ∈ ids ->
  is_Some (foldl (fun prs id => <[id := pr]> prs) prs ids !! q).
Proof.
  revert prs. induction ids as [|i ids IH]; intros prs Hq; simpl.
  - destruct Hq as [|Hq]; [done|]. by apply elem_of_nil in Hq.
  - apply IH. destruct (decide (q = i)) as [->|Hne].
    + left. rewrite lookup_insert_eq. by eexists.
    + destruct Hq as [Hq|[|]%elem_of_cons]; [left|done|by right].
      by rewrite lookup_insert_ne by congruence.
Qed.

Lemma handleSnapshot_wp r m :
  raft_wf r -> snapshot_ok m -> wp (handleSnapshot rand_Int r m) (safe (incoming m) r).
Proof.
  intros Hw (snap & md & cs & Hsn & Hmd & Hcs & Hidx). unfold handleSnapshot.
  rewrite Hsn. cbn [deref]. rewrite Hmd. cbn [deref]. rewrite Hcs. cbn [deref].
  zif; [by apply wp_ret, good_safe, good_same|].
  set (r1 := _ <| r_peers := _ |> <| r_Prs := _ |>).
  pose proof Hw as (Hl & Hst & Ht & Hid & Hps).
  pose proof (LastIndex_ge _ (lw_shape _ Hl)). pose proof (ls_snap _ (lw_shape _ Hl)).
  assert (Hw1 : raft_wf r1).
  { split_and!; [split; [split|..]|..]; cbn; rewrite ?len_nil; try (done || lia).
    - apply foldl_insert_is_Some. by left.
    - intros p Hp. apply foldl_insert_is_Some. by right. }
  apply wp_bind. eapply wp_mono; [by apply becomeFollower_wp|]. intros r2 (Hw2 & Hl2 & _).
  apply wp_ret. split; [done|]. change (keeps (incoming m) (r_RaftLog r) (r_RaftLog r2)). rewrite Hl2.
  split; cbn; [pose proof (lw_committed _ Hl); lia|right; done].
Qed.

Definition append_msg_ok (r : Raft S) (m : Message) : Prop :=
  if m_CommitUse m then m_Commit m <= LastIndex (r_RaftLog r)
  else append_ok (r_RaftLog r) m.

Lemma handleAppendEntries_cases r m :
  raft_wf r -> append_msg_ok r m ->
  wp (handleAppendEntries rand_Int r m) (fun r' => good r r' \/ accepted r m r').
Proof.
  intros Hw Hok. unfold append_msg_ok in Hok. destruct (m_CommitUse m) eqn:Hcu.
  - unfold handleAppendEntries. rewrite Hcu. zif; [lia|]. apply wp_ret. left.
    pose proof (lw_committed _ (raft_wf_log _ Hw)).
    pose proof (max_Z (l_committed (r_RaftLog r)) (m_Commit m)).
    split; [apply (commitTo_wf r (max (l_committed (r_RaftLog r)) (m_Commit m))); [done|lia]|].
    apply (commit_grows (r_RaftLog r)). cbn. lia.
  - destruct (decide (r_Term r <= m_Term m /\
                log_term (r_RaftLog r) (m_Index m) = Some (m_LogTerm m))) as [[Ht Hlt]|Hno].
    + eapply wp_mono; [by apply handleAppendEntries_accepted|]. by right.
    + eapply wp_mono; [apply handleAppendEntries_refused; try done; [apply Hok|]|].
      * intros Ht Hlt. by apply Hno.
      * intros r' (Hw' & Hl' & _). left. by apply good_same.
Qed.

Lemma handleAppendEntries_wp r m :
  raft_wf r -> append_msg_ok r m -> wp (handleAppendEntries rand_Int r m) (safe (m_Entries m) r).
Proof.
  intros Hw Hok. eapply wp_mono; [by apply handleAppendEntries_cases|].
  intros r' [Hg|[Hw' _ _ Hc Hag _ _]]; [by apply good_safe|].
  split; [done|]. split; [|by left]. rewrite Hc. unfold new_commit. lia.
Qed.

(** *** The step function *)

(** The messages a peer in state [r] may receive: what the protocol and the
    transport guarantee, and a log that has not used up the index space. *)
Definition msg_ok (r : Raft S) (m : Message) : Prop :=
  room (r_RaftLog r) 1 /\
  match m_MsgType m with
  | MsgSnapshot => snapshot_ok m
  | MsgAppend => append_msg_ok r m
  | MsgPropose => room (r_RaftLog r) (len (m_Entries m))
  | MsgAppendResponse => r_State r = StateLeader -> is_Some (r_Prs r !! m_From m) /\
      (m_Reject m = false -> m_Index m <= LastIndex (r_RaftLog r))
  | MsgHeartbeatResponse => r_State r = StateLeader -> is_Some (r_Prs r !! m_From m)
  | _ => True
  end.

#[local] Opaque becomeCandidate requestVotes handleSnapshot handleAppendEntries
  handleVoteRequest handleVoteResponse handleHeartbeat handleHeartbeatResponse
  handleMsgPropose broadCastAE handleMsgAppendResponse handleLeaderTransfer sendHeartbeats
  sendAppend send.

Lemma Step_safe_wp r m : raft_wf r -> msg_ok r m -> wp (Step rand_Int r m) (safe (incoming m) r).
Proof.
  intros Hw [Hroom Hok]. assert (Hgs : forall o : outcome error (Raft S), wp o (good r) -> wp o (safe (incoming m) r)).
  { intros o Ho. eapply wp_mono; [exact Ho|]. intros r'. by apply good_safe. }
  apply (Step_cases rand_Int (fun o => wp o (safe (incoming m) r))).
  - intros Hm. rewrite Hm in Hok. by apply handleSnapshot_wp.
  - intros Hm. unfold incoming. rewrite Hm in Hok |- *. by apply handleAppendEntries_wp.
  - intros _. by apply Hgs, campaign_wp.
  - intros _. by apply Hgs, handleVoteRequest_wp.
  - intros _. by apply Hgs, handleHeartbeat_wp.
  - intros _ _. by apply Hgs, handleVoteResponse_wp.
  - intros _ _. apply Hgs, wp_ret. eapply good_sends.
    + by apply (good_same r (r <| r_heartbeatElapsed := 0 |>)).
    + split; [by apply sendHeartbeats_wf|apply sendHeartbeats_sends].
  - intros _ Hm. rewrite Hm in Hok. apply Hgs, wp_bind.
    eapply wp_mono; [by apply handleMsgPropose_wp|]. intros r1 [Hg _].
    eapply wp_mono; [apply broadCastAE_wp, Hg|]. intros r2. by apply good_sends.
  - intros Hst Hm. rewrite Hm in Hok. destruct (Hok Hst). by apply Hgs, handleMsgAppendResponse_wp.
  - intros Hst Hm. rewrite Hm in Hok. by apply Hgs, handleHeartbeatResponse_wp, Hok.
  - intros Hst _. by apply Hgs, handleLeaderTransfer_wp.
  - by apply wp_ret, good_safe, good_same.
Qed.

Lemma tick_wp r : raft_wf r -> room (r_RaftLog r) 1 -> wp (tick rand_Int r) (good r).
Proof.
  intros Hw Hr. unfold tick.
  set (r1 := r <| r_electionElapsed ::= _ |> <| r_heartbeatElapsed ::= _ |>).
  assert (Hw1 : raft_wf r1) by done.
  assert (Hg1 : good r r1) by (by apply good_same).
  case_decide; zif; try (by apply wp_ret).
  - apply wp_ret. apply (good_sends r (r1 <| r_heartbeatElapsed := 0 |>)).
    + by apply good_same.
    + split; [by apply sendHeartbeats_wf|apply sendHeartbeats_sends].
  - fold (campaign rand_Int r1). eapply wp_mono; [by apply campaign_wp|]. intros r2.
    by apply good_trans.
Qed.

(** *** Starting up *)

Lemma newLog_wp st :
  st_wf st ->
  wp (newLog st) (fun l => log_wf l /\ l_storage l = st /\ l_applied l = st_first st - 1
    /\ LastIndex l = st_last st
    /\ exists hs cs, st_InitialState st = Ret (hs, cs) /\ l_committed l = hs_Commit hs).
Proof.
  intros Hst. destruct (st_bounds _ Hst) as (Hf & Hfl & Hl).
  unfold newLog. rewrite st_FirstIndex_law, st_LastIndex_law by done. cbn [must].
  rewrite u64_add_small, u64_sub_small by (unfold is_u64; lia).
  destruct (st_Entries_law st (st_first st) (st_last st + 1)) as (es & -> & Hc & Hlen); try lia; try done.
  cbn [must]. destruct (st_Term_law st (st_first st - 1)) as [t ->]; [done|lia|]. cbn [ignore_err].
  destruct (st_InitialState_law _ Hst) as (hs & cs & -> & Hcm). cbn [must].
  apply wp_ret.
  set (l := mkRaftLog _ _ _ _ _ _ _ _).
  assert (Hs : log_shape l).
  { split; cbn; [lia|by rewrite Z.sub_add|lia]. }
  split_and!; [|done|done|rewrite (LastIndex_shape l Hs); cbn; lia|eauto].
  split; [done|..]; rewrite ?(LastIndex_shape l Hs); cbn; lia.
Qed.

(** A configuration [newRaft] accepts: [peers] are the members of the group. *)
Record config_ok (c : Config S) (st : S) (peers : list Z) : Prop := {
  co_storage : cfg_Storage c = Some st;
  co_valid : validate c = None;
  co_wf : st_wf st;
  co_self : cfg_ID c ∈ peers;
  co_peers : match cfg_peers c with
             | Some ps => peers = ps
             | None => exists hs cs, st_InitialState st = Ret (hs, cs) /\
                 peers = cs_Nodes cs /\ cfg_Applied c <= hs_Commit hs
             end;
}.

Lemma newRaft_wp c st peers :
  config_ok c st peers ->
  wp (newRaft rand_Int c) (fun r => raft_wf r /\ r_State r = StateFollower /\
    r_id r = cfg_ID c /\ r_peers r = peers /\
    exists hs cs, st_InitialState st = Ret (hs, cs) /\ GetHardState r =
      mkHardState (hs_Term hs) (hs_Vote hs) (hs_Commit hs) None
      /\ LastIndex (r_RaftLog r) = st_last st /\ l_storage (r_RaftLog r) = st
      /\ (cfg_peers c = None -> l_applied (r_RaftLog r) = Z.max (cfg_Applied c) (st_first st - 1))).
Proof.
  intros [Hst Hv Hw Hid Hps]. unfold newRaft. rewrite Hv, Hst.
  assert (Ht : 0 < cfg_ElectionTick c).
  { revert Hv. unfold validate. zif; [done|]. zif; [done|]. zif; [done|]. lia. }
  apply wp_bind. eapply wp_mono; [by apply newLog_wp|].
  intros l (Hl & Hls & Ha & Hla & hs & cs & Hi & Hc). rewrite Hi. cbn [must].
  zif; [lia|].
  set (l1 := match cfg_peers c with Some _ => l | None => _ end).
  assert (Hl1 : log_wf (l1 <| l_committed := hs_Commit hs |>) /\ l_storage l1 = st /\ LastIndex l1 = st_last st
    /\ (cfg_peers c = None -> l_applied l1 = Z.max (cfg_Applied c) (st_first st - 1))).
  { rewrite <- Hc. subst l1. destruct (cfg_peers c).
    - split; [by destruct l|done].
    - destruct Hps as (hs' & cs' & Hi' & _ & Hap). rewrite Hi in Hi'. injection Hi' as <- <-.
      rewrite max_Z. split; [|cbn -[Z.max]; by rewrite Ha]. destruct Hl as [Hsh Hap' Hcm Hsb].
      split; [by destruct Hsh|cbn -[Z.max]; lia|done..]. }
  destruct Hl1 as (Hl1 & Hs1 & Hla1 & Hap1). clearbody l1.
  set (ps := match cfg_peers c with Some ps => ps | None => _ end).
  assert (Heq : ps = peers).
  { subst ps. destruct (cfg_peers c); [done|]. destruct Hps as (? & ? & Hi' & -> & _).
    rewrite Hi in Hi'. by injection Hi' as <- <-. }
  rewrite Heq. apply wp_ret. split_and!; try done; [|exists hs, cs; by split_and!].
  split_and!; cbn; try done.
  - congruence.
  - apply foldl_insert_is_Some. by right.
  - intros p Hp. apply foldl_insert_is_Some. by right.
Qed.

End Safe.
