(* ===== verification/RaftProps.v ===== *)
(** * RaftProps: the correctness theorems of one Raft peer

    Safety of [newRaft], [tick] and [Step] (no panic, invariant kept, committed
    entries kept), the receiver rules of AppendEntries, the leader's commit rule
    and Leader Append-Only, each with a concrete run. *)

From stdpp Require Import base option list gmap strings tactics.
From S2P Require Import Prelude.
From S2P Require Import Eraftpb.
From S2P Require Import RaftStorage.
From S2P Require Import RaftLog.
From S2P Require Import Raft.
From S2P Require Import RaftFacts.
From S2P Require Import RaftInv.
From S2P Require Import RaftAppend.
From S2P Require Import RaftSafe.

(** ** A three-peer group on memory storage *)

Definition demo_config (id : Z) (st : MemoryStorage) : Config MemoryStorage :=
  mkConfig id (Some [1; 2; 3]) 10 1 (Some st) 0.
Definition demo_rand (_ : nat) : Z := 3.
(** A follower that [newRaft] starts on an empty storage. *)
Definition demo : Raft MemoryStorage :=
  match newRaft demo_rand (demo_config 1 MemoryStorage.NewMemoryStorage) with
  | Ret r => r
  | _ => mkRaft 0 0 0 0 0
           (mkRaftLog MemoryStorage.NewMemoryStorage 0 0 0 [] None 0 0)
           ∅ StateFollower ∅ [] 0 0 0 0 0 0 0 0 [] 0
  end.

Lemma demo_storage_wf : st_wf MemoryStorage.NewMemoryStorage.
Proof.
  split; [|by do 2 eexists|by vm_compute].
  split; [done|by vm_compute| |by vm_compute|by vm_compute].
  intros [|i] e He; cbn in He; simplify_eq; done.
Qed.

Lemma demo_config_ok id :
  id ∈ [1; 2; 3] -> config_ok (demo_config id MemoryStorage.NewMemoryStorage)
                      MemoryStorage.NewMemoryStorage [1; 2; 3].
Proof.
  intros Hid. split; [done| |apply demo_storage_wf|done|done].
  repeat (apply elem_of_cons in Hid as [->|Hid]; [done|]). by apply elem_of_nil in Hid.
Qed.

Lemma demo_wf : raft_wf demo.
Proof.
  pose proof (newRaft_wp demo_rand _ _ _ (demo_config_ok 1 ltac:(by left))) as Hw.
  unfold demo. destruct (newRaft _ _); [apply Hw|done..].
Qed.

(** The leader of term 1 it becomes with one more vote. *)
Definition run_or {A} (o : outcome error A) (d : A) : A :=
  match o with Ret a => a | _ => d end.
Definition vote_from (p term : Z) : Message :=
  zero_Message <| m_MsgType := MsgRequestVoteResponse |> <| m_From := p |> <| m_Term := term |>.
Definition hup : Message := zero_Message.
Definition demo_leader : Raft MemoryStorage :=
  run_or (Step demo_rand (run_or (Step demo_rand demo hup) demo) (vote_from 2 1)) demo.

Lemma demo_room r : r_RaftLog r = r_RaftLog demo -> room (r_RaftLog r) 1.
Proof. intros ->. by vm_compute. Qed.

Lemma demo_leader_wf : raft_wf demo_leader.
Proof.
  unfold demo_leader.
  destruct (wp_inv _ _ (Step_safe_wp demo_rand demo hup demo_wf ltac:(by vm_compute)))
    as (r1 & H1 & Hw1 & _). rewrite H1. cbn [run_or].
  assert (Hm : msg_ok r1 (vote_from 2 1)).
  { revert H1. clear. intros H1. assert (r1 = run_or (Step demo_rand demo hup) demo) as ->.
    - by rewrite H1.
    - split; [by vm_compute|exact I]. }
  destruct (wp_inv _ _ (Step_safe_wp demo_rand r1 _ Hw1 Hm)) as (r2 & -> & Hw2 & _). exact Hw2.
Qed.

#[local] Opaque becomeCandidate requestVotes handleSnapshot handleAppendEntries
  handleVoteRequest handleVoteResponse handleHeartbeat handleHeartbeatResponse
  handleMsgPropose broadCastAE handleMsgAppendResponse handleLeaderTransfer sendHeartbeats
  sendAppend send.

Section Props.
Context {S : Type} `{HS : Storage S} `{HLaws : !StorageLaws S} (rand_Int : nat -> Z).
Implicit Types (r : Raft S) (m : Message) (l : RaftLog S).

(** C1. [Step] never panics: from a well-formed state a message satisfying [msg_ok] is handled, the
    new state is well formed and the commit index does not go down.  Every committed entry stays what
    it was, or an append message puts its own entry of the same index and term in its place; if the
    message satisfies the Log Matching property, all committed entries stay the same, their data
    included.  Only a snapshot past the whole log may replace the prefix. *)
Theorem Step_safe r m :
  raft_wf r -> msg_ok r m ->
  exists r', Step rand_Int r m = Ret r' /\ raft_wf r' /\ keeps (incoming m) (r_RaftLog r) (r_RaftLog r')
    /\ (log_matching (l_entries (r_RaftLog r)) (incoming m) -> keeps_same (r_RaftLog r) (r_RaftLog r')).
Proof.
  intros Hw Hm. destruct (wp_inv _ _ (Step_safe_wp rand_Int r m Hw Hm)) as (r' & Hr & Hw' & Hk).
  exists r'. split_and!; [done..|]. intros Hlm. by apply (keeps_exact (incoming m)).
Qed.

(** [tick] never panics on a well-formed state, keeps it well formed and only
    extends the log. *)
Theorem tick_safe r :
  raft_wf r -> room (r_RaftLog r) 1 ->
  exists r', tick rand_Int r = Ret r' /\ raft_wf r' /\ grows (r_RaftLog r) (r_RaftLog r').
Proof. intros Hw Hm. exact (wp_inv _ _ (tick_wp rand_Int r Hw Hm)). Qed.

(** [newRaft] on a well-formed storage and a valid configuration returns a
    well-formed follower whose hard state is the stored one. *)
Theorem newRaft_safe c st peers :
  config_ok c st peers ->
  exists r hs cs, newRaft rand_Int c = Ret r /\ raft_wf r /\ r_State r = StateFollower
    /\ r_peers r = peers /\ st_InitialState st = Ret (hs, cs)
    /\ GetHardState r = mkHardState (hs_Term hs) (hs_Vote hs) (hs_Commit hs) None.
Proof.
  intros Hc. destruct (wp_inv _ _ (newRaft_wp rand_Int c st peers Hc))
    as (r & Hr & Hw & Hs & _ & Hp & hs & cs & Hi & Hh & _).
  exists r, hs, cs. done.
Qed.

(** C2. An append message of a current leader whose previous entry is in the log is
    accepted: the new log is the one of the Raft paper's receiver rules, except that the entries
    of the message also replace those they match in index and term, which makes no difference
    when the message satisfies the Log Matching property; the commit index moves to the leader's
    but not past the last new entry, entries up to the old commit index and up to the new
    [stabled] mark are kept up to that same replacement, and the reply carries the new last index. *)
Theorem append_accepted r m :
  raft_wf r -> append_ok (r_RaftLog r) m -> m_CommitUse m = false -> r_Term r <= m_Term m ->
  log_term (r_RaftLog r) (m_Index m) = Some (m_LogTerm m) ->
  exists r', handleAppendEntries rand_Int r m = Ret r' /\ accepted r m r'.
Proof. intros. apply wp_inv. by apply handleAppendEntries_accepted. Qed.

(** An append message of an old term, or whose previous entry is not in the log,
    is refused: the log is untouched and the reply is a rejection with the peer's
    term. *)
Theorem append_refused r m :
  raft_wf r -> l_lastIdxOfSnapshot (r_RaftLog r) < two63 -> m_CommitUse m = false ->
  (r_Term r <= m_Term m -> log_term (r_RaftLog r) (m_Index m) <> Some (m_LogTerm m)) ->
  exists r', handleAppendEntries rand_Int r m = Ret r' /\ raft_wf r' /\
    r_RaftLog r' = r_RaftLog r /\ r_Term r' = Z.max (r_Term r) (m_Term m) /\
    exists reply, r_msgs r' = r_msgs r ++ [reply] /\ m_Reject reply = true
      /\ m_MsgType reply = MsgAppendResponse /\ m_To reply = m_From m
      /\ m_Term reply = r_Term r'.
Proof. intros. apply wp_inv. by apply handleAppendEntries_refused. Qed.

Lemma handleSnapshot_follower r m :
  wlp (handleSnapshot rand_Int r m) (fun r' => r' = r \/ r_State r' = StateFollower).
Proof.
  Transparent handleSnapshot send. unfold handleSnapshot.
  apply wlp_bind, wlp_deref. intros snap _. apply wlp_bind, wlp_deref. intros md _.
  zif; [by apply wlp_ret; left|]. apply wlp_bind, wlp_deref. intros cs _. apply wlp_bind.
  eapply wlp_mono; [apply becomeFollower_spec|]. intros r1 (_ & _ & Hs & _).
  apply wlp_ret. right. exact Hs.
Qed.
#[local] Opaque handleSnapshot send.

(** Leader Append-Only: whatever message it handles, a leader that is still
    leader afterwards has only appended entries to its log. *)
Theorem leader_append_only r m r' :
  raft_wf r -> msg_ok r m -> r_State r = StateLeader ->
  Step rand_Int r m = Ret r' -> r_State r' = StateLeader ->
  grows (r_RaftLog r) (r_RaftLog r').
Proof.
  intros Hw [Hroom Hok] Hst Hr.
  cut (wlp (Step rand_Int r m) (fun r' => r_State r' = StateLeader ->
         grows (r_RaftLog r) (r_RaftLog r'))). { rewrite Hr. intros Hx. exact Hx. }
  assert (Hgood : forall o : outcome error (Raft S), wp o (good r) -> wlp o (fun r' =>
    r_State r' = StateLeader -> grows (r_RaftLog r) (r_RaftLog r'))).
  { intros o Ho. destruct (wp_inv _ _ Ho) as (x & -> & _ & Hg). apply wlp_ret. by intros _. }
  clear Hr r'. apply (Step_cases rand_Int (fun o => wlp o (fun r' =>
    r_State r' = StateLeader -> grows (r_RaftLog r) (r_RaftLog r')))).
  - intros _. eapply wlp_mono; [apply handleSnapshot_follower|].
    intros r' [->|Hf] Hl; [reflexivity|congruence].
  - intros Hm. rewrite Hm in Hok.
    destruct (wp_inv _ _ (handleAppendEntries_cases rand_Int r m Hw Hok)) as (r' & -> & Hc).
    apply wlp_ret. intros Hl. destruct Hc as [[_ Hg]|Hacc]; [exact Hg|].
    destruct (ac_role _ _ _ Hacc) as (_ & Hf & _). congruence.
  - intros Hns. destruct (Hns Hst).
  - intros _. by apply Hgood, handleVoteRequest_wp.
  - intros _. by apply Hgood, handleHeartbeat_wp.
  - intros Hc. rewrite Hst in Hc. discriminate.
  - intros _ _. apply wlp_ret. intros _.
    set (r1 := r <| r_heartbeatElapsed := 0 |>).
    exact (sends_grows r1 _ (sendHeartbeats_sends r1)).
  - intros _ Hm. rewrite Hm in Hok. apply Hgood, wp_bind.
    eapply wp_mono; [by apply handleMsgPropose_wp|]. intros r1 [Hg _].
    eapply wp_mono; [apply broadCastAE_wp, Hg|]. intros r2. by apply good_sends.
  - intros _ Hm. rewrite Hm in Hok. destruct (Hok Hst).
    by apply Hgood, handleMsgAppendResponse_wp.
  - intros _ Hm. rewrite Hm in Hok. by apply Hgood, handleHeartbeatResponse_wp, Hok.
  - intros _ _. by apply Hgood, handleLeaderTransfer_wp.
  - apply wlp_ret. intros _. reflexivity.
Qed.

(** [peers] has a majority of members that hold the log up to [i]: this peer, or
    one whose recorded match index reaches [i]. *)
Definition quorum_matched (r : Raft S) (i : Z) : Prop :=
  exists Q, NoDup Q /\ (forall p, p ∈ Q -> p ∈ r_peers r) /\ len (r_peers r) / 2 < len Q
    /\ forall p, p ∈ Q -> p = r_id r \/
         exists pr, r_Prs r !! p = Some pr /\ i <= pr_Match pr.

Lemma foldl_send_Prs {B} r (f : Raft S -> B -> Message) xs :
  core (foldl (fun r p => send r (f r p)) r xs) = core r
  /\ r_Prs (foldl (fun r p => send r (f r p)) r xs) = r_Prs r.
Proof. by apply (foldl_inv _ (fun x => core x = core r /\ r_Prs x = r_Prs r)). Qed.

Lemma matched_quorum r from idx others pr :
  NoDup (r_peers r) -> from ∈ r_peers r -> r_id r ∈ r_peers r -> from <> r_id r ->
  r_Prs r !! from = Some pr -> idx <= pr_Match pr ->
  others `sublist_of` r_peers r ->
  (forall p, p ∈ others -> p <> from /\ p <> r_id r /\
     exists pr, r_Prs r !! p = Some pr /\ idx <= pr_Match pr) ->
  len (r_peers r) / 2 < 2 + len others -> quorum_matched r idx.
Proof.
  intros Hnd Hf Hid Hne Hpr Hm Hsub Hoth Hlen. exists (r_id r :: from :: others). split_and!.
  - apply list.NoDup_cons. split.
    + intros [?|Hin]%elem_of_cons; [congruence|]. by apply Hoth in Hin as (_ & ? & _).
    + apply list.NoDup_cons. split; [|by eapply sublist_NoDup].
      intros Hin. by apply Hoth in Hin as (? & _).
  - intros p [->|[->|Hp]%elem_of_cons]%elem_of_cons; [done|done|].
    eapply elem_of_submseteq; [exact Hp|by apply sublist_submseteq].
  - rewrite !len_cons. lia.
  - intros p [->|[->|Hp]%elem_of_cons]%elem_of_cons; [by left|right; eauto|].
    right. apply Hoth, Hp.
Qed.

Lemma Step_appendResponse r m :
  r_State r = StateLeader -> m_MsgType m = MsgAppendResponse ->
  Step rand_Int r m = handleMsgAppendResponse r m.
Proof.
  intros Hst Hm. change (Step rand_Int r m) with (StepWith rand_Int (StepF rand_Int 1) r m).
  unfold StepWith. by rewrite Hst, Hm.
Qed.

Lemma quorum_matched_frame r r' i :
  core r' = core r -> r_Prs r' = r_Prs r -> quorum_matched r i -> quorum_matched r' i.
Proof.
  intros Hc Hp. injection Hc as Hid _ _ _ _ _ _ _ _ _ _ _ _ _ Hps _.
  unfold quorum_matched. by rewrite Hid, Hps, Hp.
Qed.

(** A response that raises the commit index. *)
Definition commits (r : Raft S) (m : Message) (r' : Raft S) : Prop :=
  l_committed (r_RaftLog r') = m_Index m /\
  (exists e, entry_at (r_RaftLog r) (m_Index m) = Some e /\ r_Term r <= e_Term e) /\
  quorum_matched r' (m_Index m).

Lemma response_commits r m :
  raft_wf r -> NoDup (r_peers r) -> r_id r ∈ r_peers r -> m_From m ∈ r_peers r ->
  m_From m <> r_id r -> m_Index m <= LastIndex (r_RaftLog r) -> m_Reject m = false ->
  wlp (handleMsgAppendResponse r m) (fun r' =>
    l_committed (r_RaftLog r) < l_committed (r_RaftLog r') -> commits r m r').
Proof.
  Transparent handleMsgAppendResponse.
  intros Hw Hnd Hid Hf Hne Hidx Hrej. unfold handleMsgAppendResponse. rewrite Hrej. cbn [negb].
  apply wlp_bind, wlp_deref. intros p Hp. zif; [apply wlp_ret; lia|].
  destruct (updProgress_eq r (m_From m) (fun p => p <| pr_Match := m_Index m |>
             <| pr_Next := m_Index m ⊞ 1 |>) p Hw Hp) as [-> Hw1].
  set (r1 := r <| r_Prs := _ |>) in *. set (r2 := if _ && _ then _ else r1).
  assert (Hr2 : raft_wf r2 /\ core r2 = core r1 /\ r_RaftLog r2 = r_RaftLog r
                /\ r_Prs r2 = r_Prs r1) by (subst r2; destruct (_ && _); done).
  clearbody r2. destruct Hr2 as (Hw2 & Hc2 & Hl2 & Hp2). rewrite Hl2.
  zif; [apply wlp_ret; change (r_RaftLog (send r2 ?[m])) with (r_RaftLog r2); rewrite Hl2; lia|].
  assert (Hl := raft_wf_log _ Hw). pose proof (lw_applied _ Hl).
  destruct (entry_at_total (r_RaftLog r) (m_Index m)) as (e & He & _); [apply Hl|lia|].
  rewrite realIdx_in by (apply Hl || lia). rewrite (index_realIdx _ _ _ (lw_shape _ Hl) He).
  assert (Ht2 : r_Term r2 = r_Term r) by (by injection Hc2).
  zif; [apply wlp_ret; rewrite Hl2; lia|].
  pose proof (matchedPeers_wp r2 (m_From m) (m_Index m) (r_peers r2)
                (fun q => raft_wf_peer r2 q Hw2)) as Hmp.
  destruct (wp_inv _ _ Hmp) as (others & -> & Hsub & Hoth).
  zif; apply wlp_ret; [|rewrite Hl2; lia]. intros _.
  set (r3 := r2 <| r_RaftLog ::= _ |>).
  destruct (foldl_send_Prs r3 (fun r p => commitMsg r p (m_Index m)) (m_From m :: others))
    as [Hc4 Hp4].
  split_and!; [by rewrite foldl_send_log|exists e; split; [done|lia]|].
  apply (quorum_matched_frame r2); [exact Hc4|exact Hp4|].
  injection Hc2 as Hid2 _ _ _ _ _ _ _ _ _ _ _ _ _ Hps2 _.
  eapply (matched_quorum r2 (m_From m) (m_Index m) others); try (rewrite ?Hps2, ?Hid2; done).
  - rewrite Hp2. cbn. by rewrite lookup_insert_eq.
  - cbn. lia.
  - done.
  - exact Hoth.
  - done.
Qed.
#[local] Opaque handleMsgAppendResponse.

(** C3. The leader's commit rule: when an append response raises the commit index,
    it is raised to the acknowledged index, the entry there is not of an earlier
    term, and a majority of the peers, this one included, hold the log up to it. *)
Theorem leader_commit_rule r m r' :
  raft_wf r -> NoDup (r_peers r) -> r_id r ∈ r_peers r -> m_From m ∈ r_peers r ->
  m_From m <> r_id r -> m_Index m <= LastIndex (r_RaftLog r) -> m_Reject m = false ->
  r_State r = StateLeader -> m_MsgType m = MsgAppendResponse ->
  Step rand_Int r m = Ret r' -> l_committed (r_RaftLog r) < l_committed (r_RaftLog r') ->
  commits r m r'.
Proof.
  intros ? ? ? ? ? ? ? Hst Hm. rewrite Step_appendResponse by done. intros Hr.
  eapply wlp_inv in Hr; [|by apply response_commits]. exact Hr.
Qed.

End Props.

(** ** Concrete runs *)

(** An append of two entries of term 1 from peer 2, and one with a wrong previous
    entry. *)
Definition demo_append (prev : Z) : Message :=
  zero_Message <| m_MsgType := MsgAppend |> <| m_From := 2 |> <| m_Term := 1 |>
    <| m_Index := prev |> <| m_LogTerm := 0 |> <| m_Commit := 1 |>
    <| m_Entries := [zero_Entry <| e_Index := prev + 1 |> <| e_Term := 1 |>;
                     zero_Entry <| e_Index := prev + 2 |> <| e_Term := 1 |>] |>.

Lemma demo_append_ok : append_ok (r_RaftLog demo) (demo_append 0).
Proof.
  split.
  - intros [|[|i]] e He; cbn in He; simplify_eq; done.
  - by vm_compute.
  - assert (l_committed (r_RaftLog demo) = 0) as -> by (by vm_compute).
    assert (l_lastIdxOfSnapshot (r_RaftLog demo) = 0) as -> by (by vm_compute). lia.
  - by vm_compute.
Qed.

Lemma msg_ok_append {S} (r : Raft S) m :
  room (r_RaftLog r) 1 -> m_MsgType m = MsgAppend -> m_CommitUse m = false ->
  append_ok (r_RaftLog r) m -> msg_ok r m.
Proof. intros Hr Hm Hc Ha. unfold msg_ok, append_msg_ok. by rewrite Hm, Hc. Qed.

(** The follower after that append, which committed the first entry, and the same append with other data. *)
Definition demo_appended : Raft MemoryStorage := run_or (Step demo_rand demo (demo_append 0)) demo.
Definition demo_other (data : list Z) : Message :=
  (demo_append 0) <| m_Entries := [zero_Entry <| e_Index := 1 |> <| e_Term := 1 |> <| e_Data := Some data |>;
                                 zero_Entry <| e_Index := 2 |> <| e_Term := 1 |>] |>.
Lemma demo_appended_wf : raft_wf demo_appended.
Proof.
  assert (Hm : msg_ok demo (demo_append 0)) by (apply msg_ok_append; [by vm_compute|done|done|exact demo_append_ok]).
  destruct (wp_inv _ _ (Step_safe_wp demo_rand demo (demo_append 0) demo_wf Hm)) as (r & Hr & Hw & _).
  unfold demo_appended. by rewrite Hr.
Qed.
Lemma demo_append_again_ok : append_ok (r_RaftLog demo_appended) (demo_append 0).
Proof.
  split; [apply demo_append_ok|by vm_compute| |by vm_compute].
  intros e He _. repeat (apply elem_of_cons in He as [->|He]; [by vm_compute|]). by apply elem_of_nil in He.
Qed.
Lemma demo_append_again_matching : log_matching (l_entries (r_RaftLog demo_appended)) (incoming (demo_append 0)).
Proof. exact (log_matching_self 1 (m_Entries (demo_append 0)) (ao_ents _ _ demo_append_ok)). Qed.

Lemma Step_safe_witness :
  l_committed (r_RaftLog demo_appended) = 1 /\
  exists r', Step demo_rand demo_appended (demo_append 0) = Ret r' /\ raft_wf r'
    /\ keeps_same (r_RaftLog demo_appended) (r_RaftLog r').
Proof.
  split; [by vm_compute|].
  destruct (Step_safe demo_rand demo_appended (demo_append 0)) as (r' & Hr & Hw & _ & Hk).
  - exact demo_appended_wf.
  - apply msg_ok_append; [by vm_compute|done|done|exact demo_append_again_ok].
  - exists r'. split; [exact Hr|]. split; [exact Hw|]. exact (Hk demo_append_again_matching).
Defined.

(** Without the Log Matching property a committed entry loses its data: the log takes the entry of the message. *)
Theorem committed_data_overwritten :
  match Step demo_rand demo_appended (demo_other [7]) with
  | Ret r' => entry_at (r_RaftLog demo_appended) 1 = Some (zero_Entry <| e_Index := 1 |> <| e_Term := 1 |>)
              /\ l_committed (r_RaftLog demo_appended) = 1
              /\ entry_at (r_RaftLog r') 1 = Some (zero_Entry <| e_Index := 1 |> <| e_Term := 1 |> <| e_Data := Some [7] |>)
  | _ => False
  end.
Proof. vm_compute. done. Qed.

Lemma tick_safe_witness :
  exists r', tick demo_rand demo_leader = Ret r' /\ raft_wf r'
    /\ grows (r_RaftLog demo_leader) (r_RaftLog r').
Proof.
  apply (tick_safe demo_rand demo_leader); [apply demo_leader_wf|by vm_compute].
Defined.

Lemma newRaft_safe_witness :
  exists r hs cs, newRaft demo_rand (demo_config 2 MemoryStorage.NewMemoryStorage) = Ret r
    /\ raft_wf r /\ r_State r = StateFollower /\ r_peers r = [1; 2; 3]
    /\ st_InitialState MemoryStorage.NewMemoryStorage = Ret (hs, cs)
    /\ GetHardState r = mkHardState (hs_Term hs) (hs_Vote hs) (hs_Commit hs) None.
Proof.
  apply (newRaft_safe demo_rand (demo_config 2 MemoryStorage.NewMemoryStorage)
           MemoryStorage.NewMemoryStorage [1; 2; 3]).
  apply demo_config_ok. by right; left.
Defined.

Lemma append_accepted_witness :
  exists r', handleAppendEntries demo_rand demo (demo_append 0) = Ret r'
    /\ accepted demo (demo_append 0) r'.
Proof.
  apply (append_accepted demo_rand demo (demo_append 0)).
  - apply demo_wf.
  - apply demo_append_ok.
  - done.
  - by vm_compute.
  - by vm_compute.
Defined.

Lemma append_refused_witness :
  exists r', handleAppendEntries demo_rand demo (demo_append 4) = Ret r'
    /\ r_RaftLog r' = r_RaftLog demo.
Proof.
  destruct (append_refused demo_rand demo (demo_append 4)) as (r' & Hr & _ & Hl & _).
  - apply demo_wf.
  - by vm_compute.
  - done.
  - intros _. by vm_compute.
  - by exists r'.
Defined.

(** A proposal of one entry, and the acknowledgement of the two entries by peer 2. *)
Definition demo_propose : Message :=
  zero_Message <| m_MsgType := MsgPropose |> <| m_From := 1 |> <| m_Entries := [zero_Entry] |>.
Definition demo_ack : Message :=
  zero_Message <| m_MsgType := MsgAppendResponse |> <| m_From := 2 |> <| m_Term := 1 |>
    <| m_Index := 1 |>.

Lemma leader_append_only_witness :
  grows (r_RaftLog demo_leader)
    (r_RaftLog (run_or (Step demo_rand demo_leader demo_propose) demo)).
Proof.
  apply (leader_append_only demo_rand demo_leader demo_propose).
  - apply demo_leader_wf.
  - split; by vm_compute.
  - by vm_compute.
  - by vm_compute.
  - by vm_compute.
Defined.

Lemma leader_commit_rule_witness :
  commits demo_leader demo_ack (run_or (Step demo_rand demo_leader demo_ack) demo).
Proof.
  apply (leader_commit_rule demo_rand demo_leader demo_ack).
  - apply demo_leader_wf.
  - vm_compute. repeat constructor; set_solver.
  - vm_compute. set_solver.
  - vm_compute. set_solver.
  - by vm_compute.
  - by vm_compute.
  - done.
  - by vm_compute.
  - done.
  - by vm_compute.
  - by vm_compute.
Defined.
