(* ===== verification/RawNode.v ===== *)
(** * RawNode: the interface between the Raft state machine and its user

    Models [raft/rawnode.go] and the helpers of [raft/util.go] it calls.  A [Ready]
    collects what the user has to persist, send and apply; [Advance] records that it
    did.  The user calls [Ready] and [Advance] in alternation, with messages stepped
    only in between. *)

From stdpp Require Import base option list gmap strings sorting tactics.
From S2P Require Import Prelude.
From S2P Require Import Wire.
From S2P Require Import Eraftpb.
From S2P Require Import EraftpbWire.
From S2P Require Import RaftStorage.
From S2P Require Import RaftLog.
From S2P Require Import Raft.

(** [IsEmptySnap], [IsLocalMsg], [IsResponseMsg]. *)
Definition IsEmptySnap (sp : option Snapshot) : bool :=
  match sp with
  | None => true
  | Some sn => match s_Metadata sn with None => true | Some md => sm_Index md =? 0 end
  end.
Definition IsLocalMsg (t : MessageType) : bool :=
  bool_decide (t = MsgHup) || bool_decide (t = MsgBeat).
Definition IsResponseMsg (t : MessageType) : bool :=
  bool_decide (t = MsgAppendResponse) || bool_decide (t = MsgRequestVoteResponse)
  || bool_decide (t = MsgHeartbeatResponse).

Definition SoftState_equal (st curSt : SoftState) : bool :=
  bool_decide (ss_RaftState st = ss_RaftState curSt) && (ss_Lead st =? ss_Lead curSt).

Record Ready := mkReady {
  rd_SoftState : option SoftState;
  rd_HardState : HardState;
  rd_Entries : list Entry;
  rd_Snapshot : Snapshot;
  rd_CommittedEntries : list Entry;
  rd_Messages : list Message;
}.
Definition IsHardStEmpty (rd : Ready) : bool := hs_Term (rd_HardState rd) =? 0.

Record RawNode (S : Type) := mkRawNode {
  rn_Raft : Raft S;
  rn_prevSoftState : SoftState;
  rn_prevHardState : HardState;
}.
Arguments mkRawNode {S}.
Arguments rn_Raft {S}.
Arguments rn_prevSoftState {S}.
Arguments rn_prevHardState {S}.
#[export] Instance set_rn_Raft {S} : Setter (@rn_Raft S) := fun g n =>
  mkRawNode (g (rn_Raft n)) (rn_prevSoftState n) (rn_prevHardState n).
#[export] Instance set_rn_prevSoftState {S} : Setter (@rn_prevSoftState S) := fun g n =>
  mkRawNode (rn_Raft n) (g (rn_prevSoftState n)) (rn_prevHardState n).
#[export] Instance set_rn_prevHardState {S} : Setter (@rn_prevHardState S) := fun g n =>
  mkRawNode (rn_Raft n) (rn_prevSoftState n) (g (rn_prevHardState n)).

Section RawNode.
Context {S : Type} `{Storage S} (rand_Int : nat -> Z).

Definition NewRawNode (config : Config S) : outcome error (RawNode S) :=
  let! raft := newRaft rand_Int config in
  Ret (mkRawNode raft (GetSoftState raft) (GetHardState raft)).

(** A method that only runs a Raft transition. *)
Definition onRaft (rn : RawNode S) (o : outcome error (Raft S)) : outcome error (RawNode S) :=
  let! r := o in Ret (rn <| rn_Raft := r |>).

Definition Tick (rn : RawNode S) : outcome error (RawNode S) :=
  onRaft rn (tick rand_Int (rn_Raft rn)).

Definition Campaign (rn : RawNode S) : outcome error (RawNode S) :=
  onRaft rn (Raft.Step rand_Int (rn_Raft rn) (zero_Message <| m_MsgType := MsgHup |>)).

Definition Propose (rn : RawNode S) (data : option (list Z)) : outcome error (RawNode S) :=
  let ent := zero_Entry <| e_Data := data |> in
  onRaft rn (Raft.Step rand_Int (rn_Raft rn)
    (zero_Message <| m_MsgType := MsgPropose |> <| m_From := r_id (rn_Raft rn) |>
                  <| m_Entries := [ent] |>)).

Definition ProposeConfChange (rn : RawNode S) (cc : ConfChange) : outcome error (RawNode S) :=
  match ConfChange_Marshal cc with
  | Ret data =>
    let ent := zero_Entry <| e_EntryType := EntryType_EntryConfChange |>
                          <| e_Data := Some data |> in
    onRaft rn (Raft.Step rand_Int (rn_Raft rn)
      (zero_Message <| m_MsgType := MsgPropose |> <| m_Entries := [ent] |>))
  | Err _ => Err (ErrMsg "marshal")
  | Panic => Panic
  | OutOfFuel => OutOfFuel
  end.

(** [nodes]: the ids of the progress map, sorted. *)
Definition nodes (r : Raft S) : list Z := merge_sort Z.le (fst <$> map_to_list (r_Prs r)).

Definition ApplyConfChange (rn : RawNode S) (cc : ConfChange)
    : outcome error (RawNode S * ConfState) :=
  if cc_NodeId cc =? None_id then Ret (rn, mkConfState (nodes (rn_Raft rn)) None) else
  let! r :=
    match cc_ChangeType cc with
    | ConfChangeType_AddNode => Ret (addNode (rn_Raft rn) (cc_NodeId cc))
    | ConfChangeType_RemoveNode => removeNode (rn_Raft rn) (cc_NodeId cc)
    | _ => Panic
    end in
  Ret (rn <| rn_Raft := r |>, mkConfState (nodes r) None).

(** Local messages and responses of unknown peers are refused. *)
Definition StepNode (rn : RawNode S) (m : Message) : outcome error (RawNode S) :=
  if IsLocalMsg (m_MsgType m) then Err ErrStepLocalMsg else
  match r_Prs (rn_Raft rn) !! m_From m, IsResponseMsg (m_MsgType m) with
  | None, true => Err ErrStepPeerNotFound
  | _, _ => onRaft rn (Raft.Step rand_Int (rn_Raft rn) m)
  end.

Definition ReadyNode (rn : RawNode S) : outcome error (RawNode S * Ready) :=
  let r := rn_Raft rn in
  let! entries := unstableEntries (r_RaftLog r) in
  let! committed := nextEnts (r_RaftLog r) in
  let messages := r_msgs r in
  let r := if len (r_msgs r) >? 0 then r <| r_msgs := [] |> else r in
  let curSoftSt := GetSoftState r in
  let softChanged := negb (SoftState_equal (rn_prevSoftState rn) curSoftSt) in
  let curHardSt := GetHardState r in
  let hardChanged := negb (HardState_Equal (rn_prevHardState rn) curHardSt) in
  let pending := l_pendingSnapshot (r_RaftLog r) in
  let snapshot := if IsEmptySnap pending then zero_Snapshot else default zero_Snapshot pending in
  let r := if IsEmptySnap pending then r
           else r <| r_RaftLog ::= fun l => l <| l_pendingSnapshot := None |> |> in
  Ret (mkRawNode r
         (if softChanged then curSoftSt else rn_prevSoftState rn)
         (if hardChanged then curHardSt else rn_prevHardState rn),
       mkReady (if softChanged then Some curSoftSt else None)
         (if hardChanged then curHardSt else zero_HardState)
         entries snapshot committed messages).

Definition HasReady (rn : RawNode S) : outcome error bool :=
  let r := rn_Raft rn in
  if negb (SoftState_equal (GetSoftState r) (rn_prevSoftState rn)) then Ret true else
  let hardSt := GetHardState r in
  if negb (HardState_IsEmpty hardSt) && negb (HardState_Equal hardSt (rn_prevHardState rn))
  then Ret true else
  if negb (IsEmptySnap (l_pendingSnapshot (r_RaftLog r))) then Ret true else
  if (len (r_msgs r) >? 0) || hasUnstableEnts (r_RaftLog r) then Ret true else
  hasNextEnts (r_RaftLog r).

Definition Advance (rn : RawNode S) (rd : Ready) : outcome error (RawNode S) :=
  let l := r_RaftLog (rn_Raft rn) in
  let l := match list.last (rd_Entries rd) with
           | Some e => l <| l_stabled := e_Index e |> | None => l end in
  let l := match list.last (rd_CommittedEntries rd) with
           | Some e => l <| l_applied := e_Index e |> | None => l end in
  let! l := maybeCompact l in
  Ret (rn <| rn_Raft ::= fun r => r <| r_RaftLog := l |> |>).

Definition GetProgress (rn : RawNode S) : gmap Z Progress :=
  if decide (r_State (rn_Raft rn) = StateLeader) then r_Prs (rn_Raft rn) else ∅.

(** The error of [Step] is dropped. *)
Definition TransferLeader (rn : RawNode S) (transferee : Z) : outcome error (RawNode S) :=
  ignore_err rn (onRaft rn (Raft.Step rand_Int (rn_Raft rn)
    (zero_Message <| m_MsgType := MsgTransferLeader |> <| m_From := transferee |>))).

End RawNode.
