(* ===== verification/RawNodeProps.v ===== *)
(** * RawNodeProps: the Ready/Advance protocol

    After one [Ready] and its [Advance] nothing is left to do ([HasReady] is false),
    and over any run of messages, ticks and Ready/Advance rounds the entries handed
    out to be applied are the log entries after the applied index, in order, each
    exactly once. *)

From stdpp Require Import base option list gmap strings sorting tactics.
From S2P Require Import Prelude.
From S2P Require Import Wire.
From S2P Require Import Eraftpb.
From S2P Require Import EraftpbWire.
From S2P Require Import RaftStorage.
From S2P Require Import RaftLog.
From S2P Require Import Raft.
From S2P Require Import RaftFacts.
From S2P Require Import RaftInv.
From S2P Require Import RaftAppend.
From S2P Require Import RaftSafe.
From S2P Require Import RaftProps.
From S2P Require Import RawNode.

Section RawNodeProps.
Context {S : Type} `{HS : Storage S} `{HLaws : !StorageLaws S} (rand_Int : nat -> Z).
Implicit Types (r : Raft S) (m : Message) (l : RaftLog S) (rn : RawNode S).

(** *** Compaction *)

(** What the storage may have dropped: at most what is applied, and not the whole
    log. *)
Definition compact_ok (l : RaftLog S) (applied : Z) : Prop :=
  st_first (l_storage l) - 1 <= applied /\
  (st_first (l_storage l) <= LastIndex l \/ st_first (l_storage l) - 1 <= l_lastIdxOfSnapshot l).

Definition compacted (l l' : RaftLog S) : Prop :=
  let n := Z.max (l_lastIdxOfSnapshot l) (st_first (l_storage l) - 1) in
  l_lastIdxOfSnapshot l' = n /\
  l_entries l' = drop (Z.to_nat (n - l_lastIdxOfSnapshot l)) (l_entries l) /\
  Term l n = Ret (l_lastTermOfSnapshot l') /\
  l_storage l' = l_storage l /\ l_applied l' = l_applied l /\ l_committed l' = l_committed l /\
  l_stabled l' = l_stabled l /\ l_pendingSnapshot l' = l_pendingSnapshot l.

Lemma compacted_last l l' :
  log_shape l -> compacted l l' -> LastIndex l < two64 ->
  l_lastIdxOfSnapshot l' <= LastIndex l -> log_shape l' /\ LastIndex l' = LastIndex l.
Proof.
  intros Hl (Hn & He & _) Hb Hle. pose proof (LastIndex_shape l Hl) as HLi.
  assert (Hge : l_lastIdxOfSnapshot l <= l_lastIdxOfSnapshot l') by lia.
  rewrite <- Hn in He. destruct Hl as [H0 Hc Hr].
  assert (Hlen : len (l_entries l') = LastIndex l - l_lastIdxOfSnapshot l').
  { rewrite He, len_drop. lia. }
  assert (Hs : log_shape l').
  { split; [lia| |lia]. rewrite He.
    replace (l_lastIdxOfSnapshot l' + 1) with (l_lastIdxOfSnapshot l + 1 +
      Z.of_nat (Z.to_nat (l_lastIdxOfSnapshot l' - l_lastIdxOfSnapshot l))) by lia.
    by apply contiguous_drop. }
  split; [done|]. rewrite LastIndex_shape by done. lia.
Qed.

Lemma maybeCompact_wp l :
  log_wf l -> st_wf (l_storage l) -> compact_ok l (l_applied l) -> l_stabled l = LastIndex l ->
  wp (maybeCompact l) (fun l' => log_wf l' /\ compacted l l' /\ LastIndex l' = LastIndex l).
Proof.
  intros Hl Hst [Hap Hfst] Hstb. destruct (st_bounds _ Hst) as (Hf1 & _ & Hf2).
  pose proof (lw_shape _ Hl) as Hsh. pose proof (ls_snap _ Hsh). pose proof (ls_room _ Hsh).
  pose proof (LastIndex_shape _ Hsh). pose proof (lw_applied _ Hl). pose proof (lw_committed _ Hl).
  assert (Hwf : forall l', compacted l l' -> log_wf l' /\ compacted l l' /\ LastIndex l' = LastIndex l).
  { intros l' Hc. destruct (compacted_last l l') as [Hs' HL']; [done|done|lia|destruct Hc; lia|].
    split_and!; [|done|done]. destruct Hc as (Hn & _ & _ & _ & Ha & Hcm & Hsb & _).
    split; [done|..]; lia. }
  unfold maybeCompact. rewrite st_FirstIndex_law by done. cbn [must].
  rewrite u64_sub_small by (unfold is_u64; lia). zif.
  - destruct (Term_total l (st_first (l_storage l) - 1)) as [t Ht]; [done|lia|]. rewrite Ht.
    rewrite realIdx_in by (done || lia). rewrite slice_from_ok by lia.
    apply wp_ret, Hwf. unfold compacted. cbn -[Z.max Term].
    rewrite Z.max_r by lia. split_and!; try done. f_equal. lia.
  - apply wp_ret, Hwf. unfold compacted. rewrite Z.max_l, Z.sub_diag, drop_0 by lia.
    split_and!; try done. by apply Term_snap.
Qed.

(** *** One round *)

Lemma last_contiguous lo (es : list Entry) e :
  contiguous lo es -> list.last es = Some e -> e_Index e = lo + len es - 1.
Proof.
  intros Hc He. rewrite last_lookup in He. apply lookup_lt_Some in He as Hlt.
  apply Hc in He as ->. unfold len. lia.
Qed.

Lemma SoftState_equal_refl s : SoftState_equal s s = true.
Proof. unfold SoftState_equal. by rewrite bool_decide_true, Z.eqb_refl. Qed.
Lemma SoftState_equal_sym s s' : SoftState_equal s s' = SoftState_equal s' s.
Proof. unfold SoftState_equal. rewrite Z.eqb_sym. f_equal. by apply bool_decide_ext. Qed.
Lemma HardState_Equal_refl s : HardState_Equal s s = true.
Proof. by apply HardState_Equal_spec. Qed.
Lemma HardState_Equal_sym s s' : HardState_Equal s s' = HardState_Equal s' s.
Proof.
  apply eq_true_iff_eq. rewrite !HardState_Equal_spec. intuition.
Qed.

(** What [Ready] hands out and leaves behind. *)
Record ready_spec (rn rn' : RawNode S) (rd : Ready) : Prop := {
  rs_entries : let l := r_RaftLog (rn_Raft rn) in rd_Entries rd
    = drop (Z.to_nat (l_stabled l - l_lastIdxOfSnapshot l)) (l_entries l);
  rs_committed : let l := r_RaftLog (rn_Raft rn) in rd_CommittedEntries rd
    = take (Z.to_nat (l_committed l - l_applied l))
        (drop (Z.to_nat (l_applied l - l_lastIdxOfSnapshot l)) (l_entries l));
  rs_messages : rd_Messages rd = r_msgs (rn_Raft rn) /\ r_msgs (rn_Raft rn') = [];
  rs_soft : SoftState_equal (GetSoftState (rn_Raft rn')) (rn_prevSoftState rn') = true;
  rs_hard : HardState_Equal (GetHardState (rn_Raft rn')) (rn_prevHardState rn') = true;
  rs_snap : IsEmptySnap (l_pendingSnapshot (r_RaftLog (rn_Raft rn'))) = true;
  rs_log : exists ps, r_RaftLog (rn_Raft rn') = (r_RaftLog (rn_Raft rn)) <| l_pendingSnapshot := ps |>;
  rs_wf : raft_wf (rn_Raft rn');
}.

Lemma log_wf_pending l ps : log_wf l -> log_wf (l <| l_pendingSnapshot := ps |>).
Proof. intros [[] ? ? ?]. split; [split|..]; done. Qed.

Lemma raft_wf_pending r ps :
  raft_wf r -> raft_wf (r <| r_RaftLog ::= fun l => l <| l_pendingSnapshot := ps |> |>).
Proof. intros (Hl & Hst & Ht & Hid & Hps). split_and!; try done. by apply log_wf_pending. Qed.

Lemma ReadyNode_wp rn :
  raft_wf (rn_Raft rn) -> wp (ReadyNode rn) (fun p => ready_spec rn (fst p) (snd p)).
Proof.
  intros Hw. pose proof (raft_wf_log _ Hw) as Hl. unfold ReadyNode.
  rewrite unstableEntries_ok, nextEnts_ok by done. apply wp_ret.
  set (r1 := if len _ >? 0 then _ else _).
  assert (Hr1 : r_RaftLog r1 = r_RaftLog (rn_Raft rn) /\ r_msgs r1 = [] /\ raft_wf r1
                /\ GetSoftState r1 = GetSoftState (rn_Raft rn)
                /\ GetHardState r1 = GetHardState (rn_Raft rn)).
  { subst r1. zif; [done|]. split_and!; try done. apply len_0_nil.
    pose proof (len_nonneg (r_msgs (rn_Raft rn))). lia. }
  clearbody r1. destruct Hr1 as (Hl1 & Hm1 & Hw1 & Hs1 & Hh1).
  split; cbn [fst snd rn_Raft rn_prevSoftState rn_prevHardState rd_Entries rd_CommittedEntries
    rd_Messages].
  - done.
  - done.
  - split; [done|]. by destruct (IsEmptySnap (l_pendingSnapshot (r_RaftLog r1))).
  - rewrite SoftState_equal_sym.
    destruct (SoftState_equal (rn_prevSoftState rn) (GetSoftState r1)) eqn:E; cbn [negb];
      destruct (IsEmptySnap (l_pendingSnapshot (r_RaftLog r1))); try done; apply SoftState_equal_refl.
  - rewrite HardState_Equal_sym.
    destruct (HardState_Equal (rn_prevHardState rn) (GetHardState r1)) eqn:E; cbn [negb];
      destruct (IsEmptySnap (l_pendingSnapshot (r_RaftLog r1))); try done; apply HardState_Equal_refl.
  - destruct (IsEmptySnap (l_pendingSnapshot (r_RaftLog r1))) eqn:E; [exact E|done].
  - destruct (IsEmptySnap (l_pendingSnapshot (r_RaftLog r1))).
    + exists (l_pendingSnapshot (r_RaftLog (rn_Raft rn))). rewrite Hl1. by destruct (r_RaftLog _).
    + exists None. cbn. by rewrite Hl1.
  - destruct (IsEmptySnap (l_pendingSnapshot (r_RaftLog r1))); [done|by apply raft_wf_pending].
Qed.

(** The state after the round: everything is stable and applied. *)
Record round_done (rn rn' : RawNode S) : Prop := {
  dn_wf : raft_wf (rn_Raft rn');
  dn_quiet : HasReady rn' = Ret false;
  dn_last : LastIndex (r_RaftLog (rn_Raft rn')) = LastIndex (r_RaftLog (rn_Raft rn));
  dn_commit : l_committed (r_RaftLog (rn_Raft rn')) = l_committed (r_RaftLog (rn_Raft rn));
  dn_applied : l_applied (r_RaftLog (rn_Raft rn')) = l_committed (r_RaftLog (rn_Raft rn));
  dn_stabled : l_stabled (r_RaftLog (rn_Raft rn')) = LastIndex (r_RaftLog (rn_Raft rn));
}.

(** The marks [Advance] sets. *)
Lemma advance_marks l :
  log_wf l ->
  let ents := drop (Z.to_nat (l_stabled l - l_lastIdxOfSnapshot l)) (l_entries l) in
  let committed := take (Z.to_nat (l_committed l - l_applied l))
        (drop (Z.to_nat (l_applied l - l_lastIdxOfSnapshot l)) (l_entries l)) in
  (match list.last ents with Some e => e_Index e | None => l_stabled l end) = LastIndex l /\
  (match list.last committed with Some e => e_Index e | None => l_applied l end) = l_committed l /\
  contiguous (l_applied l + 1) committed /\ len committed = l_committed l - l_applied l.
Proof.
  intros [Hsh Ha Hc Hst]. pose proof (LastIndex_shape _ Hsh) as HLi.
  pose proof (contiguous_drop _ (Z.to_nat (l_stabled l - l_lastIdxOfSnapshot l)) _ (ls_contig _ Hsh)) as H1.
  pose proof (contiguous_take _ (Z.to_nat (l_committed l - l_applied l)) _
    (contiguous_drop _ (Z.to_nat (l_applied l - l_lastIdxOfSnapshot l)) _ (ls_contig _ Hsh))) as H2.
  replace (l_lastIdxOfSnapshot l + 1 + Z.of_nat (Z.to_nat (l_applied l - l_lastIdxOfSnapshot l)))
    with (l_applied l + 1) in H2 by lia.
  intros ents committed.
  assert (Hlen1 : len ents = LastIndex l - l_stabled l) by (subst ents; rewrite len_drop; lia).
  assert (Hlen2 : len committed = l_committed l - l_applied l)
    by (subst committed; rewrite len_take, len_drop; lia).
  split_and!; [| |exact H2|exact Hlen2].
  - destruct (list.last ents) as [e|] eqn:He.
    + rewrite (last_contiguous _ _ _ H1 He). fold ents. lia.
    + apply last_None in He. rewrite He, len_nil in Hlen1. lia.
  - destruct (list.last committed) as [e|] eqn:He.
    + rewrite (last_contiguous _ _ _ H2 He). fold committed. lia.
    + apply last_None in He. rewrite He, len_nil in Hlen2. lia.
Qed.

Lemma marks_wf l : log_wf l -> log_wf (l <| l_stabled := LastIndex l |> <| l_applied := l_committed l |>).
Proof.
  intros [Hsh Ha Hc Hst]. split; [by destruct Hsh|cbn; lia|done|].
  change (l_lastIdxOfSnapshot l <= LastIndex l <= LastIndex l). lia.
Qed.

Lemma mark_stabled l ents s :
  (match list.last ents with Some e => e_Index e | None => l_stabled l end) = s ->
  (match list.last ents with Some e => l <| l_stabled := e_Index e |> | None => l end)
  = l <| l_stabled := s |>.
Proof. intros <-. destruct (list.last ents); [done|]. by destruct l. Qed.
Lemma mark_applied l ents s :
  (match list.last ents with Some e => e_Index e | None => l_applied l end) = s ->
  (match list.last ents with Some e => l <| l_applied := e_Index e |> | None => l end)
  = l <| l_applied := s |>.
Proof. intros <-. destruct (list.last ents); [done|]. by destruct l. Qed.

Lemma Advance_eq rn rn1 rd :
  raft_wf (rn_Raft rn) -> ready_spec rn rn1 rd ->
  let l1 := r_RaftLog (rn_Raft rn1) in
  Advance rn1 rd
  = let! x := maybeCompact (l1 <| l_stabled := LastIndex l1 |> <| l_applied := l_committed l1 |>) in
    Ret (rn1 <| rn_Raft ::= fun r => r <| r_RaftLog := x |> |>).
Proof.
  intros Hw Hrs l1. destruct (advance_marks _ (raft_wf_log _ Hw)) as (Hm1 & Hm2 & _).
  destruct (rs_log _ _ _ Hrs) as [ps Hl1]. unfold Advance. fold l1.
  cbn zeta in Hm1, Hm2. rewrite <- (rs_entries _ _ _ Hrs) in Hm1.
  rewrite <- (rs_committed _ _ _ Hrs) in Hm2.
  assert (Heq : l_stabled l1 = l_stabled (r_RaftLog (rn_Raft rn)) /\
    l_applied l1 = l_applied (r_RaftLog (rn_Raft rn)) /\
    l_committed l1 = l_committed (r_RaftLog (rn_Raft rn)) /\
    LastIndex l1 = LastIndex (r_RaftLog (rn_Raft rn))) by (unfold l1; by rewrite Hl1).
  destruct Heq as (Hs & Ha & Hc & HL). rewrite <- Hs, <- HL in Hm1. rewrite <- Ha, <- Hc in Hm2.
  rewrite (mark_stabled _ _ _ Hm1). by rewrite (mark_applied _ _ (l_committed l1)).
Qed.

Lemma raft_wf_withlog r l :
  raft_wf r -> log_wf l -> st_wf (l_storage l) -> raft_wf (r <| r_RaftLog := l |>).
Proof. intros (_ & _ & Ht & Hid & Hps) Hl Hst. split_and!; done. Qed.

Lemma HasReady_quiet rn :
  SoftState_equal (GetSoftState (rn_Raft rn)) (rn_prevSoftState rn) = true ->
  HardState_Equal (GetHardState (rn_Raft rn)) (rn_prevHardState rn) = true ->
  IsEmptySnap (l_pendingSnapshot (r_RaftLog (rn_Raft rn))) = true ->
  r_msgs (rn_Raft rn) = [] -> log_wf (r_RaftLog (rn_Raft rn)) ->
  l_stabled (r_RaftLog (rn_Raft rn)) = LastIndex (r_RaftLog (rn_Raft rn)) ->
  l_applied (r_RaftLog (rn_Raft rn)) = l_committed (r_RaftLog (rn_Raft rn)) ->
  HasReady rn = Ret false.
Proof.
  intros Hs Hh Hp Hm Hl Hst Ha. unfold HasReady. rewrite Hs, Hh, Hp, Hm, hasNextEnts_ok by done.
  cbn [negb]. rewrite andb_false_r. unfold hasUnstableEnts. rewrite Hst, Ha, !Z.ltb_irrefl. done.
Qed.

Lemma round_wp rn :
  raft_wf (rn_Raft rn) ->
  compact_ok (r_RaftLog (rn_Raft rn)) (l_committed (r_RaftLog (rn_Raft rn))) ->
  exists rn1 rd rn2, ReadyNode rn = Ret (rn1, rd) /\ ready_spec rn rn1 rd
    /\ Advance rn1 rd = Ret rn2 /\ round_done rn rn2.
Proof.
  intros Hw Hco. destruct (wp_inv _ _ (ReadyNode_wp rn Hw)) as ([rn1 rd] & Hrd & Hrs).
  cbn [fst snd] in Hrs. exists rn1, rd. rewrite (Advance_eq rn rn1 rd Hw Hrs).
  destruct (rs_log _ _ _ Hrs) as [ps Hl1]. pose proof (rs_wf _ _ _ Hrs) as Hw1.
  pose proof Hw1 as (Hl1w & Hst1 & _).
  set (l1 := r_RaftLog (rn_Raft rn1)) in *.
  set (l2 := l1 <| l_stabled := LastIndex l1 |> <| l_applied := l_committed l1 |>).
  destruct (wp_inv _ _ (maybeCompact_wp l2 (marks_wf _ Hl1w) Hst1
    ltac:(unfold l2; rewrite Hl1; exact Hco) eq_refl)) as (l3 & -> & Hl3 & Hc3 & HL3).
  destruct Hc3 as (_ & _ & _ & Hsto & Hap & Hcm & Hsb & Hps).
  eexists. split_and!; [done|exact Hrs|reflexivity|].
  assert (HLr : LastIndex l1 = LastIndex (r_RaftLog (rn_Raft rn))) by (by rewrite Hl1).
  assert (Hcr : l_committed l1 = l_committed (r_RaftLog (rn_Raft rn))) by (by rewrite Hl1).
  change (LastIndex l2) with (LastIndex l1) in HL3. change (l_applied l2) with (l_committed l1) in Hap.
  change (l_committed l2) with (l_committed l1) in Hcm. change (l_stabled l2) with (LastIndex l1) in Hsb.
  split; cbn [rn_Raft set_rn_Raft upd r_RaftLog set_r_RaftLog].
  - apply raft_wf_withlog; [done|done|]. by rewrite Hsto.
  - apply HasReady_quiet; cbn [rn_Raft rn_prevSoftState rn_prevHardState r_RaftLog r_msgs
      set_rn_Raft set_r_RaftLog upd]; [apply Hrs| |rewrite Hps; apply Hrs|apply Hrs|done|congruence|congruence].
    rewrite <- (rs_hard _ _ _ Hrs). f_equal. unfold GetHardState. cbn. by rewrite Hcm.
  - congruence.
  - congruence.
  - congruence.
  - congruence.
Qed.

(** After a [Ready] and its [Advance] the node is quiet: [HasReady] is false,
    every entry is stable and every committed entry is applied, and the invariant
    still holds. *)
Theorem ready_advance_quiet rn :
  raft_wf (rn_Raft rn) ->
  compact_ok (r_RaftLog (rn_Raft rn)) (l_committed (r_RaftLog (rn_Raft rn))) ->
  exists rn1 rd rn2, ReadyNode rn = Ret (rn1, rd) /\ Advance rn1 rd = Ret rn2
    /\ rd_Messages rd = r_msgs (rn_Raft rn) /\ round_done rn rn2.
Proof.
  intros Hw Hc. destruct (round_wp rn Hw Hc) as (rn1 & rd & rn2 & Hr & Hs & Ha & Hd).
  exists rn1, rd, rn2. split_and!; try done. apply Hs.
Qed.

(** *** Runs *)

#[local] Opaque becomeCandidate requestVotes handleSnapshot handleAppendEntries
  handleVoteRequest handleVoteResponse handleHeartbeat handleHeartbeatResponse
  handleMsgPropose broadCastAE handleMsgAppendResponse handleLeaderTransfer sendHeartbeats
  sendAppend send.

(** Other messages than a snapshot leave the applied index alone. *)
Lemma Step_applied r m :
  raft_wf r -> msg_ok r m -> m_MsgType m <> MsgSnapshot ->
  wp (Raft.Step rand_Int r m) (fun r' => raft_wf r' /\ l_applied (r_RaftLog r') = l_applied (r_RaftLog r)).
Proof.
  intros Hw [Hroom Hok] Hns. set (P := fun r' : Raft S => _ /\ _).
  assert (Hg : forall o : outcome error (Raft S), wp o (good r) -> wp o P).
  { intros o Ho. eapply wp_mono; [exact Ho|]. intros r' [Hw' (Hc & _)]. split; [done|].
    by injection Hc. }
  apply (Step_cases rand_Int (fun o => wp o P)).
  - by intros.
  - intros Hm. rewrite Hm in Hok. eapply wp_mono; [by apply handleAppendEntries_cases|].
    intros r' [[Hw' (Hc & _)]|Ha]; [split; [done|by injection Hc]|].
    split; [apply Ha|]. apply (ac_committed _ _ _ Ha).
  - intros _. by apply Hg, campaign_wp.
  - intros _. by apply Hg, handleVoteRequest_wp.
  - intros _. by apply Hg, handleHeartbeat_wp.
  - intros _ _. by apply Hg, handleVoteResponse_wp.
  - intros _ _. apply Hg, wp_ret. eapply good_sends.
    + by apply (good_same r (r <| r_heartbeatElapsed := 0 |>)).
    + split; [by apply sendHeartbeats_wf|apply sendHeartbeats_sends].
  - intros _ Hm. rewrite Hm in Hok. apply Hg, wp_bind.
    eapply wp_mono; [by apply handleMsgPropose_wp|]. intros r1 [Hg1 _].
    eapply wp_mono; [apply broadCastAE_wp, Hg1|]. intros r2. by apply good_sends.
  - intros Hst Hm. rewrite Hm in Hok. destruct (Hok Hst). by apply Hg, handleMsgAppendResponse_wp.
  - intros Hst Hm. rewrite Hm in Hok. by apply Hg, handleHeartbeatResponse_wp, Hok.
  - intros Hst _. by apply Hg, handleLeaderTransfer_wp.
  - by apply Hg, wp_ret, good_same.
Qed.

(** A run of the node: messages, ticks and Ready/Advance rounds; the list is what
    was handed out to be applied. *)
Inductive run : RawNode S -> list Entry -> RawNode S -> Prop :=
  | run_nil rn : run rn [] rn
  | run_step rn m rn' es rn'' :
      msg_ok (rn_Raft rn) m -> m_MsgType m <> MsgSnapshot -> StepNode rand_Int rn m = Ret rn' ->
      run rn' es rn'' -> run rn es rn''
  | run_tick rn rn' es rn'' :
      room (r_RaftLog (rn_Raft rn)) 1 -> Tick rand_Int rn = Ret rn' ->
      run rn' es rn'' -> run rn es rn''
  | run_ready rn rn1 rd rn2 es rn3 :
      compact_ok (r_RaftLog (rn_Raft rn)) (l_committed (r_RaftLog (rn_Raft rn))) ->
      ReadyNode rn = Ret (rn1, rd) -> Advance rn1 rd = Ret rn2 ->
      run rn2 es rn3 -> run rn (rd_CommittedEntries rd ++ es) rn3.

Lemma StepNode_inv rn m rn' :
  StepNode rand_Int rn m = Ret rn' ->
  Raft.Step rand_Int (rn_Raft rn) m = Ret (rn_Raft rn').
Proof.
  unfold StepNode, onRaft. destruct (IsLocalMsg _); [done|].
  destruct (Raft.Step rand_Int (rn_Raft rn) m) eqn:E;
    destruct (r_Prs (rn_Raft rn) !! m_From m), (IsResponseMsg (m_MsgType m)); intros [= <-]; done.
Qed.

(** C4. The entries handed out to be applied over a run, snapshots apart, are
    consecutive from the entry after the applied index on, and the applied index
    counts them: every entry is applied exactly once and in log order. *)
Theorem applied_in_order rn es rn' :
  run rn es rn' -> raft_wf (rn_Raft rn) ->
  contiguous (l_applied (r_RaftLog (rn_Raft rn)) + 1) es /\
  l_applied (r_RaftLog (rn_Raft rn')) = l_applied (r_RaftLog (rn_Raft rn)) + len es /\
  raft_wf (rn_Raft rn').
Proof.
  induction 1 as [rn|rn m rn' es rn'' Hok Hns Hst _ IH|rn rn' es rn'' Hroom Ht _ IH
    |rn rn1 rd rn2 es rn3 Hc Hrd Had _ IH]; intros Hw.
  - split_and!; [apply contiguous_nil|rewrite len_nil; lia|done].
  - apply StepNode_inv in Hst. pose proof (Step_applied _ _ Hw Hok Hns) as Hs. rewrite Hst in Hs.
    destruct Hs as [Hw' Ha]. rewrite Ha in IH. by apply IH.
  - pose proof (tick_wp rand_Int _ Hw Hroom) as Hs. unfold Tick, onRaft in Ht.
    destruct (tick rand_Int (rn_Raft rn)) as [r| | |]; try discriminate Ht.
    injection Ht as <-. destruct Hs as [Hw' (Hcore & _)]. cbn [rn_Raft set_rn_Raft upd] in IH.
    injection Hcore as Ha _. rewrite Ha in IH. by apply IH.
  - destruct (round_wp rn Hw Hc) as (rn1' & rd' & rn2' & Hr & Hs & Ha & Hd).
    rewrite Hrd in Hr. injection Hr as <- <-. rewrite Had in Ha. injection Ha as <-.
    destruct (IH (dn_wf _ _ Hd)) as (Hce & Hap & Hw3). rewrite (dn_applied _ _ Hd) in Hce, Hap.
    destruct (advance_marks _ (raft_wf_log _ Hw)) as (_ & _ & Hcc & Hlen).
    cbn zeta in Hcc, Hlen. rewrite <- (rs_committed _ _ _ Hs) in Hcc, Hlen.
    split_and!; [|rewrite len_app; lia|done].
    apply contiguous_app; [done|].
    replace (l_applied (r_RaftLog (rn_Raft rn)) + 1 + len (rd_CommittedEntries rd))
      with (l_committed (r_RaftLog (rn_Raft rn)) + 1) by lia. done.
Qed.

End RawNodeProps.

(** ** Concrete runs *)

(** A leader with its first entry acknowledged by peer 2. *)
Definition demo_node : RawNode MemoryStorage :=
  mkRawNode demo_leader (mkSoftState 0 StateFollower) zero_HardState.
Definition demo_node_acked : RawNode MemoryStorage :=
  run_or (StepNode demo_rand demo_node demo_ack) demo_node.
Definition demo_ready : RawNode MemoryStorage * Ready :=
  run_or (ReadyNode demo_node_acked)
    (demo_node, mkReady None zero_HardState [] zero_Snapshot [] []).

Lemma demo_compact_ok (rn : RawNode MemoryStorage) c :
  l_storage (r_RaftLog (rn_Raft rn)) = MemoryStorage.NewMemoryStorage -> 0 <= c ->
  0 <= l_lastIdxOfSnapshot (r_RaftLog (rn_Raft rn)) -> compact_ok (r_RaftLog (rn_Raft rn)) c.
Proof. intros Hst Hc Hs. unfold compact_ok. rewrite Hst. cbn. split; [lia|right; lia]. Qed.

Lemma demo_node_wf : raft_wf (rn_Raft demo_node).
Proof. unfold demo_node. cbn [rn_Raft]. apply demo_leader_wf. Qed.

Lemma ready_advance_quiet_witness :
  exists rn1 rd rn2, ReadyNode demo_node = Ret (rn1, rd) /\ Advance rn1 rd = Ret rn2
    /\ rd_Messages rd = r_msgs (rn_Raft demo_node) /\ round_done demo_node rn2.
Proof.
  apply (ready_advance_quiet demo_node); [apply demo_node_wf|].
  apply demo_compact_ok; by vm_compute.
Defined.

Lemma msg_ok_response {S} `{Storage S} (r : Raft S) m :
  room (r_RaftLog r) 1 -> m_MsgType m = MsgAppendResponse -> is_Some (r_Prs r !! m_From m) ->
  m_Index m <= LastIndex (r_RaftLog r) -> msg_ok r m.
Proof. intros Hr Hm Hp Hi. unfold msg_ok. by rewrite Hm. Qed.

Lemma demo_ack_ok : msg_ok (rn_Raft demo_node) demo_ack.
Proof.
  unfold demo_node. cbn [rn_Raft]. apply msg_ok_response; [by vm_compute|done| |by vm_compute].
  by apply (bool_decide_unpack _), I.
Qed.

Lemma applied_in_order_witness :
  exists es, es <> [] /\ contiguous 1 es /\
    l_applied (r_RaftLog (rn_Raft (run_or (Advance (fst demo_ready) (snd demo_ready)) demo_node)))
    = 0 + len es.
Proof.
  exists (rd_CommittedEntries (snd demo_ready) ++ []). split; [by vm_compute|].
  destruct (applied_in_order demo_rand demo_node (rd_CommittedEntries (snd demo_ready) ++ [])
    (run_or (Advance (fst demo_ready) (snd demo_ready)) demo_node)) as (Hc & Ha & _).
  - apply (run_step demo_rand _ demo_ack demo_node_acked).
    + apply demo_ack_ok.
    + discriminate.
    + by vm_compute.
    + apply (run_ready demo_rand _ (fst demo_ready) (snd demo_ready)
        (run_or (Advance (fst demo_ready) (snd demo_ready)) demo_node)).
      * apply demo_compact_ok; by vm_compute.
      * by vm_compute.
      * by vm_compute.
      * apply run_nil.
  - apply demo_node_wf.
  - assert (H0 : l_applied (r_RaftLog (rn_Raft demo_node)) = 0) by (by vm_compute).
    rewrite H0 in Hc, Ha. split; [exact Hc|exact Ha].
Defined.
