(* ===== verification/RaftVote.v ===== *)
(** * RaftVote: elections of one peer

    What a granted vote implies, when a candidate becomes leader, and how the term
    moves; with the two messages that can move it backwards. *)

From stdpp Require Import base option list gmap strings tactics.
From S2P Require Import Prelude.
From S2P Require Import Eraftpb.
From S2P Require Import RaftStorage.
From S2P Require Import RaftLog.
From S2P Require Import Raft.
From S2P Require Import RaftFacts.
From S2P Require Import RaftInv.
From S2P Require Import RaftAppend.
From S2P Require Import RaftSafe.
From S2P Require Import RaftProps.

Section Vote.
Context {S : Type} `{HS : Storage S} (rand_Int : nat -> Z).
Implicit Types (r : Raft S) (m : Message).

(** The candidate's log is at least as up to date as the one ending in an entry of
    term [lastTerm] at [lastIndex]. *)
Definition up_to_date (m : Message) (lastTerm lastIndex : Z) : Prop :=
  lastTerm < m_LogTerm m \/ lastTerm = m_LogTerm m /\ lastIndex <= m_Index m.

(** Whether the peer may vote for the candidate at all. *)
Definition may_vote (r : Raft S) (m : Message) : Prop :=
  r_Term r < m_Term m \/
  r_Term r = m_Term m /\ r_State r = StateFollower /\
  (r_Vote r = 0 \/ r_Vote r = m_From m).

Definition last_term (r : Raft S) : option Z :=
  match Term (r_RaftLog r) (LastIndex (r_RaftLog r)) with Ret t => Some t | _ => None end.

(** The answer to a vote request and the state it leaves. *)
Record voted (r : Raft S) (m : Message) (granted : bool) (r' : Raft S) : Prop := {
  vt_reply : r_msgs r' = r_msgs r ++
    [zero_Message <| m_MsgType := MsgRequestVoteResponse |> <| m_To := m_From m |>
       <| m_From := r_id r |> <| m_Reject := negb granted |> <| m_Term := r_Term r' |>];
  vt_log : r_RaftLog r' = r_RaftLog r;
  vt_granted : granted = true ->
    r_Vote r' = m_From m /\ r_Term r' = m_Term m /\ r_State r' = StateFollower;
  vt_term : r_Term r <= r_Term r';
}.

Lemma handleVoteRequest_spec r m t :
  0 < r_electionTimeout r -> last_term r = Some t ->
  exists r' granted, handleVoteRequest rand_Int r m = Ret r' /\ voted r m granted r' /\
    (granted = true <-> may_vote r m /\ up_to_date m t (LastIndex (r_RaftLog r))).
Proof.
  intros Het Hlt. unfold last_term in Hlt.
  destruct (Term (r_RaftLog r) (LastIndex (r_RaftLog r))) as [t'| | |] eqn:Ht; simplify_eq.
  assert (Hmv : ((r_Term r =? m_Term m) && bool_decide (r_State r = StateFollower)
        && ((r_Vote r =? 0) || (r_Vote r =? m_From m))) || (m_Term m >? r_Term r) = true
        <-> may_vote r m).
  { unfold may_vote. rewrite orb_true_iff, !andb_true_iff, orb_true_iff, bool_decide_eq_true,
      !Z.eqb_eq, Z.gtb_lt. tauto. }
  assert (Hud : (m_LogTerm m >? t) || ((m_LogTerm m =? t) && (m_Index m >=? LastIndex (r_RaftLog r)))
    = true <-> up_to_date m t (LastIndex (r_RaftLog r))) by (unfold up_to_date; lia).
  unfold handleVoteRequest. rewrite Ht. cbn [ignore_err].
  destruct ((_ && _) || _) eqn:Hmv'.
  - pose proof (proj1 Hmv eq_refl) as Hm. clear Hmv.
    assert (Hle : r_Term r <= m_Term m) by (destruct Hm as [|[? _]]; lia).
    unfold becomeFollower, resetElectionTimeout. zif; [cbn in *; lia|].
    destruct ((m_LogTerm m >? t) || _) eqn:Hud'.
    + eexists _, true. split; [reflexivity|]. split; [split; cbn; try done; lia|].
      split; [|done]. intros _. split; [done|]. by apply Hud.
    + eexists _, false. split; [reflexivity|]. split; [split; cbn; try done; lia|].
      split; [done|]. intros [_ Hu]. by apply Hud in Hu.
  - eexists _, false. split; [reflexivity|]. split; [by split; cbn; try done|].
    split; [done|]. intros [Hm _]. by apply Hmv in Hm.
Qed.

(** C27. A vote request is answered once: the vote is granted exactly when the
    request is of a newer term, or of the same term to a follower that has not voted
    for another candidate, and the candidate's log is at least as up to date; a
    granted vote is recorded with the candidate's term. *)
Theorem vote_request_answered r m t :
  0 < r_electionTimeout r -> last_term r = Some t -> m_MsgType m = MsgRequestVote ->
  exists r' granted, Step rand_Int r m = Ret r' /\ voted r m granted r' /\
    (granted = true <-> may_vote r m /\ up_to_date m t (LastIndex (r_RaftLog r))).
Proof.
  intros He Ht Hm. destruct (handleVoteRequest_spec r m t He Ht) as (r' & g & Hr & Hv).
  exists r', g. split; [|exact Hv]. rewrite <- Hr.
  change (Step rand_Int r m) with (StepWith rand_Int (StepF rand_Int 1) r m).
  unfold StepWith. rewrite Hm. by destruct (r_State r).
Qed.

(** The entry a new leader puts at the end of its log. *)
Definition noop_entry (r : Raft S) : Entry :=
  zero_Entry <| e_Term := r_Term r |> <| e_Index := LastIndex (r_RaftLog r) ⊞ 1 |>.

Lemma becomeLeader_entries r :
  wlp (becomeLeader r) (fun r' =>
    l_entries (r_RaftLog r') = l_entries (r_RaftLog r) ++ [noop_entry r]).
Proof.
  unfold becomeLeader, handleMsgPropose, updProgress. cbn [foldl m_Entries].
  apply wlp_bind, wlp_bind, wlp_bind, wlp_deref. intros p _. apply wlp_ret.
  zif; apply wlp_ret; (eapply wlp_mono; [apply broadCastAE_sends|]);
    intros r' (_ & _ & He & _)%sends_core; by rewrite He.
Qed.

(** C28. A candidate becomes leader of its term on the vote response that makes the
    granted votes it has counted, its own included, more than half of the peers;
    its log is then the old one followed by an empty entry of its term. *)
Theorem vote_response_elects `{!StorageLaws S} r m :
  raft_wf r -> room (r_RaftLog r) 1 -> r_State r = StateCandidate ->
  m_MsgType m = MsgRequestVoteResponse -> m_Term m = r_Term r -> m_Reject m = false ->
  len (r_peers r) / 2 < r_VoteReceived r + 1 < two64 -> 0 <= r_VoteReceived r ->
  exists r', Step rand_Int r m = Ret r' /\ r_State r' = StateLeader /\ r_Lead r' = r_id r
    /\ r_Term r' = r_Term r /\ raft_wf r'
    /\ l_entries (r_RaftLog r') = l_entries (r_RaftLog r) ++ [noop_entry r].
Proof.
  intros Hw Hroom Hst Hm Ht Hrej Hmaj H0.
  change (Step rand_Int r m) with (StepWith rand_Int (StepF rand_Int 1) r m).
  unfold StepWith. rewrite Hst, Hm. unfold handleVoteResponse. rewrite Ht, Z.eqb_refl, Hrej.
  set (r1 := _ <| r_VoteReceived := _ |>). cbn [negb andb].
  assert (Hvr : r_VoteReceived r1 = r_VoteReceived r + 1).
  { cbn. apply u64_add_small. unfold is_u64. lia. }
  rewrite Hvr. change (r_peers r1) with (r_peers r). zif; [|lia].
  destruct (wp_inv _ _ (becomeLeader_wp r1 Hw Hroom)) as (r' & Hr' & [Hw' _] & Hc).
  pose proof (becomeLeader_entries r1) as He. rewrite Hr' in He |- *.
  exists r'. injection Hc. intros. split_and!; try done; try congruence.
Qed.

End Vote.

(** ** Concrete runs *)

Definition demo_vote_request : Message :=
  zero_Message <| m_MsgType := MsgRequestVote |> <| m_From := 2 |> <| m_Term := 1 |>.

Lemma vote_request_answered_witness :
  exists r' granted, Step demo_rand demo demo_vote_request = Ret r'
    /\ voted demo demo_vote_request granted r' /\ granted = true.
Proof.
  destruct (vote_request_answered demo_rand demo demo_vote_request 0) as (r' & g & Hr & Hv & Hg).
  - by vm_compute.
  - by vm_compute.
  - done.
  - exists r', g. split_and!; [done|done|]. apply Hg. split.
    + left. by vm_compute.
    + right. split; by vm_compute.
Defined.

Definition demo_candidate : Raft MemoryStorage := run_or (Step demo_rand demo hup) demo.

Lemma demo_candidate_wf : raft_wf demo_candidate.
Proof.
  unfold demo_candidate.
  destruct (wp_inv _ _ (Step_safe_wp demo_rand demo hup demo_wf ltac:(split; [by vm_compute|exact I])))
    as (r1 & -> & Hw1 & _). exact Hw1.
Qed.

Lemma vote_response_elects_witness :
  exists r', Step demo_rand demo_candidate (vote_from 2 1) = Ret r' /\ r_State r' = StateLeader
    /\ r_Lead r' = r_id demo_candidate /\ r_Term r' = r_Term demo_candidate /\ raft_wf r'
    /\ l_entries (r_RaftLog r') = l_entries (r_RaftLog demo_candidate) ++ [noop_entry demo_candidate].
Proof.
  apply (vote_response_elects demo_rand demo_candidate (vote_from 2 1)).
  - apply demo_candidate_wf.
  - by vm_compute.
  - by vm_compute.
  - done.
  - by vm_compute.
  - done.
  - by vm_compute.
  - by vm_compute.
Defined.

Lemma Step_term_mono_witness :
  r_Term demo_leader <= r_Term (run_or (Step demo_rand demo_leader (demo_append 0)) demo).
Proof.
  apply (Step_term_mono demo_rand demo_leader (demo_append 0)).
  - by vm_compute.
  - by vm_compute.
  - intros [H|[H _]]; discriminate H.
  - by vm_compute.
Defined.

(** A snapshot message of an old term, larger than the leader's log. *)
Definition stale_snapshot : Message :=
  zero_Message <| m_MsgType := MsgSnapshot |> <| m_From := 2 |> <| m_Term := 0 |>
    <| m_Snapshot := Some (mkSnapshot None
        (Some (mkSnapshotMetadata (Some (mkConfState [1; 2; 3] None)) 9 1 None)) None) |>.

(** A snapshot message is not checked for its term: one sent in term 0 moves the
    leader of term 1 back to term 0. *)
Theorem stale_snapshot_lowers_term :
  r_Term demo_leader = 1 /\ r_State demo_leader = StateLeader /\
  exists r', Step demo_rand demo_leader stale_snapshot = Ret r' /\ r_Term r' = 0
    /\ r_State r' = StateFollower.
Proof. split_and!; [by vm_compute|by vm_compute|]. eexists. split_and!; by vm_compute. Qed.
