(* ===== verification/RaftCluster.v ===== *)
(** * RaftCluster: a group of peers and the messages between them

    The peers of a group with the network between them, as the test network of the
    Raft package runs them: every message a peer has put in its outbox is in flight,
    and may be delivered to its addressee, in any order, or lost.  No message is
    invented or duplicated.

    Two runs show that elections and committed entries are not safe in this
    implementation: [becomeFollower] forgets the vote of the current term. *)

From stdpp Require Import base option list gmap strings relations tactics.
From S2P Require Import Prelude.
From S2P Require Import Eraftpb.
From S2P Require Import Wire.
From S2P Require Import WireFacts.
From S2P Require Import EraftpbWire.
From S2P Require Import EraftpbRound.
From S2P Require Import RaftStorage.
From S2P Require Import RaftLog.
From S2P Require Import Raft.
From S2P Require Import RaftFacts.
From S2P Require Import RaftInv.
From S2P Require Import RaftAppend.
From S2P Require Import RaftSafe.
From S2P Require Import RaftProps.

Record cluster := mkCluster {
  cl_peers : gmap Z (Raft MemoryStorage);
  cl_net : list Message;
}.

Inductive action :=
  | ATick (id : Z)
  | AHup (id : Z)                       (** the election timeout of a peer fires *)
  | APropose (id : Z) (data : list Z)   (** a client proposes to a peer *)
  | ADeliver (i : nat).                 (** the [i]-th message in flight arrives *)

(** The outbox of a peer goes out. *)
Definition drain (c : cluster) (id : Z) (r : Raft MemoryStorage) (net : list Message) : cluster :=
  mkCluster (<[id := r <| r_msgs := [] |>]> (cl_peers c)) (net ++ r_msgs r).

Definition apply_action (c : cluster) (a : action) : outcome error cluster :=
  match a with
  | ATick id =>
    let! r := deref (cl_peers c !! id) in
    let! r := tick demo_rand r in Ret (drain c id r (cl_net c))
  | AHup id =>
    let! r := deref (cl_peers c !! id) in
    let! r := Step demo_rand r (zero_Message <| m_MsgType := MsgHup |>) in
    Ret (drain c id r (cl_net c))
  | APropose id data =>
    let! r := deref (cl_peers c !! id) in
    let! r := Step demo_rand r (zero_Message <| m_MsgType := MsgPropose |> <| m_From := id |>
                <| m_Entries := [zero_Entry <| e_Data := Some data |>] |>) in
    Ret (drain c id r (cl_net c))
  | ADeliver i =>
    let! m := deref (cl_net c !! i) in
    let! r := deref (cl_peers c !! m_To m) in
    let! r := Step demo_rand r m in
    Ret (drain c (m_To m) r (delete i (cl_net c)))
  end.

(** One step of the group. *)
Inductive cluster_step : cluster -> cluster -> Prop :=
  | cluster_action c a c' : apply_action c a = Ret c' -> cluster_step c c'.

(** Three peers started by [newRaft] on empty storages. *)
Definition start_peer (id : Z) : Raft MemoryStorage :=
  run_or (newRaft demo_rand (demo_config id MemoryStorage.NewMemoryStorage)) demo.
Definition start : cluster :=
  mkCluster (<[1 := start_peer 1]> (<[2 := start_peer 2]> (<[3 := start_peer 3]> ∅))) [].

Definition reachable (c : cluster) : Prop := rtc cluster_step start c.

Fixpoint run_actions (c : cluster) (l : list action) : outcome error cluster :=
  match l with
  | [] => Ret c
  | a :: l' => let! c := apply_action c a in run_actions c l'
  end.

Lemma run_actions_reachable l c : run_actions start l = Ret c -> reachable c.
Proof.
  unfold reachable. generalize start. induction l as [|a l IH]; intros c0; simpl.
  - intros [= ->]. constructor.
  - destruct (apply_action c0 a) as [c1| | |] eqn:Ha; try done. intros Hl.
    eapply rtc_l; [by econstructor|by apply IH].
Qed.

Definition leads (c : cluster) (id term : Z) : Prop :=
  exists r, cl_peers c !! id = Some r /\ r_State r = StateLeader /\ r_Term r = term.

(** Peer [id] has committed [e]. *)
Definition has_committed (c : cluster) (id : Z) (e : Entry) : Prop :=
  exists r, cl_peers c !! id = Some r /\ entry_at (r_RaftLog r) (e_Index e) = Some e
    /\ e_Index e <= l_committed (r_RaftLog r).

(** Peers 2 and 3 stand in term 1; peer 1 votes for 2, which wins and sends a
    heartbeat; the heartbeat makes peer 1 forget its vote, and it votes for 3. *)
Definition two_leaders_run : list action :=
  [AHup 2; AHup 3; ADeliver 0; ADeliver 3; ATick 2; ADeliver 5; ADeliver 1; ADeliver 6].
(** Both leaders then commit an entry of their own with the help of peer 1. *)
Definition diverging_run : list action :=
  two_leaders_run ++
  [APropose 2 [65]; APropose 3 [66]; ADeliver 8; ADeliver 11; ADeliver 9; ADeliver 11].

Definition end_of (l : list action) : cluster := run_or (run_actions start l) start.

Lemma end_reachable l : run_actions start l = Ret (end_of l) -> reachable (end_of l).
Proof. apply run_actions_reachable. Qed.

(** C37. Election Safety fails: a state with two leaders of the same term is
    reachable, because a heartbeat of the current term resets the vote. *)
Theorem two_leaders_in_one_term :
  exists c, reachable c /\ leads c 2 1 /\ leads c 3 1.
Proof.
  exists (end_of two_leaders_run). split; [apply end_reachable; by vm_compute|].
  split; eexists; split_and!; by vm_compute.
Qed.

(** State Machine Safety fails: two peers can commit different entries at the
    same index. *)
Theorem committed_entries_diverge :
  exists c e e', reachable c /\ has_committed c 2 e /\ has_committed c 3 e'
    /\ e_Index e = e_Index e' /\ e <> e'.
Proof.
  exists (end_of diverging_run),
    (mkEntry EntryType_EntryNormal 1 2 (Some [65]) None),
    (mkEntry EntryType_EntryNormal 1 2 (Some [66]) None).
  split; [apply end_reachable; by vm_compute|].
  split; [|split; [|done]]; eexists; split_and!; by vm_compute.
Qed.

(** ** What the protobuf encoding does to the replication protocol

    The leader tells its followers a new commit index with an append message whose
    [CommitUse] flag is set.  The flag is not part of the encoding, so that a
    follower on another store sees an ordinary append after index 0. *)
Section RaftWire.
Context {S : Type} `{HS : Storage S} `{HLaws : !StorageLaws S} (rand_Int : nat -> Z).
Implicit Types (r : Raft S).

Lemma commitMsg_ok r to c :
  is_u64 to -> is_u64 (r_id r) -> is_u64 (r_Term r) -> is_u64 c ->
  Message_ok (commitMsg r to c) /\ len (Message_enc (commitMsg r to c)) < two63.
Proof.
  intros H1 H2 H3 H4. split.
  - split_and!; [by vm_compute|done| |constructor|done|done].
    repeat (constructor; [done || (by vm_compute)|]). constructor.
  - unfold Message_enc. rewrite !len_app. cbn [m_Entries m_Snapshot m_Reject m_XXX_unrecognized
      commitMsg zero_Message upd fmap list_fmap concat enc_opt].
    pose proof enc_varint_len_le as Hle. unfold two63.
    repeat match goal with |- context [len (enc_varint ?t ?v)] =>
      pose proof (Hle t v); generalize dependent (len (enc_varint t v)); intros end.
    unfold len. simpl. lia.
Qed.

Lemma log_term_zero (l : RaftLog S) t : 0 < l_lastIdxOfSnapshot l -> log_term l 0 <> Some t.
Proof. intros Hl. unfold log_term, entry_at. zif; [lia|]. zif; [discriminate|lia]. Qed.

(** C39. A commit notification that crosses the wire does not commit anything on a
    follower that has compacted its log: the follower takes it for an append after
    index 0, refuses it, and keeps its log and commit index. *)
Theorem commit_notification_refused r to c (f : Raft S) :
  is_u64 to -> is_u64 (r_id r) -> is_u64 (r_Term r) -> is_u64 c ->
  raft_wf f -> 0 < l_lastIdxOfSnapshot (r_RaftLog f) < two63 ->
  exists bs m f' reply, Message_Marshal (commitMsg r to c) = Ret bs
    /\ Message_Unmarshal zero_Message bs = Ret m
    /\ handleAppendEntries rand_Int f m = Ret f'
    /\ r_RaftLog f' = r_RaftLog f
    /\ r_msgs f' = r_msgs f ++ [reply] /\ m_Reject reply = true.
Proof.
  intros H1 H2 H3 H4 Hw Hs. destruct (commitMsg_ok r to c) as [Hok Hl]; [done..|].
  destruct (message_wire (commitMsg r to c) Hok Hl) as (bs & Hm & _ & Hu).
  exists bs, (Message_received (commitMsg r to c)).
  destruct (wp_inv _ _ (handleAppendEntries_refused rand_Int f (Message_received (commitMsg r to c))
    Hw (proj2 Hs) eq_refl (fun _ => log_term_zero _ _ (proj1 Hs))))
    as (f' & Hf & _ & Hlog & _ & reply & Hmsgs & Hrej & _).
  exists f', reply. split_and!; [exact Hm|exact Hu|exact Hf|exact Hlog|exact Hmsgs|exact Hrej].
Qed.

End RaftWire.

(** ** A concrete run *)

(** A follower that starts from a snapshot at index 5. *)
Definition compacted_storage : MemoryStorage :=
  MemoryStorage.NewMemoryStorage
    <| ms_ents := [zero_Entry <| e_Index := 5 |> <| e_Term := 1 |>;
                   zero_Entry <| e_Index := 6 |> <| e_Term := 1 |>] |>
    <| ms_hardState := mkHardState 1 0 5 None |>.
Definition compacted_follower : Raft MemoryStorage :=
  run_or (newRaft demo_rand (demo_config 2 compacted_storage)) demo.

Lemma compacted_follower_wf : raft_wf compacted_follower.
Proof.
  assert (Hst : st_wf compacted_storage).
  { split; [|by do 2 eexists|by vm_compute].
    split; [done|by vm_compute| |by vm_compute|by vm_compute].
    intros [|[|i]] e He; cbn in He; simplify_eq; done. }
  assert (Hc : config_ok (demo_config 2 compacted_storage) compacted_storage [1; 2; 3]).
  { split; [done|done|exact Hst|by right; left|done]. }
  pose proof (newRaft_wp demo_rand _ _ _ Hc) as Hw. unfold compacted_follower.
  destruct (newRaft _ _); [apply Hw|done..].
Qed.

Lemma commit_notification_refused_witness :
  exists bs m f' reply, Message_Marshal (commitMsg demo_leader 2 6) = Ret bs
    /\ Message_Unmarshal zero_Message bs = Ret m
    /\ handleAppendEntries demo_rand compacted_follower m = Ret f'
    /\ r_RaftLog f' = r_RaftLog compacted_follower
    /\ r_msgs f' = r_msgs compacted_follower ++ [reply] /\ m_Reject reply = true.
Proof.
  apply (commit_notification_refused demo_rand demo_leader 2 6 compacted_follower).
  - by vm_compute.
  - by vm_compute.
  - by vm_compute.
  - by vm_compute.
  - apply compacted_follower_wf.
  - by vm_compute.
Defined.
