(* ===== verification/RaftConf.v ===== *)
(** * RaftConf: membership changes

    [addNode] and [removeNode] of [raft/raft.go]: the member list they leave, that
    they keep the invariant, and that the commit index removing a member may raise
    is backed by a majority of the remaining ones. *)

From stdpp Require Import base option list gmap strings tactics.
From S2P Require Import Prelude.
From S2P Require Import Eraftpb.
From S2P Require Import RaftStorage.
From S2P Require Import RaftLog.
From S2P Require Import Raft.
From S2P Require Import RaftFacts.
From S2P Require Import RaftInv.
From S2P Require Import RaftAppend.
From S2P Require Import RaftSafe.
From S2P Require Import RaftProps.

(** ** The removal loop *)

Lemma slice_to_all {E A} (l : list A) : slice_to (E:=E) l (len l) = Ret l.
Proof.
  rewrite slice_to_ok by (pose proof (len_nonneg l); lia). unfold len. by rewrite Nat2Z.id, firstn_all.
Qed.

(** No element left to visit is [id]: the loop keeps the slice. *)
Lemma removePeerLoop_absent id arr n idx todo :
  0 <= idx -> idx + Z.of_nat todo <= len arr ->
  (forall j x, arr !! j = Some x -> idx <= Z.of_nat j -> x <> id) ->
  removePeerLoop id arr n idx todo = slice_to arr n.
Proof.
  revert idx. induction todo as [|todo IH]; intros idx Hi Hl Hx; [done|]. cbn [removePeerLoop].
  destruct (index_total (E:=error) arr idx) as (x & -> & Hlk); [lia|]. zif.
  - subst. destruct (Hx _ _ Hlk); lia.
  - apply IH; [lia|lia|]. intros j y Hy Hj. apply (Hx j y Hy). lia.
Qed.

(** The element the shift leaves at the end of the array is not [id]. *)
Lemma shifted_tail id (pre post : list Z) j x :
  id ∉ post -> len pre + 1 <= Z.of_nat j ->
  (pre ++ post ++ drop (length pre + length post) (pre ++ id :: post)) !! j = Some x -> x <> id.
Proof.
  intros Hpost Hj Hx ->. unfold len in Hj. rewrite lookup_app_r in Hx by lia.
  apply lookup_app_Some in Hx as [Hx|[Hge Hx]]; [by apply list_elem_of_lookup_2 in Hx|].
  destruct post as [|y post _] using rev_ind.
  - apply lookup_lt_Some in Hx. rewrite length_drop, length_app in Hx. simpl in *. lia.
  - rewrite app_comm_cons, app_assoc, drop_app_length' in Hx.
    + destruct (j - length pre - length (post ++ [y]))%nat; simpl in Hx; [|done].
      injection Hx as ->. apply Hpost. set_solver.
    + rewrite !length_app. simpl. lia.
Qed.

(** The iteration that finds [id], and the ones after it. *)
Lemma removePeerLoop_here id (pre post : list Z) :
  id ∉ post ->
  removePeerLoop id (pre ++ id :: post) (len (pre ++ id :: post)) (len pre) (S (length post))
  = Ret (pre ++ post).
Proof.
  intros Hpost. set (arr := pre ++ id :: post).
  assert (Hlen : len arr = len pre + len post + 1) by (subst arr; rewrite len_app, len_cons; lia).
  pose proof (len_nonneg pre). pose proof (len_nonneg post). cbn [removePeerLoop].
  assert (Hi : index (E:=error) arr (len pre) = Ret id).
  { subst arr. apply index_lookup; [lia|]. unfold len. by rewrite Nat2Z.id, list_lookup_middle. }
  rewrite Hi, Z.eqb_refl, slice_to_all.
  rewrite (slice_to_ok arr (len pre)), (slice_from_ok arr (len pre + 1)),
    (slice_from_ok arr (len arr - 1)) by lia.
  replace (Z.to_nat (len arr - 1)) with (length pre + length post)%nat by (unfold len in *; lia).
  replace (take (Z.to_nat (len pre)) arr) with pre
    by (unfold len; rewrite Nat2Z.id; symmetry; apply take_app_length).
  replace (drop (Z.to_nat (len pre + 1)) arr) with post.
  2:{ replace (Z.to_nat (len pre + 1)) with (length pre + 1)%nat by (unfold len; lia).
      subst arr. by rewrite <- drop_drop, drop_app_length. }
  rewrite removePeerLoop_absent.
  - rewrite slice_to_ok by (rewrite !len_app, len_drop; unfold len in *; lia). f_equal.
    rewrite app_assoc. apply take_app_length'. rewrite length_app. unfold len in *. lia.
  - lia.
  - rewrite !len_app, len_drop. unfold len in *. lia.
  - intros j x Hx Hj. by eapply shifted_tail.
Qed.

(** The loop drops the one occurrence of [id] after [pre]. *)
Lemma removePeerLoop_found id (pre post : list Z) :
  id ∉ pre -> id ∉ post ->
  removePeerLoop id (pre ++ id :: post) (len (pre ++ id :: post)) 0 (length (pre ++ id :: post))
  = Ret (pre ++ post).
Proof.
  intros Hpre Hpost. cut (forall k, (k <= length pre)%nat ->
    removePeerLoop id (pre ++ id :: post) (len (pre ++ id :: post)) (Z.of_nat (length pre - k))
      (k + S (length post)) = Ret (pre ++ post)).
  { intros Hk. rewrite <- (Hk (length pre)) by lia. rewrite Nat.sub_diag, length_app. done. }
  induction k as [|k IH]; intros Hk.
  - rewrite Nat.sub_0_r. by apply removePeerLoop_here.
  - cbn [Nat.add removePeerLoop].
    destruct (index_total (E:=error) (pre ++ id :: post) (Z.of_nat (length pre - S k)))
      as (x & -> & Hx); [rewrite len_app; unfold len; lia|].
    rewrite Nat2Z.id, lookup_app_l in Hx by lia. zif.
    + subst x. by apply list_elem_of_lookup_2 in Hx.
    + rewrite <- IH by lia. f_equal. lia.
Qed.

Lemma filter_absent id (l : list Z) : id ∉ l -> filter (fun p => p <> id) l = l.
Proof.
  induction l as [|x l IH]; intros Hx; [done|]. rewrite list.filter_cons_True by set_solver.
  f_equal. apply IH. set_solver.
Qed.

Lemma filter_found id (pre post : list Z) :
  id ∉ pre -> id ∉ post -> filter (fun p => p <> id) (pre ++ id :: post) = pre ++ post.
Proof.
  intros H1 H2. rewrite list.filter_app, list.filter_cons_False by auto.
  by rewrite !filter_absent.
Qed.

Lemma removePeer_filter {S} (r : Raft S) id :
  NoDup (r_peers r) ->
  removePeer r id = Ret (r <| r_peers := filter (fun p => p <> id) (r_peers r) |>).
Proof.
  intros Hnd. unfold removePeer. destruct (decide (id ∈ r_peers r)) as [Hin|Hno].
  - apply list_elem_of_split in Hin as (pre & post & Heq). rewrite Heq in *.
    apply list.NoDup_app in Hnd as (_ & Hd & Hnd). apply list.NoDup_cons in Hnd as [Hpost _].
    assert (Hpre : id ∉ pre) by (intros Hp; destruct (Hd id Hp); by left).
    by rewrite removePeerLoop_found, filter_found.
  - rewrite removePeerLoop_absent.
    + rewrite slice_to_all. by rewrite filter_absent.
    + lia.
    + unfold len. lia.
    + intros j x Hx _ ->. by apply list_elem_of_lookup_2 in Hx.
Qed.

(** ** Committing after a removal *)

Section Conf.
Context {S : Type} `{HS : Storage S} `{HLaws : !StorageLaws S}.
Implicit Types (r : Raft S) (l : RaftLog S).

(** Whether peer [p] is known to hold the log up to [i]. *)
Definition reaches (r : Raft S) (i p : Z) : bool :=
  match r_Prs r !! p with Some pr => i <=? pr_Match pr | None => false end.

Lemma countMatched_ok r i :
  (forall p, p ∈ r_peers r -> is_Some (r_Prs r !! p)) ->
  countMatched r i = Ret (len (List.filter (reaches r i) (r_peers r))).
Proof.
  unfold countMatched. intros Hps.
  cut (forall n, foldM (E:=error) (fun n p => let! pr := deref (r_Prs r !! p) in
    Ret (if pr_Match pr >=? i then n + 1 else n)) n (r_peers r)
    = Ret (n + len (List.filter (reaches r i) (r_peers r)))).
  { intros H. by rewrite H. }
  induction (r_peers r) as [|p ps IH]; intros n; cbn [foldM List.filter].
  - rewrite len_nil. f_equal. lia.
  - destruct (Hps p) as [pr Hpr]; [by left|]. unfold reaches at 1. rewrite Hpr. cbn [deref].
    rewrite Z.geb_leb, IH by (intros q Hq; apply Hps; by right).
    zif; rewrite ?len_cons; f_equal; lia.
Qed.

(** The commit index [c] is backed by an entry of the leader's term and a majority. *)
Definition commit_backed (r : Raft S) (c : Z) : Prop :=
  Term (r_RaftLog r) c = Ret (r_Term r) /\
  len (r_peers r) / 2 < len (List.filter (reaches r c) (r_peers r)).

Definition with_commit (r : Raft S) (c : Z) : Raft S :=
  r <| r_RaftLog ::= fun l => l <| l_committed := c |> |>.

Lemma with_commit_twice r c d : with_commit (with_commit r c) d = with_commit r d.
Proof. by destruct r as [? ? ? ? ? [] ? ? ? ? ? ? ? ? ? ? ? ? ? ?]. Qed.

Lemma commitLoop_ok r c0 n idx b :
  (forall p, p ∈ r_peers r -> is_Some (r_Prs r !! p)) -> log_shape (r_RaftLog r) ->
  l_lastIdxOfSnapshot (r_RaftLog r) <= c0 < idx -> idx <= LastIndex (r_RaftLog r) + 1 ->
  LastIndex (r_RaftLog r) + 1 - idx < Z.of_nat n ->
  exists c b', commitLoop (with_commit r c0) n idx b = Ret (with_commit r c, b')
    /\ (c = c0 /\ b' = b \/ idx <= c <= LastIndex (r_RaftLog r) /\ commit_backed r c /\ b' = true).
Proof.
  intros Hps Hl. pose proof (ls_snap _ Hl). pose proof (ls_room _ Hl).
  pose proof (LastIndex_shape _ Hl) as HLi.
  revert c0 idx b. induction n as [|n IH]; intros c0 idx b Hc Hi Hn; [lia|].
  cbn [commitLoop]. change (LastIndex (r_RaftLog (with_commit r c0))) with (LastIndex (r_RaftLog r)).
  zif; [|by exists c0, b; split; [|left]].
  change (countMatched (with_commit r c0) idx) with (countMatched r idx).
  change (Term (r_RaftLog (with_commit r c0)) idx) with (Term (r_RaftLog r) idx).
  rewrite countMatched_ok by done. destruct (Term_total (r_RaftLog r) idx) as [t Ht]; [done|lia|].
  rewrite Ht. cbn [ignore_err]. rewrite u64_add_small by (unfold is_u64; lia).
  change (r_Term (with_commit r c0)) with (r_Term r).
  change (r_peers (with_commit r c0)) with (r_peers r).
  destruct ((t =? r_Term r) && _) eqn:Hq.
  - change ((with_commit r c0) <| r_RaftLog ::= fun l => l <| l_committed := idx |> |>)
      with (with_commit (with_commit r c0) idx). rewrite with_commit_twice.
    destruct (IH idx (idx + 1) true) as (c & b' & Hr & Hcase); [lia..|].
    exists c, b'. split; [done|right].
    destruct Hcase as [[-> ->]|(Hc' & Hb & ->)]; [|split; [lia|done]].
    split; [lia|]. split; [|done]. split; [|lia]. rewrite Ht. f_equal. lia.
  - destruct (IH c0 (idx + 1) b) as (c & b' & Hr & Hcase); [lia..|]. exists c, b'.
    split; [done|]. destruct Hcase as [Hsame|(Hc' & Hb)]; [by left|right]. split; [lia|done].
Qed.

Lemma with_commit_same r : with_commit r (l_committed (r_RaftLog r)) = r.
Proof. by destruct r as [? ? ? ? ? [] ? ? ? ? ? ? ? ? ? ? ? ? ? ?]. Qed.

(** The group without [id], before the commit index is reconsidered. *)
Definition without (r : Raft S) (id : Z) : Raft S :=
  r <| r_Prs := delete id (r_Prs r) |>
    <| r_peers := filter (fun p => p <> id) (r_peers r) |>.

Lemma without_wf r id : raft_wf r -> id <> r_id r -> raft_wf (without r id).
Proof.
  intros (Hl & Hst & Ht & Hid & Hps) Hne. split_and!; try done; cbn.
  - by rewrite lookup_delete_ne.
  - intros p [Hp Hin]%list_elem_of_filter. rewrite lookup_delete_ne by congruence. by apply Hps.
Qed.

(** What the leader does after the removal. *)
Lemma recommit_wp r :
  raft_wf r ->
  let l := r_RaftLog r in
  wp (let! (x, newCommit) :=
        commitLoop r (Z.to_nat (LastIndex l - l_committed l + 2)) (l_committed l ⊞ 1) false in
      if newCommit then broadCastAE x else Ret x)
    (fun r' => good r r' /\ r_peers r' = r_peers r /\
       (l_committed l < l_committed (r_RaftLog r') -> commit_backed r (l_committed (r_RaftLog r')))).
Proof.
  intros Hw. cbv zeta. pose proof (raft_wf_log _ Hw) as Hl. pose proof (lw_committed _ Hl).
  pose proof (lw_applied _ Hl). pose proof (ls_snap _ (lw_shape _ Hl)).
  pose proof (ls_room _ (lw_shape _ Hl)). pose proof (LastIndex_shape _ (lw_shape _ Hl)).
  rewrite u64_add_small by (unfold is_u64; lia).
  destruct (commitLoop_ok r (l_committed (r_RaftLog r)) (Z.to_nat (LastIndex (r_RaftLog r) - l_committed (r_RaftLog r) + 2))
    (l_committed (r_RaftLog r) + 1) false) as (c & b & Hr & Hcase);
    [intros; by apply raft_wf_peer|apply Hl|lia..|].
  rewrite with_commit_same in Hr. rewrite Hr.
  destruct Hcase as [[-> ->]|(Hc & Hb & ->)].
  - rewrite with_commit_same. apply wp_ret. split_and!; [by apply good_same|done|lia].
  - assert (Hw1 : raft_wf (with_commit r c)) by (apply commitTo_wf; [done|lia]).
    eapply wp_mono; [by apply broadCastAE_wp|]. intros r' [Hw' Hs].
    assert (Hg : good r (with_commit r c)) by (split; [done|apply commit_grows; lia]).
    split_and!.
    + by eapply good_sends.
    + by rewrite (sends_peers _ _ Hs).
    + intros _. destruct (sends_core _ _ Hs) as (_ & _ & _ & Hcm & _). by rewrite Hcm.
Qed.

(** The outcome of removing [id]. *)
Record removed (r : Raft S) (id : Z) (r' : Raft S) : Prop := {
  rm_wf : raft_wf r';
  rm_peers : r_peers r' = filter (fun p => p <> id) (r_peers r);
  rm_log : grows (r_RaftLog r) (r_RaftLog r');
  rm_commit : l_committed (r_RaftLog r) < l_committed (r_RaftLog r') ->
    r_State r = StateLeader /\ commit_backed (without r id) (l_committed (r_RaftLog r'));
}.

(** Removing another member never panics, keeps the invariant, leaves exactly the
    other members and an extended log; if the commit index rises, the peer is leader,
    the entry is of its term and a majority of the remaining members hold it. *)
Theorem removeNode_safe r id :
  raft_wf r -> NoDup (r_peers r) -> id <> r_id r ->
  exists r', removeNode r id = Ret r' /\ removed r id r'.
Proof.
  intros Hw Hnd Hne. apply wp_inv. unfold removeNode.
  destruct (containsPeer r id) eqn:Hc; cbn [negb].
  2:{ apply wp_ret. split; [done| |reflexivity|lia]. symmetry. apply filter_absent. intros Hin.
      rewrite <- not_true_iff_false in Hc. apply Hc, existsb_exists. exists id.
      split; [by apply list_elem_of_In|apply Z.eqb_refl]. }
  set (r1 := r <| r_Prs := _ |>). rewrite (removePeer_filter r1 id Hnd).
  change (r1 <| r_peers := _ |>) with (without r id).
  assert (Hw2 := without_wf r id Hw Hne). apply wp_bind.
  eapply (wp_mono _ (fun r' => good r r' /\ r_peers r' = r_peers (without r id) /\
    (l_committed (r_RaftLog r) < l_committed (r_RaftLog r') ->
     r_State r = StateLeader /\ commit_backed (without r id) (l_committed (r_RaftLog r'))))).
  - case_decide as Hst.
    + eapply wp_mono; [apply (recommit_wp (without r id) Hw2)|]. intros r' (Hg & Hp & Hb).
      split_and!; [exact Hg|exact Hp|]. intros Hlt. split; [exact Hst|by apply Hb].
    + apply wp_ret. split_and!; [by apply good_same|done|cbn; lia].
  - intros r' ([Hw' Hg] & Hp & Hb). apply wp_ret. by split.
Qed.

(** Adding a member keeps the invariant and adds it once; an existing member's
    progress is untouched, and a new one starts with nothing matched. *)
Theorem addNode_safe r id :
  raft_wf r ->
  raft_wf (addNode r id) /\
  (forall p, p ∈ r_peers (addNode r id) <-> p ∈ r_peers r \/ p = id) /\
  (NoDup (r_peers r) -> NoDup (r_peers (addNode r id))) /\
  (id ∈ r_peers r -> r_Prs (addNode r id) = r_Prs r) /\
  (id ∉ r_peers r -> r_Prs (addNode r id) !! id = Some (mkProgress 0 (LastIndex (r_RaftLog r)))).
Proof.
  intros (Hl & Hst & Ht & Hid & Hps).
  assert (Hc : containsPeer r id = true <-> id ∈ r_peers r).
  { unfold containsPeer. rewrite existsb_exists. split.
    - intros (x & Hx & Heq). apply list_elem_of_In in Hx. by replace id with x by lia.
    - intros Hin. exists id. split; [by apply list_elem_of_In|apply Z.eqb_refl]. }
  unfold addNode. destruct (containsPeer r id).
  - assert (Hin : id ∈ r_peers r) by (by apply Hc).
    split_and!; [by split_and!|cbn; set_solver|done|done|done].
  - assert (Hno : id ∉ r_peers r) by (intros Hin; by apply Hc in Hin).
    split_and!; [split_and!; try done|..]; cbn.
    + rewrite lookup_insert_is_Some. destruct (decide (id = r_id r)); auto.
    + intros p Hp. rewrite lookup_insert_is_Some. destruct (decide (id = p)); [by left|right].
      split; [done|]. apply Hps. set_solver.
    + set_solver.
    + intros Hnd. apply list.NoDup_app. split_and!; [done|set_solver|apply NoDup_singleton].
    + done.
    + intros _. by rewrite lookup_insert_eq.
Qed.

End Conf.

(** ** Concrete runs *)

Lemma removeNode_safe_witness :
  exists r', removeNode demo_leader 3 = Ret r' /\ removed demo_leader 3 r'.
Proof.
  apply (removeNode_safe demo_leader 3).
  - apply demo_leader_wf.
  - apply (bool_decide_unpack _). by vm_compute.
  - by vm_compute.
Defined.

Lemma addNode_safe_witness :
  raft_wf (addNode demo_leader 4) /\
  r_Prs (addNode demo_leader 4) !! 4 = Some (mkProgress 0 (LastIndex (r_RaftLog demo_leader))).
Proof.
  destruct (addNode_safe demo_leader 4 demo_leader_wf) as (Hw & _ & _ & _ & Hn).
  split; [exact Hw|]. apply Hn. apply (bool_decide_unpack _). by vm_compute.
Defined.
