(* ===== verification/Codec.v ===== *)
(** * Codec: memcomparable byte strings

    [EncodeBytes] and [DecodeBytes] of [kv/util/codec/codec.go]: groups of eight
    bytes, each followed by a marker that says how many bytes of it are padding.
    [enc] is the encoding as a recursive function; the loops of the code are proved
    to compute it, the decoder to invert it exactly, and the byte order of encoded
    keys to be the order of the keys. *)

From stdpp Require Import base option list tactics.
From S2P Require Import Prelude.

Definition encGroupSize : Z := 8.
Definition encMarker : Z := 255.
Definition encPad : Z := 0.
Definition pads : list Z := replicate (Z.to_nat encGroupSize) 0.

(** The errors of [DecodeBytes]; the message texts are not modelled. *)
Inductive codec_error :=
  | ErrInsufficient (n : Z)
  | ErrMarker (groupBytes : list Z)
  | ErrPadding (groupBytes : list Z).

(** [byte(z)]. *)
Definition byte (z : Z) : Z := z mod 256.

(** The loop of [EncodeBytes]: one round per group. *)
Fixpoint encodeLoop {E} (data : list Z) (fuel : nat) (idx : Z) (result : list Z)
    : outcome E (list Z) :=
  match fuel with
  | O => OutOfFuel
  | S fuel' =>
    if idx <=? len data then
      let remain := len data - idx in
      let! (result, padCount) :=
        (if remain >=? encGroupSize then
           let! group := slice data idx (idx + encGroupSize) in
           Ret (result ++ group, 0)
         else
           let padCount := encGroupSize - remain in
           let! rest := slice_from data idx in
           let! padding := slice_to pads padCount in
           Ret (result ++ rest ++ padding, padCount)) in
      let marker := byte (encMarker - byte padCount) in
      encodeLoop data fuel' (idx + encGroupSize) (result ++ [marker])
    else Ret result
  end.
Definition EncodeBytes {E} (data : list Z) : outcome E (list Z) :=
  encodeLoop data (S (S (length data))) 0 [].

(** The loop of [DecodeBytes]: it returns the leftover bytes and the value. *)
Fixpoint decodeLoop (fuel : nat) (b data : list Z)
    : outcome codec_error (list Z * list Z) :=
  match fuel with
  | O => OutOfFuel
  | S fuel' =>
    if len b <? encGroupSize + 1 then Err (ErrInsufficient (len b)) else
    let! groupBytes := slice_to b (encGroupSize + 1) in
    let! group := slice_to groupBytes encGroupSize in
    let! marker := index groupBytes encGroupSize in
    let padCount := byte (encMarker - marker) in
    if padCount >? encGroupSize then Err (ErrMarker groupBytes) else
    let realGroupSize := encGroupSize - padCount in
    let! real := slice_to group realGroupSize in
    let data := data ++ real in
    let! b := slice_from b (encGroupSize + 1) in
    if negb (padCount =? 0) then
      let! padding := slice_from group realGroupSize in
      if forallb (fun v => v =? encPad) padding then Ret (b, data)
      else Err (ErrPadding groupBytes)
    else decodeLoop fuel' b data
  end.
Definition DecodeBytes (b : list Z) : outcome codec_error (list Z * list Z) :=
  decodeLoop (S (length b)) b [].

(** ** The encoding as a recursive function *)

(** A group: at most eight bytes, padded, and the marker. *)
Definition pad (g : list Z) : list Z := g ++ replicate (8 - length g) 0.
Definition mark (g : list Z) : Z := 247 + len g.

Fixpoint enc (data : list Z) : list Z :=
  match data with
  | a :: b :: c :: d :: e :: f :: g :: h :: rest =>
    [a; b; c; d; e; f; g; h; 255] ++ enc rest
  | _ => pad data ++ [mark data]
  end.

Lemma pad_length g : (length g <= 8)%nat -> length (pad g) = 8%nat.
Proof. intros. unfold pad. rewrite length_app, length_replicate. lia. Qed.

Lemma pad_full g : length g = 8%nat -> pad g = g.
Proof. intros Hg. unfold pad. rewrite Hg. apply app_nil_r. Qed.

Lemma enc_full g rest : length g = 8%nat -> enc (g ++ rest) = pad g ++ mark g :: enc rest.
Proof.
  intros Hg. rewrite (pad_full g Hg). unfold mark, len. rewrite Hg.
  do 8 (destruct g as [|? g]; [discriminate|]). by destruct g.
Qed.

Lemma enc_short g : (length g < 8)%nat -> enc g = pad g ++ [mark g].
Proof. intros Hg. do 8 (destruct g as [|? g]; [done|]). simpl in Hg. lia. Qed.

(** Induction on the groups of a string. *)
Lemma groups_ind (P : list Z -> Prop) :
  (forall g, (length g < 8)%nat -> P g) ->
  (forall g rest, length g = 8%nat -> P rest -> P (g ++ rest)) ->
  forall data, P data.
Proof.
  intros Hs Hf data. remember (length data) as n eqn:Hn.
  revert data Hn. induction (lt_wf n) as [n _ IH]. intros data ->.
  destruct (decide (length data < 8)%nat) as [|Hl]; [by apply Hs|].
  rewrite <- (take_drop 8 data). apply Hf; [rewrite length_take; lia|].
  eapply IH; [|done]. rewrite length_drop. lia.
Qed.

(** ** The loops compute it *)

Lemma encodeLoop_enc {E} suffix : forall pre result fuel,
  (length suffix + 2 <= fuel)%nat ->
  encodeLoop (E:=E) (pre ++ suffix) fuel (len pre) result = Ret (result ++ enc suffix).
Proof.
  induction suffix as [g Hg|g rest Hg IH] using groups_ind; intros pre result fuel Hf;
    (destruct fuel as [|fuel]; [lia|]); cbn [encodeLoop]; rewrite len_app;
    pose proof (len_nonneg g); unfold encGroupSize.
  - zif; [|lia]. zif; [unfold len in *; lia|].
    rewrite slice_from_ok by (rewrite len_app; pose proof (len_nonneg pre); lia).
    replace (Z.to_nat (len pre)) with (length pre) by (unfold len; lia). rewrite drop_app_length.
    rewrite slice_to_ok by (change (len pads) with 8; unfold len in *; lia).
    destruct fuel as [|fuel]; [lia|]. cbn [encodeLoop]. rewrite len_app.
    zif; [unfold len in *; lia|]. f_equal. rewrite enc_short by done. unfold pad.
    rewrite <- !app_assoc. do 3 f_equal.
    + unfold pads. rewrite take_replicate. f_equal. unfold encGroupSize, len. lia.
    + unfold byte, mark, encMarker. f_equal. unfold len in *.
      rewrite (Z.mod_small (8 - _)), Z.mod_small; lia.
  - rewrite len_app. assert (Hg8 : len g = 8) by (unfold len; lia). rewrite Hg8.
    pose proof (len_nonneg rest). zif; [|lia]. zif; [|lia].
    rewrite slice_ok by (rewrite ?len_app; pose proof (len_nonneg pre); lia).
    replace (Z.to_nat (len pre)) with (length pre) by (unfold len; lia). rewrite drop_app_length.
    replace (Z.to_nat (len pre + 8 - len pre)) with (length g) by lia. rewrite take_app_length.
    replace (len pre + 8) with (len (pre ++ g)) by (rewrite len_app; lia).
    rewrite app_assoc, IH by (rewrite length_app in Hf; lia).
    rewrite enc_full, pad_full by done. unfold mark. rewrite Hg8. by rewrite <- !app_assoc.
Qed.

Lemma EncodeBytes_enc {E} data : EncodeBytes (E:=E) data = Ret (enc data).
Proof. apply (encodeLoop_enc data [] []). lia. Qed.

(** One round of the decoder on a group and its marker. *)
Lemma decodeLoop_group fuel g mk b acc :
  length g = 8%nat ->
  decodeLoop (S fuel) (g ++ mk :: b) acc =
    (let padCount := byte (255 - mk) in
     if padCount >? 8 then Err (ErrMarker (g ++ [mk])) else
     let data := acc ++ take (Z.to_nat (8 - padCount)) g in
     if padCount =? 0 then decodeLoop fuel b data
     else if forallb (fun v => v =? 0) (drop (Z.to_nat (8 - padCount)) g)
     then Ret (b, data) else Err (ErrPadding (g ++ [mk]))).
Proof.
  intros Hg. assert (Hg8 : len g = 8) by (unfold len; lia).
  assert (Hm : 0 <= byte (255 - mk)) by (apply Z.mod_pos_bound; lia).
  cbn [decodeLoop]. rewrite len_app, len_cons. unfold encGroupSize. pose proof (len_nonneg b).
  zif; [lia|]. rewrite slice_to_ok by (rewrite len_app, len_cons; lia).
  assert (Ht : take (Z.to_nat (8 + 1)) (g ++ mk :: b) = g ++ [mk]).
  { rewrite take_app, Hg. rewrite take_ge by lia. done. }
  rewrite Ht. rewrite (slice_to_ok (g ++ [mk])) by (rewrite len_app; change (len [mk]) with 1; lia).
  replace (Z.to_nat 8) with (length g) by lia. rewrite take_app_length.
  rewrite (index_lookup _ 8 mk) by (try lia; rewrite lookup_app_r by lia; by rewrite Hg).
  unfold encMarker. cbv zeta. zif; [done|].
  rewrite slice_to_ok by lia.
  rewrite slice_from_ok by (rewrite len_app, len_cons; lia).
  assert (Hd : drop (Z.to_nat (8 + 1)) (g ++ mk :: b) = b).
  { rewrite drop_app, Hg. rewrite drop_ge by lia. done. }
  rewrite Hd. zif; cbn [negb]; [done|]. by rewrite slice_from_ok by lia.
Qed.

(** ** Decoding inverts encoding, exactly *)

Lemma byte_mark g : (length g <= 8)%nat -> byte (255 - mark g) = 8 - len g.
Proof. intros. unfold byte, mark. rewrite Z.mod_small; unfold len; lia. Qed.

Lemma pad_take g : take (Z.to_nat (len g)) (pad g) = g.
Proof. unfold len, pad. rewrite Nat2Z.id. apply take_app_length. Qed.
Lemma pad_drop g : drop (Z.to_nat (len g)) (pad g) = replicate (8 - length g) 0.
Proof. unfold len, pad. rewrite Nat2Z.id. apply drop_app_length. Qed.

Lemma forallb_zeros n : forallb (fun v => v =? 0) (replicate n 0) = true.
Proof. by induction n. Qed.

Lemma zeros_forallb l : forallb (fun v => v =? 0) l = true -> l = replicate (length l) 0.
Proof.
  induction l as [|x l IH]; [done|]. simpl. intros [Hx Hl]%andb_prop.
  apply Z.eqb_eq in Hx as ->. f_equal. by apply IH.
Qed.

Lemma decodeLoop_enc data : forall rest acc fuel,
  (length data < fuel)%nat -> decodeLoop fuel (enc data ++ rest) acc = Ret (rest, acc ++ data).
Proof.
  induction data as [g Hg|g data Hg IH] using groups_ind; intros rest acc fuel Hf;
    (destruct fuel as [|fuel]; [lia|]).
  - rewrite enc_short, <- app_assoc by done. cbn [app].
    rewrite decodeLoop_group by (apply pad_length; lia). rewrite byte_mark by lia. cbv zeta.
    replace (8 - (8 - len g)) with (len g) by lia. rewrite pad_take, pad_drop, forallb_zeros.
    pose proof (len_nonneg g). zif; [lia|]. zif; [unfold len in *; lia|done].
  - rewrite enc_full, <- app_assoc by done. cbn [app].
    rewrite decodeLoop_group by (apply pad_length; lia). rewrite byte_mark by lia. cbv zeta.
    replace (8 - (8 - len g)) with (len g) by lia. rewrite pad_take.
    assert (Hg8 : len g = 8) by (unfold len; lia). rewrite Hg8. cbn.
    rewrite IH by (rewrite length_app in Hf; lia). by rewrite app_assoc.
Qed.

(** What a successful decoder has read. *)
Lemma decodeLoop_canonical fuel : forall b acc rest data,
  is_bytes b -> decodeLoop fuel b acc = Ret (rest, data) ->
  exists v, data = acc ++ v /\ b = enc v ++ rest.
Proof.
  induction fuel as [|fuel IH]; intros b acc rest data Hb; [done|].
  destruct (decide (len b < 9)) as [Hs|Hl].
  { cbn [decodeLoop]. unfold encGroupSize. zif; [done|lia]. }
  rewrite <- (take_drop 8 b) in Hb |- *. set (g := take 8 b) in *.
  assert (Hg : length g = 8%nat) by (unfold g; rewrite length_take; unfold len in *; lia).
  destruct (drop 8 b) as [|mk b'] eqn:Hd.
  { apply (f_equal length) in Hd. rewrite length_drop in Hd. unfold len in *. simpl in Hd. lia. }
  apply Forall_app in Hb as [_ [Hmk Hb']%list.Forall_cons].
  rewrite decodeLoop_group by done. unfold byte, is_byte in *. cbv zeta.
  rewrite Z.mod_small by lia. zif; [done|]. set (n := Z.to_nat (8 - (255 - mk))).
  assert (Hmark : mark (take n g) = mk).
  { unfold mark, len. rewrite length_take, Hg. unfold n. lia. }
  zif.
  - intros (v & -> & ->)%IH; [|done]. exists (g ++ v).
    rewrite take_ge in Hmark |- * by (unfold n; lia). split; [by rewrite app_assoc|].
    rewrite enc_full, pad_full, Hmark, <- app_assoc by done. done.
  - destruct (forallb _ _) eqn:Hz; [|done]. intros [= <- <-]. exists (take n g). split; [done|].
    apply zeros_forallb in Hz. rewrite enc_short by (rewrite length_take; unfold n; lia).
    rewrite Hmark, <- app_assoc. cbn [app]. f_equal. unfold pad.
    rewrite <- (take_drop n g) at 1. f_equal. rewrite Hz. f_equal.
    rewrite length_drop, length_take, Hg. unfold n. lia.
Qed.

(** [DecodeBytes] always returns: a value or an error. *)
Lemma decodeLoop_total fuel : forall b acc,
  (length b < fuel)%nat ->
  (exists r, decodeLoop fuel b acc = Ret r) \/ (exists e, decodeLoop fuel b acc = Err e).
Proof.
  induction fuel as [|fuel IH]; intros b acc Hf; [lia|].
  destruct (decide (len b < 9)) as [Hs|Hl].
  { right. cbn [decodeLoop]. unfold encGroupSize. zif; [by eexists|lia]. }
  rewrite <- (take_drop 8 b). assert (Hg : length (take 8 b) = 8%nat).
  { rewrite length_take. unfold len in *. lia. }
  destruct (drop 8 b) as [|mk b'] eqn:Hd.
  { apply (f_equal length) in Hd. rewrite length_drop in Hd. unfold len in *. simpl in Hd. lia. }
  assert (Hb' : (length b' < fuel)%nat).
  { apply (f_equal length) in Hd. rewrite length_drop in Hd. simpl in Hd. lia. }
  rewrite decodeLoop_group by done. cbv zeta.
  zif; [by right; eexists|]. zif; [by apply IH|]. bif; [left|right]; by eexists.
Qed.

(** ** Order *)

(** A shorter string on one side: what follows the longer one does not matter. *)
Lemma bytes_compare_short_l a : forall b y,
  (length a < length b)%nat -> bytes_compare a (b ++ y) = bytes_compare a b.
Proof.
  induction a as [|u a IH]; intros [|v b] y H; simpl in *; try done; try lia.
  destruct (u ?= v); [apply IH; lia|done|done].
Qed.
Lemma bytes_compare_short_r b : forall a y,
  (length b < length a)%nat -> bytes_compare (a ++ y) b = bytes_compare a b.
Proof.
  induction b as [|v b IH]; intros [|u a] y H; simpl in *; try done; try lia.
  destruct (u ?= v); [apply IH; lia|done|done].
Qed.

(** Against zeros a string of bytes is the larger one, unless it is all zeros. *)
Lemma compare_zeros_l b : is_bytes b ->
  match bytes_compare (replicate (length b) 0) b with Eq | Lt => True | Gt => False end.
Proof.
  induction 1 as [|v b Hv _ IH]; cbn [length replicate bytes_compare]; [done|]. unfold is_byte in Hv.
  destruct (Z.compare_spec 0 v); [exact IH|done|lia].
Qed.
Lemma compare_zeros_r b : is_bytes b ->
  match bytes_compare b (replicate (length b) 0) with Eq | Gt => True | Lt => False end.
Proof.
  induction 1 as [|v b Hv _ IH]; cbn [length replicate bytes_compare]; [done|]. unfold is_byte in Hv.
  destruct (Z.compare_spec v 0); [exact IH|lia|done].
Qed.

Lemma is_bytes_padded a n : is_bytes a -> is_bytes (a ++ replicate n 0).
Proof.
  intros Ha. apply Forall_app. split; [done|]. apply Forall_replicate. unfold is_byte. lia.
Qed.

(** Padding with zeros and then comparing the lengths is comparing the strings. *)
Lemma padded_compare n : forall a b,
  is_bytes a -> is_bytes b -> (length a <= n)%nat -> (length b <= n)%nat ->
  match bytes_compare (a ++ replicate (n - length a) 0) (b ++ replicate (n - length b) 0) with
  | Eq => len a ?= len b
  | c => c
  end = bytes_compare a b.
Proof.
  induction n as [|n IH]; intros [|u a] [|v b] Ha Hb Hla Hlb; cbn [length] in *; try lia; try done.
  - cbn [app]. by rewrite bytes_compare_refl.
  - pose proof Hb as Hb2. apply list.Forall_cons in Hb as [Hv Hb]. unfold is_byte in Hv.
    pose proof (compare_zeros_l ((v :: b) ++ replicate (n - length b) 0)) as Hc.
    rewrite length_app, length_replicate in Hc. cbn [length] in Hc.
    replace (S (length b) + (n - length b))%nat with (S n) in Hc by lia. cbn [app Nat.sub] in *.
    destruct (bytes_compare _ _); [|done|destruct Hc].
    + rewrite len_cons. pose proof (len_nonneg b). apply Z.compare_lt_iff. unfold len in *. simpl. lia.
    + apply (is_bytes_padded (v :: b)), Hb2.
  - pose proof Ha as Ha2. apply list.Forall_cons in Ha as [Hu Ha]. unfold is_byte in Hu.
    pose proof (compare_zeros_r ((u :: a) ++ replicate (n - length a) 0)) as Hc.
    rewrite length_app, length_replicate in Hc. cbn [length] in Hc.
    replace (S (length a) + (n - length a))%nat with (S n) in Hc by lia. cbn [app Nat.sub] in *.
    destruct (bytes_compare _ _); [|destruct Hc|done].
    + rewrite len_cons. pose proof (len_nonneg a). apply Z.compare_gt_iff. unfold len in *. simpl. lia.
    + apply (is_bytes_padded (u :: a)), Ha2.
  - apply list.Forall_cons in Ha as [Hu Ha]. apply list.Forall_cons in Hb as [Hv Hb].
    cbn [Nat.sub app bytes_compare]. rewrite <- (IH a b) by (done || lia).
    destruct (u ?= v); [|done|done]. rewrite !len_cons, !(Z.add_comm _ 1), Z.add_compare_mono_l. done.
Qed.

(** Groups with their markers compare as the bytes they hold. *)
Lemma group_compare a b x y :
  is_bytes a -> is_bytes b -> (length a <= 8)%nat -> (length b <= 8)%nat -> a <> b ->
  bytes_compare (pad a ++ mark a :: x) (pad b ++ mark b :: y) = bytes_compare a b.
Proof.
  intros Ha Hb Hla Hlb Hne. rewrite bytes_compare_app by (rewrite !pad_length; done).
  pose proof (padded_compare 8 a b Ha Hb Hla Hlb) as Hp. fold (pad a) (pad b) in Hp.
  rewrite <- Hp. cbn [bytes_compare]. unfold mark. rewrite Z.add_compare_mono_l.
  destruct (bytes_compare (pad a) (pad b)) eqn:He; [|done|done].
  destruct (len a ?= len b) eqn:Hlen; [|done|done]. destruct Hne.
  by apply bytes_compare_eq.
Qed.

Lemma enc_compare a : forall b x y,
  is_bytes a -> is_bytes b -> a <> b ->
  bytes_compare (enc a ++ x) (enc b ++ y) = bytes_compare a b.
Proof.
  induction a as [a Hla|g a Hg IH] using groups_ind; intros b x y Ha Hb Hne;
    (destruct (decide (length b < 8)%nat) as [Hlb|Hlb];
     [|rewrite <- (take_drop 8 b) in Hb, Hne |- *; apply Forall_app in Hb as [Hb1 Hb2];
       assert (Hg2 : length (take 8 b) = 8%nat) by (rewrite length_take; lia)]).
  - rewrite !enc_short, <- !app_assoc by done. apply group_compare; done || lia.
  - rewrite enc_short, enc_full, <- !app_assoc by done. cbn [app].
    rewrite group_compare by (try done; try lia; intros ->; lia).
    rewrite bytes_compare_short_l by lia. done.
  - apply Forall_app in Ha as [Ha1 Ha2]. rewrite enc_full, (enc_short b), <- !app_assoc by done.
    cbn [app]. rewrite group_compare by (try done; try lia; intros ->; lia).
    rewrite bytes_compare_short_r by lia. done.
  - apply Forall_app in Ha as [Ha1 Ha2]. rewrite !enc_full, <- !app_assoc by done. cbn [app].
    destruct (decide (g = take 8 b)) as [Hge|Hgne].
    + rewrite <- Hge in Hne |- *. rewrite !bytes_compare_app by done. rewrite !bytes_compare_refl. cbn [bytes_compare].
      rewrite Z.compare_refl. apply IH; [done..|]. by intros ->.
    + rewrite group_compare by (try done; lia). rewrite bytes_compare_app by lia.
      destruct (bytes_compare g (take 8 b)) eqn:He; [|done|done].
      by apply bytes_compare_eq in He.
Qed.

Lemma enc_length data : (length data <= length (enc data))%nat.
Proof.
  induction data as [g Hg|g data Hg IH] using groups_ind.
  - rewrite enc_short by done. unfold pad. rewrite !length_app. lia.
  - rewrite enc_full by done. unfold pad. rewrite !length_app. simpl. lia.
Qed.

Lemma DecodeBytes_enc data rest : DecodeBytes (enc data ++ rest) = Ret (rest, data).
Proof.
  unfold DecodeBytes. rewrite decodeLoop_enc; [done|].
  pose proof (enc_length data). rewrite length_app. lia.
Qed.

(** ** The contract of the codec *)

(** Decoding an encoded string gives it back together with whatever follows it,
    and encoding never panics. *)
Theorem EncodeBytes_roundtrip data rest :
  exists b, EncodeBytes (E:=codec_error) data = Ret b /\ DecodeBytes (b ++ rest) = Ret (rest, data).
Proof.
  exists (enc data). split; [apply EncodeBytes_enc|apply DecodeBytes_enc].
Qed.

(** The decoder accepts nothing but encodings: on every input it returns a value or
    an error, and when it returns a value the bytes it read are exactly the
    encoding of that value. *)
Theorem DecodeBytes_canonical b :
  is_bytes b ->
  (exists e, DecodeBytes b = Err e) \/
  (exists rest data enc, DecodeBytes b = Ret (rest, data)
     /\ EncodeBytes (E:=codec_error) data = Ret enc /\ b = enc ++ rest).
Proof.
  intros Hb. destruct (decodeLoop_total (S (length b)) b [] ltac:(lia)) as [[[rest data] Hr]|He];
    [right|by left].
  destruct (decodeLoop_canonical _ _ _ _ _ Hb Hr) as (v & -> & Hv).
  exists rest, v, (enc v). split_and!; [exact Hr|apply EncodeBytes_enc|exact Hv].
Qed.

(** The encoding keeps the byte order, also when more bytes follow: two different
    strings compare as their encodings do. *)
Theorem EncodeBytes_order a b x y :
  is_bytes a -> is_bytes b -> a <> b ->
  exists ea eb, EncodeBytes (E:=codec_error) a = Ret ea /\ EncodeBytes (E:=codec_error) b = Ret eb
    /\ bytes_compare (ea ++ x) (eb ++ y) = bytes_compare a b.
Proof.
  intros. exists (enc a), (enc b). split_and!; [apply EncodeBytes_enc..|by apply enc_compare].
Qed.

(** ** Concrete runs *)

Lemma DecodeBytes_canonical_witness :
  (exists e, DecodeBytes [1; 2; 3; 0; 0; 0; 0; 0; 250; 7] = Err e) \/
  (exists rest data enc, DecodeBytes [1; 2; 3; 0; 0; 0; 0; 0; 250; 7] = Ret (rest, data)
     /\ EncodeBytes (E:=codec_error) data = Ret enc
     /\ [1; 2; 3; 0; 0; 0; 0; 0; 250; 7] = enc ++ rest).
Proof.
  apply (DecodeBytes_canonical [1; 2; 3; 0; 0; 0; 0; 0; 250; 7]).
  repeat constructor; unfold is_byte; lia.
Defined.

Lemma EncodeBytes_order_witness :
  exists ea eb, EncodeBytes (E:=codec_error) [1; 2; 3] = Ret ea
    /\ EncodeBytes (E:=codec_error) [1; 2; 3; 0] = Ret eb
    /\ bytes_compare (ea ++ [9]) (eb ++ []) = Lt.
Proof.
  apply (EncodeBytes_order [1; 2; 3] [1; 2; 3; 0] [9] []); [| |done];
    repeat constructor; unfold is_byte; lia.
Defined.
