(* ===== verification/GoHeap.v ===== *)
(** * GoHeap: slices that share their backing arrays

    Most components only read the bytes of a slice, and are modelled with lists.
    Code whose effect depends on two slices sharing an array ([append] within the
    capacity writes in place) is modelled with this heap.  The size [append] gives
    to a new array is not fixed by the language: [grow] is a parameter. *)

From stdpp Require Import base option list gmap tactics.
From S2P Require Import Prelude.

(** A slice header: the array, the first byte, the length and the capacity. *)
Record gslice := mkSlice { s_arr : nat; s_off : nat; s_len : nat; s_cap : nat }.

(** The arrays, and the name of the next one. *)
Record heap := mkHeap { h_arrays : gmap nat (list Z); h_next : nat }.

Definition array (h : heap) (a : nat) : list Z := default [] (h_arrays h !! a).

(** The bytes of a slice. *)
Definition read (h : heap) (s : gslice) : list Z :=
  take (s_len s) (drop (s_off s) (array h (s_arr s))).

(** [overwrite l i bs]: the bytes of [l] from [i] on replaced by [bs]. *)
Definition overwrite (l : list Z) (i : nat) (bs : list Z) : list Z :=
  take i l ++ bs ++ drop (i + length bs) l.

Definition write_at (h : heap) (a i : nat) (bs : list Z) : heap :=
  mkHeap (<[a := overwrite (array h a) i bs]> (h_arrays h)) (h_next h).

(** [append(s, bs...)]. *)
Definition append (grow : nat -> nat -> nat) (h : heap) (s : gslice) (bs : list Z)
    : heap * gslice :=
  let n := (s_len s + length bs)%nat in
  if decide (n <= s_cap s)%nat then
    (write_at h (s_arr s) (s_off s + s_len s) bs, mkSlice (s_arr s) (s_off s) n (s_cap s))
  else
    let cap := grow (s_cap s) n in
    (mkHeap (<[h_next h := read h s ++ bs ++ replicate (cap - n) 0]> (h_arrays h))
       (S (h_next h)),
     mkSlice (h_next h) 0 n cap).

(** [s[lo:]]: the window keeps the capacity behind it. *)
Definition reslice_from {E} (s : gslice) (lo : Z) : outcome E gslice :=
  if (0 <=? lo) && (lo <=? Z.of_nat (s_len s)) then
    let n := Z.to_nat lo in
    Ret (mkSlice (s_arr s) (s_off s + n) (s_len s - n) (s_cap s - n))
  else Panic.

(** [s[:hi]]: up to the capacity. *)
Definition reslice_to {E} (s : gslice) (hi : Z) : outcome E gslice :=
  if (0 <=? hi) && (hi <=? Z.of_nat (s_cap s)) then
    Ret (mkSlice (s_arr s) (s_off s) (Z.to_nat hi) (s_cap s))
  else Panic.

(** ** Big-endian integers *)

Definition be64 (v : Z) : list Z :=
  map (fun k => Z.shiftr v k mod 256) [56; 48; 40; 32; 24; 16; 8; 0].

(** [binary.BigEndian.Uint64(b)]: it panics on fewer than eight bytes. *)
Definition Uint64 {E} (b : list Z) : outcome E Z :=
  match b with
  | b0 :: b1 :: b2 :: b3 :: b4 :: b5 :: b6 :: b7 :: _ =>
    Ret (Z.lor b7 (Z.lor (Z.shiftl b6 8) (Z.lor (Z.shiftl b5 16) (Z.lor (Z.shiftl b4 24)
      (Z.lor (Z.shiftl b3 32) (Z.lor (Z.shiftl b2 40) (Z.lor (Z.shiftl b1 48)
         (Z.shiftl b0 56))))))))
  | _ => Panic
  end.

(** [binary.BigEndian.PutUint64(b, v)]. *)
Definition PutUint64 {E} (h : heap) (s : gslice) (v : Z) : outcome E heap :=
  if decide (8 <= s_len s)%nat then Ret (write_at h (s_arr s) (s_off s) (be64 v)) else Panic.

(** ** Facts *)

Lemma be64_length v : length (be64 v) = 8%nat.
Proof. done. Qed.

Lemma be64_bytes v : is_bytes (be64 v).
Proof. apply Forall_map, Forall_forall. intros k _. apply Z.mod_pos_bound. lia. Qed.

(** The number a big-endian byte string stands for. *)
Definition be_val (l : list Z) : Z := foldl (fun acc b => acc * 256 + b) 0 l.

Lemma lor_byte a b : is_byte a -> Z.lor a (Z.shiftl b 8) = b * 256 + a.
Proof.
  intros Ha. unfold is_byte in Ha. pose proof (Z.add_lor_land a (Z.shiftl b 8)) as H.
  assert (Hl : Z.land a (Z.shiftl b 8) = 0).
  { apply Z.bits_inj'. intros i Hi. rewrite Z.land_spec, Z.bits_0.
    destruct (Z.lt_ge_cases i 8); [by rewrite Z.shiftl_spec_low, andb_false_r by lia|].
    rewrite <- (Z.mod_small a (2 ^ 8)) by lia. by rewrite Z.mod_pow2_bits_high by lia. }
  rewrite Hl in H. rewrite Z.shiftl_mul_pow2 in H |- * by lia. change (2 ^ 8) with 256 in *. lia.
Qed.

Lemma Uint64_val {E} l rest :
  is_bytes l -> length l = 8%nat -> Uint64 (E:=E) (l ++ rest) = Ret (be_val l).
Proof.
  intros Hb Hl. do 8 (destruct l as [|? l]; [discriminate|]). destruct l; [|discriminate].
  unfold is_bytes in Hb. rewrite !list.Forall_cons in Hb.
  destruct Hb as (H0 & H1 & H2 & H3 & H4 & H5 & H6 & H7 & _).
  cbn [app Uint64]. f_equal. unfold be_val. cbn [foldl].
  rewrite <- !lor_byte, !Z.shiftl_lor, !Z.shiftl_shiftl by (done || lia).
  rewrite Z.shiftl_0_l, Z.lor_0_r. done.
Qed.

Lemma be_val_be64 v : is_u64 v -> be_val (be64 v) = v.
Proof.
  intros Hv. unfold is_u64, two64 in Hv.
  assert (Hs : forall k j, 0 <= k -> j = k + 8 ->
    Z.shiftr v j * 256 + Z.shiftr v k mod 256 = Z.shiftr v k).
  { intros k j Hk ->. rewrite <- Z.shiftr_shiftr by lia. rewrite (Z.shiftr_div_pow2 _ 8) by lia.
    change (2 ^ 8) with 256. pose proof (Z.div_mod (Z.shiftr v k) 256). lia. }
  unfold be_val, be64. cbn [map foldl].
  rewrite (Z.mod_small (Z.shiftr v 56) 256).
  2: { rewrite Z.shiftr_div_pow2 by lia. split; [apply Z.div_pos; lia|].
       apply Z.div_lt_upper_bound; lia. }
  rewrite Z.mul_0_l, Z.add_0_l, (Hs 48), (Hs 40), (Hs 32), (Hs 24), (Hs 16), (Hs 8), (Hs 0) by lia.
  apply Z.shiftr_0_r.
Qed.

Lemma compare_digit a b x y :
  is_byte x -> is_byte y ->
  (a * 256 + x ?= b * 256 + y) = match a ?= b with Eq => x ?= y | c => c end.
Proof.
  unfold is_byte. intros. destruct (Z.compare_spec a b) as [->| |].
  - apply Z.add_compare_mono_l.
  - apply Z.compare_lt_iff. lia.
  - apply Z.compare_gt_iff. lia.
Qed.

(** Big-endian strings of one length compare as the numbers. *)
Lemma be_val_compare_acc l1 : forall l2 a b,
  is_bytes l1 -> is_bytes l2 -> length l1 = length l2 ->
  (foldl (fun acc b => acc * 256 + b) a l1 ?= foldl (fun acc b => acc * 256 + b) b l2) =
    match a ?= b with Eq => bytes_compare l1 l2 | c => c end.
Proof.
  induction l1 as [|x l1 IH]; intros [|y l2] a b H1 H2 Hl; cbn [foldl length] in *; try done.
  - by destruct (a ?= b).
  - apply list.Forall_cons in H1 as [Hx H1]. apply list.Forall_cons in H2 as [Hy H2].
    rewrite IH by (done || lia). rewrite compare_digit by done.
    by destruct (a ?= b).
Qed.

Lemma be_val_compare l1 l2 :
  is_bytes l1 -> is_bytes l2 -> length l1 = length l2 ->
  (be_val l1 ?= be_val l2) = bytes_compare l1 l2.
Proof. intros. unfold be_val. by rewrite be_val_compare_acc. Qed.

Lemma be64_compare v w :
  is_u64 v -> is_u64 w -> bytes_compare (be64 v) (be64 w) = (v ?= w).
Proof.
  intros. rewrite <- be_val_compare by (done || apply be64_bytes). by rewrite !be_val_be64.
Qed.

Lemma be_val_range_acc l : forall a,
  is_bytes l ->
  a * 256 ^ len l <= foldl (fun acc b => acc * 256 + b) a l < (a + 1) * 256 ^ len l.
Proof.
  induction l as [|x l IH]; intros a Hb; cbn [foldl].
  - change (len []) with 0. lia.
  - apply list.Forall_cons in Hb as [Hx Hb]. unfold is_byte in Hx. specialize (IH (a * 256 + x) Hb).
    rewrite len_cons, Z.pow_add_r by (pose proof (len_nonneg l); lia).
    assert (0 < 256 ^ len l) by (apply Z.pow_pos_nonneg; [lia|apply len_nonneg]). nia.
Qed.

Lemma be_val_range l : is_bytes l -> length l = 8%nat -> is_u64 (be_val l).
Proof.
  intros Hb Hl. pose proof (be_val_range_acc l 0 Hb) as H. unfold len in H. rewrite Hl in H.
  unfold is_u64, two64. change (256 ^ Z.of_nat 8) with 18446744073709551616 in H. unfold be_val. lia.
Qed.

Lemma be64_be_val l : is_bytes l -> length l = 8%nat -> be64 (be_val l) = l.
Proof.
  intros Hb Hl. apply bytes_compare_eq.
  rewrite <- be_val_compare by (done || apply be64_bytes).
  rewrite be_val_be64 by (by apply be_val_range). apply Z.compare_refl.
Qed.

Lemma Uint64_be64 {E} v rest : is_u64 v -> Uint64 (E:=E) (be64 v ++ rest) = Ret v.
Proof.
  intros. rewrite Uint64_val by (done || apply be64_bytes). by rewrite be_val_be64.
Qed.

Lemma Uint64_be64_exact {E} v : is_u64 v -> Uint64 (E:=E) (be64 v) = Ret v.
Proof. intros Hv. rewrite <- (app_nil_r (be64 v)). by apply Uint64_be64. Qed.

(** ** The heap *)

(** A slice inside an allocated array. *)
Record slice_wf (h : heap) (s : gslice) : Prop := {
  sw_len : (s_len s <= s_cap s)%nat;
  sw_cap : (s_off s + s_cap s <= length (array h (s_arr s)))%nat;
  sw_arr : (s_arr s < h_next h)%nat;
}.

Lemma read_length h s : slice_wf h s -> length (read h s) = s_len s.
Proof. intros [? ? ?]. unfold read. rewrite length_take, length_drop. lia. Qed.

Lemma array_write h a i bs a' :
  array (write_at h a i bs) a' = if decide (a' = a) then overwrite (array h a) i bs else array h a'.
Proof.
  unfold array, write_at. cbn [h_arrays]. case_decide as Ha.
  - subst. by rewrite lookup_insert_eq.
  - by rewrite lookup_insert_ne.
Qed.

Lemma overwrite_length l i bs :
  (i + length bs <= length l)%nat -> length (overwrite l i bs) = length l.
Proof. intros. unfold overwrite. rewrite !length_app, length_take, length_drop. lia. Qed.

(** A window of an overwritten list: inside the window, and outside it. *)
Lemma overwrite_inside l o n i bs :
  (i + length bs <= n)%nat -> (o + n <= length l)%nat ->
  take n (drop o (overwrite l (o + i) bs)) = overwrite (take n (drop o l)) i bs.
Proof.
  intros Hi Ho. apply list_eq. intros k. unfold overwrite.
  destruct (decide (k < n)%nat) as [Hk|Hk].
  2: { rewrite !lookup_ge_None_2; [done|..];
         rewrite ?length_app, ?length_take, ?length_drop, ?length_take, ?length_drop; lia. }
  rewrite lookup_take_lt, lookup_drop by done.
  destruct (decide (k < i)%nat) as [H1|H1].
  { rewrite !lookup_app_l by (rewrite ?length_take, ?length_drop; lia).
    by rewrite !lookup_take_lt, lookup_drop by lia. }
  rewrite (lookup_app_r (take (o + i) l)) by (rewrite length_take; lia).
  rewrite (lookup_app_r (take i _)) by (rewrite !length_take, length_drop; lia).
  rewrite !length_take, length_drop.
  replace (o + k - (o + i) `min` length l)%nat with (k - i)%nat by lia.
  replace (k - i `min` (n `min` (length l - o)))%nat with (k - i)%nat by lia.
  destruct (decide (k - i < length bs)%nat) as [H2|H2]; [by rewrite !lookup_app_l by lia|].
  rewrite !(lookup_app_r bs), !lookup_drop by lia. rewrite lookup_take_lt, lookup_drop by lia.
  f_equal. lia.
Qed.

Lemma overwrite_outside l o n i bs :
  (i + length bs <= length l)%nat -> (o + n <= i \/ i + length bs <= o)%nat ->
  take n (drop o (overwrite l i bs)) = take n (drop o l).
Proof.
  intros Hi Ho. apply list_eq. intros k.
  destruct (decide (k < n)%nat) as [Hk|Hk]; [|by rewrite !lookup_take_ge by lia].
  rewrite !lookup_take_lt, !lookup_drop by lia. unfold overwrite. destruct Ho.
  - rewrite lookup_app_l by (rewrite length_take; lia). by rewrite lookup_take_lt by lia.
  - rewrite !lookup_app_r by (rewrite ?length_take; lia). rewrite lookup_drop, length_take.
    f_equal. lia.
Qed.

(** [x] does not reach into the spare capacity of [s]. *)
Definition apart (s x : gslice) : Prop :=
  s_arr x <> s_arr s \/ (s_off x + s_len x <= s_off s + s_len s)%nat
  \/ (s_off s + s_cap s <= s_off x)%nat.

(** [s'] lies where [s] lies, or in an array allocated after [h]. *)
Definition tail_of (h : heap) (s s' : gslice) : Prop :=
  s_arr s' = s_arr s /\ s_off s' = s_off s /\ s_cap s' = s_cap s \/ (h_next h <= s_arr s')%nat.

Lemma write_wf h a i bs x :
  (i + length bs <= length (array h a))%nat -> slice_wf h x -> slice_wf (write_at h a i bs) x.
Proof.
  intros Hi [H1 H2 H3]. split; [done| |done]. rewrite array_write.
  case_decide as Ha; [|done]. rewrite overwrite_length by done. by rewrite <- Ha.
Qed.

Lemma write_inside h s i bs :
  slice_wf h s -> (i + length bs <= s_len s)%nat ->
  read (write_at h (s_arr s) (s_off s + i) bs) s = overwrite (read h s) i bs.
Proof.
  intros [H1 H2 H3] Hi. unfold read. rewrite array_write, decide_True by done.
  apply overwrite_inside; lia.
Qed.

(** Writing behind the first [s_len s] bytes of [s'] leaves slices apart from [s]. *)
Lemma write_frame h0 h s s' x i bs :
  tail_of h0 s s' -> slice_wf h s' -> apart s x -> (s_arr x < h_next h0)%nat ->
  (s_len s <= i)%nat -> (i + length bs <= s_cap s')%nat ->
  read (write_at h (s_arr s') (s_off s' + i) bs) x = read h x.
Proof.
  intros Ht [H1 H2 H3] Hx Hn Hi Hc. unfold read. rewrite array_write.
  case_decide as Ha; [|done]. rewrite Ha. apply overwrite_outside; [lia|].
  destruct Ht as [(Hsa & Hso & Hsc)|Hf]; [|lia]. destruct Hx as [Hx|Hx]; [congruence|lia].
Qed.

Section Append.
Context (grow : nat -> nat -> nat).
Hypothesis grow_enough : forall c n, (n <= grow c n)%nat.

Lemma append_spec h s bs h' s' :
  slice_wf h s -> append grow h s bs = (h', s') ->
  slice_wf h' s' /\ read h' s' = read h s ++ bs /\ s_len s' = (s_len s + length bs)%nat
    /\ tail_of h s s' /\ (h_next h <= h_next h')%nat.
Proof.
  intros Hs. pose proof Hs as [H1 H2 H3]. unfold append. case_decide as Hc; intros [= <- <-].
  - split_and!; [| |done|left; done|done].
    + apply (write_wf h (s_arr s)); [lia|]. by split.
    + pose proof (write_inside h (mkSlice (s_arr s) (s_off s) (s_len s + length bs) (s_cap s))
        (s_len s) bs ltac:(by split) ltac:(done)) as Hw.
      cbn [s_arr s_off] in Hw. rewrite Hw. unfold overwrite, read. cbn [s_len s_off s_arr].
      rewrite take_take, (drop_ge (take _ _)), app_nil_r by (rewrite length_take; lia).
      do 2 f_equal. lia.
  - pose proof (grow_enough (s_cap s) (s_len s + length bs)) as Hg.
    pose proof (read_length h s Hs) as Hl.
    assert (Ha : array (mkHeap (<[h_next h := read h s ++ bs
        ++ replicate (grow (s_cap s) (s_len s + length bs) - (s_len s + length bs)) 0]>
        (h_arrays h)) (S (h_next h))) (h_next h)
      = read h s ++ bs
        ++ replicate (grow (s_cap s) (s_len s + length bs) - (s_len s + length bs)) 0).
    { unfold array. cbn [h_arrays]. by rewrite lookup_insert_eq. }
    split_and!; [| |done|right; cbn; lia|cbn; lia].
    + split; cbn [s_len s_cap s_off s_arr h_next]; [lia| |lia].
      rewrite Ha, !length_app, length_replicate, Hl. lia.
    + unfold read at 1. cbn [s_len s_off s_arr]. rewrite Ha, drop_0, app_assoc.
      apply take_app_length'. rewrite length_app, Hl. done.
Qed.

Lemma append_frame h s bs h' s' x :
  slice_wf h s -> append grow h s bs = (h', s') -> slice_wf h x -> apart s x ->
  read h' x = read h x /\ slice_wf h' x.
Proof.
  intros Hs Ha Hx Hap. pose proof Hs as [H1 H2 H3]. pose proof Hx as [X1 X2 X3].
  unfold append in Ha. case_decide as Hc; injection Ha as <- <-.
  - split; [|apply write_wf; [lia|done]].
    apply (write_frame h h s s); [by left|done|done|done|lia|lia].
  - assert (Hna : forall l, array (mkHeap (<[h_next h := l]> (h_arrays h)) (S (h_next h))) (s_arr x)
                            = array h (s_arr x)).
    { intros l. unfold array. cbn [h_arrays]. rewrite lookup_insert_ne by lia. done. }
    split; [unfold read; by rewrite Hna|]. split; [done|by rewrite Hna|cbn; lia].
Qed.

End Append.

(** [binary.BigEndian.PutUint64(s[i:], v)]. *)
Lemma put_at {E} h s i v :
  (i + 8 <= s_len s)%nat ->
  (let! w := reslice_from s (Z.of_nat i) in PutUint64 (E:=E) h w v)
    = Ret (write_at h (s_arr s) (s_off s + i) (be64 v)).
Proof.
  intros Hi. unfold reslice_from. zcmp; try lia. cbn [andb]. rewrite Nat2Z.id.
  unfold PutUint64. cbn [s_len s_arr s_off]. by rewrite decide_True by lia.
Qed.
