(* ===== verification/Mvcc.v ===== *)
(** * Mvcc: the storage format of the transaction layer

    Timestamped keys, locks and write records of [kv/transaction/mvcc].  A lock is
    serialized by appending to its [Primary] slice and parsed into a slice of the
    input, so locks live on the heap of [GoHeap]; keys and write records are built
    in fresh arrays and are plain byte strings.  The methods of [MvccTxn] and
    [Scanner] that have no body in the source are not modelled. *)

From stdpp Require Import base option list gmap tactics.
From S2P Require Import Prelude.
From S2P Require Import Codec.
From S2P Require Import GoHeap.

(** The errors of the package; the message texts are not modelled. *)
Inductive mvcc_error :=
  | ErrLockInput (n : Z)
  | ErrWriteLength (n : Z)
  | ErrCodec (e : codec_error).

Definition TsMax : Z := two64 - 1.

(** ** Timestamped keys *)

(** [^ts] of a [uint64]. *)
Definition not64 (v : Z) : Z := two64 - 1 - v.

Definition EncodeKey {E} (key : list Z) (ts : Z) : outcome E (list Z) :=
  let! encodedKey := EncodeBytes key in
  Ret (encodedKey ++ be64 (not64 ts)).

Definition DecodeUserKey (key : list Z) : outcome codec_error (list Z) :=
  let! (_, userKey) := must (DecodeBytes key) in
  Ret userKey.

Definition decodeTimestamp (key : list Z) : outcome codec_error Z :=
  let! (rest, _) := must (DecodeBytes key) in
  let! v := Uint64 rest in
  Ret (not64 v).

Definition PhysicalTime (ts : Z) : Z := Z.shiftr ts 18.

(** ** Write records *)

(** [WriteKind] is an [int]; [kvrpcpb.Op] the protobuf enum. *)
Definition WriteKindPut : Z := 1.
Definition WriteKindDelete : Z := 2.
Definition WriteKindRollback : Z := 3.
Definition Op_Put : Z := 0.
Definition Op_Del : Z := 1.
Definition Op_Rollback : Z := 2.

Definition ToProto (wk : Z) : Z :=
  if wk =? WriteKindPut then Op_Put
  else if wk =? WriteKindDelete then Op_Del
  else if wk =? WriteKindRollback then Op_Rollback
  else -1.
Definition WriteKindFromProto {E} (op : Z) : outcome E Z :=
  if op =? Op_Put then Ret WriteKindPut
  else if op =? Op_Del then Ret WriteKindDelete
  else if op =? Op_Rollback then Ret WriteKindRollback
  else Panic.

Record Write := mkWrite { w_StartTS : Z; w_Kind : Z }.

Definition Write_ToBytes (wr : Write) : list Z := byte (w_Kind wr) :: be64 (w_StartTS wr).

(** A nil value is no write. *)
Definition ParseWrite (value : option (list Z)) : outcome mvcc_error (option Write) :=
  match value with
  | None => Ret None
  | Some value =>
    if negb (len value =? 9) then Err (ErrWriteLength (len value)) else
    let! kind := index value 0 in
    let! rest := slice_from value 1 in
    let! startTs := Uint64 rest in
    Ret (Some (mkWrite startTs kind))
  end.

(** ** Locks *)

Record Lock := mkLock { lk_Primary : gslice; lk_Ts : Z; lk_Ttl : Z; lk_Kind : Z }.

Section Lock.
Context (grow : nat -> nat -> nat).

Definition Lock_ToBytes (h : heap) (lock : Lock) : outcome mvcc_error (heap * gslice) :=
  let n := Z.of_nat (s_len (lk_Primary lock)) in
  let '(h, buf) := append grow h (lk_Primary lock) [byte (lk_Kind lock)] in
  let '(h, buf) := append grow h buf (replicate 16 0) in
  let! h := (let! w := reslice_from buf (n + 1) in PutUint64 h w (lk_Ts lock)) in
  let! h := (let! w := reslice_from buf (n + 9) in PutUint64 h w (lk_Ttl lock)) in
  Ret (h, buf).

(** The primary key of the parsed lock is a window of the input. *)
Definition ParseLock (h : heap) (input : gslice) : outcome mvcc_error Lock :=
  let bs := read h input in
  if len bs <=? 16 then Err (ErrLockInput (len bs)) else
  let primaryLen := len bs - 17 in
  let! primary := reslice_to input primaryLen in
  let! kind := index bs primaryLen in
  let! rest := slice_from bs (primaryLen + 1) in
  let! ts := Uint64 rest in
  let! rest := slice_from bs (primaryLen + 9) in
  let! ttl := Uint64 rest in
  Ret (mkLock primary ts ttl kind).

(** The lock information put into the response. *)
Record LockInfo := mkLockInfo
  { li_PrimaryLock : gslice; li_LockVersion : Z; li_Key : list Z; li_LockTtl : Z }.
Definition Info (lock : Lock) (key : list Z) : LockInfo :=
  mkLockInfo (lk_Primary lock) (lk_Ts lock) key (lk_Ttl lock).

(** [IsLockedFor]: the answer, and the error set in the response. *)
Definition IsLockedFor (h : heap) (lock : option Lock) (key : list Z) (txnStartTs : Z)
    : bool * option LockInfo :=
  match lock with
  | None => (false, None)
  | Some lock =>
    if (txnStartTs =? TsMax)
       && match bytes_compare key (read h (lk_Primary lock)) with Eq => false | _ => true end
    then (false, None)
    else if lk_Ts lock <=? txnStartTs then (true, Some (Info lock key))
    else (false, None)
  end.

End Lock.

(** ** Keys: round trip and order *)

Lemma not64_u64 v : is_u64 v -> is_u64 (not64 v).
Proof. unfold is_u64, not64. lia. Qed.

(** A timestamped key gives back its user key and its timestamp. *)
Theorem EncodeKey_roundtrip key ts :
  is_u64 ts ->
  exists k, EncodeKey (E:=codec_error) key ts = Ret k /\ DecodeUserKey k = Ret key
    /\ decodeTimestamp k = Ret ts.
Proof.
  intros Hts. exists (enc key ++ be64 (not64 ts)).
  assert (Hd : DecodeBytes (enc key ++ be64 (not64 ts)) = Ret (be64 (not64 ts), key)).
  { apply DecodeBytes_enc. }
  unfold EncodeKey, DecodeUserKey, decodeTimestamp. rewrite EncodeBytes_enc, Hd.
  split_and!; [done..|]. cbn [must].
  rewrite Uint64_be64_exact by (by apply not64_u64).
  f_equal. unfold not64. lia.
Qed.

(** C35. Timestamped keys are sorted by user key, ascending, and for one user key by
    timestamp, descending. *)
Theorem EncodeKey_order k1 ts1 k2 ts2 :
  is_bytes k1 -> is_bytes k2 -> is_u64 ts1 -> is_u64 ts2 ->
  exists e1 e2, EncodeKey (E:=codec_error) k1 ts1 = Ret e1
    /\ EncodeKey (E:=codec_error) k2 ts2 = Ret e2
    /\ bytes_compare e1 e2 = match bytes_compare k1 k2 with Eq => ts2 ?= ts1 | c => c end.
Proof.
  intros Hk1 Hk2 H1 H2. exists (enc k1 ++ be64 (not64 ts1)), (enc k2 ++ be64 (not64 ts2)).
  unfold EncodeKey. rewrite !EncodeBytes_enc. split_and!; [done..|].
  destruct (decide (k1 = k2)) as [->|Hne].
  - rewrite bytes_compare_app, !bytes_compare_refl by done.
    rewrite be64_compare by (by apply not64_u64). unfold not64.
    destruct (Z.compare_spec ts2 ts1);
      [apply Z.compare_eq_iff|apply Z.compare_lt_iff|apply Z.compare_gt_iff]; lia.
  - rewrite enc_compare by done. destruct (bytes_compare k1 k2) eqn:He; [|done|done].
    by apply bytes_compare_eq in He.
Qed.

(** ** Write records *)

(** A write record is read back unchanged, and a record that is accepted is the
    serialization of what it is parsed into. *)
Theorem Write_roundtrip w v :
  is_u64 (w_StartTS w) -> is_byte (w_Kind w) -> is_bytes v ->
  ParseWrite (Some (Write_ToBytes w)) = Ret (Some w) /\
  (forall w', ParseWrite (Some v) = Ret (Some w') -> Write_ToBytes w' = v).
Proof.
  intros Hts Hk Hv. split.
  - unfold ParseWrite, Write_ToBytes, byte. rewrite Z.mod_small by done.
    rewrite slice_from_ok by (rewrite len_cons; pose proof (len_nonneg (be64 (w_StartTS w))); lia).
    change (drop (Z.to_nat 1) (_ :: ?l)) with l.
    rewrite Uint64_be64_exact by done. by destruct w.
  - intros w'. unfold ParseWrite. destruct (Z.eqb_spec (len v) 9) as [Hl|]; [|done]. cbn [negb].
    destruct v as [|k l]; [done|]. apply list.Forall_cons in Hv as [Hkk Hb].
    rewrite slice_from_ok by lia. change (drop (Z.to_nat 1) (k :: l)) with l.
    assert (Hl8 : length l = 8%nat) by (rewrite len_cons in Hl; unfold len in Hl; lia).
    pose proof (Uint64_val (E:=mvcc_error) l [] Hb Hl8) as Hu. rewrite app_nil_r in Hu.
    cbn [index deref Z.leb]. rewrite Hu. intros [= <-].
    unfold Write_ToBytes, byte. cbn [w_Kind w_StartTS].
    rewrite Z.mod_small by done. by rewrite be64_be_val.
Qed.

(** ** Locks *)

Section LockProps.
Context (grow : nat -> nat -> nat).
Hypothesis grow_enough : forall c n, (n <= grow c n)%nat.

(** The bytes of a serialized lock. *)
Definition lock_bytes (primary : list Z) (kind ts ttl : Z) : list Z :=
  primary ++ kind :: be64 ts ++ be64 ttl.

Lemma overwrite_app p x bs y :
  length x = length bs -> overwrite (p ++ x ++ y) (length p) bs = p ++ bs ++ y.
Proof.
  intros Hx. unfold overwrite. rewrite take_app_length. do 2 f_equal.
  rewrite <- Hx, app_assoc, <- length_app. apply drop_app_length.
Qed.

Lemma Lock_ToBytes_ok h lock :
  slice_wf h (lk_Primary lock) -> is_byte (lk_Kind lock) ->
  exists h' buf, Lock_ToBytes grow h lock = Ret (h', buf) /\ slice_wf h' buf
    /\ read h' buf
       = lock_bytes (read h (lk_Primary lock)) (lk_Kind lock) (lk_Ts lock) (lk_Ttl lock)
    /\ forall x, slice_wf h x -> apart (lk_Primary lock) x -> read h' x = read h x.
Proof.
  intros Hp Hk. unfold Lock_ToBytes, byte. rewrite Z.mod_small by done.
  set (s := lk_Primary lock) in *. set (k := lk_Kind lock).
  destruct (append grow h s [k]) as [h1 b1] eqn:E1.
  destruct (append_spec grow grow_enough h s [k] h1 b1 Hp E1) as (W1 & R1 & L1 & T1 & N1).
  destruct (append grow h1 b1 (replicate 16 0)) as [h2 b2] eqn:E2.
  destruct (append_spec grow grow_enough h1 b1 _ h2 b2 W1 E2) as (W2 & R2 & L2 & T2 & N2).
  cbn [length] in L1. rewrite length_replicate in L2.
  replace (Z.of_nat (s_len s) + 1) with (Z.of_nat (s_len s + 1)) by lia.
  replace (Z.of_nat (s_len s) + 9) with (Z.of_nat (s_len s + 9)) by lia.
  rewrite !put_at by lia. set (h3 := write_at h2 _ _ _). set (h4 := write_at h3 _ _ _).
  pose proof W2 as [V1 V2 V3].
  assert (W3 : slice_wf h3 b2) by (apply write_wf; [rewrite be64_length; lia|done]).
  pose proof W3 as [U1 U2 U3].
  assert (W4 : slice_wf h4 b2) by (apply write_wf; [rewrite be64_length; lia|done]).
  pose proof (read_length h s Hp) as Hl.
  exists h4, b2. split_and!; [done|exact W4|..].
  - unfold h4. rewrite write_inside by (try done; rewrite be64_length; lia).
    unfold h3. rewrite write_inside by (try done; rewrite be64_length; lia).
    rewrite R2, R1. change (replicate 16 0) with (replicate 8 0 ++ replicate 8 0).
    rewrite <- Hl. unfold lock_bytes.
    replace (length (read h s) + 1)%nat with (length (read h s ++ [k])) by (rewrite length_app; done).
    rewrite overwrite_app by done.
    replace (length (read h s) + 9)%nat with (length ((read h s ++ [k]) ++ be64 (lk_Ts lock)))
      by (rewrite !length_app, be64_length; cbn; lia).
    rewrite app_assoc, <- (app_nil_r (replicate 8 0)), overwrite_app by done.
    by rewrite app_nil_r, <- !app_assoc.
  - intros x Hx Hap. pose proof Hx as [X1 X2 X3].
    destruct (append_frame grow h s [k] h1 b1 x Hp E1 Hx Hap) as [F1 Wx1].
    assert (Hap1 : apart b1 x).
    { destruct T1 as [(A1 & A2 & A3)|Hf]; [|left; lia].
      destruct Hap as [Ha|Ha]; [left; congruence|right; lia]. }
    destruct (append_frame grow h1 b1 _ h2 b2 x W1 E2 Wx1 Hap1) as [F2 Wx2].
    assert (T : tail_of h s b2).
    { destruct T2 as [(A1 & A2 & A3)|Hf]; [|right; lia].
      destruct T1 as [(B1 & B2 & B3)|Hf]; [left; split_and!; congruence|right; lia]. }
    unfold h4. rewrite (write_frame h h3 s b2) by (done || (rewrite ?be64_length; lia)).
    unfold h3. rewrite (write_frame h h2 s b2) by (done || (rewrite ?be64_length; lia)).
    by rewrite F2, F1.
Qed.

Lemma ParseLock_ok h s p k ts ttl :
  slice_wf h s -> is_u64 ts -> is_u64 ttl -> read h s = lock_bytes p k ts ttl ->
  ParseLock h s = Ret (mkLock (mkSlice (s_arr s) (s_off s) (length p) (s_cap s)) ts ttl k).
Proof.
  intros Hs Hts Httl Hr. pose proof (read_length h s Hs) as Hl. pose proof Hs as [S1 S2 S3].
  assert (Hlen : len (lock_bytes p k ts ttl) = len p + 17).
  { unfold lock_bytes, len. rewrite length_app. cbn [length]. rewrite length_app, !be64_length. lia. }
  unfold ParseLock. rewrite Hr, Hlen. pose proof (len_nonneg p). zif; [lia|].
  replace (len p + 17 - 17) with (len p) by lia.
  unfold reslice_to. rewrite Hr in Hl. unfold len in Hlen.
  assert (Hc : (length p <= s_cap s)%nat) by lia. unfold len at 1 2. zcmp; try lia. cbn [andb].
  rewrite (index_lookup _ (len p) k); [|lia|].
  2: { unfold lock_bytes, len. rewrite Nat2Z.id, lookup_app_r, Nat.sub_diag by lia. done. }
  assert (B1 : lock_bytes p k ts ttl = (p ++ [k]) ++ be64 ts ++ be64 ttl)
    by (unfold lock_bytes; by rewrite <- app_assoc).
  assert (B2 : lock_bytes p k ts ttl = ((p ++ [k]) ++ be64 ts) ++ be64 ttl)
    by (by rewrite B1, app_assoc).
  rewrite slice_from_ok by (unfold len; lia). rewrite B1 at 1.
  replace (Z.to_nat (len p + 1)) with (length (p ++ [k])) by (rewrite length_app; unfold len; cbn; lia).
  rewrite drop_app_length, Uint64_be64 by done.
  rewrite slice_from_ok by (unfold len; lia). rewrite B2.
  replace (Z.to_nat (len p + 9)) with (length ((p ++ [k]) ++ be64 ts))
    by (rewrite !length_app, be64_length; unfold len; cbn; lia).
  rewrite drop_app_length, Uint64_be64_exact by done.
  unfold len. by rewrite Nat2Z.id.
Qed.

(** A lock survives serialization: [ToBytes] never panics, parsing its result gives
    a lock with the same primary key, timestamp, time to live and kind, and the
    bytes of every slice that does not reach into the spare capacity of the
    primary key are untouched. *)
Theorem Lock_roundtrip h lock :
  slice_wf h (lk_Primary lock) -> is_byte (lk_Kind lock) -> is_u64 (lk_Ts lock) ->
  is_u64 (lk_Ttl lock) ->
  exists h' buf lock', Lock_ToBytes grow h lock = Ret (h', buf) /\ ParseLock h' buf = Ret lock'
    /\ read h' (lk_Primary lock') = read h (lk_Primary lock) /\ lk_Ts lock' = lk_Ts lock
    /\ lk_Ttl lock' = lk_Ttl lock /\ lk_Kind lock' = lk_Kind lock
    /\ forall x, slice_wf h x -> apart (lk_Primary lock) x -> read h' x = read h x.
Proof.
  intros Hp Hk Hts Httl. destruct (Lock_ToBytes_ok h lock Hp Hk) as (h' & buf & Ht & Hw & Hr & Hf).
  exists h', buf. eexists. split; [exact Ht|].
  split; [exact (ParseLock_ok _ _ _ _ _ _ Hw Hts Httl Hr)|]. split_and!; [|done..|exact Hf].
  cbn [lk_Primary]. unfold lock_bytes in Hr.
  assert (Hlen : (length (read h (lk_Primary lock)) <= s_len buf)%nat).
  { rewrite <- (read_length h' buf Hw), Hr, length_app. lia. }
  trans (take (length (read h (lk_Primary lock))) (read h' buf)).
  - set (n := length (read h (lk_Primary lock))) in *. unfold read. cbn [s_len s_off s_arr].
    rewrite take_take. f_equal. lia.
  - by rewrite Hr, take_app_length.
Qed.

End LockProps.

(** Two locks that share a primary key with spare capacity also share the bytes
    they are serialized into: serializing the second changes what the result of the
    first parses to. *)
Theorem Lock_ToBytes_clobbers grow :
  exists h lock1 lock2 h1 buf1 h2 buf2 parsed,
    slice_wf h (lk_Primary lock1) /\ lk_Primary lock2 = lk_Primary lock1
    /\ Lock_ToBytes grow h lock1 = Ret (h1, buf1) /\ Lock_ToBytes grow h1 lock2 = Ret (h2, buf2)
    /\ ParseLock h2 buf1 = Ret parsed /\ lk_Ts parsed <> lk_Ts lock1.
Proof.
  exists (mkHeap {[ 0%nat := 7 :: replicate 31 0 ]} 1),
    (mkLock (mkSlice 0 0 1 32) 5 100 1), (mkLock (mkSlice 0 0 1 32) 9 100 1).
  do 5 eexists. split; [split; vm_compute; lia|].
  split_and!; [done|vm_compute; reflexivity|vm_compute; reflexivity|vm_compute; reflexivity|done].
Qed.

(** ** Concrete runs *)

Lemma EncodeKey_roundtrip_witness :
  exists k, EncodeKey (E:=codec_error) [1; 2] 7 = Ret k /\ DecodeUserKey k = Ret [1; 2]
    /\ decodeTimestamp k = Ret 7.
Proof. apply (EncodeKey_roundtrip [1; 2] 7). unfold is_u64, two64. lia. Defined.

Lemma EncodeKey_order_witness :
  exists e1 e2, EncodeKey (E:=codec_error) [1] 7 = Ret e1 /\ EncodeKey (E:=codec_error) [1] 9 = Ret e2
    /\ bytes_compare e1 e2 = Gt.
Proof.
  apply (EncodeKey_order [1] 7 [1] 9).
  1-2: repeat constructor; unfold is_byte; lia.
  all: unfold is_u64, two64; lia.
Defined.

Lemma Write_roundtrip_witness :
  ParseWrite (Some (Write_ToBytes (mkWrite 5 WriteKindPut))) = Ret (Some (mkWrite 5 WriteKindPut)) /\
  (forall w', ParseWrite (Some [2; 0; 0; 0; 0; 0; 0; 0; 9]) = Ret (Some w') ->
     Write_ToBytes w' = [2; 0; 0; 0; 0; 0; 0; 0; 9]).
Proof.
  apply (Write_roundtrip (mkWrite 5 WriteKindPut) [2; 0; 0; 0; 0; 0; 0; 0; 9]).
  - split; [by vm_compute|by vm_compute].
  - unfold is_byte, WriteKindPut. cbn [w_Kind]. lia.
  - repeat constructor; unfold is_byte; lia.
Defined.

(** A runtime that doubles the capacity, and a primary key with room to spare. *)
Definition demo_grow (c n : nat) : nat := Nat.max n (2 * c).
Definition demo_heap : heap := mkHeap {[ 0%nat := [7; 8; 0; 0] ]} 1.
Definition demo_lock : Lock := mkLock (mkSlice 0 0 2 4) 5 100 WriteKindPut.

Lemma Lock_roundtrip_witness :
  exists h' buf lock', Lock_ToBytes demo_grow demo_heap demo_lock = Ret (h', buf)
    /\ ParseLock h' buf = Ret lock' /\ read h' (lk_Primary lock') = read demo_heap (lk_Primary demo_lock)
    /\ lk_Ts lock' = lk_Ts demo_lock /\ lk_Ttl lock' = lk_Ttl demo_lock
    /\ lk_Kind lock' = lk_Kind demo_lock
    /\ forall x, slice_wf demo_heap x -> apart (lk_Primary demo_lock) x -> read h' x = read demo_heap x.
Proof.
  apply (Lock_roundtrip demo_grow ltac:(unfold demo_grow; lia) demo_heap demo_lock).
  - split; vm_compute; lia.
  - unfold is_byte. cbn [lk_Kind demo_lock]. unfold WriteKindPut. lia.
  - split; [by vm_compute|by vm_compute].
  - split; [by vm_compute|by vm_compute].
Defined.
