(* ===== verification/Latches.v ===== *)
(** * Latches: per-key latches and the commands that take them

    [kv/transaction/latches/latches.go].  A wait group is a name with a counter.
    [AcquireLatches] and [ReleaseLatches] run under the mutex [latchGuard], so each
    is one atomic step; the commands that call them are interleaved by the step
    relation [step].  The [Validation] hook, set by tests only, is not modelled. *)

From stdpp Require Import base option list gmap tactics.
From S2P Require Import Prelude.

Definition bytes := list Z.

(** [latchMap], the counters of the wait groups, and the next wait group. *)
Record Latches := mkLatches
  { latchMap : gmap bytes nat; counters : gmap nat Z; nextWg : nat }.

Definition NewLatches : Latches := mkLatches ∅ ∅ 0.

Definition counter (l : Latches) (w : nat) : Z := default 0 (counters l !! w).

(** The first key of the list that is latched, as the wait group to wait on. *)
Fixpoint firstLatched (m : gmap bytes nat) (keys : list bytes) : option nat :=
  match keys with
  | [] => None
  | k :: keys' => match m !! k with Some w => Some w | None => firstLatched m keys' end
  end.

(** [AcquireLatches]: [None] is success. *)
Definition AcquireLatches (l : Latches) (keysToLatch : list bytes) : Latches * option nat :=
  match firstLatched (latchMap l) keysToLatch with
  | Some w => (l, Some w)
  | None =>
    let w := nextWg l in
    (mkLatches (foldl (fun m k => <[k := w]> m) (latchMap l) keysToLatch)
       (<[w := 1]> (counters l)) (S w), None)
  end.

(** [wg.Done()]: a negative counter panics. *)
Definition Done {E} (l : Latches) (w : nat) : outcome E Latches :=
  if counter l w <=? 0 then Panic
  else Ret (mkLatches (latchMap l) (<[w := counter l w - 1]> (counters l)) (nextWg l)).

(** The loop of [ReleaseLatches]; the wait group of a key that is not latched is nil,
    and [Done] on it panics. *)
Fixpoint releaseLoop {E} (l : Latches) (first : bool) (keys : list bytes) : outcome E Latches :=
  match keys with
  | [] => Ret l
  | k :: keys' =>
    let! l := (if first then let! w := deref (latchMap l !! k) in Done l w else Ret l) in
    releaseLoop (mkLatches (delete k (latchMap l)) (counters l) (nextWg l)) false keys'
  end.
Definition ReleaseLatches {E} (l : Latches) (keysToUnlatch : list bytes) : outcome E Latches :=
  releaseLoop l true keysToUnlatch.

(** ** Commands

    A command is about to call [AcquireLatches] in the loop of [WaitForLatches],
    waits on a wait group, holds its latches, or is finished. *)
Inductive status :=
  | Trying (keys : list bytes)
  | Waiting (keys : list bytes) (w : nat)
  | Holding (keys : list bytes)
  | Finished.

Record system := mkSystem { sy_latches : Latches; sy_threads : gmap nat status }.

Inductive step : system -> system -> Prop :=
  | step_start s i keys :
      sy_threads s !! i = None ->
      step s (mkSystem (sy_latches s) (<[i := Trying keys]> (sy_threads s)))
  | step_acquire s i keys l :
      sy_threads s !! i = Some (Trying keys) -> AcquireLatches (sy_latches s) keys = (l, None) ->
      step s (mkSystem l (<[i := Holding keys]> (sy_threads s)))
  | step_wait s i keys l w :
      sy_threads s !! i = Some (Trying keys) -> AcquireLatches (sy_latches s) keys = (l, Some w) ->
      step s (mkSystem l (<[i := Waiting keys w]> (sy_threads s)))
  | step_wake s i keys w :
      sy_threads s !! i = Some (Waiting keys w) -> counter (sy_latches s) w = 0 ->
      step s (mkSystem (sy_latches s) (<[i := Trying keys]> (sy_threads s)))
  | step_release s i keys l :
      sy_threads s !! i = Some (Holding keys) ->
      ReleaseLatches (E:=unit) (sy_latches s) keys = Ret l ->
      step s (mkSystem l (<[i := Finished]> (sy_threads s))).

Inductive reachable_system : system -> Prop :=
  | reach_init : reachable_system (mkSystem NewLatches ∅)
  | reach_step s s' : reachable_system s -> step s s' -> reachable_system s'.

(** ** The operations *)

Lemma firstLatched_None m keys :
  firstLatched m keys = None <-> forall k, k ∈ keys -> m !! k = None.
Proof.
  induction keys as [|k keys IH]; cbn [firstLatched]; [set_solver|].
  destruct (m !! k) eqn:Hk.
  - split; [done|]. intros H. rewrite H in Hk by set_solver. done.
  - rewrite IH. set_solver.
Qed.

Lemma firstLatched_Some m keys w :
  firstLatched m keys = Some w -> exists k, k ∈ keys /\ m !! k = Some w.
Proof.
  induction keys as [|k keys IH]; cbn [firstLatched]; [done|].
  destruct (m !! k) eqn:Hk.
  - intros [= <-]. exists k. set_solver.
  - intros (k' & ? & ?)%IH. exists k'. set_solver.
Qed.

Lemma lookup_latch_all keys w : forall m k,
  foldl (fun m k => <[k := w]> m) m keys !! k =
    if decide (k ∈ keys) then Some w else (m : gmap bytes nat) !! k.
Proof.
  induction keys as [|k' keys IH]; intros m k; cbn [foldl]; [done|]. rewrite IH.
  destruct (decide (k = k')) as [->|Hne].
  - rewrite lookup_insert_eq. repeat case_decide; set_solver.
  - rewrite lookup_insert_ne by done. repeat case_decide; set_solver.
Qed.

Lemma releaseLoop_rest {E} keys : forall l,
  exists l', releaseLoop (E:=E) l false keys = Ret l' /\ counters l' = counters l
    /\ nextWg l' = nextWg l
    /\ forall k, latchMap l' !! k = if decide (k ∈ keys) then None else latchMap l !! k.
Proof.
  induction keys as [|k' keys IH]; intros l; cbn [releaseLoop]; [by exists l|].
  destruct (IH (mkLatches (delete k' (latchMap l)) (counters l) (nextWg l)))
    as (l' & Hl & Hc & Hn & Hm).
  exists l'. split_and!; [done..|]. intros k. rewrite Hm. cbn [latchMap].
  destruct (decide (k = k')) as [->|Hne].
  - rewrite lookup_delete_eq. repeat case_decide; set_solver.
  - rewrite lookup_delete_ne by done. repeat case_decide; set_solver.
Qed.

Lemma ReleaseLatches_ok {E} l k keys w :
  latchMap l !! k = Some w -> counter l w = 1 ->
  exists l', ReleaseLatches (E:=E) l (k :: keys) = Ret l' /\ counters l' = <[w := 0]> (counters l)
    /\ nextWg l' = nextWg l
    /\ forall k', latchMap l' !! k' = if decide (k' ∈ k :: keys) then None else latchMap l !! k'.
Proof.
  intros Hk Hc. unfold ReleaseLatches. cbn [releaseLoop]. rewrite Hk. cbn [deref].
  unfold Done. rewrite Hc. cbn [Z.leb Z.compare Z.sub latchMap counters nextWg].
  destruct (releaseLoop_rest (E:=E) keys
    (mkLatches (delete k (latchMap l)) (<[w := 0]> (counters l)) (nextWg l)))
    as (l' & Hl & Hc' & Hn & Hm).
  exists l'. split_and!; [done..|]. intros k'. rewrite Hm. cbn [latchMap].
  destruct (decide (k' = k)) as [->|Hne].
  - rewrite lookup_delete_eq. repeat case_decide; set_solver.
  - rewrite lookup_delete_ne by done. repeat case_decide; set_solver.
Qed.

(** ** The invariant *)

Definition holds (s : system) (i : nat) (keys : list bytes) : Prop :=
  sy_threads s !! i = Some (Holding keys).

(** The wait group is done, or some latch still points to it. *)
Definition wakeable (l : Latches) (w : nat) : Prop :=
  (w < nextWg l)%nat /\ (counter l w = 0 \/ exists k, latchMap l !! k = Some w).

Record latch_inv (s : system) : Prop := {
  li_held : forall i keys k, holds s i keys -> k ∈ keys ->
    exists w, forall k', k' ∈ keys -> latchMap (sy_latches s) !! k' = Some w;
  li_owned : forall k w, latchMap (sy_latches s) !! k = Some w ->
    exists i keys, holds s i keys /\ k ∈ keys;
  li_excl : forall i j keys keys' k k' w, holds s i keys -> holds s j keys' ->
    k ∈ keys -> k' ∈ keys' -> latchMap (sy_latches s) !! k = Some w ->
    latchMap (sy_latches s) !! k' = Some w -> i = j;
  li_live : forall k w, latchMap (sy_latches s) !! k = Some w ->
    counter (sy_latches s) w = 1 /\ (w < nextWg (sy_latches s))%nat;
  li_wait : forall i keys w, sy_threads s !! i = Some (Waiting keys w) ->
    wakeable (sy_latches s) w;
}.

(** A step that leaves the latches and the holders alone. *)
Lemma inv_thread s i old new :
  latch_inv s -> sy_threads s !! i = old -> (forall keys, old <> Some (Holding keys)) ->
  (forall keys, new <> Holding keys) ->
  (forall keys w, new = Waiting keys w -> wakeable (sy_latches s) w) ->
  latch_inv (mkSystem (sy_latches s) (<[i := new]> (sy_threads s))).
Proof.
  intros [H1 H2 H3 H4 H5] Hi Hold Hnew Hw.
  assert (Hh : forall j keys, holds (mkSystem (sy_latches s) (<[i := new]> (sy_threads s))) j keys
                 <-> holds s j keys).
  { intros j keys. unfold holds. cbn [sy_threads]. destruct (decide (j = i)) as [->|Hj].
    - rewrite lookup_insert_eq, Hi. split; [intros [= He]; by destruct (Hnew keys)|].
      intros He. by destruct (Hold keys).
    - by rewrite lookup_insert_ne. }
  split; cbn [sy_latches].
  - intros j keys k Hj%Hh Hk. by apply (H1 j keys k).
  - intros k w Hk. destruct (H2 k w Hk) as (j & keys & Hj%Hh & Hin). by exists j, keys.
  - intros j j' keys keys' k k' w Hj%Hh Hj'%Hh. by apply (H3 j j' keys keys').
  - exact H4.
  - intros j keys w Hj. cbn [sy_threads] in Hj. destruct (decide (j = i)) as [->|Hne].
    + rewrite lookup_insert_eq in Hj. injection Hj as ->. by eapply Hw.
    + rewrite lookup_insert_ne in Hj by done. by eapply H5.
Qed.

Lemma inv_acquire s i keys l :
  latch_inv s -> sy_threads s !! i = Some (Trying keys) ->
  AcquireLatches (sy_latches s) keys = (l, None) ->
  latch_inv (mkSystem l (<[i := Holding keys]> (sy_threads s))).
Proof.
  intros [H1 H2 H3 H4 H5] Hi. unfold AcquireLatches.
  destruct (firstLatched _ _) eqn:Hf; [done|]. intros [= <-].
  rewrite firstLatched_None in Hf. set (w0 := nextWg (sy_latches s)).
  assert (Hold : forall k w, latchMap (sy_latches s) !! k = Some w -> k ∉ keys /\ w <> w0).
  { intros k w Hk. split; [intros Hin; rewrite Hf in Hk by done; done|].
    destruct (H4 k w Hk). unfold w0. lia. }
  assert (Hcnt : forall w, w <> w0 -> default 0 (<[w0:=1]> (counters (sy_latches s)) !! w)
                                     = counter (sy_latches s) w).
  { intros w Hw. by rewrite lookup_insert_ne. }
  assert (Hother : forall j keys' k, j <> i -> holds s j keys' -> k ∈ keys' ->
    exists w, latchMap (sy_latches s) !! k = Some w /\ k ∉ keys /\ w <> w0).
  { intros j keys' k _ Hj Hk. destruct (H1 j keys' k Hj Hk) as [w Hw]. exists w.
    split; [by apply Hw|]. eapply Hold, Hw, Hk. }
  split; unfold holds, wakeable, counter; cbn [sy_latches sy_threads latchMap counters nextWg].
  - intros j keys' k Hj Hk. destruct (decide (j = i)) as [->|Hne].
    + rewrite lookup_insert_eq in Hj. injection Hj as <-. exists w0.
      intros k' Hk'. rewrite lookup_latch_all. by rewrite decide_True.
    + rewrite lookup_insert_ne in Hj by done. destruct (H1 j keys' k Hj Hk) as [w Hw]. exists w.
      intros k' Hk'. rewrite lookup_latch_all. destruct (Hold k' w (Hw k' Hk')).
      rewrite decide_False by done. by apply Hw.
  - intros k w. rewrite lookup_latch_all. case_decide as Hin; intros Hk.
    + exists i, keys. by rewrite lookup_insert_eq.
    + destruct (H2 k w Hk) as (j & keys' & Hj & Hk'). exists j, keys'. split; [|done].
      destruct (decide (j = i)) as [->|]; [unfold holds in Hj; congruence|].
      by rewrite lookup_insert_ne.
  - intros j j' K K' k k' w Hj Hj' Hk Hk'. rewrite !lookup_latch_all.
    destruct (decide (j = i)) as [->|Hn], (decide (j' = i)) as [->|Hn']; [done|..];
      rewrite ?lookup_insert_eq, ?lookup_insert_ne in Hj by done;
      rewrite ?lookup_insert_eq, ?lookup_insert_ne in Hj' by done.
    + injection Hj as <-. destruct (Hother j' K' k' Hn' Hj' Hk') as (w' & Hw' & Hnin & Hne).
      rewrite decide_True, decide_False, Hw' by done. congruence.
    + injection Hj' as <-. destruct (Hother j K k Hn Hj Hk) as (w' & Hw' & Hnin & Hne).
      rewrite (decide_False (P:=k ∈ keys)), Hw', decide_True by done. congruence.
    + destruct (Hother j K k Hn Hj Hk) as (? & _ & Hnin & _).
      destruct (Hother j' K' k' Hn' Hj' Hk') as (? & _ & Hnin' & _).
      rewrite !decide_False by done. by apply (H3 j j' K K').
  - intros k w. rewrite lookup_latch_all. case_decide.
    + intros [= <-]. rewrite lookup_insert_eq. split; [done|lia].
    + intros Hk. destruct (Hold k w Hk), (H4 k w Hk). rewrite Hcnt by done. lia.
  - intros j K w Hj. destruct (decide (j = i)) as [->|Hne];
      [rewrite lookup_insert_eq in Hj; done|]. rewrite lookup_insert_ne in Hj by done.
    destruct (H5 j K w Hj) as [Hlt Hw]. split; [lia|].
    rewrite Hcnt by (unfold w0; lia). destruct Hw as [Hw|[k Hk]]; [by left|right].
    exists k. rewrite lookup_latch_all, decide_False by (by eapply Hold). done.
Qed.

(** A holder can always release, and what is then left of the latches. *)
Lemma release_holder s i keys :
  latch_inv s -> holds s i keys ->
  exists l, ReleaseLatches (E:=unit) (sy_latches s) keys = Ret l
    /\ nextWg l = nextWg (sy_latches s)
    /\ (forall k w, latchMap l !! k = Some w <-> latchMap (sy_latches s) !! k = Some w /\ k ∉ keys)
    /\ (forall k w, latchMap l !! k = Some w -> counter l w = counter (sy_latches s) w)
    /\ (forall w, counter (sy_latches s) w = 0 -> counter l w = 0)
    /\ (forall k w, k ∈ keys -> latchMap (sy_latches s) !! k = Some w -> counter l w = 0).
Proof.
  intros [H1 H2 H3 H4 H5] Hi. destruct keys as [|k0 keys].
  { exists (sy_latches s). split_and!; try done; set_solver. }
  destruct (H1 i _ k0 Hi) as [w0 Hw0]; [set_solver|].
  pose proof (Hw0 k0 ltac:(set_solver)) as Hk0. destruct (H4 k0 w0 Hk0) as [Hc0 _].
  destruct (ReleaseLatches_ok (E:=unit) (sy_latches s) k0 keys w0 Hk0 Hc0) as (l & Hl & Hc & Hn & Hm).
  exists l. assert (Hne : forall k w, latchMap l !! k = Some w ->
    latchMap (sy_latches s) !! k = Some w /\ k ∉ k0 :: keys).
  { intros k w. rewrite Hm. by case_decide. }
  assert (Hcnt : forall w, counter l w = if decide (w = w0) then 0 else counter (sy_latches s) w).
  { intros w. unfold counter. rewrite Hc. case_decide as Hw; [subst; by rewrite lookup_insert_eq|].
    by rewrite lookup_insert_ne. }
  split_and!; [done|done|..].
  - intros k w. split; [apply Hne|]. intros [Hk Hin]. by rewrite Hm, decide_False.
  - intros k w Hk. rewrite Hcnt. case_decide as Hw; [|done]. subst w.
    destruct (Hne k w0 Hk) as [Hk' Hnin]. destruct (H2 k w0 Hk') as (j & K & Hj & Hin).
    assert (i = j) as <- by (apply (H3 i j (k0 :: keys) K k0 k w0); try done; set_solver).
    unfold holds in *. congruence.
  - intros w Hw. rewrite Hcnt. by case_decide.
  - intros k w Hin Hk. rewrite Hw0 in Hk by done. injection Hk as <-.
    rewrite Hcnt. by rewrite decide_True.
Qed.

Lemma inv_release s i keys l :
  latch_inv s -> holds s i keys -> ReleaseLatches (E:=unit) (sy_latches s) keys = Ret l ->
  latch_inv (mkSystem l (<[i := Finished]> (sy_threads s))).
Proof.
  intros Hs Hi Hr. destruct (release_holder s i keys Hs Hi) as (l' & Hr' & Hn & Hm & Hlive & Hz & Hd).
  rewrite Hr in Hr'. injection Hr' as <-. destruct Hs as [H1 H2 H3 H4 H5].
  assert (Hh : forall j K, holds (mkSystem l (<[i := Finished]> (sy_threads s))) j K ->
    holds s j K /\ j <> i).
  { intros j K. unfold holds. cbn [sy_threads]. destruct (decide (j = i)) as [->|Hne];
      [by rewrite lookup_insert_eq|]. by rewrite lookup_insert_ne. }
  assert (Hex : forall j K k w, holds s j K -> j <> i -> k ∈ K ->
    latchMap (sy_latches s) !! k = Some w -> k ∉ keys).
  { intros j K k w Hj Hne Hk Hw Hin. destruct Hne. by apply (H3 j i K keys k k w). }
  split; cbn [sy_latches].
  - intros j K k [Hj Hne]%Hh Hk. destruct (H1 j K k Hj Hk) as [w Hw]. exists w.
    intros k' Hk'. apply Hm. split; [by apply Hw|]. by eapply Hex, Hw.
  - intros k w [Hk Hnin]%Hm. destruct (H2 k w Hk) as (j & K & Hj & Hin). exists j, K.
    split; [|done]. unfold holds in *. cbn [sy_threads].
    rewrite lookup_insert_ne; [done|]. intros ->. congruence.
  - intros j j' K K' k k' w [Hj _]%Hh [Hj' _]%Hh Hk Hk' [Hw _]%Hm [Hw' _]%Hm.
    by apply (H3 j j' K K' k k' w).
  - intros k w Hk. rewrite (Hlive k w Hk), Hn. apply Hm in Hk as [Hk _]. by apply (H4 k w).
  - intros j K w Hj. cbn [sy_threads] in Hj. destruct (decide (j = i)) as [->|Hne];
      [by rewrite lookup_insert_eq in Hj|]. rewrite lookup_insert_ne in Hj by done.
    destruct (H5 j K w Hj) as [Hlt Hw]. split; [by rewrite Hn|].
    destruct Hw as [Hw|[k Hk]]; [left; by apply Hz|].
    destruct (decide (k ∈ keys)) as [Hin|Hin]; [left; by eapply Hd|right].
    exists k. by apply Hm.
Qed.

Lemma reachable_inv s : reachable_system s -> latch_inv s.
Proof.
  induction 1 as [|s s' _ IH Hstep].
  - split; unfold holds; cbn; intros; by simplify_map_eq.
  - destruct Hstep as [s i keys Hi|s i keys l Hi Ha|s i keys l w Hi Ha|s i keys w Hi Hc|s i keys l Hi Hr].
    + by apply (inv_thread s i None).
    + by apply inv_acquire.
    + unfold AcquireLatches in Ha. destruct (firstLatched _ _) eqn:Hf; [|done].
      injection Ha as <- <-. apply (inv_thread s i (Some (Trying keys))); try done.
      intros K w' [= <- <-]. destruct (firstLatched_Some _ _ _ Hf) as (k & _ & Hk).
      split; [by apply (li_live s IH k)|right; by exists k].
    + by apply (inv_thread s i (Some (Waiting keys w))).
    + by apply (inv_release s i keys).
Qed.

(** ** What latching guarantees *)

(** C33. No two commands hold a latch on the same key, whatever the interleaving. *)
Theorem latches_exclusive s i j keys keys' k :
  reachable_system s -> holds s i keys -> holds s j keys' -> k ∈ keys -> k ∈ keys' -> i = j.
Proof.
  intros Hs%reachable_inv Hi Hj Hk Hk'. destruct (li_held s Hs i keys k Hi Hk) as [w Hw].
  by apply (li_excl s Hs i j keys keys' k k w); auto.
Qed.

(** [AcquireLatches] takes all the keys at once or none: it succeeds exactly when no
    other command holds one of them, and otherwise leaves the latches as they are. *)
Theorem AcquireLatches_all_or_none s keys l r :
  reachable_system s -> AcquireLatches (sy_latches s) keys = (l, r) ->
  (r = None <-> forall i keys' k, holds s i keys' -> k ∈ keys' -> k ∉ keys) /\
  (r = None -> forall k, k ∈ keys -> is_Some (latchMap l !! k)) /\
  (r <> None -> l = sy_latches s).
Proof.
  intros Hs%reachable_inv. unfold AcquireLatches.
  destruct (firstLatched _ _) as [w|] eqn:Hf; intros [= <- <-]; split_and!; try done.
  - split; [done|]. intros Hno. destruct (firstLatched_Some _ _ _ Hf) as (k & Hin & Hk).
    destruct (li_owned s Hs k w Hk) as (i & keys' & Hi & Hk'). by destruct (Hno i keys' k).
  - rewrite firstLatched_None in Hf. split; [|done]. intros _ i keys' k Hi Hk Hin.
    destruct (li_held s Hs i keys' k Hi Hk) as [w Hw].
    specialize (Hw k Hk). by rewrite Hf in Hw.
  - intros _ k Hk. cbn [latchMap]. rewrite lookup_latch_all, decide_True by done. by eexists.
Qed.

(** C36. No deadlock: an unfinished command can take a step itself, or it waits on a wait
    group whose latches are held by a command that can release them; releasing never
    panics and wakes the waiter. *)
Theorem latches_progress s i st :
  reachable_system s -> sy_threads s !! i = Some st -> st <> Finished ->
  (exists st' l, st' <> st /\ step s (mkSystem l (<[i := st']> (sy_threads s)))) \/
  (exists keys w j keys' l, st = Waiting keys w /\ holds s j keys'
     /\ ReleaseLatches (E:=unit) (sy_latches s) keys' = Ret l /\ counter l w = 0).
Proof.
  intros Hs%reachable_inv Hi Hst. destruct st as [keys|keys w|keys|]; [| | |done].
  - left. destruct (AcquireLatches (sy_latches s) keys) as [l [w|]] eqn:Ha.
    + exists (Waiting keys w), l. split; [done|]. by eapply step_wait.
    + exists (Holding keys), l. split; [done|]. by eapply step_acquire.
  - destruct (li_wait s Hs i keys w Hi) as [_ [Hw|[k Hk]]].
    + left. exists (Trying keys), (sy_latches s). split; [done|]. by eapply step_wake.
    + right. destruct (li_owned s Hs k w Hk) as (j & keys' & Hj & Hin).
      destruct (release_holder s j keys' Hs Hj) as (l & Hl & _ & _ & _ & _ & Hd).
      exists keys, w, j, keys', l. split_and!; [done..|]. by apply (Hd k).
  - left. destruct (release_holder s i keys Hs Hi) as (l & Hl & _).
    exists Finished, l. split; [done|]. by eapply step_release.
Qed.

(** ** A concrete run

    Command 1 latches keys [[1]] and [[2]], command 2 wants [[2]] and waits. *)
Definition demo_latches : Latches :=
  fst (AcquireLatches NewLatches [[1]; [2]]).
Definition demo_system : system :=
  mkSystem demo_latches (<[2%nat := Waiting [[2]] 0%nat]> (<[2%nat := Trying [[2]]]>
    (<[1%nat := Holding [[1]; [2]]]> (<[1%nat := Trying [[1]; [2]]]> ∅)))).

Lemma demo_system_reachable : reachable_system demo_system.
Proof.
  pose proof reach_init as R.
  eapply reach_step in R; [|by apply (step_start _ 1 [[1]; [2]])].
  eapply reach_step in R; [|by apply (step_acquire _ 1 [[1]; [2]] demo_latches)].
  eapply reach_step in R; [|by apply (step_start _ 2 [[2]])].
  eapply reach_step in R; [|by apply (step_wait _ 2 [[2]] demo_latches 0)].
  exact R.
Qed.

Lemma latches_exclusive_witness :
  holds demo_system 1 [[1]; [2]] /\ [2] ∈ [[1]; [2]] /\ 1%nat = 1%nat.
Proof.
  split_and!; [done|set_solver|]. apply (latches_exclusive demo_system 1 1 [[1]; [2]] [[1]; [2]] [2]);
    [apply demo_system_reachable|done|done|set_solver|set_solver].
Defined.

Lemma AcquireLatches_all_or_none_witness :
  (Some 0%nat = None <-> forall i keys' k, holds demo_system i keys' -> k ∈ keys' -> k ∉ [[2]]) /\
  (Some 0%nat = None -> forall k, k ∈ [[2]] -> is_Some (latchMap demo_latches !! k)) /\
  (Some 0%nat <> None -> demo_latches = sy_latches demo_system).
Proof.
  apply (AcquireLatches_all_or_none demo_system [[2]] demo_latches (Some 0%nat));
    [apply demo_system_reachable|done].
Defined.

Lemma latches_progress_witness :
  (exists st' l, st' <> Waiting [[2]] 0
     /\ step demo_system (mkSystem l (<[2%nat := st']> (sy_threads demo_system)))) \/
  (exists keys w j keys' l, Waiting [[2]] 0 = Waiting keys w /\ holds demo_system j keys'
     /\ ReleaseLatches (E:=unit) (sy_latches demo_system) keys' = Ret l /\ counter l w = 0).
Proof.
  apply (latches_progress demo_system 2 (Waiting [[2]] 0));
    [apply demo_system_reachable|done|done].
Defined.
