(* ===== verification/Meta.v ===== *)
(** * Meta: the keys of the raftstore

    [kv/raftstore/meta/keys.go]: the keys under which a store keeps the Raft log, the
    Raft and apply states and the region states.  A key is written byte by byte into
    a buffer of fixed size, as the code does. *)

From stdpp Require Import base option list tactics.
From S2P Require Import Prelude.
From S2P Require Import GoHeap.

Definition LocalPrefix : Z := 1.
Definition RegionRaftPrefix : Z := 2.
Definition RegionMetaPrefix : Z := 3.
Definition RegionRaftLogLen : Z := 19.
Definition RaftLogSuffix : Z := 1.
Definition RaftStateSuffix : Z := 2.
Definition ApplyStateSuffix : Z := 3.
Definition RegionStateSuffix : Z := 1.

Definition MinKey : list Z := [].
Definition MaxKey : list Z := [255].
Definition RegionMetaMinKey : list Z := [LocalPrefix; RegionMetaPrefix].
Definition RegionMetaMaxKey : list Z := [LocalPrefix; RegionMetaPrefix + 1].
Definition PrepareBootstrapKey : list Z := [LocalPrefix; 1].
Definition StoreIdentKey : list Z := [LocalPrefix; 2].

(** The errors of the package; the message texts are not modelled. *)
Inductive meta_error :=
  | ErrMetaLength (key : list Z)
  | ErrMetaPrefix (key : list Z)
  | ErrLogKey (key : list Z).

(** [make([]byte, n)], [key[i] = b] and [binary.BigEndian.PutUint64(key[i:], v)]. *)
Definition make (n : nat) : list Z := replicate n 0.
Definition put64 (key : list Z) (i : nat) (v : Z) : list Z := overwrite key i (be64 v).

Definition makeRegionPrefix (regionID suffix : Z) : list Z :=
  let key := make 11 in
  let key := <[0%nat := LocalPrefix]> key in
  let key := <[1%nat := RegionRaftPrefix]> key in
  let key := put64 key 2 regionID in
  <[10%nat := suffix]> key.

Definition makeRegionKey (regionID suffix subID : Z) : list Z :=
  let key := make 19 in
  let key := <[0%nat := LocalPrefix]> key in
  let key := <[1%nat := RegionRaftPrefix]> key in
  let key := put64 key 2 regionID in
  let key := <[10%nat := suffix]> key in
  put64 key 11 subID.

Definition RegionRaftPrefixKey (regionID : Z) : list Z :=
  let key := make 10 in
  let key := <[0%nat := LocalPrefix]> key in
  let key := <[1%nat := RegionRaftPrefix]> key in
  put64 key 2 regionID.

Definition RaftLogKey (regionID index : Z) : list Z := makeRegionKey regionID RaftLogSuffix index.
Definition RaftStateKey (regionID : Z) : list Z := makeRegionPrefix regionID RaftStateSuffix.
Definition ApplyStateKey (regionID : Z) : list Z := makeRegionPrefix regionID ApplyStateSuffix.

(** [len(key) == 11 && ...]: the later operands are only evaluated on a long key. *)
Definition IsRaftStateKey (key : list Z) : bool :=
  (len key =? 11) && bool_decide (key !! 0%nat = Some LocalPrefix)
  && bool_decide (key !! 1%nat = Some RegionRaftPrefix).

Definition RegionMetaPrefixKey (regionID : Z) : list Z :=
  let key := make 10 in
  let key := <[0%nat := LocalPrefix]> key in
  let key := <[1%nat := RegionMetaPrefix]> key in
  put64 key 2 regionID.

Definition RegionStateKey (regionID : Z) : list Z :=
  let key := make 11 in
  let key := <[0%nat := LocalPrefix]> key in
  let key := <[1%nat := RegionMetaPrefix]> key in
  let key := put64 key 2 regionID in
  <[10%nat := RegionStateSuffix]> key.

Definition DecodeRegionMetaKey (key : list Z) : outcome meta_error (Z * Z) :=
  if negb (len RegionMetaMinKey + 8 + 1 =? len key) then Err (ErrMetaLength key) else
  if negb (bool_decide (take (length RegionMetaMinKey) key = RegionMetaMinKey))
  then Err (ErrMetaPrefix key) else
  let! rest := slice_from key (len RegionMetaMinKey) in
  let! regionID := Uint64 rest in
  let! suffix := index key (len key - 1) in
  Ret (regionID, suffix).

Definition RaftLogIndex (key : list Z) : outcome meta_error Z :=
  if negb (len key =? RegionRaftLogLen) then Err (ErrLogKey key) else
  let! rest := slice_from key (RegionRaftLogLen - 8) in
  Uint64 rest.

(** ** The layout *)

Lemma makeRegionKey_eq r sfx i :
  makeRegionKey r sfx i = [LocalPrefix; RegionRaftPrefix] ++ be64 r ++ [sfx] ++ be64 i.
Proof. done. Qed.
Lemma makeRegionPrefix_eq r sfx :
  makeRegionPrefix r sfx = [LocalPrefix; RegionRaftPrefix] ++ be64 r ++ [sfx].
Proof. done. Qed.
Lemma RegionStateKey_eq r :
  RegionStateKey r = [LocalPrefix; RegionMetaPrefix] ++ be64 r ++ [RegionStateSuffix].
Proof. done. Qed.

Lemma RaftLogKey_compare r i r' i' :
  is_u64 r -> is_u64 i -> is_u64 r' -> is_u64 i' ->
  bytes_compare (RaftLogKey r i) (RaftLogKey r' i')
    = match r ?= r' with Eq => i ?= i' | c => c end.
Proof.
  intros Hr Hi Hr' Hi'. unfold RaftLogKey. rewrite !makeRegionKey_eq, !bytes_compare_app by done.
  rewrite bytes_compare_refl, be64_compare by done. destruct (r ?= r'); [|done|done].
  by rewrite bytes_compare_refl, be64_compare.
Qed.
Lemma RaftLogIndex_key r i : is_u64 i -> RaftLogIndex (RaftLogKey r i) = Ret i.
Proof.
  intros Hi. change (RaftLogIndex (RaftLogKey r i)) with (Uint64 (E:=meta_error) (be64 i)).
  by apply Uint64_be64_exact.
Qed.

(** The log of a region is one range of keys, sorted by region and then by index,
    and the index can be read back from the key. *)
Theorem RaftLogKey_order r i r' i' :
  is_u64 r -> is_u64 i -> is_u64 r' -> is_u64 i' ->
  RaftLogIndex (RaftLogKey r i) = Ret i /\
  bytes_compare (RaftLogKey r i) (RaftLogKey r' i')
    = match r ?= r' with Eq => i ?= i' | c => c end.
Proof. intros. split; [by apply RaftLogIndex_key|by apply RaftLogKey_compare]. Qed.

(** The local keys of a store never clash: keys of different kinds are different,
    keys of one kind determine their region, and a region state key decodes to its
    region. *)
Theorem region_keys_distinct r r' i :
  is_u64 r -> is_u64 r' ->
  DecodeRegionMetaKey (RegionStateKey r) = Ret (r, RegionStateSuffix) /\
  NoDup [RaftLogKey r i; RaftStateKey r'; ApplyStateKey r'; RegionStateKey r'] /\
  (RaftStateKey r = RaftStateKey r' -> r = r') /\ (ApplyStateKey r = ApplyStateKey r' -> r = r') /\
  (RegionStateKey r = RegionStateKey r' -> r = r').
Proof.
  intros Hr Hr'. split.
  { rewrite RegionStateKey_eq. unfold DecodeRegionMetaKey.
    change (slice_from _ (len RegionMetaMinKey))
      with (Ret (E:=meta_error) (be64 r ++ [RegionStateSuffix])).
    cbn [negb len]. by rewrite Uint64_be64. }
  assert (Hinj : forall p sfx, p ++ be64 r ++ [sfx] = p ++ be64 r' ++ [sfx] -> r = r').
  { intros p sfx [H _]%app_inv_head%app_inj_1; [|done].
    rewrite <- (be_val_be64 r), <- (be_val_be64 r') by done. by rewrite H. }
  unfold RaftLogKey, RaftStateKey, ApplyStateKey.
  rewrite !makeRegionPrefix_eq, !RegionStateKey_eq, makeRegionKey_eq.
  split_and!; [|apply Hinj..].
  rewrite !list.NoDup_cons, !not_elem_of_cons. split_and!; try apply not_elem_of_nil;
    try apply base.NoDup_nil_2; intros H;
    first [by apply (f_equal length) in H|by apply (f_equal (lookup 1%nat)) in H
          |by apply (f_equal (lookup 10%nat)) in H].
Qed.

(** ** Concrete runs *)

Lemma RaftLogKey_order_witness :
  RaftLogIndex (RaftLogKey 1 300) = Ret 300 /\
  bytes_compare (RaftLogKey 1 300) (RaftLogKey 2 5) = Lt.
Proof. apply (RaftLogKey_order 1 300 2 5); split; by vm_compute. Defined.

Lemma region_keys_distinct_witness :
  DecodeRegionMetaKey (RegionStateKey 1) = Ret (1, RegionStateSuffix) /\
  NoDup [RaftLogKey 1 7; RaftStateKey 2; ApplyStateKey 2; RegionStateKey 2] /\
  (RaftStateKey 1 = RaftStateKey 2 -> 1 = 2) /\ (ApplyStateKey 1 = ApplyStateKey 2 -> 1 = 2) /\
  (RegionStateKey 1 = RegionStateKey 2 -> 1 = 2).
Proof. apply (region_keys_distinct 1 2 7); split; by vm_compute. Defined.
