(* ===== verification/BTree.v ===== *)
(** * BTree: the B-tree of the scheduler

    [scheduler/pkg/btree/btree.go]: a B-tree whose nodes also keep, for every item,
    its rank in the subtree ([indices]).  A node is a value: copy-on-write gives
    every tree its own nodes, so the free list, [mutableFor] and [Clone] have no
    counterpart here, and a recycled node is an empty one.  Positions in slices are
    natural numbers; an access out of range panics.  The recursive methods take
    fuel; the height of the tree bounds what they need. *)

From stdpp Require Import base option list tactics.
From S2P Require Import Prelude.

(** The panics of slices with natural positions. *)
Definition at_ {E A} (l : list A) (i : nat) : outcome E A := deref (l !! i).
Definition set_at {E A} (l : list A) (i : nat) (x : A) : outcome E (list A) :=
  if decide (i < length l)%nat then Ret (<[i := x]> l) else Panic.

(** [insertAt], [removeAt] and [pop] of [items] and of [children]. *)
Definition insertAt {E A} (s : list A) (index : nat) (x : A) : outcome E (list A) :=
  if decide (index <= length s)%nat then Ret (take index s ++ x :: drop index s) else Panic.
Definition removeAt {E A} (s : list A) (index : nat) : outcome E (list A * A) :=
  let! x := at_ s index in
  Ret (take index s ++ drop (S index) s, x).
Definition pop {E A} (s : list A) : outcome E (list A * A) :=
  let! x := deref (list.last s) in
  Ret (take (length s - 1) s, x).
Definition truncate {E A} (s : list A) (index : nat) : outcome E (list A) :=
  if decide (index <= length s)%nat then Ret (take index s) else Panic.

(** [sort.Search]: the binary search of the standard library, on [[i, j)]. *)
Fixpoint searchLoop (fuel : nat) (f : nat -> bool) (i j : nat) : nat :=
  match fuel with
  | O => i
  | S fuel' =>
    if decide (i < j)%nat then
      let h := Nat.div2 (i + j) in
      if f h then searchLoop fuel' f i h else searchLoop fuel' f (S h) j
    else i
  end.
Definition Search (n : nat) (f : nat -> bool) : nat := searchLoop (S n) f 0 n.

(** ** Ranks *)
Module indices.

Definition addAt (s : list Z) (index : nat) (delta : Z) : list Z :=
  imap (fun i x => if decide (index <= i)%nat then x + delta else x) s.

(** From the last position down to [index]: [s[i] = s[i-1] + sz + 1]. *)
Definition insertAt (s : list Z) (index : nat) (sz : Z) : list Z :=
  imap (fun i x =>
          if decide (index <= i)%nat then
            match i with
            | O => sz
            | S i' => default 0 ((s ++ [-1]) !! i') + sz + 1
            end
          else x) (s ++ [-1]).

Definition push (s : list Z) (sz : Z) : list Z :=
  match list.last s with
  | None => [sz]
  | Some x => s ++ [x + 1 + sz]
  end.

Definition split {E} (s : list Z) (index : nat) (nextSize : Z) : outcome E (list Z) :=
  let s := insertAt s (S index) (-1) in
  let! x := at_ s index in
  set_at s index (x - (1 + nextSize)).

(** [s[i] = s[i+1]] from [index] on, and the last position is dropped. *)
Definition merge {E} (s : list Z) (index : nat) : outcome E (list Z) :=
  match s with
  | [] => Panic
  | _ => Ret (if decide (index < length s)%nat then take index s ++ drop (S index) s
              else take (length s - 1) s)
  end.

Definition removeAt {E} (s : list Z) (index : nat) : outcome E (list Z * Z) :=
  let! x := at_ s index in
  let! sz := (match index with
              | O => Ret x
              | S i => let! y := at_ s i in Ret (x - y - 1)
              end) in
  Ret (take index s ++ map (fun y => y - sz - 1) (drop (S index) s), sz).

Definition pop {E} (s : list Z) : outcome E (list Z * Z) :=
  let l := length s in
  let! out := deref (list.last s) in
  let! out := (if decide (l = 1%nat) then Ret out
               else let! y := at_ s (l - 2) in Ret (out - (y + 1))) in
  Ret (take (l - 1) s, out).

(** [sort.SearchInts], then [s[i] == k]. *)
Definition find {E} (s : list Z) (k : Z) : outcome E (nat * bool) :=
  let i := Search (length s) (fun h => k <=? default 0 (s !! h)) in
  let! x := at_ s i in
  Ret (i, x =? k).

End indices.

Section BTree.
Context {Item : Type} (Less : Item -> Item -> bool).

(** ** Nodes *)
Inductive node := mkNode (its : list Item) (cs : list node) (ix : list Z).
Definition items (n : node) : list Item := let 'mkNode its _ _ := n in its.
Definition children (n : node) : list node := let 'mkNode _ cs _ := n in cs.
Definition ranks (n : node) : list Z := let 'mkNode _ _ ix := n in ix.

(** [items.find]. *)
Definition find (s : list Item) (item : Item) : nat * bool :=
  let i := Search (length s)
             (fun h => match s !! h with Some y => Less item y | None => false end) in
  match i with
  | O => (i, false)
  | S i' => match s !! i' with
            | Some y => if Less y item then (i, false) else (i', true)
            | None => (i, false)
            end
  end.

Definition node_length (n : node) : Z :=
  match list.last (ranks n) with None => len (items n) | Some x => x end.

(** The ranks [initSize] computes from the children. *)
Fixpoint initLoop (acc : Z) (cs : list node) : list Z :=
  match cs with
  | [] => []
  | c :: cs' => let x := acc + node_length c in x :: initLoop (x + 1) cs'
  end.
Definition initSize (n : node) : node :=
  mkNode (items n) (children n) (initLoop 0 (children n)).

(** [split]: the shrunk node, the item in the middle and the new node. *)
Definition split {E} (n : node) (i : nat) : outcome E (node * Item * node) :=
  let! item := at_ (items n) i in
  let next := mkNode (drop (S i) (items n)) [] [] in
  let its := take i (items n) in
  match children n with
  | [] => Ret (mkNode its [] (ranks n), item, next)
  | cs =>
    if decide (S i <= length cs)%nat then
      let next := initSize (mkNode (items next) (drop (S i) cs) []) in
      let! cs := truncate cs (S i) in
      let! ix := truncate (ranks n) (S i) in
      Ret (mkNode its cs ix, item, next)
    else Panic
  end.

Definition maybeSplitChild {E} (n : node) (i maxItems : nat) : outcome E (node * bool) :=
  let! child := at_ (children n) i in
  if decide (length (items child) < maxItems)%nat then Ret (n, false) else
  let! (first, item, second) := split child (Nat.div2 maxItems) in
  let! cs := set_at (children n) i first in
  let! its := insertAt (items n) i item in
  let! cs := insertAt cs (S i) second in
  let! ix := indices.split (ranks n) i (node_length second) in
  Ret (mkNode its cs ix, true).

(** [n.children[i] = c]. *)
Definition setChild {E} (n : node) (i : nat) (c : node) : outcome E node :=
  let! cs := set_at (children n) i c in
  Ret (mkNode (items n) cs (ranks n)).
(** [n.items[i] = x]. *)
Definition setItem {E} (n : node) (i : nat) (x : Item) : outcome E node :=
  let! its := set_at (items n) i x in
  Ret (mkNode its (children n) (ranks n)).
Definition addRanks (n : node) (i : nat) (delta : Z) : node :=
  mkNode (items n) (children n) (indices.addAt (ranks n) i delta).

(** [node.insert]: the item that was replaced, if any. *)
Fixpoint insert {E} (fuel : nat) (n : node) (item : Item) (maxItems : nat)
    : outcome E (node * option Item) :=
  match fuel with
  | O => OutOfFuel
  | S fuel' =>
    let '(i, found) := find (items n) item in
    if found then
      let! out := at_ (items n) i in
      let! n := setItem n i item in
      Ret (n, Some out)
    else
    match children n with
    | [] =>
      let! its := insertAt (items n) i item in
      Ret (mkNode its [] (ranks n), None)
    | _ =>
      let! (n, didSplit) := maybeSplitChild n i maxItems in
      (** where to go on; [None] when the item that moved up is replaced *)
      let! goto := (if didSplit : bool then
                      let! inTree := at_ (items n) i in
                      Ret (if Less item inTree then Some i
                           else if Less inTree item then Some (S i) else None)
                    else Ret (Some i)) in
      match goto with
      | None =>
        let! out := at_ (items n) i in
        let! n := setItem n i item in
        Ret (n, Some out)
      | Some i =>
        let! child := at_ (children n) i in
        let! (child, out) := insert fuel' child item maxItems in
        let! n := setChild n i child in
        match out with
        | None => Ret (addRanks n i 1, None)
        | Some _ => Ret (n, out)
        end
      end
    end
  end.

(** [getAt], [getWithIndex] and [get]. *)
Fixpoint getAt {E} (fuel : nat) (n : node) (k : Z) : outcome E (option Item) :=
  match fuel with
  | O => OutOfFuel
  | S fuel' =>
    if (k >=? node_length n) || (k <? 0) then Ret None else
    match children n with
    | [] => let! x := index (items n) k in Ret (Some x)
    | _ =>
      let! (i, found) := indices.find (ranks n) k in
      if found : bool then let! x := at_ (items n) i in Ret (Some x) else
      let! child := at_ (children n) i in
      match i with
      | O => getAt fuel' child k
      | S i' => let! y := at_ (ranks n) i' in getAt fuel' child (k - y - 1)
      end
    end
  end.

Fixpoint getWithIndex {E} (fuel : nat) (n : node) (key : Item) : outcome E (option Item * Z) :=
  match fuel with
  | O => OutOfFuel
  | S fuel' =>
    let '(i, found) := find (items n) key in
    if found then
      let! rk := (match ranks n with [] => Ret (Z.of_nat i) | ix => at_ ix i end) in
      let! x := at_ (items n) i in
      Ret (Some x, rk)
    else
    match children n with
    | [] => Ret (None, Z.of_nat i)
    | cs =>
      let! child := at_ cs i in
      let! (out, rk) := getWithIndex fuel' child key in
      match i with
      | O => Ret (out, rk)
      | S i' => let! y := at_ (ranks n) i' in Ret (out, rk + (y + 1))
      end
    end
  end.

Fixpoint get {E} (fuel : nat) (n : node) (key : Item) : outcome E (option Item) :=
  match fuel with
  | O => OutOfFuel
  | S fuel' =>
    let '(i, found) := find (items n) key in
    if found then let! x := at_ (items n) i in Ret (Some x) else
    match children n with
    | [] => Ret None
    | cs => let! child := at_ cs i in get fuel' child key
    end
  end.

(** [min] and [max]: down the first or the last children. *)
Fixpoint min_node {E} (fuel : nat) (n : node) : outcome E (option Item) :=
  match fuel with
  | O => OutOfFuel
  | S fuel' =>
    match children n with
    | [] => Ret (head (items n))
    | c :: _ => min_node fuel' c
    end
  end.
Fixpoint max_node {E} (fuel : nat) (n : node) : outcome E (option Item) :=
  match fuel with
  | O => OutOfFuel
  | S fuel' =>
    match list.last (children n) with
    | None => Ret (list.last (items n))
    | Some c => max_node fuel' c
    end
  end.

(** ** Removal *)
Inductive toRemove := removeItem | removeMin | removeMax.

(** The three ways [growChildAndRemove] gives child [i] another item. *)
Definition stealLeft {E} (n : node) (i : nat) : outcome E node :=
  let! child := at_ (children n) i in
  let! stealFrom := at_ (children n) (i - 1) in
  let! (fromItems, stolenItem) := pop (items stealFrom) in
  let! sep := at_ (items n) (i - 1) in
  let! childItems := insertAt (items child) 0 sep in
  let! its := set_at (items n) (i - 1) stolenItem in
  let! r := at_ (ranks n) (i - 1) in
  match children stealFrom with
  | [] =>
    let! ix := set_at (ranks n) (i - 1) (r - 1) in
    let! cs := set_at (children n) i (mkNode childItems (children child) (ranks child)) in
    let! cs := set_at cs (i - 1) (mkNode fromItems [] (ranks stealFrom)) in
    Ret (mkNode its cs ix)
  | fromCs =>
    let! (fromCs, moved) := pop fromCs in
    let! childCs := insertAt (children child) 0 moved in
    let! (fromIx, stealSize) := indices.pop (ranks stealFrom) in
    let! ix := set_at (ranks n) (i - 1) (r - 1 - stealSize) in
    let childIx := indices.insertAt (ranks child) 0 stealSize in
    let! cs := set_at (children n) i (mkNode childItems childCs childIx) in
    let! cs := set_at cs (i - 1) (mkNode fromItems fromCs fromIx) in
    Ret (mkNode its cs ix)
  end.

Definition stealRight {E} (n : node) (i : nat) : outcome E node :=
  let! child := at_ (children n) i in
  let! stealFrom := at_ (children n) (S i) in
  let! (fromItems, stolenItem) := removeAt (items stealFrom) 0 in
  let! sep := at_ (items n) i in
  let childItems := items child ++ [sep] in
  let! its := set_at (items n) i stolenItem in
  let! r := at_ (ranks n) i in
  match children stealFrom with
  | [] =>
    let! ix := set_at (ranks n) i (r + 1) in
    let! cs := set_at (children n) i (mkNode childItems (children child) (ranks child)) in
    let! cs := set_at cs (S i) (mkNode fromItems [] (ranks stealFrom)) in
    Ret (mkNode its cs ix)
  | fromCs =>
    let! (fromCs, moved) := removeAt fromCs 0 in
    let childCs := children child ++ [moved] in
    let! (fromIx, stealSize) := indices.removeAt (ranks stealFrom) 0 in
    let! ix := set_at (ranks n) i (r + 1 + stealSize) in
    let childIx := indices.push (ranks child) stealSize in
    let! cs := set_at (children n) i (mkNode childItems childCs childIx) in
    let! cs := set_at cs (S i) (mkNode fromItems fromCs fromIx) in
    Ret (mkNode its cs ix)
  end.

Definition mergeRight {E} (n : node) (i : nat) : outcome E node :=
  let! child := at_ (children n) i in
  let! (its, mergeItem) := removeAt (items n) i in
  let! (cs, mergeChild) := removeAt (children n) (S i) in
  let childItems := items child ++ [mergeItem] ++ items mergeChild in
  let childCs := children child ++ children mergeChild in
  let childIx := foldl (fun ix nn => indices.push ix (node_length nn)) (ranks child)
                   (children mergeChild) in
  let! ix := indices.merge (ranks n) i in
  let! cs := set_at cs i (mkNode childItems childCs childIx) in
  Ret (mkNode its cs ix).

Definition growChild {E} (n : node) (i minItems : nat) : outcome E node :=
  let! fromLeft := (match i with
                | O => Ret false
                | S i' => let! c := at_ (children n) i' in
                          Ret (bool_decide (minItems < length (items c))%nat)
                end) in
  if fromLeft : bool then stealLeft n i else
  let! fromRight := (if decide (i < length (items n))%nat then
                   let! c := at_ (children n) (S i) in
                   Ret (bool_decide (minItems < length (items c))%nat)
                 else Ret false) in
  if fromRight : bool then stealRight n i else
  mergeRight n (if decide (length (items n) <= i)%nat then i - 1 else i)%nat.

(** The [switch] of [node.remove]: [inl], done at a leaf; [inr], the child to go on with. *)
Definition locate {E} (n : node) (item : option Item) (typ : toRemove)
    : outcome E (node * option Item + nat * bool) :=
  match typ with
  | removeMax =>
    match children n with
    | [] => let! (its, x) := pop (items n) in Ret (inl (mkNode its [] (ranks n), Some x))
    | _ => Ret (inr (length (items n), false))
    end
  | removeMin =>
    match children n with
    | [] => let! (its, x) := removeAt (items n) 0 in Ret (inl (mkNode its [] (ranks n), Some x))
    | _ => Ret (inr (0%nat, false))
    end
  | removeItem =>
    let! x := deref item in
    let '(i, found) := find (items n) x in
    match children n with
    | [] => if found then
              let! (its, y) := removeAt (items n) i in
              Ret (inl (mkNode its [] (ranks n), Some y))
            else Ret (inl (n, None))
    | _ => Ret (inr (i, found))
    end
  end.

(** [node.remove]; [growChildAndRemove] grows the child and starts again. *)
Fixpoint remove {E} (fuel : nat) (n : node) (item : option Item) (minItems : nat)
    (typ : toRemove) : outcome E (node * option Item) :=
  match fuel with
  | O => OutOfFuel
  | S fuel' =>
    let! where_ := locate n item typ in
    match where_ with
    | inl r => Ret r
    | inr (i, found) =>
      let! child := at_ (children n) i in
      if decide (length (items child) <= minItems)%nat then
        let! n := growChild n i minItems in
        remove fuel' n item minItems typ
      else if found : bool then
        let! out := at_ (items n) i in
        let! (child, pred) := remove fuel' child None minItems removeMax in
        let! pred := deref pred in
        let! n := setChild n i child in
        let! n := setItem n i pred in
        Ret (addRanks n i (-1), Some out)
      else
        let! (child, out) := remove fuel' child item minItems typ in
        let! n := setChild n i child in
        match out with
        | Some _ => Ret (addRanks n i (-1), out)
        | None => Ret (n, None)
        end
    end
  end.

(** ** Iteration

    The iterator is a Go closure: it changes a state [St] and says whether to go
    on.  [iterate] returns the state, [hit] and whether iteration goes on. *)
Section Iterate.
Context {E St : Type} (iter : St -> Item -> St * bool) (start stop : option Item)
  (includeStart : bool).

Inductive direction := descend | ascend.

(** [start == nil] or [start.Less(x)], and so on, with [nil] spelled out. *)
Definition startLess (x : Item) : bool :=
  match start with Some s => Less s x | None => true end.
Definition lessStart (x : Item) : bool :=
  match start with Some s => Less x s | None => true end.
Definition isNil (o : option Item) : bool := match o with None => true | Some _ => false end.

(** [for i := index; i < len(n.items); i++]. *)
Fixpoint ascLoop (rec : node -> bool -> St -> outcome E (St * bool * bool))
    (cs : list node) (i : nat) (rest : list Item) (hit : bool) (st : St)
    : outcome E (St * bool * bool) :=
  match rest with
  | [] => Ret (st, hit, true)
  | x :: rest' =>
    let! (st, hit, ok) := (match cs with
                           | [] => Ret (st, hit, true)
                           | _ => let! c := at_ cs i in rec c hit st
                           end) in
    if negb ok then Ret (st, hit, false) else
    if negb includeStart && negb hit && negb (isNil start) && negb (startLess x)
    then ascLoop rec cs (S i) rest' true st
    else
    if match stop with Some s => negb (Less x s) | None => false end
    then Ret (st, true, false)
    else
    let '(st, goOn) := iter st x in
    if negb goOn then Ret (st, true, false)
    else ascLoop rec cs (S i) rest' true st
  end.

(** [for i := index; i >= 0; i--], where [k] is [i + 1]. *)
Fixpoint descLoop (rec : node -> bool -> St -> outcome E (St * bool * bool))
    (its : list Item) (cs : list node) (k : nat) (hit : bool) (st : St)
    : outcome E (St * bool * bool) :=
  match k with
  | O => Ret (st, hit, true)
  | S i =>
    let! x := at_ its i in
    if negb (isNil start) && negb (lessStart x) && (negb includeStart || hit || startLess x)
    then descLoop rec its cs i hit st
    else
    let! (st, hit, ok) := (match cs with
                           | [] => Ret (st, hit, true)
                           | _ => let! c := at_ cs (S i) in rec c hit st
                           end) in
    if negb ok then Ret (st, hit, false) else
    if match stop with Some s => negb (Less s x) | None => false end
    then Ret (st, hit, false)
    else
    let '(st, goOn) := iter st x in
    if negb goOn then Ret (st, true, false)
    else descLoop rec its cs i true st
  end.

Fixpoint iterate (fuel : nat) (dir : direction) (n : node) (hit : bool) (st : St)
    : outcome E (St * bool * bool) :=
  match fuel with
  | O => OutOfFuel
  | S fuel' =>
    let rec := fun c hit st => iterate fuel' dir c hit st in
    match dir with
    | ascend =>
      let index := match start with Some s => fst (find (items n) s) | None => 0%nat end in
      let! (st, hit, ok) := ascLoop rec (children n) index (drop index (items n)) hit st in
      if negb ok then Ret (st, hit, false) else
      match list.last (children n) with
      | None => Ret (st, hit, true)
      | Some c => rec c hit st
      end
    | descend =>
      let k := match start with
               | Some s => let '(i, found) := find (items n) s in
                           if found : bool then S i else i
               | None => length (items n)
               end in
      let! (st, hit, ok) := descLoop rec (items n) (children n) k hit st in
      if negb ok then Ret (st, hit, false) else
      match children n with
      | [] => Ret (st, hit, true)
      | c :: _ => rec c hit st
      end
    end
  end.
End Iterate.

(** ** The tree *)
Record BTree := mkBTree { bt_degree : nat; bt_length : Z; bt_root : option node }.

(** Fuel for a root: two calls per level, for a child that has to grow first. *)
Fixpoint height (n : node) : nat :=
  let 'mkNode _ cs _ := n in
  match cs with [] => 0%nat | c :: _ => S (height c) end.
Definition fuel_of (n : node) : nat := (2 * height n + 2)%nat.

Definition New {E} (degree : nat) : outcome E BTree :=
  if decide (degree <= 1)%nat then Panic else Ret (mkBTree degree 0 None).

Definition maxItems (t : BTree) : nat := (bt_degree t * 2 - 1)%nat.
Definition minItems (t : BTree) : nat := (bt_degree t - 1)%nat.

Definition ReplaceOrInsert {E} (t : BTree) (item : Item) : outcome E (BTree * option Item) :=
  match bt_root t with
  | None => Ret (mkBTree (bt_degree t) (bt_length t + 1) (Some (mkNode [item] [] [])), None)
  | Some root =>
    let! root :=
      (if decide (maxItems t <= length (items root))%nat then
         let! (oldroot, item2, second) := split root (Nat.div2 (maxItems t)) in
         Ret (initSize (mkNode [item2] [oldroot; second] []))
       else Ret root) in
    let! (root, out) := insert (fuel_of root) root item (maxItems t) in
    Ret (mkBTree (bt_degree t)
           (match out with None => bt_length t + 1 | Some _ => bt_length t end) (Some root), out)
  end.

Definition deleteItem {E} (t : BTree) (item : option Item) (typ : toRemove)
    : outcome E (BTree * option Item) :=
  match bt_root t with
  | None => Ret (t, None)
  | Some root =>
    if decide (length (items root) = 0)%nat then Ret (t, None) else
    let! (root, out) := remove (fuel_of root) root item (minItems t) typ in
    let root := match items root, children root with
                | [], c :: _ => c
                | _, _ => root
                end in
    Ret (mkBTree (bt_degree t)
           (match out with None => bt_length t | Some _ => bt_length t - 1 end) (Some root), out)
  end.
Definition Delete {E} (t : BTree) (item : Item) : outcome E (BTree * option Item) :=
  deleteItem t (Some item) removeItem.
Definition DeleteMin {E} (t : BTree) : outcome E (BTree * option Item) :=
  deleteItem t None removeMin.
Definition DeleteMax {E} (t : BTree) : outcome E (BTree * option Item) :=
  deleteItem t None removeMax.

(** The state after the iteration. *)
Definition runIterate {E St} (t : BTree) (dir : direction) (start stop : option Item)
    (includeStart : bool) (iter : St -> Item -> St * bool) (st : St) : outcome E St :=
  match bt_root t with
  | None => Ret st
  | Some root =>
    let! (st, _, _) := iterate iter start stop includeStart (fuel_of root) dir root false st in
    Ret st
  end.
Definition AscendRange {E St} t greaterOrEqual lessThan (iterator : St -> Item -> St * bool) st
    : outcome E St := runIterate t ascend (Some greaterOrEqual) (Some lessThan) true iterator st.
Definition AscendLessThan {E St} t pivot (iterator : St -> Item -> St * bool) st
    : outcome E St := runIterate t ascend None (Some pivot) false iterator st.
Definition AscendGreaterOrEqual {E St} t pivot (iterator : St -> Item -> St * bool) st
    : outcome E St := runIterate t ascend (Some pivot) None true iterator st.
Definition Ascend {E St} t (iterator : St -> Item -> St * bool) st
    : outcome E St := runIterate t ascend None None false iterator st.
Definition DescendRange {E St} t lessOrEqual greaterThan (iterator : St -> Item -> St * bool) st
    : outcome E St := runIterate t descend (Some lessOrEqual) (Some greaterThan) true iterator st.
Definition DescendLessOrEqual {E St} t pivot (iterator : St -> Item -> St * bool) st
    : outcome E St := runIterate t descend (Some pivot) None true iterator st.
Definition DescendGreaterThan {E St} t pivot (iterator : St -> Item -> St * bool) st
    : outcome E St := runIterate t descend None (Some pivot) false iterator st.
Definition Descend {E St} t (iterator : St -> Item -> St * bool) st
    : outcome E St := runIterate t descend None None false iterator st.

Definition Get {E} (t : BTree) (key : Item) : outcome E (option Item) :=
  match bt_root t with None => Ret None | Some r => get (fuel_of r) r key end.
Definition GetWithIndex {E} (t : BTree) (key : Item) : outcome E (option Item * Z) :=
  match bt_root t with None => Ret (None, 0) | Some r => getWithIndex (fuel_of r) r key end.
Definition GetAt {E} (t : BTree) (k : Z) : outcome E (option Item) :=
  match bt_root t with None => Ret None | Some r => getAt (fuel_of r) r k end.
Definition Min {E} (t : BTree) : outcome E (option Item) :=
  match bt_root t with None => Ret None | Some r => min_node (fuel_of r) r end.
Definition Max {E} (t : BTree) : outcome E (option Item) :=
  match bt_root t with None => Ret None | Some r => max_node (fuel_of r) r end.
Definition Has {E} (t : BTree) (key : Item) : outcome E bool :=
  let! x := Get t key in Ret (match x with None => false | Some _ => true end).
Definition Len (t : BTree) : Z := bt_length t.
Definition Clear (t : BTree) : BTree := mkBTree (bt_degree t) 0 None.

End BTree.
Arguments node Item : clear implicits.
Arguments BTree Item : clear implicits.
