(* ===== verification/BTreeFacts.v ===== *)
(** * BTreeFacts: slices, ranks and search in B-tree nodes

    The slice operations around a position, the rank operations on prefix sums, and
    [find] on sorted items. *)

From stdpp Require Import base option list sorting tactics.
From S2P Require Import Prelude.
From S2P Require Import BTree.

(** ** Slices *)

Lemma at_middle {E A} (l1 l2 : list A) x i :
  i = length l1 -> at_ (E:=E) (l1 ++ x :: l2) i = Ret x.
Proof. intros ->. unfold at_. by rewrite list_lookup_middle. Qed.

Lemma set_at_middle {E A} (l1 l2 : list A) x y i :
  i = length l1 -> set_at (E:=E) (l1 ++ x :: l2) i y = Ret (l1 ++ y :: l2).
Proof.
  intros ->. unfold set_at. rewrite decide_True by (rewrite length_app; simpl; lia).
  f_equal. by rewrite insert_app_r_alt, Nat.sub_diag by lia.
Qed.

Lemma insertAt_middle {E A} (l1 l2 : list A) x i :
  i = length l1 -> insertAt (E:=E) (l1 ++ l2) i x = Ret (l1 ++ x :: l2).
Proof.
  intros ->. unfold insertAt. rewrite decide_True by (rewrite length_app; lia).
  by rewrite take_app_length, drop_app_length.
Qed.

Lemma take_S_middle {A} (l1 l2 : list A) x i :
  i = length l1 -> take (S i) (l1 ++ x :: l2) = l1 ++ [x].
Proof.
  intros ->. rewrite (cons_middle x l1 l2), app_assoc.
  apply take_app_length'. rewrite length_app. simpl. lia.
Qed.
Lemma drop_S_middle {A} (l1 l2 : list A) x i :
  i = length l1 -> drop (S i) (l1 ++ x :: l2) = l2.
Proof.
  intros ->. rewrite (cons_middle x l1 l2), app_assoc.
  apply drop_app_length'. rewrite length_app. simpl. lia.
Qed.

Lemma removeAt_middle {E A} (l1 l2 : list A) x i :
  i = length l1 -> removeAt (E:=E) (l1 ++ x :: l2) i = Ret (l1 ++ l2, x).
Proof.
  intros ->. unfold removeAt. rewrite at_middle by done.
  by rewrite take_app_length, drop_S_middle.
Qed.

Lemma pop_snoc {E A} (l : list A) x : pop (E:=E) (l ++ [x]) = Ret (l, x).
Proof.
  unfold pop. rewrite last_snoc. cbn [deref]. rewrite length_app. simpl.
  by rewrite Nat.add_sub, take_app_length.
Qed.

(** A list cut at a position. *)
Lemma list_cut {A} (l : list A) i : (i <= length l)%nat ->
  exists l1 l2, l = l1 ++ l2 /\ length l1 = i.
Proof.
  intros. exists (take i l), (drop i l). split; [by rewrite take_drop|].
  rewrite length_take. lia.
Qed.
Lemma list_cut_cons {A} (l : list A) i : (i < length l)%nat ->
  exists l1 x l2, l = l1 ++ x :: l2 /\ length l1 = i.
Proof.
  intros Hi. destruct (list_cut l i) as (l1 & [|x l2] & -> & Hl); [lia| |by exists l1, x, l2].
  rewrite app_nil_r in Hi. lia.
Qed.
Lemma list_cut_last {A} (l : list A) : l <> [] -> exists l1 x, l = l1 ++ [x].
Proof. intros H. destruct (exists_last H) as (l1 & x & ->). by exists l1, x. Qed.

(** ** Ranks as prefix sums

    [idxs a ss]: the ranks of the items between subtrees of sizes [ss], from [a]. *)
Fixpoint idxs (a : Z) (ss : list Z) : list Z :=
  match ss with [] => [] | s :: ss' => (a + s) :: idxs (a + s + 1) ss' end.
Definition total (ss : list Z) : Z := foldr (fun s acc => s + 1 + acc) 0 ss.

Lemma total_app s1 s2 : total (s1 ++ s2) = total s1 + total s2.
Proof. induction s1 as [|s s1 IH]; simpl; lia. Qed.

Lemma idxs_length ss : forall a, length (idxs a ss) = length ss.
Proof. induction ss as [|s ss IH]; intros a; simpl; [done|]. by rewrite IH. Qed.

Lemma idxs_app s1 s2 : forall a, idxs a (s1 ++ s2) = idxs a s1 ++ idxs (a + total s1) s2.
Proof.
  induction s1 as [|s s1 IH]; intros a; simpl; [by rewrite Z.add_0_r|].
  rewrite IH. do 3 f_equal. lia.
Qed.

Lemma idxs_shift d ss : forall a, map (fun x => x + d) (idxs a ss) = idxs (a + d) ss.
Proof.
  induction ss as [|s ss IH]; intros a; simpl; [done|]. rewrite IH. f_equal; [lia|].
  f_equal. lia.
Qed.

Lemma imap_const {A B} (f : nat -> A -> B) g (l : list A) :
  (forall i x, l !! i = Some x -> f i x = g x) -> imap f l = map g l.
Proof.
  intros H. apply list_eq. intros i. rewrite list_lookup_imap.
  change (map g l !! i) with ((g <$> l) !! i). rewrite list_lookup_fmap.
  destruct (l !! i) eqn:Hl; [|done]. simpl. f_equal. by apply H.
Qed.

Lemma addAt_idxs s1 x s2 d i :
  i = length s1 ->
  indices.addAt (idxs 0 (s1 ++ x :: s2)) i d = idxs 0 (s1 ++ (x + d) :: s2).
Proof.
  intros ->. unfold indices.addAt. rewrite !idxs_app, imap_app. f_equal.
  - rewrite (imap_const _ (fun x => x)); [apply map_id|]. intros i y Hy%lookup_lt_Some.
    rewrite idxs_length in Hy. rewrite decide_False by lia. done.
  - rewrite (imap_const _ (fun x => x + d)).
    + simpl. rewrite idxs_shift. f_equal; [lia|]. f_equal. lia.
    + intros i y _. rewrite idxs_length, decide_True by lia. done.
Qed.

Lemma insertAt0_idxs ss sz : indices.insertAt (idxs 0 ss) 0 sz = idxs 0 (sz :: ss).
Proof.
  unfold indices.insertAt. cbn [idxs]. apply list_eq. intros [|i].
  - rewrite list_lookup_imap. by destruct (idxs 0 ss).
  - rewrite list_lookup_imap. cbn [lookup list_lookup].
    replace (0 + sz + 1) with (0 + (sz + 1)) by lia. rewrite <- idxs_shift.
    change (map ?f ?l !! i) with ((f <$> l) !! i). rewrite list_lookup_fmap.
    destruct (decide (i < length (idxs 0 ss))%nat) as [Hi|Hi].
    + assert (Hs : is_Some ((idxs 0 ss ++ [-1]) !! S i))
        by (apply lookup_lt_is_Some; rewrite length_app; simpl; lia).
      destruct Hs as [y ->]. rewrite lookup_app_l by done.
      destruct (lookup_lt_is_Some_2 (idxs 0 ss) i Hi) as [z ->]. simpl. f_equal. lia.
    + rewrite (lookup_ge_None_2 (idxs 0 ss)) by lia.
      by rewrite (lookup_ge_None_2 (idxs 0 ss ++ [-1]) (S i)) by (rewrite length_app; simpl; lia).
Qed.

Lemma push_idxs ss sz : indices.push (idxs 0 ss) sz = idxs 0 (ss ++ [sz]).
Proof.
  unfold indices.push. destruct (decide (ss = [])) as [->|Hne]; [done|].
  destruct (list_cut_last ss Hne) as (ss' & s & ->).
  rewrite !idxs_app. cbn [idxs]. rewrite last_snoc. do 2 f_equal. rewrite total_app. simpl. lia.
Qed.

Lemma merge_idxs {E} s1 x y s2 i :
  i = length s1 ->
  indices.merge (E:=E) (idxs 0 (s1 ++ x :: y :: s2)) i = Ret (idxs 0 (s1 ++ (x + 1 + y) :: s2)).
Proof.
  intros ->. unfold indices.merge.
  assert (Hl : (length s1 < length (idxs 0 (s1 ++ x :: y :: s2)))%nat)
    by (rewrite idxs_length, length_app; simpl; lia).
  destruct (idxs 0 (s1 ++ x :: y :: s2)) eqn:He; [simpl in Hl; lia|]. rewrite <- He in *.
  rewrite decide_True by done. f_equal. rewrite !idxs_app. cbn [idxs].
  rewrite <- (idxs_length s1 0) at 1 2. rewrite take_app_length.
  f_equal. rewrite (cons_middle _ (idxs 0 s1)), app_assoc.
  replace (S (length (idxs 0 s1))) with (length (idxs 0 s1 ++ [0 + total s1 + x]))
    by (rewrite length_app; simpl; lia).
  rewrite drop_app_length. f_equal; [lia|]. f_equal. lia.
Qed.

Lemma insertAt_idxs_dup s1 x s2 i :
  i = length s1 ->
  indices.insertAt (idxs 0 (s1 ++ x :: s2)) (S i) (-1)
    = idxs 0 s1 ++ (total s1 + x) :: (total s1 + x) :: idxs (total s1 + x + 1) s2.
Proof.
  intros ->. rewrite idxs_app. cbn [idxs]. rewrite Z.add_0_l.
  set (a := idxs 0 s1). set (y := total s1 + x). set (b := idxs (y + 1) s2).
  assert (Ha : length a = length s1) by apply idxs_length. rewrite <- Ha.
  unfold indices.insertAt. apply list_eq. intros i. rewrite list_lookup_imap.
  destruct (decide (i <= length a)%nat) as [Hi|Hi].
  - assert (He : (a ++ y :: y :: b) !! i = ((a ++ y :: b) ++ [-1]) !! i).
    { rewrite (cons_middle y a (y :: b)), (cons_middle y a b), <- !app_assoc.
      rewrite !(app_assoc a [y]).
      rewrite (lookup_app_l (a ++ [y]) (y :: b)), (lookup_app_l (a ++ [y]) (b ++ [-1]))
        by (rewrite length_app; simpl; lia). done. }
    rewrite He. clear He. destruct (((a ++ y :: b) ++ [-1]) !! i); [|done].
    simpl. by rewrite decide_False by lia.
  - destruct i as [|i]; [lia|].
    assert (He : (a ++ y :: y :: b) !! S i = (a ++ y :: b) !! i).
    { rewrite (lookup_app_r a (y :: y :: b)), (lookup_app_r a (y :: b)) by lia.
      by replace (S i - length a)%nat with (S (i - length a)) by lia. }
    rewrite He. destruct (decide (i < length (a ++ y :: b))%nat) as [Hl|Hl].
    + destruct (lookup_lt_is_Some_2 ((a ++ y :: b) ++ [-1]) (S i)) as [z ->];
        [rewrite length_app; simpl; lia|].
      rewrite (lookup_app_l (a ++ y :: b)) by done.
      destruct (lookup_lt_is_Some_2 _ _ Hl) as [w ->]. simpl. rewrite decide_True by lia.
      f_equal. lia.
    + rewrite (lookup_ge_None_2 (a ++ y :: b) i) by lia.
      by rewrite (lookup_ge_None_2 ((a ++ y :: b) ++ [-1]) (S i))
        by (rewrite length_app; simpl; lia).
Qed.

Lemma split_idxs {E} s1 x s2 d i :
  i = length s1 ->
  indices.split (E:=E) (idxs 0 (s1 ++ x :: s2)) i d
    = Ret (idxs 0 (s1 ++ (x - 1 - d) :: d :: s2)).
Proof.
  intros ->. unfold indices.split. rewrite insertAt_idxs_dup by done.
  rewrite at_middle by (by rewrite idxs_length). rewrite set_at_middle by (by rewrite idxs_length).
  rewrite (idxs_app s1). cbn [idxs]. do 2 f_equal. f_equal; [lia|]. f_equal; [lia|]. f_equal. lia.
Qed.

Lemma pop_idxs {E} ss x : indices.pop (E:=E) (idxs 0 (ss ++ [x])) = Ret (idxs 0 ss, x).
Proof.
  unfold indices.pop. rewrite idxs_app. cbn [idxs]. rewrite last_snoc. cbn [deref].
  rewrite length_app. cbn [length]. rewrite Nat.add_sub, take_app_length.
  destruct (decide (ss = [])) as [->|Hne]; [cbn; do 2 f_equal; lia|].
  destruct (list_cut_last ss Hne) as (ss' & s & ->). rewrite idxs_app. cbn [idxs].
  rewrite decide_False by (rewrite length_app; simpl; lia).
  rewrite <- app_assoc. cbn [app]. rewrite at_middle by (rewrite length_app; simpl; lia).
  rewrite total_app. simpl. do 2 f_equal. lia.
Qed.

Lemma removeAt0_idxs {E} x ss : indices.removeAt (E:=E) (idxs 0 (x :: ss)) 0 = Ret (idxs 0 ss, x).
Proof.
  change (idxs 0 (x :: ss)) with (x :: idxs (x + 1) ss).
  change (indices.removeAt _ 0)
    with (Ret (E:=E) (map (fun y => y - x - 1) (idxs (x + 1) ss), x)).
  do 2 f_equal. trans (map (fun y => y + (- x - 1)) (idxs (x + 1) ss)).
  - apply map_ext. intros. lia.
  - rewrite idxs_shift. f_equal. lia.
Qed.

(** Items moved between neighbouring children change one rank. *)
Lemma shift_idxs s1 x y s2 d :
  idxs 0 (s1 ++ (x - d) :: (y + d) :: s2)
    = idxs 0 s1 ++ (total s1 + x - d) :: (total s1 + x + 1 + y) :: idxs (total s1 + x + y + 2) s2.
Proof. rewrite idxs_app. cbn [idxs]. do 2 f_equal; [lia|]. f_equal; [lia|]. f_equal. lia. Qed.

Lemma last_idxs ss : ss <> [] -> list.last (idxs 0 ss) = Some (total ss - 1).
Proof.
  intros Hne. destruct (list_cut_last ss Hne) as (ss' & s & ->).
  rewrite idxs_app. cbn [idxs]. rewrite last_snoc, total_app. simpl. f_equal. lia.
Qed.

(** ** Binary search *)

(** [i] separates the positions where [f] is false from those where it is true. *)
Definition separates (n : nat) (f : nat -> bool) (i : nat) : Prop :=
  (i <= n)%nat /\ (forall k, (k < i)%nat -> f k = false)
  /\ (forall k, (i <= k < n)%nat -> f k = true).

Lemma searchLoop_spec n f : (forall k k', (k <= k' < n)%nat -> f k = true -> f k' = true) ->
  forall fuel i j, (j - i < fuel)%nat -> (i <= j <= n)%nat ->
  (forall k, (k < i)%nat -> f k = false) -> (forall k, (j <= k < n)%nat -> f k = true) ->
  separates n f (searchLoop fuel f i j).
Proof.
  intros Hm. induction fuel as [|fuel IH]; intros i j Hf Hij Hlo Hhi; [lia|].
  cbn [searchLoop]. case_decide as Hlt.
  2: { split_and!; [lia|done|]. intros k Hk. apply Hhi. lia. }
  pose proof (Nat.div2_double i) as Hd1. pose proof (Nat.div2_double j) as Hd2.
  assert (Hh : (i <= Nat.div2 (i + j) < j)%nat).
  { rewrite Nat.div2_div. split; [apply Nat.div_le_lower_bound|apply Nat.Div0.div_lt_upper_bound]; lia. }
  destruct (f (Nat.div2 (i + j))) eqn:Hfh; apply IH; try lia; try done.
  - intros k Hk. apply (Hm (Nat.div2 (i + j))); [lia|done].
  - intros k Hk. destruct (f k) eqn:Hfk; [|done].
    by rewrite (Hm k (Nat.div2 (i + j))) in Hfh by (lia || done).
Qed.

Lemma Search_spec n f :
  (forall k k', (k <= k' < n)%nat -> f k = true -> f k' = true) -> separates n f (Search n f).
Proof. intros Hm. unfold Search. apply searchLoop_spec; [done|lia|lia|lia|lia]. Qed.

Lemma separates_unique n f i j : separates n f i -> separates n f j -> i = j.
Proof.
  intros (Hi & Hi1 & Hi2) (Hj & Hj1 & Hj2).
  destruct (lt_eq_lt_dec i j) as [[H|H]|H]; [|done|].
  - specialize (Hj1 i H). rewrite Hi2 in Hj1 by lia. done.
  - specialize (Hi1 j H). rewrite Hj2 in Hi1 by lia. done.
Qed.

(** ** Order

    What [Item.Less] must provide: a strict weak ordering. *)
Class StrictWeakOrder {Item} (Less : Item -> Item -> bool) : Prop := {
  less_irrefl x : Less x x = false;
  less_trans x y z : Less x y = true -> Less y z = true -> Less x z = true;
  less_split x y z : Less x z = true -> Less x y = true \/ Less y z = true;
}.

Section Order.
Context {Item : Type} (Less : Item -> Item -> bool) `{!StrictWeakOrder Less}.
Implicit Types (x y z : Item) (l s : list Item).

Definition lt x y : Prop := Less x y = true.
Definition same_as x y : bool := negb (Less x y) && negb (Less y x).
Definition sorted l : Prop := StronglySorted lt l.

(** The parts of a list below, equal to and above an item. *)
Definition below x l := List.filter (fun y => Less y x) l.
Definition same x l := List.filter (same_as x) l.
Definition above x l := List.filter (Less x) l.

Lemma less_asym x y : Less x y = true -> Less y x = false.
Proof.
  intros H. destruct (Less y x) eqn:H'; [|done].
  pose proof (less_trans x y x H H') as Ht. by rewrite (less_irrefl (Less:=Less)) in Ht.
Qed.
Lemma less_not_same x y : Less x y = true -> same_as x y = false.
Proof. intros H. unfold same_as. by rewrite H. Qed.
Lemma less_not_same' x y : Less y x = true -> same_as x y = false.
Proof. intros H. unfold same_as. by rewrite H, andb_false_r. Qed.
Lemma same_inv x y : same_as x y = true -> Less x y = false /\ Less y x = false.
Proof. unfold same_as. destruct (Less x y), (Less y x); done. Qed.
Lemma same_refl x : same_as x x = true.
Proof. unfold same_as. by rewrite (less_irrefl (Less:=Less)). Qed.

Lemma same_less x y z : same_as x y = true -> Less y z = true -> Less x z = true.
Proof. intros [H1 H2]%same_inv H. destruct (less_split y x z H); [congruence|done]. Qed.
Lemma less_same x y z : same_as x y = true -> Less z y = true -> Less z x = true.
Proof. intros [H1 H2]%same_inv H. destruct (less_split z x y H); [done|congruence]. Qed.

Lemma filter_all (f : Item -> bool) l : Forall (fun y => f y = true) l -> List.filter f l = l.
Proof. induction 1 as [|y l Hy _ IH]; simpl; [done|]. by rewrite Hy, IH. Qed.
Lemma filter_none (f : Item -> bool) l : Forall (fun y => f y = false) l -> List.filter f l = [].
Proof. induction 1 as [|y l Hy _ IH]; simpl; [done|]. by rewrite Hy. Qed.

(** All of [l] is below, or above, [x]. *)
Definition all_below x l : Prop := Forall (fun y => Less y x = true) l.
Definition all_above x l : Prop := Forall (fun y => Less x y = true) l.

Lemma parts_below x l : all_below x l -> below x l = l /\ same x l = [] /\ above x l = [].
Proof.
  intros H. split_and!; [by apply filter_all|apply filter_none|apply filter_none];
    (eapply list.Forall_impl; [exact H|]); intros y Hy; simpl.
  - by apply less_not_same'.
  - by apply less_asym.
Qed.
Lemma parts_above x l : all_above x l -> below x l = [] /\ same x l = [] /\ above x l = l.
Proof.
  intros H. split_and!; [apply filter_none|apply filter_none|by apply filter_all];
    (eapply list.Forall_impl; [exact H|]); intros y Hy; simpl.
  - by apply less_asym.
  - by apply less_not_same.
Qed.
Lemma parts_app x l1 l2 : below x (l1 ++ l2) = below x l1 ++ below x l2
  /\ same x (l1 ++ l2) = same x l1 ++ same x l2 /\ above x (l1 ++ l2) = above x l1 ++ above x l2.
Proof. unfold below, same, above. by rewrite !List.filter_app. Qed.

(** Around a middle part, only the middle part matters. *)
Lemma parts_middle x l1 l l2 :
  all_below x l1 -> all_above x l2 ->
  below x (l1 ++ l ++ l2) = l1 ++ below x l /\ same x (l1 ++ l ++ l2) = same x l
  /\ above x (l1 ++ l ++ l2) = above x l ++ l2.
Proof.
  intros (B1 & B2 & B3)%parts_below (A1 & A2 & A3)%parts_above.
  destruct (parts_app x l1 (l ++ l2)) as (-> & -> & ->).
  destruct (parts_app x l l2) as (-> & -> & ->).
  by rewrite B1, B2, B3, A1, A2, A3, !app_nil_r.
Qed.
Lemma parts_one x y : same_as x y = true -> below x [y] = [] /\ same x [y] = [y] /\ above x [y] = [].
Proof.
  intros H. destruct (same_inv x y H) as [H1 H2]. unfold below, same, above. simpl.
  by rewrite H, H1, H2.
Qed.

Lemma sorted_app l1 l2 :
  sorted (l1 ++ l2) <-> (forall x y, x ∈ l1 -> y ∈ l2 -> Less x y = true) /\ sorted l1 /\ sorted l2.
Proof. apply StronglySorted_app. Qed.
Lemma sorted_cons x l : sorted (x :: l) <-> all_above x l /\ sorted l.
Proof.
  split.
  - intros [H1 H2]%StronglySorted_inv. done.
  - intros [H1 H2]. by constructor.
Qed.

Lemma all_above_trans x y l : Less x y = true -> all_above y l -> all_above x l.
Proof. intros H Hl. eapply list.Forall_impl; [exact Hl|]. intros z Hz. by eapply less_trans. Qed.
Lemma all_above_same x y l : same_as x y = true -> all_above y l -> all_above x l.
Proof. intros H Hl. eapply list.Forall_impl; [exact Hl|]. intros z Hz. by eapply same_less. Qed.

(** A sorted list around an item: the item is missing, or is there once. *)
Lemma sorted_cases x l :
  sorted l ->
  (exists l1 l2, l = l1 ++ l2 /\ all_below x l1 /\ all_above x l2) \/
  (exists l1 y l2, l = l1 ++ y :: l2 /\ all_below x l1 /\ same_as x y = true /\ all_above x l2).
Proof.
  induction l as [|y l IH]; intros Hs.
  { left. exists [], []. split_and!; [done|constructor|constructor]. }
  apply sorted_cons in Hs as [Hy Hs]. destruct (Less y x) eqn:Hyx.
  - destruct (IH Hs) as [(l1 & l2 & -> & H1 & H2)|(l1 & z & l2 & -> & H1 & H2 & H3)].
    + left. exists (y :: l1), l2. split_and!; [done|by constructor|done].
    + right. exists (y :: l1), z, l2. split_and!; [done|by constructor|done..].
  - destruct (Less x y) eqn:Hxy.
    + left. exists [], (y :: l). split_and!; [done|constructor|].
      constructor; [done|]. by eapply all_above_trans.
    + assert (Hxs : same_as x y = true) by (unfold same_as; by rewrite Hxy, Hyx).
      right. exists [], y, l. split_and!; [done|constructor|done|]. by eapply all_above_same.
Qed.

Lemma parts_none x l1 l2 : all_below x l1 -> all_above x l2 ->
  below x (l1 ++ l2) = l1 /\ same x (l1 ++ l2) = [] /\ above x (l1 ++ l2) = l2.
Proof.
  intros H1 H2. destruct (parts_middle x l1 [] l2 H1 H2) as (HB & HS & HA). cbn [app] in *.
  by rewrite HB, HS, HA, app_nil_r.
Qed.
Lemma parts_some x l1 y l2 : all_below x l1 -> same_as x y = true -> all_above x l2 ->
  below x (l1 ++ y :: l2) = l1 /\ same x (l1 ++ y :: l2) = [y] /\ above x (l1 ++ y :: l2) = l2.
Proof.
  intros H1 Hy H2. destruct (parts_middle x l1 [y] l2 H1 H2) as (HB & HS & HA).
  destruct (parts_one x y Hy) as (E1 & E2 & E3). cbn [app] in *.
  by rewrite HB, HS, HA, E1, E2, E3, app_nil_r.
Qed.

Lemma sorted_parts x l : sorted l -> l = below x l ++ same x l ++ above x l.
Proof.
  intros [(l1 & l2 & -> & H1 & H2)|(l1 & y & l2 & -> & H1 & Hy & H2)]%(sorted_cases x).
  - by destruct (parts_none x l1 l2 H1 H2) as (-> & -> & ->).
  - by destruct (parts_some x l1 y l2 H1 Hy H2) as (-> & -> & ->).
Qed.

(** ** [items.find] *)

Lemma find_none x s1 s2 :
  all_below x s1 -> all_above x s2 -> find Less (s1 ++ s2) x = (length s1, false).
Proof.
  intros H1 H2. set (f := fun h => match (s1 ++ s2) !! h with Some y => Less x y | None => false end).
  assert (Hsep : separates (length (s1 ++ s2)) f (length s1)).
  { split_and!; [rewrite length_app; lia|..]; intros k Hk; unfold f.
    - rewrite lookup_app_l by done. destruct (s1 !! k) eqn:He; [|done].
      apply less_asym. by eapply (Forall_lookup_1 _ _ _ _ H1).
    - rewrite lookup_app_r by lia. destruct (s2 !! (k - length s1)%nat) eqn:He.
      + by eapply (Forall_lookup_1 _ _ _ _ H2).
      + apply lookup_ge_None in He. rewrite length_app in Hk. lia. }
  assert (Hi : Search (length (s1 ++ s2)) f = length s1).
  { eapply separates_unique; [apply Search_spec|exact Hsep]. intros k k' Hk Hf.
    destruct Hsep as (_ & Hlo & Hhi). apply Hhi. split; [|lia].
    destruct (decide (k < length s1)%nat) as [Hlt|]; [|lia]. by rewrite Hlo in Hf. }
  unfold find. fold f. rewrite Hi. destruct (length s1) as [|i] eqn:Hl; [done|].
  rewrite lookup_app_l by lia. destruct (s1 !! i) eqn:He; [|done].
  by rewrite (Forall_lookup_1 _ _ _ _ H1 He).
Qed.

Lemma find_some x s1 y s2 :
  all_below x s1 -> same_as x y = true -> all_above x s2 ->
  find Less (s1 ++ y :: s2) x = (length s1, true).
Proof.
  intros H1 Hy H2. destruct (same_inv x y Hy) as [Hxy Hyx].
  set (f := fun h => match (s1 ++ y :: s2) !! h with Some z => Less x z | None => false end).
  assert (Hsep : separates (length (s1 ++ y :: s2)) f (S (length s1))).
  { split_and!; [rewrite length_app; simpl; lia|..]; intros k Hk; unfold f.
    - destruct (decide (k = length s1)) as [->|Hne]; [by rewrite list_lookup_middle|].
      rewrite lookup_app_l by lia. destruct (s1 !! k) eqn:He; [|done].
      apply less_asym. by eapply (Forall_lookup_1 _ _ _ _ H1).
    - rewrite lookup_app_r by lia. replace (k - length s1)%nat with (S (k - S (length s1))) by lia.
      simpl. destruct (s2 !! (k - S (length s1))%nat) eqn:He.
      + by eapply (Forall_lookup_1 _ _ _ _ H2).
      + apply lookup_ge_None in He. rewrite length_app in Hk. simpl in Hk. lia. }
  assert (Hi : Search (length (s1 ++ y :: s2)) f = S (length s1)).
  { eapply separates_unique; [apply Search_spec|exact Hsep]. intros k k' Hk Hf.
    destruct Hsep as (_ & Hlo & Hhi). apply Hhi. split; [|lia].
    destruct (decide (k < S (length s1))%nat) as [Hlt|]; [|lia]. by rewrite Hlo in Hf. }
  unfold find. fold f. rewrite Hi, list_lookup_middle by done. by rewrite Hyx.
Qed.
End Order.
