(* ===== verification/BTreeShape.v ===== *)
(** * BTreeShape: the in-order sequence and the shape of B-tree nodes

    A node stands for the sequence of its items, [inorder].  Around one child the
    sequence is [pre ++ inorder child ++ post]; every operation of the tree is
    described by what it does to this sequence.  [wf] is the shape invariant: all
    leaves at the same depth, bounded numbers of items, correct ranks. *)

From stdpp Require Import base option sets list sorting tactics.
From S2P Require Import Prelude.
From S2P Require Import BTree.
From S2P Require Import BTreeFacts.

Section Shape.
Context {Item : Type}.
Implicit Types (n c : node Item) (cs : list (node Item)) (its : list Item).

Fixpoint join (ls : list (list Item)) (its : list Item) : list Item :=
  match ls with
  | [] => its
  | l :: ls' => l ++ match its with [] => join ls' [] | x :: its' => x :: join ls' its' end
  end.
Fixpoint inorder (n : node Item) : list Item :=
  let 'mkNode its cs _ := n in join (map inorder cs) its.
Definition size (n : node Item) : Z := len (inorder n).

(** What stands before, and after, a child. *)
Definition pre cs its : list Item := concat (zip_with (fun c x => inorder c ++ [x]) cs its).
Definition post its cs : list Item := concat (zip_with (fun x c => x :: inorder c) its cs).

Lemma pre_snoc cs its c x :
  length cs = length its -> pre (cs ++ [c]) (its ++ [x]) = pre cs its ++ inorder c ++ [x].
Proof.
  intros H. unfold pre. rewrite zip_with_app by done. rewrite concat_app. cbn. by rewrite app_nil_r.
Qed.
Lemma pre_app cs its cs' its' :
  length cs = length its -> pre (cs ++ cs') (its ++ its') = pre cs its ++ pre cs' its'.
Proof. intros H. unfold pre. rewrite zip_with_app by done. apply concat_app. Qed.
Lemma pre_cons c cs x its : pre (c :: cs) (x :: its) = inorder c ++ x :: pre cs its.
Proof. unfold pre. cbn. by rewrite <- app_assoc. Qed.
Lemma post_cons x its c cs : post (x :: its) (c :: cs) = x :: inorder c ++ post its cs.
Proof. done. Qed.
Lemma post_app its cs its' cs' :
  length its = length cs -> post (its ++ its') (cs ++ cs') = post its cs ++ post its' cs'.
Proof. intros H. unfold post. rewrite zip_with_app by done. apply concat_app. Qed.

Lemma join_post l its cs :
  length its = length cs -> join (l :: map inorder cs) its = l ++ post its cs.
Proof.
  revert l cs. induction its as [|x its IH]; intros l [|c cs] H; try done.
  cbn [map join]. f_equal. rewrite post_cons. f_equal.
  specialize (IH (inorder c) cs ltac:(simpl in H; lia)). cbn [join] in IH. exact IH.
Qed.

Lemma inorder_focus cs1 c cs2 its1 its2 ix :
  length cs1 = length its1 -> length its2 = length cs2 ->
  inorder (mkNode (its1 ++ its2) (cs1 ++ c :: cs2) ix) = pre cs1 its1 ++ inorder c ++ post its2 cs2.
Proof.
  intros H1 H2. cbn [inorder]. revert its1 H1.
  induction cs1 as [|c1 cs1 IH]; intros [|x its1] H1; try done.
  - cbn [map app]. rewrite join_post by done. done.
  - cbn [map app join]. rewrite pre_cons, <- app_assoc. cbn [app]. do 2 f_equal.
    apply IH. simpl in H1. lia.
Qed.

Lemma inorder_leaf its ix : inorder (mkNode its [] ix) = its.
Proof. done. Qed.

(** Adjacent children around an item. *)
Lemma inorder_focus2 cs1 c1 c2 cs2 its1 x its2 ix :
  length cs1 = length its1 -> length its2 = length cs2 ->
  inorder (mkNode (its1 ++ x :: its2) (cs1 ++ c1 :: c2 :: cs2) ix)
    = pre cs1 its1 ++ inorder c1 ++ x :: inorder c2 ++ post its2 cs2.
Proof.
  intros H1 H2. rewrite inorder_focus by (simpl; lia). by rewrite post_cons.
Qed.

Lemma len_pre cs its : length cs = length its -> len (pre cs its) = total (map size cs).
Proof.
  revert its. induction cs as [|c cs IH]; intros [|x its] H; try done.
  rewrite pre_cons, len_app, len_cons, IH by (simpl in H; lia). cbn [map total foldr].
  unfold size, total. lia.
Qed.
Lemma len_post its cs : length its = length cs -> len (post its cs) = total (map size cs).
Proof.
  revert cs. induction its as [|x its IH]; intros [|c cs] H; try done.
  rewrite post_cons, len_cons, len_app, IH by (simpl in H; lia). cbn [map total foldr].
  unfold size, total. lia.
Qed.

(** ** An inner node around one of its children *)
Definition fnode its1 its2 cs1 c cs2 : node Item :=
  mkNode (its1 ++ its2) (cs1 ++ c :: cs2) (idxs 0 (map size cs1 ++ size c :: map size cs2)).

Section Wf.
Context (mn mx : nat).

Fixpoint wf (h : nat) (n : node Item) : Prop :=
  (length (items n) <= mx)%nat /\
  match h with
  | O => children n = [] /\ ranks n = []
  | S h' => length (children n) = S (length (items n))
            /\ ranks n = idxs 0 (map size (children n))
            /\ Forall (fun c => (mn <= length (items c))%nat /\ wf h' c) (children n)
  end.
Definition child_ok (h : nat) (c : node Item) : Prop := (mn <= length (items c))%nat /\ wf h c.

(** The siblings of the child in focus. *)
Record fits (h : nat) (its1 its2 : list Item) (cs1 cs2 : list (node Item)) : Prop := {
  fit_left : length cs1 = length its1;
  fit_right : length its2 = length cs2;
  fit_ok1 : Forall (child_ok h) cs1;
  fit_ok2 : Forall (child_ok h) cs2;
}.

Lemma focus h n its1 its2 :
  wf (S h) n -> items n = its1 ++ its2 ->
  exists cs1 c cs2, n = fnode its1 its2 cs1 c cs2 /\ fits h its1 its2 cs1 cs2 /\ child_ok h c.
Proof.
  destruct n as [its cs ix]. intros (_ & Hl & Hr & Hf) Hi. cbn [items children ranks] in *. subst.
  rewrite length_app in Hl.
  destruct (list_cut_cons cs (length its1)) as (cs1 & c & cs2 & -> & Hlc); [lia|].
  rewrite length_app in Hl. simpl in Hl.
  apply Forall_app in Hf as [Hf1 [Hfc Hf2]%list.Forall_cons].
  exists cs1, c, cs2. split_and!; [|split; [done|lia|done|done]|done].
  unfold fnode. by rewrite map_app.
Qed.

Lemma unfocus h its1 its2 cs1 c cs2 :
  fits h its1 its2 cs1 cs2 -> (length its1 + length its2 <= mx)%nat -> child_ok h c ->
  wf (S h) (fnode its1 its2 cs1 c cs2).
Proof.
  intros [H1 H2 Hf1 Hf2] Hm Hc. cbn [wf items children ranks fnode]. split_and!.
  - rewrite length_app. lia.
  - rewrite !length_app. simpl. lia.
  - by rewrite map_app.
  - apply Forall_app. split; [done|]. by constructor.
Qed.

Lemma fnode_inorder h its1 its2 cs1 c cs2 :
  fits h its1 its2 cs1 cs2 ->
  inorder (fnode its1 its2 cs1 c cs2) = pre cs1 its1 ++ inorder c ++ post its2 cs2.
Proof. intros [H1 H2 _ _]. by apply inorder_focus. Qed.

Lemma fits_item h its1 x y its2 cs1 cs2 :
  fits h its1 (x :: its2) cs1 cs2 -> fits h its1 (y :: its2) cs1 cs2.
Proof. by intros [? ? ? ?]. Qed.
Lemma fnode_inorder2 h its1 x y its2 cs1 c1 c2 cs2 :
  fits h its1 (x :: its2) cs1 (c2 :: cs2) ->
  inorder (fnode its1 (y :: its2) cs1 c1 (c2 :: cs2))
    = (pre cs1 its1 ++ inorder c1) ++ y :: inorder c2 ++ post its2 cs2.
Proof.
  intros Hf. rewrite (fnode_inorder h) by by apply (fits_item _ _ x). by rewrite <- app_assoc.
Qed.

(** Moving the focus to the next child, and back. *)
Lemma fnode_next its1 y its2 cs1 c1 c2 cs2 :
  fnode its1 (y :: its2) cs1 c1 (c2 :: cs2) = fnode (its1 ++ [y]) its2 (cs1 ++ [c1]) c2 cs2.
Proof. unfold fnode. rewrite !map_app, <- !app_assoc. done. Qed.
Lemma fits_next h its1 y its2 cs1 c1 c2 cs2 :
  fits h its1 (y :: its2) cs1 (c2 :: cs2) -> child_ok h c1 ->
  fits h (its1 ++ [y]) its2 (cs1 ++ [c1]) cs2 /\ child_ok h c2.
Proof.
  intros [H1 H2 Hf1 [Hc2 Hf2]%list.Forall_cons] Hc. split; [|done]. split.
  - rewrite !length_app. simpl. lia.
  - simpl in H2. lia.
  - apply Forall_app. split; [done|]. by apply Forall_singleton.
  - done.
Qed.
Lemma fits_prev h its1 y its2 cs1 c1 c2 cs2 :
  fits h (its1 ++ [y]) its2 (cs1 ++ [c1]) cs2 -> child_ok h c2 ->
  fits h its1 (y :: its2) cs1 (c2 :: cs2) /\ child_ok h c1.
Proof.
  intros [H1 H2 [Hf1 [Hc1 _]%list.Forall_cons]%Forall_app Hf2] Hc. split; [|done].
  rewrite !length_app in H1. simpl in H1. split; [lia|simpl; lia|done|by constructor].
Qed.

Lemma wf_max h n : wf h n -> (length (items n) <= mx)%nat.
Proof. destruct h; by intros [? _]. Qed.

Lemma wf_leaf n : wf 0 n -> exists its, n = mkNode its [] [] /\ (length its <= mx)%nat.
Proof. destruct n as [its cs ix]. intros (Hm & Hc & Hr). cbn in *. subst. by exists its. Qed.
Lemma leaf_wf its : (length its <= mx)%nat -> wf 0 (mkNode its [] []).
Proof. done. Qed.

Lemma size_inner h n : wf (S h) n -> size n = total (map size (children n)) - 1.
Proof.
  intros Hw. destruct (focus h n [] (items n) Hw eq_refl) as (cs1 & c & cs2 & -> & Hf & _).
  unfold size at 1. rewrite (fnode_inorder _ _ _ _ _ _ Hf).
  destruct Hf as [H1 H2 _ _]. destruct cs1; [|discriminate H1].
  change (pre [] []) with (@nil Item). cbn [app map fnode children].
  rewrite len_app, len_post by done. cbn [total foldr]. unfold size, total. lia.
Qed.

Lemma node_length_size h n : wf h n -> node_length n = size n.
Proof.
  intros Hw. unfold node_length. destruct h as [|h].
  - destruct (wf_leaf n Hw) as (its & -> & _). done.
  - pose proof (size_inner h n Hw) as Hs. destruct Hw as (_ & Hl & -> & _).
    rewrite last_idxs, Hs; [done|]. destruct (children n); [simpl in Hl; lia|done].
Qed.

Lemma child_ok_length cs h : Forall (child_ok h) cs -> map node_length cs = map size cs.
Proof.
  induction 1 as [|c cs [_ Hc] _ IH]; [done|]. cbn. by rewrite IH, (node_length_size h c Hc).
Qed.

Lemma initLoop_idxs cs : forall a, initLoop a cs = idxs a (map node_length cs).
Proof. induction cs as [|c cs IH]; intros a; cbn; [done|]. by rewrite IH. Qed.

Lemma height_wf h n : wf h n -> height n = h.
Proof.
  revert n. induction h as [|h IH]; intros [its cs ix].
  - intros (_ & Hc & _). cbn in Hc. by subst.
  - intros (_ & Hl & _ & Hf). cbn in Hl. destruct cs as [|c cs]; [discriminate|].
    cbn [children] in Hf. apply list.Forall_cons in Hf as [[_ Hc] _]. cbn. by rewrite (IH c Hc).
Qed.

End Wf.

(** ** Steps on the child in focus *)

Lemma fnode_child {E} its1 its2 cs1 c cs2 i :
  length cs1 = length its1 -> i = length its1 ->
  at_ (E:=E) (children (fnode its1 its2 cs1 c cs2)) i = Ret c.
Proof. intros H ->. apply at_middle. done. Qed.
Lemma fnode_item {E} its1 y its2 cs1 c cs2 i :
  i = length its1 -> at_ (E:=E) (items (fnode its1 (y :: its2) cs1 c cs2)) i = Ret y.
Proof. intros ->. by apply at_middle. Qed.
Lemma fnode_children its1 its2 cs1 c cs2 : children (fnode its1 its2 cs1 c cs2) <> [].
Proof. cbn. by destruct cs1. Qed.

Lemma setChild_fnode {E} its1 its2 cs1 c cs2 c' i :
  length cs1 = length its1 -> i = length its1 ->
  setChild (E:=E) (fnode its1 its2 cs1 c cs2) i c'
    = Ret (mkNode (its1 ++ its2) (cs1 ++ c' :: cs2) (idxs 0 (map size cs1 ++ size c :: map size cs2))).
Proof. intros H ->. unfold setChild. cbn [fnode children]. by rewrite set_at_middle. Qed.

Lemma addRanks_fnode its1 its2 cs1 c cs2 c' i d :
  length cs1 = length its1 -> i = length its1 -> size c' = size c + d ->
  addRanks (mkNode (its1 ++ its2) (cs1 ++ c' :: cs2) (idxs 0 (map size cs1 ++ size c :: map size cs2))) i d
    = fnode its1 its2 cs1 c' cs2.
Proof.
  intros H -> Hs. unfold addRanks, fnode. cbn [items children ranks].
  by rewrite addAt_idxs, Hs by (by rewrite length_map).
Qed.

Lemma setItem_fnode {E} its1 y its2 cs1 c cs2 x i :
  i = length its1 ->
  setItem (E:=E) (fnode its1 (y :: its2) cs1 c cs2) i x = Ret (fnode its1 (x :: its2) cs1 c cs2).
Proof. intros ->. unfold setItem. cbn [fnode items]. by rewrite set_at_middle. Qed.

Lemma items_sublist ls : forall its, its `sublist_of` join ls its.
Proof.
  induction ls as [|l ls IH]; intros its; [done|]. cbn [join].
  apply sublist_inserts_l. destruct its as [|x its]; [apply sublist_nil_l|]. apply sublist_skip, IH.
Qed.
Lemma child_ok_nonempty mn mx : (1 <= mn)%nat -> forall h c, child_ok mn mx h c -> inorder c <> [].
Proof.
  intros Hmn h c [Hl _] He. assert (Hsub : items c `sublist_of` inorder c)
    by (destruct c; apply items_sublist).
  rewrite He in Hsub. apply sublist_length in Hsub. simpl in Hsub. lia.
Qed.

(** ** Sortedness of a node *)
Section Sorted.
Context (Less : Item -> Item -> bool) `{!StrictWeakOrder Less}.
Abbreviation sorted := (sorted Less).
Abbreviation all_below := (all_below Less).
Abbreviation all_above := (all_above Less).

Lemma sorted_sublist l1 l2 : l1 `sublist_of` l2 -> sorted l2 -> sorted l1.
Proof.
  induction 1 as [|x l1 l2 Hsub IH|x l1 l2 Hsub IH]; intros Hs; [done|..];
    apply sorted_cons in Hs as [Ha Hs].
  - apply sorted_cons. split; [|by apply IH]. apply list.Forall_forall. intros y Hy.
    unfold BTreeFacts.all_above in Ha. rewrite list.Forall_forall in Ha.
    apply Ha. by eapply elem_of_sublist.
  - by apply IH.
Qed.

Lemma sorted_items n : sorted (inorder n) -> sorted (items n).
Proof. destruct n as [its cs ix]. apply sorted_sublist. apply items_sublist. Qed.

Lemma sorted_around l1 y l2 x :
  sorted (l1 ++ y :: l2) -> same_as Less x y = true -> all_below x l1 /\ all_above x l2.
Proof.
  intros (Hlt & _ & [Ha _]%sorted_cons)%sorted_app Hxy. split.
  - apply list.Forall_forall. intros z Hz. apply (less_same Less x y); [done|]. apply Hlt; set_solver.
  - by apply (all_above_same Less x y).
Qed.

Lemma pre_below x cs its :
  length cs = length its -> sorted (pre cs its) -> all_below x its -> all_below x (pre cs its).
Proof.
  revert its. induction cs as [|c cs IH]; intros [|y its] Hl Hs Hb; try done.
  rewrite pre_cons in *. apply list.Forall_cons in Hb as [Hy Hb].
  apply sorted_app in Hs as (Hlt & _ & [_ Hs]%sorted_cons).
  apply Forall_app. split.
  - apply list.Forall_forall. intros z Hz. eapply less_trans; [|exact Hy]. apply Hlt; set_solver.
  - constructor; [done|]. apply IH; [simpl in Hl; lia|done..].
Qed.
Lemma post_above x its cs :
  length its = length cs -> sorted (post its cs) -> all_above x its -> all_above x (post its cs).
Proof.
  destruct its as [|y its], cs as [|c cs]; intros Hl Hs Hb; try done.
  rewrite post_cons in *. apply list.Forall_cons in Hb as [Hy _].
  apply sorted_cons in Hs as [Ha _]. constructor; [done|]. by eapply all_above_trans.
Qed.

(** Where the search for [x] goes on: everything else is below or above. *)
Lemma fnode_bounds h mn its1 its2 cs1 c cs2 mx x :
  fits mn mx h its1 its2 cs1 cs2 -> sorted (inorder (fnode its1 its2 cs1 c cs2)) ->
  all_below x its1 -> all_above x its2 ->
  all_below x (pre cs1 its1) /\ all_above x (post its2 cs2) /\ sorted (inorder c).
Proof.
  intros Hf Hs Hb Ha. rewrite (fnode_inorder _ _ _ _ _ _ _ _ Hf) in Hs.
  apply sorted_app in Hs as (_ & H1 & (_ & H2 & H3)%sorted_app). destruct Hf as [Hl1 Hl2 _ _].
  split_and!; [by apply pre_below|by apply post_above|done].
Qed.

(** Which way an inner node goes: its item is replaced, or a child takes over. *)
Lemma focus_find mn mx h n x :
  wf mn mx (S h) n -> sorted (inorder n) ->
  (exists its1 its2 cs1 c cs2, n = fnode its1 its2 cs1 c cs2
     /\ fits mn mx h its1 its2 cs1 cs2 /\ child_ok mn mx h c
     /\ all_below x its1 /\ all_above x its2
     /\ find Less (items n) x = (length its1, false)) \/
  (exists its1 y its2 cs1 c cs2, n = fnode its1 (y :: its2) cs1 c cs2
     /\ fits mn mx h its1 (y :: its2) cs1 cs2 /\ child_ok mn mx h c /\ same_as Less x y = true
     /\ find Less (items n) x = (length its1, true)).
Proof.
  intros Hw Hs.
  destruct (sorted_cases Less x (items n) (sorted_items n Hs))
    as [(s1 & s2 & Hn & H1 & H2)|(s1 & y & s2 & Hn & H1 & Hy & H2)];
    destruct (focus _ _ _ _ _ _ Hw Hn) as (cs1 & c & cs2 & He & Hf & Hc); rewrite Hn.
  - left. exists s1, s2, cs1, c, cs2. split_and!; try done. by apply find_none.
  - right. exists s1, y, s2, cs1, c, cs2. split_and!; try done. by apply find_some.
Qed.

End Sorted.
End Shape.
