(* ===== verification/BTreeInsert.v ===== *)
(** * BTreeInsert: insertion into a B-tree

    [node.split], [maybeSplitChild] and [node.insert]: the in-order sequence of the
    result is the old one with the item put in its place, and the shape is kept. *)

From stdpp Require Import base option sets list sorting tactics.
From S2P Require Import Prelude.
From S2P Require Import BTree.
From S2P Require Import BTreeFacts.
From S2P Require Import BTreeShape.

Section Insert.
Context {E Item : Type} (Less : Item -> Item -> bool) `{!StrictWeakOrder Less}.
Context (mn mx : nat).
Implicit Types (n c : node Item) (its : list Item) (cs : list (node Item)).

(** ** Splitting *)

Lemma fits_cut h its1 y its2 cs1 c0 c1 cs2 :
  fits mn mx h its1 (y :: its2) cs1 (c1 :: cs2) -> child_ok mn mx h c0 ->
  fits mn mx h its1 [] cs1 [] /\ fits mn mx h [] its2 [] cs2 /\ child_ok mn mx h c1.
Proof.
  intros [H1 H2 Hf1 [Hc1 Hf2]%list.Forall_cons] Hc0. simpl in H2.
  split_and!; [split| split|]; try done; lia.
Qed.

Lemma split_fnode h its1 y its2 cs1 c0 c1 cs2 :
  fits mn mx h its1 (y :: its2) cs1 (c1 :: cs2) ->
  split (E:=E) (fnode its1 (y :: its2) cs1 c0 (c1 :: cs2)) (length its1)
    = Ret (fnode its1 [] cs1 c0 [], y, fnode [] its2 [] c1 cs2).
Proof.
  intros [H1 H2 Hf1 Hf2]. unfold split. cbn [fnode items children ranks].
  rewrite at_middle, drop_S_middle, take_app_length by done. rewrite <- H1.
  destruct (cs1 ++ c0 :: c1 :: cs2) eqn:Hcs; [by destruct cs1|]. rewrite <- Hcs. clear Hcs.
  rewrite decide_True by (rewrite length_app; simpl; lia). unfold truncate.
  rewrite decide_True by (rewrite length_app; simpl; lia).
  rewrite decide_True by (rewrite idxs_length, length_app, length_map; simpl; lia).
  cbn [map]. rewrite (idxs_app (map size cs1)). cbn [idxs].
  rewrite !take_S_middle, drop_S_middle by (rewrite ?idxs_length, ?length_map; done).
  unfold initSize, fnode. cbn [items children map app].
  rewrite initLoop_idxs, (child_ok_length mn mx (c1 :: cs2) h) by done.
  by rewrite idxs_app, app_nil_r.
Qed.

(** A node cut at item [i]. *)
Lemma split_spec h c i :
  wf mn mx h c -> (i < length (items c))%nat -> (mn <= i)%nat -> (mn + i < length (items c))%nat ->
  exists c1 y c2, split (E:=E) c i = Ret (c1, y, c2)
    /\ inorder c = inorder c1 ++ y :: inorder c2 /\ child_ok mn mx h c1 /\ child_ok mn mx h c2
    /\ length (items c1) = i /\ length (items c2) = (length (items c) - 1 - i)%nat.
Proof.
  intros Hw Hi Hmn Hmn2. pose proof (wf_max _ _ _ _ Hw) as Hmx.
  destruct (list_cut_cons (items c) i Hi) as (its1 & y & its2 & Hc & Hl1).
  assert (Hlen : length (items c) = (i + S (length its2))%nat)
    by (rewrite Hc, length_app; simpl; lia). destruct h as [|h].
  - destruct (wf_leaf _ _ c Hw) as (its & -> & _). cbn [items] in *. subst its.
    exists (mkNode its1 [] []), y, (mkNode its2 [] []). unfold split. cbn [items children ranks].
    rewrite at_middle, drop_S_middle, take_app_length' by done.
    split_and!; try done; try (cbn; lia); (split; [simpl; lia|apply leaf_wf; lia]).
  - destruct (focus _ _ h c its1 (y :: its2) Hw Hc) as (cs1 & c0 & cs2' & -> & Hf & Hc0).
    destruct cs2' as [|c1 cs2]; [destruct Hf as [_ Hf _ _]; discriminate|].
    destruct (fits_cut _ _ _ _ _ _ _ _ Hf Hc0) as (Hf1 & Hf2 & Hc1).
    exists (fnode its1 [] cs1 c0 []), y, (fnode [] its2 [] c1 cs2).
    assert (Hl : length (its1 ++ []) = i) by by rewrite app_nil_r.
    rewrite <- Hl1, (split_fnode h), !(fnode_inorder mn mx h) by done. rewrite Hl1.
    change (post [] []) with (@nil Item). rewrite post_cons, app_nil_r, <- !app_assoc.
    split_and!; [done..|split|split|done|]; try (cbn [fnode items app length] in *; lia);
      (apply unfocus; [done|simpl; lia|done]).
Qed.

(** ** Splitting a full child *)
Section Bounds.
Context (Hmx : mx = (2 * mn + 1)%nat) (Hmn : (1 <= mn)%nat).

Lemma div2_mx : Nat.div2 mx = mn.
Proof. rewrite Hmx, Nat.add_1_r. apply Nat.div2_succ_double. Qed.

Lemma maybeSplitChild_room h its1 its2 cs1 c cs2 :
  fits mn mx h its1 its2 cs1 cs2 -> (length (items c) < mx)%nat ->
  maybeSplitChild (E:=E) (fnode its1 its2 cs1 c cs2) (length its1) mx
    = Ret (fnode its1 its2 cs1 c cs2, false).
Proof.
  intros [H1 _ _ _] Hc. unfold maybeSplitChild. rewrite fnode_child by done.
  by rewrite decide_True.
Qed.

Lemma maybeSplitChild_full h its1 its2 cs1 c cs2 :
  fits mn mx h its1 its2 cs1 cs2 -> wf mn mx h c -> length (items c) = mx ->
  exists c1 y c2,
    maybeSplitChild (E:=E) (fnode its1 its2 cs1 c cs2) (length its1) mx
      = Ret (fnode its1 (y :: its2) cs1 c1 (c2 :: cs2), true)
    /\ inorder c = inorder c1 ++ y :: inorder c2
    /\ fits mn mx h its1 (y :: its2) cs1 (c2 :: cs2)
    /\ child_ok mn mx h c1 /\ child_ok mn mx h c2
    /\ (length (items c1) < mx)%nat /\ (length (items c2) < mx)%nat.
Proof.
  intros [H1 H2 H3 H4] Hw Hc. destruct (split_spec h c mn) as (c1 & y & c2 & Hs & Hi & Hc1 & Hc2 & Hl1 & Hl2);
    [done|lia..|]. exists c1, y, c2. split_and!; try done; try lia.
  - unfold maybeSplitChild. rewrite fnode_child, decide_False, div2_mx by (done || lia).
    rewrite Hs. cbn [fnode children items ranks].
    rewrite set_at_middle by done. cbn beta iota. rewrite insertAt_middle by done. cbn beta iota.
    rewrite (cons_middle c1 cs1 cs2), app_assoc.
    rewrite insertAt_middle by (rewrite length_app; simpl; lia). cbn beta iota.
    rewrite split_idxs by (by rewrite length_map). cbn beta iota. unfold fnode.
    rewrite <- app_assoc, (node_length_size mn mx h c2) by apply Hc2. cbn [map app].
    replace (size c - 1 - size c2) with (size c1); [done|].
    unfold size. rewrite Hi, len_app, len_cons. lia.
  - split; [done|simpl; lia|done|by constructor].
Qed.

(** ** Insertion *)

(** What inserting [x] into [n] gives. *)
Record inserted (h : nat) (n : node Item) (x : Item) (n' : node Item) (out : option Item) : Prop := {
  in_inorder : inorder n' = below Less x (inorder n) ++ x :: above Less x (inorder n);
  in_out : out = head (same Less x (inorder n));
  in_wf : wf mn mx h n';
  in_more : (length (items n) <= length (items n'))%nat;
}.

Lemma inserted_found h n x n' l1 y l2 :
  sorted Less (inorder n) -> inorder n = l1 ++ y :: l2 -> same_as Less x y = true ->
  inorder n' = l1 ++ x :: l2 -> wf mn mx h n' -> (length (items n) <= length (items n'))%nat ->
  inserted h n x n' (Some y).
Proof.
  intros Hs Hn Hxy Hn' Hw Hl. rewrite Hn in Hs.
  destruct (sorted_around Less l1 y l2 x Hs Hxy) as [H1 H2].
  destruct (parts_some Less x l1 y l2 H1 Hxy H2) as (EB & ES & EA).
  split; rewrite ?Hn, ?EB, ?ES, ?EA; done.
Qed.

(** One item more, unless one was replaced. *)
Lemma inserted_size h n x n' out :
  sorted Less (inorder n) -> inserted h n x n' out ->
  size n' = size n + match out with None => 1 | Some _ => 0 end.
Proof.
  intros Hs [Hi Ho _ _]. unfold size. rewrite Hi, Ho. clear Hi Ho.
  destruct (sorted_cases Less x (inorder n) Hs) as [(l1 & l2 & -> & H1 & H2)|(l1 & y & l2 & -> & H1 & Hy & H2)].
  - destruct (parts_none Less x l1 l2 H1 H2) as (-> & -> & ->).
    rewrite !len_app, len_cons. simpl. lia.
  - destruct (parts_some Less x l1 y l2 H1 Hy H2) as (-> & -> & ->).
    rewrite !len_app, !len_cons. simpl. lia.
Qed.

(** Going on in the child in focus. *)
Lemma inserted_child h its1 its2 cs1 c cs2 x c' out :
  fits mn mx h its1 its2 cs1 cs2 -> (length its1 + length its2 <= mx)%nat ->
  sorted Less (inorder (fnode its1 its2 cs1 c cs2)) ->
  all_below Less x its1 -> all_above Less x its2 -> (mn <= length (items c))%nat ->
  inserted h c x c' out ->
  inserted (S h) (fnode its1 its2 cs1 c cs2) x (fnode its1 its2 cs1 c' cs2) out.
Proof.
  intros Hf Hl Hs Hb Ha Hm [Hi Ho Hw Hmore].
  destruct (fnode_bounds Less _ _ _ _ _ _ _ _ _ Hf Hs Hb Ha) as (HB & HA & _).
  destruct (parts_middle Less x _ (inorder c) _ HB HA) as (EB & ES & EA).
  split; rewrite ?(fnode_inorder mn mx h its1 its2 cs1 _ cs2 Hf), ?EB, ?ES, ?EA; try done.
  - rewrite Hi, <- !app_assoc. done.
  - apply unfocus; [done|lia|]. split; [lia|done].
Qed.

Lemma insert_step h its1 its2 cs1 c cs2 x c' out :
  fits mn mx h its1 its2 cs1 cs2 -> sorted Less (inorder c) -> inserted h c x c' out ->
  (let! r := setChild (E:=E) (fnode its1 its2 cs1 c cs2) (length its1) c' in
   match out with
   | None => Ret (addRanks r (length its1) 1, None)
   | Some _ => Ret (r, out)
   end) = Ret (fnode its1 its2 cs1 c' cs2, out).
Proof.
  intros [H1 _ _ _] Hs Hin. rewrite setChild_fnode by done. cbn beta iota.
  pose proof (inserted_size _ _ _ _ _ Hs Hin) as Hsz. destruct out as [y|].
  - unfold fnode. by rewrite Hsz, Z.add_0_r.
  - by rewrite (addRanks_fnode its1 its2 cs1 c cs2 c').
Qed.

Lemma insert_leaf its x fuel :
  (length its < mx)%nat -> sorted Less its ->
  exists n', insert Less (E:=E) (S fuel) (mkNode its [] []) x mx = Ret (n', head (same Less x its))
    /\ inserted 0 (mkNode its [] []) x n' (head (same Less x its)).
Proof.
  intros Hl Hs. cbn [insert items children ranks].
  destruct (sorted_cases Less x its Hs) as [(s1 & s2 & -> & H1 & H2)|(s1 & y & s2 & -> & H1 & Hy & H2)].
  - rewrite (find_none Less x s1 s2 H1 H2), insertAt_middle by done.
    destruct (parts_none Less x s1 s2 H1 H2) as (EB & ES & EA). rewrite ES.
    exists (mkNode (s1 ++ x :: s2) [] []). split; [done|].
    split; rewrite ?inorder_leaf, ?EB, ?EA, ?ES; cbn [items]; try done.
    + apply leaf_wf. rewrite length_app in *. simpl. lia.
    + rewrite !length_app. simpl. lia.
  - rewrite (find_some Less x s1 y s2 H1 Hy H2), at_middle by done. unfold setItem.
    cbn [items children ranks]. rewrite set_at_middle by done.
    destruct (parts_some Less x s1 y s2 H1 Hy H2) as (EB & ES & EA). rewrite ES.
    exists (mkNode (s1 ++ x :: s2) [] []). split; [done|].
    eapply inserted_found; [done|done|done|done| |cbn; by rewrite !length_app].
    apply leaf_wf. rewrite length_app in *. simpl in *. lia.
Qed.

(** The statement of the induction: enough fuel for the height. *)
Definition insert_ok (h : nat) : Prop := forall fuel n x,
  (h < fuel)%nat -> wf mn mx h n -> (length (items n) < mx)%nat -> sorted Less (inorder n) ->
  exists n' out, insert Less (E:=E) fuel n x mx = Ret (n', out) /\ inserted h n x n' out.

(** After a split the item goes left or right of the item that moved up, or replaces it. *)
Lemma insert_split h n its1 y its2 cs1 c1 c2 cs2 x fuel :
  insert_ok h -> (h < fuel)%nat ->
  fits mn mx h its1 (y :: its2) cs1 (c2 :: cs2) -> child_ok mn mx h c1 ->
  (length (items c1) < mx)%nat -> (length (items c2) < mx)%nat ->
  (length its1 + length its2 < mx)%nat ->
  inorder (fnode its1 (y :: its2) cs1 c1 (c2 :: cs2)) = inorder n ->
  length (items n) = (length its1 + length its2)%nat ->
  sorted Less (inorder n) -> all_below Less x its1 -> all_above Less x its2 ->
  let m := fnode its1 (y :: its2) cs1 c1 (c2 :: cs2) in
  exists n' out,
    (let! goto := (let! inTree := at_ (items m) (length its1) in
                   Ret (if Less x inTree then Some (length its1)
                        else if Less inTree x then Some (S (length its1)) else None)) in
     match goto with
     | None =>
       let! out := at_ (items m) (length its1) in
       let! r := setItem m (length its1) x in
       Ret (r, Some out)
     | Some i =>
       let! child := at_ (children m) i in
       let! (child, out) := insert Less (E:=E) fuel child x mx in
       let! r := setChild m i child in
       match out with
       | None => Ret (addRanks r i 1, None)
       | Some _ => Ret (r, out)
       end
     end) = Ret (n', out) /\ inserted (S h) n x n' out.
Proof.
  intros IH Hfuel Hf Hc1 Hl1 Hl2 Hlen Hio Hln Hs Hb Ha m.
  pose proof (fits_next _ _ _ _ _ _ _ _ _ _ Hf Hc1) as [Hf' Hc2].
  assert (Hlm : length (items m) = S (length (items n)))
    by (rewrite Hln; cbn; rewrite length_app; simpl; lia).
  assert (Hsub : forall n' out, inserted (S h) m x n' out -> inserted (S h) n x n' out).
  { intros n' out [I1 I2 I3 I4]. fold m in Hio. rewrite Hio in I1, I2. split; try done. lia. }
  unfold m. rewrite fnode_item by done. cbn beta iota. rewrite <- Hio in Hs.
  assert (Hsc : sorted Less (inorder c1) /\ sorted Less (inorder c2)).
  { rewrite (fnode_inorder mn mx h), post_cons in Hs by done.
    apply sorted_app in Hs as (_ & _ & (_ & ? & [_ Hs]%sorted_cons)%sorted_app).
    by apply sorted_app in Hs as (_ & ? & _). }
  destruct (Less x y) eqn:Hxy; [|destruct (Less y x) eqn:Hyx].
  - rewrite fnode_child by apply Hf || done.
    destruct (IH fuel c1 x Hfuel) as (c' & out & Hi & Hin); [apply Hc1|done|apply Hsc|].
    rewrite Hi, (insert_step h _ _ _ _ _ x) by (apply Hsc || done).
    eexists _, _. split; [done|]. apply Hsub. apply inserted_child; try done; [simpl; lia| |apply Hc1].
    by constructor.
  - unfold m in *. rewrite fnode_next in *. rewrite fnode_child by (apply Hf' || (rewrite length_app; simpl; lia)).
    destruct (IH fuel c2 x Hfuel) as (c' & out & Hi & Hin); [apply Hc2|done|apply Hsc|]. rewrite Hi.
    replace (S (length its1)) with (length (its1 ++ [y])) by (rewrite length_app; simpl; lia).
    rewrite (insert_step h _ _ _ _ _ x) by (apply Hsc || done).
    eexists _, _. split; [done|]. apply Hsub. apply inserted_child; try done; [| |apply Hc2].
    + rewrite length_app. simpl. lia.
    + apply Forall_app. split; [done|]. by apply Forall_singleton.
  - rewrite setItem_fnode by done.
    eexists _, _. split; [done|]. apply Hsub.
    eapply inserted_found; [done|by apply (fnode_inorder2 mn mx h _ y)| |by apply (fnode_inorder2 mn mx h _ y)| |].
    + unfold same_as. by rewrite Hxy, Hyx.
    + apply unfocus; [|simpl; lia|done]. by apply (fits_item _ _ _ _ y).
    + cbn. by rewrite !length_app.
Qed.

Lemma insert_inner h : insert_ok h -> insert_ok (S h).
Proof.
  intros IH [|fuel] n x Hfuel Hw Hl Hs; [lia|]. cbn [insert].
  destruct (focus_find Less mn mx h n x Hw Hs)
    as [(its1 & its2 & cs1 & c & cs2 & -> & Hf & Hc & Hb & Ha & ->)
       |(its1 & y & its2 & cs1 & c & cs2 & -> & Hf & Hc & Hxy & ->)].
  - destruct (children _) eqn:Hch; [by destruct (fnode_children _ _ _ _ _ Hch)|]. clear Hch.
    assert (Hln : length (items (fnode its1 its2 cs1 c cs2)) = (length its1 + length its2)%nat)
      by apply length_app.
    destruct (decide (length (items c) < mx)%nat) as [Hlt|Hge].
    + rewrite (maybeSplitChild_room h) by done. cbn beta iota.
      rewrite fnode_child by (apply Hf || done).
      destruct (fnode_bounds Less _ _ _ _ _ _ _ _ _ Hf Hs Hb Ha) as (_ & _ & Hsc).
      destruct (IH fuel c x) as (c' & out & Hi & Hin); [lia|apply Hc|done|done|].
      rewrite Hi, (insert_step h _ _ _ _ _ x) by done.
      eexists _, _. split; [done|]. apply inserted_child; try done; [lia|apply Hc].
    + pose proof (wf_max _ _ _ _ (proj2 Hc)) as Hle.
      destruct (maybeSplitChild_full h its1 its2 cs1 c cs2)
        as (c1 & y & c2 & -> & Hi & Hf' & Hc1 & Hc2 & Hl1 & Hl2); [done|apply Hc|lia|].
      cbn beta iota. eapply (insert_split h); try done; [lia|lia|].
      rewrite (fnode_inorder2 mn mx h _ y), (fnode_inorder mn mx h), Hi by done.
      by rewrite <- !app_assoc.
  - rewrite fnode_item by done. cbn beta iota. rewrite setItem_fnode by done.
    destruct cs2 as [|c2 cs2]; [by destruct Hf as [_ Hbad _ _]|].
    eexists _, _. split; [done|].
    eapply inserted_found; [done|by apply (fnode_inorder2 mn mx h _ y)|done|by apply (fnode_inorder2 mn mx h _ y)| |].
    + apply unfocus; [by apply (fits_item _ _ _ _ y)| |done]. cbn in Hl. rewrite length_app in Hl.
      simpl in *. lia.
    + cbn. by rewrite !length_app.
Qed.

Lemma insert_spec h : insert_ok h.
Proof.
  induction h as [|h IH]; [|by apply insert_inner].
  intros [|fuel] n x Hf Hw Hl Hs; [lia|]. destruct (wf_leaf _ _ n Hw) as (its & -> & _).
  destruct (insert_leaf its x fuel Hl Hs) as (n' & Hi & Hin). by eexists _, _.
Qed.

End Bounds.
End Insert.
