(* ===== verification/BTreeRemove.v ===== *)
(** * BTreeRemove: deletion from a B-tree

    [growChildAndRemove] (an item stolen from the left or the right sibling, or two
    children merged) keeps the in-order sequence; [node.remove] takes the item asked
    for out of it and keeps the shape. *)

From stdpp Require Import base option sets list sorting tactics.
From S2P Require Import Prelude.
From S2P Require Import BTree.
From S2P Require Import BTreeFacts.
From S2P Require Import BTreeShape.

Section Cat.
Context {E Item : Type} (mn mx : nat).
Implicit Types (n c l u : node Item) (its : list Item) (cs : list (node Item)).

(** ** Two nodes joined by an item *)
Definition cat (n1 : node Item) (y : Item) (n2 : node Item) : node Item :=
  mkNode (items n1 ++ y :: items n2) (children n1 ++ children n2)
    (idxs 0 (map size (children n1 ++ children n2))).

Lemma cat_items n1 y n2 : items (cat n1 y n2) = items n1 ++ y :: items n2.
Proof. done. Qed.
Lemma cat_children n1 y n2 : children (cat n1 y n2) = children n1 ++ children n2.
Proof. done. Qed.
Lemma cat_ranks n1 y n2 :
  ranks (cat n1 y n2) = idxs 0 (map size (children n1) ++ map size (children n2)).
Proof. cbn. by rewrite map_app. Qed.

Lemma wf_inner_left h n :
  wf mn mx (S h) n -> exists its cs c,
    n = fnode its [] cs c [] /\ items n = its /\ fits mn mx h its [] cs [] /\ child_ok mn mx h c.
Proof.
  intros Hw. destruct (focus mn mx h n (items n) [] Hw) as (cs & c & cs2 & He & Hf & Hc);
    [by rewrite app_nil_r|].
  destruct cs2; [|by destruct Hf as [_ Hbad _ _]]. by exists (items n), cs, c.
Qed.
Lemma wf_inner_right h n :
  wf mn mx (S h) n -> exists its c cs,
    n = fnode [] its [] c cs /\ items n = its /\ fits mn mx h [] its [] cs /\ child_ok mn mx h c.
Proof.
  intros Hw. destruct (focus mn mx h n [] (items n) Hw) as (cs & c & cs2 & He & Hf & Hc); [done|].
  destruct cs; [|by destruct Hf as [Hbad _ _ _]]. by exists (items n), c, cs2.
Qed.

Lemma cat_fnode its1 cs1 c0 y its2 c1 cs2 :
  cat (fnode its1 [] cs1 c0 []) y (fnode [] its2 [] c1 cs2)
    = fnode its1 (y :: its2) cs1 c0 (c1 :: cs2).
Proof.
  unfold cat, fnode. cbn [items children app]. rewrite app_nil_r, <- app_assoc. cbn [app].
  by rewrite map_app.
Qed.

Lemma fits_cat h its1 cs1 y its2 c1 cs2 :
  fits mn mx h its1 [] cs1 [] -> fits mn mx h [] its2 [] cs2 -> child_ok mn mx h c1 ->
  fits mn mx h its1 (y :: its2) cs1 (c1 :: cs2).
Proof. intros [H1 _ H2 _] [_ H3 _ H4] Hc. split; [done|simpl; lia|done|by constructor]. Qed.

Lemma cat_inorder h n1 y n2 :
  wf mn mx h n1 -> wf mn mx h n2 -> inorder (cat n1 y n2) = inorder n1 ++ y :: inorder n2.
Proof.
  intros H1 H2. destruct h as [|h].
  - destruct (wf_leaf _ _ n1 H1) as (? & -> & _), (wf_leaf _ _ n2 H2) as (? & -> & _). done.
  - destruct (wf_inner_left h n1 H1) as (its1 & cs1 & c0 & -> & _ & Hf1 & _).
    destruct (wf_inner_right h n2 H2) as (its2 & c1 & cs2 & -> & _ & Hf2 & Hc1).
    rewrite cat_fnode, !(fnode_inorder mn mx h) by (done || by apply fits_cat).
    rewrite post_cons. change (post [] []) with (@nil Item). change (pre [] []) with (@nil Item).
    by rewrite app_nil_r, <- !app_assoc.
Qed.
Lemma cat_size h n1 y n2 :
  wf mn mx h n1 -> wf mn mx h n2 -> size (cat n1 y n2) = size n1 + 1 + size n2.
Proof.
  intros H1 H2. unfold size. rewrite (cat_inorder h), len_app, len_cons by done. lia.
Qed.

Lemma cat_wf h n1 y n2 :
  wf mn mx h n1 -> wf mn mx h n2 -> (length (items n1) + length (items n2) < mx)%nat ->
  wf mn mx h (cat n1 y n2).
Proof.
  intros H1 H2 Hl. destruct h as [|h].
  - destruct (wf_leaf _ _ n1 H1) as (? & -> & _), (wf_leaf _ _ n2 H2) as (? & -> & _).
    apply leaf_wf. cbn in *. rewrite length_app. simpl. lia.
  - destruct (wf_inner_left h n1 H1) as (its1 & cs1 & c0 & He1 & <- & Hf1 & Hc0).
    destruct (wf_inner_right h n2 H2) as (its2 & c1 & cs2 & He2 & <- & Hf2 & Hc1).
    rewrite He1, He2, cat_fnode. apply unfocus; [by apply fits_cat|simpl; lia|done].
Qed.

(** Every node can be cut at one of its items. *)
Lemma node_cut h n its1 y its2 :
  wf mn mx h n -> items n = its1 ++ y :: its2 ->
  exists n1 n2, n = cat n1 y n2 /\ items n1 = its1 /\ items n2 = its2
    /\ wf mn mx h n1 /\ wf mn mx h n2.
Proof.
  intros Hw Hi. assert (Hl : (length its1 + S (length its2) <= mx)%nat).
  { apply wf_max in Hw. rewrite Hi, length_app in Hw. done. }
  destruct h as [|h].
  - destruct (wf_leaf _ _ n Hw) as (its & -> & _). cbn [items] in Hi. subst its.
    exists (mkNode its1 [] []), (mkNode its2 [] []). split_and!; try done; apply leaf_wf; lia.
  - destruct (focus mn mx h n its1 (y :: its2) Hw Hi) as (cs1 & c0 & cs2' & -> & [H1 H2 Hf1 Hf2] & Hc0).
    destruct cs2' as [|c1 cs2]; [done|]. apply list.Forall_cons in Hf2 as [Hc1 Hf2]. simpl in H2.
    exists (fnode its1 [] cs1 c0 []), (fnode [] its2 [] c1 cs2). rewrite cat_fnode.
    split_and!; [done|cbn; by rewrite app_nil_r|done|..];
      (apply unfocus; [split|simpl; lia|]); done || lia.
Qed.

(** A node without items: an empty leaf, or a single child. *)
Lemma wf_no_items (h : nat) n :
  wf mn mx h n -> items n = [] ->
  match h with O => n = mkNode [] [] [] | S h' => exists m, n = fnode [] [] [] m [] /\ child_ok mn mx h' m end.
Proof.
  intros Hw Hi. destruct h as [|h].
  - destruct (wf_leaf _ _ n Hw) as (its & -> & _). cbn in Hi. by subst.
  - destruct (wf_inner_left h n Hw) as (its & cs & c & He & Hi' & [H1 _ _ _] & Hc).
    rewrite Hi in Hi'. subst its. destruct cs; [|done]. by exists c.
Qed.

(** ** Growing a child *)

Lemma at_second {A} (l1 l2 : list A) x y i :
  i = length l1 -> at_ (E:=E) (l1 ++ x :: y :: l2) (S i) = Ret y.
Proof.
  intros ->. rewrite (cons_middle x l1), app_assoc. apply at_middle. rewrite length_app. simpl. lia.
Qed.
Lemma set_at_second {A} (l1 l2 : list A) x y y' i :
  i = length l1 -> set_at (E:=E) (l1 ++ x :: y :: l2) (S i) y' = Ret (l1 ++ x :: y' :: l2).
Proof.
  intros ->. rewrite (cons_middle x l1 (y :: l2)), app_assoc.
  rewrite set_at_middle by (rewrite length_app; simpl; lia). by rewrite <- app_assoc.
Qed.

(** The ranks of the parent when [d] items move across the item at [length s1]. *)
Lemma move_rank s1 x y x' y' s2 d i :
  i = length s1 -> x' = x - d -> y' = y + d ->
  at_ (E:=E) (idxs 0 (s1 ++ x :: y :: s2)) i = Ret (total s1 + x)
  /\ set_at (E:=E) (idxs 0 (s1 ++ x :: y :: s2)) i (total s1 + x - d)
     = Ret (idxs 0 (s1 ++ x' :: y' :: s2)).
Proof.
  intros -> -> ->. rewrite (idxs_app s1). cbn [idxs].
  rewrite at_middle, set_at_middle by (by rewrite idxs_length).
  split; [f_equal; lia|]. rewrite shift_idxs. repeat (f_equal; try lia).
Qed.

(** What moves along with a stolen item: nothing at a leaf, else a child. *)
Lemma wf_children h n :
  wf mn mx (S h) n -> children n <> [] /\ ranks n = idxs 0 (map size (children n)).
Proof. intros (_ & Hl & Hr & _). split; [|done]. by destruct (children n). Qed.

Lemma stealLeft_cat h its1 y its2 cs1 l z u c cs2 :
  length cs1 = length its1 -> wf mn mx h l -> wf mn mx h u -> items u = [] -> wf mn mx h c ->
  stealLeft (E:=E) (fnode (its1 ++ [y]) its2 (cs1 ++ [cat l z u]) c cs2) (S (length its1))
    = Ret (fnode (its1 ++ [z]) its2 (cs1 ++ [l]) (cat u y c) cs2).
Proof.
  intros H1 Hl Hu Hu0 Hc. rewrite <- !fnode_next. unfold stealLeft, fnode.
  cbn [children items ranks map Nat.sub].
  rewrite Nat.sub_0_r, at_second, !at_middle, cat_items, Hu0, pop_snoc by done.
  rewrite (insertAt_middle [] (items c) y), set_at_middle by done. cbn beta iota.
  destruct (move_rank (map size cs1) (size (cat l z u)) (size c) (size l) (size (cat u y c))
    (map size cs2) (1 + size u) (length its1)) as [-> Hrk];
    [by rewrite length_map|rewrite (cat_size h) by done; lia..|].
  rewrite cat_children, cat_ranks. cbn beta iota.
  pose proof (wf_no_items h u Hu Hu0) as Hempty. destruct h as [|h].
  - destruct (wf_leaf _ _ l Hl) as (? & -> & _), (wf_leaf _ _ c Hc) as (? & -> & _). subst u.
    change (1 + size (mkNode [] [] [])) with 1 in Hrk. cbn [children app]. rewrite Hrk.
    by rewrite set_at_second, set_at_middle.
  - destruct Hempty as (m & -> & Hm). destruct (wf_children h l Hl) as [Hne Hrl].
    destruct (wf_children h c Hc) as [_ Hrc]. cbn [fnode children app map].
    destruct (children l ++ [m]) eqn:Hcs; [by destruct (children l)|]. rewrite <- Hcs. clear Hcs.
    rewrite pop_snoc, (insertAt_middle [] (children c) m), pop_idxs by done. cbn beta iota.
    assert (Hsm : size (fnode [] [] [] m []) = size m)
      by (unfold size; cbn; by rewrite app_nil_r).
    rewrite Hsm in Hrk. rewrite <- Z.sub_add_distr, Hrk, Hrc, insertAt0_idxs.
    rewrite set_at_second, set_at_middle by done. rewrite <- Hrl. by destruct l.
Qed.

Lemma stealRight_cat h its1 y its2 cs1 c u z l cs2 :
  length cs1 = length its1 -> wf mn mx h l -> wf mn mx h u -> items u = [] -> wf mn mx h c ->
  stealRight (E:=E) (fnode its1 (y :: its2) cs1 c (cat u z l :: cs2)) (length its1)
    = Ret (fnode its1 (z :: its2) cs1 (cat c y u) (l :: cs2)).
Proof.
  intros H1 Hl Hu Hu0 Hc. unfold stealRight, fnode. cbn [children items ranks map].
  rewrite at_second, !at_middle, cat_items, Hu0 by done.
  rewrite (removeAt_middle [] (items l) z), set_at_middle by done. cbn beta iota.
  destruct (move_rank (map size cs1) (size c) (size (cat u z l)) (size (cat c y u)) (size l)
    (map size cs2) (- (1 + size u)) (length its1)) as [-> Hrk];
    [by rewrite length_map|rewrite (cat_size h) by done; lia..|].
  rewrite Z.sub_opp_r in Hrk. rewrite cat_children, cat_ranks. cbn beta iota.
  pose proof (wf_no_items h u Hu Hu0) as Hempty. destruct h as [|h].
  - destruct (wf_leaf _ _ l Hl) as (? & -> & _), (wf_leaf _ _ c Hc) as (? & -> & _). subst u.
    change (1 + size (mkNode [] [] [])) with 1 in Hrk. cbn [children app]. rewrite Hrk.
    by rewrite set_at_middle, set_at_second.
  - destruct Hempty as (m & -> & Hm). destruct (wf_children h l Hl) as [Hne Hrl].
    destruct (wf_children h c Hc) as [_ Hrc]. cbn [fnode children app map].
    rewrite (removeAt_middle [] (children l) m), removeAt0_idxs by done. cbn beta iota.
    assert (Hsm : size (fnode [] [] [] m []) = size m)
      by (unfold size; cbn; by rewrite app_nil_r).
    rewrite Hsm in Hrk. rewrite <- Z.add_assoc, Hrk, Hrc, push_idxs.
    rewrite set_at_middle, set_at_second by done. rewrite <- Hrl. destruct l. cbn.
    unfold cat. cbn. by rewrite map_app.
Qed.

Lemma push_all ss cs :
  foldl (fun ix nn => indices.push ix (node_length nn)) (idxs 0 ss) cs
    = idxs 0 (ss ++ map node_length cs).
Proof.
  revert ss. induction cs as [|c cs IH]; intros ss; cbn [foldl map]; [by rewrite app_nil_r|].
  by rewrite push_idxs, IH, <- app_assoc.
Qed.

Lemma mergeRight_cat h its1 y its2 cs1 c l cs2 :
  length cs1 = length its1 -> wf mn mx h c -> wf mn mx h l ->
  mergeRight (E:=E) (fnode its1 (y :: its2) cs1 c (l :: cs2)) (length its1)
    = Ret (fnode its1 its2 cs1 (cat c y l) cs2).
Proof.
  intros H1 Hc Hl. unfold mergeRight, fnode. cbn [children items ranks map].
  rewrite at_middle, removeAt_middle by done. cbn beta iota.
  rewrite (cons_middle c cs1 (l :: cs2)), app_assoc.
  rewrite removeAt_middle by (rewrite length_app; simpl; lia). cbn beta iota.
  rewrite <- app_assoc. cbn [app].
  rewrite merge_idxs by (by rewrite length_map). cbn beta iota.
  rewrite set_at_middle by done. rewrite (cat_size h) by done. do 4 f_equal.
  unfold cat. f_equal. rewrite map_app. destruct h as [|h].
  - destruct (wf_leaf _ _ l Hl) as (? & -> & _), (wf_leaf _ _ c Hc) as (? & -> & _). done.
  - rewrite (proj2 (wf_children h c Hc)), push_all, (child_ok_length mn mx _ h); [done|]. apply Hl.
Qed.

(** ** [growChild]

    The child in focus takes over items from before ([A]) or after it ([B]). *)
Section Grow.
Context (Hmx : mx = (2 * mn + 1)%nat) (Hmn : (1 <= mn)%nat).

Record grown (h : nat) (its1 its2 : list Item) (cs1 : list (node Item)) (c : node Item)
    (cs2 : list (node Item)) (its1' its2' : list Item) (cs1' : list (node Item)) (c' : node Item)
    (cs2' : list (node Item)) (A B : list Item) : Prop := {
  gr_fits : fits mn mx h its1' its2' cs1' cs2';
  gr_child : child_ok mn mx h c';
  gr_room : (mn < length (items c'))%nat;
  gr_less : (length its1' + length its2' <= length its1 + length its2)%nat;
  gr_more : (length its1 + length its2 <= S (length its1' + length its2'))%nat;
  gr_pre : pre cs1 its1 = pre cs1' its1' ++ A;
  gr_post : post its2 cs2 = B ++ post its2' cs2';
  gr_inorder : inorder c' = A ++ inorder c ++ B;
}.

Lemma grown_left h its1 y its2 cs1 l z u c cs2 :
  fits mn mx h (its1 ++ [y]) its2 (cs1 ++ [cat l z u]) cs2 -> child_ok mn mx h c ->
  length (items c) = mn -> wf mn mx h l -> wf mn mx h u -> items u = [] ->
  (mn <= length (items l))%nat ->
  grown h (its1 ++ [y]) its2 (cs1 ++ [cat l z u]) c cs2
    (its1 ++ [z]) its2 (cs1 ++ [l]) (cat u y c) cs2 (inorder u ++ [y]) [].
Proof.
  intros [H1 H2 [Hf1 _]%Forall_app Hf2] [Hc1 Hc2] Hlc Hl Hu Hu0 Hm. rewrite !length_app in H1.
  simpl in H1. split; rewrite ?length_app; try (simpl; lia).
  - split; [rewrite !length_app; simpl; lia|done| |done]. apply Forall_app. split; [done|].
    by apply Forall_singleton.
  - split; [rewrite cat_items, Hu0; simpl; lia|]. apply cat_wf; [done|done|]. rewrite Hu0. simpl. lia.
  - rewrite cat_items, Hu0. simpl. lia.
  - rewrite !pre_snoc, (cat_inorder h), <- !app_assoc by (done || lia). done.
  - done.
  - rewrite (cat_inorder h), app_nil_r by done. by rewrite <- app_assoc.
Qed.

Lemma grown_right h its1 y its2 cs1 c u z l cs2 :
  fits mn mx h its1 (y :: its2) cs1 (cat u z l :: cs2) -> child_ok mn mx h c ->
  length (items c) = mn -> wf mn mx h l -> wf mn mx h u -> items u = [] ->
  (mn <= length (items l))%nat ->
  grown h its1 (y :: its2) cs1 c (cat u z l :: cs2)
    its1 (z :: its2) cs1 (cat c y u) (l :: cs2) [] (y :: inorder u).
Proof.
  intros [H1 H2 Hf1 [_ Hf2]%list.Forall_cons] [Hc1 Hc2] Hlc Hl Hu Hu0 Hm. simpl in H2.
  split; try (simpl; lia).
  - split; [done|simpl; lia|done|]. by constructor.
  - split; [rewrite cat_items, Hu0, length_app; simpl; lia|].
    apply cat_wf; [done|done|]. rewrite Hu0. simpl. lia.
  - rewrite cat_items, Hu0, length_app. simpl. lia.
  - by rewrite app_nil_r.
  - rewrite !post_cons, (cat_inorder h) by done. by rewrite <- app_assoc.
  - by rewrite (cat_inorder h).
Qed.

(** Merging with the right sibling, and, for the last child, with the left one. *)
Lemma grown_merge h its1 y its2 cs1 c l cs2 :
  fits mn mx h its1 (y :: its2) cs1 (l :: cs2) -> child_ok mn mx h c ->
  length (items c) = mn -> length (items l) = mn ->
  grown h its1 (y :: its2) cs1 c (l :: cs2) its1 its2 cs1 (cat c y l) cs2 [] (y :: inorder l).
Proof.
  intros [H1 H2 Hf1 [[Hl1 Hl2] Hf2]%list.Forall_cons] [Hc1 Hc2] Hlc Hll. simpl in H2.
  split; try (simpl; lia).
  - split; [done|lia|done..].
  - split; [rewrite cat_items, length_app; simpl; lia|]. apply cat_wf; [done|done|lia].
  - rewrite cat_items, length_app. simpl. lia.
  - by rewrite app_nil_r.
  - by rewrite post_cons.
  - by rewrite (cat_inorder h).
Qed.
Lemma grown_merge_last h its1 y cs1 l c :
  fits mn mx h (its1 ++ [y]) [] (cs1 ++ [l]) [] -> child_ok mn mx h c ->
  length (items c) = mn -> length (items l) = mn ->
  grown h (its1 ++ [y]) [] (cs1 ++ [l]) c [] its1 [] cs1 (cat l y c) [] (inorder l ++ [y]) [].
Proof.
  intros Hf Hc Hlc Hll. pose proof (fits_prev _ _ _ _ _ _ _ _ _ _ Hf Hc) as [[H1 H2 Hf1 Hf2] [Hl1 Hl2]].
  destruct Hc as [Hc1 Hc2].
  split; rewrite ?length_app; try (simpl; lia).
  - split; [lia|simpl in *; lia|done..].
  - split; [rewrite cat_items, length_app; simpl; lia|]. apply cat_wf; [done|done|lia].
  - rewrite cat_items, length_app. simpl. lia.
  - by rewrite pre_snoc.
  - done.
  - rewrite (cat_inorder h), app_nil_r by done. by rewrite <- app_assoc.
Qed.

(** A sibling with an item to spare, cut at its first or last item. *)
Lemma cut_last h l :
  wf mn mx h l -> (mn < length (items l))%nat ->
  exists l' z u, l = cat l' z u /\ wf mn mx h l' /\ wf mn mx h u /\ items u = []
    /\ (mn <= length (items l'))%nat.
Proof.
  intros Hw Hl. destruct (list_cut_last (items l)) as (li & z & Hi);
    [intros He; rewrite He in Hl; simpl in Hl; lia|].
  destruct (node_cut h l li z [] Hw Hi) as (l' & u & -> & Hi1 & Hi2 & Hw1 & Hw2).
  exists l', z, u. split_and!; try done. rewrite Hi, length_app in Hl. rewrite Hi1. simpl in Hl. lia.
Qed.
Lemma cut_first h l :
  wf mn mx h l -> (mn < length (items l))%nat ->
  exists u z l', l = cat u z l' /\ wf mn mx h l' /\ wf mn mx h u /\ items u = []
    /\ (mn <= length (items l'))%nat.
Proof.
  intros Hw Hl. destruct (items l) as [|z li] eqn:Hi; [simpl in Hl; lia|].
  destruct (node_cut h l [] z li Hw Hi) as (u & l' & -> & Hi1 & Hi2 & Hw1 & Hw2).
  exists u, z, l'. split_and!; try done. rewrite Hi2. simpl in Hl. lia.
Qed.

(** The right sibling, when the left one has nothing to spare. *)
Lemma growRight_spec h its1 y its2 cs1 c l cs2 :
  fits mn mx h its1 (y :: its2) cs1 (l :: cs2) -> child_ok mn mx h c -> length (items c) = mn ->
  exists its1' its2' cs1' c' cs2' A B,
    (let! fromRight := (let! s := at_ (children (fnode its1 (y :: its2) cs1 c (l :: cs2))) (S (length its1)) in
                        Ret (bool_decide (mn < length (items s))%nat)) in
     if fromRight : bool then stealRight (fnode its1 (y :: its2) cs1 c (l :: cs2)) (length its1)
     else mergeRight (E:=E) (fnode its1 (y :: its2) cs1 c (l :: cs2)) (length its1))
      = Ret (fnode its1' its2' cs1' c' cs2')
    /\ grown h its1 (y :: its2) cs1 c (l :: cs2) its1' its2' cs1' c' cs2' A B.
Proof.
  intros Hf Hc Hlc. pose proof (fit_left _ _ _ _ _ _ _ Hf) as H1.
  pose proof (fit_ok2 _ _ _ _ _ _ _ Hf) as [[Hl1 Hl2] _]%list.Forall_cons.
  cbn [fnode children]. rewrite at_second by done. cbn beta iota.
  case_bool_decide as Hspare.
  - destruct (cut_first h l Hl2 Hspare) as (u & z & l' & -> & Hw1 & Hw2 & Hu & Hm).
    eexists _, _, _, _, _, _, _. split; [apply (stealRight_cat h); try done; apply Hc|].
    by apply grown_right.
  - eexists _, _, _, _, _, _, _. split; [apply (mergeRight_cat h); try done; apply Hc|].
    apply grown_merge; try done. lia.
Qed.

Lemma fnode_left its1 its2 cs1 l c cs2 i :
  i = length cs1 -> at_ (E:=E) (children (fnode its1 its2 (cs1 ++ [l]) c cs2)) i = Ret l.
Proof. intros Hi. cbn [fnode children]. rewrite <- app_assoc. by apply at_middle. Qed.

Lemma growChild_spec h its1 its2 cs1 c cs2 :
  fits mn mx h its1 its2 cs1 cs2 -> child_ok mn mx h c -> length (items c) = mn ->
  (1 <= length its1 + length its2)%nat ->
  exists its1' its2' cs1' c' cs2' A B,
    growChild (E:=E) (fnode its1 its2 cs1 c cs2) (length its1) mn = Ret (fnode its1' its2' cs1' c' cs2')
    /\ grown h its1 its2 cs1 c cs2 its1' its2' cs1' c' cs2' A B.
Proof.
  intros Hf Hc Hlc Hne. unfold growChild.
  assert (Hln : length (items (fnode its1 its2 cs1 c cs2)) = (length its1 + length its2)%nat)
    by apply length_app. rewrite Hln.
  pose proof (fit_left _ _ _ _ _ _ _ Hf) as H1. pose proof (fit_right _ _ _ _ _ _ _ Hf) as H2.
  destruct its1 as [|y its1 _] using rev_ind.
  - destruct its2 as [|y its2]; [simpl in Hne; lia|]. destruct cs2 as [|l cs2]; [done|].
    cbn [length]. rewrite !decide_True, decide_False by lia. by apply (growRight_spec h).
  - destruct cs1 as [|l cs1 _] using rev_ind; [rewrite length_app in H1; simpl in H1; lia|].
    rewrite !length_app in H1. simpl in H1.
    pose proof (fit_ok1 _ _ _ _ _ _ _ Hf) as [_ [[Hl1 Hl2] _]%list.Forall_cons]%Forall_app.
    replace (length (its1 ++ [y])) with (S (length its1)) by (rewrite length_app; simpl; lia).
    rewrite fnode_left by lia. cbn beta iota.
    case_bool_decide as Hspare.
    + destruct (cut_last h l Hl2 Hspare) as (l' & z & u & -> & Hw1 & Hw2 & Hu & Hm).
      eexists _, _, _, _, _, _, _. split; [apply (stealLeft_cat h); try done; [lia|apply Hc]|].
      by apply grown_left.
    + destruct its2 as [|y2 its2].
      * destruct cs2; [|done]. rewrite decide_False, decide_True by (simpl; lia).
        rewrite <- fnode_next. cbn [Nat.sub]. rewrite Nat.sub_0_r.
        eexists _, _, _, _, _, _, _. split; [apply (mergeRight_cat h); try done; [lia|apply Hc]|].
        apply grown_merge_last; try done. lia.
      * destruct cs2 as [|l2 cs2]; [done|]. rewrite decide_True, decide_False by (simpl; lia).
        replace (S (length its1)) with (length (its1 ++ [y])) by (rewrite length_app; simpl; lia).
        by apply (growRight_spec h).
Qed.

End Grow.
End Cat.

(** ** [node.remove]

    What is asked for is a cut of the in-order sequence: a part before, the item
    taken out, if any, and a part after ([cut]).  [node.remove] returns the item and
    a node for the two parts, within fuel [2 * h + 1] at height [h]. *)
Section Delete.
Context {E Item : Type} (Less : Item -> Item -> bool) `{!StrictWeakOrder Less}.
Implicit Types (its : list Item) (cs : list (node Item)).

(** ** What to take out *)
Inductive cut : toRemove -> option Item -> list Item -> option Item -> list Item -> Prop :=
  | cut_item x l1 mid l2 :
      all_below Less x l1 -> (forall y, mid = Some y -> same_as Less x y = true) ->
      all_above Less x l2 -> cut removeItem (Some x) l1 mid l2
  | cut_min it y l2 : cut removeMin it [] (Some y) l2
  | cut_max it l1 y : cut removeMax it l1 (Some y) [].

Lemma cut_shrink typ it a l1 mid l2 b :
  cut typ it (a ++ l1) mid (l2 ++ b) -> cut typ it l1 mid l2.
Proof.
  intros Hc. inversion Hc as [x ? ? ? H1 Hm H2|? ? ? Ht Hi Hp|? ? ? Ht Hi Hp Hm Hq]; subst.
  - apply Forall_app in H1 as [_ H1]. apply Forall_app in H2 as [H2 _]. by constructor.
  - symmetry in Hp. apply app_eq_nil in Hp as [-> ->]. constructor.
  - symmetry in Hq. apply app_eq_nil in Hq as [-> ->]. constructor.
Qed.

(** The cut at an item is the one [below], [same] and [above] make. *)
Lemma cut_parts x l1 mid l2 :
  cut removeItem (Some x) l1 mid l2 ->
  below Less x (l1 ++ option_list mid ++ l2) = l1 /\ same Less x (l1 ++ option_list mid ++ l2) = option_list mid
  /\ above Less x (l1 ++ option_list mid ++ l2) = l2.
Proof.
  inversion 1 as [? ? ? ? H1 Hm H2| |]; subst. destruct mid as [y|].
  - apply (parts_some Less); auto.
  - by apply (parts_none Less).
Qed.
Lemma parts_cut x l :
  sorted Less l -> cut removeItem (Some x) (below Less x l) (head (same Less x l)) (above Less x l)
    /\ l = below Less x l ++ option_list (head (same Less x l)) ++ above Less x l.
Proof.
  intros [(l1 & l2 & -> & H1 & H2)|(l1 & y & l2 & -> & H1 & Hy & H2)]%(sorted_cases Less x).
  - destruct (parts_none Less x l1 l2 H1 H2) as (-> & -> & ->). split; [|done]. by constructor.
  - destruct (parts_some Less x l1 y l2 H1 Hy H2) as (-> & -> & ->). split; [|done].
    constructor; [done| |done]. by intros ? [= ->].
Qed.

(** ** Where it is: in the child in focus, or the item after it *)
Inductive placed (typ : toRemove) (item : option Item) (its1 its2 : list Item)
    (cs1 : list (node Item)) (c : node Item) (cs2 : list (node Item))
    (l1 : list Item) (mid : option Item) (l2 : list Item) : bool -> Prop :=
  | placed_child l1' l2' :
      l1 = pre cs1 its1 ++ l1' -> l2 = l2' ++ post its2 cs2 ->
      inorder c = l1' ++ option_list mid ++ l2' ->
      placed typ item its1 its2 cs1 c cs2 l1 mid l2 false
  | placed_item x y its2' c2 cs2' :
      typ = removeItem -> item = Some x -> its2 = y :: its2' -> cs2 = c2 :: cs2' ->
      mid = Some y -> l1 = pre cs1 its1 ++ inorder c -> l2 = inorder c2 ++ post its2' cs2' ->
      placed typ item its1 its2 cs1 c cs2 l1 mid l2 true.

Lemma in_pre cs its x : length cs = length its -> x ∈ its -> x ∈ pre cs its.
Proof.
  revert its. induction cs as [|c cs IH]; intros [|y its] Hl Hx; try done.
  rewrite pre_cons. simpl in Hl. apply elem_of_cons in Hx as [->|Hx]; [set_solver|].
  apply elem_of_app. right. apply elem_of_cons. right. apply IH; [lia|done].
Qed.
Lemma in_post its cs x : length its = length cs -> x ∈ its -> x ∈ post its cs.
Proof.
  revert cs. induction its as [|y its IH]; intros [|c cs] Hl Hx; try done.
  rewrite post_cons. simpl in Hl. apply elem_of_cons in Hx as [->|Hx]; [set_solver|].
  apply elem_of_cons. right. apply elem_of_app. right. apply IH; [lia|done].
Qed.
Lemma pre_nil cs its : length cs = length its -> pre cs its = [] -> its = [].
Proof.
  intros Hl Hp. destruct its as [|y its]; [done|].
  pose proof (in_pre cs (y :: its) y Hl ltac:(set_solver)) as Hin. rewrite Hp in Hin.
  by apply elem_of_nil in Hin.
Qed.
Lemma post_nil its cs : length its = length cs -> post its cs = [] -> its = [].
Proof. by destruct its, cs. Qed.

Lemma locate_leaf typ item its l1 mid l2 :
  cut typ item l1 mid l2 -> sorted Less its -> its = l1 ++ option_list mid ++ l2 ->
  locate Less (E:=E) (mkNode its [] []) item typ = Ret (inl (mkNode (l1 ++ l2) [] [], mid)).
Proof.
  intros Hcut Hs ->. inversion Hcut as [x ? ? ? H1 Hm H2|? ? ?|? ? ?]; subst; cbn.
  - destruct mid as [y|].
    + cbn. rewrite (find_some Less x l1 y l2) by auto. by rewrite removeAt_middle.
    + cbn. by rewrite (find_none Less x l1 l2).
  - done.
  - by rewrite pop_snoc, app_nil_r.
Qed.

Lemma locate_fnode h mn mx typ item its1 its2 cs1 c cs2 l1 mid l2 found :
  fits mn mx h its1 its2 cs1 cs2 -> cut typ item l1 mid l2 ->
  placed typ item its1 its2 cs1 c cs2 l1 mid l2 found ->
  locate Less (E:=E) (fnode its1 its2 cs1 c cs2) item typ = Ret (inr (length its1, found)).
Proof.
  intros [H1 H2 _ _] Hcut Hp. unfold locate.
  destruct (children (fnode _ _ _ _ _)) eqn:Hch; [by destruct (fnode_children _ _ _ _ _ Hch)|].
  clear Hch. destruct Hp as [l1' l2' Hl1 Hl2 Hc|x y its2' c2 cs2' -> -> -> -> -> -> ->].
  - inversion Hcut as [x ? ? ? Hb Hm Ha|? ? ? Ht Hi Hp|? ? ? Ht Hi Hp Hm Hq]; subst.
    + apply Forall_app in Hb as [Hb _]. apply Forall_app in Ha as [_ Ha]. cbn [deref fnode items]. rewrite (find_none Less x its1 its2); [done|..];
        apply list.Forall_forall; intros z Hz.
      * rewrite list.Forall_forall in Hb. apply Hb. by apply in_pre.
      * rewrite list.Forall_forall in Ha. apply Ha. by apply in_post.
    + symmetry in Hp. apply app_eq_nil in Hp as [Hl _]. by apply pre_nil in Hl as ->.
    + symmetry in Hq. apply app_eq_nil in Hq as [_ Hl]. apply post_nil in Hl as ->; [|done].
      cbn. by rewrite app_nil_r.
  - inversion Hcut as [? ? ? ? Hb Hm Ha| |]; subst.
    apply Forall_app in Hb as [Hb _]. apply Forall_app in Ha as [_ Ha]. cbn [deref fnode items]. rewrite (find_some Less x its1 y its2'); [done|..].
    + apply list.Forall_forall; intros z Hz. rewrite list.Forall_forall in Hb. apply Hb. by apply in_pre.
    + by apply Hm.
    + apply list.Forall_forall; intros z Hz. rewrite list.Forall_forall in Ha. apply Ha.
      apply in_post; [simpl in H2; lia|done].
Qed.

(** The numbers of items of a tree of degree [mn + 1]. *)
Record bounds (mn mx : nat) : Prop := {
  bo_max : mx = (2 * mn + 1)%nat;
  bo_min : (1 <= mn)%nat;
}.

Section Bounds.
Context (mn mx : nat) (Hbo : bounds mn mx).

Lemma focus_cut h n typ item l1 mid l2 :
  wf mn mx (S h) n -> sorted Less (inorder n) -> inorder n = l1 ++ option_list mid ++ l2 ->
  cut typ item l1 mid l2 ->
  exists its1 its2 cs1 c cs2 found, n = fnode its1 its2 cs1 c cs2
    /\ fits mn mx h its1 its2 cs1 cs2 /\ child_ok mn mx h c
    /\ placed typ item its1 its2 cs1 c cs2 l1 mid l2 found.
Proof.
  intros Hw Hs Hio Hcut. inversion Hcut as [x ? ? ? Hb Hm Ha|? y ?|? ? y]; subst.
  - destruct (cut_parts x l1 mid l2 Hcut) as (EB & ES & EA).
    destruct (focus_find Less mn mx h n x Hw Hs)
      as [(its1 & its2 & cs1 & c & cs2 & -> & Hf & Hc & Hb1 & Ha1 & _)
         |(its1 & y & its2 & cs1 & c & cs2 & -> & Hf & Hc & Hxy & _)];
      rewrite <- Hio in EB, ES, EA.
    + destruct (fnode_bounds Less _ _ _ _ _ _ _ _ _ Hf Hs Hb1 Ha1) as (HB & HA & Hsc).
      destruct (parts_middle Less x _ (inorder c) _ HB HA) as (EB' & ES' & EA').
      rewrite (fnode_inorder mn mx h) in EB, ES, EA by done.
      exists its1, its2, cs1, c, cs2, false. split_and!; [done..|].
      apply (placed_child _ _ _ _ _ _ _ _ _ _ (below Less x (inorder c)) (above Less x (inorder c))).
      * by rewrite <- EB, <- EB'.
      * by rewrite <- EA, <- EA'.
      * rewrite <- ES, ES'. by apply (sorted_parts Less).
    + destruct cs2 as [|c2 cs2]; [by destruct Hf as [_ Hbad _ _]|].
      rewrite (fnode_inorder2 mn mx h _ y) in EB, ES, EA, Hs by done.
      destruct (sorted_around Less _ _ _ x Hs Hxy) as [HB HA].
      destruct (parts_some Less x _ y _ HB Hxy HA) as (EB' & ES' & EA').
      exists its1, (y :: its2), cs1, c, (c2 :: cs2), true. split_and!; [done..|].
      eapply placed_item; try done; try congruence.
      rewrite ES' in ES. by destruct mid; simplify_eq/=.
  - destruct (wf_inner_right mn mx h n Hw) as (its & c & cs & -> & _ & Hf & Hc).
    exists [], its, [], c, cs, false. split_and!; [done..|].
    rewrite (fnode_inorder mn mx h) in Hio by done. pose proof (child_ok_nonempty mn mx (bo_min _ _ Hbo) h c Hc) as Hne.
    destruct (inorder c) as [|z l] eqn:Hi; [done|]. simplify_eq/=.
    by apply (placed_child _ _ _ _ _ _ _ _ _ _ [] l).
  - destruct (wf_inner_left mn mx h n Hw) as (its & cs & c & -> & _ & Hf & Hc).
    exists its, [], cs, c, [], false. split_and!; [done..|].
    rewrite (fnode_inorder mn mx h) in Hio by done. pose proof (child_ok_nonempty mn mx (bo_min _ _ Hbo) h c Hc) as Hne.
    destruct (list_cut_last _ Hne) as (l & z & Hi). rewrite Hi in Hio.
    change (post [] []) with (@nil Item) in Hio. cbn [option_list] in Hio. rewrite !app_nil_r, app_assoc in Hio.
    apply app_inj_tail in Hio as [<- ->].
    by apply (placed_child _ _ _ _ _ _ _ _ _ _ l []).
Qed.

Lemma grown_placed h typ item its1 its2 cs1 c cs2 its1' its2' cs1' c' cs2' A B l1 mid l2 found :
  placed typ item its1 its2 cs1 c cs2 l1 mid l2 found ->
  grown mn mx h its1 its2 cs1 c cs2 its1' its2' cs1' c' cs2' A B ->
  exists found', placed typ item its1' its2' cs1' c' cs2' l1 mid l2 found'.
Proof.
  intros Hp [_ _ _ _ _ Hpre Hpost Hio].
  destruct Hp as [a b -> -> Hc|x y its2a c2 cs2a -> -> -> -> -> -> ->].
  - exists false. apply (placed_child _ _ _ _ _ _ _ _ _ _ (A ++ a) (b ++ B)).
    + by rewrite Hpre, app_assoc.
    + by rewrite Hpost, app_assoc.
    + by rewrite Hio, Hc, <- !app_assoc.
  - rewrite post_cons in Hpost. destruct B as [|z B].
    + destruct its2' as [|z its2'], cs2' as [|c2' cs2']; try done.
      cbn [app] in Hpost. rewrite post_cons in Hpost. injection Hpost as <- Hpost.
      exists true. eapply placed_item; try done. by rewrite Hpre, Hio, app_nil_r, app_assoc.
    + injection Hpost as <- Hpost. exists false.
      apply (placed_child _ _ _ _ _ _ _ _ _ _ (A ++ inorder c) B); [by rewrite Hpre, app_assoc|done|].
      by rewrite Hio, <- app_assoc.
Qed.

(** ** The induction *)
Definition remove_ok (h : nat) : Prop := forall fuel n typ item l1 mid l2,
  (2 * h < fuel)%nat -> wf mn mx h n -> sorted Less (inorder n) ->
  inorder n = l1 ++ option_list mid ++ l2 -> cut typ item l1 mid l2 -> (1 <= length (items n))%nat ->
  exists n', remove Less (E:=E) fuel n item mn typ = Ret (n', mid)
    /\ inorder n' = l1 ++ l2 /\ wf mn mx h n' /\ (length (items n) <= S (length (items n')))%nat.

Lemma remove_leaf : remove_ok 0.
Proof.
  intros [|fuel] n typ item l1 mid l2 Hf Hw Hs Hio Hcut Hne; [lia|].
  destruct (wf_leaf _ _ n Hw) as (its & -> & Hl). cbn [remove inorder map join] in *.
  rewrite (locate_leaf typ item its l1 mid l2) by done.
  eexists. split_and!; [done|done|apply leaf_wf|]; subst its; cbn [items];
    rewrite !length_app in *; destruct mid; simpl in *; lia.
Qed.

(** The child in focus has items to spare: it takes over, or gives up its last
    item for the one that is removed. *)
Lemma remove_step h fuel typ item its1 its2 cs1 c cs2 l1 mid l2 found :
  remove_ok h -> (2 * h < fuel)%nat -> fits mn mx h its1 its2 cs1 cs2 -> wf mn mx h c ->
  (mn < length (items c))%nat -> (length its1 + length its2 <= mx)%nat ->
  sorted Less (inorder c) -> cut typ item l1 mid l2 ->
  placed typ item its1 its2 cs1 c cs2 l1 mid l2 found ->
  exists n', remove Less (E:=E) (S fuel) (fnode its1 its2 cs1 c cs2) item mn typ = Ret (n', mid)
    /\ inorder n' = l1 ++ l2 /\ wf mn mx (S h) n'
    /\ length (items n') = (length its1 + length its2)%nat.
Proof.
  intros IH Hfuel Hf Hw Hroom Hl Hs Hcut Hp. cbn [remove].
  rewrite (locate_fnode h mn mx _ _ _ _ _ _ _ l1 mid l2 found) by done.
  pose proof (fit_left _ _ _ _ _ _ _ Hf) as H1. rewrite fnode_child by done. cbn beta iota.
  rewrite decide_False by lia. destruct Hp as [a b -> -> Hc|x y its2a c2 cs2a -> -> -> -> -> -> ->].
  - destruct (IH fuel c typ item a mid b) as (c' & -> & Hio & Hw' & Hl');
      [done..|by eapply cut_shrink|lia|].
    assert (Hres : wf mn mx (S h) (fnode its1 its2 cs1 c' cs2)).
    { apply unfocus; [done|done|]. split; [lia|done]. }
    assert (Hrio : inorder (fnode its1 its2 cs1 c' cs2) = (pre cs1 its1 ++ a) ++ b ++ post its2 cs2)
      by (rewrite (fnode_inorder mn mx h), Hio, <- !app_assoc; done).
    cbn beta iota. rewrite setChild_fnode by done.
    exists (fnode its1 its2 cs1 c' cs2). split_and!; [|done|done|cbn; apply length_app].
    destruct mid as [y|].
    + rewrite addRanks_fnode; [done..|]. unfold size. rewrite Hio, Hc, !len_app. change (len (option_list (Some y))) with 1. lia.
    + unfold fnode, size. by rewrite Hio, Hc.
  - destruct (list_cut_last (inorder c)) as (l & p & Hc).
    { eapply (child_ok_nonempty mn mx (bo_min _ _ Hbo)). split; [|exact Hw]. lia. }
    destruct (IH fuel c removeMax None l (Some p) []) as (c' & -> & Hio & Hw' & Hl');
      [done..|constructor|lia|].
    rewrite fnode_item, setChild_fnode by done. cbn [deref]. unfold setItem. cbn [items children ranks].
    rewrite set_at_middle by done. rewrite (addRanks_fnode its1 (p :: its2a) cs1 c _ c' _ (-1));
      [|done..|unfold size; rewrite Hio, Hc, !len_app; change (len [p]) with 1; change (len []) with 0; lia].
    eexists. split_and!; [done| | |cbn; rewrite length_app; done].
    + rewrite (fnode_inorder2 mn mx h _ y), Hio, Hc, app_nil_r by done. by rewrite <- !app_assoc.
    + apply unfocus; [by apply (fits_item _ _ _ _ y)|simpl in *; lia|]. split; [lia|done].
Qed.

Lemma remove_inner h : remove_ok h -> remove_ok (S h).
Proof.
  intros IH [|[|fuel]] n typ item l1 mid l2 Hfuel Hw Hs Hio Hcut Hne; [lia..|].
  destruct (focus_cut h n typ item l1 mid l2 Hw Hs Hio Hcut)
    as (its1 & its2 & cs1 & c & cs2 & found & -> & Hf & Hc & Hp).
  assert (Hln : length (items (fnode its1 its2 cs1 c cs2)) = (length its1 + length its2)%nat)
    by apply length_app. rewrite Hln in *.
  pose proof (wf_max _ _ _ _ Hw) as Hle. rewrite Hln in Hle.
  rewrite (fnode_inorder mn mx h) in Hs, Hio by done.
  destruct (decide (length (items c) <= mn)%nat) as [Hfull|Hroom].
  - pose proof (bo_max _ _ Hbo) as Hmx. pose proof (bo_min _ _ Hbo) as Hmn.
    destruct (growChild_spec (E:=E) mn mx Hmx Hmn h its1 its2 cs1 c cs2)
      as (its1' & its2' & cs1' & c' & cs2' & A & B & Hg & Hgr); [done..|destruct Hc; lia|done|].
    destruct (grown_placed _ _ _ _ _ _ _ _ _ _ _ _ _ _ _ _ _ _ _ Hp Hgr) as [found' Hp'].
    remember (S fuel) as fuel1 eqn:Hf1. cbn [remove].
    rewrite (locate_fnode h mn mx _ _ _ _ _ _ _ l1 mid l2 found), fnode_child by (done || apply Hf).
    cbn beta iota. rewrite decide_True, Hg by done. subst fuel1. destruct Hgr as [Hf' Hc' Hr' Hless Hmore Hpre Hpost Hio'].
    destruct (remove_step h fuel typ item its1' its2' cs1' c' cs2' l1 mid l2 found')
      as (n' & Hn & Hion & Hwn & Hlen); [done|lia|done|apply Hc'|done|lia| |done..|].
    + rewrite Hpre, Hpost in Hs. rewrite Hio'.
      replace ((pre cs1' its1' ++ A) ++ inorder c ++ B ++ post its2' cs2')
        with (pre cs1' its1' ++ (A ++ inorder c ++ B) ++ post its2' cs2') in Hs
        by (by rewrite <- !app_assoc).
      by apply sorted_app in Hs as (_ & _ & (_ & Hs & _)%sorted_app).
    + exists n'. split_and!; try done. lia.
  - destruct (remove_step h (S fuel) typ item its1 its2 cs1 c cs2 l1 mid l2 found)
      as (n' & Hn & Hion & Hwn & Hlen); [done|lia|done|apply Hc|lia|lia| |done..|].
    + by apply sorted_app in Hs as (_ & _ & (_ & Hs & _)%sorted_app).
    + exists n'. split_and!; try done. lia.
Qed.

Lemma remove_spec h : remove_ok h.
Proof. induction h as [|h IH]; [apply remove_leaf|by apply remove_inner]. Qed.

End Bounds.
End Delete.
