(* ===== verification/BTreeIter.v ===== *)
(** * BTreeIter: iteration over a B-tree

    [node.iterate] passes the items from [start] to [stop] to the iterator, in
    ascending or descending order, until the iterator says to stop ([run]).  The
    cases are those the tree's methods use: a start that is included, or none. *)

From stdpp Require Import base option sets list sorting tactics.
From S2P Require Import Prelude.
From S2P Require Import BTree.
From S2P Require Import BTreeFacts.
From S2P Require Import BTreeShape.
From S2P Require Import BTreeRemove.

(** ** The reference: a pass over a list *)
Section Run.
Context {Item St : Type} (iter : St -> Item -> St * bool).

(** Until the iterator stops it. *)
Fixpoint visit (st : St) (l : list Item) : St :=
  match l with
  | [] => st
  | x :: l' => let '(st, goOn) := iter st x in if goOn : bool then visit st l' else st
  end.

(** Until the iterator or an item stops it; the flag says whether it ran to the end. *)
Fixpoint run (stopAt : Item -> bool) (st : St) (l : list Item) : St * bool :=
  match l with
  | [] => (st, true)
  | x :: l' =>
    if stopAt x then (st, false) else
    let '(st, goOn) := iter st x in
    if goOn : bool then run stopAt st l' else (st, false)
  end.

Lemma run_app stopAt l1 : forall st l2,
  run stopAt st (l1 ++ l2)
    = let '(st1, ok) := run stopAt st l1 in if ok : bool then run stopAt st1 l2 else (st1, false).
Proof.
  induction l1 as [|x l1 IH]; intros st l2; cbn [run app]; [by destruct (run _ _ l2)|].
  destruct (stopAt x); [done|]. destruct (iter st x) as [st' []]; [apply IH|done].
Qed.

(** When everything after a stopping item also stops, the pass is a pass over the rest. *)
Lemma run_visit stopAt l : forall st,
  StronglySorted (fun x y => stopAt x = true -> stopAt y = true) l ->
  fst (run stopAt st l) = visit st (List.filter (fun x => negb (stopAt x)) l).
Proof.
  induction l as [|x l IH]; intros st Hs; [done|]. apply StronglySorted_inv in Hs as [Hs Hx].
  cbn [run List.filter]. destruct (stopAt x) eqn:Hst; cbn [negb].
  - rewrite filter_none; [done|]. eapply list.Forall_impl; [exact Hx|]. intros y Hy.
    simpl. by rewrite Hy.
  - cbn [visit]. destruct (iter st x) as [st' []]; [by apply IH|done].
Qed.
End Run.

Section Iter.
Context {E Item St : Type} (Less : Item -> Item -> bool) `{!StrictWeakOrder Less} (mn mx : nat).
Context (iter : St -> Item -> St * bool) (start stop : option Item) (includeStart : bool).
Context (Hinc : is_Some start -> includeStart = true).
Implicit Types (n : node Item) (its : list Item) (cs : list (node Item)) (st : St).

(** The items between others. *)
Definition weave its (ls : list (list Item)) : list Item := concat (zip_with (fun x l => x :: l) its ls).
Definition weaveL (ls : list (list Item)) its : list Item := concat (zip_with (fun l x => l ++ [x]) ls its).
Lemma post_weave its cs : post its cs = weave its (map inorder cs).
Proof. unfold post, weave. by rewrite (zip_with_fmap_r _ inorder). Qed.
Lemma pre_weave cs its : pre cs its = weaveL (map inorder cs) its.
Proof. unfold pre, weaveL. by rewrite (zip_with_fmap_l _ inorder). Qed.

(** ** Ascending *)
Definition fromA (x : Item) : bool := match start with Some s => negb (Less x s) | None => true end.
Definition stopA (x : Item) : bool := match stop with Some s => negb (Less x s) | None => false end.
Abbreviation asc := (List.filter fromA).

(** The call returns what the pass over [l] returns. *)
Definition returns (o : outcome E (St * bool * bool)) (r : St * bool) : Prop :=
  exists hit, o = Ret (fst r, hit, snd r).

Lemma ascLoop_spec rec cs rest : forall i ls hit st,
  length ls = length rest -> Forall (fun x => fromA x = true) rest ->
  (forall j l hit st, ls !! j = Some l ->
     returns (match cs with
              | [] => Ret (st, hit, true)
              | _ => let! d := at_ cs (i + j) in rec d hit st
              end) (run iter stopA st (asc l))) ->
  returns (ascLoop Less iter start stop includeStart rec cs i rest hit st)
    (run iter stopA st (asc (weaveL ls rest))).
Proof.
  induction rest as [|x rest IH]; intros i [|l ls] hit st Hl Hfrom Hrec; try done; [by eexists|].
  apply list.Forall_cons in Hfrom as [Hx Hfrom]. cbn [ascLoop].
  destruct (Hrec 0%nat l hit st eq_refl) as [hit1 He]. rewrite Nat.add_0_r in He. rewrite He.
  unfold weaveL. cbn [zip_with concat]. fold (weaveL ls rest).
  rewrite !List.filter_app, <- app_assoc, run_app. cbn [List.filter]. rewrite Hx.
  destruct (run iter stopA st (asc l)) as [st1 []]; cbn [fst snd negb]; [|by eexists].
  assert (Hskip : negb includeStart && negb hit1 && negb (isNil start) && negb (startLess Less start x) = false).
  { destruct start; [|by rewrite !andb_false_r]. by rewrite Hinc. }
  rewrite Hskip. cbn [run app]. fold (stopA x). destruct (stopA x); [by eexists|].
  destruct (iter st1 x) as [st2 []]; cbn [negb]; [|by eexists].
  apply IH; [simpl in Hl; lia|done|]. intros j l' hit' st' Hj.
  specialize (Hrec (S j) l' hit' st' Hj). by rewrite Nat.add_succ_r in Hrec.
Qed.

(** Where the loop starts. *)
Lemma find_start its :
  sorted Less its ->
  exists its1 its2, its = its1 ++ its2
    /\ match start with Some s => fst (find Less its s) | None => 0%nat end = length its1
    /\ Forall (fun x => fromA x = true) its2
    /\ match start with Some s => all_below Less s its1 | None => its1 = [] end.
Proof.
  intros Hs. unfold fromA. destruct start as [s|].
  2: { exists [], its. split_and!; try done. apply list.Forall_forall. done. }
  assert (Hab : forall l, all_above Less s l -> Forall (fun x => negb (Less x s) = true) l).
  { intros l Hl. eapply list.Forall_impl; [exact Hl|]. intros y Hy. simpl.
    by rewrite (less_asym Less s y Hy). }
  destruct (sorted_cases Less s its Hs) as [(s1 & s2 & -> & H1 & H2)|(s1 & y & s2 & -> & H1 & Hy & H2)].
  - exists s1, s2. rewrite (find_none Less s s1 s2) by done. split_and!; auto.
  - exists s1, (y :: s2). rewrite (find_some Less s s1 y s2) by done. split_and!; auto.
    constructor; [|by auto]. by destruct (same_inv Less s y Hy) as [_ ->].
Qed.

Lemma asc_below l :
  match start with Some s => all_below Less s l | None => l = [] end -> asc l = [].
Proof.
  unfold fromA. destruct start as [s|]; [|by intros ->]. intros Hl. apply filter_none.
  eapply list.Forall_impl; [exact Hl|]. intros y Hy. simpl. by rewrite Hy.
Qed.

Lemma pre_nil_r cs : pre cs [] = ([] : list Item).
Proof. unfold pre. by rewrite zip_with_nil_r. Qed.
Lemma lookup_map_Some {A B} (f : A -> B) l i y :
  map f l !! i = Some y -> exists x, y = f x /\ l !! i = Some x.
Proof. intros (x & Hx & ->)%list_lookup_fmap_Some. by exists x. Qed.

Lemma sorted_pre_child cs its i d :
  length cs = length its -> sorted Less (pre cs its) -> cs !! i = Some d -> sorted Less (inorder d).
Proof.
  revert its i. induction cs as [|c cs IH]; intros [|x its] i Hl Hs Hi; try done.
  rewrite pre_cons in Hs. apply sorted_app in Hs as (_ & Hc & [_ Hs]%sorted_cons).
  destruct i as [|i]; [by simplify_eq/=|]. eapply (IH its i); [simpl in Hl; lia|done..].
Qed.
Lemma sorted_post_child its cs i d :
  length its = length cs -> sorted Less (post its cs) -> cs !! i = Some d -> sorted Less (inorder d).
Proof.
  revert its i. induction cs as [|c cs IH]; intros [|x its] i Hl Hs Hi; try done.
  rewrite post_cons in Hs. apply sorted_cons in Hs as [_ (_ & Hc & Hs)%sorted_app].
  destruct i as [|i]; [by simplify_eq/=|]. eapply (IH its i); [simpl in Hl; lia|done..].
Qed.

Definition ascend_ok (h : nat) : Prop := forall fuel n hit st,
  (h < fuel)%nat -> wf mn mx h n -> sorted Less (inorder n) ->
  returns (iterate Less iter start stop includeStart fuel ascend n hit st)
    (run iter stopA st (asc (inorder n))).

Lemma ascend_leaf : ascend_ok 0.
Proof.
  intros [|fuel] n hit st Hfuel Hw Hs; [lia|]. cbn [iterate].
  destruct (find_start (items n) (sorted_items Less n Hs)) as (its1 & its2 & Hi & -> & Hfrom & Hbelow).
  destruct (wf_leaf _ _ n Hw) as (its & -> & _). cbn [items children] in *. subst its.
  rewrite drop_app_length, inorder_leaf, List.filter_app, (asc_below its1 Hbelow). cbn [app].
  destruct (ascLoop_spec (fun c hit st => iterate Less iter start stop includeStart fuel ascend c hit st)
    [] its2 (length its1) (replicate (length its2) []) hit st) as [hit' ->];
    [by rewrite length_replicate|done| |].
  { intros j l hit' st' [-> _]%lookup_replicate. by eexists. }
  assert (Hw2 : weaveL (replicate (length its2) []) its2 = its2).
  { clear. unfold weaveL. induction its2 as [|x its2 IH]; [done|]. cbn. by f_equal. }
  rewrite Hw2. destruct (run _ _ _ _) as [st' []]; by eexists.
Qed.

Lemma ascend_inner h : ascend_ok h -> ascend_ok (S h).
Proof.
  intros IH [|fuel] n hit st Hfuel Hw Hs; [lia|]. cbn [iterate].
  destruct (find_start (items n) (sorted_items Less n Hs)) as (its1 & its2 & Hi & -> & Hfrom & Hbelow).
  destruct (wf_inner_left mn mx h n Hw) as (its & cs & c & -> & Hi' & Hf & Hc).
  rewrite Hi' in Hi. subst its. destruct Hf as [Hl _ Hok _]. rewrite length_app in Hl.
  destruct (list_cut cs (length its1)) as (cs1 & cs2 & -> & Hl1); [lia|].
  rewrite length_app in Hl. apply Forall_app in Hok as [_ Hok].
  assert (Hio : inorder (fnode (its1 ++ its2) [] (cs1 ++ cs2) c [])
                = pre cs1 its1 ++ pre cs2 its2 ++ inorder c).
  { unfold fnode. rewrite inorder_focus by (rewrite ?length_app; done || lia).
    rewrite pre_app by done. change (post [] []) with (@nil Item). by rewrite app_nil_r, app_assoc. }
  rewrite Hio in Hs |- *.
  pose proof Hs as (_ & Hs1 & (_ & Hs2 & Hsc)%sorted_app)%sorted_app.
  rewrite !List.filter_app, (asc_below (pre cs1 its1)).
  2: { destruct start; [by apply pre_below|]. by rewrite Hbelow, pre_nil_r. }
  cbn [app]. rewrite run_app, pre_weave.
  destruct (ascLoop_spec (fun c hit st => iterate Less iter start stop includeStart fuel ascend c hit st)
    (children (fnode (its1 ++ its2) [] (cs1 ++ cs2) c [])) its2 (length its1) (map inorder cs2) hit st)
    as [hit1 He]; [by rewrite length_map; lia|done| |].
  - intros j l hit' st' Hj. apply lookup_map_Some in Hj as (d & -> & Hj).
    destruct (children _) eqn:Hch; [by destruct (fnode_children _ _ _ _ _ Hch)|]. rewrite <- Hch.
    cbn [fnode children]. unfold at_. rewrite <- app_assoc, lookup_app_r by lia.
    replace (length its1 + j - length cs1)%nat with j by lia.
    rewrite (lookup_app_l_Some cs2 _ j d Hj). cbn [deref].
    pose proof (Forall_lookup_1 _ _ _ _ Hok Hj) as [_ Hwd]. apply IH; [lia|done|].
    eapply (sorted_pre_child cs2 its2); [lia|done..].
  - rewrite Hi', drop_app_length, He.
    destruct (run iter stopA st (asc (weaveL (map inorder cs2) its2))) as [st1 []]; cbn [fst snd negb];
      [|by eexists]. cbn [fnode children]. rewrite last_snoc. apply IH; [lia|apply Hc|done].
Qed.

Lemma iterate_ascend h : ascend_ok h.
Proof. induction h; [apply ascend_leaf|by apply ascend_inner]. Qed.

(** ** Descending *)
Definition fromD (x : Item) : bool := match start with Some s => negb (Less s x) | None => true end.
Definition stopD (x : Item) : bool := match stop with Some s => negb (Less s x) | None => false end.
Definition dsc (l : list Item) : list Item := rev (List.filter fromD l).

(** Once an item was seen ([hit]), all that is left is below the start. *)
Definition quiet (hit : bool) (l : list Item) : Prop :=
  hit = true -> match start with Some s => all_below Less s l | None => True end.
Definition seen (l : list Item) : Prop := exists z, z ∈ l /\ fromD z = true.
Definition returnsD (o : outcome E (St * bool * bool)) (r : St * bool) (hit : bool) (l : list Item) : Prop :=
  exists hit', o = Ret (fst r, hit', snd r)
    /\ (hit' = true -> hit = true \/ seen l).

Lemma weave_snoc its ls x l :
  length its = length ls -> weave (its ++ [x]) (ls ++ [l]) = weave its ls ++ x :: l.
Proof.
  intros H. unfold weave. rewrite zip_with_app by done. rewrite concat_app. cbn. by rewrite app_nil_r.
Qed.
Lemma dsc_app l1 l2 : dsc (l1 ++ l2) = dsc l2 ++ dsc l1.
Proof. unfold dsc. by rewrite List.filter_app, rev_app_distr. Qed.
Lemma seen_app l1 l2 : seen (l1 ++ l2) <-> seen l1 \/ seen l2.
Proof.
  split.
  - intros (z & [Hz|Hz]%elem_of_app & Hf); [left|right]; by exists z.
  - intros [(z & Hz & Hf)|(z & Hz & Hf)]; exists z; (split; [apply elem_of_app; auto|done]).
Qed.
Lemma quiet_app hit l1 l2 : quiet hit (l1 ++ l2) -> quiet hit l1 /\ quiet hit l2.
Proof.
  unfold quiet. destruct start; [|done].
  intros H. split; intros Hh; specialize (H Hh); by apply Forall_app in H as [? ?].
Qed.

(** What comes before an item up to the start is below the start. *)
Lemma quiet_before l1 x l2 : sorted Less (l1 ++ l2) -> x ∈ l2 -> fromD x = true -> quiet true l1.
Proof.
  intros (Hlt & _)%sorted_app Hx. unfold quiet, fromD. destruct start as [s|]; [|done].
  intros Hfx _. apply list.Forall_forall. intros z Hz.
  destruct (less_split z s x (Hlt z x Hz Hx)) as [?|Hsx]; [done|]. by rewrite Hsx in Hfx.
Qed.

Lemma descLoop_spec rec cs its2 its1 : forall ls hit st,
  length its1 = length ls -> Forall (fun x => fromD x = true) its1 ->
  sorted Less (weave its1 ls) -> quiet hit (weave its1 ls) ->
  (forall j l hit st, ls !! j = Some l -> quiet hit l ->
     returnsD (match cs with
               | [] => Ret (st, hit, true)
               | _ => let! d := at_ cs (S j) in rec d hit st
               end) (run iter stopD st (dsc l)) hit l) ->
  returnsD (descLoop Less iter start stop includeStart rec (its1 ++ its2) cs (length its1) hit st)
    (run iter stopD st (dsc (weave its1 ls))) hit (weave its1 ls).
Proof.
  revert its2. induction its1 as [|x its1 IH] using rev_ind; intros its2 ls hit st Hl Hfrom Hs Hq Hrec.
  { destruct ls; [|done]. eexists. split; [done|]. auto. }
  destruct ls as [|l ls _] using rev_ind; [rewrite length_app in Hl; simpl in Hl; lia|].
  rewrite !length_app in Hl. simpl in Hl. assert (Hl' : length its1 = length ls) by lia.
  rewrite weave_snoc in * by done. rewrite length_app, Nat.add_1_r. cbn [descLoop].
  rewrite <- app_assoc. cbn [app]. rewrite at_middle by done. cbn beta iota.
  apply Forall_app in Hfrom as [Hfrom [Hx _]%list.Forall_cons].
  apply quiet_app in Hq as [Hq1 Hq2]. 
  rewrite (cons_middle x (weave its1 ls)), (app_assoc (weave its1 ls)), !dsc_app, run_app.
  assert (Hskip : negb (isNil start) && negb (lessStart Less start x)
                  && (negb includeStart || hit || startLess Less start x) = false).
  { unfold quiet in Hq2. unfold fromD in Hx. destruct start as [s|]; [|done].
    rewrite Hinc by done. cbn. apply negb_true_iff in Hx. rewrite Hx, orb_false_r.
    destruct hit; [|by rewrite andb_false_r]. specialize (Hq2 eq_refl).
    apply list.Forall_cons in Hq2 as [-> _]. done. }
  rewrite Hskip. destruct (Hrec (length ls) l hit st) as (hit1 & He & Hh1).
  { by apply list_lookup_middle. }
  { change (x :: l) with ([x] ++ l) in Hq2. by apply quiet_app in Hq2 as [_ ?]. }
  rewrite Hl', He. clear Hskip He.
  assert (Hpost : hit1 = true -> hit = true \/ seen ((weave its1 ls ++ [x]) ++ l))
    by (rewrite seen_app; naive_solver).
  destruct (run iter stopD st (dsc l)) as [st1 []]; cbn [fst snd negb]; [|by eexists].
  assert (Hdx : dsc [x] = [x]) by (unfold dsc; cbn; by rewrite Hx). rewrite Hdx. cbn [app run].
  fold (stopD x). destruct (stopD x); [by eexists|].
  assert (Hseen : seen ((weave its1 ls ++ [x]) ++ l)).
  { apply seen_app. left. apply seen_app. right. exists x. split; [by apply list_elem_of_singleton|done]. }
  destruct (iter st1 x) as [st2 []]; cbn [negb]; [|eexists; split; [done|auto]].
  rewrite <- Hl'. edestruct (IH (x :: its2) ls true st2) as (hit2 & He2 & Hh2); [done|done| | | |].
  - by apply sorted_app in Hs as (_ & ? & _).
  - eapply quiet_before; [exact Hs| |exact Hx]. apply list_elem_of_here.
  - intros j l' hit' st' Hj. apply Hrec. by apply lookup_app_l_Some.
  - eexists. split; [exact He2|auto].
Qed.

(** Where the loop starts. *)
Lemma find_startD its :
  sorted Less its ->
  exists its1 its2, its = its1 ++ its2
    /\ match start with
       | Some s => let '(i, found) := find Less its s in if found : bool then S i else i
       | None => length its
       end = length its1
    /\ Forall (fun x => fromD x = true) its1
    /\ match start with Some s => all_above Less s its2 | None => its2 = [] end.
Proof.
  intros Hs. unfold fromD. destruct start as [s|].
  2: { exists its, []. rewrite app_nil_r. split_and!; try done. apply list.Forall_forall. done. }
  assert (Hab : forall l, all_below Less s l -> Forall (fun x => negb (Less s x) = true) l).
  { intros l Hl. eapply list.Forall_impl; [exact Hl|]. intros y Hy. simpl.
    by rewrite (less_asym Less y s Hy). }
  destruct (sorted_cases Less s its Hs) as [(s1 & s2 & -> & H1 & H2)|(s1 & y & s2 & -> & H1 & Hy & H2)].
  - exists s1, s2. rewrite (find_none Less s s1 s2) by done. split_and!; auto.
  - exists (s1 ++ [y]), s2. rewrite (find_some Less s s1 y s2), <- app_assoc by done.
    split_and!; [done|rewrite length_app; simpl; lia| |done].
    apply Forall_app. split; [by auto|]. apply Forall_singleton.
    by destruct (same_inv Less s y Hy) as [-> _].
Qed.

Lemma dsc_above l :
  match start with Some s => all_above Less s l | None => l = [] end -> dsc l = [].
Proof.
  unfold dsc, fromD. destruct start as [s|]; [|by intros ->]. intros Hl. rewrite filter_none; [done|].
  eapply list.Forall_impl; [exact Hl|]. intros y Hy. simpl. by rewrite Hy.
Qed.
Lemma weave_nils its : weave its (replicate (length its) []) = its.
Proof. unfold weave. induction its as [|x its IH]; [done|]. cbn. by f_equal. Qed.

Definition descend_ok (h : nat) : Prop := forall fuel n hit st,
  (h < fuel)%nat -> wf mn mx h n -> sorted Less (inorder n) -> quiet hit (inorder n) ->
  returnsD (iterate Less iter start stop includeStart fuel descend n hit st)
    (run iter stopD st (dsc (inorder n))) hit (inorder n).

Lemma descend_leaf : descend_ok 0.
Proof.
  intros [|fuel] n hit st Hfuel Hw Hs Hq; [lia|]. cbn [iterate].
  destruct (find_startD (items n) (sorted_items Less n Hs)) as (its1 & its2 & Hi & -> & Hfrom & Habove).
  destruct (wf_leaf _ _ n Hw) as (its & -> & _). cbn [items children] in *. subst its.
  rewrite inorder_leaf in *. rewrite dsc_app, (dsc_above its2 Habove). cbn [app].
  apply quiet_app in Hq as [Hq _]. apply sorted_app in Hs as (_ & Hs & _).
  rewrite <- (weave_nils its1) in Hq, Hs.
  destruct (descLoop_spec (fun c hit st => iterate Less iter start stop includeStart fuel descend c hit st)
    [] its2 its1 (replicate (length its1) []) hit st) as (hit' & -> & Hh);
    [by rewrite length_replicate|done|done|done| |].
  { intros j l hit' st' [-> _]%lookup_replicate _. eexists. split; [done|]. auto. }
  rewrite weave_nils in *.
  assert (Hh' : hit' = true -> hit = true \/ seen (its1 ++ its2)) by (rewrite seen_app; naive_solver).
  destruct (run _ _ _ _) as [st' []]; by eexists.
Qed.

Lemma descend_inner h : descend_ok h -> descend_ok (S h).
Proof.
  intros IH [|fuel] n hit st Hfuel Hw Hs Hq; [lia|]. cbn [iterate].
  destruct (find_startD (items n) (sorted_items Less n Hs)) as (its1 & its2 & Hi & -> & Hfrom & Habove).
  destruct (wf_inner_right mn mx h n Hw) as (its & c & cs & -> & Hi' & Hf & Hc).
  rewrite Hi' in *. subst its. destruct Hf as [_ Hl _ Hok]. rewrite length_app in Hl.
  destruct (list_cut cs (length its1)) as (cs1 & cs2 & -> & Hl1); [lia|].
  rewrite length_app in Hl. apply Forall_app in Hok as [Hok _].
  assert (Hio : inorder (fnode [] (its1 ++ its2) [] c (cs1 ++ cs2))
                = (inorder c ++ post its1 cs1) ++ post its2 cs2).
  { unfold fnode. rewrite inorder_focus by (rewrite ?length_app; done || lia).
    rewrite post_app by lia. change (pre [] []) with (@nil Item). cbn [app]. by rewrite <- app_assoc. }
  rewrite Hio in *. pose proof Hs as (_ & Hs1 & Hs2)%sorted_app.
  pose proof Hs1 as (_ & Hsc & Hsp)%sorted_app. apply quiet_app in Hq as [[Hqc Hqp]%quiet_app _].
  rewrite !dsc_app, (dsc_above (post its2 cs2)).
  2: { destruct start; [apply post_above; [done|lia|done..]|]. by rewrite Habove. }
  cbn [app]. rewrite run_app. rewrite (post_weave its1 cs1) in *.
  destruct (descLoop_spec (fun c hit st => iterate Less iter start stop includeStart fuel descend c hit st)
    (children (fnode [] (its1 ++ its2) [] c (cs1 ++ cs2))) its2 its1 (map inorder cs1) hit st)
    as (hit1 & -> & Hh1); [rewrite length_map; lia|done..| |].
  - intros j l hit' st' Hj Hql. apply lookup_map_Some in Hj as (d & -> & Hj).
    cbn [fnode children app]. unfold at_. cbn [lookup list_lookup].
    change (list_lookup j ?l) with (l !! j). rewrite (lookup_app_l_Some cs1 _ j d Hj). cbn [deref].
    pose proof (Forall_lookup_1 _ _ _ _ Hok Hj) as [_ Hwd]. apply IH; [lia|done| |done].
    rewrite <- post_weave in Hsp. eapply (sorted_post_child its1 cs1); [lia|done..].
  - assert (Hq1 : quiet hit1 (inorder c)).
    { intros Hh. destruct (Hh1 Hh) as [->|(z & Hz & Hfz)]; [by apply Hqc|].
      by eapply (quiet_before (inorder c)). }
    destruct (run iter stopD st (dsc (weave its1 (map inorder cs1)))) as [st1 []]; cbn [fst snd negb].
    + cbn [fnode children app]. destruct (IH fuel c hit1 st1) as (hit2 & He & Hh2); [lia|apply Hc|done|done|].
      exists hit2. split; [exact He|]. rewrite !seen_app. naive_solver.
    + exists hit1. split; [done|]. rewrite !seen_app. naive_solver.
Qed.

Lemma iterate_descend h : descend_ok h.
Proof. induction h; [apply descend_leaf|by apply descend_inner]. Qed.
End Iter.

(** ** Lookups in a B-tree

    [get], [getWithIndex], [getAt], [min] and [max] of a node, as functions of its
    in-order sequence. *)
(** ** Ranks *)
Section Ranks.
Implicit Types (ss : list Z).

Lemma total_nonneg ss : Forall (fun s => 0 <= s) ss -> 0 <= total ss.
Proof. induction 1; cbn [total foldr]; unfold total in *; lia. Qed.

Lemma idxs_bounds ss : Forall (fun s => 0 <= s) ss ->
  forall a i r, idxs a ss !! i = Some r -> a <= r < a + total ss.
Proof.
  induction 1 as [|s ss Hs Hss IH]; intros a i r; [done|].
  pose proof (total_nonneg ss Hss) as Ht. cbn [idxs total foldr].
  change (foldr _ 0 ss) with (total ss). destruct i as [|i]; cbn.
  - intros [= <-]. lia.
  - intros Hr%IH. lia.
Qed.

(** Where rank [k] is: at the item after a subtree, or inside the subtree. *)
Lemma locate_rank ss k :
  0 <= k < total ss -> exists s1 s s2, ss = s1 ++ s :: s2 /\ total s1 <= k <= total s1 + s.
Proof.
  induction ss as [|s ss IH] using rev_ind; intros Hk; [cbn in Hk; lia|].
  rewrite total_app in Hk. cbn in Hk. destruct (decide (total ss <= k)) as [Hle|Hlt].
  - exists ss, s, []. split; [done|]. lia.
  - destruct IH as (s1 & s' & s2 & -> & Hb); [lia|]. exists s1, s', (s2 ++ [s]).
    split; [|done]. by rewrite <- app_assoc.
Qed.

Lemma indices_find {E} s1 s s2 k :
  Forall (fun s => 0 <= s) (s1 ++ s :: s2) -> total s1 <= k <= total s1 + s ->
  indices.find (E:=E) (idxs 0 (s1 ++ s :: s2)) k = Ret (length s1, total s1 + s =? k).
Proof.
  intros [Hs1 [Hs Hs2]%list.Forall_cons]%Forall_app Hk. unfold indices.find.
  rewrite idxs_app. cbn [idxs]. rewrite Z.add_0_l.
  set (f := fun h => k <=? default 0 ((idxs 0 s1 ++ (total s1 + s) :: idxs (total s1 + s + 1) s2) !! h)).
  set (n := length _).
  assert (Hn : n = (length s1 + S (length s2))%nat)
    by (unfold n; rewrite length_app; simpl; by rewrite !idxs_length).
  assert (Hsep : separates n f (length s1)).
  { split_and!; [lia|..]; intros i Hi; unfold f.
    - rewrite lookup_app_l by (rewrite idxs_length; lia).
      destruct (idxs 0 s1 !! i) as [r|] eqn:Hr.
      + apply (idxs_bounds s1 Hs1) in Hr. simpl. lia.
      + apply lookup_ge_None in Hr. rewrite idxs_length in Hr. lia.
    - rewrite lookup_app_r by (rewrite idxs_length; lia). rewrite idxs_length.
      destruct (i - length s1)%nat as [|j] eqn:Hj; [simpl; lia|]. cbn [lookup list_lookup].
      change (list_lookup j ?l) with (l !! j). destruct (_ !! j) as [r|] eqn:Hr.
      + apply (idxs_bounds s2 Hs2) in Hr. simpl. lia.
      + apply lookup_ge_None in Hr. rewrite idxs_length in Hr. lia. }
  assert (Hi : Search n f = length s1).
  { eapply separates_unique; [apply Search_spec|exact Hsep]. intros i j Hij Hf.
    destruct Hsep as (_ & Hlo & Hhi). apply Hhi. split; [|lia].
    destruct (decide (i < length s1)%nat) as [Hlt|]; [|lia]. by rewrite Hlo in Hf. }
  by rewrite Hi, at_middle by (by rewrite idxs_length).
Qed.
End Ranks.

Section Query.
Context {E Item : Type} (Less : Item -> Item -> bool) `{!StrictWeakOrder Less} (mn mx : nat).
Implicit Types (n c : node Item) (its : list Item) (cs : list (node Item)).

(** ** By key *)
Lemma get_spec h : forall fuel n x, (h < fuel)%nat -> wf mn mx h n -> sorted Less (inorder n) ->
  get Less (E:=E) fuel n x = Ret (head (same Less x (inorder n))).
Proof.
  induction h as [|h IH]; intros [|fuel] n x Hfuel Hw Hs; try lia; cbn [get].
  - destruct (wf_leaf _ _ n Hw) as (its & -> & _). cbn [items children]. rewrite inorder_leaf in *.
    destruct (sorted_cases Less x its Hs) as [(s1 & s2 & -> & H1 & H2)|(s1 & y & s2 & -> & H1 & Hy & H2)].
    + rewrite (find_none Less x s1 s2 H1 H2). by destruct (parts_none Less x s1 s2 H1 H2) as (_ & -> & _).
    + rewrite (find_some Less x s1 y s2 H1 Hy H2), at_middle by done.
      by destruct (parts_some Less x s1 y s2 H1 Hy H2) as (_ & -> & _).
  - destruct (focus_find Less mn mx h n x Hw Hs)
      as [(its1 & its2 & cs1 & c & cs2 & -> & Hf & Hc & Hb & Ha & ->)
         |(its1 & y & its2 & cs1 & c & cs2 & -> & Hf & Hc & Hxy & ->)].
    + destruct (fnode_bounds Less _ _ _ _ _ _ _ _ _ Hf Hs Hb Ha) as (HB & HA & Hsc).
      destruct (children _) eqn:Hch; [by destruct (fnode_children _ _ _ _ _ Hch)|]. rewrite <- Hch.
      rewrite fnode_child by (done || apply Hf). cbn beta iota.
      rewrite IH by (done || lia || apply Hc). rewrite (fnode_inorder mn mx h) by done.
      by destruct (parts_middle Less x _ (inorder c) _ HB HA) as (_ & -> & _).
    + rewrite fnode_item by done. destruct cs2 as [|c2 cs2]; [by destruct Hf as [_ Hbad _ _]|].
      rewrite (fnode_inorder2 mn mx h _ y) in * by done.
      destruct (sorted_around Less _ _ _ x Hs Hxy) as [HB HA].
      by destruct (parts_some Less x _ y _ HB Hxy HA) as (_ & -> & _).
Qed.

(** The number of items below comes with the item. *)
Lemma getWithIndex_spec h : forall fuel n x,
  (h < fuel)%nat -> wf mn mx h n -> sorted Less (inorder n) ->
  getWithIndex Less (E:=E) fuel n x
    = Ret (head (same Less x (inorder n)), len (below Less x (inorder n))).
Proof.
  induction h as [|h IH]; intros [|fuel] n x Hfuel Hw Hs; try lia; cbn [getWithIndex].
  - destruct (wf_leaf _ _ n Hw) as (its & -> & _). cbn [items children ranks]. rewrite inorder_leaf in *.
    destruct (sorted_cases Less x its Hs) as [(s1 & s2 & -> & H1 & H2)|(s1 & y & s2 & -> & H1 & Hy & H2)].
    + rewrite (find_none Less x s1 s2 H1 H2). by destruct (parts_none Less x s1 s2 H1 H2) as (-> & -> & _).
    + rewrite (find_some Less x s1 y s2 H1 Hy H2), at_middle by done.
      by destruct (parts_some Less x s1 y s2 H1 Hy H2) as (-> & -> & _).
  - destruct (focus_find Less mn mx h n x Hw Hs)
      as [(its1 & its2 & cs1 & c & cs2 & -> & Hf & Hc & Hb & Ha & ->)
         |(its1 & y & its2 & cs1 & c & cs2 & -> & Hf & Hc & Hxy & ->)];
      pose proof (fit_left _ _ _ _ _ _ _ Hf) as Hl1.
    + destruct (fnode_bounds Less _ _ _ _ _ _ _ _ _ Hf Hs Hb Ha) as (HB & HA & Hsc).
      destruct (children _) eqn:Hch; [by destruct (fnode_children _ _ _ _ _ Hch)|]. rewrite <- Hch.
      rewrite fnode_child by done. cbn beta iota.
      rewrite IH by (done || lia || apply Hc). rewrite (fnode_inorder mn mx h) by done.
      destruct (parts_middle Less x _ (inorder c) _ HB HA) as (-> & -> & _).
      rewrite len_app, len_pre by done. clear Hch. destruct its1 as [|y its1 _] using rev_ind.
      * destruct cs1; [|done]. done.
      * destruct cs1 as [|d cs1 _] using rev_ind; [rewrite length_app in Hl1; simpl in Hl1; lia|].
        rewrite !length_app in *. simpl in Hl1. rewrite Nat.add_1_r. cbn [fnode ranks].
        rewrite map_app, <- app_assoc. cbn [map app]. rewrite idxs_app. cbn [idxs].
        rewrite at_middle by (rewrite idxs_length, length_map; lia).
        rewrite total_app. cbn [total foldr]. repeat (f_equal; try lia).
    + rewrite fnode_item by done. destruct cs2 as [|c2 cs2]; [by destruct Hf as [_ Hbad _ _]|].
      rewrite (fnode_inorder2 mn mx h _ y) in * by done.
      destruct (sorted_around Less _ _ _ x Hs Hxy) as [HB HA].
      destruct (parts_some Less x _ y _ HB Hxy HA) as (-> & -> & _).
      cbn [fnode ranks]. rewrite idxs_app. cbn [idxs].
      destruct (idxs 0 (map size cs1) ++ _) eqn:Hix; [by destruct (idxs 0 (map size cs1))|].
      rewrite <- Hix, at_middle by (by rewrite idxs_length, length_map).
      rewrite len_app, len_pre by done. unfold size. repeat (f_equal; try lia).
Qed.

(** ** By position *)
Lemma sizes_nonneg cs : Forall (fun s => 0 <= s) (map size cs).
Proof. induction cs; constructor; [unfold size; apply len_nonneg|done]. Qed.

(** The ranks around the child in focus. *)
Lemma rank_before its1 its2 cs1 c cs2 y :
  length (cs1 ++ [y]) = length its1 ->
  at_ (E:=E) (ranks (fnode its1 its2 (cs1 ++ [y]) c cs2)) (length cs1)
    = Ret (total (map size (cs1 ++ [y])) - 1).
Proof.
  intros H. cbn [fnode ranks]. rewrite map_app, <- app_assoc. cbn [map app]. rewrite idxs_app.
  cbn [idxs]. rewrite at_middle by (by rewrite idxs_length, length_map).
  rewrite total_app. cbn [total foldr]. f_equal. lia.
Qed.

(** A position inside an inner node: an item, or a position in a child. *)
Lemma focus_rank h n k :
  wf mn mx (S h) n -> 0 <= k < size n ->
  exists its1 its2 cs1 c cs2, n = fnode its1 its2 cs1 c cs2 /\ fits mn mx h its1 its2 cs1 cs2
    /\ child_ok mn mx h c /\ total (map size cs1) <= k <= total (map size cs1) + size c
    /\ indices.find (E:=E) (ranks n) k = Ret (length its1, total (map size cs1) + size c =? k).
Proof.
  intros Hw Hk. rewrite (size_inner mn mx h n Hw) in Hk.
  destruct (locate_rank (map size (children n)) k) as (s1 & s & s2 & Hss & Hb); [lia|].
  pose proof (f_equal length Hss) as Hls. rewrite length_map, length_app in Hls. simpl in Hls.
  pose proof Hw as (_ & Hl & Hr & _).
  destruct (list_cut (items n) (length s1)) as (its1 & its2 & Hi & Hl1); [lia|].
  destruct (focus mn mx h n its1 its2 Hw Hi) as (cs1 & c & cs2 & He & Hf & Hc).
  exists its1, its2, cs1, c, cs2.
  assert (Heq : map size cs1 = s1 /\ size c = s /\ map size cs2 = s2).
  { rewrite He in Hss. cbn [fnode children] in Hss. rewrite map_app in Hss. cbn [map] in Hss.
    apply app_inj_1 in Hss as [? [= ? ?]]; [done|]. rewrite length_map, (fit_left _ _ _ _ _ _ _ Hf). done. }
  destruct Heq as (<- & <- & <-). split_and!; try done; try lia.
  rewrite Hr, Hss, Hl1. apply indices_find; [|lia].
  rewrite <- Hss. apply sizes_nonneg.
Qed.

Lemma getAt_spec h : forall fuel n k, (h < fuel)%nat -> wf mn mx h n ->
  getAt (E:=E) fuel n k = Ret (if decide (0 <= k) then inorder n !! Z.to_nat k else None).
Proof.
  induction h as [|h IH]; intros [|fuel] n k Hfuel Hw; try lia; cbn [getAt];
    rewrite (node_length_size mn mx _ n Hw).
  - destruct (wf_leaf _ _ n Hw) as (its & -> & _). cbn [children items].
    change (size (mkNode its [] [])) with (len its). change (inorder (mkNode its [] [])) with its.
    destruct (Z.geb_spec k (len its)); [|destruct (Z.ltb_spec k 0)]; cbn [orb].
    + case_decide; [|done]. by rewrite lookup_ge_None_2 by (unfold len in *; lia).
    + by rewrite decide_False by lia.
    + rewrite decide_True by lia. destruct (index_total (E:=E) its k) as (x & -> & ->); [lia|done].
  - destruct (Z.geb_spec k (size n)) as [Hge|Hlt]; [|destruct (Z.ltb_spec k 0)]; cbn [orb].
    + case_decide; [|done]. by rewrite lookup_ge_None_2 by (unfold size, len in *; lia).
    + by rewrite decide_False by lia.
    + destruct (focus_rank h n k Hw) as (its1 & its2 & cs1 & c & cs2 & -> & Hf & Hc & Hk & ->); [lia|].
      destruct (children _) eqn:Hch; [by destruct (fnode_children _ _ _ _ _ Hch)|]. rewrite <- Hch.
      clear Hch. pose proof (fit_left _ _ _ _ _ _ _ Hf) as H1. pose proof (fit_right _ _ _ _ _ _ _ Hf) as H2.
      rewrite decide_True by lia. rewrite (fnode_inorder mn mx h) by done.
      pose proof (len_pre cs1 its1 H1) as Hlp. rewrite <- Hlp in *.
      unfold size in Hlt. change (size c) with (len (inorder c)) in *.
      destruct (Z.eqb_spec (len (pre cs1 its1) + len (inorder c)) k) as [Heq|Hne].
      * destruct its2 as [|y its2]; [|destruct cs2 as [|c2 cs2]; [done|]].
        { destruct cs2; [|done]. rewrite (fnode_inorder mn mx h), !len_app in Hlt by done.
          change (len (post [] [])) with 0 in Hlt. lia. }
        rewrite fnode_item by done. rewrite post_cons, app_assoc, list_lookup_middle; [done|].
        rewrite length_app. unfold len in *. lia.
      * rewrite fnode_child by done. cbn beta iota.
        assert (Hlk : (pre cs1 its1 ++ inorder c ++ post its2 cs2) !! Z.to_nat k
                      = inorder c !! Z.to_nat (k - len (pre cs1 its1))).
        { rewrite lookup_app_r by (unfold len in *; lia). rewrite lookup_app_l by (unfold len in *; lia).
          f_equal. unfold len. lia. }
        rewrite Hlk. clear Hlk. destruct its1 as [|y its1 _] using rev_ind.
        { destruct cs1; [|done]. cbn [length]. rewrite IH by (done || lia || apply Hc).
          change (len (pre [] [])) with 0. rewrite Z.sub_0_r, decide_True by lia. done. }
        destruct cs1 as [|d cs1 _] using rev_ind; [rewrite length_app in H1; simpl in H1; lia|].
        rewrite Hlp in *. rewrite length_app, Nat.add_1_r.
        replace (length its1) with (length cs1) by (rewrite !length_app in H1; simpl in H1; lia).
        rewrite rank_before by done. rewrite IH by (done || lia || apply Hc).
        rewrite decide_True by lia. repeat (f_equal; try lia).
Qed.

(** ** Ends *)
Lemma min_spec h : forall fuel n, (h < fuel)%nat -> (1 <= mn)%nat -> wf mn mx h n ->
  min_node (E:=E) fuel n = Ret (head (inorder n)).
Proof.
  induction h as [|h IH]; intros [|fuel] n Hfuel Hmn Hw; try lia; cbn [min_node].
  - by destruct (wf_leaf _ _ n Hw) as (its & -> & _).
  - destruct (wf_inner_right mn mx h n Hw) as (its & c & cs & -> & _ & Hf & Hc).
    cbn [fnode children app]. rewrite IH by (done || lia || apply Hc).
    pose proof (child_ok_nonempty mn mx Hmn h c Hc) as Hne.
    change (mkNode _ _ _) with (fnode [] its [] c cs).
    rewrite (fnode_inorder mn mx h) by done. by destruct (inorder c).
Qed.
Lemma max_spec h : forall fuel n, (h < fuel)%nat -> (1 <= mn)%nat -> wf mn mx h n ->
  max_node (E:=E) fuel n = Ret (list.last (inorder n)).
Proof.
  induction h as [|h IH]; intros [|fuel] n Hfuel Hmn Hw; try lia; cbn [max_node].
  - by destruct (wf_leaf _ _ n Hw) as (its & -> & _).
  - destruct (wf_inner_left mn mx h n Hw) as (its & cs & c & -> & _ & Hf & Hc).
    cbn [fnode children]. rewrite last_snoc. rewrite IH by (done || lia || apply Hc).
    pose proof (child_ok_nonempty mn mx Hmn h c Hc) as Hne.
    change (mkNode _ _ _) with (fnode its [] cs c []).
    rewrite (fnode_inorder mn mx h) by done. change (post [] []) with (@nil Item).
    rewrite app_nil_r, last_app. destruct (list_cut_last _ Hne) as (l & z & ->). by rewrite last_snoc.
Qed.
End Query.
