(* ===== verification/BTreeProps.v ===== *)
(** * BTreeProps: the B-tree is a sorted list

    The methods of [BTree] against a reference on sorted lists: every history of
    calls on a tree of degree at least 2 returns what the list returns, never
    panics, and leaves a balanced tree ([bt_ok]). *)

From stdpp Require Import base option sets list sorting tactics.
From S2P Require Import Prelude.
From S2P Require Import BTree.
From S2P Require Import BTreeFacts.
From S2P Require Import BTreeShape.
From S2P Require Import BTreeInsert.
From S2P Require Import BTreeRemove.
From S2P Require Import BTreeIter.

Section Tree.
Context {E Item : Type} (Less : Item -> Item -> bool) `{!StrictWeakOrder Less}.
Implicit Types (t : BTree Item) (x : Item) (l : list Item) (n : node Item).

Definition contents t : list Item :=
  match bt_root t with None => [] | Some n => inorder n end.

(** A balanced tree: sorted items, all leaves at one depth, between [degree - 1] and
    [2 * degree - 1] items in every node but the root, and the right length. *)
Record bt_ok t : Prop := {
  ok_degree : (2 <= bt_degree t)%nat;
  ok_sorted : sorted Less (contents t);
  ok_length : bt_length t = len (contents t);
  ok_root : forall n, bt_root t = Some n ->
    exists h, wf (minItems t) (maxItems t) h n /\ (h <> 0%nat -> items n <> []);
}.

Lemma ok_bounds t : bt_ok t -> bounds (minItems t) (maxItems t).
Proof. intros [Hd _ _ _]. unfold minItems, maxItems. split; lia. Qed.

(** The sorted list with an item put in, or taken out. *)
Definition put x l : list Item := below Less x l ++ x :: above Less x l.
Definition drop_same x l : list Item := below Less x l ++ above Less x l.
Definition find_same x l : option Item := head (same Less x l).

Lemma all_below_below x l : all_below Less x (below Less x l).
Proof. apply list.Forall_forall. intros y [_ Hy]%list_elem_of_In%filter_In. done. Qed.
Lemma all_above_above x l : all_above Less x (above Less x l).
Proof. apply list.Forall_forall. intros y [_ Hy]%list_elem_of_In%filter_In. done. Qed.
Lemma filter_sublist (p : Item -> bool) l : List.filter p l `sublist_of` l.
Proof. induction l as [|y l IH]; [done|]. cbn. destruct (p y); by constructor. Qed.

Lemma sorted_put x l : sorted Less l -> sorted Less (put x l).
Proof.
  intros Hs. unfold put. apply sorted_app. split_and!.
  - intros y z Hy Hz. pose proof (all_below_below x l) as Hb. pose proof (all_above_above x l) as Ha.
    unfold all_below, all_above in *. rewrite list.Forall_forall in Hb, Ha.
    apply elem_of_cons in Hz as [->|Hz]; [by apply Hb|]. eapply less_trans; [by apply Hb|by apply Ha].
  - by eapply sorted_sublist; [apply filter_sublist|].
  - apply sorted_cons. split; [apply all_above_above|].
    by eapply sorted_sublist; [apply filter_sublist|].
Qed.
Lemma sorted_drop x l : sorted Less l -> sorted Less (drop_same x l).
Proof.
  intros Hs. apply (sorted_sublist Less _ (below Less x l ++ same Less x l ++ above Less x l)).
  - unfold drop_same. apply sublist_app; [done|]. by apply sublist_inserts_l.
  - by rewrite <- (sorted_parts Less x l Hs).
Qed.
Lemma len_put x l : sorted Less l ->
  len (put x l) = len l + match find_same x l with None => 1 | Some _ => 0 end.
Proof.
  intros [(l1 & l2 & -> & H1 & H2)|(l1 & y & l2 & -> & H1 & Hy & H2)]%(sorted_cases Less x);
    unfold put, find_same.
  - destruct (parts_none Less x l1 l2 H1 H2) as (-> & -> & ->). rewrite !len_app, len_cons. simpl. lia.
  - destruct (parts_some Less x l1 y l2 H1 Hy H2) as (-> & -> & ->).
    rewrite !len_app, !len_cons. simpl. lia.
Qed.
Lemma len_drop_same x l : sorted Less l ->
  len (drop_same x l) = len l - match find_same x l with None => 0 | Some _ => 1 end.
Proof.
  intros [(l1 & l2 & -> & H1 & H2)|(l1 & y & l2 & -> & H1 & Hy & H2)]%(sorted_cases Less x);
    unfold drop_same, find_same.
  - destruct (parts_none Less x l1 l2 H1 H2) as (-> & -> & ->). rewrite !len_app. simpl. lia.
  - destruct (parts_some Less x l1 y l2 H1 Hy H2) as (-> & -> & ->).
    rewrite !len_app, !len_cons. simpl. lia.
Qed.

(** ** [New] and [ReplaceOrInsert] *)

Lemma New_ok d : (2 <= d)%nat -> New (Item:=Item) (E:=E) d = Ret (mkBTree d 0 None) /\ bt_ok (mkBTree d 0 None).
Proof.
  intros Hd. unfold New. rewrite decide_False by lia. split; [done|].
  split; [done|constructor|done|done].
Qed.

(** A full root is split before the insertion. *)
Lemma grow_root t n h :
  bounds (minItems t) (maxItems t) -> wf (minItems t) (maxItems t) h n ->
  (h <> 0%nat -> items n <> []) ->
  exists n' h',
    (if decide (maxItems t <= length (items n))%nat then
       let! (oldroot, item2, second) := split (E:=E) n (Nat.div2 (maxItems t)) in
       Ret (initSize (mkNode [item2] [oldroot; second] []))
     else Ret n) = Ret n'
    /\ wf (minItems t) (maxItems t) h' n' /\ inorder n' = inorder n
    /\ (length (items n') < maxItems t)%nat /\ (h' <> 0%nat -> items n' <> []).
Proof.
  intros [Hmx Hmn] Hw Hne. pose proof (wf_max _ _ _ _ Hw) as Hle. case_decide as Hfull.
  2: { exists n, h. split_and!; try done. lia. }
  rewrite (div2_mx _ _ Hmx).
  destruct (split_spec (E:=E) _ _ h n (minItems t) Hw) as (c1 & y & c2 & -> & Hio & Hc1 & Hc2 & _ & _); [lia..|].
  exists (fnode [] [y] [] c1 [c2]), (S h). cbn beta iota.
  assert (Hf : fits (minItems t) (maxItems t) h [] [y] [] [c2]) by (split; try done; by apply Forall_singleton).
  split_and!; [|apply unfocus; [done|simpl; lia|done]| |simpl; lia|done].
  - unfold initSize, fnode. cbn [items children app map].
    rewrite initLoop_idxs, (child_ok_length _ _ [c1; c2] h) by (constructor; [done|by apply Forall_singleton]). done.
  - rewrite (fnode_inorder _ _ h), Hio by done. cbn. by rewrite app_nil_r.
Qed.

Lemma ReplaceOrInsert_spec t x :
  bt_ok t ->
  exists t', ReplaceOrInsert Less (E:=E) t x = Ret (t', find_same x (contents t))
    /\ bt_ok t' /\ contents t' = put x (contents t) /\ bt_degree t' = bt_degree t.
Proof.
  intros Hok. pose proof (ok_bounds t Hok) as Hbo. destruct Hok as [Hd Hs Hl Hr].
  unfold ReplaceOrInsert, contents in *. destruct (bt_root t) as [n|].
  2: { eexists. split_and!; [done| |done|done]. split; cbn; try done.
       - apply sorted_cons. split; [constructor|constructor].
       - rewrite Hl. done.
       - intros n [= <-]. exists 0%nat. split; [|done]. apply leaf_wf. cbn. unfold maxItems. cbn. lia. }
  destruct (Hr n eq_refl) as (h & Hw & Hne).
  destruct (grow_root t n h Hbo Hw Hne) as (n1 & h1 & -> & Hw1 & Hio & Hl1 & Hh1). cbn beta iota.
  destruct Hbo as [Hmx Hmn].
  destruct (insert_spec (E:=E) Less _ _ Hmx Hmn h1 (fuel_of n1) n1 x) as (n2 & out & -> & Hin);
    [unfold fuel_of; rewrite (height_wf _ _ _ _ Hw1); lia|done|done|by rewrite Hio|].
  pose proof (inserted_size Less _ _ Hmx Hmn h1 n1 x n2 out ltac:(by rewrite Hio) Hin) as Hsz.
  destruct Hin as [Hio2 Ho Hw2 Hmore]. rewrite Hio in Hio2, Ho. subst out.
  unfold size in Hsz. rewrite Hio in Hsz.
  eexists. split_and!; [done| |done|done]. split; cbn; [done|rewrite Hio2; by apply sorted_put| |].
  - rewrite Hsz, Hl. destruct (head _); lia.
  - intros n' [= <-]. exists h1. split; [done|]. intros Hh Hi. rewrite Hi in Hmore. simpl in Hmore.
    apply (Hh1 Hh). destruct (items n1); [done|simpl in Hmore; lia].
Qed.
(** ** Deletion *)

(** The root that is left: an inner root without items gives way to its child. *)
Lemma shrink_root mn mx h n :
  (1 <= mn)%nat -> wf mn mx h n ->
  let n' := match items n, children n with [], c :: _ => c | _, _ => n end in
  exists h', wf mn mx h' n' /\ inorder n' = inorder n /\ (h' <> 0%nat -> items n' <> []).
Proof.
  intros Hmn Hw n'. unfold n'. destruct (items n) eqn:Hi; [|exists h; rewrite Hi; done].
  pose proof (wf_no_items mn mx h n Hw Hi) as He. destruct h as [|h].
  - subst n. cbn. exists 0%nat. done.
  - destruct He as (m & -> & Hm1 & Hm2). cbn [fnode children app]. exists h.
    split_and!; [done| |intros _ He; rewrite He in Hm1; simpl in Hm1; lia].
    cbn. by rewrite app_nil_r.
Qed.

Lemma root_empty t n : bt_ok t -> bt_root t = Some n -> (items n = [] <-> inorder n = []).
Proof.
  intros Hok Hn. destruct (ok_root t Hok n Hn) as (h & Hw & Hne). split; intros He.
  - destruct h; [|by destruct (Hne ltac:(done))]. destruct (wf_leaf _ _ n Hw) as (its & -> & _). done.
  - destruct n as [its cs ix]. pose proof (items_sublist (map inorder cs) its) as Hsub.
    change (join _ _) with (inorder (mkNode its cs ix)) in Hsub. rewrite He in Hsub.
    apply sublist_length in Hsub. destruct its; [done|simpl in Hsub; lia].
Qed.

Lemma deleteItem_empty t item typ :
  bt_ok t -> contents t = [] -> deleteItem Less (E:=E) t item typ = Ret (t, None).
Proof.
  intros Hok Hc. unfold deleteItem, contents in *. destruct (bt_root t) as [n|] eqn:Hn; [|done].
  apply (root_empty t n Hok Hn) in Hc. by rewrite Hc.
Qed.

Lemma deleteItem_spec t item typ l1 mid l2 :
  bt_ok t -> contents t = l1 ++ option_list mid ++ l2 -> cut Less typ item l1 mid l2 ->
  exists t', deleteItem Less (E:=E) t item typ = Ret (t', mid)
    /\ bt_ok t' /\ contents t' = l1 ++ l2 /\ bt_degree t' = bt_degree t.
Proof.
  intros Hok Hc Hcut. destruct (contents t) as [|z l] eqn:Hct.
  { symmetry in Hc. apply app_eq_nil in Hc as [-> [Hm ->]%app_eq_nil]. destruct mid; [done|].
    exists t. split_and!; try done. by apply deleteItem_empty. }
  rewrite <- Hct in *. pose proof (ok_bounds t Hok) as Hbo. pose proof Hok as [Hd Hs Hl Hr].
  unfold deleteItem. unfold contents in * |-. destruct (bt_root t) as [n|] eqn:Hroot; [|done].
  destruct (Hr n eq_refl) as (h & Hw & Hne).
  assert (Hi : items n <> []) by (rewrite (root_empty t n Hok Hroot), Hct; done).
  rewrite decide_False by (by destruct (items n)).
  destruct (remove_spec (E:=E) Less _ _ Hbo h (fuel_of n) n typ item l1 mid l2)
    as (n1 & -> & Hio & Hw1 & _);
    [unfold fuel_of; rewrite (height_wf _ _ _ _ Hw); lia|done..|destruct (items n); [done|simpl; lia]|].
  destruct (shrink_root _ _ h n1 (bo_min _ _ Hbo) Hw1) as (h' & Hw2 & Hio2 & Hne2).
  cbn beta iota. eexists. split_and!; [done| |unfold contents; cbn [bt_root]; by rewrite Hio2|done].
  split; unfold contents; cbn [bt_root bt_degree bt_length]; [done|rewrite Hio2, Hio..|].
  - eapply sorted_sublist; [|exact Hs]. rewrite Hc. apply sublist_app; [done|]. by apply sublist_inserts_l.
  - rewrite Hl, Hc, !len_app. destruct mid as [y|].
    + change (len (option_list (Some y))) with 1. lia.
    + change (len (option_list None)) with 0. lia.
  - intros n' [= <-]. by exists h'.
Qed.

Lemma Delete_spec t x :
  bt_ok t ->
  exists t', Delete Less (E:=E) t x = Ret (t', find_same x (contents t))
    /\ bt_ok t' /\ contents t' = drop_same x (contents t) /\ bt_degree t' = bt_degree t.
Proof.
  intros Hok. destruct (parts_cut Less x _ (ok_sorted t Hok)) as [Hcut Hl].
  by apply (deleteItem_spec t (Some x) removeItem _ _ _ Hok Hl Hcut).
Qed.

Lemma DeleteMin_spec t :
  bt_ok t ->
  exists t', DeleteMin Less (E:=E) t = Ret (t', head (contents t))
    /\ bt_ok t' /\ contents t' = tail (contents t) /\ bt_degree t' = bt_degree t.
Proof.
  intros Hok. destruct (contents t) as [|y l] eqn:Hc.
  - exists t. split_and!; try done. by apply deleteItem_empty.
  - apply (deleteItem_spec t None removeMin [] (Some y) l Hok Hc). constructor.
Qed.
Lemma DeleteMax_spec t :
  bt_ok t ->
  exists t', DeleteMax Less (E:=E) t = Ret (t', list.last (contents t))
    /\ bt_ok t' /\ contents t' = removelast (contents t) /\ bt_degree t' = bt_degree t.
Proof.
  intros Hok. destruct (decide (contents t = [])) as [Hc|Hne].
  - rewrite Hc. exists t. split_and!; try done. by apply deleteItem_empty.
  - destruct (list_cut_last _ Hne) as (l & y & Hc). rewrite Hc, last_snoc, removelast_last.
    destruct (deleteItem_spec t None removeMax l (Some y) [] Hok) as (t' & ? & ? & Hc' & ?);
      [by rewrite Hc|constructor|]. exists t'. rewrite app_nil_r in Hc'. done.
Qed.

(** ** Lookups *)
Lemma root_fuel t n : bt_ok t -> bt_root t = Some n ->
  exists h, wf (minItems t) (maxItems t) h n /\ (h < fuel_of n)%nat /\ sorted Less (inorder n).
Proof.
  intros Hok Hn. destruct (ok_root t Hok n Hn) as (h & Hw & _). exists h.
  pose proof (ok_sorted t Hok) as Hs. unfold contents in Hs. rewrite Hn in Hs.
  split_and!; [done| |done]. unfold fuel_of. rewrite (height_wf _ _ _ _ Hw). lia.
Qed.

Lemma Get_spec t x : bt_ok t -> Get Less (E:=E) t x = Ret (find_same x (contents t)).
Proof.
  intros Hok. unfold Get, contents. destruct (bt_root t) as [n|] eqn:Hn; [|done].
  destruct (root_fuel t n Hok Hn) as (h & Hw & Hf & Hs). by eapply get_spec.
Qed.
Lemma Has_spec t x : bt_ok t ->
  Has Less (E:=E) t x = Ret (match find_same x (contents t) with None => false | Some _ => true end).
Proof. intros Hok. unfold Has. by rewrite Get_spec. Qed.
Lemma GetWithIndex_spec t x : bt_ok t ->
  GetWithIndex Less (E:=E) t x = Ret (find_same x (contents t), len (below Less x (contents t))).
Proof.
  intros Hok. unfold GetWithIndex, contents. destruct (bt_root t) as [n|] eqn:Hn; [|done].
  destruct (root_fuel t n Hok Hn) as (h & Hw & Hf & Hs). by eapply getWithIndex_spec.
Qed.
Lemma GetAt_spec t k : bt_ok t ->
  GetAt (E:=E) t k = Ret (if decide (0 <= k) then contents t !! Z.to_nat k else None).
Proof.
  intros Hok. unfold GetAt, contents. destruct (bt_root t) as [n|] eqn:Hn; [|by case_decide].
  destruct (root_fuel t n Hok Hn) as (h & Hw & Hf & _). by eapply getAt_spec.
Qed.
Lemma Min_Max_spec t : bt_ok t ->
  Min (E:=E) t = Ret (head (contents t)) /\ Max (E:=E) t = Ret (list.last (contents t)).
Proof.
  intros Hok. unfold Min, Max, contents. destruct (bt_root t) as [n|] eqn:Hn; [|done].
  destruct (root_fuel t n Hok Hn) as (h & Hw & Hf & _).
  pose proof (bo_min _ _ (ok_bounds t Hok)) as Hmn. split; [by eapply min_spec|by eapply max_spec].
Qed.

(** ** Iteration *)
Section Iteration.
Context {St : Type} (f : St -> Item -> St * bool) (st : St).

Lemma filter_and (p q : Item -> bool) l :
  List.filter p (List.filter q l) = List.filter (fun x => q x && p x) l.
Proof.
  induction l as [|x l IH]; [done|]. cbn. destruct (q x); cbn; [|done]. by destruct (p x); rewrite IH.
Qed.

Lemma sorted_rel (R : Item -> Item -> Prop) l :
  sorted Less l -> (forall x y, Less x y = true -> R x y) -> StronglySorted R l.
Proof.
  induction 1 as [|x l Hs IH Hx]; intros HR; constructor; [by apply IH|].
  eapply list.Forall_impl; [exact Hx|]. intros y Hy. by apply HR.
Qed.
Lemma sorted_rev_rel (R : Item -> Item -> Prop) l :
  sorted Less l -> (forall x y, Less x y = true -> R y x) -> StronglySorted R (rev l).
Proof.
  induction 1 as [|x l Hs IH Hx]; intros HR; [constructor|]. cbn. apply StronglySorted_app.
  split_and!; [|by apply IH|by repeat constructor].
  intros y z Hy%list_elem_of_In Hz%list_elem_of_singleton. subst z. apply in_rev in Hy.
  apply HR. rewrite list.Forall_forall in Hx. by apply Hx, list_elem_of_In.
Qed.

Lemma runIterate_ascend t start stop inc :
  bt_ok t -> (is_Some start -> inc = true) ->
  runIterate Less (E:=E) t ascend start stop inc f st
    = Ret (visit f st (List.filter (fun x => fromA Less start x && negb (stopA Less stop x)) (contents t))).
Proof.
  intros Hok Hinc. unfold runIterate, contents. destruct (bt_root t) as [n|] eqn:Hn; [|done].
  destruct (root_fuel t n Hok Hn) as (h & Hw & Hf & Hs).
  destruct (iterate_ascend (E:=E) Less _ _ f start stop inc Hinc h (fuel_of n) n false st Hf Hw Hs)
    as [hit ->]. f_equal. rewrite <- filter_and. apply run_visit.
  eapply sorted_rel; [eapply sorted_sublist; [|exact Hs]|].
  - apply filter_sublist.
  - intros x y Hxy. unfold stopA. destruct stop as [s|]; [|done]. intros Hx%negb_true_iff.
    apply negb_true_iff. destruct (Less y s) eqn:Hy; [|done].
    by rewrite (less_trans x y s Hxy Hy) in Hx.
Qed.

Lemma runIterate_descend t start stop inc :
  bt_ok t -> (is_Some start -> inc = true) ->
  runIterate Less (E:=E) t descend start stop inc f st
    = Ret (visit f st (rev (List.filter (fun x => fromD Less start x && negb (stopD Less stop x)) (contents t)))).
Proof.
  intros Hok Hinc. unfold runIterate, contents. destruct (bt_root t) as [n|] eqn:Hn; [|done].
  destruct (root_fuel t n Hok Hn) as (h & Hw & Hf & Hs).
  destruct (iterate_descend (E:=E) Less _ _ f start stop inc Hinc h (fuel_of n) n false st Hf Hw Hs)
    as (hit & -> & _); [done|]. f_equal. rewrite <- filter_and, <- filter_rev. apply run_visit.
  apply sorted_rev_rel; [eapply sorted_sublist; [apply filter_sublist|exact Hs]|].
  intros x y Hxy. unfold stopD. destruct stop as [s|]; [|done]. intros Hy%negb_true_iff.
  apply negb_true_iff. destruct (Less s x) eqn:Hx; [|done].
  by rewrite (less_trans s x y Hx Hxy) in Hy.
Qed.

(** What the tree's iterators pass to the iterator. *)
Lemma ascend_methods t a b :
  bt_ok t ->
  AscendRange Less (E:=E) t a b f st
    = Ret (visit f st (List.filter (fun x => negb (Less x a) && Less x b) (contents t)))
  /\ AscendLessThan Less (E:=E) t b f st = Ret (visit f st (below Less b (contents t)))
  /\ AscendGreaterOrEqual Less (E:=E) t a f st
    = Ret (visit f st (List.filter (fun x => negb (Less x a)) (contents t)))
  /\ Ascend Less (E:=E) t f st = Ret (visit f st (contents t)).
Proof.
  intros Hok. unfold AscendRange, AscendLessThan, AscendGreaterOrEqual, Ascend.
  rewrite !runIterate_ascend by (done || by intros [? [=]]). unfold fromA, stopA, below.
  split_and!; do 2 f_equal.
  - apply List.filter_ext. intros x. by rewrite negb_involutive.
  - apply List.filter_ext. intros x. by rewrite negb_involutive.
  - apply List.filter_ext. intros x. by rewrite andb_true_r.
  - apply filter_all. apply list.Forall_forall. done.
Qed.
Lemma descend_methods t a b :
  bt_ok t ->
  DescendRange Less (E:=E) t b a f st
    = Ret (visit f st (rev (List.filter (fun x => negb (Less b x) && Less a x) (contents t))))
  /\ DescendLessOrEqual Less (E:=E) t b f st
    = Ret (visit f st (rev (List.filter (fun x => negb (Less b x)) (contents t))))
  /\ DescendGreaterThan Less (E:=E) t a f st = Ret (visit f st (rev (above Less a (contents t))))
  /\ Descend Less (E:=E) t f st = Ret (visit f st (rev (contents t))).
Proof.
  intros Hok. unfold DescendRange, DescendLessOrEqual, DescendGreaterThan, Descend.
  rewrite !runIterate_descend by (done || by intros [? [=]]). unfold fromD, stopD, above.
  split_and!; do 3 f_equal.
  - apply List.filter_ext. intros x. by rewrite negb_involutive.
  - apply List.filter_ext. intros x. by rewrite andb_true_r.
  - apply List.filter_ext. intros x. by rewrite negb_involutive.
  - apply filter_all. apply list.Forall_forall. done.
Qed.
End Iteration.
(** ** Histories

    The calls on a tree, their answers (an item, a number), and the same calls on a
    sorted list. *)
Inductive call :=
  | CInsert (x : Item) | CDelete (x : Item) | CDeleteMin | CDeleteMax | CClear
  | CGet (x : Item) | CGetWithIndex (x : Item) | CGetAt (k : Z) | CMin | CMax | CLen.
Definition answer : Type := option Item * Z.

Definition bt_call t (c : call) : outcome E (BTree Item * answer) :=
  match c with
  | CInsert x => let! (t, out) := ReplaceOrInsert Less t x in Ret (t, (out, 0))
  | CDelete x => let! (t, out) := Delete Less t x in Ret (t, (out, 0))
  | CDeleteMin => let! (t, out) := DeleteMin Less t in Ret (t, (out, 0))
  | CDeleteMax => let! (t, out) := DeleteMax Less t in Ret (t, (out, 0))
  | CClear => Ret (Clear t, (None, 0))
  | CGet x => let! out := Get Less t x in Ret (t, (out, 0))
  | CGetWithIndex x => let! r := GetWithIndex Less t x in Ret (t, r)
  | CGetAt k => let! out := GetAt t k in Ret (t, (out, 0))
  | CMin => let! out := Min t in Ret (t, (out, 0))
  | CMax => let! out := Max t in Ret (t, (out, 0))
  | CLen => Ret (t, (None, Len t))
  end.
Fixpoint bt_run t (cs : list call) : outcome E (BTree Item * list answer) :=
  match cs with
  | [] => Ret (t, [])
  | c :: cs' =>
    let! (t, a) := bt_call t c in
    let! (t, rest) := bt_run t cs' in
    Ret (t, a :: rest)
  end.

Definition list_call l (c : call) : list Item * answer :=
  match c with
  | CInsert x => (put x l, (find_same x l, 0))
  | CDelete x => (drop_same x l, (find_same x l, 0))
  | CDeleteMin => (tail l, (head l, 0))
  | CDeleteMax => (removelast l, (list.last l, 0))
  | CClear => ([], (None, 0))
  | CGet x => (l, (find_same x l, 0))
  | CGetWithIndex x => (l, (find_same x l, len (below Less x l)))
  | CGetAt k => (l, (if decide (0 <= k) then l !! Z.to_nat k else None, 0))
  | CMin => (l, (head l, 0))
  | CMax => (l, (list.last l, 0))
  | CLen => (l, (None, len l))
  end.
Fixpoint list_run l (cs : list call) : list Item * list answer :=
  match cs with
  | [] => (l, [])
  | c :: cs' =>
    let '(l, a) := list_call l c in
    let '(l, rest) := list_run l cs' in
    (l, a :: rest)
  end.

Lemma bt_call_spec t c :
  bt_ok t ->
  exists t', bt_call t c = Ret (t', snd (list_call (contents t) c))
    /\ bt_ok t' /\ contents t' = fst (list_call (contents t) c).
Proof.
  intros Hok. destruct c as [x|x| | | |x|x|k| | |]; cbn [bt_call list_call fst snd].
  - destruct (ReplaceOrInsert_spec t x Hok) as (t' & -> & ? & ? & _). by exists t'.
  - destruct (Delete_spec t x Hok) as (t' & -> & ? & ? & _). by exists t'.
  - destruct (DeleteMin_spec t Hok) as (t' & -> & ? & ? & _). by exists t'.
  - destruct (DeleteMax_spec t Hok) as (t' & -> & ? & ? & _). by exists t'.
  - exists (Clear t). split_and!; [done| |done].
    split; [apply Hok|constructor|done|done].
  - rewrite Get_spec by done. by exists t.
  - rewrite GetWithIndex_spec by done. by exists t.
  - rewrite GetAt_spec by done. by exists t.
  - rewrite (proj1 (Min_Max_spec t Hok)). by exists t.
  - rewrite (proj2 (Min_Max_spec t Hok)). by exists t.
  - exists t. split_and!; [|done..]. unfold Len. by rewrite (ok_length t Hok).
Qed.

Lemma bt_run_spec cs : forall t,
  bt_ok t ->
  exists t', bt_run t cs = Ret (t', snd (list_run (contents t) cs))
    /\ bt_ok t' /\ contents t' = fst (list_run (contents t) cs).
Proof.
  induction cs as [|c cs IH]; intros t Hok; cbn [bt_run list_run]; [by exists t|].
  destruct (bt_call_spec t c Hok) as (t1 & -> & Hok1 & Hc1).
  destruct (list_call (contents t) c) as [l1 a]. cbn [fst snd] in *. subst l1.
  destruct (IH t1 Hok1) as (t2 & -> & Hok2 & Hc2).
  destruct (list_run (contents t1) cs) as [l2 rest]. by exists t2.
Qed.
End Tree.

(** ** Properties *)

#[export] Instance Z_ltb_order : StrictWeakOrder Z.ltb.
Proof. split; intros; lia. Qed.

(** C17. Every history of calls on a new B-tree of degree at least 2 runs without a
    panic and answers each call as the sorted list does: insertion and deletion by
    key, of the first and of the last item, lookup by key, by position and with the
    rank of a key, minimum, maximum and length. *)
Theorem btree_refines_sorted_list {E Item} (Less : Item -> Item -> bool)
    (Hless : StrictWeakOrder Less) (d : nat) (cs : list call) :
  (2 <= d)%nat ->
  exists t, (let! t := New d in bt_run (E:=E) Less t cs) = Ret (t, snd (list_run Less [] cs))
    /\ contents t = fst (list_run Less [] cs).
Proof.
  intros Hd. destruct (New_ok (E:=E) Less d Hd) as [-> Hok].
  destruct (bt_run_spec (E:=E) Less cs _ Hok) as (t & Hr & _ & Hc). by exists t.
Qed.

Definition sample_calls : list call :=
  map CInsert [5; 3; 8; 1; 4; 7; 9; 2; 6; 0]
    ++ [CGetWithIndex 6; CDelete 4; CDelete 4; CDeleteMin; CDeleteMax; CGetAt 2; CMin; CMax; CLen].
Lemma btree_refines_sorted_list_witness :
  exists t, (let! t := New 2 in bt_run (E:=unit) Z.ltb t sample_calls)
      = Ret (t, snd (list_run Z.ltb [] sample_calls))
    /\ contents t = fst (list_run Z.ltb [] sample_calls).
Proof. apply (btree_refines_sorted_list Z.ltb Z_ltb_order 2 sample_calls). lia. Defined.

(** A B-tree of degree [d] is balanced after any history of calls: its items are
    sorted without duplicates, all leaves are at the same depth, every node but the
    root has at least [d - 1] items, no node has more than [2 * d - 1], an inner node
    has one child more than items and the ranks of its items, and [Len] is the number
    of items. *)
Theorem btree_balanced {E Item} (Less : Item -> Item -> bool)
    (Hless : StrictWeakOrder Less) (d : nat) (cs : list call) t answers :
  (2 <= d)%nat ->
  (let! t := New d in bt_run (E:=E) Less t cs) = Ret (t, answers) ->
  bt_ok Less t.
Proof.
  intros Hd. destruct (New_ok (E:=E) Less d Hd) as [-> Hok].
  destruct (bt_run_spec (E:=E) Less cs _ Hok) as (t' & -> & Hok' & _). by intros [= <- _].
Qed.

Lemma btree_balanced_witness :
  match (let! t := New 2 in bt_run (E:=unit) Z.ltb t sample_calls) with
  | Ret (t, _) => bt_ok Z.ltb t
  | _ => False
  end.
Proof.
  destruct (let! t := New 2 in bt_run (E:=unit) Z.ltb t sample_calls) as [[t answers]| | |] eqn:He;
    [|by vm_compute in He..].
  apply (btree_balanced (E:=unit) Z.ltb Z_ltb_order 2 sample_calls t answers); [lia|exact He].
Defined.

(** The iterators of a balanced tree call the iterator on exactly the items of
    their range, in ascending or descending order, and stop when it says so. *)
Theorem btree_iterators {E Item St} (Less : Item -> Item -> bool) (Hless : StrictWeakOrder Less)
    (t : BTree Item) (f : St -> Item -> St * bool) (st : St) (a b : Item) :
  bt_ok Less t ->
  let items_where p := List.filter p (contents t) in
  AscendRange Less (E:=E) t a b f st
    = Ret (visit f st (items_where (fun x => negb (Less x a) && Less x b)))
  /\ AscendLessThan Less (E:=E) t b f st = Ret (visit f st (items_where (fun x => Less x b)))
  /\ AscendGreaterOrEqual Less (E:=E) t a f st
    = Ret (visit f st (items_where (fun x => negb (Less x a))))
  /\ Ascend Less (E:=E) t f st = Ret (visit f st (contents t))
  /\ DescendRange Less (E:=E) t b a f st
    = Ret (visit f st (rev (items_where (fun x => negb (Less b x) && Less a x))))
  /\ DescendLessOrEqual Less (E:=E) t b f st
    = Ret (visit f st (rev (items_where (fun x => negb (Less b x)))))
  /\ DescendGreaterThan Less (E:=E) t a f st
    = Ret (visit f st (rev (items_where (fun x => Less a x))))
  /\ Descend Less (E:=E) t f st = Ret (visit f st (rev (contents t))).
Proof.
  intros Hok items_where. destruct (ascend_methods (E:=E) Less f st t a b Hok) as (? & ? & ? & ?).
  destruct (descend_methods (E:=E) Less f st t a b Hok) as (? & ? & ? & ?). done.
Qed.

(** The first three items from 1 to 7, of a tree of two items. *)
Definition collect3 (st : list Z) (x : Z) : list Z * bool :=
  (st ++ [x], (length st <? 2)%nat).
Definition sample_tree : BTree Z := mkBTree 2 2 (Some (mkNode [3; 5] [] [])).
Lemma sample_tree_ok : bt_ok Z.ltb sample_tree.
Proof.
  split; cbn; [lia| |done|].
  - repeat constructor.
  - intros n [= <-]. exists 0%nat. split; [|done]. apply leaf_wf. cbn. lia.
Qed.
Lemma btree_iterators_witness :
  AscendRange Z.ltb (E:=unit) sample_tree 1 7 collect3 []
    = Ret (visit collect3 [] (List.filter (fun x => negb (x <? 1) && (x <? 7)) (contents sample_tree))).
Proof.
  apply (btree_iterators Z.ltb Z_ltb_order sample_tree collect3 [] 1 7 sample_tree_ok).
Defined.
