(* ===== verification/Metapb.v ===== *)
(** * Metapb: peers, epochs and regions

    The messages of [metapb] that the scheduler and the raftstore share, and the
    order of keys: [bytes.Compare] of the standard library. *)

From stdpp Require Import base option list tactics.
From S2P Require Import Prelude.

Record Peer := mkPeer {
  p_Id : Z;
  p_StoreId : Z;
}.
#[export] Instance set_p_Id : Setter p_Id := fun g p =>
  mkPeer (g (p_Id p)) (p_StoreId p).
#[export] Instance set_p_StoreId : Setter p_StoreId := fun g p =>
  mkPeer (p_Id p) (g (p_StoreId p)).

(** The getters of a nil pointer return zero. *)
Definition GetId (p : option Peer) : Z := match p with Some p => p_Id p | None => 0 end.
Definition GetStoreId (p : option Peer) : Z := match p with Some p => p_StoreId p | None => 0 end.

Record RegionEpoch := mkEpoch {
  ep_ConfVer : Z;
  ep_Version : Z;
}.
#[export] Instance set_ep_ConfVer : Setter ep_ConfVer := fun g e =>
  mkEpoch (g (ep_ConfVer e)) (ep_Version e).
#[export] Instance set_ep_Version : Setter ep_Version := fun g e =>
  mkEpoch (ep_ConfVer e) (g (ep_Version e)).

Record Region := mkRegion {
  rg_Id : Z;
  rg_StartKey : list Z;
  rg_EndKey : list Z;
  rg_RegionEpoch : option RegionEpoch;
  rg_Peers : list Peer;
}.
#[export] Instance set_rg_Id : Setter rg_Id := fun g r =>
  mkRegion (g (rg_Id r)) (rg_StartKey r) (rg_EndKey r) (rg_RegionEpoch r) (rg_Peers r).
#[export] Instance set_rg_StartKey : Setter rg_StartKey := fun g r =>
  mkRegion (rg_Id r) (g (rg_StartKey r)) (rg_EndKey r) (rg_RegionEpoch r) (rg_Peers r).
#[export] Instance set_rg_EndKey : Setter rg_EndKey := fun g r =>
  mkRegion (rg_Id r) (rg_StartKey r) (g (rg_EndKey r)) (rg_RegionEpoch r) (rg_Peers r).
#[export] Instance set_rg_RegionEpoch : Setter rg_RegionEpoch := fun g r =>
  mkRegion (rg_Id r) (rg_StartKey r) (rg_EndKey r) (g (rg_RegionEpoch r)) (rg_Peers r).
#[export] Instance set_rg_Peers : Setter rg_Peers := fun g r =>
  mkRegion (rg_Id r) (rg_StartKey r) (rg_EndKey r) (rg_RegionEpoch r) (g (rg_Peers r)).

Definition zero_Region : Region := mkRegion 0 [] [] None [].

#[export] Instance Peer_eq_dec : EqDecision Peer.
Proof. solve_decision. Defined.
#[export] Instance RegionEpoch_eq_dec : EqDecision RegionEpoch.
Proof. solve_decision. Defined.
#[export] Instance Region_eq_dec : EqDecision Region.
Proof. solve_decision. Defined.

(** ** [bytes.Compare] *)
Definition Compare (a b : list Z) : Z :=
  match bytes_compare a b with Lt => -1 | Eq => 0 | Gt => 1 end.

(** [a] comes before [b]. *)
Definition key_lt (a b : list Z) : bool := Compare a b <? 0.

Lemma bytes_compare_antisym a : forall b, bytes_compare b a = CompOpp (bytes_compare a b).
Proof.
  induction a as [|x a IH]; intros [|y b]; cbn; try done.
  rewrite (Z.compare_antisym x y). destruct (x ?= y); cbn; [apply IH|done|done].
Qed.
Lemma bytes_compare_lt_trans a : forall b c,
  bytes_compare a b = Lt -> bytes_compare b c = Lt -> bytes_compare a c = Lt.
Proof.
  induction a as [|x a IH]; intros [|y b] [|z c]; cbn; try done.
  destruct (Z.compare_spec x y) as [->|Hxy|Hxy]; [|intros _|done].
  - destruct (y ?= z); [apply IH|done|done].
  - destruct (Z.compare_spec y z) as [->|Hyz|Hyz]; intros H; try done.
    + by rewrite (proj2 (Z.compare_lt_iff x z)).
    + by rewrite (proj2 (Z.compare_lt_iff x z)) by lia.
Qed.

Lemma key_lt_irrefl a : key_lt a a = false.
Proof. unfold key_lt, Compare. by rewrite bytes_compare_refl. Qed.
Lemma key_lt_trans a b c : key_lt a b = true -> key_lt b c = true -> key_lt a c = true.
Proof.
  unfold key_lt, Compare. destruct (bytes_compare a b) eqn:H1; try done.
  destruct (bytes_compare b c) eqn:H2; try done. by rewrite (bytes_compare_lt_trans _ _ _ H1 H2).
Qed.
Lemma key_lt_total a b : key_lt a b = false -> key_lt b a = false -> a = b.
Proof.
  unfold key_lt, Compare. rewrite (bytes_compare_antisym a b).
  destruct (bytes_compare a b) eqn:H; cbn; try done. intros _ _. by apply bytes_compare_eq.
Qed.
Lemma key_lt_nil a : key_lt a [] = false.
Proof. by destruct a. Qed.
Lemma key_lt_asym a b : key_lt a b = true -> key_lt b a = false.
Proof.
  intros H. destruct (key_lt b a) eqn:H'; [|done].
  pose proof (key_lt_trans a b a H H') as Ht. by rewrite key_lt_irrefl in Ht.
Qed.
(** Comparisons the code writes differently. *)
Lemma key_le_lt_trans a b c : key_lt b a = false -> key_lt b c = true -> key_lt a c = true.
Proof.
  intros Hba Hbc. destruct (key_lt a b) eqn:Hab; [by eapply key_lt_trans|].
  by rewrite (key_lt_total a b Hab Hba).
Qed.
Lemma key_lt_le_trans a b c : key_lt a b = true -> key_lt c b = false -> key_lt a c = true.
Proof.
  intros Hab Hcb. destruct (key_lt b c) eqn:Hbc; [by eapply key_lt_trans|].
  by rewrite <- (key_lt_total b c Hbc Hcb).
Qed.
Lemma key_le_trans a b c : key_lt b a = false -> key_lt c b = false -> key_lt c a = false.
Proof.
  intros Hba Hcb. destruct (key_lt c a) eqn:H; [|done].
  by rewrite (key_lt_le_trans c a b H Hba) in Hcb.
Qed.
Lemma Compare_ge a b : (Compare a b >=? 0) = negb (key_lt a b).
Proof. unfold key_lt, Compare. by destruct (bytes_compare a b). Qed.
Lemma Compare_le a b : (Compare a b <=? 0) = negb (key_lt b a).
Proof. unfold key_lt, Compare. rewrite (bytes_compare_antisym a b). by destruct (bytes_compare a b). Qed.
Lemma Compare_gt a b : (Compare a b >? 0) = key_lt b a.
Proof. unfold key_lt, Compare. rewrite (bytes_compare_antisym a b). by destruct (bytes_compare a b). Qed.
