(* ===== verification/RegionInfo.v ===== *)
(** * RegionInfo: what the scheduler knows of a region

    [RegionInfo] of [scheduler/server/core/region.go] and the options of
    [region_option.go].  A [RegionInfo] is read-only once created, so a pointer to
    one is a value here; [Clone] copies deeply, and a value is its own copy.  The
    constructors read [meta.Peers], so [meta] is never nil. *)

From stdpp Require Import base option list gmap tactics.
From S2P Require Import Prelude.
From S2P Require Import Metapb.

Record RegionInfo := mkRegionInfo {
  ri_meta : Region;
  ri_learners : list Peer;
  ri_voters : list Peer;
  ri_leader : option Peer;
  ri_pendingPeers : list Peer;
  ri_approximateSize : Z;
}.
#[export] Instance set_ri_meta : Setter ri_meta := fun g r =>
  mkRegionInfo (g (ri_meta r)) (ri_learners r) (ri_voters r) (ri_leader r) (ri_pendingPeers r) (ri_approximateSize r).
#[export] Instance set_ri_learners : Setter ri_learners := fun g r =>
  mkRegionInfo (ri_meta r) (g (ri_learners r)) (ri_voters r) (ri_leader r) (ri_pendingPeers r) (ri_approximateSize r).
#[export] Instance set_ri_voters : Setter ri_voters := fun g r =>
  mkRegionInfo (ri_meta r) (ri_learners r) (g (ri_voters r)) (ri_leader r) (ri_pendingPeers r) (ri_approximateSize r).
#[export] Instance set_ri_leader : Setter ri_leader := fun g r =>
  mkRegionInfo (ri_meta r) (ri_learners r) (ri_voters r) (g (ri_leader r)) (ri_pendingPeers r) (ri_approximateSize r).
#[export] Instance set_ri_pendingPeers : Setter ri_pendingPeers := fun g r =>
  mkRegionInfo (ri_meta r) (ri_learners r) (ri_voters r) (ri_leader r) (g (ri_pendingPeers r)) (ri_approximateSize r).
#[export] Instance set_ri_approximateSize : Setter ri_approximateSize := fun g r =>
  mkRegionInfo (ri_meta r) (ri_learners r) (ri_voters r) (ri_leader r) (ri_pendingPeers r) (g (ri_approximateSize r)).


#[export] Instance RegionInfo_eq_dec : EqDecision RegionInfo.
Proof. solve_decision. Defined.

(** ** Options *)
Definition RegionOption : Type := RegionInfo -> bool.
Definition HealthRegion : RegionOption := fun region =>
  (len (ri_pendingPeers region) =? 0) && (len (ri_learners region) =? 0).
Definition HealthRegionAllowPending : RegionOption := fun region =>
  len (ri_learners region) =? 0.

Definition RegionCreateOption : Type := RegionInfo -> RegionInfo.
Definition WithPendingPeers (pendingPeers : list Peer) : RegionCreateOption := fun region =>
  region <| ri_pendingPeers := pendingPeers |>.
Definition WithLeader (leader : option Peer) : RegionCreateOption := fun region =>
  region <| ri_leader := leader |>.
Definition WithLearners (learner : list Peer) : RegionCreateOption := fun region =>
  region <| ri_learners := ri_learners region ++ learner |>.
Definition WithStartKey (key : list Z) : RegionCreateOption := fun region =>
  region <| ri_meta := (ri_meta region) <| rg_StartKey := key |> |>.
Definition WithEndKey (key : list Z) : RegionCreateOption := fun region =>
  region <| ri_meta := (ri_meta region) <| rg_EndKey := key |> |>.
Definition WithIncVersion : RegionCreateOption := fun region =>
  match rg_RegionEpoch (ri_meta region) with
  | None => region
  | Some e =>
    region <| ri_meta := (ri_meta region) <| rg_RegionEpoch := Some (e <| ep_Version := ep_Version e ⊞ 1 |>) |> |>
  end.
Definition WithIncConfVer : RegionCreateOption := fun region =>
  match rg_RegionEpoch (ri_meta region) with
  | None => region
  | Some e =>
    region <| ri_meta := (ri_meta region) <| rg_RegionEpoch := Some (e <| ep_ConfVer := ep_ConfVer e ⊞ 1 |>) |> |>
  end.
Definition WithRemoveStorePeer (storeID : Z) : RegionCreateOption := fun region =>
  region <| ri_meta := (ri_meta region)
    <| rg_Peers := List.filter (fun peer => negb (p_StoreId peer =? storeID)) (rg_Peers (ri_meta region)) |> |>.
Definition SetApproximateSize (v : Z) : RegionCreateOption := fun region =>
  region <| ri_approximateSize := v |>.
Definition SetPeers (peers : list Peer) : RegionCreateOption := fun region =>
  region <| ri_meta := (ri_meta region) <| rg_Peers := peers |> |>.
Definition WithAddPeer (peer : Peer) : RegionCreateOption := fun region =>
  region <| ri_meta := (ri_meta region) <| rg_Peers := rg_Peers (ri_meta region) ++ [peer] |> |>
         <| ri_voters := ri_voters region ++ [peer] |>.

(** ** Construction *)
Definition classifyVoterAndLearner (region : RegionInfo) : RegionInfo :=
  region <| ri_voters := foldl (fun voters p => voters ++ [p]) [] (rg_Peers (ri_meta region)) |>.

Definition NewRegionInfo (region : Region) (leader : option Peer) (opts : list RegionCreateOption)
    : RegionInfo :=
  let regionInfo := mkRegionInfo region [] [] leader [] 0 in
  let regionInfo := foldl (fun r opt => opt r) regionInfo opts in
  classifyVoterAndLearner regionInfo.

Definition EmptyRegionApproximateSize : Z := 1.

(** The fields of [RegionHeartbeatRequest] that are read; [ApproximateSize] is a [uint64]. *)
Record RegionHeartbeatRequest := mkHeartbeat {
  hb_Region : option Region;
  hb_Leader : option Peer;
  hb_PendingPeers : list Peer;
  hb_ApproximateSize : Z;
}.
Definition RegionFromHeartbeat {E} (heartbeat : RegionHeartbeatRequest) : outcome E RegionInfo :=
  let regionSize := hb_ApproximateSize heartbeat / 2 ^ 20 in
  let regionSize := if regionSize <? EmptyRegionApproximateSize then EmptyRegionApproximateSize
                    else regionSize in
  let! meta := deref (hb_Region heartbeat) in
  Ret (classifyVoterAndLearner
         (mkRegionInfo meta [] [] (hb_Leader heartbeat) (hb_PendingPeers heartbeat) (int64 regionSize))).

(** [Clone] drops the learners: they are not copied. *)
Definition Clone (r : RegionInfo) (opts : list RegionCreateOption) : RegionInfo :=
  let region := mkRegionInfo (ri_meta r) [] [] (ri_leader r) (ri_pendingPeers r) (ri_approximateSize r) in
  classifyVoterAndLearner (foldl (fun r opt => opt r) region opts).

(** ** Getters *)
Definition GetLearners (r : RegionInfo) : list Peer := ri_learners r.
Definition GetVoters (r : RegionInfo) : list Peer := ri_voters r.
Definition GetPeer (r : RegionInfo) (peerID : Z) : option Peer :=
  List.find (fun peer => p_Id peer =? peerID) (rg_Peers (ri_meta r)).
Definition GetDownLearner (r : RegionInfo) (peerID : Z) : option Peer := None.
Definition GetPendingPeer (r : RegionInfo) (peerID : Z) : option Peer :=
  List.find (fun peer => p_Id peer =? peerID) (ri_pendingPeers r).
Definition GetPendingVoter (r : RegionInfo) (peerID : Z) : option Peer :=
  List.find (fun peer => p_Id peer =? peerID) (ri_pendingPeers r).
Definition GetPendingLearner (r : RegionInfo) (peerID : Z) : option Peer := None.
Definition GetStorePeer (r : RegionInfo) (storeID : Z) : option Peer :=
  List.find (fun peer => p_StoreId peer =? storeID) (rg_Peers (ri_meta r)).
Definition GetStoreVoter (r : RegionInfo) (storeID : Z) : option Peer :=
  List.find (fun peer => p_StoreId peer =? storeID) (ri_voters r).
Definition GetStoreLearner (r : RegionInfo) (storeID : Z) : option Peer :=
  List.find (fun peer => p_StoreId peer =? storeID) (ri_learners r).
Definition GetStoreIds (r : RegionInfo) : gset Z :=
  foldl (fun stores peer => {[p_StoreId peer]} ∪ stores) ∅ (rg_Peers (ri_meta r)).

(** [r.leader == nil || r.leader.GetId() != peer.GetId()]. *)
Definition isFollower (r : RegionInfo) (peer : Peer) : bool :=
  match ri_leader r with None => true | Some l => negb (p_Id l =? p_Id peer) end.
Definition GetFollowers (r : RegionInfo) : gmap Z Peer :=
  foldl (fun followers peer =>
           if isFollower r peer then <[p_StoreId peer := peer]> followers else followers)
    ∅ (GetVoters r).
Definition GetFollower (r : RegionInfo) : option Peer := List.find (isFollower r) (GetVoters r).
(** The order of the answer is the iteration order of a Go map, which is arbitrary. *)
Definition GetDiffFollowers (r other : RegionInfo) : list Peer :=
  List.filter (fun p => negb (existsb (fun o => p_StoreId p =? p_StoreId o)
                                (map snd (map_to_list (GetFollowers other)))))
    (map snd (map_to_list (GetFollowers r))).

Definition GetID (r : RegionInfo) : Z := rg_Id (ri_meta r).
Definition GetMeta (r : RegionInfo) : Region := ri_meta r.
Definition GetApproximateSize (r : RegionInfo) : Z := ri_approximateSize r.
Definition GetPendingPeers (r : RegionInfo) : list Peer := ri_pendingPeers r.
Definition GetLeader (r : RegionInfo) : option Peer := ri_leader r.
Definition GetStartKey (r : RegionInfo) : list Z := rg_StartKey (ri_meta r).
Definition GetEndKey (r : RegionInfo) : list Z := rg_EndKey (ri_meta r).
Definition GetPeers (r : RegionInfo) : list Peer := rg_Peers (ri_meta r).
Definition GetRegionEpoch (r : RegionInfo) : option RegionEpoch := rg_RegionEpoch (ri_meta r).

(** ** Facts *)

Lemma foldl_snoc {A} (l : list A) : forall acc, foldl (fun v p => v ++ [p]) acc l = acc ++ l.
Proof.
  induction l as [|p l IH]; intros acc; cbn; [by rewrite app_nil_r|]. by rewrite IH, <- app_assoc.
Qed.
Lemma classify_voters r : ri_voters (classifyVoterAndLearner r) = rg_Peers (ri_meta r).
Proof. unfold classifyVoterAndLearner. cbn. by rewrite foldl_snoc. Qed.

(** A region without learners is its own clone. *)
Lemma Clone_same r :
  ri_voters r = rg_Peers (ri_meta r) -> ri_learners r = [] -> Clone r [] = r.
Proof.
  intros Hv Hl. unfold Clone, classifyVoterAndLearner. cbn. rewrite foldl_snoc. cbn.
  destruct r. cbn in *. by subst.
Qed.

(** The followers by store: each store's last voter that is not the leader. *)
Lemma GetFollowers_lookup r s p :
  GetFollowers r !! s = Some p -> p ∈ ri_voters r /\ p_StoreId p = s /\ isFollower r p = true.
Proof.
  unfold GetFollowers, GetVoters.
  assert (H : forall l (m : gmap Z Peer), (forall s p, m !! s = Some p -> p ∈ ri_voters r /\ p_StoreId p = s /\ isFollower r p = true) ->
    (forall q, q ∈ l -> q ∈ ri_voters r) ->
    forall s p, foldl (fun followers peer =>
           if isFollower r peer then <[p_StoreId peer := peer]> followers else followers) m l !! s = Some p ->
      p ∈ ri_voters r /\ p_StoreId p = s /\ isFollower r p = true).
  { induction l as [|q l IH]; intros m Hm Hl s' p' Hs; cbn in Hs; [by apply Hm|].
    eapply IH; [| |exact Hs].
    - intros s'' p'' Hs''. destruct (isFollower r q) eqn:Hq; [|by apply Hm].
      apply lookup_insert_Some in Hs'' as [[<- <-]|[_ Hs'']]; [|by apply Hm].
      split_and!; [apply Hl; by apply list_elem_of_here|done|done].
    - intros q' Hq'. apply Hl. by apply list_elem_of_further. }
  apply H; [|done]. intros ? ? Hlk. by rewrite lookup_empty in Hlk.
Qed.
