(* ===== verification/RegionTree.v ===== *)
(** * RegionTree: the regions of the cluster by start key

    [scheduler/server/core/region_tree.go]: a B-tree of regions ordered by start
    key.  A [regionItem] only wraps the pointer to its region, so an item is the
    region here.  [rand.Intn] is a parameter. *)

From stdpp Require Import base option sets list sorting tactics.
From S2P Require Import Prelude.
From S2P Require Import BTree.
From S2P Require Import Metapb.
From S2P Require Import RegionInfo.

(** [regionItem.Less] and [Contains]. *)
Definition Less (r other : RegionInfo) : bool :=
  Compare (GetStartKey r) (GetStartKey other) <? 0.
Definition Contains (r : RegionInfo) (key : list Z) : bool :=
  (Compare key (GetStartKey r) >=? 0)
  && ((len (GetEndKey r) =? 0) || (Compare key (GetEndKey r) <? 0)).

Definition defaultBTreeDegree : nat := 64.

(** [&RegionInfo{meta: &metapb.Region{StartKey: key}}]. *)
Definition keyRegion (key : list Z) : RegionInfo :=
  mkRegionInfo (zero_Region <| rg_StartKey := key |>) [] [] None [] 0.

Record regionTree := mkRegionTree { rt_tree : BTree RegionInfo }.

Module rtree.
Section Methods.
Context {E : Type}.
Implicit Types (t : regionTree) (region : RegionInfo).

Definition newRegionTree : outcome E regionTree :=
  let! tree := New defaultBTreeDegree in Ret (mkRegionTree tree).

Definition length t : Z := Len (rt_tree t).

(** The last region that starts at or before the key, if it contains the key. *)
Definition find t region : outcome E (option RegionInfo) :=
  let! result := DescendLessOrEqual Less (rt_tree t) region (fun _ i => (Some i, false)) None in
  Ret (match result with
       | Some r => if Contains r (GetStartKey region) then Some r else None
       | None => None
       end).

Definition getOverlaps t region : outcome E (list RegionInfo) :=
  let! result := find t region in
  let result := match result with None => region | Some r => r end in
  AscendGreaterOrEqual Less (rt_tree t) result
    (fun overlaps over =>
       if (len (GetEndKey region) >? 0) && (Compare (GetEndKey region) (GetStartKey over) <=? 0)
       then (overlaps, false)
       else (overlaps ++ [over], true)) [].

Definition update t region : outcome E (regionTree * list RegionInfo) :=
  let! overlaps := getOverlaps t region in
  let! tree := foldM (fun tree item => let! (tree, _) := Delete Less tree item in Ret tree)
                 (rt_tree t) overlaps in
  let! (tree, _) := ReplaceOrInsert Less tree region in
  Ret (mkRegionTree tree, overlaps).

Definition remove t region : outcome E regionTree :=
  if length t =? 0 then Ret t else
  let! result := find t region in
  match result with
  | None => Ret t
  | Some r =>
    if negb (GetID r =? GetID region) then Ret t else
    let! (tree, _) := Delete Less (rt_tree t) r in
    Ret (mkRegionTree tree)
  end.

Definition search t (regionKey : list Z) : outcome E (option RegionInfo) :=
  find t (keyRegion regionKey).

(** The first region after, and the last before, the start key. *)
Definition getAdjacentRegions t region : outcome E (option RegionInfo * option RegionInfo) :=
  let item := keyRegion (GetStartKey region) in
  let adjacent := fun (found : option RegionInfo) (i : RegionInfo) =>
    if bool_decide (GetStartKey item = GetStartKey i) then (found, true) else (Some i, false) in
  let! next := AscendGreaterOrEqual Less (rt_tree t) item adjacent None in
  let! prev := DescendLessOrEqual Less (rt_tree t) item adjacent None in
  Ret (prev, next).

Definition searchPrev t (regionKey : list Z) : outcome E (option RegionInfo) :=
  let! curRegionItem := find t (keyRegion regionKey) in
  match curRegionItem with
  | None => Ret None
  | Some cur =>
    let! (prev, _) := getAdjacentRegions t cur in
    Ret (match prev with
         | None => None
         | Some p => if bool_decide (GetEndKey p = GetStartKey cur) then Some p else None
         end)
  end.

Definition scanRange {St} t (startKey : list Z) (f : St -> RegionInfo -> St * bool) (st : St)
    : outcome E St :=
  let! startItem := find t (keyRegion startKey) in
  let startItem := match startItem with None => keyRegion startKey | Some r => r end in
  AscendGreaterOrEqual Less (rt_tree t) startItem f st.

Definition RandomRegion (Intn : Z -> Z) t (startKey endKey : list Z) : outcome E (option RegionInfo) :=
  if length t =? 0 then Ret None else
  let! (startRegion, startIndex) := GetWithIndex Less (rt_tree t) (keyRegion startKey) in
  let! endIndex := (if negb (len endKey =? 0) then
                      let! (_, i) := GetWithIndex Less (rt_tree t) (keyRegion endKey) in Ret i
                    else Ret (Len (rt_tree t))) in
  let! startIndex :=
    (if negb (startIndex =? 0) && isNil startRegion then
       let! prev := GetAt (rt_tree t) (startIndex - 1) in
       let! prev := deref prev in
       Ret (if Contains prev startKey then startIndex - 1 else startIndex)
     else Ret startIndex) in
  if endIndex <=? startIndex then Ret None else
  let index := Intn (endIndex - startIndex) + startIndex in
  let! item := GetAt (rt_tree t) index in
  let! item := deref item in
  Ret (Some item).

End Methods.
End rtree.
