(* ===== verification/RegionTreeProps.v ===== *)
(** * RegionTreeProps: the region tree keeps disjoint regions

    The regions of a tree are disjoint ([tree_ok]); [find] and [search] return the
    one region that contains a key, [getOverlaps] exactly the regions that intersect
    another, and [update] replaces these by the new region. *)

From stdpp Require Import base option sets list sorting tactics.
From S2P Require Import Prelude.
From S2P Require Import BTree.
From S2P Require Import BTreeFacts.
From S2P Require Import BTreeShape.
From S2P Require Import BTreeIter.
From S2P Require Import BTreeProps.
From S2P Require Import Metapb.
From S2P Require Import RegionInfo.
From S2P Require Import RegionTree.

(** ** Ranges *)

#[export] Instance Less_order : StrictWeakOrder Less.
Proof.
  split.
  - intros x. apply key_lt_irrefl.
  - intros x y z. apply key_lt_trans.
  - intros x y z. change (key_lt (GetStartKey x) (GetStartKey z) = true ->
      key_lt (GetStartKey x) (GetStartKey y) = true \/ key_lt (GetStartKey y) (GetStartKey z) = true).
    destruct (key_lt (GetStartKey x) (GetStartKey y)) eqn:Hxy; [by left|].
    intros Hxz. right. by eapply key_le_lt_trans.
Qed.
Lemma Less_key x y : Less x y = key_lt (GetStartKey x) (GetStartKey y).
Proof. done. Qed.

(** Nothing of [a] is at or after the start of [b]. *)
Definition before (a b : RegionInfo) : bool :=
  (len (GetEndKey a) >? 0) && (Compare (GetEndKey a) (GetStartKey b) <=? 0).
Definition overlaps (a b : RegionInfo) : bool := negb (before a b) && negb (before b a).
Definition valid (r : RegionInfo) : Prop :=
  GetEndKey r = [] \/ key_lt (GetStartKey r) (GetEndKey r) = true.

Lemma len_gt0 {A} (l : list A) : (len l >? 0) = negb (len l =? 0).
Proof. pose proof (len_nonneg l). destruct (Z.gtb_spec (len l) 0), (Z.eqb_spec (len l) 0); try done; lia. Qed.
Lemma before_spec a b :
  before a b = negb (len (GetEndKey a) =? 0) && negb (key_lt (GetStartKey b) (GetEndKey a)).
Proof. unfold before. by rewrite Compare_le, len_gt0. Qed.
Lemma Contains_spec r k :
  Contains r k = negb (key_lt k (GetStartKey r)) && ((len (GetEndKey r) =? 0) || key_lt k (GetEndKey r)).
Proof. unfold Contains. by rewrite Compare_ge. Qed.

(** A region contains the keys from its start that are not after its end. *)
Lemma Contains_before r k :
  Contains r k = negb (key_lt k (GetStartKey r)) && negb (before r (keyRegion k)).
Proof.
  rewrite Contains_spec, before_spec. change (GetStartKey (keyRegion k)) with k.
  by rewrite negb_andb, !negb_involutive.
Qed.
Lemma before_start a b : before a b = before a (keyRegion (GetStartKey b)).
Proof. done. Qed.

Lemma valid_start r : valid r -> Contains r (GetStartKey r) = true.
Proof.
  intros Hv. rewrite Contains_spec, key_lt_irrefl. destruct Hv as [->|Hv]; [done|].
  by rewrite Hv, orb_true_r.
Qed.
Lemma not_before_self r : valid r -> before r r = false.
Proof.
  intros Hv%valid_start. rewrite Contains_before in Hv. apply andb_true_iff in Hv as [_ Hv].
  by apply negb_true_iff in Hv.
Qed.
(** What ends before a key ends before every later key. *)
Lemma before_mono a b c :
  before a b = true -> key_lt (GetStartKey c) (GetStartKey b) = false -> before a c = true.
Proof.
  rewrite !before_spec. intros [He Hb]%andb_true_iff Hbc. rewrite He. cbn.
  apply negb_true_iff in Hb. apply negb_true_iff. by eapply key_le_trans.
Qed.
Lemma before_less a b : valid a -> before a b = true -> Less a b = true.
Proof.
  rewrite before_spec, Less_key. intros Hv [He Hb]%andb_true_iff.
  apply negb_true_iff in Hb. destruct Hv as [Hv|Hv]; [by rewrite Hv in He|].
  by eapply key_lt_le_trans.
Qed.

(** Two regions overlap when some key is in both. *)
Lemma overlaps_key a b :
  valid a -> valid b ->
  overlaps a b = true <-> exists k, Contains a k = true /\ Contains b k = true.
Proof.
  intros Ha Hb. unfold overlaps. rewrite andb_true_iff, !negb_true_iff. split.
  - intros [Hab Hba]. destruct (key_lt (GetStartKey a) (GetStartKey b)) eqn:Hlt.
    + exists (GetStartKey b). split; [|by apply valid_start].
      rewrite Contains_before. apply key_lt_asym in Hlt. by rewrite Hlt, <- before_start, Hab.
    + exists (GetStartKey a). split; [by apply valid_start|].
      by rewrite Contains_before, Hlt, <- before_start, Hba.
  - intros (k & Hka & Hkb). rewrite Contains_before in Hka, Hkb.
    apply andb_true_iff in Hka as [Ha1%negb_true_iff Ha2%negb_true_iff].
    apply andb_true_iff in Hkb as [Hb1%negb_true_iff Hb2%negb_true_iff]. split.
    + destruct (before a b) eqn:H; [|done]. by rewrite (before_mono a b (keyRegion k)) in Ha2.
    + destruct (before b a) eqn:H; [|done]. by rewrite (before_mono b a (keyRegion k)) in Hb2.
Qed.
Lemma overlaps_sym a b : overlaps a b = overlaps b a.
Proof. unfold overlaps. apply andb_comm. Qed.

(** ** Disjoint regions in order *)
Definition disjoint (l : list RegionInfo) : Prop := StronglySorted (fun a b => before a b = true) l.
Definition regions_ok (l : list RegionInfo) : Prop := Forall valid l /\ disjoint l.

Lemma regions_ok_cons x l :
  regions_ok (x :: l) <-> valid x /\ Forall (fun y => before x y = true) l /\ regions_ok l.
Proof.
  unfold regions_ok, disjoint. rewrite list.Forall_cons. split.
  - intros [[Hx Hl] [Hs Hb]%StronglySorted_inv]. done.
  - intros (Hx & Hb & Hl & Hs). split_and!; [done..|by constructor].
Qed.
Lemma regions_ok_sorted l : regions_ok l -> sorted Less l.
Proof.
  induction l as [|x l IH]; [constructor|]. intros (Hx & Hb & Hl)%regions_ok_cons.
  apply sorted_cons. split; [|by apply IH]. eapply list.Forall_impl; [exact Hb|].
  intros y Hy. by apply before_less.
Qed.
Lemma elem_filter {A} (p : A -> bool) l y : y ∈ List.filter p l <-> y ∈ l /\ p y = true.
Proof. rewrite !list_elem_of_In. apply filter_In. Qed.

Lemma regions_ok_filter p l : regions_ok l -> regions_ok (List.filter p l).
Proof.
  induction l as [|x l IH]; [done|]. intros (Hx & Hb & Hl)%regions_ok_cons. cbn.
  destruct (p x); [|by apply IH]. apply regions_ok_cons. split_and!; [done| |by apply IH].
  apply list.Forall_forall. intros y [Hy _]%elem_filter.
  rewrite list.Forall_forall in Hb. by apply Hb.
Qed.

Lemma find_none_all (p : RegionInfo -> bool) l :
  Forall (fun x => p x = false) l -> List.find p l = None.
Proof. induction 1 as [|x l Hx _ IH]; [done|]. cbn. by rewrite Hx. Qed.

(** The last region that starts at or before a key is the only one that may contain it. *)
Lemma last_contains l k :
  regions_ok l ->
  match list.last (List.filter (fun x => negb (key_lt k (GetStartKey x))) l) with
  | Some r => if Contains r k then Some r else None
  | None => None
  end = List.find (fun r => Contains r k) l.
Proof.
  induction l as [|x l IH]; [done|]. intros (Hx & Hb & Hl)%regions_ok_cons.
  specialize (IH Hl). cbn [List.filter List.find].
  destruct (key_lt k (GetStartKey x)) eqn:Hkx; cbn [negb].
  { rewrite IH. by rewrite Contains_before, Hkx. }
  destruct (List.filter (fun x => negb (key_lt k (GetStartKey x))) l) as [|y fl] eqn:Hfl.
  - cbn. rewrite <- IH. cbn. by destruct (Contains x k).
  - cbn [list.last] in *. rewrite IH.
    assert (Hy : y ∈ l /\ negb (key_lt k (GetStartKey y)) = true).
    { apply (elem_filter (fun x => negb (key_lt k (GetStartKey x)))). rewrite Hfl.
      apply list_elem_of_here. }
    destruct Hy as [Hy Hky%negb_true_iff]. rewrite list.Forall_forall in Hb. specialize (Hb y Hy).
    rewrite Contains_before, (before_mono x y (keyRegion k)), andb_false_r by done. done.
Qed.

(** Of two regions of the list, one is the other or ends before it. *)
Lemma regions_pair l x y :
  regions_ok l -> x ∈ l -> y ∈ l -> x = y \/ before x y = true \/ before y x = true.
Proof.
  induction l as [|z l IH]; intros Hl Hx Hy; [by apply elem_of_nil in Hx|].
  apply regions_ok_cons in Hl as (_ & Hb & Hl). rewrite list.Forall_forall in Hb.
  apply elem_of_cons in Hx as [->|Hx], Hy as [->|Hy]; auto.
Qed.
Lemma regions_less l x y :
  regions_ok l -> x ∈ l -> y ∈ l -> Less x y = before x y.
Proof.
  intros Hl Hx Hy. pose proof (proj1 Hl) as Hv. rewrite list.Forall_forall in Hv.
  destruct (before x y) eqn:Hxy; [apply before_less; auto|].
  destruct (regions_pair l x y Hl Hx Hy) as [->|[?|Hyx]]; [by apply key_lt_irrefl|congruence|].
  apply key_lt_asym. by apply before_less; auto.
Qed.

(** ** Passes over the tree *)

(** Collecting until an item stops the pass. *)
Lemma visit_collect (stop : RegionInfo -> bool) l : forall acc,
  StronglySorted (fun x y => stop x = true -> stop y = true) l ->
  visit (fun st x => if stop x then (st, false) else (st ++ [x], true)) acc l
    = acc ++ List.filter (fun x => negb (stop x)) l.
Proof.
  induction l as [|x l IH]; intros acc Hs; cbn; [by rewrite app_nil_r|].
  apply StronglySorted_inv in Hs as [Hs Hx]. destruct (stop x) eqn:Hst; cbn.
  - rewrite filter_none, app_nil_r; [done|]. eapply list.Forall_impl; [exact Hx|].
    intros y Hy. simpl. by rewrite Hy.
  - rewrite IH by done. by rewrite <- app_assoc.
Qed.
(** Taking the first item. *)
Lemma visit_first l :
  visit (fun _ (i : RegionInfo) => (Some i, false)) None l = head l.
Proof. by destruct l. Qed.
Lemma head_rev {A} (l : list A) : head (rev l) = list.last l.
Proof.
  destruct (decide (l = [])) as [->|Hne]; [done|].
  destruct (list_cut_last l Hne) as (l' & x & ->). by rewrite rev_app_distr, last_snoc.
Qed.

Section Tree.
Context {E : Type}.
Implicit Types (t : regionTree) (r x y region : RegionInfo).

Definition regions t : list RegionInfo := contents (rt_tree t).
Record tree_ok t : Prop := {
  to_bt : bt_ok Less (rt_tree t);
  to_regions : regions_ok (regions t);
}.

Lemma find_spec t region :
  tree_ok t ->
  rtree.find (E:=E) t region = Ret (List.find (fun r => Contains r (GetStartKey region)) (regions t)).
Proof.
  intros [Hbt Hr]. unfold rtree.find.
  destruct (descend_methods (E:=E) Less (fun (_ : option RegionInfo) i => (Some i, false)) None
    (rt_tree t) region region Hbt) as (_ & -> & _).
  rewrite visit_first, head_rev. f_equal. by apply (last_contains (regions t) (GetStartKey region)).
Qed.

(** The regions from the one that contains the start key on are those that do not
    end before it. *)
Lemma from_found l region x :
  regions_ok l -> x ∈ l ->
  let start := match List.find (fun r => Contains r (GetStartKey region)) l with
               | None => region | Some r => r end in
  negb (Less x start) = negb (before x region).
Proof.
  intros Hl Hx start. f_equal. unfold start. clear start.
  destruct (List.find _ l) as [a|] eqn:Hf.
  - apply List.find_some in Hf as [Ha%list_elem_of_In Hc].
    rewrite Contains_before in Hc. apply andb_true_iff in Hc as [Hs%negb_true_iff He%negb_true_iff].
    change (before a (keyRegion (GetStartKey region))) with (before a region) in He.
    rewrite (regions_less l x a) by done. destruct (before x a) eqn:Hxa.
    + symmetry. by eapply before_mono.
    + destruct (regions_pair l x a Hl Hx Ha) as [->|[?|Hax]]; [done|congruence|].
      destruct (before x region) eqn:Hxr; [|done]. pose proof (proj1 Hl) as Hv.
      rewrite list.Forall_forall in Hv. rewrite <- He.
      apply (before_mono a x region Hax). by apply key_lt_asym, before_less; auto.
  - pose proof (List.find_none _ _ Hf x) as Hc. rewrite <- list_elem_of_In in Hc. specialize (Hc Hx).
    rewrite Contains_before in Hc. change (before x (keyRegion (GetStartKey region))) with (before x region) in Hc.
    rewrite Less_key. destruct (key_lt (GetStartKey x) (GetStartKey region)) eqn:Hlt.
    + rewrite (key_lt_asym _ _ Hlt) in Hc. cbn in Hc. by apply negb_false_iff in Hc.
    + destruct (before x region) eqn:Hxr; [|done]. pose proof (proj1 Hl) as Hv.
      rewrite list.Forall_forall in Hv. apply before_less in Hxr; [|by auto].
      by rewrite Less_key, Hlt in Hxr.
Qed.

(** What follows the start of a range comes from its overlap. *)
Lemma filter_ext_in' (p q : RegionInfo -> bool) l :
  (forall x, x ∈ l -> p x = q x) -> List.filter p l = List.filter q l.
Proof. intros H. apply filter_ext_in. intros x Hx. by apply H, list_elem_of_In. Qed.

Lemma getOverlaps_spec t region :
  tree_ok t ->
  rtree.getOverlaps (E:=E) t region = Ret (List.filter (overlaps region) (regions t)).
Proof.
  intros Hok. unfold rtree.getOverlaps. rewrite find_spec by done. destruct Hok as [Hbt Hr].
  set (start := match List.find _ _ with None => region | Some r => r end).
  destruct (ascend_methods (E:=E) Less (fun ov over => if before region over then (ov, false) else (ov ++ [over], true))
    [] (rt_tree t) start start Hbt) as (_ & _ & He & _).
  unfold before at 1 in He. rewrite He. f_equal. rewrite visit_collect.
  - cbn [app]. rewrite filter_and. apply filter_ext_in'. intros x Hx.
    rewrite (from_found (regions t) region x Hr Hx : negb (Less x start) = _). unfold overlaps. apply andb_comm.
  - eapply sorted_rel; [eapply sorted_sublist; [apply filter_sublist|apply Hbt]|].
    intros x y Hxy Hb. apply (before_mono region x y Hb). by apply key_lt_asym.
Qed.
(** ** [update] and [remove] *)

Lemma drop_same_filter x l :
  sorted Less l -> drop_same Less x l = List.filter (fun y => negb (same_as Less x y)) l.
Proof.
  intros [(l1 & l2 & -> & H1 & H2)|(l1 & z & l2 & -> & H1 & Hz & H2)]%(sorted_cases Less x);
    unfold drop_same.
  - destruct (parts_none Less x l1 l2 H1 H2) as (-> & _ & ->).
    rewrite filter_all; [done|]. apply Forall_app. split.
    + eapply list.Forall_impl; [exact H1|]. intros y Hy. simpl. by rewrite (less_not_same' Less).
    + eapply list.Forall_impl; [exact H2|]. intros y Hy. simpl. by rewrite (less_not_same Less).
  - destruct (parts_some Less x l1 z l2 H1 Hz H2) as (-> & _ & ->).
    rewrite List.filter_app. cbn [List.filter]. rewrite Hz. cbn [negb].
    rewrite !filter_all; [done|..].
    + eapply list.Forall_impl; [exact H2|]. intros y Hy. simpl. by rewrite (less_not_same Less).
    + eapply list.Forall_impl; [exact H1|]. intros y Hy. simpl. by rewrite (less_not_same' Less).
Qed.

(** Deleting a list of items. *)
Lemma delete_all ds : forall tree,
  bt_ok Less tree ->
  exists tree', foldM (fun tree item => let! (tree, _) := Delete Less (E:=E) tree item in Ret tree) tree ds
      = Ret tree'
    /\ bt_ok Less tree'
    /\ contents tree' = List.filter (fun y => negb (existsb (fun x => same_as Less x y) ds)) (contents tree).
Proof.
  induction ds as [|x ds IH]; intros tree Hok; cbn [foldM existsb].
  - exists tree. split_and!; [done|done|]. rewrite filter_all; [done|]. by apply list.Forall_forall.
  - destruct (Delete_spec (E:=E) Less tree x Hok) as (t1 & -> & Hok1 & Hc1 & _).
    destruct (IH t1 Hok1) as (t2 & -> & Hok2 & Hc2). exists t2. split_and!; [done|done|].
    rewrite Hc2, Hc1, drop_same_filter by apply Hok. rewrite filter_and. apply List.filter_ext.
    intros y. by rewrite negb_orb.
Qed.

(** Regions of a tree with the same start are the same. *)
Lemma regions_same l x y : regions_ok l -> x ∈ l -> y ∈ l -> same_as Less x y = true -> x = y.
Proof.
  intros Hl Hx Hy [H1 H2]%same_inv.
  destruct (regions_pair l x y Hl Hx Hy) as [->|[H|H]]; [done|..];
    rewrite <- (regions_less l) in H by done; congruence.
Qed.

Lemma delete_overlaps l region :
  regions_ok l ->
  List.filter (fun y => negb (existsb (fun x => same_as Less x y) (List.filter (overlaps region) l))) l
    = List.filter (fun y => negb (overlaps region y)) l.
Proof.
  intros Hl. apply filter_ext_in'. intros y Hy. f_equal. apply eq_true_iff_eq.
  rewrite existsb_exists. split.
  - intros (x & [Hx%list_elem_of_In Hov]%filter_In & Hs). by rewrite <- (regions_same l x y).
  - intros Hov. exists y. split; [apply filter_In; split; [by apply list_elem_of_In|done]|].
    apply (same_refl Less).
Qed.

(** The new region finds its place between the regions that do not overlap it. *)
Lemma put_ok l region :
  regions_ok l -> valid region -> Forall (fun y => overlaps region y = false) l ->
  regions_ok (put Less region l).
Proof.
  intros Hl Hv Hno. rewrite list.Forall_forall in Hno. unfold put.
  assert (Hbef : forall y, y ∈ below Less region l -> before y region = true).
  { intros y [Hy Hlt]%elem_filter. specialize (Hno y Hy). unfold overlaps in Hno.
    apply andb_false_iff in Hno as [Hno|Hno]; apply negb_false_iff in Hno; [|done].
    apply before_less in Hno; [|done]. by rewrite (less_asym Less _ _ Hlt) in Hno. }
  assert (Haft : forall y, y ∈ above Less region l -> before region y = true).
  { intros y [Hy Hlt]%elem_filter. pose proof (Hno y Hy) as Hn. unfold overlaps in Hn.
    apply andb_false_iff in Hn as [Hn|Hn]; apply negb_false_iff in Hn; [done|].
    apply before_less in Hn; [by rewrite (less_asym Less _ _ Hlt) in Hn|].
    destruct Hl as [Hlv _]. rewrite list.Forall_forall in Hlv. by apply Hlv. }
  pose proof (regions_ok_filter (fun y => Less y region) l Hl) as [HB1 HB2].
  pose proof (regions_ok_filter (Less region) l Hl) as [HA1 HA2].
  split; [by apply Forall_app; split; [|constructor]|].
  apply StronglySorted_app. split_and!; [|done|constructor; [done|by apply list.Forall_forall]].
  intros a b Ha [->|Hb]%elem_of_cons; [by apply Hbef|].
  eapply before_mono; [by apply Hbef|]. apply key_lt_asym. by apply elem_filter in Hb as [_ Hb].
Qed.

Lemma update_spec t region :
  tree_ok t -> valid region ->
  exists t', rtree.update (E:=E) t region = Ret (t', List.filter (overlaps region) (regions t))
    /\ tree_ok t'
    /\ regions t' = put Less region (List.filter (fun y => negb (overlaps region y)) (regions t)).
Proof.
  intros Hok Hv. unfold rtree.update. rewrite getOverlaps_spec by done. destruct Hok as [Hbt Hr].
  destruct (delete_all (List.filter (overlaps region) (regions t)) (rt_tree t) Hbt) as (t1 & -> & Hok1 & Hc1).
  fold (regions t) in Hc1. rewrite (delete_overlaps _ _ Hr) in Hc1.
  destruct (ReplaceOrInsert_spec (E:=E) Less t1 region Hok1) as (t2 & -> & Hok2 & Hc2 & _).
  rewrite Hc1 in Hc2. exists (mkRegionTree t2). split_and!; [done| |done]. split; [done|].
  unfold regions. cbn [rt_tree]. rewrite Hc2. apply put_ok; [by apply regions_ok_filter|done|].
  apply list.Forall_forall. intros y [_ Hy]%elem_filter. by apply negb_true_iff in Hy.
Qed.

(** Only one region contains a key. *)
Lemma contains_unique l x y k :
  regions_ok l -> x ∈ l -> y ∈ l -> Contains x k = true -> Contains y k = true -> x = y.
Proof.
  intros Hl Hx Hy. rewrite !Contains_before.
  intros [Hx1%negb_true_iff Hx2%negb_true_iff]%andb_true_iff [Hy1%negb_true_iff Hy2%negb_true_iff]%andb_true_iff.
  destruct (regions_pair l x y Hl Hx Hy) as [->|[H|H]]; [done|..].
  - by rewrite (before_mono x y (keyRegion k)) in Hx2.
  - by rewrite (before_mono y x (keyRegion k)) in Hy2.
Qed.

Lemma tree_remove_spec t region :
  tree_ok t ->
  exists t', rtree.remove (E:=E) t region = Ret t' /\ tree_ok t'
    /\ regions t' = List.filter (fun x => negb (Contains x (GetStartKey region) && (GetID x =? GetID region)))
                      (regions t).
Proof.
  intros Hok. unfold rtree.remove, rtree.length, Len. pose proof Hok as [Hbt Hr].
  rewrite (ok_length Less _ Hbt). fold (regions t). destruct (Z.eqb_spec (len (regions t)) 0) as [Hz|_].
  { apply len_0_nil in Hz. exists t. rewrite Hz. done. }
  rewrite find_spec by done. cbn beta iota. destruct (List.find _ (regions t)) as [r|] eqn:Hf.
  - apply List.find_some in Hf as [Hin%list_elem_of_In Hc]. destruct (Z.eqb_spec (GetID r) (GetID region)) as [Hid|Hid]; cbn [negb].
    + destruct (Delete_spec (E:=E) Less (rt_tree t) r Hbt) as (t1 & -> & Hok1 & Hc1 & _).
      assert (He : contents t1 = List.filter (fun x => negb (Contains x (GetStartKey region) && (GetID x =? GetID region))) (regions t)).
      { rewrite Hc1, drop_same_filter by apply Hbt. apply filter_ext_in'. intros x Hx. f_equal.
        apply eq_true_iff_eq. rewrite andb_true_iff, Z.eqb_eq. split.
        - intros Hs. by rewrite <- (regions_same (regions t) r x).
        - intros [Hcx _]. rewrite (contains_unique (regions t) x r (GetStartKey region)) by done.
          apply (same_refl Less). }
      exists (mkRegionTree t1). split_and!; [done| |done]. split; [done|].
      unfold regions at 1. cbn [rt_tree]. rewrite He. by apply regions_ok_filter.
    + exists t. split_and!; [done|done|]. rewrite filter_all; [done|]. apply list.Forall_forall.
      intros x Hx. destruct (Contains x (GetStartKey region)) eqn:Hcx; [|done].
      rewrite (contains_unique (regions t) x r (GetStartKey region)) by done.
      by apply Z.eqb_neq in Hid as ->.
  - exists t. split_and!; [done|done|]. rewrite filter_all; [done|]. apply list.Forall_forall.
    intros x Hx. apply list_elem_of_In in Hx. pose proof (List.find_none _ _ Hf x Hx) as Hcx.
    simpl in Hcx. by rewrite Hcx.
Qed.
(** ** Searches and scans *)

Lemma search_spec t key :
  tree_ok t -> rtree.search (E:=E) t key = Ret (List.find (fun r => Contains r key) (regions t)).
Proof. apply find_spec. Qed.

Lemma scanRange_spec {St} t key (f : St -> RegionInfo -> St * bool) st :
  tree_ok t ->
  rtree.scanRange (E:=E) t key f st
    = Ret (visit f st (List.filter (fun x => negb (before x (keyRegion key))) (regions t))).
Proof.
  intros Hok. unfold rtree.scanRange. rewrite find_spec by done. destruct Hok as [Hbt Hr].
  cbn beta iota. set (start := match List.find _ _ with None => keyRegion key | Some r => r end).
  destruct (ascend_methods (E:=E) Less f st (rt_tree t) start start Hbt) as (_ & _ & -> & _).
  do 2 f_equal. apply filter_ext_in'. intros x Hx. by apply (from_found (regions t) (keyRegion key) x).
Qed.

(** The neighbours of a start key. *)
Lemma visit_adjacent k l : forall o,
  visit (fun found (i : RegionInfo) =>
           if bool_decide (k = GetStartKey i) then (found, true) else (Some i, false)) o l
    = match List.find (fun i => negb (bool_decide (k = GetStartKey i))) l with
      | Some i => Some i | None => o end.
Proof.
  induction l as [|x l IH]; intros o; [done|]. cbn. case_bool_decide; cbn; [apply IH|done].
Qed.
Lemma find_rev_last {A} (p : A -> bool) l : List.find p (rev l) = list.last (List.filter p l).
Proof.
  induction l as [|x l IH] using rev_ind; [done|].
  rewrite rev_app_distr, List.filter_app. cbn. destruct (p x); [by rewrite last_snoc|].
  by rewrite app_nil_r.
Qed.

Lemma find_filter_head {A} (p : A -> bool) l : List.find p l = head (List.filter p l).
Proof. induction l as [|x l IH]; [done|]. cbn. by destruct (p x). Qed.

Lemma getAdjacentRegions_spec t region :
  tree_ok t ->
  rtree.getAdjacentRegions (E:=E) t region
    = Ret (list.last (below Less region (regions t)), head (above Less region (regions t))).
Proof.
  intros [Hbt Hr]. unfold rtree.getAdjacentRegions. set (item := keyRegion (GetStartKey region)).
  set (adj := fun found i => _).
  destruct (ascend_methods (E:=E) Less adj None (rt_tree t) item item Hbt) as (_ & _ & -> & _).
  destruct (descend_methods (E:=E) Less adj None (rt_tree t) item item Hbt) as (_ & -> & _).
  fold (regions t). unfold adj. rewrite !visit_adjacent, find_rev_last, filter_and.
  change (GetStartKey item) with (GetStartKey region).
  assert (Hneq : forall x, negb (bool_decide (GetStartKey region = GetStartKey x))
    = Less x region || Less region x).
  { intros x. rewrite !Less_key. case_bool_decide as Heq; cbn.
    - rewrite Heq. by rewrite key_lt_irrefl.
    - destruct (key_lt (GetStartKey x) (GetStartKey region)) eqn:H1; [done|].
      destruct (key_lt (GetStartKey region) (GetStartKey x)) eqn:H2; [done|].
      by destruct Heq; apply key_lt_total. }
  do 2 f_equal.
  - unfold below. rewrite (List.filter_ext _ (fun y => Less y region)); [by destruct (list.last _)|].
    intros x. cbn beta. rewrite Hneq. change (Less item x) with (Less region x).
    destruct (Less region x) eqn:H; cbn; [|by rewrite orb_false_r]. by apply (less_asym Less) in H.
  - rewrite find_filter_head, filter_and. unfold above. rewrite (List.filter_ext _ (Less region)); [by destruct (head _)|].
    intros x. cbn beta. rewrite Hneq. change (Less x item) with (Less x region).
    by destruct (Less x region) eqn:H; cbn; [apply (less_asym Less) in H|].
Qed.
Lemma last_max l b y :
  sorted Less l -> list.last l = Some b -> y ∈ l -> y = b \/ Less y b = true.
Proof.
  intros Hs Hb Hy. apply last_Some in Hb as [l' ->].
  apply elem_of_app in Hy as [Hy|Hy%list_elem_of_singleton]; [right|by left].
  apply sorted_app in Hs as (Hlt & _). apply Hlt; [done|apply list_elem_of_here].
Qed.

(** The region that ends where the one that contains the key starts. *)
Lemma searchPrev_spec t key :
  tree_ok t ->
  rtree.searchPrev (E:=E) t key
    = Ret (match List.find (fun r => Contains r key) (regions t) with
           | None => None
           | Some cur => List.find (fun p => (len (GetEndKey p) >? 0)
                                       && bool_decide (GetEndKey p = GetStartKey cur)) (regions t)
           end).
Proof.
  intros Hok. unfold rtree.searchPrev. rewrite find_spec by done.
  change (GetStartKey (keyRegion key)) with key. cbn beta iota.
  destruct (List.find _ (regions t)) as [cur|] eqn:Hcur; [|done].
  apply List.find_some in Hcur as [Hcur%list_elem_of_In _].
  rewrite getAdjacentRegions_spec by done. f_equal. destruct Hok as [Hbt Hr].
  pose proof (regions_ok_sorted _ (regions_ok_filter (fun y => Less y cur) _ Hr)) as Hsb.
  fold (below Less cur (regions t)) in Hsb.
  destruct (List.find _ (regions t)) as [p|] eqn:Hp.
  - apply List.find_some in Hp as [Hp%list_elem_of_In [He1 He2%bool_decide_eq_true]%andb_true_iff].
    assert (Hbp : before p cur = true).
    { unfold before. rewrite He1, He2. unfold Compare. by rewrite bytes_compare_refl. }
    assert (HpB : p ∈ below Less cur (regions t)).
    { apply elem_filter. split; [done|]. by rewrite (regions_less (regions t)). }
    destruct (list.last (below Less cur (regions t))) as [b|] eqn:Hlast.
    2: { apply last_None in Hlast. rewrite Hlast in HpB. by apply elem_of_nil in HpB. }
    destruct (last_max _ b p Hsb Hlast HpB) as [->|Hpb]; [by rewrite bool_decide_true|].
    apply last_Some_elem_of in Hlast. apply elem_filter in Hlast as [HbL Hbc].
    rewrite (regions_less (regions t)) in Hpb by done. rewrite before_spec in Hpb.
    apply andb_true_iff in Hpb as [_ Hpb%negb_true_iff]. rewrite He2 in Hpb.
    by rewrite Less_key, Hpb in Hbc.
  - destruct (list.last (below Less cur (regions t))) as [b|] eqn:Hlast; [|done].
    apply last_Some_elem_of in Hlast. apply elem_filter in Hlast as [HbL Hbc].
    pose proof (List.find_none _ _ Hp b) as Hn. rewrite <- list_elem_of_In in Hn. specialize (Hn HbL).
    destruct (bool_decide (GetEndKey b = GetStartKey cur)) eqn:Heq; [|done].
    cbn beta in Hn. rewrite andb_true_r, len_gt0 in Hn. apply bool_decide_eq_true in Heq.
    apply negb_false_iff, Z.eqb_eq, len_0_nil in Hn.
    rewrite Less_key, <- Heq, Hn, key_lt_nil in Hbc. done.
Qed.

(** ** A random region *)

(** A predicate that holds on a prefix selects that prefix. *)
Lemma filter_prefix (p : RegionInfo -> bool) l :
  StronglySorted (fun x y => p y = true -> p x = true) l ->
  List.filter p l = take (length (List.filter p l)) l.
Proof.
  induction l as [|x l IH]; intros Hs; [done|]. apply StronglySorted_inv in Hs as [Hs Hx].
  cbn. destruct (p x) eqn:Hp; cbn; [f_equal; by apply IH|].
  rewrite filter_none; [done|]. eapply list.Forall_impl; [exact Hx|]. intros y Hy. simpl.
  apply not_true_iff_false. intros Hpy%Hy. congruence.
Qed.
Lemma filter_suffix (p : RegionInfo -> bool) l :
  StronglySorted (fun x y => p y = true -> p x = true) l ->
  List.filter (fun x => negb (p x)) l = drop (length (List.filter p l)) l.
Proof.
  induction l as [|x l IH]; intros Hs; [done|]. apply StronglySorted_inv in Hs as [Hs Hx].
  cbn. destruct (p x) eqn:Hp; cbn; [by apply IH|].
  assert (Hall : Forall (fun y => p y = false) l).
  { eapply list.Forall_impl; [exact Hx|]. intros y Hy. simpl.
    apply not_true_iff_false. intros Hpy%Hy. congruence. }
  rewrite (filter_none p l) by done. cbn. f_equal. apply filter_all.
  eapply list.Forall_impl; [exact Hall|]. intros y Hy. simpl. by rewrite Hy.
Qed.
Lemma filter_range (p q : RegionInfo -> bool) l :
  StronglySorted (fun x y => p y = true -> p x = true) l ->
  StronglySorted (fun x y => q y = true -> q x = true) l ->
  List.filter (fun x => negb (p x) && q x) l
    = take (length (List.filter q l) - length (List.filter p l)) (drop (length (List.filter p l)) l).
Proof.
  intros Hp Hq. rewrite <- filter_and, (filter_suffix p l Hp).
  set (a := length (List.filter p l)). set (b := length (List.filter q l)).
  assert (Hq1 : Forall (fun x => q x = true) (take b l)).
  { unfold b. rewrite <- (filter_prefix q l Hq). apply list.Forall_forall.
    by intros x [_ Hx]%elem_filter. }
  assert (Hq2 : Forall (fun x => q x = false) (drop b l)).
  { unfold b. rewrite <- (filter_suffix q l Hq). apply list.Forall_forall.
    intros x [_ Hx]%elem_filter. by apply negb_true_iff in Hx. }
  assert (Hsd : StronglySorted (fun x y => q y = true -> q x = true) (drop a l)).
  { rewrite <- (take_drop a l) in Hq. by apply StronglySorted_app in Hq as (_ & _ & ?). }
  rewrite (filter_prefix q (drop a l) Hsd). f_equal.
  destruct (decide (a <= b)%nat) as [Hab|Hab].
  - assert (Hbl : b = length (List.filter q (take a l ++ drop a l))) by (by rewrite take_drop).
    rewrite List.filter_app, length_app, (filter_all q (take a l)) in Hbl.
    + rewrite length_take in Hbl. assert (a <= length l)%nat by apply filter_length_le. lia.
    + replace (take a l) with (take a (take b l)) by (rewrite take_take; f_equal; lia).
      by apply Forall_take.
  - rewrite filter_none; [simpl; lia|]. replace a with (b + (a - b))%nat by lia.
    rewrite <- drop_drop. by apply Forall_drop.
Qed.

(** The regions a random choice is made from. *)
Definition candidates t (startKey endKey : list Z) : list RegionInfo :=
  List.filter (fun x => negb (before x (keyRegion startKey))
                 && ((len endKey =? 0) || key_lt (GetStartKey x) endKey)) (regions t).
Lemma before_prefix l key :
  regions_ok l ->
  StronglySorted (fun x y => before y (keyRegion key) = true -> before x (keyRegion key) = true) l.
Proof.
  intros Hl. destruct Hl as [Hv Hd]. induction Hd as [|x l Hd IH Hx]; [constructor|].
  apply list.Forall_cons in Hv as [Hvx Hv]. constructor; [by apply IH|].
  rewrite list.Forall_forall in Hx, Hv |- *. intros y Hy Hb.
  apply (before_mono x y); [by apply Hx|]. by apply key_lt_asym, before_less; [apply Hv|].
Qed.
Lemma start_prefix l (q : list Z -> bool) :
  regions_ok l -> (forall a b, key_lt a b = true -> q b = true -> q a = true) ->
  StronglySorted (fun x y => q (GetStartKey y) = true -> q (GetStartKey x) = true) l.
Proof.
  intros Hl%regions_ok_sorted Hq. eapply sorted_rel; [exact Hl|]. intros x y Hxy. by apply Hq.
Qed.

(** The regions that end before a key: those that start before it, but for the last
    one when it contains the key. *)
Lemma before_count l key :
  regions_ok l ->
  len (List.filter (fun x => before x (keyRegion key)) l)
    = len (below Less (keyRegion key) l)
      - match list.last (below Less (keyRegion key) l) with
        | Some a => if Contains a key then 1 else 0
        | None => 0
        end.
Proof.
  intros Hl. set (A := below Less (keyRegion key) l).
  assert (HA : List.filter (fun x => before x (keyRegion key)) l
               = List.filter (fun x => before x (keyRegion key)) A).
  { unfold A, below. rewrite filter_and. apply filter_ext_in'. intros x Hx.
    destruct (before x (keyRegion key)) eqn:Hb; [|by rewrite andb_false_r].
    rewrite before_less; [done| |done]. destruct Hl as [Hv _].
    rewrite list.Forall_forall in Hv. by apply Hv. }
  rewrite HA. pose proof (regions_ok_filter (fun y => Less y (keyRegion key)) l Hl) as Hok.
  fold (below Less (keyRegion key) l) in Hok. fold A in Hok.
  assert (Hlt : forall x, x ∈ A -> Less x (keyRegion key) = true) by (by intros x [_ ?]%elem_filter).
  destruct (decide (A = [])) as [->|Hne]; [done|].
  destruct (list_cut_last A Hne) as (A' & a & Ha). rewrite Ha in *. rewrite last_snoc, List.filter_app.
  rewrite filter_all.
  - rewrite !len_app. cbn [List.filter]. change (len [a]) with 1.
    specialize (Hlt a ltac:(apply elem_of_app; right; apply list_elem_of_here)).
    rewrite Less_key in Hlt. change (GetStartKey (keyRegion key)) with key in Hlt.
    rewrite Contains_before, (key_lt_asym _ _ Hlt). cbn [negb andb].
    destruct (before a (keyRegion key)); cbn [negb]; [change (len [a]) with 1|change (len []) with 0]; lia.
  - destruct Hok as [_ Hd]. apply StronglySorted_app in Hd as (Hd & _). apply list.Forall_forall.
    intros x Hx. apply (before_mono x a); [apply Hd; [done|apply list_elem_of_here]|].
    apply key_lt_asym. apply Hlt. apply elem_of_app. right. apply list_elem_of_here.
Qed.
(** The start index [RandomRegion] computes. *)
Lemma random_start t key :
  tree_ok t ->
  (let startIndex := len (below Less (keyRegion key) (regions t)) in
   if negb (startIndex =? 0) && isNil (find_same Less (keyRegion key) (regions t)) then
     let! prev := GetAt (E:=E) (rt_tree t) (startIndex - 1) in
     let! prev := deref prev in
     Ret (if Contains prev key then startIndex - 1 else startIndex)
   else Ret startIndex)
    = Ret (len (List.filter (fun x => before x (keyRegion key)) (regions t))).
Proof.
  intros [Hbt Hr]. cbv zeta. rewrite before_count by done.
  set (A := below Less (keyRegion key) (regions t)).
  destruct (decide (A = [])) as [->|Hne]; [done|].
  destruct (list_cut_last A Hne) as (A' & a & Ha). rewrite Ha, last_snoc, len_app.
  change (len [a]) with 1. pose proof (len_nonneg A') as Hl.
  destruct (Z.eqb_spec (len A' + 1) 0) as [|_]; [lia|]. cbn [negb andb].
  assert (Hparts := sorted_parts Less (keyRegion key) (regions t) (ok_sorted Less _ Hbt)).
  fold A in Hparts. rewrite Ha in Hparts.
  unfold find_same. destruct (same Less (keyRegion key) (regions t)) as [|y ys] eqn:Hsame; cbn [head isNil].
  - rewrite (GetAt_spec (E:=E) Less) by done. fold (regions t). rewrite decide_True by lia.
    replace (Z.to_nat (len A' + 1 - 1)) with (length A') by (unfold len; lia).
    rewrite Hparts, <- app_assoc. cbn [app]. rewrite list_lookup_middle by done. cbn [deref].
    f_equal. destruct (Contains a key); lia.
  - (* a region starts at the key: the one before ends at or before it *)
    assert (Hy : y ∈ regions t /\ same_as Less (keyRegion key) y = true).
    { apply elem_filter. fold (same Less (keyRegion key) (regions t)). rewrite Hsame. apply list_elem_of_here. }
    destruct Hy as [Hy [Hy1 Hy2]%same_inv].
    assert (HaL : a ∈ regions t /\ Less a (keyRegion key) = true).
    { apply (elem_filter (fun y => Less y (keyRegion key))). fold (below Less (keyRegion key) (regions t)).
      fold A. rewrite Ha. apply elem_of_app. right. apply list_elem_of_here. }
    destruct HaL as [HaL Hak].
    assert (Hay : before a y = true).
    { rewrite <- (regions_less (regions t)) by done. rewrite Less_key in Hak, Hy2 |- *.
      by eapply key_lt_le_trans. }
    rewrite Contains_before, (before_mono a y (keyRegion key)), andb_false_r by done. f_equal. lia.
Qed.

(** A choice among the regions that intersect the range. *)
Lemma RandomRegion_spec t Intn startKey endKey :
  tree_ok t -> (forall n, 0 < n -> 0 <= Intn n < n) ->
  let cands := candidates t startKey endKey in
  rtree.RandomRegion (E:=E) Intn t startKey endKey
    = Ret (if len cands =? 0 then None else cands !! Z.to_nat (Intn (len cands))).
Proof.
  intros Hok HI cands. pose proof Hok as [Hbt Hr]. unfold rtree.RandomRegion, rtree.length, Len.
  rewrite (ok_length Less _ Hbt). fold (regions t).
  destruct (Z.eqb_spec (len (regions t)) 0) as [Hz|_].
  { apply len_0_nil in Hz. unfold cands, candidates. by rewrite Hz. }
  rewrite (GetWithIndex_spec (E:=E) Less) by done. cbn beta iota. fold (regions t).
  set (q := fun k => (len endKey =? 0) || key_lt k endKey).
  assert (Hq : forall a b, key_lt a b = true -> q b = true -> q a = true).
  { intros a b Hab. unfold q. destruct (len endKey =? 0); [done|]. cbn. by apply key_lt_trans. }
  assert (Hend : (if negb (len endKey =? 0) then
      let! (_, i) := GetWithIndex Less (E:=E) (rt_tree t) (keyRegion endKey) in Ret i
    else Ret (len (regions t))) = Ret (len (List.filter (fun x => q (GetStartKey x)) (regions t)))).
  { unfold q. destruct (len endKey =? 0); cbn [negb orb].
    - by rewrite filter_all by (by apply list.Forall_forall).
    - by rewrite (GetWithIndex_spec (E:=E) Less) by done. }
  rewrite Hend. cbn beta iota. 
  pose proof (random_start t startKey Hok) as Hst. cbv zeta in Hst. rewrite Hst. clear Hst. cbn beta iota.
  pose proof (filter_range (fun x => before x (keyRegion startKey)) (fun x => q (GetStartKey x)) (regions t)
    (before_prefix _ _ Hr) (start_prefix _ q Hr Hq)) as Hc.
  change (List.filter _ (regions t)) with cands in Hc at 1.
  set (a := length (List.filter (fun x => before x (keyRegion startKey)) (regions t))) in *.
  set (b := length (List.filter (fun x => q (GetStartKey x)) (regions t))) in *.
  assert (Hb : (b <= length (regions t))%nat) by apply filter_length_le.
  assert (Hlc : len cands = Z.max 0 (Z.of_nat b - Z.of_nat a)).
  { unfold len. rewrite Hc, length_take, length_drop. lia. }
  rewrite Hlc. change (len (List.filter (fun x => before x (keyRegion startKey)) (regions t))) with (Z.of_nat a).
  change (len (List.filter (fun x => q (GetStartKey x)) (regions t))) with (Z.of_nat b).
  destruct (Z.leb_spec (Z.of_nat b) (Z.of_nat a)) as [Hle|Hlt].
  { rewrite Z.max_l by lia. done. }
  rewrite Z.max_r by lia. destruct (Z.eqb_spec (Z.of_nat b - Z.of_nat a) 0) as [|_]; [lia|].
  specialize (HI (Z.of_nat b - Z.of_nat a) ltac:(lia)). set (i := Intn _) in *.
  rewrite (GetAt_spec (E:=E) Less), decide_True by (done || lia). fold (regions t).
  rewrite Hc, lookup_take_lt, lookup_drop by lia.
  replace (a + Z.to_nat i)%nat with (Z.to_nat (i + Z.of_nat a)) by lia.
  destruct (regions t !! Z.to_nat (i + Z.of_nat a)) eqn:Hlk; [done|].
  apply lookup_ge_None in Hlk. lia.
Qed.
End Tree.
