(* ===== verification/RegionsInfo.v ===== *)
(** * RegionsInfo: all regions of the cluster

    [regionMap], [regionSubTree] and [RegionsInfo] of
    [scheduler/server/core/region.go]: the regions by id, by key, and by the stores
    of their leaders, followers, learners and pending peers.  A Go map is a [gmap];
    reading a missing key gives the nil pointer, [None].  The order in which a Go map
    is iterated is arbitrary; [map_to_list] gives one order.  [rand.Intn] is a
    parameter, with the number of the attempt where a loop calls it. *)

From stdpp Require Import base option list gmap tactics.
From S2P Require Import Prelude.
From S2P Require Import BTree.
From S2P Require Import Metapb.
From S2P Require Import RegionInfo.
From S2P Require Import RegionTree.

(** ** Regions by id *)
Record regionMap := mkRegionMap {
  rm_m : gmap Z RegionInfo;
  rm_totalSize : Z;
  rm_totalKeys : Z;
}.
#[export] Instance set_rm_m : Setter rm_m := fun g m =>
  mkRegionMap (g (rm_m m)) (rm_totalSize m) (rm_totalKeys m).
#[export] Instance set_rm_totalSize : Setter rm_totalSize := fun g m =>
  mkRegionMap (rm_m m) (g (rm_totalSize m)) (rm_totalKeys m).
#[export] Instance set_rm_totalKeys : Setter rm_totalKeys := fun g m =>
  mkRegionMap (rm_m m) (rm_totalSize m) (g (rm_totalKeys m)).


Module rmap.
Definition newRegionMap : regionMap := mkRegionMap ∅ 0 0.
Definition Len (rm : regionMap) : Z := Z.of_nat (size (rm_m rm)).
Definition Get (rm : regionMap) (id : Z) : option RegionInfo := rm_m rm !! id.
Definition Put (rm : regionMap) (region : RegionInfo) : regionMap :=
  let rm := match rm_m rm !! GetID region with
            | Some old => rm <| rm_totalSize := int64 (rm_totalSize rm - ri_approximateSize old) |>
            | None => rm
            end in
  let rm := rm <| rm_m := <[GetID region := region]> (rm_m rm) |> in
  rm <| rm_totalSize := int64 (rm_totalSize rm + ri_approximateSize region) |>.
Definition Delete (rm : regionMap) (id : Z) : regionMap :=
  match rm_m rm !! id with
  | Some old =>
    let rm := rm <| rm_m := delete id (rm_m rm) |> in
    rm <| rm_totalSize := int64 (rm_totalSize rm - ri_approximateSize old) |>
  | None => rm
  end.
Definition TotalSize (rm : regionMap) : Z := if Len rm =? 0 then 0 else rm_totalSize rm.
End rmap.

(** ** The regions of a store *)
Record regionSubTree := mkSubTree {
  rst_regionTree : regionTree;
  rst_totalSize : Z;
}.
#[export] Instance set_rst_regionTree : Setter rst_regionTree := fun g s =>
  mkSubTree (g (rst_regionTree s)) (rst_totalSize s).
#[export] Instance set_rst_totalSize : Setter rst_totalSize := fun g s =>
  mkSubTree (rst_regionTree s) (g (rst_totalSize s)).


(** [r.region = region] through the pointer to an item of the tree: the item with the
    start key of [old] becomes [new].  The items of a tree have distinct start keys. *)
Fixpoint node_map {Item} (f : Item -> Item) (n : node Item) : node Item :=
  let 'mkNode its cs ix := n in mkNode (map f its) (map (node_map f) cs) ix.
Definition setItemRegion (t : regionTree) (old new : RegionInfo) : regionTree :=
  let f := fun i => if bool_decide (GetStartKey i = GetStartKey old) then new else i in
  let tree := rt_tree t in
  mkRegionTree (mkBTree (bt_degree tree) (bt_length tree)
                  (match bt_root tree with Some n => Some (node_map f n) | None => None end)).

(** The methods take the pointer, which may be nil. *)
Module rsub.
Section Methods.
Context {E : Type}.
Implicit Types (rst : option regionSubTree) (region : RegionInfo).

Definition newRegionSubTree : outcome E regionSubTree :=
  let! t := rtree.newRegionTree in Ret (mkSubTree t 0).

Definition length rst : Z :=
  match rst with None => 0 | Some s => rtree.length (rst_regionTree s) end.

Definition TotalSize rst : outcome E Z :=
  if length rst =? 0 then Ret 0 else
  let! s := deref rst in Ret (rst_totalSize s).

Definition scanRanges rst : outcome E (list RegionInfo) :=
  if length rst =? 0 then Ret [] else
  let! s := deref rst in
  rtree.scanRange (rst_regionTree s) [] (fun res region => (res ++ [region], true)) [].

Definition update (s : regionSubTree) region : outcome E regionSubTree :=
  let! r := rtree.find (rst_regionTree s) region in
  match r with
  | Some r =>
    let s := s <| rst_totalSize :=
                    int64 (rst_totalSize s + int64 (ri_approximateSize region - ri_approximateSize r)) |> in
    Ret (s <| rst_regionTree := setItemRegion (rst_regionTree s) r region |>)
  | None =>
    let s := s <| rst_totalSize := int64 (rst_totalSize s + ri_approximateSize region) |> in
    let! (t, _) := rtree.update (rst_regionTree s) region in
    Ret (s <| rst_regionTree := t |>)
  end.

Definition remove rst region : outcome E (option regionSubTree) :=
  if length rst =? 0 then Ret rst else
  let! s := deref rst in
  let! t := rtree.remove (rst_regionTree s) region in
  Ret (Some (s <| rst_regionTree := t |>)).

Definition RandomRegion (Intn : Z -> Z) rst (startKey endKey : list Z) : outcome E (option RegionInfo) :=
  if length rst =? 0 then Ret None else
  let! s := deref rst in
  rtree.RandomRegion Intn (rst_regionTree s) startKey endKey.

(** The method of the embedded tree: a nil pointer panics. *)
Definition find rst region : outcome E (option RegionInfo) :=
  let! s := deref rst in rtree.find (rst_regionTree s) region.

End Methods.
End rsub.

(** ** All regions *)
Record RegionsInfo := mkRegionsInfo {
  rs_tree : regionTree;
  rs_regions : regionMap;
  rs_leaders : gmap Z regionSubTree;
  rs_followers : gmap Z regionSubTree;
  rs_learners : gmap Z regionSubTree;
  rs_pendingPeers : gmap Z regionSubTree;
}.
#[export] Instance set_rs_tree : Setter rs_tree := fun g r =>
  mkRegionsInfo (g (rs_tree r)) (rs_regions r) (rs_leaders r) (rs_followers r) (rs_learners r) (rs_pendingPeers r).
#[export] Instance set_rs_regions : Setter rs_regions := fun g r =>
  mkRegionsInfo (rs_tree r) (g (rs_regions r)) (rs_leaders r) (rs_followers r) (rs_learners r) (rs_pendingPeers r).
#[export] Instance set_rs_leaders : Setter rs_leaders := fun g r =>
  mkRegionsInfo (rs_tree r) (rs_regions r) (g (rs_leaders r)) (rs_followers r) (rs_learners r) (rs_pendingPeers r).
#[export] Instance set_rs_followers : Setter rs_followers := fun g r =>
  mkRegionsInfo (rs_tree r) (rs_regions r) (rs_leaders r) (g (rs_followers r)) (rs_learners r) (rs_pendingPeers r).
#[export] Instance set_rs_learners : Setter rs_learners := fun g r =>
  mkRegionsInfo (rs_tree r) (rs_regions r) (rs_leaders r) (rs_followers r) (g (rs_learners r)) (rs_pendingPeers r).
#[export] Instance set_rs_pendingPeers : Setter rs_pendingPeers := fun g r =>
  mkRegionsInfo (rs_tree r) (rs_regions r) (rs_leaders r) (rs_followers r) (rs_learners r) (g (rs_pendingPeers r)).


Module regions.
Section Methods.
Context {E : Type}.

Definition NewRegionsInfo : outcome E RegionsInfo :=
  let! tree := rtree.newRegionTree in
  Ret (mkRegionsInfo tree rmap.newRegionMap ∅ ∅ ∅ ∅).

Definition GetRegion (r : RegionsInfo) (regionID : Z) : option RegionInfo := rmap.Get (rs_regions r) regionID.

(** [m[storeID].remove(region)]; removing from a nil subtree does nothing. *)
Definition removeFrom (m : gmap Z regionSubTree) storeID (region : RegionInfo) : outcome E (gmap Z regionSubTree) :=
  let! s := rsub.remove (m !! storeID) region in
  Ret (match s with Some s => <[storeID := s]> m | None => m end).

Definition RemoveRegion (r : RegionsInfo) (region : RegionInfo) : outcome E RegionsInfo :=
  let! tree := rtree.remove (rs_tree r) region in
  let r := r <| rs_tree := tree |> in
  let r := r <| rs_regions := rmap.Delete (rs_regions r) (GetID region) |> in
  foldM (fun r peer =>
           let storeID := p_StoreId peer in
           let! leaders := removeFrom (rs_leaders r) storeID region in
           let! followers := removeFrom (rs_followers r) storeID region in
           let! learners := removeFrom (rs_learners r) storeID region in
           let! pendingPeers := removeFrom (rs_pendingPeers r) storeID region in
           Ret (mkRegionsInfo (rs_tree r) (rs_regions r) leaders followers learners pendingPeers))
    r (rg_Peers (ri_meta region)).

(** [store, ok := m[storeID]; if !ok { ... }; store.update(region)]. *)
Definition updateIn (m : gmap Z regionSubTree) storeID (region : RegionInfo) : outcome E (gmap Z regionSubTree) :=
  let! store := (match m !! storeID with
                 | Some s => Ret s
                 | None => rsub.newRegionSubTree
                 end) in
  let! store := rsub.update store region in
  Ret (<[storeID := store]> m).

Definition AddRegion (r : RegionsInfo) (region : RegionInfo) : outcome E (RegionsInfo * list RegionInfo) :=
  let! (tree, overlaps) := rtree.update (rs_tree r) region in
  let r := r <| rs_tree := tree |> in
  let! r := foldM (fun r item =>
                     let! old := deref (GetRegion r (GetID item)) in
                     RemoveRegion r old) r overlaps in
  let r := r <| rs_regions := rmap.Put (rs_regions r) region |> in
  let! r := foldM (fun r peer =>
                     let storeID := p_StoreId peer in
                     if p_Id peer =? GetId (ri_leader region) then
                       let! m := updateIn (rs_leaders r) storeID region in
                       Ret (r <| rs_leaders := m |>)
                     else
                       let! m := updateIn (rs_followers r) storeID region in
                       Ret (r <| rs_followers := m |>)) r (GetVoters region) in
  let! r := foldM (fun r peer =>
                     let! m := updateIn (rs_learners r) (p_StoreId peer) region in
                     Ret (r <| rs_learners := m |>)) r (GetLearners region) in
  let! r := foldM (fun r peer =>
                     let! m := updateIn (rs_pendingPeers r) (p_StoreId peer) region in
                     Ret (r <| rs_pendingPeers := m |>)) r (ri_pendingPeers region) in
  Ret (r, overlaps).

Definition SetRegion (r : RegionsInfo) (region : RegionInfo) : outcome E (RegionsInfo * list RegionInfo) :=
  let! r := (match GetRegion r (GetID region) with
             | Some origin => RemoveRegion r origin
             | None => Ret r
             end) in
  AddRegion r region.

Definition Length (r : RegionsInfo) : Z := rmap.Len (rs_regions r).
Definition TreeLength (r : RegionsInfo) : Z := rtree.length (rs_tree r).
Definition GetOverlaps (r : RegionsInfo) (region : RegionInfo) : outcome E (list RegionInfo) := rtree.getOverlaps (rs_tree r) region.

Definition SearchRegion (r : RegionsInfo) (regionKey : list Z) : outcome E (option RegionInfo) :=
  let! region := rtree.search (rs_tree r) regionKey in
  Ret (match region with None => None | Some x => GetRegion r (GetID x) end).
Definition SearchPrevRegion (r : RegionsInfo) (regionKey : list Z) : outcome E (option RegionInfo) :=
  let! region := rtree.searchPrev (rs_tree r) regionKey in
  Ret (match region with None => None | Some x => GetRegion r (GetID x) end).

Definition GetRegions (r : RegionsInfo) : list RegionInfo := map snd (map_to_list (rm_m (rs_regions r))).
Definition GetMetaRegions (r : RegionsInfo) : list Region := map ri_meta (GetRegions r).

Definition GetStoreLeaderCount (r : RegionsInfo) storeID : Z := rsub.length (rs_leaders r !! storeID).
Definition GetStoreFollowerCount (r : RegionsInfo) storeID : Z := rsub.length (rs_followers r !! storeID).
Definition GetStoreLearnerCount (r : RegionsInfo) storeID : Z := rsub.length (rs_learners r !! storeID).
Definition GetStorePendingPeerCount (r : RegionsInfo) storeID : Z := rsub.length (rs_pendingPeers r !! storeID).
Definition GetStoreRegionCount (r : RegionsInfo) storeID : Z :=
  GetStoreLeaderCount r storeID + GetStoreFollowerCount r storeID + GetStoreLearnerCount r storeID.
Definition GetRegionCount (r : RegionsInfo) : Z := rmap.Len (rs_regions r).

Definition GetStoreRegions (r : RegionsInfo) storeID : outcome E (list RegionInfo) :=
  let! leaders := (match rs_leaders r !! storeID with
                   | Some s => rsub.scanRanges (Some s) | None => Ret [] end) in
  let! followers := (match rs_followers r !! storeID with
                     | Some s => rsub.scanRanges (Some s) | None => Ret [] end) in
  Ret (leaders ++ followers).

Definition GetStoreLeaderRegionSize (r : RegionsInfo) storeID : outcome E Z := rsub.TotalSize (rs_leaders r !! storeID).
Definition GetStoreFollowerRegionSize (r : RegionsInfo) storeID : outcome E Z := rsub.TotalSize (rs_followers r !! storeID).
Definition GetStoreLearnerRegionSize (r : RegionsInfo) storeID : outcome E Z := rsub.TotalSize (rs_learners r !! storeID).
Definition GetStoreRegionSize (r : RegionsInfo) storeID : outcome E Z :=
  let! a := GetStoreLeaderRegionSize r storeID in
  let! b := GetStoreFollowerRegionSize r storeID in
  let! c := GetStoreLearnerRegionSize r storeID in
  Ret (int64 (int64 (a + b) + c)).

(** [int64] division truncates. *)
Definition GetAverageRegionSize (r : RegionsInfo) : Z :=
  if rmap.Len (rs_regions r) =? 0 then 0
  else Z.quot (rmap.TotalSize (rs_regions r)) (rmap.Len (rs_regions r)).

Definition ScanRange (r : RegionsInfo) (startKey endKey : list Z) (limit : Z) : outcome E (list (option RegionInfo)) :=
  rtree.scanRange (rs_tree r) startKey
    (fun res region =>
       if (len endKey >? 0) && (Compare (GetStartKey region) endKey >=? 0) then (res, false)
       else if (limit >? 0) && (len res >=? limit) then (res, false)
       else (res ++ [GetRegion r (GetID region)], true)) [].

(** [GetLeader] and [GetFollower]: a nil subtree or no region found panics. *)
Definition GetLeader (r : RegionsInfo) storeID (region : RegionInfo) : outcome E RegionInfo :=
  let! i := rsub.find (rs_leaders r !! storeID) region in deref i.
Definition GetFollower (r : RegionsInfo) storeID (region : RegionInfo) : outcome E RegionInfo :=
  let! i := rsub.find (rs_followers r !! storeID) region in deref i.

(** [randRegion]: up to ten attempts to find a region that all options select. *)
Definition randomRegionMaxRetry : nat := 10.
Fixpoint randLoop (container : (Z -> Z) -> outcome E (option RegionInfo)) (Intn : nat -> Z -> Z)
    (opts : list RegionOption) (n : nat) : outcome E (option RegionInfo) :=
  match n with
  | O => Ret None
  | S n' =>
    let! region := container (Intn n) in
    match region with
    | None => Ret None
    | Some x => if forallb (fun opt => opt x) opts then Ret (Some x)
                else randLoop container Intn opts n'
    end
  end.
Definition randRegion (container : (Z -> Z) -> outcome E (option RegionInfo)) (Intn : nat -> Z -> Z)
    (opts : list RegionOption) : outcome E (option RegionInfo) :=
  randLoop container Intn opts randomRegionMaxRetry.
Definition RandRegion Intn (r : RegionsInfo) opts : outcome E (option RegionInfo) :=
  randRegion (fun rnd => rtree.RandomRegion rnd (rs_tree r) [] []) Intn opts.
Definition RandPendingRegion Intn (r : RegionsInfo) storeID opts : outcome E (option RegionInfo) :=
  randRegion (fun rnd => rsub.RandomRegion rnd (rs_pendingPeers r !! storeID) [] []) Intn opts.
Definition RandLeaderRegion Intn (r : RegionsInfo) storeID opts : outcome E (option RegionInfo) :=
  randRegion (fun rnd => rsub.RandomRegion rnd (rs_leaders r !! storeID) [] []) Intn opts.
Definition RandFollowerRegion Intn (r : RegionsInfo) storeID opts : outcome E (option RegionInfo) :=
  randRegion (fun rnd => rsub.RandomRegion rnd (rs_followers r !! storeID) [] []) Intn opts.

End Methods.
End regions.
