(* ===== verification/RegionsInfoProps.v ===== *)
(** * RegionsInfoProps: the cluster's regions as a set of disjoint regions

    [RegionsInfo] keeps the same regions by key and by id ([info_ok]): [SetRegion]
    replaces the region with the same id and every region that overlaps the new one,
    and [SearchRegion] finds the one region that contains a key. *)

From stdpp Require Import base option sets list sorting gmap tactics.
From S2P Require Import Prelude.
From S2P Require Import BTree.
From S2P Require Import BTreeFacts.
From S2P Require Import BTreeShape.
From S2P Require Import BTreeIter.
From S2P Require Import BTreeProps.
From S2P Require Import Metapb.
From S2P Require Import RegionInfo.
From S2P Require Import RegionTree.
From S2P Require Import RegionTreeProps.
From S2P Require Import RegionsInfo.

(** ** Items changed in place *)
Section Map.
Context {Item : Type} (f : Item -> Item).

Lemma node_map_ind (P : node Item -> Prop) :
  (forall its cs ix, Forall P cs -> P (mkNode its cs ix)) -> forall n, P n.
Proof.
  intros H. fix IH 1. intros [its cs ix]. apply H.
  induction cs as [|c cs IHc]; constructor; [apply IH|exact IHc].
Qed.

Lemma join_map ls : forall its, join (map (map f) ls) (map f its) = map f (join ls its).
Proof.
  induction ls as [|l ls IH]; intros its; [done|]. cbn. rewrite map_app. f_equal.
  destruct its as [|x its]; [apply (IH [])|]. cbn. by rewrite IH.
Qed.
Lemma inorder_map n : inorder (node_map f n) = map f (inorder n).
Proof.
  induction n as [its cs ix IH] using node_map_ind. cbn. rewrite <- join_map, !map_map. f_equal.
  induction IH as [|c cs Hc _ IHcs]; [done|]. cbn. by rewrite Hc, IHcs.
Qed.
Lemma size_map n : BTreeShape.size (node_map f n) = BTreeShape.size n.
Proof. unfold BTreeShape.size, len. by rewrite inorder_map, length_map. Qed.
Lemma items_map n : items (node_map f n) = map f (items n).
Proof. by destruct n. Qed.
Lemma wf_map mn mx h : forall n, wf mn mx h n -> wf mn mx h (node_map f n).
Proof.
  induction h as [|h IH]; intros [its cs ix]; cbn.
  - intros (Hl & -> & ->). by rewrite length_map.
  - intros (Hl & Hc & Hr & Hf). rewrite !length_map, map_map. split_and!; [done|done| |].
    + rewrite Hr. f_equal. apply map_ext. intros c. by rewrite size_map.
    + apply list.Forall_fmap. eapply list.Forall_impl; [exact Hf|]. intros c [Hm Hw]. cbn.
      rewrite items_map, length_map. split; [done|by apply IH].
Qed.
End Map.

Section Sub.
Context {E : Type}.
Implicit Types (t : regionTree) (region x y : RegionInfo).

(** A tree of regions in order, which may overlap. *)
Definition sub_ok t : Prop := bt_ok Less (rt_tree t).

Lemma sub_find t region :
  sub_ok t ->
  exists o, rtree.find (E:=E) t region = Ret o
    /\ forall r, o = Some r ->
         list.last (List.filter (fun x => negb (Less region x)) (regions t)) = Some r.
Proof.
  intros Hbt. unfold rtree.find.
  destruct (descend_methods (E:=E) Less (fun (_ : option RegionInfo) i => (Some i, false)) None
    (rt_tree t) region region Hbt) as (_ & -> & _).
  rewrite visit_first, head_rev. fold (regions t).
  eexists. split; [done|]. intros r. destruct (list.last _) as [a|]; [|done].
  destruct (Contains a _); [by intros [= ->]|done].
Qed.

Lemma sub_remove t region : sub_ok t -> exists t', rtree.remove (E:=E) t region = Ret t' /\ sub_ok t'.
Proof.
  intros Hbt. unfold rtree.remove. destruct (rtree.length t =? 0); [by exists t|].
  destruct (sub_find t region Hbt) as (o & -> & _). destruct o as [r|]; [|by exists t].
  destruct (negb _); [by exists t|].
  destruct (Delete_spec (E:=E) Less (rt_tree t) r Hbt) as (t1 & -> & Hok & _). by exists (mkRegionTree t1).
Qed.

Lemma sub_update t region : sub_ok t -> exists t' o, rtree.update (E:=E) t region = Ret (t', o) /\ sub_ok t'.
Proof.
  intros Hbt. unfold rtree.update, rtree.getOverlaps.
  destruct (sub_find t region Hbt) as (o & -> & _). cbn beta iota.
  set (start := match o with None => region | Some r => r end).
  destruct (ascend_methods (E:=E) Less (fun ov over => if before region over then (ov, false) else (ov ++ [over], true))
    [] (rt_tree t) start start Hbt) as (_ & _ & He & _).
  unfold before at 1 in He. rewrite He. clear He. cbn beta iota. set (ds := visit _ _ _).
  destruct (delete_all (E:=E) ds (rt_tree t) Hbt) as (t1 & -> & Hok1 & _).
  destruct (ReplaceOrInsert_spec (E:=E) Less t1 region Hok1) as (t2 & -> & Hok2 & _).
  by eexists _, _.
Qed.

(** Changing the found item keeps the order: the new start key lies between the
    starts of the item and of the next one. *)
Lemma set_item_sorted l region r :
  sorted Less l -> list.last (List.filter (fun x => negb (Less region x)) l) = Some r ->
  sorted Less (map (fun i => if bool_decide (GetStartKey i = GetStartKey r) then region else i) l).
Proof.
  intros Hs Hlast. set (f := fun i => _).
  assert (Hr : r ∈ l /\ Less region r = false).
  { apply last_Some_elem_of, elem_filter in Hlast as [? Hr%negb_true_iff]. done. }
  destruct Hr as [Hin Hrr]. apply list_elem_of_split in Hin as (l1 & l2 & ->).
  apply sorted_app in Hs as (Hlt & Hs1 & [Ha Hs2]%sorted_cons).
  unfold all_above in Ha. rewrite list.Forall_forall in Ha.
  assert (Hid : forall x, Less x r = true \/ Less r x = true -> f x = x).
  { intros x Hx. unfold f. rewrite bool_decide_false; [done|]. intros Heq. rewrite !Less_key, Heq in Hx.
    rewrite key_lt_irrefl in Hx. by destruct Hx. }
  assert (Hm1 : map f l1 = l1).
  { rewrite <- (map_id l1) at 2. apply map_ext_in. intros x Hx%list_elem_of_In. apply Hid. left.
    apply Hlt; [done|apply list_elem_of_here]. }
  assert (Hm2 : map f l2 = l2).
  { rewrite <- (map_id l2) at 2. apply map_ext_in. intros x Hx%list_elem_of_In. apply Hid. right. by apply Ha. }
  rewrite map_app. cbn [map]. rewrite Hm1, Hm2.
  replace (f r) with region by (unfold f; by rewrite bool_decide_true).
  apply sorted_app. split_and!; [|done|apply sorted_cons; split; [|done]].
  - intros x y Hx Hy. assert (Hxr : Less x r = true) by (apply Hlt; [done|apply list_elem_of_here]).
    apply elem_of_cons in Hy as [->|Hy].
    + rewrite Less_key in *. by eapply key_lt_le_trans.
    + apply Hlt; [done|]. by apply list_elem_of_further.
  - apply list.Forall_forall. intros y Hy. destruct (Less region y) eqn:Hry; [done|].
    rewrite List.filter_app in Hlast. cbn [List.filter] in Hlast. rewrite Hrr in Hlast. cbn [negb] in Hlast.
    assert (Hyf : y ∈ List.filter (fun x => negb (Less region x)) l2) by (apply elem_filter; by rewrite Hry).
    destruct (list_cut_last (List.filter (fun x => negb (Less region x)) l2)) as (k & z & Hk);
      [intros He; rewrite He in Hyf; by apply elem_of_nil in Hyf|].
    rewrite Hk, app_comm_cons, app_assoc, last_snoc in Hlast. injection Hlast as ->.
    assert (Hrl : r ∈ l2).
    { assert (r ∈ List.filter (fun x => negb (Less region x)) l2) as [? _]%elem_filter; [|done].
      rewrite Hk. apply elem_of_app. right. apply list_elem_of_here. }
    specialize (Ha r Hrl). by rewrite Less_key, key_lt_irrefl in Ha.
Qed.
Lemma set_item_ok t region r :
  sub_ok t -> list.last (List.filter (fun x => negb (Less region x)) (regions t)) = Some r ->
  sub_ok (setItemRegion t r region).
Proof.
  intros [Hd Hs Hl Hroot] Hlast. set (f := fun i => if bool_decide (GetStartKey i = GetStartKey r) then region else i).
  assert (Hc : contents (rt_tree (setItemRegion t r region)) = map f (contents (rt_tree t))).
  { unfold setItemRegion, contents. cbn. destruct (bt_root (rt_tree t)) as [n|]; [|done]. apply inorder_map. }
  split.
  - done.
  - rewrite Hc. by apply set_item_sorted.
  - rewrite Hc. unfold len. rewrite length_map. exact Hl.
  - intros n Hn. unfold setItemRegion in Hn. cbn in Hn. destruct (bt_root (rt_tree t)) as [n0|] eqn:Hn0; [|done].
    injection Hn as <-. destruct (Hroot n0 eq_refl) as (h & Hw & Hne). exists h. split; [by apply wf_map|].
    intros Hh. rewrite items_map. specialize (Hne Hh). by destruct (items n0).
Qed.

(** ** Subtrees *)
Definition subs_ok (m : gmap Z regionSubTree) : Prop := map_Forall (fun _ s => sub_ok (rst_regionTree s)) m.

Lemma new_tree_ok : exists t, rtree.newRegionTree (E:=E) = Ret t /\ tree_ok t /\ regions t = [].
Proof.
  destruct (New_ok (E:=E) Less defaultBTreeDegree) as [He Hok]; [unfold defaultBTreeDegree; lia|].
  unfold rtree.newRegionTree. rewrite He. eexists. split_and!; [done| |done].
  split; [done|]. split; constructor.
Qed.

Lemma updateIn_ok m storeID region :
  subs_ok m -> exists m', regions.updateIn (E:=E) m storeID region = Ret m' /\ subs_ok m'.
Proof.
  intros Hm. unfold regions.updateIn.
  assert (Hs : exists s, (match m !! storeID with Some s => Ret s | None => rsub.newRegionSubTree (E:=E) end) = Ret s
                         /\ sub_ok (rst_regionTree s)).
  { destruct (m !! storeID) as [s|] eqn:Hs; [exists s; split; [done|by apply (Hm storeID)]|].
    destruct new_tree_ok as (t & Ht & [Hbt _] & _). unfold rsub.newRegionSubTree. rewrite Ht.
    by exists (mkSubTree t 0). }
  destruct Hs as (s & -> & Hs). unfold rsub.update.
  destruct (sub_find (rst_regionTree s) region Hs) as (o & -> & Ho). destruct o as [r|].
  - eexists. split; [done|]. apply map_Forall_insert_2; [|done]. cbn. apply set_item_ok; [done|by apply Ho].
  - cbn. destruct (sub_update (rst_regionTree s) region Hs) as (t' & o & -> & Ht').
    eexists. split; [done|]. by apply map_Forall_insert_2.
Qed.

Lemma removeFrom_ok m storeID region :
  subs_ok m -> exists m', regions.removeFrom (E:=E) m storeID region = Ret m' /\ subs_ok m'.
Proof.
  intros Hm. unfold regions.removeFrom, rsub.remove. destruct (m !! storeID) as [s|] eqn:Hs; [|by exists m].
  destruct (rsub.length (Some s) =? 0).
  - eexists. split; [done|]. apply map_Forall_insert_2; [by apply (Hm storeID)|done].
  - cbn [deref]. destruct (sub_remove (rst_regionTree s) region) as (t & -> & Ht); [by apply (Hm storeID)|].
    eexists. split; [done|]. by apply map_Forall_insert_2.
Qed.
End Sub.

(** ** All regions *)
Section Info.
Context {E : Type}.
Implicit Types (region x y : RegionInfo).

(** The sum of the sizes of the regions, wrapped as the running total is. *)
Definition size_sum (m : gmap Z RegionInfo) : Z :=
  map_fold (fun _ x acc => ri_approximateSize x + acc) 0 m.
Definition map_ok (rm : regionMap) : Prop := rm_totalSize rm = int64 (size_sum (rm_m rm)).

Lemma int64_idemp a b : int64 (int64 a + b) = int64 (a + b).
Proof.
  unfold int64. f_equal. replace ((a + two63) mod two64 - two63 + b + two63)
    with ((a + two63) mod two64 + b) by lia.
  rewrite Zplus_mod_idemp_l. f_equal. lia.
Qed.
Lemma size_sum_insert m i x : m !! i = None -> size_sum (<[i := x]> m) = ri_approximateSize x + size_sum m.
Proof. intros Hi. unfold size_sum. rewrite map_fold_insert_L; [done|intros; lia|done]. Qed.
Lemma size_sum_delete m i x : m !! i = Some x -> size_sum m = ri_approximateSize x + size_sum (delete i m).
Proof. intros Hi. unfold size_sum. rewrite (map_fold_delete_L _ _ i x m); [done|intros; lia|done]. Qed.

Lemma Put_ok rm region : map_ok rm -> map_ok (rmap.Put rm region).
Proof.
  unfold map_ok, rmap.Put. intros Hm. destruct (rm_m rm !! GetID region) as [old|] eqn:Ho; cbn.
  - rewrite int64_idemp, Hm, <- Z.add_opp_r, <- Z.add_assoc, int64_idemp.
    rewrite <- insert_delete_eq, size_sum_insert by apply lookup_delete_eq.
    rewrite (size_sum_delete _ _ _ Ho). f_equal. lia.
  - rewrite Hm, int64_idemp, size_sum_insert by done. f_equal. lia.
Qed.
Lemma Delete_ok rm id : map_ok rm -> map_ok (rmap.Delete rm id).
Proof.
  unfold map_ok, rmap.Delete. intros Hm. destruct (rm_m rm !! id) as [old|] eqn:Ho; [|done]. cbn.
  rewrite Hm, <- Z.add_opp_r, int64_idemp, (size_sum_delete _ _ _ Ho). f_equal. lia.
Qed.
Lemma Delete_map rm id : rm_m (rmap.Delete rm id) = delete id (rm_m rm).
Proof.
  unfold rmap.Delete. destruct (rm_m rm !! id) eqn:Ho; [done|]. by rewrite delete_id.
Qed.
Lemma Put_map rm region : rm_m (rmap.Put rm region) = <[GetID region := region]> (rm_m rm).
Proof. unfold rmap.Put. by destruct (rm_m rm !! GetID region). Qed.

Record stores_ok (r : RegionsInfo) : Prop := {
  so_leaders : subs_ok (rs_leaders r);
  so_followers : subs_ok (rs_followers r);
  so_learners : subs_ok (rs_learners r);
  so_pending : subs_ok (rs_pendingPeers r);
}.

Lemma foldM_inv {A B} (f : A -> B -> outcome E A) (P : A -> Prop) l : forall a,
  P a -> (forall a b, b ∈ l -> P a -> exists a', f a b = Ret a' /\ P a') ->
  exists a', foldM f a l = Ret a' /\ P a'.
Proof.
  induction l as [|b l IH]; intros a Ha Hf; cbn; [by exists a|].
  destruct (Hf a b) as (a1 & -> & Ha1); [apply list_elem_of_here|done|].
  apply IH; [done|]. intros a' b' Hb. apply Hf. by apply list_elem_of_further.
Qed.

Lemma RemoveRegion_gen r region :
  tree_ok (rs_tree r) -> stores_ok r ->
  exists r', regions.RemoveRegion (E:=E) r region = Ret r'
    /\ tree_ok (rs_tree r') /\ stores_ok r' /\ rs_regions r' = rmap.Delete (rs_regions r) (GetID region)
    /\ regions (rs_tree r')
       = List.filter (fun x => negb (Contains x (GetStartKey region) && (GetID x =? GetID region)))
           (regions (rs_tree r)).
Proof.
  intros Ht Hs. unfold regions.RemoveRegion.
  destruct (tree_remove_spec (E:=E) (rs_tree r) region Ht) as (t & -> & Ht' & Hr). cbn beta iota zeta.
  set (r1 := r <| rs_tree := t |> <| rs_regions := _ |>).
  destruct (foldM_inv (fun r peer =>
           let storeID := p_StoreId peer in
           let! leaders := regions.removeFrom (rs_leaders r) storeID region in
           let! followers := regions.removeFrom (rs_followers r) storeID region in
           let! learners := regions.removeFrom (rs_learners r) storeID region in
           let! pendingPeers := regions.removeFrom (rs_pendingPeers r) storeID region in
           Ret (mkRegionsInfo (rs_tree r) (rs_regions r) leaders followers learners pendingPeers))
    (fun r' => stores_ok r' /\ rs_tree r' = t /\ rs_regions r' = rs_regions r1)
    (rg_Peers (ri_meta region)) r1) as (r' & Hf & Hs' & Ht1 & Hr1).
  - split; [by destruct Hs|done].
  - intros a p _ ([H1 H2 H3 H4] & Hat & Har). cbn beta zeta.
    destruct (removeFrom_ok (E:=E) _ (p_StoreId p) region H1) as (m1 & -> & ?).
    destruct (removeFrom_ok (E:=E) _ (p_StoreId p) region H2) as (m2 & -> & ?).
    destruct (removeFrom_ok (E:=E) _ (p_StoreId p) region H3) as (m3 & -> & ?).
    destruct (removeFrom_ok (E:=E) _ (p_StoreId p) region H4) as (m4 & -> & ?).
    eexists. by split_and!.
  - exists r'. split_and!; [exact Hf|by rewrite Ht1|done|by rewrite Hr1|by rewrite Ht1].
Qed.

(** The tree and the map hold the same regions. *)
Definition same_regions (m : gmap Z RegionInfo) (l : list RegionInfo) : Prop :=
  forall id x, m !! id = Some x <-> x ∈ l /\ GetID x = id.

Record info_ok (r : RegionsInfo) : Prop := {
  io_tree : tree_ok (rs_tree r);
  io_same : same_regions (rm_m (rs_regions r)) (regions (rs_tree r));
  io_map : map_ok (rs_regions r);
  io_stores : stores_ok r;
}.

Lemma ids_unique m l x y : same_regions m l -> x ∈ l -> y ∈ l -> GetID x = GetID y -> x = y.
Proof.
  intros Hm Hx Hy Hid.
  assert (H1 : m !! GetID x = Some x) by (by apply Hm).
  assert (H2 : m !! GetID x = Some y) by (by apply Hm). congruence.
Qed.

(** Dropping a region that is there. *)
Lemma RemoveRegion_ok r region :
  info_ok r -> region ∈ regions (rs_tree r) ->
  exists r', regions.RemoveRegion (E:=E) r region = Ret r' /\ info_ok r'
    /\ regions (rs_tree r') = List.filter (fun x => negb (GetID x =? GetID region)) (regions (rs_tree r)).
Proof.
  intros [Ht Hsame Hmap Hst] Hin.
  destruct (RemoveRegion_gen r region Ht Hst) as (r' & Hr & Ht' & Hst' & Hm' & Hl').
  assert (Hl : regions (rs_tree r') = List.filter (fun x => negb (GetID x =? GetID region)) (regions (rs_tree r))).
  { rewrite Hl'. apply filter_ext_in'. intros x Hx. f_equal.
    destruct (Z.eqb_spec (GetID x) (GetID region)) as [Hid|]; [|by rewrite andb_false_r].
    rewrite (ids_unique _ _ x region Hsame Hx Hin Hid), andb_true_r. apply valid_start.
    destruct Ht as [_ [Hv _]]. rewrite list.Forall_forall in Hv. by apply Hv. }
  exists r'. split_and!; [done| |done]. split; [done| |rewrite Hm'; by apply Delete_ok|done].
  intros id x. rewrite Hl, Hm', Delete_map, lookup_delete_Some, elem_filter, (Hsame id x).
  rewrite negb_true_iff, Z.eqb_neq. naive_solver.
Qed.
(** Removing the overlapped regions one by one: none of them is in the tree any more. *)
Lemma remove_overlapped ds : forall r,
  tree_ok (rs_tree r) -> stores_ok r -> map_ok (rs_regions r) -> base.NoDup (map GetID ds) ->
  (forall d, d ∈ ds -> rm_m (rs_regions r) !! GetID d = Some d) ->
  (forall d y, d ∈ ds -> y ∈ regions (rs_tree r) -> GetID y <> GetID d) ->
  exists r', foldM (fun r item =>
                     let! old := deref (regions.GetRegion r (GetID item)) in
                     regions.RemoveRegion (E:=E) r old) r ds = Ret r'
    /\ tree_ok (rs_tree r') /\ regions (rs_tree r') = regions (rs_tree r)
    /\ stores_ok r' /\ map_ok (rs_regions r')
    /\ forall id x, rm_m (rs_regions r') !! id = Some x
         <-> rm_m (rs_regions r) !! id = Some x /\ id ∉ map GetID ds.
Proof.
  induction ds as [|d ds IH]; intros r Ht Hs Hm Hnd Hin Hout; cbn [foldM].
  { exists r. split_and!; try done. intros id x. split; [|by intros [? _]].
    intros H. split; [done|]. apply not_elem_of_nil. }
  unfold regions.GetRegion at 1, rmap.Get. rewrite Hin by apply list_elem_of_here. cbn [deref].
  destruct (RemoveRegion_gen r d Ht Hs) as (r1 & -> & Ht1 & Hs1 & Hm1 & Hl1).
  assert (Hsame : regions (rs_tree r1) = regions (rs_tree r)).
  { rewrite Hl1. apply filter_all. apply list.Forall_forall. intros y Hy.
    rewrite (proj2 (Z.eqb_neq _ _)), andb_false_r; [done|]. apply Hout; [apply list_elem_of_here|done]. }
  cbn [map] in Hnd. apply list.NoDup_cons in Hnd as [Hd Hnd].
  destruct (IH r1) as (r2 & Hf & Ht2 & Hr2 & Hs2 & Hmp2 & Hlk); [done|done|rewrite Hm1; by apply Delete_ok|done| | |].
  - intros d' Hd'. rewrite Hm1, Delete_map, lookup_delete_ne.
    + apply Hin. by apply list_elem_of_further.
    + intros Heq. apply Hd. rewrite Heq. apply list_elem_of_fmap. by exists d'.
  - intros d' y Hd'. rewrite Hsame. apply Hout. by apply list_elem_of_further.
  - exists r2. split_and!; [done|done|by rewrite Hr2|done|done|].
    intros id x. rewrite Hlk, Hm1, Delete_map, lookup_delete_Some. cbn [map]. rewrite not_elem_of_cons.
    split; [intros ((Hne & Hx) & Hni)|intros (Hx & Hne & Hni)]; auto.
Qed.

(** Entering the region into the trees of the stores. *)
Lemma enter_stores r region :
  stores_ok r ->
  (exists r', foldM (fun r peer =>
       if p_Id peer =? GetId (ri_leader region) then
         let! m := regions.updateIn (E:=E) (rs_leaders r) (p_StoreId peer) region in Ret (r <| rs_leaders := m |>)
       else
         let! m := regions.updateIn (rs_followers r) (p_StoreId peer) region in Ret (r <| rs_followers := m |>))
     r (GetVoters region) = Ret r' /\ stores_ok r' /\ rs_tree r' = rs_tree r /\ rs_regions r' = rs_regions r)
  /\ (exists r', foldM (fun r peer =>
       let! m := regions.updateIn (E:=E) (rs_learners r) (p_StoreId peer) region in Ret (r <| rs_learners := m |>))
     r (GetLearners region) = Ret r' /\ stores_ok r' /\ rs_tree r' = rs_tree r /\ rs_regions r' = rs_regions r)
  /\ (exists r', foldM (fun r peer =>
       let! m := regions.updateIn (E:=E) (rs_pendingPeers r) (p_StoreId peer) region in Ret (r <| rs_pendingPeers := m |>))
     r (ri_pendingPeers region) = Ret r' /\ stores_ok r' /\ rs_tree r' = rs_tree r /\ rs_regions r' = rs_regions r).
Proof.
  intros Hs. split_and!; apply (foldM_inv _ (fun r' => stores_ok r' /\ rs_tree r' = rs_tree r /\ rs_regions r' = rs_regions r));
    try done; intros a p _ ([H1 H2 H3 H4] & Hat & Har); cbn beta zeta.
  - destruct (p_Id p =? _).
    + destruct (updateIn_ok (E:=E) _ (p_StoreId p) region H1) as (m & -> & ?). eexists. by split_and!.
    + destruct (updateIn_ok (E:=E) _ (p_StoreId p) region H2) as (m & -> & ?). eexists. by split_and!.
  - destruct (updateIn_ok (E:=E) _ (p_StoreId p) region H3) as (m & -> & ?). eexists. by split_and!.
  - destruct (updateIn_ok (E:=E) _ (p_StoreId p) region H4) as (m & -> & ?). eexists. by split_and!.
Qed.

Lemma sorted_NoDup l : sorted Less l -> base.NoDup l.
Proof.
  induction 1 as [|x l Hs IH Hx]; [apply base.NoDup_nil_2|]. apply list.NoDup_cons. split; [|done].
  intros Hin. rewrite list.Forall_forall in Hx. specialize (Hx x Hin). unfold lt in Hx.
  by rewrite Less_key, key_lt_irrefl in Hx.
Qed.
Lemma NoDup_ids m l p :
  same_regions m l -> base.NoDup l -> base.NoDup (map GetID (List.filter p l)).
Proof.
  intros Hm Hnd. apply NoDup_fmap_2_strong.
  - intros x y [Hx _]%elem_filter [Hy _]%elem_filter. by apply (ids_unique m l).
  - eapply sublist_NoDup; [exact Hnd|]. apply filter_sublist.
Qed.

Lemma same_overlaps x y : valid x -> valid y -> Less x y = false -> Less y x = false -> overlaps x y = true.
Proof.
  intros Hx Hy H1 H2. apply overlaps_key; [done..|]. exists (GetStartKey x).
  split; [by apply valid_start|]. rewrite (key_lt_total _ _ H1 H2). by apply valid_start.
Qed.
Lemma elem_put l region x :
  x ∈ put Less region l <-> x = region \/ (x ∈ l /\ (Less x region = true \/ Less region x = true)).
Proof.
  unfold put, below, above. rewrite elem_of_app, elem_of_cons, !elem_filter. naive_solver.
Qed.
(** After an update: the region and what did not overlap it. *)
Lemma elem_update l region x :
  Forall valid l -> valid region ->
  x ∈ put Less region (List.filter (fun y => negb (overlaps region y)) l)
    <-> x = region \/ (x ∈ l /\ overlaps region x = false).
Proof.
  intros Hl Hv. rewrite list.Forall_forall in Hl. rewrite elem_put, elem_filter, negb_true_iff. split.
  - intros [?|[? _]]; auto.
  - intros [?|[Hx Ho]]; [by left|]. right. split; [done|].
    destruct (Less x region) eqn:H1; [by left|]. destruct (Less region x) eqn:H2; [by right|].
    by rewrite (same_overlaps region x) in Ho by auto.
Qed.

Lemma AddRegion_ok r region :
  info_ok r -> valid region -> (forall y, y ∈ regions (rs_tree r) -> GetID y <> GetID region) ->
  exists r', regions.AddRegion (E:=E) r region
      = Ret (r', List.filter (overlaps region) (regions (rs_tree r)))
    /\ info_ok r'
    /\ forall x, x ∈ regions (rs_tree r')
         <-> x = region \/ (x ∈ regions (rs_tree r) /\ overlaps region x = false).
Proof.
  intros [Ht Hsame Hmap Hst] Hv Hid. unfold regions.AddRegion. set (l := regions (rs_tree r)) in *.
  assert (Hlv : Forall valid l) by apply Ht.
  destruct (update_spec (E:=E) (rs_tree r) region Ht Hv) as (t & -> & Ht' & Hr). fold l in Hr |- *.
  assert (Hel : forall x, x ∈ regions t <-> x = region \/ (x ∈ l /\ overlaps region x = false)).
  { intros x. rewrite Hr. by apply elem_update. }
  cbn beta iota zeta. set (ds := List.filter (overlaps region) l).
  destruct (remove_overlapped ds (r <| rs_tree := t |>)) as (r1 & -> & Ht1 & Hr1 & Hs1 & Hm1 & Hlk1);
    [done|by destruct Hst|done| | | |].
  { eapply NoDup_ids; [exact Hsame|]. apply sorted_NoDup, regions_ok_sorted, Ht. }
  { intros d [Hd _]%elem_filter. by apply Hsame. }
  { intros d y [Hd Hov]%elem_filter Hy. cbn in Hy. apply Hel in Hy as [->|[Hy Hno]].
    - by apply not_eq_sym, Hid.
    - intros Heq. rewrite (ids_unique _ _ y d Hsame Hy Hd Heq) in Hno. congruence. }
  cbn beta iota. set (r2 := r1 <| rs_regions := _ |>).
  destruct (enter_stores r2 region) as ((r3 & -> & Hs3 & Ht3 & Hg3) & _); [by destruct Hs1|].
  destruct (enter_stores r3 region Hs3) as (_ & (r4 & -> & Hs4 & Ht4 & Hg4) & _).
  destruct (enter_stores r4 region Hs4) as (_ & _ & (r5 & -> & Hs5 & Ht5 & Hg5)).
  assert (Htree : rs_tree r5 = rs_tree r1) by (by rewrite Ht5, Ht4, Ht3).
  assert (Hregs : rs_regions r5 = rmap.Put (rs_regions r1) region) by (by rewrite Hg5, Hg4, Hg3).
  exists r5. rewrite Htree, Hr1. split_and!; [done| |done].
  split; [by rewrite Htree| |rewrite Hregs; by apply Put_ok|done].
  intros id x. rewrite Htree, Hr1, Hregs, Put_map, lookup_insert_Some. cbn. rewrite Hel, Hlk1, (Hsame id x).
  assert (Hni : x ∈ l -> GetID x = id -> id ∉ map GetID ds <-> overlaps region x = false).
  { intros Hx <-. rewrite list_elem_of_fmap. rewrite <- not_true_iff_false. split.
    - intros Hn Ho. apply Hn. exists x. split; [done|]. by apply elem_filter.
    - intros Ho (d & Heq & [Hd Hod]%elem_filter). apply Ho.
      by rewrite (ids_unique _ _ x d Hsame Hx Hd Heq). }
  split.
  - intros [[<- <-]|[Hne [[Hx Hxi] Hnid]]]; [auto|]. split; [|done]. right. split; [done|]. by apply Hni.
  - intros [[->|[Hx Ho]] Hxi]; [by left|]. right. split; [|split; [done|by apply Hni]].
    rewrite <- Hxi. by apply not_eq_sym, Hid.
Qed.

Lemma SetRegion_ok r region :
  info_ok r -> valid region ->
  exists r' o, regions.SetRegion (E:=E) r region = Ret (r', o) /\ info_ok r'
    /\ (forall x, x ∈ o <-> x ∈ regions (rs_tree r) /\ GetID x <> GetID region /\ overlaps region x = true)
    /\ forall x, x ∈ regions (rs_tree r')
         <-> x = region \/ (x ∈ regions (rs_tree r) /\ GetID x <> GetID region /\ overlaps region x = false).
Proof.
  intros Hok Hv. unfold regions.SetRegion, regions.GetRegion, rmap.Get.
  assert (Hrm : exists r1, (match rm_m (rs_regions r) !! GetID region with
                            | Some origin => regions.RemoveRegion (E:=E) r origin | None => Ret r end) = Ret r1
    /\ info_ok r1 /\ forall x, x ∈ regions (rs_tree r1) <-> x ∈ regions (rs_tree r) /\ GetID x <> GetID region).
  { destruct (rm_m (rs_regions r) !! GetID region) as [origin|] eqn:Ho.
    - apply (io_same r Hok) in Ho as [Ho Hido].
      destruct (RemoveRegion_ok r origin Hok Ho) as (r1 & -> & Hok1 & Hl1). exists r1. split_and!; [done|done|].
      intros x. rewrite Hl1, elem_filter, negb_true_iff, Z.eqb_neq, Hido. done.
    - exists r. split_and!; [done|done|]. intros x. split; [|by intros [? _]]. intros Hx. split; [done|].
      intros Hidx. assert (Hs : rm_m (rs_regions r) !! GetID region = Some x) by (by apply (io_same r Hok)).
      congruence. }
  destruct Hrm as (r1 & -> & Hok1 & Hl1).
  destruct (AddRegion_ok r1 region Hok1 Hv) as (r2 & -> & Hok2 & Hl2).
  { intros y Hy%Hl1. apply Hy. }
  eexists _, _. split_and!; [done|done|..]; intros x.
  - rewrite elem_filter, Hl1. naive_solver.
  - rewrite Hl2, Hl1. naive_solver.
Qed.
End Info.

(** ** Histories

    The calls that change the regions: [SetRegion], and [DropCacheRegion] of the
    cluster, which removes the region with an id.  The reference keeps a list. *)
Inductive region_call := CSet (region : RegionInfo) | CDrop (id : Z).
Definition call_ok (c : region_call) : Prop :=
  match c with CSet region => valid region | CDrop _ => True end.

Section History.
Context {E : Type}.

Definition info_call (r : RegionsInfo) (c : region_call) : outcome E RegionsInfo :=
  match c with
  | CSet region => let! (r, _) := regions.SetRegion r region in Ret r
  | CDrop id => match regions.GetRegion r id with
                | Some region => regions.RemoveRegion r region
                | None => Ret r
                end
  end.
Definition info_run (cs : list region_call) : outcome E RegionsInfo :=
  let! r := regions.NewRegionsInfo in foldM info_call r cs.

Definition ref_call (l : list RegionInfo) (c : region_call) : list RegionInfo :=
  match c with
  | CSet region =>
    region :: List.filter (fun x => negb (GetID x =? GetID region) && negb (overlaps region x)) l
  | CDrop id => List.filter (fun x => negb (GetID x =? id)) l
  end.
Definition ref_run (cs : list region_call) : list RegionInfo := foldl ref_call [] cs.

(** Both hold the same regions. *)
Definition agree (r : RegionsInfo) (l : list RegionInfo) : Prop :=
  info_ok r /\ forall x, x ∈ regions (rs_tree r) <-> x ∈ l.

Lemma info_call_agree r l c :
  agree r l -> call_ok c -> exists r', info_call r c = Ret r' /\ agree r' (ref_call l c).
Proof.
  intros [Hok Hl] Hc. destruct c as [region|id]; cbn [info_call ref_call].
  - destruct (SetRegion_ok (E:=E) r region Hok Hc) as (r' & o & -> & Hok' & _ & Hl').
    exists r'. split; [done|]. split; [done|]. intros x.
    rewrite Hl', elem_of_cons, elem_filter, andb_true_iff, !negb_true_iff, Z.eqb_neq, Hl. done.
  - unfold regions.GetRegion, rmap.Get. destruct (rm_m (rs_regions r) !! id) as [region|] eqn:Hr.
    + apply (io_same r Hok) in Hr as [Hin Hid].
      destruct (RemoveRegion_ok (E:=E) r region Hok Hin) as (r' & -> & Hok' & Hl').
      exists r'. split; [done|]. split; [done|]. intros x. by rewrite Hl', !elem_filter, Hl, Hid.
    + exists r. split; [done|]. split; [done|]. intros x. rewrite elem_filter, Hl, negb_true_iff, Z.eqb_neq.
      split; [|by intros [? _]]. intros Hx. split; [done|]. intros Hid.
      assert (Hs : rm_m (rs_regions r) !! id = Some x) by (apply (io_same r Hok); by rewrite Hl). congruence.
Qed.

Lemma info_run_agree cs : Forall call_ok cs -> exists r, info_run cs = Ret r /\ agree r (ref_run cs).
Proof.
  intros Hcs. destruct (new_tree_ok (E:=E)) as (t & Ht & Hok & Hnil).
  unfold info_run, ref_run, regions.NewRegionsInfo. rewrite Ht.
  set (r0 := mkRegionsInfo _ _ _ _ _ _).
  assert (H0 : agree r0 []).
  { split; [|by intros x; cbn; rewrite Hnil].
    split; [done| |done|split; apply map_Forall_empty].
    intros id x. cbn. rewrite Hnil, lookup_empty, elem_of_nil. by split; [|intros [[] _]]. }
  revert H0. generalize r0 (@nil RegionInfo). clear r0 Ht Hok Hnil.
  induction Hcs as [|c cs Hc Hcs IH]; intros r l Ha; cbn; [by exists r|].
  destruct (info_call_agree r l c Ha Hc) as (r1 & -> & Ha1). by apply IH.
Qed.

(** When at most one element satisfies the test, [find] depends on the elements only. *)
Lemma find_unique (p : RegionInfo -> bool) l1 l2 :
  (forall x, x ∈ l1 <-> x ∈ l2) ->
  (forall x y, x ∈ l1 -> y ∈ l1 -> p x = true -> p y = true -> x = y) ->
  List.find p l1 = List.find p l2.
Proof.
  intros Hl Hu. destruct (List.find p l1) as [x|] eqn:H1; destruct (List.find p l2) as [y|] eqn:H2; [|..|done].
  - apply List.find_some in H1 as [Hx%list_elem_of_In Hpx]. apply List.find_some in H2 as [Hy%list_elem_of_In Hpy].
    f_equal. apply Hu; [done|by apply Hl|done..].
  - apply List.find_some in H1 as [Hx%list_elem_of_In Hpx]. apply Hl, list_elem_of_In in Hx.
    by rewrite (List.find_none _ _ H2 x Hx) in Hpx.
  - apply List.find_some in H2 as [Hx%list_elem_of_In Hpx]. apply Hl, list_elem_of_In in Hx.
    by rewrite (List.find_none _ _ H1 y Hx) in Hpx.
Qed.

Lemma GetRegion_agree r l id :
  agree r l -> regions.GetRegion r id = List.find (fun x => GetID x =? id) l.
Proof.
  intros [Hok Hl]. unfold regions.GetRegion, rmap.Get.
  destruct (List.find _ l) as [x|] eqn:Hf.
  - apply List.find_some in Hf as [Hx%list_elem_of_In Hid%Z.eqb_eq]. apply (io_same r Hok). by rewrite Hl.
  - destruct (rm_m (rs_regions r) !! id) as [x|] eqn:Hx; [|done].
    apply (io_same r Hok) in Hx as [Hx Hid]. rewrite Hl, list_elem_of_In in Hx.
    pose proof (List.find_none _ _ Hf x Hx) as Hn. cbn in Hn. apply Z.eqb_neq in Hn. done.
Qed.

Lemma SearchRegion_agree r l key :
  agree r l -> regions.SearchRegion (E:=E) r key = Ret (List.find (fun x => Contains x key) l).
Proof.
  intros Ha. pose proof Ha as [Hok Hl]. unfold regions.SearchRegion.
  rewrite search_spec by apply Hok. f_equal.
  rewrite (find_unique (fun x => Contains x key) (regions (rs_tree r)) l Hl).
  - destruct (List.find _ l) as [x|] eqn:Hf; [|done].
    apply List.find_some in Hf as [Hx%list_elem_of_In _]. unfold regions.GetRegion, rmap.Get.
    apply (io_same r Hok). by rewrite Hl.
  - intros x y Hx Hy. apply (contains_unique (regions (rs_tree r))); [apply Hok|done..].
Qed.
End History.

Section Scan.
Context {E : Type}.

Lemma info_lengths r : info_ok r -> regions.Length r = regions.TreeLength r.
Proof.
  intros Hok. unfold regions.Length, regions.TreeLength, rmap.Len, rtree.length, Len.
  rewrite (ok_length Less _ (to_bt _ (io_tree r Hok))). fold (regions (rs_tree r)).
  set (l := regions (rs_tree r)). pose proof (io_same r Hok) as Hs. fold l in Hs.
  assert (Hnd : base.NoDup ((map (fun x => (GetID x, x)) l).*1)).
  { rewrite <- list_fmap_compose. change (base.NoDup (map GetID l)).
    rewrite <- (filter_all (fun _ => true) l) by (by apply list.Forall_forall).
    eapply NoDup_ids; [exact Hs|]. apply sorted_NoDup, regions_ok_sorted, (io_tree r Hok). }
  assert (Hm : rm_m (rs_regions r) = list_to_map (map (fun x => (GetID x, x)) l)).
  { apply map_eq. intros id. apply option_eq. intros x. rewrite (Hs id x).
    rewrite <- elem_of_list_to_map, list_elem_of_fmap by done.
    split; [intros [Hx <-]; by exists x|intros (y & [= -> ->] & Hy); done]. }
  rewrite Hm, map_size_list_to_map by done. unfold len. by rewrite length_map.
Qed.

(** At most [limit] items; none or less is no limit. *)
Definition limited {A} (limit : Z) (l : list A) : list A :=
  if limit >? 0 then take (Z.to_nat limit) l else l.

Lemma visit_scan (stop : RegionInfo -> bool) (g : RegionInfo -> option RegionInfo) limit l :
  forall acc, (limit > 0 -> len acc <= limit) ->
  StronglySorted (fun x y => stop x = true -> stop y = true) l ->
  visit (fun res x => if stop x then (res, false)
                      else if (limit >? 0) && (len res >=? limit) then (res, false)
                      else (res ++ [g x], true)) acc l
    = if limit >? 0 then acc ++ take (Z.to_nat (limit - len acc)) (map g (List.filter (fun x => negb (stop x)) l))
      else acc ++ map g (List.filter (fun x => negb (stop x)) l).
Proof.
  induction l as [|x l IH]; intros acc Hacc Hs; cbn [visit List.filter map].
  { rewrite take_nil, app_nil_r. by destruct (limit >? 0). }
  apply StronglySorted_inv in Hs as [Hs Hx]. destruct (stop x) eqn:Hst; cbn [negb].
  { rewrite filter_none; [cbn; rewrite take_nil, app_nil_r; by destruct (limit >? 0)|].
    eapply list.Forall_impl; [exact Hx|]. intros y Hy. simpl. by rewrite Hy. }
  destruct (Z.gtb_spec limit 0) as [Hlim|Hlim]; cbn [andb map].
  - destruct (Z.geb_spec (len acc) limit) as [Hge|Hlt].
    + replace (Z.to_nat (limit - len acc)) with 0%nat by lia. by rewrite take_0, app_nil_r.
    + rewrite IH; [|intros _; rewrite len_app, len_cons, len_nil; lia|done].
      rewrite len_app, len_cons, len_nil, <- app_assoc. cbn [app].
      replace (Z.to_nat (limit - len acc)) with (S (Z.to_nat (limit - (len acc + (0 + 1))))) by lia.
      done.
  - rewrite IH; [by rewrite <- app_assoc|lia|done].
Qed.

(** The regions that intersect the range, in order, up to the limit. *)
Lemma ScanRange_spec r startKey endKey limit :
  info_ok r ->
  regions.ScanRange (E:=E) r startKey endKey limit
    = Ret (limited limit (map Some (candidates (rs_tree r) startKey endKey))).
Proof.
  intros Hok. unfold regions.ScanRange. pose proof (io_tree r Hok) as Ht. pose proof Ht as [Hbt Hr].
  rewrite scanRange_spec by done. f_equal.
  set (stop := fun x => (len endKey >? 0) && (Compare (GetStartKey x) endKey >=? 0)).
  rewrite (visit_scan stop (fun x => regions.GetRegion r (GetID x)) limit); [|intros; rewrite len_nil; lia|].
  - assert (He : map (fun x => regions.GetRegion r (GetID x))
        (List.filter (fun x => negb (stop x)) (List.filter (fun x => negb (before x (keyRegion startKey))) (regions (rs_tree r))))
      = map Some (candidates (rs_tree r) startKey endKey)).
    { rewrite filter_and. unfold candidates. erewrite List.filter_ext; [apply map_ext_in|].
      - intros x [Hx _]%filter_In. apply (io_same r Hok). split; [by apply list_elem_of_In|done].
      - intros x. cbn. unfold stop. rewrite Compare_ge, len_gt0, negb_andb, !negb_involutive. done. }
    rewrite He. unfold limited. rewrite (@len_nil (option RegionInfo)). by rewrite Z.sub_0_r.
  - eapply sorted_rel; [eapply sorted_sublist; [apply filter_sublist|apply Hbt]|].
    intros x y Hxy. unfold stop. destruct (len endKey >? 0); [cbn|done].
    rewrite !Compare_ge, !negb_true_iff. intros Hx. rewrite Less_key in Hxy.
    destruct (key_lt (GetStartKey y) endKey) eqn:Hy; [|done].
    by rewrite (key_lt_trans _ _ _ Hxy Hy) in Hx.
Qed.
End Scan.

(** ** What the cluster's regions promise *)

(** C18. After any sequence of [SetRegion] and [DropCacheRegion] calls with regions that
    are not empty, none of which fails, the B-tree, the map by id and the queries agree
    with a plain list in which a new region replaces the region with its id and every
    region it overlaps: [SearchRegion] finds the one region that contains the key,
    [GetRegion] the one with the id, and both indices have as many entries. *)
Theorem regions_refine_list {E} (cs : list region_call) :
  Forall call_ok cs ->
  exists r, info_run (E:=E) cs = Ret r
    /\ (forall key, regions.SearchRegion (E:=E) r key = Ret (List.find (fun x => Contains x key) (ref_run cs)))
    /\ (forall id, regions.GetRegion r id = List.find (fun x => GetID x =? id) (ref_run cs))
    /\ regions.Length r = regions.TreeLength r.
Proof.
  intros Hcs. destruct (info_run_agree (E:=E) cs Hcs) as (r & Hr & Ha). exists r. split_and!.
  - done.
  - intros key. by apply SearchRegion_agree.
  - intros id. by apply GetRegion_agree.
  - by apply info_lengths, Ha.
Qed.

(** [ScanRange] returns, in key order and up to the limit, exactly the regions of
    the cluster that meet the range; the regions are pairwise disjoint. *)
Theorem scan_regions_in_order {E} (cs : list region_call) :
  Forall call_ok cs ->
  exists r l, info_run (E:=E) cs = Ret r
    /\ (forall x, x ∈ l <-> x ∈ ref_run cs)
    /\ disjoint l
    /\ forall startKey endKey limit,
         regions.ScanRange (E:=E) r startKey endKey limit
         = Ret (limited limit (map Some (List.filter (fun x =>
             negb (before x (keyRegion startKey))
             && ((len endKey =? 0) || key_lt (GetStartKey x) endKey)) l))).
Proof.
  intros Hcs. destruct (info_run_agree (E:=E) cs Hcs) as (r & Hr & Hok & Hl).
  exists r, (regions (rs_tree r)). split_and!; [done|done|apply Hok|].
  intros startKey endKey limit. by apply ScanRange_spec.
Qed.

(** A random region of a range is drawn uniformly: the cluster asks for a number
    below the number of regions that meet the range and returns the region at that place
    in key order, or none when no region meets the range. *)
Theorem random_region_uniform {E} (Intn : Z -> Z) (cs : list region_call) :
  (forall n, 0 < n -> 0 <= Intn n < n) -> Forall call_ok cs ->
  exists r l, info_run (E:=E) cs = Ret r
    /\ (forall x, x ∈ l <-> x ∈ ref_run cs) /\ disjoint l
    /\ forall startKey endKey,
         let cands := List.filter (fun x => negb (before x (keyRegion startKey))
                        && ((len endKey =? 0) || key_lt (GetStartKey x) endKey)) l in
         rtree.RandomRegion (E:=E) Intn (rs_tree r) startKey endKey
         = Ret (if len cands =? 0 then None else cands !! Z.to_nat (Intn (len cands))).
Proof.
  intros HI Hcs. destruct (info_run_agree (E:=E) cs Hcs) as (r & Hr & Hok & Hl).
  exists r, (regions (rs_tree r)). split_and!; [done|done|apply Hok|].
  intros startKey endKey. apply RandomRegion_spec; [apply Hok|done].
Qed.

(** ** Samples *)
Definition sample_region (id : Z) (startKey endKey : list Z) (leader : Z) : RegionInfo :=
  NewRegionInfo
    (mkRegion id startKey endKey (Some (mkEpoch 1 1)) [mkPeer (10 * id + 1) 1; mkPeer (10 * id + 2) 2])
    (Some (mkPeer (10 * id + leader) leader)) [SetApproximateSize 10].
Definition sample_history : list region_call :=
  [CSet (sample_region 1 [] [] 1); CSet (sample_region 2 [5] [] 2); CSet (sample_region 1 [] [5] 1);
   CSet (sample_region 3 [3] [7] 1); CSet (sample_region 2 [7] [] 1); CDrop 3].

Lemma sample_history_ok : Forall call_ok sample_history.
Proof.
  unfold sample_history. rewrite !list.Forall_cons. unfold call_ok, valid.
  split_and!; (left; reflexivity) || (right; reflexivity) || done.
Qed.

Lemma regions_refine_list_witness :
  exists r, info_run (E:=Empty_set) sample_history = Ret r
    /\ regions.SearchRegion (E:=Empty_set) r [8] = Ret (Some (sample_region 2 [7] [] 1)).
Proof.
  destruct (regions_refine_list (E:=Empty_set) sample_history sample_history_ok) as (r & Hr & Hs & _).
  exists r. split; [exact Hr|]. rewrite Hs. vm_compute. reflexivity.
Defined.

Lemma scan_regions_in_order_witness :
  exists r l, info_run (E:=Empty_set) (take 5 sample_history) = Ret r
    /\ regions.ScanRange (E:=Empty_set) r [4] [] 0
       = Ret (limited 0 (map Some (List.filter (fun x => negb (before x (keyRegion [4]))
             && ((len (@nil Z) =? 0) || key_lt (GetStartKey x) [])) l))).
Proof.
  destruct (scan_regions_in_order (E:=Empty_set) (take 5 sample_history)) as (r & l & Hr & _ & _ & Hs).
  - apply Forall_take, sample_history_ok.
  - exists r, l. split; [exact Hr|]. apply (Hs [4] []).
Defined.

Lemma random_region_uniform_witness :
  (forall n, 0 < n -> 0 <= (fun n => n - 1) n < n)
  /\ exists r, info_run (E:=Empty_set) sample_history = Ret r.
Proof.
  split; [intros n Hn; lia|].
  destruct (random_region_uniform (E:=Empty_set) (fun n => n - 1) sample_history) as (r & l & Hr & _).
  - intros n Hn. lia.
  - exact sample_history_ok.
  - exists r. exact Hr.
Defined.

(** The total size of a store's leader regions is never reduced: putting the same
    region of size 10 a second time gives the store a total of 20 for one region.  An
    empty store reports 0, but the region counts three times when it comes back. *)
Theorem leader_size_never_reduced :
  let region := sample_region 1 [] [] 1 in
  let size cs := (let! r := info_run (E:=Empty_set) cs in regions.GetStoreLeaderRegionSize r 1) in
  let count cs := (let! r := info_run (E:=Empty_set) cs in Ret (regions.GetStoreLeaderCount r 1)) in
  size [CSet region] = Ret 10 /\ count [CSet region] = Ret 1
  /\ size [CSet region; CSet region] = Ret 20 /\ count [CSet region; CSet region] = Ret 1
  /\ size [CSet region; CSet region; CDrop 1] = Ret 0
  /\ size [CSet region; CSet region; CDrop 1; CSet region] = Ret 30
  /\ count [CSet region; CSet region; CDrop 1; CSet region] = Ret 1.
Proof. vm_compute. by split_and!. Qed.
