(* ===== verification/RegionIndex.v ===== *)
(** * RegionIndex: the regions of each store

    [RegionsInfo] keeps, next to the tree of all regions, one tree of regions for every store and every role of a
    peer: leaders, followers, learners and pending peers ([scheduler/server/core/region.go]).  The schedulers draw
    regions from them.  They are exact: through every sequence of updates the tree of a store holds just the regions
    of the cluster that have a peer in that role on the store. *)

From stdpp Require Import base option list gmap sorting tactics.
From S2P Require Import Prelude.
From S2P Require Import Metapb.
From S2P Require Import RegionInfo.
From S2P Require Import BTree.
From S2P Require Import BTreeShape.
From S2P Require Import BTreeFacts.
From S2P Require Import BTreeIter.
From S2P Require Import BTreeProps.
From S2P Require Import RegionTree.
From S2P Require Import RegionTreeProps.
From S2P Require Import RegionsInfo.
From S2P Require Import RegionsInfoProps.

(** ** Roles *)
Definition leads (s : Z) (x : RegionInfo) : Prop :=
  exists p, p ∈ GetVoters x /\ p_StoreId p = s /\ p_Id p = GetId (ri_leader x).
Definition follows (s : Z) (x : RegionInfo) : Prop :=
  exists p, p ∈ GetVoters x /\ p_StoreId p = s /\ p_Id p <> GetId (ri_leader x).
Definition learns (s : Z) (x : RegionInfo) : Prop := exists p, p ∈ GetLearners x /\ p_StoreId p = s.
Definition pends (s : Z) (x : RegionInfo) : Prop := exists p, p ∈ GetPendingPeers x /\ p_StoreId p = s.
Inductive role := Leading | Following | Learning | Pending.
#[export] Instance role_eq_dec : EqDecision role.
Proof. solve_decision. Defined.
Definition plays (k : role) : Z -> RegionInfo -> Prop :=
  match k with Leading => leads | Following => follows | Learning => learns | Pending => pends end.
(** Every peer that plays a role is one of the region's peers. *)
Definition placed (x : RegionInfo) : Prop :=
  forall k s, plays k s x -> s ∈ map p_StoreId (GetPeers x).

Definition regs (m : gmap Z regionSubTree) (s : Z) : list RegionInfo :=
  match m !! s with Some t => regions (rst_regionTree t) | None => [] end.
Record index_ok (m : gmap Z regionSubTree) (Q : Z -> RegionInfo -> Prop) : Prop := {
  ix_trees : forall s t, m !! s = Some t -> tree_ok (rst_regionTree t);
  ix_elem : forall s x, x ∈ regs m s <-> Q s x;
}.
Lemma index_ext m Q Q' : (forall s x, Q s x <-> Q' s x) -> index_ok m Q -> index_ok m Q'.
Proof. intros He [Ht Hx]. split; [done|]. intros s x. by rewrite Hx. Qed.

Section Index.
Context {E : Type}.
Implicit Types (m : gmap Z regionSubTree) (region x y d : RegionInfo) (r : RegionsInfo).

Lemma regs_insert m s0 t s : regs (<[s0 := t]> m) s = if decide (s = s0) then regions (rst_regionTree t) else regs m s.
Proof. unfold regs. case_decide as Hs; [subst; by rewrite lookup_insert_eq|by rewrite lookup_insert_ne]. Qed.

Lemma removeFrom_index m Q s0 d :
  index_ok m Q -> valid d -> (forall x, Q s0 x -> GetID x = GetID d -> x = d) ->
  exists m', regions.removeFrom (E:=E) m s0 d = Ret m' /\ index_ok m' (fun s x => Q s x /\ ~ (s = s0 /\ x = d)).
Proof.
  intros [Ht Hx] Hd Hid. unfold regions.removeFrom, rsub.remove.
  assert (Hsame : regs m s0 = [] -> index_ok m (fun s x => Q s x /\ ~ (s = s0 /\ x = d))).
  { intros Hn. split; [done|]. intros s x. rewrite Hx. split; [|by intros [? _]]. intros Hq. split; [done|].
    intros [-> ->]. apply Hx in Hq. rewrite Hn in Hq. by apply not_elem_of_nil in Hq. }
  destruct (m !! s0) as [t|] eqn:Hs; [|exists m; split; [done|]; apply Hsame; unfold regs; by rewrite Hs].
  pose proof (Ht s0 t Hs) as Hok. destruct (Z.eqb_spec (rsub.length (Some t)) 0) as [Hz|_].
  - exists m. rewrite insert_id by done. split; [done|]. apply Hsame. unfold regs. rewrite Hs.
    destruct Hok as [Hbt _]. unfold rsub.length, rtree.length, Len in Hz. rewrite (ok_length Less _ Hbt) in Hz. by apply len_0_nil.
  - cbn [deref]. destruct (tree_remove_spec (E:=E) (rst_regionTree t) d Hok) as (t' & -> & Hok' & Hr).
    eexists. split; [done|]. split.
    + intros s u. rewrite lookup_insert_Some. intros [[<- <-]|[_ Hu]]; [done|by eapply Ht].
    + intros s x. rewrite regs_insert. cbn. case_decide as Hss; [|rewrite Hx; naive_solver]. subst s.
      rewrite Hr, elem_filter, negb_true_iff, andb_false_iff.
      assert (Hq : x ∈ regions (rst_regionTree t) <-> Q s0 x) by (rewrite <- Hx; unfold regs; by rewrite Hs).
      rewrite Hq. split; [|intros [Hq' Hn]; split; [done|]; right; apply Z.eqb_neq; intros He; apply Hn; split; [done|by apply Hid]].
      intros [Hq' Hn]. split; [done|]. intros [_ ->]. rewrite (valid_start d Hd), Z.eqb_refl in Hn. by destruct Hn.
Qed.

(** Setting the item of a region to the region itself. *)
Lemma set_item_same t region :
  tree_ok t -> region ∈ regions t -> tree_ok (setItemRegion t region region) /\ regions (setItemRegion t region region) = regions t.
Proof.
  intros [Hbt Hr] Hin. set (f := fun i => if bool_decide (GetStartKey i = GetStartKey region) then region else i).
  assert (Hc : regions (setItemRegion t region region) = map f (regions t)).
  { unfold regions, setItemRegion, contents. cbn. destruct (bt_root (rt_tree t)) as [n|]; [|done]. apply inorder_map. }
  assert (Hm : map f (regions t) = regions t).
  { rewrite <- map_id. apply map_ext_in. intros x Hx%list_elem_of_In. unfold f. case_bool_decide as Hk; [|done].
    symmetry. apply (regions_same (regions t)); [done..|]. unfold same_as. by rewrite !Less_key, Hk, key_lt_irrefl. }
  split; [|by rewrite Hc]. split; [|by rewrite Hc, Hm].
  apply (set_item_ok t region region Hbt).
  destruct Hbt as [_ Hs _ _]. change (contents (rt_tree t)) with (regions t) in Hs.
  apply list_elem_of_split in Hin as (l1 & l2 & Hl). rewrite Hl in Hs |- *. clear -Hs.
  apply sorted_app in Hs as (Hlt & _ & [Ha _]%sorted_cons). rewrite List.filter_app. cbn [List.filter].
  rewrite Less_key, key_lt_irrefl. cbn [negb].
  replace (List.filter (fun x => negb (Less region x)) l2) with (@nil RegionInfo); [by rewrite last_snoc|].
  symmetry. apply filter_none. apply list.Forall_forall. intros y Hy. unfold all_above in Ha. rewrite list.Forall_forall in Ha.
  specialize (Ha y Hy). unfold lt in Ha. by rewrite Ha.
Qed.

Lemma updateIn_index m Q s0 region :
  index_ok m Q -> valid region -> (forall x, Q s0 x -> overlaps region x = true -> x = region) ->
  exists m', regions.updateIn (E:=E) m s0 region = Ret m' /\ index_ok m' (fun s x => Q s x \/ (s = s0 /\ x = region)).
Proof.
  intros [Ht Hx] Hv Ho. unfold regions.updateIn.
  assert (Hs : exists t, (match m !! s0 with Some s => Ret s | None => rsub.newRegionSubTree (E:=E) end) = Ret t
                         /\ tree_ok (rst_regionTree t) /\ regions (rst_regionTree t) = regs m s0).
  { unfold regs. destruct (m !! s0) as [t|] eqn:Hs; [by exists t; split_and!; [|eapply Ht|]|].
    destruct (new_tree_ok (E:=E)) as (t & He & Hok & Hn). unfold rsub.newRegionSubTree. rewrite He. by exists (mkSubTree t 0). }
  destruct Hs as (t & -> & Hok & Hr). unfold rsub.update. rewrite find_spec by done. cbn beta iota.
  assert (Hfin : forall t', tree_ok (rst_regionTree t') ->
            (forall x, x ∈ regions (rst_regionTree t') <-> x ∈ regs m s0 \/ x = region) ->
            index_ok (<[s0 := t']> m) (fun s x => Q s x \/ (s = s0 /\ x = region))).
  { intros t' Ht' He. split.
    - intros s u. rewrite lookup_insert_Some. intros [[<- <-]|[_ Hu]]; [done|by eapply Ht].
    - intros s x. rewrite regs_insert. case_decide as Hs; [subst s; rewrite He, Hx; naive_solver|rewrite Hx; naive_solver]. }
  assert (Hov : forall x, x ∈ regs m s0 -> overlaps region x = true -> x = region) by (intros x Hq; apply Ho; by apply Hx).
  rewrite <- Hr in Hov. pose proof Hok as [_ [Hval _]]. rewrite list.Forall_forall in Hval.
  destruct (List.find _ _) as [y|] eqn:Hf.
  - apply List.find_some in Hf as [Hin%list_elem_of_In Hc].
    assert (y = region) as ->.
    { apply Hov; [done|]. apply overlaps_key; [done|by apply Hval|]. exists (GetStartKey region). split; [by apply valid_start|done]. }
    destruct (set_item_same (rst_regionTree t) region Hok Hin) as [Hok' Hr']. eexists. split; [done|].
    apply Hfin; cbn; [done|]. intros x. rewrite Hr', Hr. split; [by left|]. intros [Hm| ->]; [done|by rewrite <- Hr].
  - cbn [rst_regionTree]. destruct (update_spec (E:=E) (rst_regionTree t) region Hok Hv) as (t' & He & Hok' & Hr').
    cbn. rewrite He. eexists. split; [done|]. apply Hfin; cbn; [done|]. intros x.
    rewrite Hr', elem_update by (done || apply Hok). rewrite <- Hr. split; [naive_solver|]. intros [Hin| ->]; [|by left].
    destruct (overlaps region x) eqn:Hxo; [left; by apply Hov|by right].
Qed.

(** ** All four trees *)
Definition sub_of (k : role) r : gmap Z regionSubTree :=
  match k with Leading => rs_leaders r | Following => rs_followers r | Learning => rs_learners r | Pending => rs_pendingPeers r end.
Definition set_sub (k : role) (m : gmap Z regionSubTree) r : RegionsInfo :=
  match k with Leading => r <| rs_leaders := m |> | Following => r <| rs_followers := m |>
             | Learning => r <| rs_learners := m |> | Pending => r <| rs_pendingPeers := m |> end.
Definition index4 r (Q : role -> Z -> RegionInfo -> Prop) : Prop := forall k, index_ok (sub_of k r) (Q k).
Definition index r (M : RegionInfo -> Prop) : Prop := index4 r (fun k s x => M x /\ plays k s x).

Lemma foldM_prefix {A B} (f : A -> B -> outcome E A) (P : list B -> A -> Prop) (l : list B) a :
  P [] a -> (forall ds a b, P ds a -> exists a', f a b = Ret a' /\ P (ds ++ [b]) a') ->
  exists a', foldM f a l = Ret a' /\ P l a'.
Proof.
  intros H0 Hf. change l with ([] ++ l) at 2. revert H0. generalize (@nil B) as ds. revert a.
  induction l as [|b l IH]; intros a ds H0; cbn; [exists a; by rewrite app_nil_r|].
  destruct (Hf ds a b H0) as (a1 & -> & H1). destruct (IH a1 _ H1) as (a2 & H2 & H3). exists a2. by rewrite <- app_assoc in H3.
Qed.

Lemma RemoveRegion_index r M d r' :
  index r M -> valid d -> placed d -> (forall x, M x -> GetID x = GetID d -> x = d) ->
  regions.RemoveRegion (E:=E) r d = Ret r' -> index r' (fun x => M x /\ x <> d).
Proof.
  intros Hi Hd Hp Hid. unfold regions.RemoveRegion. destruct (rtree.remove _ _) as [t| | |]; [|done..]. cbn beta iota zeta.
  set (r1 := r <| rs_tree := t |> <| rs_regions := _ |>). set (f := fun _ _ => _).
  destruct (foldM_prefix f (fun ps r => index4 r (fun k s x => (M x /\ plays k s x) /\ ~ (s ∈ map p_StoreId ps /\ x = d)))
              (rg_Peers (ri_meta d)) r1) as (r2 & -> & H2).
  - intros k. eapply index_ext; [|destruct k; apply (Hi Leading) || apply (Hi Following) || apply (Hi Learning) || apply (Hi Pending)].
    intros s x. cbn. rewrite elem_of_nil. tauto.
  - intros ps a p Ha. unfold f.
    assert (Hu : forall k, exists m', regions.removeFrom (E:=E) (sub_of k a) (p_StoreId p) d = Ret m' /\
               index_ok m' (fun s x => (M x /\ plays k s x) /\ ~ (s ∈ map p_StoreId (ps ++ [p]) /\ x = d))).
    { intros k. destruct (removeFrom_index (sub_of k a) _ (p_StoreId p) d (Ha k) Hd) as (m' & He & Hm').
      - intros x [[Hm _] _]. by apply Hid.
      - exists m'. split; [done|]. eapply index_ext; [|exact Hm']. intros s x. rewrite map_app, elem_of_app. cbn.
        rewrite list_elem_of_singleton. tauto. }
    destruct (Hu Leading) as (m1 & E1 & I1), (Hu Following) as (m2 & E2 & I2), (Hu Learning) as (m3 & E3 & I3), (Hu Pending) as (m4 & E4 & I4).
    cbn [sub_of] in E1, E2, E3, E4. rewrite E1, E2, E3, E4. eexists. split; [done|]. by intros [].
  - intros [= <-] k. eapply index_ext; [|exact (H2 k)]. intros s x. cbn. split.
    + intros [[Hm Hk] Hn]. split_and!; [done| |done]. intros ->. apply Hn. split; [|done]. by apply (Hp k).
    + intros [[Hm Hne] Hk]. split; [done|]. by intros [_ ?].
Qed.

(** Entering a region for some of its peers. *)
Lemma enter_index (rk : Peer -> role) region (f : RegionsInfo -> Peer -> outcome E RegionsInfo) ps r Q :
  (forall r p, f r p = (let! u := regions.updateIn (sub_of (rk p) r) (p_StoreId p) region in Ret (set_sub (rk p) u r))) ->
  index4 r Q -> valid region -> (forall k s x, Q k s x -> overlaps region x = true -> x = region) ->
  exists r', foldM f r ps = Ret r' /\ rs_tree r' = rs_tree r /\
    index4 r' (fun k s x => Q k s x \/ x = region /\ exists p, p ∈ ps /\ rk p = k /\ p_StoreId p = s).
Proof.
  intros Hf Hq Hv Ho.
  destruct (foldM_prefix f (fun ds r' => rs_tree r' = rs_tree r /\
     index4 r' (fun k s x => Q k s x \/ x = region /\ exists p, p ∈ ds /\ rk p = k /\ p_StoreId p = s)) ps r) as (r' & He & Ht & Hr);
    [|intros ds a p [Hat Ha]|by exists r'].
  - split; [done|]. intros k. eapply index_ext; [|exact (Hq k)]. intros s x. split; [by left|].
    intros [H|(_ & p & []%not_elem_of_nil & _)]. done.
  - rewrite Hf. destruct (updateIn_index (sub_of (rk p) a) _ (p_StoreId p) region (Ha (rk p)) Hv) as (m & -> & Hm).
    { intros x [Hx|[-> _]]; [by eapply Ho|done]. }
    eexists. split; [done|]. split; [by destruct (rk p)|].
    intros k. destruct (decide (k = rk p)) as [->|Hk].
    + replace (sub_of (rk p) (set_sub (rk p) m a)) with m by (by destruct (rk p)).
      eapply index_ext; [|exact Hm]. intros s x. cbn. split.
      * intros [[Hx|(-> & q & Hq1 & Hq2)]|[-> ->]]; [by left|right..].
        -- split; [done|]. exists q. rewrite elem_of_app. tauto.
        -- split; [done|]. exists p. rewrite elem_of_app, list_elem_of_singleton. tauto.
      * intros [Hx|(-> & q & [Hq1| ->%list_elem_of_singleton]%elem_of_app & Hq2 & <-)]; [by left; left| |by right].
        left. right. split; [done|]. by exists q.
    + replace (sub_of k (set_sub (rk p) m a)) with (sub_of k a) by (by destruct k, (rk p)).
      eapply index_ext; [|exact (Ha k)]. intros s x. cbn. split.
      * intros [Hx|(-> & q & Hq1 & Hq2)]; [by left|right]. split; [done|]. exists q. rewrite elem_of_app. tauto.
      * intros [Hx|(-> & q & [Hq1| ->%list_elem_of_singleton]%elem_of_app & Hq2 & Hq3)]; [by left|right|by rewrite <- Hq2 in Hk].
        split; [done|]. by exists q.
Qed.

Lemma remove_overlapped_index ds : forall r r' M,
  index r M -> tree_ok (rs_tree r) -> stores_ok r -> base.NoDup (map GetID ds) ->
  (forall d, d ∈ ds -> valid d /\ placed d /\ rm_m (rs_regions r) !! GetID d = Some d /\ forall x, M x -> GetID x = GetID d -> x = d) ->
  foldM (fun r item => let! old := deref (regions.GetRegion r (GetID item)) in regions.RemoveRegion (E:=E) r old) r ds = Ret r' ->
  index r' (fun x => M x /\ x ∉ ds).
Proof.
  induction ds as [|d ds IH]; intros r r' M Hi Ht Hs Hnd Hds; cbn [foldM].
  { intros [= <-] k. eapply index_ext; [|exact (Hi k)]. intros s x. cbn. rewrite elem_of_nil. tauto. }
  destruct (Hds d (list_elem_of_here _ _)) as (Hv & Hp & Hl & Hid).
  unfold regions.GetRegion at 1, rmap.Get. rewrite Hl. cbn [deref].
  destruct (RemoveRegion_gen (E:=E) r d Ht Hs) as (r1 & Hr1 & Ht1 & Hs1 & Hm1 & _). rewrite Hr1. intros Hf.
  cbn [map] in Hnd. apply list.NoDup_cons in Hnd as [Hd Hnd].
  pose proof (RemoveRegion_index r M d r1 Hi Hv Hp Hid Hr1) as Hi1.
  intros k. eapply index_ext; [|apply (IH r1 r' _ Hi1 Ht1 Hs1 Hnd); [|exact Hf]].
  - intros s x. cbn. rewrite not_elem_of_cons. tauto.
  - intros d' Hd'. destruct (Hds d' (list_elem_of_further _ _ _ Hd')) as (Hv' & Hp' & Hl' & Hid'). split_and!; [done..| |].
    + rewrite Hm1, Delete_map, lookup_delete_ne; [done|]. intros Heq. apply Hd. rewrite Heq. apply list_elem_of_fmap. by exists d'.
    + intros x [Hx _]. by apply Hid'.
Qed.

Lemma AddRegion_index r region r' o :
  info_ok r -> index r (fun x => x ∈ regions (rs_tree r)) -> (forall x, x ∈ regions (rs_tree r) -> placed x) -> valid region ->
  (forall y, y ∈ regions (rs_tree r) -> GetID y <> GetID region) -> regions.AddRegion (E:=E) r region = Ret (r', o) ->
  index r' (fun x => x = region \/ (x ∈ regions (rs_tree r) /\ overlaps region x = false)).
Proof.
  intros [Ht Hsame Hmap Hst] Hi Hpl Hv Hid. unfold regions.AddRegion. set (l := regions (rs_tree r)) in *.
  assert (Hlv : Forall valid l) by apply Ht. rewrite list.Forall_forall in Hlv.
  destruct (update_spec (E:=E) (rs_tree r) region Ht Hv) as (t & -> & Ht' & _). fold l. cbn beta iota zeta.
  set (ds := List.filter (overlaps region) l). set (r0 := r <| rs_tree := t |>).
  destruct (foldM _ r0 ds) as [r1| | |] eqn:Hf; [|done..]. cbn beta iota.
  assert (Hi1 : index r1 (fun x => x ∈ l /\ x ∉ ds)).
  { eapply (remove_overlapped_index ds r0 r1); [|done|by destruct Hst| | |exact Hf].
    - intros k. destruct k; apply (Hi Leading) || apply (Hi Following) || apply (Hi Learning) || apply (Hi Pending).
    - eapply NoDup_ids; [exact Hsame|]. apply sorted_NoDup, regions_ok_sorted, Ht.
    - intros d [Hd _]%elem_filter. split_and!; [by apply Hlv|by apply Hpl|by apply Hsame|].
      intros x Hx. by apply (ids_unique _ _ x d Hsame). }
  assert (Hno : forall x, x ∈ l /\ x ∉ ds <-> x ∈ l /\ overlaps region x = false).
  { intros x. unfold ds. rewrite elem_filter. destruct (overlaps region x); naive_solver. }
  set (r2 := r1 <| rs_regions := _ |>).
  destruct (enter_index (fun p => if p_Id p =? GetId (ri_leader region) then Leading else Following) region
    (fun r peer =>
       if p_Id peer =? GetId (ri_leader region) then
         let! u := regions.updateIn (rs_leaders r) (p_StoreId peer) region in Ret (r <| rs_leaders := u |>)
       else let! u := regions.updateIn (rs_followers r) (p_StoreId peer) region in Ret (r <| rs_followers := u |>))
    (GetVoters region) r2 (fun k s x => (x ∈ l /\ x ∉ ds) /\ plays k s x)) as (r3 & -> & _ & H3).
  { intros a p. cbn beta. by destruct (p_Id p =? _). }
  { intros k. destruct k; apply (Hi1 Leading) || apply (Hi1 Following) || apply (Hi1 Learning) || apply (Hi1 Pending). }
  { done. }
  { intros k s x [Hx _] Ho. apply Hno in Hx as [_ Hx]. congruence. }
  cbn beta iota.
  destruct (enter_index (fun _ => Learning) region
    (fun r peer => let! u := regions.updateIn (rs_learners r) (p_StoreId peer) region in Ret (r <| rs_learners := u |>))
    (GetLearners region) r3 _ (fun _ _ => eq_refl) H3 Hv) as (r4 & He4 & _ & H4).
  { intros k s x [[Hx _]|[-> _]] Ho; [|done]. apply Hno in Hx as [_ Hx]. congruence. }
  rewrite He4. cbn beta iota.
  destruct (enter_index (fun _ => Pending) region
    (fun r peer => let! u := regions.updateIn (rs_pendingPeers r) (p_StoreId peer) region in Ret (r <| rs_pendingPeers := u |>))
    (ri_pendingPeers region) r4 _ (fun _ _ => eq_refl) H4 Hv) as (r5 & He5 & _ & H5).
  { intros k s x [[[Hx _]|[-> _]]|[-> _]] Ho; [|done..]. apply Hno in Hx as [_ Hx]. congruence. }
  rewrite He5. intros [= <- <-] k. eapply index_ext; [|exact (H5 k)]. intros s x. cbn beta. rewrite Hno.
  split.
  - intros [[[[Hx Hk]|(-> & p & Hp & <- & Hs)]|(-> & p & Hp & <- & Hs)]|(-> & p & Hp & <- & Hs)].
    + split; [by right|done].
    + split; [by left|]. destruct (Z.eqb_spec (p_Id p) (GetId (ri_leader region))); by exists p.
    + split; [by left|]. by exists p.
    + split; [by left|]. by exists p.
  - intros [[->|Hx] Hk]; [|by left; left; left]. destruct k; cbn in Hk.
    + destruct Hk as (p & Hp & Hs & He). left. left. right. split; [done|]. exists p. by rewrite He, Z.eqb_refl.
    + destruct Hk as (p & Hp & Hs & He). left. left. right. split; [done|]. exists p. by rewrite (proj2 (Z.eqb_neq _ _) He).
    + destruct Hk as (p & Hp & Hs). left. right. split; [done|]. by exists p.
    + destruct Hk as (p & Hp & Hs). right. split; [done|]. by exists p.
Qed.

(** What is kept through every call. *)
Record indexed r : Prop := {
  xd_info : info_ok r;
  xd_index : index r (fun x => x ∈ regions (rs_tree r));
  xd_placed : forall x, x ∈ regions (rs_tree r) -> placed x;
}.
Lemma RemoveRegion_indexed r d r' :
  indexed r -> d ∈ regions (rs_tree r) -> regions.RemoveRegion (E:=E) r d = Ret r' -> indexed r'.
Proof.
  intros [Hok Hi Hp] Hd Hr. destruct (RemoveRegion_ok (E:=E) r d Hok Hd) as (r1 & Hr1 & Hok1 & Hl).
  rewrite Hr in Hr1. injection Hr1 as <-.
  assert (Hv : valid d) by (destruct Hok as [[_ [Hv _]] _ _ _]; rewrite list.Forall_forall in Hv; by apply Hv).
  assert (Hu : forall x, x ∈ regions (rs_tree r) -> GetID x = GetID d -> x = d) by (intros x Hx; by apply (ids_unique _ _ x d (io_same r Hok))).
  split; [done| |].
  - intros k. eapply index_ext; [|exact (RemoveRegion_index r _ d r' Hi Hv (Hp d Hd) Hu Hr k)]. intros s x. cbn.
    rewrite Hl, elem_filter, negb_true_iff, Z.eqb_neq. split; [|naive_solver]. intros [[Hx Hne] Hk]. split; [|done]. split; [done|].
    intros He. by apply Hne, Hu.
  - intros x. rewrite Hl, elem_filter. intros [Hx _]. by apply Hp.
Qed.
Lemma SetRegion_indexed r region r' o :
  indexed r -> valid region -> placed region -> regions.SetRegion (E:=E) r region = Ret (r', o) -> indexed r'.
Proof.
  intros Hx Hv Hpl Hr. destruct (SetRegion_ok (E:=E) r region (xd_info r Hx) Hv) as (r1 & o1 & Hr1 & Hok1 & _ & Hl1).
  rewrite Hr in Hr1. injection Hr1 as <- <-. unfold regions.SetRegion, regions.GetRegion, rmap.Get in Hr.
  assert (H1 : exists r1, (match rm_m (rs_regions r) !! GetID region with
      | Some origin => regions.RemoveRegion (E:=E) r origin | None => Ret r end) = Ret r1 /\ indexed r1
      /\ forall x, x ∈ regions (rs_tree r1) <-> x ∈ regions (rs_tree r) /\ GetID x <> GetID region).
  { destruct (rm_m (rs_regions r) !! GetID region) as [origin|] eqn:Ho.
    - apply (io_same r (xd_info r Hx)) in Ho as [Ho Hido].
      destruct (RemoveRegion_ok (E:=E) r origin (xd_info r Hx) Ho) as (r1 & He & _ & Hl). exists r1. split_and!; [done|by eapply RemoveRegion_indexed|].
      intros x. by rewrite Hl, elem_filter, negb_true_iff, Z.eqb_neq, Hido.
    - exists r. split_and!; [done..|]. intros x. split; [|by intros [? _]]. intros Hin. split; [done|]. intros He.
      assert (Hs : rm_m (rs_regions r) !! GetID region = Some x) by (by apply (io_same r (xd_info r Hx))). congruence. }
  destruct H1 as (r1 & He & [Hok Hi Hp] & Hl). rewrite He in Hr. cbn beta iota in Hr.
  split; [done| |].
  - intros k. eapply index_ext; [|refine (AddRegion_index r1 region r' o Hok Hi Hp Hv _ Hr k)].
    + intros s x. cbn. rewrite Hl1, Hl. tauto.
    + intros y [_ Hy]%Hl. done.
  - intros x [->|(Hin & Hne & _)]%Hl1; [done|]. by apply (xd_placed r Hx).
Qed.

(** ** Drawing a region of a store *)
Lemma RandomRegion_index m Q Intn s :
  index_ok m Q -> (forall n, 0 < n -> 0 <= Intn n < n) ->
  exists o, rsub.RandomRegion (E:=E) Intn (m !! s) [] [] = Ret o /\ forall x, o = Some x -> Q s x.
Proof.
  intros [Ht Hx] HI. unfold rsub.RandomRegion. destruct (m !! s) as [t|] eqn:Hs; [|by exists None].
  destruct (rsub.length (Some t) =? 0); [by exists None|]. cbn [deref].
  pose proof (Ht s t Hs) as Hok. rewrite (RandomRegion_spec (rst_regionTree t) Intn [] [] Hok HI). eexists. split; [done|].
  intros x. destruct (_ =? 0); [done|]. intros Hl%list_elem_of_lookup_2. apply Hx. unfold regs. rewrite Hs.
  unfold candidates in Hl. by apply elem_filter in Hl as [? _].
Qed.
Lemma randRegion_index m Q (Intn : nat -> Z -> Z) s opts :
  index_ok m Q -> (forall k n, 0 < n -> 0 <= Intn k n < n) ->
  exists o, regions.randRegion (E:=E) (fun rnd => rsub.RandomRegion rnd (m !! s) [] []) Intn opts = Ret o
    /\ forall x, o = Some x -> Q s x /\ forallb (fun opt => opt x) opts = true.
Proof.
  intros Hm HI. unfold regions.randRegion. induction regions.randomRegionMaxRetry as [|n IH]; cbn [regions.randLoop]; [by exists None|].
  destruct (RandomRegion_index m Q (Intn (S n)) s Hm (HI (S n))) as (o & -> & Ho). cbn beta iota.
  destruct o as [x|]; [|by exists None]. match goal with |- context [if ?b then _ else _] => destruct b eqn:Hf end; [|exact IH].
  eexists. split; [done|]. intros y [= <-]. split; [by apply Ho|done].
Qed.
Lemma scanRanges_index m Q s :
  index_ok m Q -> exists xs, (match m !! s with Some t => rsub.scanRanges (E:=E) (Some t) | None => Ret [] end) = Ret xs
    /\ forall x, x ∈ xs <-> Q s x.
Proof.
  intros [Ht Hx]. setoid_rewrite <- Hx. unfold regs. destruct (m !! s) as [t|] eqn:Hs; [|by exists []].
  pose proof (Ht s t Hs) as Hok. unfold rsub.scanRanges.
  destruct (Z.eqb_spec (rsub.length (Some t)) 0) as [Hz|_].
  - exists []. split; [done|]. unfold rsub.length, rtree.length, Len in Hz. destruct Hok as [Hbt _].
    rewrite (ok_length Less _ Hbt) in Hz. apply len_0_nil in Hz. unfold regions. by rewrite Hz.
  - cbn [deref]. rewrite scanRange_spec by done. rewrite (visit_collect (fun _ => false)).
    + eexists. split; [done|]. intros x. cbn [app]. rewrite !elem_filter.
      assert (Hb : before x (keyRegion []) = false) by (rewrite before_spec; by destruct (GetEndKey x)).
      rewrite Hb. tauto.
    + generalize (List.filter (fun x => negb (before x (keyRegion []))) (regions (rst_regionTree t))) as l.
      induction l; constructor; [done|]. by apply list.Forall_forall.
Qed.
End Index.

(** ** Histories *)
Definition call_placed (c : region_call) : Prop := match c with CSet region => placed region | CDrop _ => True end.

Lemma new_indexed {E} r : regions.NewRegionsInfo (E:=E) = Ret r -> indexed r.
Proof.
  destruct (new_tree_ok (E:=E)) as (t & Ht & Hok & Hnil). unfold regions.NewRegionsInfo. rewrite Ht. intros [= <-].
  split.
  - split; cbn; [done| |done|split; apply map_Forall_empty]. intros id x. rewrite Hnil, lookup_empty, elem_of_nil. by split; [|intros [[] _]].
  - intros k. split.
    + intros s u. by destruct k; cbn; rewrite lookup_empty.
    + intros s x. unfold regs. cbn [rs_tree]. rewrite Hnil, elem_of_nil.
      destruct k; cbn; rewrite lookup_empty, elem_of_nil; tauto.
  - intros x. cbn. rewrite Hnil. by intros []%elem_of_nil.
Qed.
Lemma call_indexed {E} r c r' :
  indexed r -> call_ok c -> call_placed c -> info_call (E:=E) r c = Ret r' -> indexed r'.
Proof.
  intros Hr Hc Hp. destruct c as [region|id]; cbn.
  - destruct (regions.SetRegion (E:=E) r region) as [[r1 o]| | |] eqn:Hs; [|done..]. intros [= <-]. by eapply SetRegion_indexed.
  - destruct (regions.GetRegion r id) as [region|] eqn:Hg; [|by intros [= <-]].
    apply (io_same r (xd_info r Hr)) in Hg as [Hg _]. by eapply RemoveRegion_indexed.
Qed.
Lemma run_indexed {E} cs r : Forall call_ok cs -> Forall call_placed cs -> info_run (E:=E) cs = Ret r -> indexed r.
Proof.
  unfold info_run. destruct regions.NewRegionsInfo as [r0| | |] eqn:Hn; [|done..]. apply (new_indexed (E:=E)) in Hn. revert r0 Hn.
  induction cs as [|c cs IH]; intros r0 Hn Hok Hpl; cbn [foldM]; [by intros [= <-]|].
  apply list.Forall_cons in Hok as [Hc Hok], Hpl as [Hp Hpl]. destruct (info_call r0 c) as [r1| | |] eqn:Hr1; [|done..].
  intros Hf. eapply IH; [by eapply call_indexed|done..].
Qed.

(** C19. After any sequence of [SetRegion] and [DropCacheRegion] calls with regions that are not empty and whose pending
    peers are among their peers, the trees of the stores are exact: [GetStoreRegions] gives just the regions of the
    cluster with a peer on the store, and drawing a leader, a follower or a pending region of a store never panics and
    gives a region of the cluster that has its leader, a follower or a pending peer there and passes the options. *)
Theorem store_indexes_exact {E} (Intn : nat -> Z -> Z) (cs : list region_call) :
  (forall k n, 0 < n -> 0 <= Intn k n < n) -> Forall call_ok cs -> Forall call_placed cs ->
  exists r, info_run (E:=E) cs = Ret r /\ forall s,
    (exists xs, regions.GetStoreRegions (E:=E) r s = Ret xs
       /\ forall x, x ∈ xs <-> x ∈ ref_run cs /\ (leads s x \/ follows s x))
    /\ forall opts, exists l f p,
         regions.RandLeaderRegion (E:=E) Intn r s opts = Ret l /\ regions.RandFollowerRegion (E:=E) Intn r s opts = Ret f
         /\ regions.RandPendingRegion (E:=E) Intn r s opts = Ret p
         /\ forall x, (l = Some x -> x ∈ ref_run cs /\ leads s x /\ forallb (fun opt => opt x) opts = true)
              /\ (f = Some x -> x ∈ ref_run cs /\ follows s x /\ forallb (fun opt => opt x) opts = true)
              /\ (p = Some x -> x ∈ ref_run cs /\ pends s x /\ forallb (fun opt => opt x) opts = true).
Proof.
  intros HI Hok Hpl. destruct (info_run_agree (E:=E) cs Hok) as (r & Hr & _ & Hl). exists r. split; [done|].
  pose proof (run_indexed cs r Hok Hpl Hr) as [_ Hi _]. intros s. split.
  - destruct (scanRanges_index (E:=E) _ _ s (Hi Leading)) as (ls & Els & Hls).
    destruct (scanRanges_index (E:=E) _ _ s (Hi Following)) as (fs & Efs & Hfs). cbn [sub_of] in Els, Efs.
    unfold regions.GetStoreRegions. rewrite Els, Efs. eexists. split; [done|].
    intros x. rewrite elem_of_app, Hls, Hfs, Hl. cbn. tauto.
  - intros opts.
    destruct (randRegion_index (E:=E) _ _ Intn s opts (Hi Leading) HI) as (l & El & Hll).
    destruct (randRegion_index (E:=E) _ _ Intn s opts (Hi Following) HI) as (f & Ef & Hf).
    destruct (randRegion_index (E:=E) _ _ Intn s opts (Hi Pending) HI) as (p & Ep & Hp).
    exists l, f, p. split_and!; [exact El|exact Ef|exact Ep|]. intros x. rewrite <- Hl.
    split_and!; [intros [[??] ?]%Hll|intros [[??] ?]%Hf|intros [[??] ?]%Hp]; done.
Qed.

Lemma sample_history_placed : Forall call_placed sample_history.
Proof.
  unfold sample_history. rewrite !list.Forall_cons. unfold call_placed, placed.
  split_and!; try done; intros k s Hk; apply list_elem_of_fmap;
    destruct k; destruct Hk as (p & Hp & Hs); try (by apply not_elem_of_nil in Hp); exists p;
    (split; [by (destruct Hs as [Hs _] || idtac)|exact Hp]).
Qed.
Lemma store_indexes_exact_witness :
  exists r, info_run (E:=Empty_set) sample_history = Ret r
    /\ regions.RandLeaderRegion (E:=Empty_set) (fun _ n => n - 1) r 1 [HealthRegion] = Ret (Some (sample_region 2 [7] [] 1))
    /\ leads 1 (sample_region 2 [7] [] 1).
Proof.
  destruct (store_indexes_exact (E:=Empty_set) (fun _ n => n - 1) sample_history) as (r & Hr & Hs);
    [intros k n Hn; lia|exact sample_history_ok|exact sample_history_placed|].
  assert (Hc : (let! r := info_run (E:=Empty_set) sample_history in regions.RandLeaderRegion (fun _ n => n - 1) r 1 [HealthRegion])
               = Ret (Some (sample_region 2 [7] [] 1))) by (vm_compute; reflexivity).
  rewrite Hr in Hc. exists r. split_and!; [exact Hr|exact Hc|].
  destruct (Hs 1) as [_ Hd]. destruct (Hd [HealthRegion]) as (l & f & p & Hl & _ & _ & Hx).
  rewrite Hc in Hl. injection Hl as <-. destruct (Hx (sample_region 2 [7] [] 1)) as [H1 _]. apply H1. reflexivity.
Defined.
