(* ===== verification/Store.v ===== *)
(** * Store: the stores of the cluster

    [StoreInfo] and [StoresInfo] of [scheduler/server/core/store.go] with the options
    of [store_option.go].  A [StoreInfo] is never changed after it is created: the
    setters work on a clone.  Times are nanoseconds since 1970; [time.Now] is an argument.  The
    weights, which are floats, and the closure [available] are left out. *)

From stdpp Require Import base option list gmap tactics.
From S2P Require Import Prelude.
From S2P Require Import RegionInfo.

Inductive StoreState := StoreState_Up | StoreState_Offline | StoreState_Tombstone.
#[export] Instance StoreState_eq_dec : EqDecision StoreState.
Proof. solve_decision. Defined.

Record Store := mkStore {
  st_Id : Z;
  st_Address : list Z;
  st_State : StoreState;
}.
#[export] Instance set_st_Id : Setter st_Id := fun g s =>
  mkStore (g (st_Id s)) (st_Address s) (st_State s).
#[export] Instance set_st_Address : Setter st_Address := fun g s =>
  mkStore (st_Id s) (g (st_Address s)) (st_State s).
#[export] Instance set_st_State : Setter st_State := fun g s =>
  mkStore (st_Id s) (st_Address s) (g (st_State s)).


(** The statistics a store reports, as far as they are read. *)
Record StoreStats := mkStoreStats {
  ss_StoreId : Z;
  ss_Capacity : Z;
  ss_Available : Z;
  ss_RegionCount : Z;
  ss_SendingSnapCount : Z;
  ss_ReceivingSnapCount : Z;
  ss_StartTime : Z;
  ss_ApplyingSnapCount : Z;
  ss_IsBusy : bool;
  ss_UsedSize : Z;
}.
Definition zero_StoreStats : StoreStats := mkStoreStats 0 0 0 0 0 0 0 0 false 0.

Record StoreInfo := mkStoreInfo {
  si_meta : Store;
  si_stats : option StoreStats;
  si_blocked : bool;
  si_leaderCount : Z;
  si_regionCount : Z;
  si_leaderSize : Z;
  si_regionSize : Z;
  si_pendingPeerCount : Z;
  si_lastHeartbeatTS : Z;
}.
#[export] Instance set_si_meta : Setter si_meta := fun g s =>
  mkStoreInfo (g (si_meta s)) (si_stats s) (si_blocked s) (si_leaderCount s) (si_regionCount s) (si_leaderSize s) (si_regionSize s) (si_pendingPeerCount s) (si_lastHeartbeatTS s).
#[export] Instance set_si_stats : Setter si_stats := fun g s =>
  mkStoreInfo (si_meta s) (g (si_stats s)) (si_blocked s) (si_leaderCount s) (si_regionCount s) (si_leaderSize s) (si_regionSize s) (si_pendingPeerCount s) (si_lastHeartbeatTS s).
#[export] Instance set_si_blocked : Setter si_blocked := fun g s =>
  mkStoreInfo (si_meta s) (si_stats s) (g (si_blocked s)) (si_leaderCount s) (si_regionCount s) (si_leaderSize s) (si_regionSize s) (si_pendingPeerCount s) (si_lastHeartbeatTS s).
#[export] Instance set_si_leaderCount : Setter si_leaderCount := fun g s =>
  mkStoreInfo (si_meta s) (si_stats s) (si_blocked s) (g (si_leaderCount s)) (si_regionCount s) (si_leaderSize s) (si_regionSize s) (si_pendingPeerCount s) (si_lastHeartbeatTS s).
#[export] Instance set_si_regionCount : Setter si_regionCount := fun g s =>
  mkStoreInfo (si_meta s) (si_stats s) (si_blocked s) (si_leaderCount s) (g (si_regionCount s)) (si_leaderSize s) (si_regionSize s) (si_pendingPeerCount s) (si_lastHeartbeatTS s).
#[export] Instance set_si_leaderSize : Setter si_leaderSize := fun g s =>
  mkStoreInfo (si_meta s) (si_stats s) (si_blocked s) (si_leaderCount s) (si_regionCount s) (g (si_leaderSize s)) (si_regionSize s) (si_pendingPeerCount s) (si_lastHeartbeatTS s).
#[export] Instance set_si_regionSize : Setter si_regionSize := fun g s =>
  mkStoreInfo (si_meta s) (si_stats s) (si_blocked s) (si_leaderCount s) (si_regionCount s) (si_leaderSize s) (g (si_regionSize s)) (si_pendingPeerCount s) (si_lastHeartbeatTS s).
#[export] Instance set_si_pendingPeerCount : Setter si_pendingPeerCount := fun g s =>
  mkStoreInfo (si_meta s) (si_stats s) (si_blocked s) (si_leaderCount s) (si_regionCount s) (si_leaderSize s) (si_regionSize s) (g (si_pendingPeerCount s)) (si_lastHeartbeatTS s).
#[export] Instance set_si_lastHeartbeatTS : Setter si_lastHeartbeatTS := fun g s =>
  mkStoreInfo (si_meta s) (si_stats s) (si_blocked s) (si_leaderCount s) (si_regionCount s) (si_leaderSize s) (si_regionSize s) (si_pendingPeerCount s) (g (si_lastHeartbeatTS s)).


(** ** Options *)
Definition StoreCreateOption : Type := StoreInfo -> StoreInfo.
Definition SetStoreAddress (address : list Z) : StoreCreateOption := fun store =>
  let meta := si_meta store in
  let meta := meta <| st_Address := address |> in
  store <| si_meta := meta |>.
Definition SetStoreState (state : StoreState) : StoreCreateOption := fun store =>
  let meta := si_meta store in
  let meta := meta <| st_State := state |> in
  store <| si_meta := meta |>.
Definition SetStoreBlock : StoreCreateOption := fun store => store <| si_blocked := true |>.
Definition SetStoreUnBlock : StoreCreateOption := fun store => store <| si_blocked := false |>.
Definition SetLeaderCount (leaderCount : Z) : StoreCreateOption := fun store =>
  store <| si_leaderCount := leaderCount |>.
Definition SetRegionCount (regionCount : Z) : StoreCreateOption := fun store =>
  store <| si_regionCount := regionCount |>.
Definition SetPendingPeerCount (pendingPeerCount : Z) : StoreCreateOption := fun store =>
  store <| si_pendingPeerCount := pendingPeerCount |>.
Definition SetLeaderSize (leaderSize : Z) : StoreCreateOption := fun store =>
  store <| si_leaderSize := leaderSize |>.
Definition SetRegionSize (regionSize : Z) : StoreCreateOption := fun store =>
  store <| si_regionSize := regionSize |>.
Definition SetLastHeartbeatTS (lastHeartbeatTS : Z) : StoreCreateOption := fun store =>
  store <| si_lastHeartbeatTS := lastHeartbeatTS |>.
Definition SetStoreStats (stats : option StoreStats) : StoreCreateOption := fun store =>
  store <| si_stats := stats |>.

Module store.
Definition second : Z := 1000000000.
(** [time.Time{}], the first of January of the year 1. *)
Definition zeroTime : Z := - (62135596800 * second).
(** [Time.Sub] stays within a [Duration]. *)
Definition subTime (t u : Z) : Z := Z.max (- 2 ^ 63) (Z.min (t - u) (2 ^ 63 - 1)).

Definition applyOptions (s : StoreInfo) (opts : list StoreCreateOption) : StoreInfo :=
  foldl (fun s opt => opt s) s opts.
Definition NewStoreInfo (meta : Store) (opts : list StoreCreateOption) : StoreInfo :=
  applyOptions (mkStoreInfo meta (Some zero_StoreStats) false 0 0 0 0 0 zeroTime) opts.
Definition Clone (s : StoreInfo) (opts : list StoreCreateOption) : StoreInfo := applyOptions s opts.

(** ** Getters *)
Definition GetState (s : StoreInfo) : StoreState := st_State (si_meta s).
Definition GetAddress (s : StoreInfo) : list Z := st_Address (si_meta s).
Definition GetID (s : StoreInfo) : Z := st_Id (si_meta s).
Definition IsBlocked (s : StoreInfo) : bool := si_blocked s.
Definition IsUp (s : StoreInfo) : bool := bool_decide (GetState s = StoreState_Up).
Definition IsOffline (s : StoreInfo) : bool := bool_decide (GetState s = StoreState_Offline).
Definition IsTombstone (s : StoreInfo) : bool := bool_decide (GetState s = StoreState_Tombstone).
Definition DownTime (now : Z) (s : StoreInfo) : Z := subTime now (si_lastHeartbeatTS s).

(** The getters of a nil [StoreStats] return zero. *)
Definition stat (f : StoreStats -> Z) (s : StoreInfo) : Z :=
  match si_stats s with Some st => f st | None => 0 end.
Definition GetCapacity : StoreInfo -> Z := stat ss_Capacity.
Definition GetAvailable : StoreInfo -> Z := stat ss_Available.
Definition GetUsedSize : StoreInfo -> Z := stat ss_UsedSize.
Definition IsBusy (s : StoreInfo) : bool :=
  match si_stats s with Some st => ss_IsBusy st | None => false end.
Definition GetSendingSnapCount : StoreInfo -> Z := stat ss_SendingSnapCount.
Definition GetReceivingSnapCount : StoreInfo -> Z := stat ss_ReceivingSnapCount.
Definition GetApplyingSnapCount : StoreInfo -> Z := stat ss_ApplyingSnapCount.
Definition GetStartTime : StoreInfo -> Z := stat ss_StartTime.
Definition StorageSize (s : StoreInfo) : Z := GetUsedSize s.

Inductive ResourceKind := LeaderKind | RegionKind | OtherKind.
Definition ResourceCount (s : StoreInfo) (kind : ResourceKind) : Z :=
  match kind with
  | LeaderKind => si_leaderCount s mod 2 ^ 64
  | RegionKind => si_regionCount s mod 2 ^ 64
  | OtherKind => 0
  end.
Definition ResourceSize (s : StoreInfo) (kind : ResourceKind) : Z :=
  match kind with LeaderKind => si_leaderSize s | RegionKind => si_regionSize s | OtherKind => 0 end.

Definition GetStartTS (s : StoreInfo) : Z := GetStartTime s * second.
Definition GetUptime (s : StoreInfo) : Z :=
  let uptime := subTime (si_lastHeartbeatTS s) (GetStartTS s) in
  if uptime >? 0 then uptime else 0.
Definition storeDisconnectDuration : Z := 20 * second.
Definition storeUnhealthDuration : Z := 10 * 60 * second.
Definition IsDisconnected (now : Z) (s : StoreInfo) : bool := DownTime now s >? storeDisconnectDuration.
Definition IsUnhealth (now : Z) (s : StoreInfo) : bool := DownTime now s >? storeUnhealthDuration.
End store.

(** ** All stores *)
Inductive store_error :=
  | NewStoreNotFoundErr (storeID : Z)
  | StoreBlockedErr (storeID : Z)
  | StoreTombstonedErr (storeID : Z)
  | ErrInvalidStore
  | ErrDuplicatedAddress
  | ErrStoreStillUp
  | ErrSave.

Definition StoresInfo : Type := gmap Z StoreInfo.

Module stores.
Definition NewStoresInfo : StoresInfo := ∅.
Definition GetStore (s : StoresInfo) (storeID : Z) : option StoreInfo := s !! storeID.
Definition TakeStore (s : StoresInfo) (storeID : Z) : option StoreInfo := s !! storeID.
Definition SetStore (s : StoresInfo) (x : StoreInfo) : StoresInfo := <[store.GetID x := x]> s.

Definition BlockStore (s : StoresInfo) (storeID : Z) : outcome store_error StoresInfo :=
  match s !! storeID with
  | None => Err (NewStoreNotFoundErr storeID)
  | Some x =>
    if store.IsBlocked x then Err (StoreBlockedErr storeID) else
    Ret (<[storeID := store.Clone x [SetStoreBlock]]> s)
  end.
(** [log.Fatal] ends the process. *)
Definition UnblockStore (s : StoresInfo) (storeID : Z) : outcome store_error StoresInfo :=
  match s !! storeID with
  | None => Panic
  | Some x => Ret (<[storeID := store.Clone x [SetStoreUnBlock]]> s)
  end.

Definition GetStores (s : StoresInfo) : list StoreInfo := map snd (map_to_list s).
Definition GetMetaStores (s : StoresInfo) : list Store := map si_meta (GetStores s).
Definition DeleteStore (s : StoresInfo) (x : StoreInfo) : StoresInfo := delete (store.GetID x) s.
Definition GetStoreCount (s : StoresInfo) : Z := Z.of_nat (size s).

(** [if store, ok := s.stores[storeID]; ok { s.stores[storeID] = store.Clone(opt) }]. *)
Definition change (s : StoresInfo) (storeID : Z) (opt : StoreCreateOption) : StoresInfo :=
  match s !! storeID with Some x => <[storeID := store.Clone x [opt]]> s | None => s end.
Definition SetLeaderCount s storeID n := change s storeID (SetLeaderCount n).
Definition SetRegionCount s storeID n := change s storeID (SetRegionCount n).
Definition SetPendingPeerCount s storeID n := change s storeID (SetPendingPeerCount n).
Definition SetLeaderSize s storeID n := change s storeID (SetLeaderSize n).
Definition SetRegionSize s storeID n := change s storeID (SetRegionSize n).

Definition UpdateStoreStatus (s : StoresInfo) (storeID leaderCount regionCount pendingPeerCount
    leaderSize regionSize : Z) : StoresInfo :=
  match s !! storeID with
  | Some x =>
    SetStore s (store.Clone x [Store.SetLeaderCount leaderCount; Store.SetRegionCount regionCount;
                               Store.SetPendingPeerCount pendingPeerCount;
                               Store.SetLeaderSize leaderSize; Store.SetRegionSize regionSize])
  | None => s
  end.
End stores.
