(* ===== verification/Cluster.v ===== *)
(** * Cluster: the scheduler's view of the cluster

    [BasicCluster] of [scheduler/server/core/basic_cluster.go] and the region and
    store handling of [RaftCluster] in [scheduler/server/cluster.go].  A method is one
    step.  Those that change stores hold the lock for their whole run;
    [processRegionHeartbeat] does not, so the model is of heartbeats that are
    processed one after the other.  Writing a store to the storage may fail:
    [saveStore] and [dropStore] say when, and are parameters (without a storage they
    are always true). *)

From stdpp Require Import base option list gmap tactics.
From S2P Require Import Prelude.
From S2P Require Import Metapb.
From S2P Require Import RegionInfo.
From S2P Require Import RegionTree.
From S2P Require Import RegionsInfo.
From S2P Require Import Store.

Record BasicCluster := mkBasicCluster {
  bc_Stores : StoresInfo;
  bc_Regions : RegionsInfo;
}.
#[export] Instance set_bc_Stores : Setter bc_Stores := fun g c =>
  mkBasicCluster (g (bc_Stores c)) (bc_Regions c).
#[export] Instance set_bc_Regions : Setter bc_Regions := fun g c =>
  mkBasicCluster (bc_Stores c) (g (bc_Regions c)).


Inductive cluster_error :=
  | ErrStore (e : store_error)
  | ErrRegionIsStale (region origin : Region).

(** A store error inside a method of the cluster. *)
Definition lift {A} (o : outcome store_error A) : outcome cluster_error A :=
  match o with Ret a => Ret a | Err e => Err (ErrStore e) | Panic => Panic | OutOfFuel => OutOfFuel end.

Module basic.
Definition result A := outcome cluster_error A.
Implicit Types (bc : BasicCluster) (storeID : Z).

Definition NewBasicCluster : result BasicCluster :=
  let! rs := regions.NewRegionsInfo in Ret (mkBasicCluster stores.NewStoresInfo rs).
Definition GetStores bc : list StoreInfo := stores.GetStores (bc_Stores bc).
Definition GetMetaStores bc : list Store := stores.GetMetaStores (bc_Stores bc).
Definition GetStore bc storeID : option StoreInfo := stores.GetStore (bc_Stores bc) storeID.
Definition GetRegion bc (regionID : Z) : option RegionInfo := regions.GetRegion (bc_Regions bc) regionID.
Definition GetRegions bc : list RegionInfo := regions.GetRegions (bc_Regions bc).
Definition GetMetaRegions bc : list Region := regions.GetMetaRegions (bc_Regions bc).
Definition GetStoreRegions bc storeID : result (list RegionInfo) :=
  regions.GetStoreRegions (bc_Regions bc) storeID.
(** The order is that of a Go map. *)
Definition GetRegionStores bc (region : RegionInfo) : list StoreInfo :=
  omap (fun id => stores.GetStore (bc_Stores bc) id) (elements (GetStoreIds region)).
Definition GetFollowerStores bc (region : RegionInfo) : list StoreInfo :=
  omap (fun id => stores.GetStore (bc_Stores bc) id) (map fst (map_to_list (GetFollowers region))).
Definition GetLeaderStore bc (region : RegionInfo) : option StoreInfo :=
  stores.GetStore (bc_Stores bc) (GetStoreId (RegionInfo.GetLeader region)).

Definition BlockStore bc storeID : result BasicCluster :=
  let! s := lift (stores.BlockStore (bc_Stores bc) storeID) in Ret (bc <| bc_Stores := s |>).
Definition UnblockStore bc storeID : result BasicCluster :=
  let! s := lift (stores.UnblockStore (bc_Stores bc) storeID) in Ret (bc <| bc_Stores := s |>).
Definition UpdateStoreStatus bc storeID leaderCount regionCount pendingPeerCount leaderSize regionSize
    : BasicCluster :=
  bc <| bc_Stores := stores.UpdateStoreStatus (bc_Stores bc) storeID leaderCount regionCount
                       pendingPeerCount leaderSize regionSize |>.

Definition RandFollowerRegion Intn bc storeID opts : result (option RegionInfo) :=
  regions.RandFollowerRegion Intn (bc_Regions bc) storeID opts.
Definition RandLeaderRegion Intn bc storeID opts : result (option RegionInfo) :=
  regions.RandLeaderRegion Intn (bc_Regions bc) storeID opts.
Definition RandPendingRegion Intn bc storeID opts : result (option RegionInfo) :=
  regions.RandPendingRegion Intn (bc_Regions bc) storeID opts.

Definition GetRegionCount bc : Z := regions.GetRegionCount (bc_Regions bc).
Definition GetStoreCount bc : Z := stores.GetStoreCount (bc_Stores bc).
Definition GetStoreRegionCount bc storeID : Z :=
  regions.GetStoreLeaderCount (bc_Regions bc) storeID + regions.GetStoreFollowerCount (bc_Regions bc) storeID
  + regions.GetStoreLearnerCount (bc_Regions bc) storeID.
Definition GetStoreLeaderCount bc storeID : Z := regions.GetStoreLeaderCount (bc_Regions bc) storeID.
Definition GetStoreFollowerCount bc storeID : Z := regions.GetStoreFollowerCount (bc_Regions bc) storeID.
Definition GetStorePendingPeerCount bc storeID : Z :=
  regions.GetStorePendingPeerCount (bc_Regions bc) storeID.
Definition GetStoreLeaderRegionSize bc storeID : result Z :=
  regions.GetStoreLeaderRegionSize (bc_Regions bc) storeID.
Definition GetStoreRegionSize bc storeID : result Z :=
  let! a := regions.GetStoreLeaderRegionSize (bc_Regions bc) storeID in
  let! b := regions.GetStoreFollowerRegionSize (bc_Regions bc) storeID in
  let! c := regions.GetStoreLearnerRegionSize (bc_Regions bc) storeID in
  Ret (int64 (int64 (a + b) + c)).
Definition GetAverageRegionSize bc : Z := regions.GetAverageRegionSize (bc_Regions bc).

Definition PutStore bc (x : StoreInfo) : BasicCluster :=
  bc <| bc_Stores := stores.SetStore (bc_Stores bc) x |>.
Definition DeleteStore bc (x : StoreInfo) : BasicCluster :=
  bc <| bc_Stores := stores.DeleteStore (bc_Stores bc) x |>.
Definition TakeStore bc storeID : option StoreInfo := stores.TakeStore (bc_Stores bc) storeID.
Definition PutRegion bc (region : RegionInfo) : result (BasicCluster * list RegionInfo) :=
  let! (rs, overlaps) := regions.SetRegion (bc_Regions bc) region in
  Ret (bc <| bc_Regions := rs |>, overlaps).
Definition RemoveRegion bc (region : RegionInfo) : result BasicCluster :=
  let! rs := regions.RemoveRegion (bc_Regions bc) region in Ret (bc <| bc_Regions := rs |>).
Definition SearchRegion bc (regionKey : list Z) : result (option RegionInfo) :=
  regions.SearchRegion (bc_Regions bc) regionKey.
Definition SearchPrevRegion bc (regionKey : list Z) : result (option RegionInfo) :=
  regions.SearchPrevRegion (bc_Regions bc) regionKey.
Definition ScanRange bc (startKey endKey : list Z) (limit : Z) : result (list (option RegionInfo)) :=
  regions.ScanRange (bc_Regions bc) startKey endKey limit.
Definition GetOverlaps bc (region : RegionInfo) : result (list RegionInfo) :=
  regions.GetOverlaps (bc_Regions bc) region.
Definition Length bc : Z := regions.Length (bc_Regions bc).
End basic.

(** ** [RaftCluster] *)
Module cluster.
Section Methods.
Context (saveStore dropStore : Store -> bool).
Abbreviation result A := (outcome cluster_error A).

Definition GetStore (c : BasicCluster) (storeID : Z) : option StoreInfo := basic.GetStore c storeID.
Definition GetRegion (c : BasicCluster) (regionID : Z) : option RegionInfo := basic.GetRegion c regionID.
Definition ScanRegions (c : BasicCluster) (startKey endKey : list Z) (limit : Z)
    : result (list (option RegionInfo)) := basic.ScanRange c startKey endKey limit.

Definition isInitialized (MaxReplicas : Z) (c : BasicCluster) : result bool :=
  if basic.GetRegionCount c >? 1 then Ret true else
  let! region := basic.SearchRegion c [] in
  Ret (match region with
       | None => false
       | Some x => (len (GetVoters x) >=? MaxReplicas) && (len (GetPendingPeers x) =? 0)
       end).

(** ** Regions *)
Definition putRegion (c : BasicCluster) (region : RegionInfo) : result BasicCluster :=
  let! (c, _) := basic.PutRegion c region in Ret c.

Definition updateStoreStatusLocked (c : BasicCluster) (id : Z) : result BasicCluster :=
  let leaderCount := basic.GetStoreLeaderCount c id in
  let regionCount := basic.GetStoreRegionCount c id in
  let pendingPeerCount := basic.GetStorePendingPeerCount c id in
  let! leaderRegionSize := basic.GetStoreLeaderRegionSize c id in
  let! regionSize := basic.GetStoreRegionSize c id in
  Ret (basic.UpdateStoreStatus c id leaderCount regionCount pendingPeerCount leaderRegionSize regionSize).

Definition updateRegion (c : BasicCluster) (region : RegionInfo) : result BasicCluster :=
  let! c := putRegion c region in
  foldM updateStoreStatusLocked c (elements (GetStoreIds region)).

(** [regionEpoch.Version < rEpoch.Version || regionEpoch.Version < rEpoch.ConfVer]. *)
Definition staleEpoch (regionEpoch rEpoch : RegionEpoch) : bool :=
  (ep_Version regionEpoch <? ep_Version rEpoch) || (ep_Version regionEpoch <? ep_ConfVer rEpoch).

(** [r] is nil-checked by the caller; its epoch is not. *)
Definition checkStale (region : RegionInfo) (regionEpoch : RegionEpoch) (r : RegionInfo) : result unit :=
  let! rEpoch := deref (GetRegionEpoch r) in
  if staleEpoch regionEpoch rEpoch then Err (ErrRegionIsStale (GetMeta region) (GetMeta r))
  else Ret tt.

Definition processRegionHeartbeat (c : BasicCluster) (region : RegionInfo) : result BasicCluster :=
  match GetRegionEpoch region with
  | None => Ret c
  | Some regionEpoch =>
    let! _ := (match GetRegion c (GetID region) with
               | Some r => checkStale region regionEpoch r
               | None =>
                 let! overlapRegions := ScanRegions c (GetStartKey region) (GetEndKey region) 0 in
                 foldM (fun _ r => let! r := deref r in checkStale region regionEpoch r) tt overlapRegions
               end) in
    updateRegion c region
  end.

Definition DropCacheRegion (c : BasicCluster) (id : Z) : result BasicCluster :=
  match GetRegion c id with
  | Some region => basic.RemoveRegion c region
  | None => Ret c
  end.

Definition GetRegionByKey (c : BasicCluster) (regionKey : list Z) : result (option Region * option Peer) :=
  let! region := basic.SearchRegion c regionKey in
  Ret (match region with None => (None, None) | Some x => (Some (GetMeta x), RegionInfo.GetLeader x) end).
Definition GetPrevRegionByKey (c : BasicCluster) (regionKey : list Z) : result (option Region * option Peer) :=
  let! region := basic.SearchPrevRegion c regionKey in
  Ret (match region with None => (None, None) | Some x => (Some (GetMeta x), RegionInfo.GetLeader x) end).
Definition GetRegionByID (c : BasicCluster) (regionID : Z) : option Region * option Peer :=
  match GetRegion c regionID with
  | None => (None, None)
  | Some x => (Some (GetMeta x), RegionInfo.GetLeader x)
  end.

(** ** Stores *)
Definition putStoreLocked (c : BasicCluster) (x : StoreInfo) : result BasicCluster :=
  if negb (saveStore (si_meta x)) then Err (ErrStore ErrSave) else Ret (basic.PutStore c x).
Definition deleteStoreLocked (c : BasicCluster) (x : StoreInfo) : result BasicCluster :=
  if negb (dropStore (si_meta x)) then Err (ErrStore ErrSave) else Ret (basic.DeleteStore c x).

Definition handleStoreHeartbeat (now : Z) (c : BasicCluster) (stats : StoreStats) : result BasicCluster :=
  let storeID := ss_StoreId stats in
  match GetStore c storeID with
  | None => Err (ErrStore (NewStoreNotFoundErr storeID))
  | Some x =>
    Ret (basic.PutStore c (store.Clone x [SetStoreStats (Some stats); SetLastHeartbeatTS now]))
  end.

Definition putStore (c : BasicCluster) (x : Store) : result BasicCluster :=
  if st_Id x =? 0 then Err (ErrStore ErrInvalidStore) else
  if existsb (fun s => negb (store.IsTombstone s) && negb (store.GetID s =? st_Id x)
                       && bool_decide (store.GetAddress s = st_Address x)) (basic.GetStores c)
  then Err (ErrStore ErrDuplicatedAddress) else
  let s := match GetStore c (st_Id x) with
           | None => store.NewStoreInfo x []
           | Some s => store.Clone s [SetStoreAddress (st_Address x)]
           end in
  putStoreLocked c s.

Definition RemoveStore (c : BasicCluster) (storeID : Z) : result BasicCluster :=
  match GetStore c storeID with
  | None => Err (ErrStore (NewStoreNotFoundErr storeID))
  | Some s =>
    if store.IsOffline s then Ret c else
    if store.IsTombstone s then Err (ErrStore (StoreTombstonedErr storeID)) else
    putStoreLocked c (store.Clone s [Store.SetStoreState StoreState_Offline])
  end.

Definition BuryStore (c : BasicCluster) (storeID : Z) (force : bool) : result BasicCluster :=
  match GetStore c storeID with
  | None => Err (ErrStore (NewStoreNotFoundErr storeID))
  | Some s =>
    if store.IsTombstone s then Ret c else
    if store.IsUp s && negb force then Err (ErrStore ErrStoreStillUp) else
    putStoreLocked c (store.Clone s [Store.SetStoreState StoreState_Tombstone])
  end.

Definition SetStoreState (c : BasicCluster) (storeID : Z) (state : StoreState) : result BasicCluster :=
  match GetStore c storeID with
  | None => Err (ErrStore (NewStoreNotFoundErr storeID))
  | Some s => putStoreLocked c (store.Clone s [Store.SetStoreState state])
  end.

(** A failed [BuryStore] is logged, and the loop goes on. *)
Definition checkStores (c : BasicCluster) : result BasicCluster :=
  foldM (fun c s =>
           if store.IsTombstone s then Ret c else
           if store.IsUp s then Ret c else
           if basic.GetStoreRegionCount c (store.GetID s) =? 0 then
             match BuryStore c (store.GetID s) false with Err _ => Ret c | o => o end
           else Ret c)
    c (basic.GetStores c).

(** The stores deleted before the first error stay deleted. *)
Fixpoint tombstoneLoop (c : BasicCluster) (xs : list StoreInfo) : BasicCluster * option cluster_error :=
  match xs with
  | [] => (c, None)
  | s :: xs =>
    if store.IsTombstone s then
      match deleteStoreLocked c s with
      | Ret c => tombstoneLoop c xs
      | Err e => (c, Some e)
      | _ => (c, None)
      end
    else tombstoneLoop c xs
  end.
Definition RemoveTombStoneRecords (c : BasicCluster) : BasicCluster * option cluster_error :=
  tombstoneLoop c (basic.GetStores c).

Definition takeRegionStoresLocked (c : BasicCluster) (region : RegionInfo) : list StoreInfo :=
  omap (fun p => basic.TakeStore c (p_StoreId p)) (GetPeers region).

End Methods.
End cluster.
