(* ===== verification/ClusterProps.v ===== *)
(** * ClusterProps: heartbeats and the life of a store

    What [processRegionHeartbeat] accepts and what it does to the cluster's regions;
    the states a store goes through, and that live stores have distinct addresses. *)

From stdpp Require Import base option sets list sorting gmap tactics.
From S2P Require Import Prelude.
From S2P Require Import BTree.
From S2P Require Import BTreeShape.
From S2P Require Import BTreeProps.
From S2P Require Import Metapb.
From S2P Require Import RegionInfo.
From S2P Require Import RegionTree.
From S2P Require Import RegionTreeProps.
From S2P Require Import RegionsInfo.
From S2P Require Import RegionsInfoProps.
From S2P Require Import Store.
From S2P Require Import Cluster.

Section Heartbeat.
Implicit Types (c : BasicCluster) (region : RegionInfo).

(** The regions of a cluster, in key order. *)
Definition all_regions c : list RegionInfo := RegionTreeProps.regions (rs_tree (bc_Regions c)).

(** Every region of the cluster came with an epoch. *)
Record cluster_ok c : Prop := {
  co_info : info_ok (bc_Regions c);
  co_epoch : forall x, x ∈ all_regions c -> is_Some (GetRegionEpoch x);
}.

Lemma rsub_size_total (m : gmap Z regionSubTree) id :
  exists z, rsub.TotalSize (E:=cluster_error) (m !! id) = Ret z.
Proof. unfold rsub.TotalSize. destruct (m !! id) as [s|]; cbn; [destruct (_ =? 0)|]; eauto. Qed.

Lemma updateStoreStatusLocked_ok c id :
  exists c', cluster.updateStoreStatusLocked c id = Ret c' /\ bc_Regions c' = bc_Regions c.
Proof.
  unfold cluster.updateStoreStatusLocked, basic.GetStoreLeaderRegionSize, basic.GetStoreRegionSize.
  unfold regions.GetStoreLeaderRegionSize, regions.GetStoreFollowerRegionSize, regions.GetStoreLearnerRegionSize.
  destruct (rsub_size_total (rs_leaders (bc_Regions c)) id) as [z1 ->].
  destruct (rsub_size_total (rs_followers (bc_Regions c)) id) as [z2 ->].
  destruct (rsub_size_total (rs_learners (bc_Regions c)) id) as [z3 ->]. cbn. by eexists.
Qed.

Lemma updateRegion_ok c region :
  cluster_ok c -> valid region -> is_Some (GetRegionEpoch region) ->
  exists c', cluster.updateRegion c region = Ret c' /\ cluster_ok c'
    /\ forall x, x ∈ all_regions c'
         <-> x = region \/ (x ∈ all_regions c /\ GetID x <> GetID region /\ overlaps region x = false).
Proof.
  intros [Hinfo Hep] Hv He. unfold cluster.updateRegion, cluster.putRegion, basic.PutRegion.
  destruct (SetRegion_ok (E:=cluster_error) (bc_Regions c) region Hinfo Hv) as (r' & o & -> & Hok & _ & Hel).
  cbn beta iota.
  destruct (foldM_inv cluster.updateStoreStatusLocked (fun c' => bc_Regions c' = r')
    (elements (GetStoreIds region)) (c <| bc_Regions := r' |>)) as (c' & Hc' & Hr'); [done| |].
  { intros a id _ Ha. destruct (updateStoreStatusLocked_ok a id) as (a' & Ha' & Hr). exists a'. by rewrite Hr. }
  exists c'. split; [done|].
  assert (Hall : all_regions c' = RegionTreeProps.regions (rs_tree r')) by (unfold all_regions; by rewrite Hr').
  split; [split; [by rewrite Hr'|]|]; rewrite Hall.
  - intros x [->|(Hx & _)]%Hel; [done|by apply Hep].
  - exact Hel.
Qed.

(** The regions the epoch of a heartbeat is compared with: the known version of the
    region, or the regions it would replace. *)
Definition rivals c region : list RegionInfo :=
  match basic.GetRegion c (GetID region) with
  | Some r => [r]
  | None => List.filter (overlaps region) (all_regions c)
  end.
Definition epoch_of (x : RegionInfo) : RegionEpoch := default (mkEpoch 0 0) (GetRegionEpoch x).
Definition stale (region x : RegionInfo) : bool := cluster.staleEpoch (epoch_of region) (epoch_of x).


Lemma GetRegion_elem c id x :
  cluster_ok c -> basic.GetRegion c id = Some x <-> x ∈ all_regions c /\ GetID x = id.
Proof. intros [Hok _]. apply (io_same _ Hok). Qed.

Lemma rivals_elem c region x : cluster_ok c -> x ∈ rivals c region -> x ∈ all_regions c.
Proof.
  intros Hok. unfold rivals. destruct (basic.GetRegion c (GetID region)) as [r|] eqn:Hr.
  - intros ->%list_elem_of_singleton. by apply GetRegion_elem in Hr as [? _].
  - by intros [? _]%elem_filter.
Qed.

Lemma checkStale_eq region e x :
  GetRegionEpoch region = Some e -> is_Some (GetRegionEpoch x) ->
  cluster.checkStale region e x
    = if stale region x then Err (ErrRegionIsStale (GetMeta region) (GetMeta x)) else Ret tt.
Proof.
  intros He [ex Hx]. unfold cluster.checkStale, stale, epoch_of. rewrite Hx, He. done.
Qed.

(** The loop over the regions stops at the first stale comparison. *)
Lemma checkStale_loop region e l :
  GetRegionEpoch region = Some e -> (forall x, x ∈ l -> is_Some (GetRegionEpoch x)) ->
  foldM (fun _ r => let! r := deref r in cluster.checkStale region e r) tt (map Some l)
    = match List.find (stale region) l with
      | Some x => Err (ErrRegionIsStale (GetMeta region) (GetMeta x))
      | None => Ret tt
      end.
Proof.
  intros He. induction l as [|x l IH]; intros Hl; [done|]. cbn [map foldM List.find deref].
  rewrite (checkStale_eq region e x He) by (apply Hl, list_elem_of_here).
  destruct (stale region x); [done|]. apply IH. intros y Hy. by apply Hl, list_elem_of_further.
Qed.

Lemma scan_overlaps c region :
  candidates (rs_tree (bc_Regions c)) (GetStartKey region) (GetEndKey region)
    = List.filter (overlaps region) (all_regions c).
Proof.
  apply List.filter_ext. intros x. unfold overlaps. rewrite <- (before_start x region), andb_comm. f_equal.
  rewrite (before_spec region x). by rewrite negb_andb, !negb_involutive.
Qed.

Lemma heartbeat_eq c region e :
  cluster_ok c -> GetRegionEpoch region = Some e ->
  cluster.processRegionHeartbeat c region
    = match List.find (stale region) (rivals c region) with
      | Some x => Err (ErrRegionIsStale (GetMeta region) (GetMeta x))
      | None => cluster.updateRegion c region
      end.
Proof.
  intros Hok He. unfold cluster.processRegionHeartbeat, cluster.GetRegion, rivals. rewrite He.
  destruct (basic.GetRegion c (GetID region)) as [r|] eqn:Hr.
  - rewrite checkStale_eq; [|done|]; [by cbn; destruct (stale region r)|].
    apply GetRegion_elem in Hr as [Hr _]; [|done]. by apply (co_epoch c Hok).
  - unfold cluster.ScanRegions, basic.ScanRange. rewrite ScanRange_spec by apply Hok.
    unfold limited. cbn [Z.gtb Z.compare]. rewrite scan_overlaps. cbn beta iota.
    rewrite (checkStale_loop region e _ He).
    + by destruct (List.find _ _).
    + intros x [Hx _]%elem_filter. by apply (co_epoch c Hok).
Qed.
End Heartbeat.

(** ** Stores *)
Section Stores.
Implicit Types (c : BasicCluster) (s : StoreInfo).

(** Entered under its own id. *)
Definition keys_ok c : Prop := forall id s, basic.GetStore c id = Some s -> store.GetID s = id.
Definition live s : Prop := store.GetState s <> StoreState_Tombstone.
Definition addresses_ok c : Prop :=
  forall id1 id2 s1 s2, basic.GetStore c id1 = Some s1 -> basic.GetStore c id2 = Some s2 ->
    live s1 -> live s2 -> store.GetAddress s1 = store.GetAddress s2 -> id1 = id2.

(** From [c] to [c'] no store appeared, no address changed, and the state of a store
    changed along [edge] at most. *)
Definition moved (edge : Z -> StoreState -> StoreState -> Prop) c c' : Prop :=
  keys_ok c' /\
  forall id s', basic.GetStore c' id = Some s' ->
    exists s, basic.GetStore c id = Some s /\ store.GetAddress s' = store.GetAddress s
      /\ (store.GetState s' = store.GetState s
          \/ store.GetState s <> StoreState_Tombstone /\ edge id (store.GetState s) (store.GetState s')).

Lemma moved_refl edge c : keys_ok c -> moved edge c c.
Proof. intros Hk. split; [done|]. intros id s' Hs. exists s'. auto. Qed.
Lemma moved_addresses edge c c' : moved edge c c' -> addresses_ok c -> addresses_ok c'.
Proof.
  intros [_ Hm] Ha id1 id2 s1 s2 H1 H2 L1 L2 He.
  destruct (Hm id1 s1 H1) as (t1 & Ht1 & Ha1 & Hs1). destruct (Hm id2 s2 H2) as (t2 & Ht2 & Ha2 & Hs2).
  apply (Ha id1 id2 t1 t2 Ht1 Ht2); [..|congruence]; unfold live in *; intuition congruence.
Qed.
(** Burying twice does nothing, so steps to [Tombstone] compose. *)
Lemma moved_trans (edge : Z -> StoreState -> StoreState -> Prop) c1 c2 c3 :
  (forall id a b, edge id a b -> b = StoreState_Tombstone) ->
  moved edge c1 c2 -> moved edge c2 c3 -> moved edge c1 c3.
Proof.
  intros He [Hk2 H2] [Hk3 H3]. split; [done|]. intros id s3 Hs3.
  destruct (H3 id s3 Hs3) as (s2 & Hs2 & Ha2 & Hst2). destruct (H2 id s2 Hs2) as (s1 & Hs1 & Ha1 & Hst1).
  exists s1. split_and!; [done|congruence|]. destruct Hst2 as [Hst2|[Hn Hst2]]; [by rewrite Hst2|].
  destruct Hst1 as [Hst1|[_ Hst1]]; [rewrite <- Hst1; by right|]. by apply He in Hst1.
Qed.

Lemma put_lookup c x id :
  basic.GetStore (basic.PutStore c x) id = if decide (id = store.GetID x) then Some x else basic.GetStore c id.
Proof.
  unfold basic.GetStore, basic.PutStore, stores.GetStore, stores.SetStore. cbn.
  destruct (decide (id = store.GetID x)) as [->|Hne]; [apply lookup_insert_eq|by apply lookup_insert_ne].
Qed.
(** Replacing a store by a clone with the same id and address. *)
Lemma put_moved (edge : Z -> StoreState -> StoreState -> Prop) c s x :
  keys_ok c -> basic.GetStore c (store.GetID x) = Some s -> store.GetAddress x = store.GetAddress s ->
  store.GetState x = store.GetState s
    \/ store.GetState s <> StoreState_Tombstone /\ edge (store.GetID x) (store.GetState s) (store.GetState x) ->
  moved edge c (basic.PutStore c x).
Proof.
  intros Hk Hs Ha He. split; intros id s'; rewrite put_lookup; destruct (decide (id = store.GetID x)) as [->|Hne].
  - by intros [= <-].
  - apply Hk.
  - intros [= <-]. by exists s.
  - intros Hs'. exists s'. auto.
Qed.

Lemma putStoreLocked_inv save c x c' :
  cluster.putStoreLocked save c x = Ret c' -> c' = basic.PutStore c x.
Proof. unfold cluster.putStoreLocked. destruct (negb _); [done|]. by intros [= <-]. Qed.

Context (save drop : Store -> bool).

Lemma RemoveStore_moved c id c' :
  keys_ok c -> cluster.RemoveStore save c id = Ret c' ->
  moved (fun i a b => i = id /\ a = StoreState_Up /\ b = StoreState_Offline) c c'.
Proof.
  intros Hk. unfold cluster.RemoveStore, cluster.GetStore. destruct (basic.GetStore c id) as [s|] eqn:Hs; [|done].
  pose proof (Hk id s Hs) as Hid. unfold store.IsOffline, store.IsTombstone.
  destruct (decide (store.GetState s = StoreState_Offline)) as [?|Hno].
  { rewrite bool_decide_true by done. intros [= <-]. by apply moved_refl. }
  rewrite bool_decide_false by done. destruct (bool_decide _) eqn:Ht; [done|]. apply bool_decide_eq_false in Ht.
  intros ->%putStoreLocked_inv. apply (put_moved _ c s); [done| |done|].
  - change (basic.GetStore c (store.GetID s) = Some s). by rewrite Hid.
  - right. split; [done|]. change (store.GetID s = id /\ store.GetState s = StoreState_Up
      /\ StoreState_Offline = StoreState_Offline). by destruct (store.GetState s).
Qed.

Lemma BuryStore_moved c id force c' :
  keys_ok c -> cluster.BuryStore save c id force = Ret c' ->
  bc_Regions c' = bc_Regions c /\
  moved (fun i a b => i = id /\ (a = StoreState_Up -> force = true) /\ b = StoreState_Tombstone) c c'.
Proof.
  intros Hk. unfold cluster.BuryStore, cluster.GetStore. destruct (basic.GetStore c id) as [s|] eqn:Hs; [|done].
  pose proof (Hk id s Hs) as Hid. unfold store.IsTombstone, store.IsUp. destruct (bool_decide _) eqn:Ht.
  { intros [= <-]. split; [done|by apply moved_refl]. }
  apply bool_decide_eq_false in Ht. destruct (bool_decide (store.GetState s = StoreState_Up) && negb force) eqn:Hu; [done|].
  intros ->%putStoreLocked_inv. split; [done|]. apply (put_moved _ c s); [done| |done|].
  - change (basic.GetStore c (store.GetID s) = Some s). by rewrite Hid.
  - right. split; [done|]. split_and!; [done| |done]. intros Hup. rewrite bool_decide_true in Hu by done.
    by destruct force.
Qed.

Lemma checkStores_moved c c' :
  keys_ok c -> cluster.checkStores save c = Ret c' ->
  moved (fun i a b => basic.GetStoreRegionCount c i = 0 /\ a = StoreState_Offline
                      /\ b = StoreState_Tombstone) c c'.
Proof.
  intros Hk. unfold cluster.checkStores. generalize (basic.GetStores c) as l. intros l.
  set (edge := fun i a b => _).
  assert (Hgen : forall c0, bc_Regions c0 = bc_Regions c -> moved edge c c0 ->
    foldM (fun c s => if store.IsTombstone s then Ret c else if store.IsUp s then Ret c else
           if basic.GetStoreRegionCount c (store.GetID s) =? 0 then
             match cluster.BuryStore save c (store.GetID s) false with Err _ => Ret c | o => o end
           else Ret c) c0 l = Ret c' -> moved edge c c').
  { induction l as [|s l IH]; intros c0 Hr Hm; cbn [foldM]; [by intros [= <-]|].
    destruct (store.IsTombstone s); [by apply IH|]. destruct (store.IsUp s); [by apply IH|].
    destruct (Z.eqb_spec (basic.GetStoreRegionCount c0 (store.GetID s)) 0) as [Hz|_]; [|by apply IH].
    destruct (cluster.BuryStore save c0 (store.GetID s) false) as [c1|e| |] eqn:Hb; [|by apply IH|done..].
    apply BuryStore_moved in Hb as [Hr1 [Hk1 Hm1]]; [|apply Hm].
    apply IH; [congruence|]. apply (moved_trans edge c c0 c1); [by intros ??? (_ & _ & ->)|done|].
    split; [done|]. intros id s' Hs'. destruct (Hm1 id s' Hs') as (s0 & Hs0 & Ha & Hst).
    exists s0. split_and!; [done|done|]. destruct Hst as [?|(Hn & -> & Hup & Ht)]; [by left|right].
    split; [done|]. split_and!; [|by destruct (store.GetState s0); try done; specialize (Hup eq_refl)|done].
    unfold basic.GetStoreRegionCount in *. by rewrite <- Hr. }
  apply Hgen; [done|]. by apply moved_refl.
Qed.

Lemma tombstone_moved c c' oe :
  keys_ok c -> cluster.RemoveTombStoneRecords drop c = (c', oe) -> moved (fun _ _ _ => False) c c'.
Proof.
  intros Hk. unfold cluster.RemoveTombStoneRecords. generalize (basic.GetStores c) as l.
  intros l. revert c Hk. induction l as [|s l IH]; intros c Hk; cbn.
  { intros [= <- _]. by apply moved_refl. }
  destruct (store.IsTombstone s); [|by apply IH]. unfold cluster.deleteStoreLocked. destruct (negb _).
  { intros [= <- _]. by apply moved_refl. }
  assert (Hm : moved (fun _ _ _ => False) c (basic.DeleteStore c s)).
  { split; intros id s'; unfold basic.GetStore, stores.GetStore, basic.DeleteStore, stores.DeleteStore; cbn;
      intros [_ Hs']%lookup_delete_Some; [by apply Hk|]. exists s'. auto. }
  intros Hl. apply (moved_trans _ c (basic.DeleteStore c s)); [done|done|].
  apply IH; [by apply Hm|done].
Qed.

Lemma handleStoreHeartbeat_moved now c stats c' :
  keys_ok c -> cluster.handleStoreHeartbeat now c stats = Ret c' -> moved (fun _ _ _ => False) c c'.
Proof.
  intros Hk. unfold cluster.handleStoreHeartbeat, cluster.GetStore.
  destruct (basic.GetStore c (ss_StoreId stats)) as [s|] eqn:Hs; [|done].
  intros [= <-]. apply (put_moved _ c s); [done| |done|by left].
  change (basic.GetStore c (store.GetID s) = Some s). by rewrite (Hk _ _ Hs).
Qed.

Lemma updateStoreStatusLocked_moved c id c' :
  keys_ok c -> cluster.updateStoreStatusLocked c id = Ret c' -> moved (fun _ _ _ => False) c c'.
Proof.
  intros Hk. unfold cluster.updateStoreStatusLocked.
  destruct (basic.GetStoreLeaderRegionSize c id) as [z1|?| |]; [|done..].
  destruct (basic.GetStoreRegionSize c id) as [z2|?| |]; [|done..].
  intros [= <-]. unfold basic.UpdateStoreStatus, stores.UpdateStoreStatus.
  destruct (bc_Stores c !! id) as [s|] eqn:Hs; [|by destruct c; apply moved_refl].
  apply (put_moved _ c s); [done| |done|by left].
  change (basic.GetStore c (store.GetID s) = Some s). by rewrite (Hk id s Hs).
Qed.
Lemma heartbeat_moved c region c' :
  keys_ok c -> cluster.processRegionHeartbeat c region = Ret c' -> moved (fun _ _ _ => False) c c'.
Proof.
  intros Hk. unfold cluster.processRegionHeartbeat. destruct (GetRegionEpoch region) as [e|];
    [|intros [= <-]; by apply moved_refl].
  destruct (match cluster.GetRegion _ _ with Some _ => _ | None => _ end) as [[]|?| |]; [|done..].
  unfold cluster.updateRegion, cluster.putRegion, basic.PutRegion.
  destruct (regions.SetRegion _ _) as [[rs o]|?| |]; [|done..]. cbn beta iota.
  generalize (elements (GetStoreIds region)) as l. intros l.
  assert (Hgen : forall c0, moved (fun _ _ _ => False) c c0 ->
    foldM cluster.updateStoreStatusLocked c0 l = Ret c' -> moved (fun _ _ _ => False) c c').
  { induction l as [|id l IH]; intros c0 Hm; cbn [foldM]; [by intros [= <-]|].
    destruct (cluster.updateStoreStatusLocked c0 id) as [c1|?| |] eqn:Hu; [|done..]. apply IH.
    apply (moved_trans _ c c0 c1); [done|done|]. eapply updateStoreStatusLocked_moved; [apply Hm|done]. }
  apply Hgen. by apply (moved_refl _ c).
Qed.

(** Entering a store whose address no other live store has. *)
Lemma putStore_addresses c x c' :
  keys_ok c -> addresses_ok c -> cluster.putStore save c x = Ret c' -> keys_ok c' /\ addresses_ok c'.
Proof.
  intros Hk Ha. unfold cluster.putStore. destruct (st_Id x =? 0); [done|].
  destruct (existsb _ _) eqn:Hex; [done|]. intros ->%putStoreLocked_inv. set (s := match cluster.GetStore _ _ with
    | Some _ => _ | None => _ end).
  assert (Hs : store.GetID s = st_Id x /\ store.GetAddress s = st_Address x).
  { unfold s, cluster.GetStore. destruct (basic.GetStore c (st_Id x)) as [s0|] eqn:Hs0; [|done].
    split; [exact (Hk _ _ Hs0)|done]. }
  clearbody s. destruct Hs as [Hid Hadr].
  assert (Hfree : forall id t, basic.GetStore c id = Some t -> live t -> store.GetAddress t = st_Address x -> id = st_Id x).
  { intros id t Ht Hl Heq. destruct (decide (id = st_Id x)) as [|Hne]; [done|].
    apply not_true_iff_false in Hex. destruct Hex. apply existsb_exists. exists t. split.
    - apply list_elem_of_In, list_elem_of_fmap. exists (id, t). split; [done|].
      by apply elem_of_map_to_list.
    - unfold store.IsTombstone. rewrite bool_decide_false, (bool_decide_true _ Heq) by exact Hl.
      rewrite (Hk _ _ Ht). by destruct (Z.eqb_spec id (st_Id x)). }
  split.
  - intros id t. rewrite put_lookup. destruct (decide _) as [->|]; [by intros [= <-]|apply Hk].
  - intros id1 id2 s1 s2. rewrite !put_lookup, Hid.
    destruct (decide (id1 = st_Id x)) as [->|H1]; destruct (decide (id2 = st_Id x)) as [->|H2]; [done|..].
    + intros [= <-] Hs2 _ L2 He. symmetry. apply (Hfree _ s2); [done..|congruence].
    + intros Hs1 [= <-] L1 _ He. apply (Hfree _ s1); [done..|congruence].
    + apply Ha.
Qed.

(** A known store keeps its state. *)
Lemma putStore_state c x c' id s s' :
  keys_ok c -> cluster.putStore save c x = Ret c' ->
  basic.GetStore c id = Some s -> basic.GetStore c' id = Some s' -> store.GetState s' = store.GetState s.
Proof.
  intros Hk. unfold cluster.putStore. destruct (st_Id x =? 0); [done|]. destruct (existsb _ _); [done|].
  intros ->%putStoreLocked_inv. unfold cluster.GetStore. rewrite put_lookup.
  destruct (basic.GetStore c (st_Id x)) as [s0|] eqn:Hs0.
  - change (store.GetID (store.Clone s0 _)) with (store.GetID s0). rewrite (Hk _ _ Hs0).
    destruct (decide _) as [->|]; [|congruence]. rewrite Hs0. by intros [= <-] [= <-].
  - change (store.GetID (store.NewStoreInfo x [])) with (st_Id x).
    destruct (decide _) as [->|]; [by rewrite Hs0|congruence].
Qed.

(** *** The calls of the server, in any order *)
Inductive cluster_call :=
  | SPut (x : Store)
  | SHeartbeat (now : Z) (stats : StoreStats)
  | SRegionHeartbeat (region : RegionInfo)
  | SRemove (id : Z)
  | SBury (id : Z) (force : bool)
  | SCheck
  | SClean.

(** A call that fails leaves the cluster as it is, but for a clean-up that deletes some
    of the stores. *)
Definition settle c (o : outcome cluster_error BasicCluster) : BasicCluster :=
  match o with Ret c' => c' | _ => c end.
Definition do_call c (call : cluster_call) : BasicCluster :=
  match call with
  | SPut x => settle c (cluster.putStore save c x)
  | SHeartbeat now stats => settle c (cluster.handleStoreHeartbeat now c stats)
  | SRegionHeartbeat region => settle c (cluster.processRegionHeartbeat c region)
  | SRemove id => settle c (cluster.RemoveStore save c id)
  | SBury id force => settle c (cluster.BuryStore save c id force)
  | SCheck => settle c (cluster.checkStores save c)
  | SClean => fst (cluster.RemoveTombStoneRecords drop c)
  end.

(** The moves a call may make. *)
Definition call_edge c (call : cluster_call) (i : Z) (a b : StoreState) : Prop :=
  match call with
  | SRemove id => i = id /\ a = StoreState_Up /\ b = StoreState_Offline
  | SBury id force => i = id /\ (a = StoreState_Up -> force = true) /\ b = StoreState_Tombstone
  | SCheck => basic.GetStoreRegionCount c i = 0 /\ a = StoreState_Offline /\ b = StoreState_Tombstone
  | _ => False
  end.
Definition is_put (call : cluster_call) : bool := match call with SPut _ => true | _ => false end.

Lemma do_call_moved c call :
  keys_ok c -> is_put call = false -> moved (call_edge c call) c (do_call c call).
Proof.
  intros Hk Hp. destruct call as [x|now stats|region|id|id force| |]; [done|cbn..].
  - destruct (cluster.handleStoreHeartbeat now c stats) eqn:Hc; try by apply moved_refl.
    by eapply handleStoreHeartbeat_moved.
  - destruct (cluster.processRegionHeartbeat c region) eqn:Hc; try by apply moved_refl.
    by eapply heartbeat_moved.
  - destruct (cluster.RemoveStore save c id) eqn:Hc; try by apply moved_refl.
    by eapply RemoveStore_moved.
  - destruct (cluster.BuryStore save c id force) eqn:Hc; try by apply moved_refl.
    by eapply BuryStore_moved.
  - destruct (cluster.checkStores save c) eqn:Hc; try by apply moved_refl.
    by eapply checkStores_moved.
  - destruct (cluster.RemoveTombStoneRecords drop c) as [c' oe] eqn:Hc. by eapply tombstone_moved.
Qed.

Lemma do_call_ok c call :
  keys_ok c -> addresses_ok c -> keys_ok (do_call c call) /\ addresses_ok (do_call c call).
Proof.
  intros Hk Ha. destruct (is_put call) eqn:Hp.
  - destruct call as [x|?|?|?|?| |]; try done. cbn.
    destruct (cluster.putStore save c x) eqn:Hc; try done. by eapply putStore_addresses.
  - pose proof (do_call_moved c call Hk Hp) as Hm. split; [apply Hm|by eapply moved_addresses].
Qed.
Lemma do_calls_ok calls : forall c,
  keys_ok c -> addresses_ok c -> keys_ok (foldl do_call c calls) /\ addresses_ok (foldl do_call c calls).
Proof.
  induction calls as [|call calls IH]; intros c Hk Ha; [done|]. cbn.
  destruct (do_call_ok c call Hk Ha). by apply IH.
Qed.
End Stores.

(** ** What the cluster promises *)

Lemma new_cluster_ok :
  exists c, basic.NewBasicCluster = Ret c /\ cluster_ok c /\ keys_ok c /\ addresses_ok c.
Proof.
  destruct (info_run_agree (E:=cluster_error) []) as (r & Hr & Hok & Hl); [constructor|].
  assert (Hn : regions.NewRegionsInfo (E:=cluster_error) = Ret r).
  { revert Hr. unfold info_run. destruct regions.NewRegionsInfo; [|done..]. cbn. by intros [= ->]. }
  unfold basic.NewBasicCluster. rewrite Hn. eexists. split; [done|]. split_and!.
  - split; [done|]. intros x Hx. change (x ∈ RegionTreeProps.regions (rs_tree r)) in Hx.
    apply Hl in Hx. by apply elem_of_nil in Hx.
  - intros id s Hs. by destruct (lookup_empty_Some (M:=gmap Z) id s Hs).
  - intros id1 id2 s1 s2 Hs. by destruct (lookup_empty_Some (M:=gmap Z) id1 s1 Hs).
Qed.


(** A region's recorded version never goes back: if a heartbeat is accepted and the
    region with some id is still there, its version is at least what it was. *)
Theorem heartbeat_version_monotone (c c' : BasicCluster) (region : RegionInfo) (id : Z) (x y : RegionInfo) :
  cluster_ok c -> valid region ->
  cluster.processRegionHeartbeat c region = Ret c' ->
  cluster.GetRegion c id = Some x -> cluster.GetRegion c' id = Some y ->
  ep_Version (epoch_of x) <= ep_Version (epoch_of y).
Proof.
  intros Hok Hv Hp Hx Hy. destruct (GetRegionEpoch region) as [e|] eqn:He.
  2: { unfold cluster.processRegionHeartbeat in Hp. rewrite He in Hp. injection Hp as <-. unfold cluster.GetRegion in *.
    rewrite Hx in Hy. by injection Hy as <-. }
  rewrite (heartbeat_eq c region e Hok He) in Hp.
  destruct (List.find (stale region) (rivals c region)) eqn:Hf; [done|].
  destruct (updateRegion_ok c region Hok Hv) as (c1 & Hc1 & Hok1 & Hel); [by rewrite He|].
  rewrite Hc1 in Hp. injection Hp as <-. apply GetRegion_elem in Hy as [Hy Hid]; [|done].
  apply Hel in Hy as [->|(Hy & _)].
  - assert (Hin : x ∈ rivals c region).
    { unfold rivals, cluster.GetRegion in *. rewrite Hid, Hx. by apply list_elem_of_singleton. }
    apply list_elem_of_In in Hin. pose proof (List.find_none _ _ Hf x Hin) as Hs. cbn beta in Hs.
    unfold stale, cluster.staleEpoch in Hs. apply orb_false_iff in Hs as [Hs _]. by apply Z.ltb_ge in Hs.
  - assert (Hy' : cluster.GetRegion c id = Some y) by (by apply GetRegion_elem). rewrite Hx in Hy'.
    by injection Hy' as ->.
Qed.

(** The membership version of a heartbeat is never looked at.  A heartbeat for a
    known region with the recorded region version is refused exactly when the recorded
    membership version is greater than the region version: an old membership is accepted,
    and the very region that is recorded may be refused. *)
Theorem heartbeat_ignores_conf_ver (c : BasicCluster) (region r : RegionInfo) :
  cluster_ok c -> valid region -> is_Some (GetRegionEpoch region) ->
  cluster.GetRegion c (GetID region) = Some r ->
  ep_Version (epoch_of region) = ep_Version (epoch_of r) ->
  (if ep_Version (epoch_of r) <? ep_ConfVer (epoch_of r)
   then cluster.processRegionHeartbeat c region = Err (ErrRegionIsStale (GetMeta region) (GetMeta r))
   else exists c', cluster.processRegionHeartbeat c region = Ret c'
          /\ cluster.GetRegion c' (GetID region) = Some region).
Proof.
  intros Hok Hv He Hr Heq. pose proof He as [e Hep]. rewrite (heartbeat_eq c region e Hok Hep).
  unfold rivals. unfold cluster.GetRegion in Hr. rewrite Hr. cbn [List.find].
  unfold stale, cluster.staleEpoch. rewrite Heq, Z.ltb_irrefl. cbn [orb].
  destruct (ep_Version (epoch_of r) <? ep_ConfVer (epoch_of r)); [done|].
  destruct (updateRegion_ok c region Hok Hv He) as (c' & -> & Hok' & Hel). exists c'. split; [done|].
  apply GetRegion_elem; [done|]. split; [|done]. apply Hel. by left.
Qed.

(** Two stores that are not tombstones never have the same address, and every store
    is entered under its own id, whatever the order in which stores are put, report,
    are removed, buried and cleaned up, and whichever writes to the storage fail. *)
Theorem live_addresses_distinct (save drop : Store -> bool) (calls : list cluster_call) :
  exists c0, basic.NewBasicCluster = Ret c0
    /\ keys_ok (foldl (do_call save drop) c0 calls)
    /\ addresses_ok (foldl (do_call save drop) c0 calls).
Proof.
  destruct new_cluster_ok as (c0 & Hn & _ & Hk & Ha). exists c0. split; [done|].
  by apply do_calls_ok.
Qed.

(** The calls above, and those that only operators make. *)
Inductive store_call :=
  | Server (call : cluster_call)
  | SSetState (id : Z) (state : StoreState)
  | SBlock (id : Z)
  | SUnblock (id : Z).
Definition do_store_call (save drop : Store -> bool) (c : BasicCluster) (call : store_call) : BasicCluster :=
  match call with
  | Server call => do_call save drop c call
  | SSetState id state => settle c (cluster.SetStoreState save c id state)
  | SBlock id => settle c (basic.BlockStore c id)
  | SUnblock id => settle c (basic.UnblockStore c id)
  end.
Lemma SetStoreState_states save c id state c' i s s' :
  keys_ok c -> cluster.SetStoreState save c id state = Ret c' ->
  cluster.GetStore c i = Some s -> cluster.GetStore c' i = Some s' ->
  store.GetState s' = if bool_decide (i = id) then state else store.GetState s.
Proof.
  intros Hk. unfold cluster.SetStoreState, cluster.GetStore. destruct (basic.GetStore c id) as [t|] eqn:Ht; [|done].
  intros ->%putStoreLocked_inv. rewrite put_lookup. change (store.GetID (store.Clone t _)) with (store.GetID t).
  rewrite (Hk _ _ Ht). case_bool_decide as Hi; [|by rewrite decide_False by done; intros -> [= ->]].
  rewrite decide_True by done. by intros _ [= <-].
Qed.
(** Replacing a store by a clone in the same state. *)
Lemma put_same_state (c : BasicCluster) t x i s s' :
  basic.GetStore c (store.GetID x) = Some t -> store.GetState x = store.GetState t ->
  basic.GetStore c i = Some s -> basic.GetStore (basic.PutStore c x) i = Some s' -> store.GetState s' = store.GetState s.
Proof.
  intros Ht Hx. rewrite put_lookup. destruct (decide (i = store.GetID x)) as [->|]; [|congruence].
  rewrite Ht. by intros [= <-] [= <-].
Qed.
Lemma block_states c id i s s' :
  keys_ok c -> cluster.GetStore c i = Some s ->
  (cluster.GetStore (settle c (basic.BlockStore c id)) i = Some s' -> store.GetState s' = store.GetState s)
  /\ (cluster.GetStore (settle c (basic.UnblockStore c id)) i = Some s' -> store.GetState s' = store.GetState s).
Proof.
  intros Hk Hs. unfold basic.BlockStore, basic.UnblockStore, stores.BlockStore, stores.UnblockStore, cluster.GetStore in *.
  destruct (bc_Stores c !! id) as [t|] eqn:Ht.
  2: { cbn. split; congruence. }
  pose proof (Hk id t Ht) as Hid. subst id. split; [destruct (store.IsBlocked t); [cbn; congruence|]|]; intros Hs'.
  - by apply (put_same_state c t (store.Clone t [SetStoreBlock]) i s s' Ht).
  - by apply (put_same_state c t (store.Clone t [SetStoreUnBlock]) i s s' Ht).
Qed.

(** C34. The state of a store changes only from [Up] to [Offline] by [RemoveStore], to
    [Tombstone] by [BuryStore], from [Up] only when it is forced, or by [checkStores] from
    [Offline] when no region is left on the store, and by [SetStoreState], which sets it to
    any state.  Only that last call takes a state back. *)
Theorem store_lifecycle (save drop : Store -> bool) (c : BasicCluster) (call : store_call)
    (id : Z) (s s' : StoreInfo) :
  keys_ok c ->
  cluster.GetStore c id = Some s -> cluster.GetStore (do_store_call save drop c call) id = Some s' ->
  store.GetState s' = store.GetState s
  \/ (call = Server (SRemove id) /\ store.GetState s = StoreState_Up /\ store.GetState s' = StoreState_Offline)
  \/ ((exists force, call = Server (SBury id force) /\ (store.GetState s = StoreState_Up -> force = true))
      /\ store.GetState s <> StoreState_Tombstone /\ store.GetState s' = StoreState_Tombstone)
  \/ (call = Server SCheck /\ basic.GetStoreRegionCount c id = 0
      /\ store.GetState s = StoreState_Offline /\ store.GetState s' = StoreState_Tombstone)
  \/ call = SSetState id (store.GetState s').
Proof.
  intros Hk Hs Hs'. destruct call as [call|i state|i|i]; cbn [do_store_call] in Hs'.
  2: { destruct (cluster.SetStoreState save c i state) as [c'| | |] eqn:Hc; cbn [settle] in Hs'; try (left; congruence).
       pose proof (SetStoreState_states save c i state c' id s s' Hk Hc Hs Hs') as Hst. case_bool_decide; [|by left].
       do 4 right. by subst. }
  2: { left. exact (proj1 (block_states c i id s s' Hk Hs) Hs'). }
  2: { left. exact (proj2 (block_states c i id s s' Hk Hs) Hs'). }
  destruct (is_put call) eqn:Hp.
  { left. destruct call as [x|?|?|?|?| |]; try done. cbn in Hs'. destruct (cluster.putStore save c x) eqn:Hc;
      [by eapply putStore_state|cbn in Hs'; congruence..]. }
  destruct (do_call_moved save drop c call Hk Hp) as [_ Hm].
  destruct (Hm id s' Hs') as (s0 & Hs0 & _ & Hst). unfold cluster.GetStore in Hs. rewrite Hs in Hs0.
  injection Hs0 as <-. destruct Hst as [?|[Hn Hst]]; [by left|right].
  destruct call as [x|now stats|region|i|i force| |]; cbn in Hst; try done.
  - destruct Hst as (-> & ? & ?). by left.
  - destruct Hst as (-> & ? & ?). right. left. split; [by exists force|done].
  - right. right. left. by destruct Hst as (? & ? & ?).
Qed.

(** ** Samples *)
Definition sample_beat (confVer version : Z) : RegionInfo :=
  NewRegionInfo (mkRegion 1 [] [] (Some (mkEpoch confVer version)) [mkPeer 11 1; mkPeer 12 2])
    (Some (mkPeer 11 1)) [].
Lemma sample_beat_ok confVer version :
  valid (sample_beat confVer version) /\ is_Some (GetRegionEpoch (sample_beat confVer version)).
Proof. split; [by left|by eexists]. Qed.

(** A cluster that knows the region with some epoch. *)
Lemma sample_cluster confVer version :
  exists c, cluster_ok c /\ cluster.GetRegion c 1 = Some (sample_beat confVer version).
Proof.
  destruct new_cluster_ok as (c0 & _ & Hok & _). destruct (sample_beat_ok confVer version) as [Hv He].
  destruct (updateRegion_ok c0 (sample_beat confVer version) Hok Hv He) as (c & _ & Hc & Hel).
  exists c. split; [done|]. apply GetRegion_elem; [done|]. split; [|done]. apply Hel. by left.
Qed.
(** Which accepts a heartbeat with a greater version. *)
Lemma sample_accepts :
  exists c c', cluster_ok c /\ cluster.GetRegion c 1 = Some (sample_beat 1 1)
    /\ cluster.processRegionHeartbeat c (sample_beat 1 2) = Ret c'
    /\ cluster.GetRegion c' 1 = Some (sample_beat 1 2).
Proof.
  destruct (sample_cluster 1 1) as (c & Hok & Hr). destruct (sample_beat_ok 1 2) as [Hv He].
  destruct (updateRegion_ok c (sample_beat 1 2) Hok Hv He) as (c' & Hc' & Hok' & Hel).
  exists c, c'. split_and!; [done|done| |].
  - rewrite (heartbeat_eq c (sample_beat 1 2) (mkEpoch 1 2) Hok eq_refl). unfold rivals.
    unfold cluster.GetRegion in Hr. change (GetID (sample_beat 1 2)) with 1. rewrite Hr. exact Hc'.
  - apply GetRegion_elem; [done|]. split; [|done]. apply Hel. by left.
Qed.


Lemma heartbeat_version_monotone_witness : 1 <= 2.
Proof.
  destruct sample_accepts as (c & c' & Hok & Hr & Hp & Hr').
  apply (heartbeat_version_monotone c c' (sample_beat 1 2) 1 (sample_beat 1 1) (sample_beat 1 2) Hok);
    [left; reflexivity|exact Hp|exact Hr|exact Hr'].
Defined.

Lemma heartbeat_ignores_conf_ver_witness :
  (exists c, cluster.GetRegion c 1 = Some (sample_beat 3 2)
     /\ cluster.processRegionHeartbeat c (sample_beat 3 2)
        = Err (ErrRegionIsStale (GetMeta (sample_beat 3 2)) (GetMeta (sample_beat 3 2))))
  /\ (exists c c', cluster.GetRegion c 1 = Some (sample_beat 2 2)
        /\ cluster.processRegionHeartbeat c (sample_beat 1 2) = Ret c'
        /\ cluster.GetRegion c' 1 = Some (sample_beat 1 2)).
Proof.
  split.
  - destruct (sample_cluster 3 2) as (c & Hok & Hr). exists c. split; [exact Hr|].
    apply (heartbeat_ignores_conf_ver c (sample_beat 3 2) (sample_beat 3 2) Hok);
      [left; reflexivity|eexists; reflexivity|exact Hr|reflexivity].
  - destruct (sample_cluster 2 2) as (c & Hok & Hr).
    destruct (heartbeat_ignores_conf_ver c (sample_beat 1 2) (sample_beat 2 2) Hok) as (c' & Hp & Hr');
      [left; reflexivity|eexists; reflexivity|exact Hr|reflexivity|].
    exists c, c'. split; [exact Hr|]. split; [exact Hp|exact Hr'].
Defined.

Definition sample_stores : BasicCluster :=
  mkBasicCluster {[1 := store.NewStoreInfo (mkStore 1 [65] StoreState_Offline) []]}
    (mkRegionsInfo (mkRegionTree (mkBTree 2 0 None)) rmap.newRegionMap ∅ ∅ ∅ ∅).
Lemma sample_stores_keys : keys_ok sample_stores.
Proof.
  intros id s Hs. unfold basic.GetStore, stores.GetStore in Hs. cbn in Hs.
  apply lookup_singleton_Some in Hs as [<- <-]. done.
Qed.

Lemma store_lifecycle_witness :
  exists s s', cluster.GetStore sample_stores 1 = Some s
    /\ cluster.GetStore (do_store_call (fun _ => true) (fun _ => true) sample_stores (Server SCheck)) 1 = Some s'
    /\ (store.GetState s' = store.GetState s
        \/ store.GetState s = StoreState_Offline /\ store.GetState s' = StoreState_Tombstone).
Proof.
  eexists _, _. split; [vm_compute; reflexivity|]. split; [vm_compute; reflexivity|].
  destruct (store_lifecycle (fun _ => true) (fun _ => true) sample_stores (Server SCheck) 1
    (store.NewStoreInfo (mkStore 1 [65] StoreState_Offline) [])
    (store.NewStoreInfo (mkStore 1 [65] StoreState_Tombstone) []) sample_stores_keys)
    as [H|[(H & _)|[((f & H & _) & _)|[(_ & _ & H1 & H2)|H]]]].
  - vm_compute. reflexivity.
  - vm_compute. reflexivity.
  - left. exact H.
  - discriminate H.
  - discriminate H.
  - right. split; [exact H1|exact H2].
  - discriminate H.
Defined.
