(* ===== verification/Etcd.v ===== *)
(** * Etcd: what the scheduler relies on of etcd

    The scheduler reads keys and commits transactions that compare some keys and then
    put one, through the client of the etcd package.  [Etcd] is that interface and
    [EtcdLaws] its documented behaviour: a transaction is atomic, and takes effect
    exactly when all its comparisons hold.  A map is an instance.  The byte conversions
    of [scheduler/pkg/typeutil] that values go through are here too. *)

From stdpp Require Import base option list gmap tactics.
From S2P Require Import Prelude.
From S2P Require Import GoHeap.

(** The keys under the root path: [alloc_id], [timestamp] and [leader]. *)
Inductive ekey := KAllocId | KTimestamp | KLeader.
#[export] Instance ekey_eq_dec : EqDecision ekey.
Proof. solve_decision. Defined.
#[export] Instance ekey_countable : Countable ekey.
Proof.
  refine (inj_countable' (fun k => match k with KAllocId => 0 | KTimestamp => 1 | KLeader => 2 end)
            (fun n => if n =? 0 then KAllocId else if n =? 1 then KTimestamp else KLeader) _).
  by intros [].
Defined.

(** [Compare(CreateRevision(key), "=", 0)], which holds when there is no such key, and
    [Compare(Value(key), "=", value)]. *)
Inductive Cmp := CmpAbsent (k : ekey) | CmpValue (k : ekey) (value : list Z).

Class Etcd (S : Type) := {
  et_get : S -> ekey -> option (list Z);
  et_txn : S -> list Cmp -> ekey -> list Z -> S * bool;
}.

Definition cmp_holds {S} `{Etcd S} (s : S) (c : Cmp) : Prop :=
  match c with
  | CmpAbsent k => et_get s k = None
  | CmpValue k v => et_get s k = Some v
  end.

Class EtcdLaws (S : Type) `{Etcd S} : Prop := {
  et_txn_yes : forall s cs k v s', et_txn s cs k v = (s', true) ->
    Forall (cmp_holds s) cs /\ et_get s' k = Some v /\ forall k', k' <> k -> et_get s' k' = et_get s k';
  et_txn_no : forall s cs k v s', et_txn s cs k v = (s', false) ->
    ~ Forall (cmp_holds s) cs /\ forall k', et_get s' k' = et_get s k';
}.

(** ** A map of keys *)
#[export] Instance map_etcd : Etcd (gmap ekey (list Z)) := {|
  et_get s k := s !! k;
  et_txn s cs k v :=
    if forallb (fun c => match c with
                         | CmpAbsent k => bool_decide (s !! k = None)
                         | CmpValue k w => bool_decide (s !! k = Some w)
                         end) cs
    then (<[k := v]> s, true) else (s, false) |}.
#[export] Instance map_etcd_laws : EtcdLaws (gmap ekey (list Z)).
Proof.
  assert (Hc : forall (s : gmap ekey (list Z)) cs,
    forallb (fun c => match c with
                      | CmpAbsent k => bool_decide (s !! k = None)
                      | CmpValue k w => bool_decide (s !! k = Some w)
                      end) cs = true <-> Forall (cmp_holds s) cs).
  { intros s cs. rewrite forallb_forall, list.Forall_forall. split; intros H c Hin.
    - specialize (H c). rewrite <- list_elem_of_In in H. specialize (H Hin).
      destruct c; by apply bool_decide_eq_true in H.
    - apply list_elem_of_In in Hin. specialize (H c Hin). destruct c; by apply bool_decide_eq_true. }
  split; intros s cs k v s'; cbn [et_txn map_etcd]; destruct (forallb _ cs) eqn:Hf; intros [= <-].
  - split; [by apply Hc|]. split; [apply lookup_insert_eq|]. intros k' Hk. by apply lookup_insert_ne.
  - split; [|done]. intros H%Hc. congruence.
Qed.

(** ** Conversions *)
Definition BytesToUint64 {E} (e : E) (b : list Z) : outcome E Z :=
  if negb (len b =? 8) then Err e else Uint64 b.
Definition Uint64ToBytes (v : Z) : list Z := be64 v.

Lemma Bytes_roundtrip {E} (e : E) v : is_u64 v -> BytesToUint64 e (Uint64ToBytes v) = Ret v.
Proof. intros Hv. unfold BytesToUint64, Uint64ToBytes. rewrite (Uint64_be64_exact v Hv). done. Qed.
Lemma Uint64ToBytes_inj v w : is_u64 v -> is_u64 w -> Uint64ToBytes v = Uint64ToBytes w -> v = w.
Proof.
  intros Hv Hw He. pose proof (Bytes_roundtrip tt v Hv) as H1. rewrite He, Bytes_roundtrip in H1 by done.
  congruence.
Qed.
