(* ===== verification/IdAlloc.v ===== *)
(** * IdAlloc: ids that are never handed out twice

    The allocator of [scheduler/server/id/id.go].  [Alloc] runs under the allocator's
    mutex, but the allocators of several servers share the key [alloc_id] in etcd, and
    [generate] reads it and then commits a transaction: between the two, and in every
    other order, they interleave ([step]).  A commit that reports an error may have
    taken effect. *)

From stdpp Require Import base option list gmap tactics.
From S2P Require Import Prelude.
From S2P Require Import Etcd.

Definition allocStep : Z := 1000.

Record AllocatorImpl := mkAllocator {
  al_base : Z;
  al_end : Z;
  al_member : list Z;
}.
Definition NewAllocatorImpl (member : list Z) : AllocatorImpl := mkAllocator 0 0 member.

Inductive id_error := ErrInvalidData | ErrNotLeader | ErrEtcd.

Section Alloc.
Context {S : Type} `{Etcd S}.

(** [generate] up to the transaction: the comparison and the new end. *)
Definition generate_read (s : S) : outcome id_error (Cmp * Z) :=
  let! (cmp, last) := (match et_get s KAllocId with
                       | None => Ret (CmpAbsent KAllocId, 0)
                       | Some value =>
                         let! last := BytesToUint64 ErrInvalidData value in
                         Ret (CmpValue KAllocId value, last)
                       end) in
  Ret (cmp, last ⊞ allocStep).
(** The transaction. *)
Definition generate_commit (s : S) (alloc : AllocatorImpl) (cmp : Cmp) (stop : Z) : S * bool :=
  et_txn s [cmp; CmpValue KLeader (al_member alloc)] KAllocId (Uint64ToBytes stop).
Definition generate (s : S) (alloc : AllocatorImpl) : outcome id_error (S * Z) :=
  let! (cmp, stop) := generate_read s in
  match generate_commit s alloc cmp stop with
  | (s, true) => Ret (s, stop)
  | (s, false) => Err ErrNotLeader
  end.

(** The rest of [Alloc] when a new block was generated, and when none was needed. *)
Definition refill (alloc : AllocatorImpl) (stop : Z) : AllocatorImpl :=
  mkAllocator (stop ⊟ allocStep) stop (al_member alloc).
Definition take_id (alloc : AllocatorImpl) : AllocatorImpl * Z :=
  let base := al_base alloc ⊞ 1 in (mkAllocator base (al_end alloc) (al_member alloc), base).
Definition Alloc (s : S) (alloc : AllocatorImpl) : outcome id_error (S * AllocatorImpl * Z) :=
  let! (s, alloc) := (if al_base alloc =? al_end alloc then
                        let! (s, stop) := generate s alloc in Ret (s, refill alloc stop)
                      else Ret (s, alloc)) in
  let (alloc, id) := take_id alloc in Ret (s, alloc, id).

(** ** Several allocators *)
Inductive phase := Idle | Committing (cmp : Cmp) (stop : Z).
Record world := mkWorld {
  w_etcd : S;
  w_allocs : gmap nat (AllocatorImpl * phase);
  w_issued : list Z;
}.

Inductive step : world -> world -> Prop :=
  | step_new w i member :
      w_allocs w !! i = None ->
      step w (mkWorld (w_etcd w) (<[i := (NewAllocatorImpl member, Idle)]> (w_allocs w)) (w_issued w))
  | step_take w i a :
      w_allocs w !! i = Some (a, Idle) -> al_base a <> al_end a ->
      step w (mkWorld (w_etcd w) (<[i := ((take_id a).1, Idle)]> (w_allocs w))
                (w_issued w ++ [(take_id a).2]))
  | step_read w i a cmp stop :
      w_allocs w !! i = Some (a, Idle) -> al_base a = al_end a -> generate_read (w_etcd w) = Ret (cmp, stop) ->
      step w (mkWorld (w_etcd w) (<[i := (a, Committing cmp stop)]> (w_allocs w)) (w_issued w))
  | step_commit w i a cmp stop s :
      w_allocs w !! i = Some (a, Committing cmp stop) -> generate_commit (w_etcd w) a cmp stop = (s, true) ->
      step w (mkWorld s (<[i := ((take_id (refill a stop)).1, Idle)]> (w_allocs w))
                (w_issued w ++ [(take_id (refill a stop)).2]))
  | step_refused w i a cmp stop s :
      w_allocs w !! i = Some (a, Committing cmp stop) -> generate_commit (w_etcd w) a cmp stop = (s, false) ->
      step w (mkWorld s (<[i := (a, Idle)]> (w_allocs w)) (w_issued w))
  | step_lost w i a cmp stop s b :
      (* the answer is an error, whether the transaction took effect or not *)
      w_allocs w !! i = Some (a, Committing cmp stop) -> generate_commit (w_etcd w) a cmp stop = (s, b) ->
      step w (mkWorld s (<[i := (a, Idle)]> (w_allocs w)) (w_issued w))
  | step_failed w i a cmp stop :
      w_allocs w !! i = Some (a, Committing cmp stop) ->
      step w (mkWorld (w_etcd w) (<[i := (a, Idle)]> (w_allocs w)) (w_issued w))
  | step_elsewhere w s :
      (* an election, or a write to another key *)
      et_get s KAllocId = et_get (w_etcd w) KAllocId ->
      step w (mkWorld s (w_allocs w) (w_issued w)).

Inductive reach : nat -> world -> Prop :=
  | reach_new s : et_get s KAllocId = None -> reach 0 (mkWorld s ∅ [])
  | reach_step n w w' : reach n w -> step w w' -> reach (Datatypes.S n) w'.
End Alloc.
Arguments world : clear implicits.

(** ** No id is handed out twice *)
Section Unique.
Context {S : Type} `{EtcdLaws S}.
Implicit Types (w : world S) (a : AllocatorImpl).

(** The last saved end. *)
Definition saved (s : S) (m : Z) : Prop :=
  et_get s KAllocId = None /\ m = 0 \/ et_get s KAllocId = Some (Uint64ToBytes m).
(** The ids an allocator may still hand out. *)
Definition free a (id : Z) : Prop := al_base a < id <= al_end a.
(** A transaction that was prepared when [k] was saved. *)
Definition phase_ok (a : AllocatorImpl) (p : phase) : Prop :=
  match p with
  | Idle => True
  | Committing cmp stop => exists k, is_u64 k /\ stop = k ⊞ allocStep /\ al_base a = al_end a
      /\ (cmp = CmpAbsent KAllocId /\ k = 0 \/ cmp = CmpValue KAllocId (Uint64ToBytes k))
  end.

Record inv (m : Z) w : Prop := {
  iv_pos : 0 <= m;
  iv_saved : saved (w_etcd w) m;
  iv_nodup : base.NoDup (w_issued w);
  iv_issued : forall id, id ∈ w_issued w -> 1 <= id <= m;
  iv_alloc : forall i a p, w_allocs w !! i = Some (a, p) ->
    0 <= al_base a <= al_end a /\ al_end a <= m /\ phase_ok a p;
  iv_free : forall i a p id, w_allocs w !! i = Some (a, p) -> free a id -> id ∉ w_issued w;
  iv_apart : forall i j a b p q id, w_allocs w !! i = Some (a, p) -> w_allocs w !! j = Some (b, q) ->
    free a id -> free b id -> i = j;
}.

(** Changing one allocator, which may lose free ids, and nothing else. *)
Lemma inv_shrink m w i a p a' p' s :
  inv m w -> w_allocs w !! i = Some (a, p) -> et_get s KAllocId = et_get (w_etcd w) KAllocId ->
  0 <= al_base a' <= al_end a' -> al_end a' <= m -> phase_ok a' p' -> (forall id, free a' id -> free a id) ->
  inv m (mkWorld s (<[i := (a', p')]> (w_allocs w)) (w_issued w)).
Proof.
  intros [Hz H1 H2 H3 H4 H5 H6] Hi Hs Hb He Hp Hf. split; cbn; [done|unfold saved in *; by rewrite Hs|done|done|..].
  - intros j b q [[<- [= <- <-]]|[_ Hj]]%lookup_insert_Some; [done|by eapply H4].
  - intros j b q id [[<- [= <- <-]]|[_ Hj]]%lookup_insert_Some Hfr; [by eapply H5, Hf|by eapply H5].
  - intros j k b c q r id [[<- [= <- <-]]|[Hj Hjl]]%lookup_insert_Some
      [[<- [= <- <-]]|[Hk Hkl]]%lookup_insert_Some Hfb Hfc.
    + done.
    + eapply H6; [exact Hi|exact Hkl|by apply Hf|done].
    + eapply H6; [exact Hjl|exact Hi|done|by apply Hf].
    + by eapply H6.
Qed.

(** Handing out a free id. *)
Lemma inv_take m w i a p :
  inv m w -> w_allocs w !! i = Some (a, p) -> al_base a < al_end a -> m < two64 ->
  inv m (mkWorld (w_etcd w) (<[i := ((take_id a).1, Idle)]> (w_allocs w)) (w_issued w ++ [(take_id a).2])).
Proof.
  intros Hinv Hi Hlt Hm. pose proof (iv_alloc m w Hinv i a p Hi) as (Hb & He & _).
  assert (Hw : al_base a ⊞ 1 = al_base a + 1) by (apply u64_add_small; unfold is_u64; lia).
  unfold take_id. rewrite Hw. cbn [fst snd].
  assert (Hsh : inv m (mkWorld (w_etcd w) (<[i := (mkAllocator (al_base a + 1) (al_end a) (al_member a), Idle)]>
                                             (w_allocs w)) (w_issued w))).
  { apply (inv_shrink m w i a p); try done; cbn; [lia|]. unfold free. cbn. lia. }
  destruct Hsh as [Kz K1 K2 K3 K4 K5 K6]. cbn in *.
  assert (Hnew : free a (al_base a + 1)) by (unfold free; lia).
  split; cbn; [done|done| | |done| |done].
  - apply list.NoDup_app. split_and!; [done| |apply list.NoDup_singleton].
    intros id Hid ->%list_elem_of_singleton. by eapply (iv_free m w Hinv).
  - intros id [Hid| ->%list_elem_of_singleton]%elem_of_app; [by apply K3|lia].
  - intros j b q id Hj Hfr [Hid| ->%list_elem_of_singleton]%elem_of_app; [by eapply K5|].
    apply lookup_insert_Some in Hj as [[<- [= <- <-]]|[Hne Hj]]; [unfold free in Hfr; cbn in Hfr; lia|].
    apply Hne. by eapply (iv_apart m w Hinv).
Qed.

(** A committed transaction gives the allocator a block of its own. *)
Lemma inv_refill m w i a cmp stop s :
  inv m w -> w_allocs w !! i = Some (a, Committing cmp stop) -> m + allocStep < two64 ->
  generate_commit (w_etcd w) a cmp stop = (s, true) ->
  stop = m + allocStep
  /\ inv (m + allocStep) (mkWorld s (<[i := (refill a stop, Idle)]> (w_allocs w)) (w_issued w)).
Proof.
  intros [Hz H1 H2 H3 H4 H5 H6] Hi Hm Hc. pose proof (H4 i a _ Hi) as (Hb & He & k & Hk & -> & Hbe & Hcmp).
  unfold generate_commit in Hc. apply et_txn_yes in Hc as (Hall & Hget & _).
  apply list.Forall_cons in Hall as [Hh _].
  assert (k = m) as ->.
  { destruct Hcmp as [[-> ->]| ->]; cbn in Hh; destruct H1 as [[Hn ->]|Hs]; try done; try congruence.
    rewrite Hs in Hh. apply (inj Some) in Hh. symmetry. apply Uint64ToBytes_inj; [|done|done].
    unfold is_u64, allocStep in *. lia. }
  assert (Hst : m ⊞ allocStep = m + allocStep) by (apply u64_add_small; unfold is_u64, allocStep in *; lia).
  assert (Hsub : (m + allocStep) ⊟ allocStep = m) by (rewrite u64_sub_small; unfold is_u64, allocStep in *; lia).
  rewrite Hst in Hget |- *. split; [done|]. unfold refill. rewrite Hsub. unfold is_u64 in Hk.
  assert (Hpos : 0 < allocStep) by (unfold allocStep; lia).
  assert (Hold : forall j b q id, w_allocs w !! j = Some (b, q) -> free b id -> id <= m).
  { intros j b q id Hj [_ Hf]. specialize (H4 j b q Hj). lia. }
  split; cbn; [lia|by right|done|..].
  - intros id Hid%H3. lia.
  - intros j b q [[<- [= <- <-]]|[_ Hj]]%lookup_insert_Some; cbn; [lia|].
    destruct (H4 j b q Hj) as (? & ? & ?). split_and!; try done; lia.
  - intros j b q id [[<- [= <- <-]]|[_ Hj]]%lookup_insert_Some Hf; [|by eapply H5].
    intros Hid%H3. unfold free in Hf. cbn in Hf. lia.
  - intros j l b c q r id [[<- [= <- <-]]|[Hj Hjl]]%lookup_insert_Some
      [[<- [= <- <-]]|[Hl Hll]]%lookup_insert_Some Hfb Hfc; [done|..|by eapply H6].
    + pose proof (Hold l c r id Hll Hfc). unfold free in Hfb. cbn in Hfb. lia.
    + pose proof (Hold j b q id Hjl Hfb). unfold free in Hfc. cbn in Hfc. lia.
Qed.

(** A lost transaction: the block is saved, and nobody owns it. *)
Lemma inv_grow m m' w s :
  inv m w -> m <= m' -> saved s m' -> inv m' (mkWorld s (w_allocs w) (w_issued w)).
Proof.
  intros [Hz H1 H2 H3 H4 H5 H6] Hm Hs. split; cbn; try done; [lia|..].
  - intros id Hid%H3. lia.
  - intros i a p Hi. destruct (H4 i a p Hi) as (? & ? & ?). split_and!; try done; lia.
Qed.

Lemma commit_no w a cmp stop s :
  generate_commit (w_etcd w) a cmp stop = (s, false) -> et_get s KAllocId = et_get (w_etcd w) KAllocId.
Proof. unfold generate_commit. intros [_ Hs]%et_txn_no. apply Hs. Qed.

Lemma back_to_idle m w i a p s :
  inv m w -> w_allocs w !! i = Some (a, p) -> et_get s KAllocId = et_get (w_etcd w) KAllocId ->
  inv m (mkWorld s (<[i := (a, Idle)]> (w_allocs w)) (w_issued w)).
Proof.
  intros Hinv Hi Hs. pose proof (iv_alloc m w Hinv i a p Hi) as (? & ? & _).
  by apply (inv_shrink m w i a p).
Qed.

Lemma step_inv m w w' :
  inv m w -> step w w' -> m + allocStep < two64 -> exists m', m' <= m + allocStep /\ inv m' w'.
Proof.
  intros Hinv Hstep Hm. assert (Hpos : 0 < allocStep) by (unfold allocStep; lia).
  destruct Hstep as [w i member Hi|w i a Hi Hne|w i a cmp stop Hi Heq Hread|w i a cmp stop s Hi Hc
    |w i a cmp stop s Hi Hc|w i a cmp stop s b Hi Hc|w i a cmp stop Hi|w s Hs].
  - exists m. split; [lia|]. destruct Hinv as [Hz H1 H2 H3 H4 H5 H6].
    assert (Hno : forall id, ~ free (NewAllocatorImpl member) id) by (intros id; unfold free; cbn; lia).
    split; cbn; try done.
    + intros j b q [[<- [= <- <-]]|[_ Hj]]%lookup_insert_Some; [cbn; split_and!; done|by eapply H4].
    + intros j b q id [[<- [= <- <-]]|[_ Hj]]%lookup_insert_Some Hf; [by apply Hno in Hf|by eapply H5].
    + intros j l b c q r id [[<- [= <- <-]]|[_ Hj]]%lookup_insert_Some
        [[<- [= <- <-]]|[_ Hl]]%lookup_insert_Some Hfb Hfc; [done|by apply Hno in Hfb|by apply Hno in Hfc|by eapply H6].
  - exists m. split; [lia|]. apply (inv_take m w i a Idle); try done; [|lia].
    pose proof (iv_alloc m w Hinv i a Idle Hi). lia.
  - exists m. split; [lia|]. pose proof (iv_alloc m w Hinv i a Idle Hi) as (? & ? & _).
    apply (inv_shrink m w i a Idle); try done. destruct Hinv as [Hz Hsv _ _ _ _ _].
    unfold generate_read in Hread. destruct Hsv as [[Hn ->]|Hs].
    + rewrite Hn in Hread. injection Hread as <- <-. exists 0. split_and!; try done. by left.
    + rewrite Hs, Bytes_roundtrip in Hread by (unfold is_u64; lia). injection Hread as <- <-.
      exists m. split_and!; try done; [unfold is_u64; lia|]. by right.
  - destruct (inv_refill m w i a cmp stop s Hinv Hi Hm Hc) as [-> Hinv'].
    exists (m + allocStep). split; [lia|].
    pose proof (inv_take _ _ i (refill a (m + allocStep)) Idle Hinv') as Ht.
    cbn [w_allocs w_etcd w_issued] in Ht. rewrite insert_insert_eq in Ht. apply Ht; [apply lookup_insert_eq| |done].
    unfold refill. cbn. rewrite u64_sub_small; [lia|]. pose proof (iv_pos m w Hinv). unfold is_u64. lia.
  - exists m. split; [lia|]. eapply back_to_idle; [done|done|by eapply commit_no].
  - destruct b; [|exists m; split; [lia|]; eapply back_to_idle; [done|done|by eapply commit_no]].
    destruct (inv_refill m w i a cmp stop s Hinv Hi Hm Hc) as [-> Hinv'].
    exists (m + allocStep). split; [lia|].
    assert (Hb : inv m (mkWorld (w_etcd w) (<[i := (a, Idle)]> (w_allocs w)) (w_issued w))) by (by eapply back_to_idle).
    pose proof (inv_grow m (m + allocStep) _ s Hb) as Hg. apply Hg; [lia|]. apply (iv_saved _ _ Hinv').
  - exists m. split; [lia|]. by eapply back_to_idle.
  - exists m. split; [lia|]. apply (inv_grow m m w s Hinv); [lia|].
    pose proof (iv_saved m w Hinv) as Hsv. unfold saved in *. by rewrite Hs.
Qed.

Lemma reach_inv n w :
  reach n w -> allocStep * Z.of_nat n < two64 -> exists m, m <= allocStep * Z.of_nat n /\ inv m w.
Proof.
  assert (Hpos : 0 < allocStep) by (unfold allocStep; lia).
  induction 1 as [s Hs|n w w' Hr IH Hst]; intros Hn.
  - exists 0. split; [lia|]. split; cbn; try done; [by left|apply base.NoDup_nil_2|..].
    intros id Hid. by apply elem_of_nil in Hid.
  - destruct IH as (m & Hm & Hinv); [lia|].
    destruct (step_inv m w w' Hinv Hst) as (m' & Hm' & Hinv'); [lia|]. exists m'. split; [lia|done].
Qed.

(** A call of [Alloc] that nothing interrupts is one step, or a read and a commit. *)
Lemma Alloc_steps w i a s a' id :
  w_allocs w !! i = Some (a, Idle) -> Alloc (w_etcd w) a = Ret (s, a', id) ->
  let w' := mkWorld s (<[i := (a', Idle)]> (w_allocs w)) (w_issued w ++ [id]) in
  step w w' \/ exists w1, step w w1 /\ step w1 w'.
Proof.
  intros Hi. unfold Alloc. destruct (Z.eqb_spec (al_base a) (al_end a)) as [Heq|Hne].
  - unfold generate. destruct (generate_read (w_etcd w)) as [[cmp stop]|?| |] eqn:Hr; [|done..]. cbn beta iota.
    destruct (generate_commit (w_etcd w) a cmp stop) as [s1 []] eqn:Hc; [|done]. cbn.
    intros [= <- <- <-]. right. eexists. split; [by apply (step_read w i a cmp stop)|].
    pose proof (step_commit (mkWorld (w_etcd w) (<[i := (a, Committing cmp stop)]> (w_allocs w)) (w_issued w))
      i a cmp stop s1) as Hs. cbn [w_allocs w_etcd w_issued] in Hs. rewrite insert_insert_eq in Hs.
    apply Hs; [apply lookup_insert_eq|done].
  - intros [= <- <- <-]. left. by apply (step_take w i a).
Qed.
End Unique.

(** C21. No id is handed out twice.  Whatever the allocators of the servers do, in
    whatever order their reads and transactions come, whoever is elected and whichever
    answers of etcd are lost, the ids handed out are pairwise different and positive,
    for as long as fewer than 2^64 / 1000 steps were taken. *)
Theorem ids_never_repeated {S} `{EtcdLaws S} (n : nat) (w : world S) :
  reach n w -> allocStep * Z.of_nat n < two64 ->
  base.NoDup (w_issued w) /\ forall id, id ∈ w_issued w -> 0 < id < two64.
Proof.
  intros Hr Hn. destruct (reach_inv n w Hr Hn) as (m & Hm & Hinv). split; [apply Hinv|].
  intros id Hid%(iv_issued m w Hinv). lia.
Qed.

(** Two servers: the second one takes over with a block of its own. *)
Definition sample_etcd (leader : Z) : gmap ekey (list Z) := {[KLeader := [leader]]}.
Lemma ids_never_repeated_witness :
  exists w : world (gmap ekey (list Z)), w_issued w = [1; 1001] /\ base.NoDup (w_issued w).
Proof.
  assert (Hr : exists w, reach 7 w /\ w_issued w = [1; 1001]).
  { eexists. split.
    - eapply reach_step; [eapply reach_step; [eapply reach_step; [eapply reach_step; [eapply reach_step;
        [eapply reach_step; [eapply reach_step; [eapply (reach_new (sample_etcd 7)); reflexivity|]|]|]|]|]|]|].
      + apply (step_new _ 0%nat [7]). reflexivity.
      + apply (step_new _ 1%nat [8]). reflexivity.
      + eapply (step_read _ 0%nat); [reflexivity|reflexivity|vm_compute; reflexivity].
      + eapply (step_commit _ 0%nat); [reflexivity|vm_compute; reflexivity].
      + eapply (step_elsewhere _ {[KAllocId := [0; 0; 0; 0; 0; 0; 3; 232]; KLeader := [8]]}). reflexivity.
      + eapply (step_read _ 1%nat); [reflexivity|reflexivity|vm_compute; reflexivity].
      + eapply (step_commit _ 1%nat); [reflexivity|vm_compute; reflexivity].
    - vm_compute. reflexivity. }
  destruct Hr as (w & Hr & Hw). exists w. split; [exact Hw|].
  apply (ids_never_repeated 7 w Hr). vm_compute. reflexivity.
Defined.
