(* ===== verification/Tso.v ===== *)
(** * Tso: the timestamp oracle

    [TimestampOracle] of [scheduler/server/tso/tso.go].  A server that was elected
    synchronises with the time saved in etcd ([SyncTimestamp]), then moves the physical
    time on every 50 ms ([UpdateTimestamp]) and resets the oracle when it steps down;
    [GetRespTS] answers requests concurrently, by an atomic addition to the object the
    oracle points to.  A [time.Time] is its nanoseconds since 1970; [time.Now] and
    whether the lease has expired are arguments.  Logging and sleeping are left out. *)

From stdpp Require Import base option list gmap tactics.
From S2P Require Import Prelude.
From S2P Require Import Etcd.

Definition millisecond : Z := 1000000.
Definition updateTimestampGuard : Z := millisecond.
Definition maxLogical : Z := Z.shiftl 1 18.
Definition maxRetryCount : nat := 100.

(** ** Times *)
(** [time.Time{}] is the first of January of the year 1; its [UnixNano] wraps. *)
Definition ZeroTime : Z := - (62135596800 * 1000000000).
Definition UnixNano (t : Z) : Z := int64 t.
Definition SubTimeByWallClock (after before : Z) : Z := int64 (UnixNano after - UnixNano before).

Inductive tso_error :=
  | ErrInvalidBytes | ErrLostLeader | ErrLeaseExpired | ErrTooSmall | ErrTooLarge | ErrCount | ErrNoTimestamp.
Definition result A := outcome tso_error A.

Definition ParseTimestamp (data : list Z) : result Z :=
  let! nano := BytesToUint64 ErrInvalidBytes data in Ret (int64 nano).
Definition PhysicalShiftBits : Z := 18.
Definition LogicalBits : Z := Z.shiftl 1 PhysicalShiftBits - 1.
(** [time.Unix(physical/1000, physical%1000 ms)]. *)
Definition ParseTS (ts : Z) : Z * Z :=
  let logical := Z.land ts LogicalBits in
  let physical := Z.shiftr ts PhysicalShiftBits in
  (physical / 1000 * 1000000000 + physical mod 1000 * millisecond, logical).

(** ** The oracle *)
Record atomicObject := mkObject { o_physical : Z; o_logical : Z }.
(** Objects are shared with the requests that loaded them. *)
Abbreviation heap := (list atomicObject).

Record TimestampOracle := mkOracle {
  to_ts : option nat;
  to_lastSavedTime : Z;
  to_member : list Z;
  to_saveInterval : Z;
}.
Definition NewTimestampOracle (member : list Z) (saveInterval : Z) : TimestampOracle :=
  mkOracle None ZeroTime member saveInterval.

Record Timestamp := mkTimestamp { t_Physical : Z; t_Logical : Z }.

(** [current.physical.UnixNano() / int64(time.Millisecond)]. *)
Definition physical_ms (physical : Z) : Z := Z.quot (UnixNano physical) millisecond.

Section Oracle.
Context {S : Type} `{Etcd S}.

Definition loadTimestamp (s : S) : result Z :=
  match et_get s KTimestamp with
  | None => Ret ZeroTime
  | Some data => if len data =? 0 then Ret ZeroTime else ParseTimestamp data
  end.
Definition saveTimestamp (s : S) (t : TimestampOracle) (ts : Z) : result (S * TimestampOracle) :=
  match et_txn s [CmpValue KLeader (to_member t)] KTimestamp (Uint64ToBytes (wrap64 (UnixNano ts))) with
  | (s, true) => Ret (s, mkOracle (to_ts t) ts (to_member t) (to_saveInterval t))
  | (s, false) => Err ErrLostLeader
  end.

(** [atomic.StorePointer(&t.ts, &atomicObject{physical: next})]. *)
Definition storeObject (h : heap) (t : TimestampOracle) (physical : Z) : heap * TimestampOracle :=
  (h ++ [mkObject physical 0],
   mkOracle (Some (length h)) (to_lastSavedTime t) (to_member t) (to_saveInterval t)).

Definition SyncTimestamp (now : Z) (s : S) (h : heap) (t : TimestampOracle)
    : result (S * heap * TimestampOracle) :=
  let! last := loadTimestamp s in
  let next := if SubTimeByWallClock now last <? updateTimestampGuard
              then last + updateTimestampGuard else now in
  let! (s, t) := saveTimestamp s t (next + to_saveInterval t) in
  let (h, t) := storeObject h t next in
  Ret (s, h, t).

(** A nil pointer panics. *)
Definition loadObject (h : heap) (t : TimestampOracle) : result atomicObject :=
  let! p := deref (to_ts t) in deref (h !! p).

Definition UpdateTimestamp (now : Z) (s : S) (h : heap) (t : TimestampOracle)
    : result (S * heap * TimestampOracle) :=
  let! prev := loadObject h t in
  let jetLag := SubTimeByWallClock now (o_physical prev) in
  match (if jetLag >? updateTimestampGuard then Some now
         else if o_logical prev >? Z.quot maxLogical 2 then Some (o_physical prev + millisecond)
         else None) with
  | None => Ret (s, h, t)
  | Some next =>
    let! (s, t) := (if SubTimeByWallClock (to_lastSavedTime t) next <=? updateTimestampGuard
                    then saveTimestamp s t (next + to_saveInterval t) else Ret (s, t)) in
    let (h, t) := storeObject h t next in
    Ret (s, h, t)
  end.

(** Without another store in between, the compare-and-swap succeeds. *)
Definition ResetUserTimestamp (expired : bool) (maxResetTsGap : Z) (tso : Z) (s : S) (h : heap)
    (t : TimestampOracle) : result (S * heap * TimestampOracle) :=
  if expired then Err ErrLeaseExpired else
  let (physical, _) := ParseTS tso in
  let next := physical + millisecond in
  let! prev := loadObject h t in
  if SubTimeByWallClock next (o_physical prev) <=? 3 * updateTimestampGuard then Err ErrTooSmall else
  if SubTimeByWallClock next (o_physical prev) >=? maxResetTsGap then Err ErrTooLarge else
  let! (s, t) := saveTimestamp s t (next + to_saveInterval t) in
  let (h, t) := storeObject h t next in
  Ret (s, h, t).

Definition ResetTimestamp (h : heap) (t : TimestampOracle) : heap * TimestampOracle :=
  storeObject h t ZeroTime.
End Oracle.

(** ** Requests

    One round of the loop of [GetRespTS] on the object that was loaded: nothing when the
    oracle has no time yet, or the logical part is used up. *)
Definition addLogical (h : heap) (p : nat) (count : Z) : result (heap * option Timestamp) :=
  let! current := deref (h !! p) in
  if o_physical current =? ZeroTime then Ret (h, None) else
  let logical := int64 (o_logical current + count) in
  let h := <[p := mkObject (o_physical current) logical]> h in
  if logical >=? maxLogical then Ret (h, None) else
  Ret (h, Some (mkTimestamp (physical_ms (o_physical current)) logical)).

(** The loop, with what the other goroutines do between two rounds left out. *)
Fixpoint respLoop (n : nat) (expired : bool) (h : heap) (t : TimestampOracle) (count : Z)
    : result (heap * Timestamp) :=
  match n with
  | O => Err ErrNoTimestamp
  | Datatypes.S n =>
    let! p := deref (to_ts t) in
    let! (h, resp) := addLogical h p count in
    match resp with
    | None => respLoop n expired h t count
    | Some resp => if expired then Err ErrLeaseExpired else Ret (h, resp)
    end
  end.
Definition GetRespTS (expired : bool) (h : heap) (t : TimestampOracle) (count : Z)
    : result (heap * Timestamp) :=
  if count =? 0 then Err ErrCount else respLoop maxRetryCount expired h t count.
