(* ===== verification/TsoProps.v ===== *)
(** * TsoProps: no timestamp is handed out twice

    Servers share the saved time in etcd.  A server runs its oracle from the time it
    synchronised until it steps down, and is elected only when it does not run one; the
    answers to requests interleave with everything else ([step]).  The windows between
    the physical time and the last saved time of the servers that run an oracle are kept
    apart ([inv]), which makes timestamps unique even when an old leader goes on
    answering, without the lease.  Clock readings and saved times are between 1970 and
    2043 ([horizon]): differences of nanoseconds in an [int64] overflow beyond. *)

From stdpp Require Import base option list sorting gmap tactics.
From S2P Require Import Prelude.
From S2P Require Import Etcd.
From S2P Require Import Tso.

Definition horizon : Z := 2 ^ 61.

Record server := mkServer { sv_oracle : TimestampOracle; sv_running : bool }.

Section Steps.
Context {S : Type} `{Etcd S}.

Record world := mkWorld {
  w_etcd : S;
  w_heap : heap;
  w_servers : gmap nat server;
  w_requests : gmap nat (nat * Z);
  w_issued : list (Timestamp * Z);
}.

(** An election gives the leader key to a server that does not run an oracle; the key
    may also be lost, and other keys may change. *)
Definition election (w : world) (s : S) : Prop :=
  et_get s KTimestamp = et_get (w_etcd w) KTimestamp /\
  (et_get s KLeader = et_get (w_etcd w) KLeader \/ et_get s KLeader = None
   \/ exists i sv, w_servers w !! i = Some sv /\ sv_running sv = false
        /\ et_get s KLeader = Some (to_member (sv_oracle sv))).

Inductive step : world -> world -> Prop :=
  | step_new w i member interval :
      w_servers w !! i = None ->
      (forall j sv, w_servers w !! j = Some sv -> to_member (sv_oracle sv) <> member) ->
      updateTimestampGuard <= interval < horizon ->
      step w (mkWorld (w_etcd w) (w_heap w)
                (<[i := mkServer (NewTimestampOracle member interval) false]> (w_servers w))
                (w_requests w) (w_issued w))
  | step_etcd w s :
      election w s ->
      step w (mkWorld s (w_heap w) (w_servers w) (w_requests w) (w_issued w))
  | step_sync w i t now s h t' :
      w_servers w !! i = Some (mkServer t false) -> 0 <= now < horizon ->
      SyncTimestamp now (w_etcd w) (w_heap w) t = Ret (s, h, t') ->
      step w (mkWorld s h (<[i := mkServer t' true]> (w_servers w)) (w_requests w) (w_issued w))
  | step_sync_lost w i t now s h t' :
      (* the transaction took effect, and the answer was lost *)
      w_servers w !! i = Some (mkServer t false) -> 0 <= now < horizon ->
      SyncTimestamp now (w_etcd w) (w_heap w) t = Ret (s, h, t') ->
      step w (mkWorld s (w_heap w) (w_servers w) (w_requests w) (w_issued w))
  | step_update w i t now s h t' :
      w_servers w !! i = Some (mkServer t true) -> 0 <= now < horizon ->
      UpdateTimestamp now (w_etcd w) (w_heap w) t = Ret (s, h, t') ->
      step w (mkWorld s h (<[i := mkServer t' true]> (w_servers w)) (w_requests w) (w_issued w))
  | step_update_lost w i t now s h t' :
      w_servers w !! i = Some (mkServer t true) -> 0 <= now < horizon ->
      UpdateTimestamp now (w_etcd w) (w_heap w) t = Ret (s, h, t') ->
      step w (mkWorld s (w_heap w) (<[i := mkServer t false]> (w_servers w)) (w_requests w) (w_issued w))
  | step_stop w i t :
      w_servers w !! i = Some (mkServer t true) ->
      step w (mkWorld (w_etcd w) (w_heap w) (<[i := mkServer t false]> (w_servers w)) (w_requests w) (w_issued w))
  | step_reset w i t :
      w_servers w !! i = Some (mkServer t false) ->
      step w (mkWorld (w_etcd w) (ResetTimestamp (w_heap w) t).1
                (<[i := mkServer (ResetTimestamp (w_heap w) t).2 false]> (w_servers w))
                (w_requests w) (w_issued w))
  | step_request w r i t b p count :
      (* [GetRespTS] loads the pointer ... *)
      w_servers w !! i = Some (mkServer t b) -> to_ts t = Some p -> 0 < count < 2 ^ 32 ->
      step w (mkWorld (w_etcd w) (w_heap w) (w_servers w) (<[r := (p, count)]> (w_requests w)) (w_issued w))
  | step_answer w r p count h ts :
      (* ... adds to the object, and answers *)
      w_requests w !! r = Some (p, count) -> addLogical (w_heap w) p count = Ret (h, Some ts) ->
      step w (mkWorld (w_etcd w) h (w_servers w) (delete r (w_requests w)) (w_issued w ++ [(ts, count)]))
  | step_no_answer w r p count h o :
      (* ... or starts again, or finds the lease expired *)
      w_requests w !! r = Some (p, count) -> addLogical (w_heap w) p count = Ret (h, o) ->
      step w (mkWorld (w_etcd w) h (w_servers w) (delete r (w_requests w)) (w_issued w)).

(** The saved time is a time before the horizon. *)
Definition in_range (w : world) : Prop :=
  forall b, et_get (w_etcd w) KTimestamp = Some b ->
    exists v, b = Uint64ToBytes v /\ 0 <= v < horizon.

Inductive reach : nat -> world -> Prop :=
  | reach_new s : et_get s KTimestamp = None -> reach 0 (mkWorld s [] ∅ ∅ [])
  | reach_step n w w' : reach n w -> step w w' -> in_range w' -> reach (Datatypes.S n) w'.
End Steps.
Arguments world : clear implicits.

(** ** Times before the horizon *)
Lemma sub_small a b : 0 <= a < 2 ^ 62 -> 0 <= b < 2 ^ 62 -> SubTimeByWallClock a b = a - b.
Proof.
  intros Ha Hb. unfold SubTimeByWallClock, UnixNano.
  rewrite (int64_small a), (int64_small b), int64_small; unfold two63; lia.
Qed.
Lemma sub_zero now : 0 <= now < horizon -> updateTimestampGuard <= SubTimeByWallClock now ZeroTime.
Proof.
  unfold horizon. intros Hn. unfold SubTimeByWallClock, UnixNano. rewrite (int64_small now) by (unfold two63; lia).
  change (int64 ZeroTime) with (- 6795364578871345152).
  rewrite int64_small by (unfold two63; lia). unfold updateTimestampGuard, millisecond. lia.
Qed.
Lemma bytes_of_time ts : 0 <= ts < 2 ^ 63 -> wrap64 (UnixNano ts) = ts.
Proof.
  intros Ht. unfold UnixNano. rewrite int64_small by (unfold two63; lia).
  apply wrap64_small. unfold is_u64, two64. lia.
Qed.

Definition ms (t : Z) : Z := t / millisecond.
Lemma ms_mono a b : a <= b -> ms a <= ms b.
Proof. intros. apply Z.div_le_mono; [unfold millisecond|]; lia. Qed.
Lemma ms_next a b : a + millisecond <= b -> ms a < ms b.
Proof.
  intros Hab. unfold ms. apply Z.lt_le_trans with ((a + 1 * millisecond) / millisecond).
  - rewrite Z.div_add by (unfold millisecond; lia). lia.
  - apply Z.div_le_mono; [unfold millisecond|]; lia.
Qed.
Lemma physical_ms_eq t : 0 <= t < 2 ^ 62 -> physical_ms t = ms t.
Proof.
  intros Ht. unfold physical_ms, UnixNano. rewrite int64_small by (unfold two63; lia).
  unfold ms. apply Z.quot_div_nonneg; unfold millisecond; lia.
Qed.

(** ** The physical times *)
Section Physical.
Context {S : Type} `{EtcdLaws S}.
Implicit Types (s : S) (P : list Z) (t u : TimestampOracle) (sv : gmap nat server).

Definition real (x : Z) : Prop := x <> ZeroTime.
Definition cur P t (x : Z) : Prop := exists p, to_ts t = Some p /\ P !! p = Some x.
Abbreviation till t := (to_lastSavedTime t).

(** [v] is the saved time, [P] the physical times of the objects. *)
Record pinv (v : Z) s P sv : Prop := {
  pi_range : 0 <= v < horizon;
  pi_saved : et_get s KTimestamp = Some (Uint64ToBytes v)
             \/ et_get s KTimestamp = None /\ v = 0 /\ forall x, x ∈ P -> ~ real x;
  pi_times : forall x, x ∈ P -> real x -> 0 <= x <= v;
  pi_ms : forall p q x y, P !! p = Some x -> P !! q = Some y -> real x -> real y -> ms x = ms y -> p = q;
  pi_members : forall i j a b, sv !! i = Some a -> sv !! j = Some b ->
    to_member (sv_oracle a) = to_member (sv_oracle b) -> i = j;
  pi_interval : forall i a, sv !! i = Some a ->
    updateTimestampGuard <= to_saveInterval (sv_oracle a) < horizon;
  pi_run : forall i t, sv !! i = Some (mkServer t true) -> exists x, cur P t x /\ real x /\ x <= till t <= v
    /\ forall y, y ∈ P -> real y -> ms y <= ms x \/ till t + millisecond <= y;
  pi_apart : forall i j t u x y, i <> j -> sv !! i = Some (mkServer t true) -> sv !! j = Some (mkServer u true) ->
    cur P t x -> cur P u y -> till t + millisecond <= y \/ till u + millisecond <= x;
  pi_leader : forall i t, sv !! i = Some (mkServer t true) -> et_get s KLeader = Some (to_member t) -> till t = v;
}.

Lemma cur_snoc P t x z : cur P t x -> cur (P ++ [z]) t x.
Proof. intros (p & Hp & Hx). exists p. split; [done|]. by apply lookup_app_l_Some. Qed.
Lemma cur_snoc_inv P t x z w : cur P t w -> cur (P ++ [z]) t x -> x = w.
Proof.
  intros (p & Hp & Hw) (q & Hq & Hx). assert (q = p) as -> by congruence.
  rewrite (lookup_app_l_Some _ _ _ _ Hw) in Hx. congruence.
Qed.
Lemma cur_last P t x : to_ts t = Some (length P) -> cur (P ++ [x]) t x.
Proof. intros Hp. exists (length P). split; [done|]. by apply list_lookup_middle. Qed.
Lemma cur_fun P t x y : cur P t x -> cur P t y -> x = y.
Proof. intros (p & Hp & Hx) (q & Hq & Hy). congruence. Qed.

(** Server [i] stores an object with physical time [next]. *)
Lemma pinv_create v v' s s' P sv i a t next :
  pinv v s P sv -> sv !! i = Some a ->
  to_ts t = Some (length P) -> to_member t = to_member (sv_oracle a) ->
  to_saveInterval t = to_saveInterval (sv_oracle a) ->
  0 <= next <= till t -> till t <= v' -> v <= v' < horizon ->
  et_get s' KTimestamp = Some (Uint64ToBytes v') ->
  (forall y, y ∈ P -> real y -> ms y < ms next \/ till t + millisecond <= y) ->
  (forall k u y, k <> i -> sv !! k = Some (mkServer u true) -> cur P u y ->
     till t + millisecond <= y \/ till u + millisecond <= next) ->
  (forall k u, k <> i -> sv !! k = Some (mkServer u true) -> et_get s' KLeader = Some (to_member u) -> till u = v') ->
  (et_get s' KLeader = Some (to_member t) -> till t = v') ->
  pinv v' s' (P ++ [next]) (<[i := mkServer t true]> sv).
Proof.
  intros [H1 H2 H3 H4 H5 H6 H7 H8 H9] Hi Hts Hm Hint Hn Ht Hv Hs Hms Hap Hl Hl'.
  assert (Hr : real next) by (unfold real, ZeroTime; lia).
  assert (Hnew : cur (P ++ [next]) t next) by (by apply cur_last).
  assert (Hgap : 0 < millisecond) by (unfold millisecond; lia).
  assert (Hlate : forall y, till t + millisecond <= y -> ms next < ms y) by (intros y Hy; apply ms_next; lia).
  split; [lia|by left|..].
  - intros x [Hx| ->%list_elem_of_singleton]%elem_of_app Hxr; [specialize (H3 x Hx Hxr)|]; lia.
  - assert (Hno : forall p x, P !! p = Some x -> real x -> ms x <> ms next).
    { intros p x Hp%list_elem_of_lookup_2 Hx. destruct (Hms x Hp Hx) as [?|?%Hlate]; lia. }
    intros p q x y [Hp|[Hp Hpx]]%lookup_app_Some [Hq|[Hq Hqy]]%lookup_app_Some Hxr Hyr Heq.
    + by eapply H4.
    + apply list_lookup_singleton_Some in Hqy as [_ <-]. by destruct (Hno p x).
    + apply list_lookup_singleton_Some in Hpx as [_ <-]. by destruct (Hno q y).
    + apply list_lookup_singleton_Some in Hqy as [? _]. apply list_lookup_singleton_Some in Hpx as [? _]. lia.
  - intros j k b c [[<- <-]|[Hj Hjl]]%lookup_insert_Some [[<- <-]|[Hk Hkl]]%lookup_insert_Some; cbn;
      rewrite ?Hm; [done|by eapply H5..].
  - intros j b [[<- <-]|[_ Hj]]%lookup_insert_Some; cbn; [rewrite Hint|]; by eapply H6.
  - intros j u [[<- [= <-]]|[Hne Hj]]%lookup_insert_Some.
    + exists next. split_and!; [done|done|lia|lia|].
      intros y [Hy| ->%list_elem_of_singleton]%elem_of_app Hyr; [|by left].
      destruct (Hms y Hy Hyr); [left; lia|by right].
    + destruct (H7 j u Hj) as (x & Hx & Hxr & Htl & Hy). exists x. split_and!; [by apply cur_snoc|done|lia|lia|].
      intros y [Hyi| ->%list_elem_of_singleton]%elem_of_app Hyr; [by apply Hy|].
      destruct (Hap j u x) as [Hle|?]; [done..| |by right]. left. apply ms_mono. lia.
  - intros j k u1 u2 x y Hjk [[<- [= <-]]|[Hj Hjl]]%lookup_insert_Some [[<- [= <-]]|[Hk Hkl]]%lookup_insert_Some Hx Hy.
    + done.
    + destruct (H7 k u2 Hkl) as (w & Hw & _). assert (y = w) as -> by (by eapply cur_snoc_inv).
      assert (x = next) as -> by (by eapply cur_fun). apply (Hap k u2 w); [by apply not_eq_sym|done..].
    + destruct (H7 j u1 Hjl) as (w & Hw & _). assert (x = w) as -> by (by eapply cur_snoc_inv).
      assert (y = next) as -> by (by eapply cur_fun). destruct (Hap j u1 w) as [?|?]; [by apply not_eq_sym|done|done|by right|by left].
    + destruct (H7 j u1 Hjl) as (w1 & Hw1 & _). destruct (H7 k u2 Hkl) as (w2 & Hw2 & _).
      assert (x = w1) as -> by (by eapply cur_snoc_inv). assert (y = w2) as -> by (by eapply cur_snoc_inv).
      by apply (H8 j k u1 u2 w1 w2).
  - intros j u [[<- [= <-]]|[Hne Hj]]%lookup_insert_Some; [done|]. apply (Hl j u); [by apply not_eq_sym|done].
Qed.

(** What a server does not do: the saved time grows, and it keeps its time. *)
Lemma pinv_stop v s P sv i t b z t' :
  pinv v s P sv -> sv !! i = Some (mkServer t b) -> ~ real z ->
  to_member t' = to_member t -> to_saveInterval t' = to_saveInterval t ->
  pinv v s (P ++ [z]) (<[i := mkServer t' false]> sv) /\ pinv v s P (<[i := mkServer t' false]> sv).
Proof.
  intros [H1 H2 H3 H4 H5 H6 H7 H8 H9] Hi Hz Hm Hint.
  assert (Hmem : forall j k b c, <[i := mkServer t' false]> sv !! j = Some b -> <[i := mkServer t' false]> sv !! k = Some c ->
    to_member (sv_oracle b) = to_member (sv_oracle c) -> j = k).
  { intros j k b' c [[<- <-]|[Hj Hjl]]%lookup_insert_Some [[<- <-]|[Hk Hkl]]%lookup_insert_Some; cbn; rewrite ?Hm; intros He.
    - done.
    - by eapply (H5 _ _ _ _ Hi Hkl).
    - by eapply (H5 _ _ _ _ Hjl Hi).
    - by eapply H5. }
  assert (Hin : forall j b, <[i := mkServer t' false]> sv !! j = Some b ->
    updateTimestampGuard <= to_saveInterval (sv_oracle b) < horizon).
  { intros j b' [[<- <-]|[_ Hj]]%lookup_insert_Some; cbn; [rewrite Hint; by apply (H6 _ _ Hi)|by eapply H6]. }
  assert (Hold : forall j u, <[i := mkServer t' false]> sv !! j = Some (mkServer u true) -> sv !! j = Some (mkServer u true)).
  { intros j u [[_ [=]]|[_ Hj]]%lookup_insert_Some. done. }
  assert (Hel : forall x, x ∈ P ++ [z] -> real x -> x ∈ P).
  { intros x [Hx| ->%list_elem_of_singleton]%elem_of_app; [done|by intros]. }
  split; split; try done.
  - destruct H2 as [?|(? & ? & Hno)]; [by left|right]. split_and!; [done..|]. intros x Hx Hxr. by apply (Hno x); [apply Hel|].
  - intros x Hx Hxr. apply H3; [by apply Hel|done].
  - intros p q x y [Hp|[_ Hpx]]%lookup_app_Some [Hq|[_ Hqy]]%lookup_app_Some Hxr Hyr Heq; [by eapply H4|..].
    + apply list_lookup_singleton_Some in Hqy as [_ <-]. done.
    + apply list_lookup_singleton_Some in Hpx as [_ <-]. done.
    + apply list_lookup_singleton_Some in Hpx as [_ <-]. done.
  - intros j u Hj%Hold. destruct (H7 j u Hj) as (x & Hx & Hxr & Htl & Hy). exists x.
    split_and!; [by apply cur_snoc|done|lia|lia|]. intros y Hyi Hyr. apply Hy; [by apply Hel|done].
  - intros j k u1 u2 x y Hjk Hj%Hold Hk%Hold Hx Hy.
    destruct (H7 j u1 Hj) as (w1 & Hw1 & _). destruct (H7 k u2 Hk) as (w2 & Hw2 & _).
    assert (x = w1) as -> by (by eapply cur_snoc_inv). assert (y = w2) as -> by (by eapply cur_snoc_inv).
    by apply (H8 j k u1 u2 w1 w2).
  - intros j u Hj%Hold. by apply (H9 j u).
  - intros j u Hj%Hold. by apply (H7 j u).
  - intros j k u1 u2 x y Hjk Hj%Hold Hk%Hold. by apply (H8 j k u1 u2 x y).
  - intros j u Hj%Hold. by apply (H9 j u).
Qed.

(** The saved time grew, and no server that runs an oracle leads. *)
Lemma pinv_grow v v' s s' P sv :
  pinv v s P sv -> v <= v' < horizon -> et_get s' KTimestamp = Some (Uint64ToBytes v') ->
  (forall k u, sv !! k = Some (mkServer u true) -> et_get s' KLeader <> Some (to_member u)) ->
  pinv v' s' P sv.
Proof.
  intros [H1 H2 H3 H4 H5 H6 H7 H8 H9] Hv Hs Hl. split; try done; [lia|by left|..].
  - intros x Hx Hxr. specialize (H3 x Hx Hxr). lia.
  - intros i t Hi. destruct (H7 i t Hi) as (x & Hx & Hxr & Htl & Hy). exists x. split_and!; [done|done|lia|lia|done].
  - intros i t Hi He. by destruct (Hl i t Hi).
Qed.
Lemma pinv_election v s s' P sv :
  pinv v s P sv -> et_get s' KTimestamp = et_get s KTimestamp ->
  (forall k u, sv !! k = Some (mkServer u true) -> et_get s' KLeader = Some (to_member u) ->
     et_get s KLeader = Some (to_member u)) ->
  pinv v s' P sv.
Proof.
  intros [H1 H2 H3 H4 H5 H6 H7 H8 H9] Hs Hl. split; try done; [by rewrite Hs|].
  intros i t Hi He. apply (H9 i t Hi). by apply (Hl i t Hi).
Qed.
Lemma pinv_new v s P sv i t :
  pinv v s P sv -> sv !! i = None -> updateTimestampGuard <= to_saveInterval t < horizon ->
  (forall j b, sv !! j = Some b -> to_member (sv_oracle b) <> to_member t) ->
  pinv v s P (<[i := mkServer t false]> sv).
Proof.
  intros [H1 H2 H3 H4 H5 H6 H7 H8 H9] Hi Hint Hm.
  assert (Hold : forall j u, <[i := mkServer t false]> sv !! j = Some (mkServer u true) -> sv !! j = Some (mkServer u true)).
  { intros j u [[_ [=]]|[_ Hj]]%lookup_insert_Some. done. }
  split; try done.
  - intros j k b c [[<- <-]|[Hj Hjl]]%lookup_insert_Some [[<- <-]|[Hk Hkl]]%lookup_insert_Some; cbn; intros He.
    + done.
    + by destruct (Hm k c Hkl).
    + by destruct (Hm j b Hjl).
    + by eapply H5.
  - intros j b [[<- <-]|[_ Hj]]%lookup_insert_Some; [done|by eapply H6].
  - intros j u Hj%Hold. by apply (H7 j u).
  - intros j k u1 u2 x y Hjk Hj%Hold Hk%Hold. by apply (H8 j k u1 u2 x y).
  - intros j u Hj%Hold. by apply (H9 j u).
Qed.

Lemma saveTimestamp_inv s t ts s' t' :
  saveTimestamp s t ts = Ret (s', t') -> 0 <= ts < 2 ^ 63 ->
  t' = mkOracle (to_ts t) ts (to_member t) (to_saveInterval t)
  /\ et_get s KLeader = Some (to_member t) /\ et_get s' KLeader = Some (to_member t)
  /\ et_get s' KTimestamp = Some (Uint64ToBytes ts).
Proof.
  unfold saveTimestamp. destruct (et_txn _ _ _ _) as [s1 []] eqn:Ht; [|done]. intros [= -> <-] Hr.
  apply et_txn_yes in Ht as (Hall & Hk & Hother). apply list.Forall_cons in Hall as [Hl _]. cbn in Hl.
  rewrite (bytes_of_time ts Hr) in Hk. rewrite Hother by done. done.
Qed.

Definition saved_ok s : Prop :=
  forall b, et_get s KTimestamp = Some b -> exists v, b = Uint64ToBytes v /\ 0 <= v < horizon.
Lemma saved_below s ts :
  saved_ok s -> et_get s KTimestamp = Some (Uint64ToBytes ts) -> 0 <= ts < 2 ^ 63 -> ts < horizon.
Proof.
  intros Hok Hs Hr. destruct (Hok _ Hs) as (v & Hv & Hh).
  apply Uint64ToBytes_inj in Hv; unfold is_u64, two64, horizon in *; lia.
Qed.

Abbreviation times h := (o_physical <$> h).

(** Where a new leader starts: a millisecond after the saved time at least. *)
Lemma sync_next v now s P sv :
  pinv v s P sv -> 0 <= now < horizon ->
  exists last, loadTimestamp s = Ret last /\
    let next := if SubTimeByWallClock now last <? updateTimestampGuard
                then last + updateTimestampGuard else now in
    0 <= next < 2 ^ 62 /\ v <= next /\ (v + millisecond <= next \/ forall x, x ∈ P -> ~ real x).
Proof.
  intros [H1 H2 _ _ _ _ _ _ _] Hnow. unfold loadTimestamp, horizon in *. destruct H2 as [->|(-> & -> & Hno)].
  - change (len (Uint64ToBytes v) =? 0) with false. cbn beta iota. unfold ParseTimestamp.
    rewrite Bytes_roundtrip by (unfold is_u64, two64; lia). rewrite (int64_small v) by (unfold two63; lia).
    eexists. split; [done|]. cbn zeta. rewrite sub_small by lia. unfold updateTimestampGuard, millisecond.
    destruct (Z.ltb_spec (now - v) 1000000); lia.
  - eexists. split; [done|]. cbn zeta. pose proof (sub_zero now Hnow) as Hz.
    destruct (Z.ltb_spec (SubTimeByWallClock now ZeroTime) updateTimestampGuard); [lia|].
    split_and!; [lia..|by right].
Qed.

Lemma SyncTimestamp_inv v now s h t sv i s' h' t' :
  pinv v s (times h) sv -> sv !! i = Some (mkServer t false) -> 0 <= now < horizon ->
  SyncTimestamp now s h t = Ret (s', h', t') -> saved_ok s' ->
  exists next, h' = h ++ [mkObject next 0]
    /\ t' = mkOracle (Some (length h)) (next + to_saveInterval t) (to_member t) (to_saveInterval t)
    /\ 0 <= next /\ v <= next /\ next + to_saveInterval t < horizon
    /\ et_get s' KLeader = Some (to_member t)
    /\ et_get s' KTimestamp = Some (Uint64ToBytes (next + to_saveInterval t))
    /\ (v + millisecond <= next \/ forall x, x ∈ times h -> ~ real x).
Proof.
  intros Hp Hi Hnow. pose proof (pi_interval _ _ _ _ Hp _ _ Hi) as Hint. cbn in Hint.
  destruct (sync_next v now s _ sv Hp Hnow) as (last & Hlast & Hr & Hv & Hlo).
  unfold SyncTimestamp. rewrite Hlast. cbn beta iota zeta. set (next := if _ <? _ then _ else _) in *.
  unfold updateTimestampGuard, millisecond, horizon in Hint.
  destruct (saveTimestamp s t (next + to_saveInterval t)) as [[s1 t1]|?| |] eqn:Hsv; [|done..].
  intros [= -> <- <-] Hok. apply saveTimestamp_inv in Hsv as (-> & _ & Hl & Hts); [|lia].
  assert (Hb : next + to_saveInterval t < horizon) by (apply (saved_below s'); [done|done|lia]).
  exists next. split_and!; done || lia.
Qed.

Lemma sync_pinv v now s h t sv i s' h' t' :
  pinv v s (times h) sv -> sv !! i = Some (mkServer t false) -> 0 <= now < horizon ->
  SyncTimestamp now s h t = Ret (s', h', t') -> saved_ok s' ->
  exists next, h' = h ++ [mkObject next 0] /\ 0 <= next
    /\ (v + millisecond <= next \/ forall x, x ∈ times h -> ~ real x)
    /\ pinv (till t') s' (times h') (<[i := mkServer t' true]> sv)
    /\ pinv (till t') s' (times h) sv.
Proof.
  intros Hp Hi Hnow Hsync Hok.
  destruct (SyncTimestamp_inv v now s h t sv i s' h' t' Hp Hi Hnow Hsync Hok)
    as (next & -> & -> & Hnn & Hv & Hb & Hl & Hts & Hlo).
  pose proof (pi_interval _ _ _ _ Hp _ _ Hi) as Hint. cbn in Hint. unfold updateTimestampGuard, millisecond in Hint.
  assert (Hmem : forall k u, sv !! k = Some (mkServer u true) -> to_member u <> to_member t).
  { intros k u Hk He. assert (k = i) as -> by (by apply (pi_members _ _ _ _ Hp _ _ _ _ Hk Hi)). congruence. }
  exists next. split_and!; try done; cbn [to_lastSavedTime].
  - rewrite fmap_app. cbn.
    apply (pinv_create v (next + to_saveInterval t) s s' (times h) sv i (mkServer t false)); cbn; try done; try lia.
    + by rewrite length_fmap.
    + intros y Hy Hyr. left. destruct Hlo as [Hlo|Hno]; [|by destruct (Hno y)].
      apply ms_next. pose proof (pi_times _ _ _ _ Hp y Hy Hyr). lia.
    + intros k u y _ Hk Hy. right. destruct (pi_run _ _ _ _ Hp k u Hk) as (x & (p & _ & Hx) & Hxr & Htl & _).
      destruct Hlo as [Hlo|Hno]; [lia|]. destruct (Hno x); [by eapply list_elem_of_lookup_2|done].
    + intros k u _ Hk. rewrite Hl. intros [= He]. by destruct (Hmem k u Hk).
  - apply (pinv_grow v _ s); [done|lia|done|]. intros k u Hk. rewrite Hl. intros [= He].
    by destruct (Hmem k u Hk).
Qed.

(** [UpdateTimestamp] of a server that runs an oracle: nothing, or a new object later by
    a millisecond, within the saved window or after saving a new one. *)
Lemma UpdateTimestamp_inv v now s h t sv i s' h' t' :
  pinv v s (times h) sv -> sv !! i = Some (mkServer t true) -> 0 <= now < horizon ->
  UpdateTimestamp now s h t = Ret (s', h', t') -> saved_ok s' ->
  (s' = s /\ h' = h /\ t' = t)
  \/ exists x next, cur (times h) t x /\ h' = h ++ [mkObject next 0] /\ 0 <= x /\ x + millisecond <= next
    /\ ((s' = s /\ next < till t
          /\ t' = mkOracle (Some (length h)) (till t) (to_member t) (to_saveInterval t))
        \/ (t' = mkOracle (Some (length h)) (next + to_saveInterval t) (to_member t) (to_saveInterval t)
            /\ till t <= next + millisecond /\ next + to_saveInterval t < horizon
            /\ et_get s KLeader = Some (to_member t) /\ et_get s' KLeader = Some (to_member t)
            /\ et_get s' KTimestamp = Some (Uint64ToBytes (next + to_saveInterval t)))).
Proof.
  intros Hp Hi Hnow. destruct (pi_run _ _ _ _ Hp i t Hi) as (x & Hcur & Hxr & Htl & _).
  pose proof (pi_range _ _ _ _ Hp) as Hvr. pose proof (pi_interval _ _ _ _ Hp _ _ Hi) as Hint. cbn in Hint.
  pose proof Hcur as (p & Hts & Hx). rewrite list_lookup_fmap in Hx. apply fmap_Some in Hx as (o & Ho & ->).
  assert (Hx0 : 0 <= o_physical o).
  { apply (pi_times _ _ _ _ Hp); [|done]. apply list_elem_of_fmap. exists o. split; [done|]. by eapply list_elem_of_lookup_2. }
  unfold UpdateTimestamp, loadObject, horizon, updateTimestampGuard, millisecond in *. rewrite Hts. cbn [deref]. rewrite Ho. cbn [deref].
  rewrite (sub_small now) by lia. cbn zeta.
  assert (Hnext : forall nx, (if now - o_physical o >? 1000000 then Some now
         else if o_logical o >? Z.quot maxLogical 2 then Some (o_physical o + 1000000) else None) = Some nx ->
      o_physical o + 1000000 <= nx < 2 ^ 62).
  { intros nx. destruct (Z.gtb_spec (now - o_physical o) 1000000); [intros [= <-]; lia|].
    destruct (o_logical o >? _); [intros [= <-]; lia|done]. }
  destruct (if now - o_physical o >? 1000000 then _ else _) as [nx|]; [|intros [= <- <- <-]; by left].
  specialize (Hnext nx eq_refl). rewrite sub_small by lia.
  destruct (Z.leb_spec (till t - nx) 1000000) as [Hle|Hgt].
  - destruct (saveTimestamp s t (nx + to_saveInterval t)) as [[s1 t1]|?| |] eqn:Hsv; [|done..].
    intros [= -> <- <-] Hok. apply saveTimestamp_inv in Hsv as (-> & Hl & Hl' & Hk); [|lia].
    assert (Hb : nx + to_saveInterval t < horizon) by (apply (saved_below s'); [done|done|lia]).
    right. exists (o_physical o), nx. unfold horizon in Hb. split_and!; try done; try lia. right. split_and!; done || lia.
  - intros [= <- <- <-] _. right. exists (o_physical o), nx. split_and!; try done; try lia. left. split_and!; done || lia.
Qed.

Lemma update_pinv v now s h t sv i s' h' t' :
  pinv v s (times h) sv -> sv !! i = Some (mkServer t true) -> 0 <= now < horizon ->
  UpdateTimestamp now s h t = Ret (s', h', t') -> saved_ok s' ->
  exists v', (h' = h \/ exists next, h' = h ++ [mkObject next 0])
    /\ pinv v' s' (times h') (<[i := mkServer t' true]> sv)
    /\ pinv v' s' (times h) (<[i := mkServer t false]> sv).
Proof.
  intros Hp Hi Hnow Hup Hok. pose proof (pi_run _ _ _ _ Hp i t Hi) as (x0 & Hcur0 & Hxr0 & Htl & Hbelow).
  pose proof (pi_interval _ _ _ _ Hp _ _ Hi) as Hint. cbn in Hint.
  assert (Hoff : pinv v s (times h) (<[i := mkServer t false]> sv)).
  { by apply (pinv_stop v s (times h) sv i t true ZeroTime t Hp Hi); [unfold real|..]; try done; intros []. }
  destruct (UpdateTimestamp_inv v now s h t sv i s' h' t' Hp Hi Hnow Hup Hok)
    as [(-> & -> & ->)|(x & next & Hcur & -> & Hx & Hn & Hcase)].
  { exists v. split_and!; [by left| |done]. by rewrite insert_id. }
  assert (x0 = x) as -> by (by eapply cur_fun).
  pose proof (pi_range _ _ _ _ Hp) as Hvr. pose proof (ms_next _ _ Hn) as Hms. unfold updateTimestampGuard, millisecond in *.
  destruct Hcase as [(-> & Hlt & ->)|(-> & Hle & Hb & Hl & Hl' & Hk)].
  - (* within the window *)
    exists v. split_and!; [right; by exists next| |done]. rewrite fmap_app. cbn.
    apply (pinv_create v v s s (times h) sv i (mkServer t true)); cbn; try done; try lia.
    + by rewrite length_fmap.
    + destruct (pi_saved _ _ _ _ Hp) as [?|(_ & _ & Hno)]; [done|]. destruct Hcur as (p & _ & Hpx).
      by destruct (Hno x); [eapply list_elem_of_lookup_2|].
    + intros y Hy Hyr. destruct (Hbelow y Hy Hyr); [left; lia|by right].
    + intros k u y Hki Hk Hy. destruct (pi_apart _ _ _ _ Hp i k t u x y) as [?|?]; [by apply not_eq_sym|done..|by left|].
      right. unfold millisecond in *. lia.
    + intros k u _ Hk. by apply (pi_leader _ _ _ _ Hp k u).
    + by apply (pi_leader _ _ _ _ Hp i t).
  - (* a new window, which only the leader gets *)
    pose proof (pi_leader _ _ _ _ Hp i t Hi Hl) as Hv.
    assert (Hmem : forall k u, k <> i -> sv !! k = Some (mkServer u true) -> to_member u <> to_member t).
    { intros k u Hki Hku He. by apply Hki, (pi_members _ _ _ _ Hp _ _ _ _ Hku Hi). }
    exists (next + to_saveInterval t). split_and!; [right; by exists next|..].
    + rewrite fmap_app. cbn.
      apply (pinv_create v (next + to_saveInterval t) s s' (times h) sv i (mkServer t true)); cbn; try done; try lia.
      * by rewrite length_fmap.
      * intros y Hy Hyr. left. pose proof (pi_times _ _ _ _ Hp y Hy Hyr).
        destruct (Hbelow y Hy Hyr); unfold millisecond in *; lia.
      * intros k u y Hki Hku Hy. right. pose proof (pi_run _ _ _ _ Hp k u Hku) as (z & Hz & _ & Hzt & _).
        assert (z = y) as -> by (by eapply cur_fun).
        destruct (pi_apart _ _ _ _ Hp i k t u x y) as [?|?]; [by apply not_eq_sym|done..| |]; unfold millisecond in *; lia.
      * intros k u Hki Hku. rewrite Hl'. intros [= He]. by destruct (Hmem k u Hki Hku).
    + apply (pinv_grow v _ s); [done|lia|done|].
      intros k u [[_ [=]]|[Hki Hku]]%lookup_insert_Some. rewrite Hl'. intros [= He].
      by destruct (Hmem k u (not_eq_sym Hki) Hku).
Qed.
End Physical.

(** ** The logical times *)
Section Logical.
Context {S : Type} `{EtcdLaws S}.
Implicit Types (h : heap) (issued : list (Timestamp * Z)).

(** The later of two answers with one physical time starts after the earlier one ends. *)
Definition later (a b : Timestamp * Z) : Prop :=
  t_Physical a.1 = t_Physical b.1 -> t_Logical a.1 <= t_Logical b.1 - b.2.
Definition answer_ok h (a : Timestamp * Z) : Prop :=
  0 < a.2 <= t_Logical a.1 /\ t_Logical a.1 < maxLogical /\
  exists p o, h !! p = Some o /\ real (o_physical o) /\ ms (o_physical o) = t_Physical a.1
    /\ t_Logical a.1 <= o_logical o.

Record linv (n : nat) h issued : Prop := {
  li_logical : forall p o, h !! p = Some o -> 0 <= o_logical o <= Z.of_nat n * 2 ^ 32;
  li_answers : Forall (answer_ok h) issued;
  li_order : StronglySorted later issued;
}.

Lemma linv_snoc n h issued z :
  linv n h issued -> linv (Datatypes.S n) (h ++ [mkObject z 0]) issued.
Proof.
  intros [H1 H2 H3]. split; [|eapply list.Forall_impl; [exact H2|]|done].
  - intros p o [Hp|[_ Hp]]%lookup_app_Some; [specialize (H1 p o Hp); lia|].
    apply list_lookup_singleton_Some in Hp as [_ <-]. cbn. lia.
  - intros a (Hc & Hm & p & o & Hp & Ho). split_and!; [lia..|]. exists p, o. split; [by apply lookup_app_l_Some|done].
Qed.
Lemma linv_S n h issued : linv n h issued -> linv (Datatypes.S n) h issued.
Proof. intros [H1 H2 H3]. split; [|done..]. intros p o Hp. specialize (H1 p o Hp). lia. Qed.

(** An object after an addition. *)
Lemma linv_insert n h issued p o c :
  linv n h issued -> h !! p = Some o -> 0 < c < 2 ^ 32 ->
  linv (Datatypes.S n) (<[p := mkObject (o_physical o) (o_logical o + c)]> h) issued.
Proof.
  intros [H1 H2 H3] Ho Hc. pose proof (H1 p o Ho) as Hl. split; [|eapply list.Forall_impl; [exact H2|]|done].
  - intros q x Hq. apply list_lookup_insert_Some in Hq as [(-> & <- & _)|[_ Hq]]; cbn; [lia|].
    specialize (H1 q x Hq). lia.
  - intros a (Hca & Hm & q & x & Hq & Hr & Hms & Hle). split_and!; [lia..|].
    destruct (decide (q = p)) as [->|Hne].
    + assert (x = o) as -> by congruence. exists p, (mkObject (o_physical o) (o_logical o + c)).
      split_and!; [|done|done|cbn; lia]. apply list_lookup_insert_eq. by eapply lookup_lt_Some.
    + exists q, x. split_and!; [by rewrite list_lookup_insert_ne by congruence|done..].
Qed.

Lemma addLogical_inv n v (s : S) sv h issued p c h' r :
  pinv v s (o_physical <$> h) sv -> linv n h issued -> 0 < c < 2 ^ 32 ->
  Z.of_nat n < 2 ^ 30 -> addLogical h p c = Ret (h', r) ->
  o_physical <$> h' = o_physical <$> h /\ linv (Datatypes.S n) h' issued
  /\ forall ts, r = Some ts -> linv (Datatypes.S n) h' (issued ++ [(ts, c)]).
Proof.
  intros Hp Hl Hc Hn. unfold addLogical. destruct (h !! p) as [o|] eqn:Ho; [|done]. cbn [deref].
  destruct (Z.eqb_spec (o_physical o) ZeroTime) as [_|Hr].
  { intros [= <- <-]. split; [done|]. split; [by apply linv_S|done]. }
  pose proof (li_logical n h issued Hl p o Ho) as Hlog. rewrite int64_small by (unfold two63; lia).
  pose proof (linv_insert n h issued p o c Hl Ho Hc) as Hl'. set (h1 := <[p := _]> h) in *.
  assert (Hph : o_physical <$> h1 = o_physical <$> h).
  { unfold h1. rewrite list_fmap_insert. cbn. apply list_insert_id. by rewrite list_lookup_fmap, Ho. }
  assert (Hin : h1 !! p = Some (mkObject (o_physical o) (o_logical o + c))).
  { apply list_lookup_insert_eq. by eapply lookup_lt_Some. }
  destruct (Z.geb_spec (o_logical o + c) maxLogical) as [_|Hm]; intros [= <- <-]; (split; [done|]); [done|].
  split; [done|]. intros ts [= <-]. pose proof (pi_range _ _ _ _ Hp) as Hvr. unfold horizon in Hvr.
  assert (Hpr : 0 <= o_physical o <= v).
  { apply (pi_times _ _ _ _ Hp); [|done]. apply list_elem_of_fmap. exists o. split; [done|]. by eapply list_elem_of_lookup_2. }
  rewrite physical_ms_eq by lia. destruct Hl' as [H1 H2 H3]. split; [done|..].
  - apply list.Forall_app. split; [done|]. apply list.Forall_singleton. split_and!; [cbn; lia..|].
    exists p, (mkObject (o_physical o) (o_logical o + c)). cbn. split_and!; done || lia.
  - apply StronglySorted_app. split_and!; [|done|repeat constructor].
    intros a b Ha ->%list_elem_of_singleton. unfold later. cbn. intros Heq.
    rewrite list.Forall_forall in H2. pose proof (li_answers n h issued Hl) as Hold. rewrite list.Forall_forall in Hold.
    destruct (Hold a Ha) as (_ & _ & q & x & Hq & Hxr & Hms & Hle).
    assert (q = p) as ->.
    { apply (pi_ms _ _ _ _ Hp q p (o_physical x) (o_physical o)); try done; [..|congruence];
        rewrite list_lookup_fmap; by rewrite ?Hq, ?Ho. }
    assert (x = o) as -> by congruence. lia.
Qed.
End Logical.

(** ** Every reachable world *)
Section Reach.
Context {S : Type} `{EtcdLaws S}.
Implicit Types (w : world S).

Record inv (n : nat) (v : Z) w : Prop := {
  iv_physical : pinv v (w_etcd w) (o_physical <$> w_heap w) (w_servers w);
  iv_logical : linv n (w_heap w) (w_issued w);
  iv_counts : forall r p c, w_requests w !! r = Some (p, c) -> 0 < c < 2 ^ 32;
}.

Lemma election_pinv v w s :
  pinv v (w_etcd w) (o_physical <$> w_heap w) (w_servers w) -> election w s ->
  pinv v s (o_physical <$> w_heap w) (w_servers w).
Proof.
  intros Hp [Hts Hl]. apply (pinv_election v (w_etcd w)); [done|done|]. intros k u Hk Hlk.
  destruct Hl as [<-|[Hn|(i & sv & Hi & Hrun & Hm)]]; [done|congruence|].
  rewrite Hlk in Hm. injection Hm as Hm.
  assert (k = i) as -> by (by apply (pi_members _ _ _ _ Hp _ _ _ _ Hk Hi)).
  rewrite Hk in Hi. by injection Hi as <-.
Qed.

Lemma tso_step_inv n v w w' :
  inv n v w -> step w w' -> in_range w' -> Z.of_nat n < 2 ^ 30 -> exists v', inv (Datatypes.S n) v' w'.
Proof.
  intros [Hp Hl Hc] Hstep Hok Hn. pose proof (linv_S _ _ _ Hl) as HlS.
  destruct Hstep as [w i member interval Hi Hm Hint|w s Hel|w i t now s h t' Hi Hnow Hs|w i t now s h t' Hi Hnow Hs
    |w i t now s h t' Hi Hnow Hs|w i t now s h t' Hi Hnow Hs|w i t Hi|w i t Hi|w r i t b p count Hi Hts Hcount
    |w r p count h ts Hr Ha|w r p count h o Hr Ha].
  - exists v. split; [|done..]. apply pinv_new; try done. 
  - exists v. split; [|done..]. exact (election_pinv v w s Hp Hel).
  - destruct (sync_pinv v now _ _ t _ i s h t' Hp Hi Hnow Hs Hok) as (next & -> & _ & _ & Hp' & _).
    eexists. split; [exact Hp'|by apply linv_snoc|done].
  - destruct (sync_pinv v now _ _ t _ i s h t' Hp Hi Hnow Hs Hok) as (next & -> & _ & _ & _ & Hp').
    eexists. by split; [exact Hp'|..].
  - destruct (update_pinv v now _ _ t _ i s h t' Hp Hi Hnow Hs Hok) as (v' & Hh & Hp' & _). exists v'.
    split; [done| |done]. destruct Hh as [->|[next ->]]; [done|by apply linv_snoc].
  - destruct (update_pinv v now _ _ t _ i s h t' Hp Hi Hnow Hs Hok) as (v' & _ & _ & Hp'). by exists v'.
  - exists v. split; [|done..]. apply (pinv_stop v _ _ _ i t true ZeroTime t Hp Hi); try done. by intros [].
  - exists v. split; [|by apply linv_snoc|done]. cbn. rewrite fmap_app. cbn.
    apply (pinv_stop v _ _ _ i t false ZeroTime _ Hp Hi); try done. by intros [].
  - exists v. split; [done|done|]. cbn. intros r' p' c' [[_ [= <- <-]]|[_ Hr]]%lookup_insert_Some; [done|by eapply Hc].
  - destruct (addLogical_inv n v _ _ _ _ p count h _ Hp Hl (Hc _ _ _ Hr) Hn Ha) as (He & _ & Hl'). exists v.
    split; cbn; [by rewrite He|by apply Hl'|]. intros r' p' c' [_ Hr']%lookup_delete_Some. by eapply Hc.
  - destruct (addLogical_inv n v _ _ _ _ p count h _ Hp Hl (Hc _ _ _ Hr) Hn Ha) as (He & Hl' & _). exists v.
    split; cbn; [by rewrite He|done|]. intros r' p' c' [_ Hr']%lookup_delete_Some. by eapply Hc.
Qed.

Lemma tso_reach_inv n w : reach n w -> Z.of_nat n < 2 ^ 30 -> exists v, inv n v w.
Proof.
  induction 1 as [s Hs|n w w' Hr IH Hst Hok]; intros Hn.
  - exists 0. split; cbn; [|split|]; try done.
    + split; try done; [by right; split_and!; [..|intros x Hx%elem_of_nil]|].
      intros x Hx. by apply elem_of_nil in Hx.
    + constructor.
  - destruct IH as (v & Hinv); [lia|]. by eapply tso_step_inv; [..|lia].
Qed.

(** The number a client makes of the two parts. *)
Definition compose (physical logical : Z) : Z := physical * 2 ^ 18 + logical.
(** An answer to a request for [count] timestamps stands for the last [count] logical times. *)
Definition covers (a : Timestamp * Z) (x : Z) : Prop :=
  exists l, t_Logical a.1 - a.2 < l <= t_Logical a.1 /\ x = compose (t_Physical a.1) l.

Lemma covers_disjoint a b h x :
  answer_ok h a -> answer_ok h b -> later a b -> covers a x -> covers b x -> False.
Proof.
  intros (Hca & Ha & _) (Hcb & Hb & _) Hlt (l1 & Hl1 & ->) (l2 & Hl2 & He).
  unfold compose, maxLogical in *. change (Z.shiftl 1 18) with (2 ^ 18) in *.
  assert (Hp : t_Physical a.1 = t_Physical b.1) by lia. specialize (Hlt Hp). lia.
Qed.
End Reach.

(** ** What the oracle promises *)

(** C20. No timestamp is handed out twice: the timestamps that two different answers
    stand for are different, whichever servers gave them and however elections, saved
    times, updates and requests interleave.  This holds for histories of fewer than 2^30
    steps, with clock readings and saved times before the horizon. *)
Theorem timestamps_unique {S} `{EtcdLaws S} (n : nat) (w : world S) (i j : nat) (a b : Timestamp * Z) (x : Z) :
  reach n w -> Z.of_nat n < 2 ^ 30 ->
  w_issued w !! i = Some a -> w_issued w !! j = Some b -> covers a x -> covers b x -> i = j.
Proof.
  intros Hr Hn Ha Hb Hca Hcb. destruct (tso_reach_inv n w Hr Hn) as (v & [_ Hl _]).
  pose proof (li_answers _ _ _ Hl) as Hok. rewrite list.Forall_lookup in Hok.
  pose proof (li_order _ _ _ Hl) as Hs.
  assert (Hlt : forall i j a b, w_issued w !! i = Some a -> w_issued w !! j = Some b -> (i < j)%nat -> later a b).
  { clear -Hs. induction Hs as [|z l Hs IH Hz]; intros i j a b Hi Hj Hij; [done|].
    destruct j as [|j]; [lia|]. destruct i as [|i]; cbn in *.
    - injection Hi as ->. rewrite list.Forall_forall in Hz. apply Hz. by eapply list_elem_of_lookup_2.
    - apply (IH i j); [done|done|lia]. }
  destruct (lt_eq_lt_dec i j) as [[Hij|Hij]|Hij]; [exfalso|done|exfalso].
  - apply (covers_disjoint a b (w_heap w) x); eauto.
  - apply (covers_disjoint b a (w_heap w) x); eauto.
Qed.

(** A new leader starts after everything that was ever handed out: when a server
    synchronises, its first physical time in milliseconds is greater than that of every
    timestamp handed out before, by any server. *)
Theorem sync_starts_later {S} `{EtcdLaws S} (n : nat) (w : world S) (i : nat) (t : TimestampOracle) (now : Z)
    (s : S) (h : heap) (t' : TimestampOracle) :
  reach n w -> Z.of_nat n < 2 ^ 30 -> w_servers w !! i = Some (mkServer t false) -> 0 <= now < horizon ->
  SyncTimestamp now (w_etcd w) (w_heap w) t = Ret (s, h, t') ->
  in_range (mkWorld s h (<[i := mkServer t' true]> (w_servers w)) (w_requests w) (w_issued w)) ->
  exists o, loadObject h t' = Ret o
    /\ forall a, a ∈ w_issued w -> t_Physical a.1 < physical_ms (o_physical o).
Proof.
  intros Hr Hn Hi Hnow Hs Hok. destruct (tso_reach_inv n w Hr Hn) as (v & [Hp Hl _]).
  destruct (SyncTimestamp_inv v now _ _ t _ i s h t' Hp Hi Hnow Hs Hok)
    as (next & -> & -> & Hnn & Hv & Hb & _ & _ & Hlo).
  exists (mkObject next 0). split.
  { unfold loadObject. cbn [to_ts deref]. by rewrite list_lookup_middle. }
  intros a Ha. pose proof (li_answers _ _ _ Hl) as Hans. rewrite list.Forall_forall in Hans.
  destruct (Hans a Ha) as (_ & _ & p & o & Ho & Hre & Hms & _). cbn [o_physical].
  pose proof (pi_interval _ _ _ _ Hp _ _ Hi) as Hint. cbn in Hint.
  unfold horizon, updateTimestampGuard, millisecond in Hb, Hint.
  rewrite physical_ms_eq, <- Hms by lia.
  assert (Hin : o_physical o ∈ o_physical <$> w_heap w).
  { apply list_elem_of_fmap. exists o. split; [done|]. by eapply list_elem_of_lookup_2. }
  destruct Hlo as [Hlo|Hno]; [|by destruct (Hno _ Hin)].
  apply ms_next. pose proof (pi_times _ _ _ _ Hp _ Hin Hre). lia.
Qed.

(** C40. The first synchronisation of a cluster compares the clock with the zero time,
    whose nanoseconds wrap around: the difference overflows from the 9th of December 2046
    on, and from then on the oracle starts at the year 1, with negative timestamps. *)
Theorem first_sync_overflow {S} `{EtcdLaws S} (now : Z) (s : S) (h : heap) (t : TimestampOracle) :
  et_get s KTimestamp = None -> 0 <= now < two63 ->
  forall s' h' t', SyncTimestamp now s h t = Ret (s', h', t') ->
  exists o, loadObject h' t' = Ret o /\
    o_physical o = if now <? 2428007457983430656 then now else ZeroTime + updateTimestampGuard.
Proof.
  intros Hs Hnow s' h' t'. unfold SyncTimestamp, loadTimestamp. rewrite Hs. cbn beta iota zeta.
  assert (Hsub : SubTimeByWallClock now ZeroTime
    = if now <? 2428007457983430656 then now + 6795364578871345152 else now + 6795364578871345152 - two64).
  { unfold SubTimeByWallClock, UnixNano. rewrite (int64_small now) by (unfold two63 in *; lia).
    change (int64 ZeroTime) with (- 6795364578871345152). unfold int64, two63, two64 in *.
    destruct (Z.ltb_spec now 2428007457983430656); [rewrite Z.mod_small; lia|].
    replace (now - -6795364578871345152 + 9223372036854775808)
      with (now + 6795364578871345152 - 9223372036854775808 + 1 * 18446744073709551616) by lia.
    rewrite Z.mod_add, Z.mod_small; lia. }
  rewrite Hsub. unfold two63, two64 in *. destruct (saveTimestamp _ _ _) as [[s1 t1]|?| |]; [|done..].
  intros [= <- <- <-]. eexists. split.
  { unfold loadObject, storeObject. cbn [to_ts deref]. by rewrite list_lookup_middle. }
  cbn [o_physical]. unfold updateTimestampGuard, millisecond.
  destruct (Z.ltb_spec now 2428007457983430656);
    match goal with |- context [?a <? ?b] => destruct (Z.ltb_spec a b) end; done || lia.
Qed.

(** ** Samples *)
Definition sample_etcd : gmap ekey (list Z) := {[KLeader := [7]]}.
Definition sample_oracle : TimestampOracle := NewTimestampOracle [7] 3000000000.
Definition sample_now : Z := 1600000000000000000.
Definition sample_answers : list (Timestamp * Z) :=
  [(mkTimestamp 1600000000000 2, 2); (mkTimestamp 1600000000000 5, 3)].

Definition sample_saved : Z := 1600000003000000000.
Definition sample_etcd' : gmap ekey (list Z) := <[KTimestamp := Uint64ToBytes sample_saved]> sample_etcd.
Definition idle_server : server := mkServer (NewTimestampOracle [8] 3000000000) false.
Definition sample_synced : TimestampOracle := mkOracle (Some 0%nat) sample_saved [7] 3000000000.

(** The world after the leader synchronised, with its object, the pending request and the answers. *)
Definition sample_world (logical : Z) (requests : gmap nat (nat * Z)) (issued : list (Timestamp * Z))
    : world (gmap ekey (list Z)) :=
  mkWorld sample_etcd' [mkObject sample_now logical]
    (<[0%nat := mkServer sample_synced true]> {[1%nat := idle_server]}) requests issued.
Lemma sample_in_range logical requests issued : in_range (sample_world logical requests issued).
Proof.
  intros b Hb. change (sample_etcd' !! KTimestamp = Some b) in Hb. unfold sample_etcd' in Hb.
  rewrite lookup_insert_eq in Hb. injection Hb as <-. exists sample_saved. by vm_compute.
Qed.

(** Two servers: the leader synchronises and answers two requests. *)
Lemma sample_reach : reach 7 (sample_world 5 ∅ sample_answers).
Proof.
  set (w0 := mkWorld sample_etcd [] ∅ ∅ [] : world (gmap ekey (list Z))).
  set (w1 := mkWorld sample_etcd [] {[1%nat := idle_server]} ∅ [] : world (gmap ekey (list Z))).
  set (w2 := mkWorld sample_etcd [] (<[0%nat := mkServer sample_oracle false]> {[1%nat := idle_server]}) ∅ []
             : world (gmap ekey (list Z))).
  assert (Hfree : forall h sv rq ans, in_range (mkWorld sample_etcd h sv rq ans : world (gmap ekey (list Z)))).
  { intros h sv rq ans b Hb. by vm_compute in Hb. }
  assert (Hgrow : forall n logical rq ans count ts,
    reach n (sample_world logical rq ans) -> 0 < count < 2 ^ 32 ->
    addLogical [mkObject sample_now logical] 0 count = Ret ([mkObject sample_now (logical + count)], Some ts) ->
    rq = ∅ -> reach (Datatypes.S (Datatypes.S n)) (sample_world (logical + count) ∅ (ans ++ [(ts, count)]))).
  { intros n logical rq ans count ts Hr Hc Ha ->.
    apply (reach_step _ (sample_world logical (<[0%nat := (0%nat, count)]> ∅) ans)); [|..|apply sample_in_range].
    - apply (reach_step _ _ _ Hr); [|apply sample_in_range].
      apply (step_request (sample_world logical ∅ ans) 0 0 sample_synced true 0); [apply lookup_insert_eq|done..].
    - pose proof (step_answer (sample_world logical (<[0%nat := (0%nat, count)]> ∅) ans) 0 0 count
        [mkObject sample_now (logical + count)] ts (lookup_insert_eq _ _ _) Ha) as Hs.
      cbn [w_requests sample_world] in Hs. rewrite delete_insert_id in Hs by done. exact Hs. }
  apply (Hgrow 5%nat 2 ∅ [(mkTimestamp 1600000000000 2, 2)] 3); [|done|by vm_compute|done].
  apply (Hgrow 3%nat 0 ∅ [] 2); [|done|by vm_compute|done].
  apply (reach_step 2 w2); [|..|apply sample_in_range].
  - apply (reach_step 1 w1); [apply (reach_step 0 w0); [by apply reach_new| |apply Hfree]| |apply Hfree].
    + by apply (step_new w0 1 [8] 3000000000).
    + apply (step_new w1 0 [7] 3000000000); [done| |done].
      cbn [w_servers w1]. intros j sv [_ <-]%lookup_singleton_Some. by vm_compute.
  - pose proof (step_sync w2 0 sample_oracle sample_now sample_etcd' [mkObject sample_now 0] sample_synced) as Hs.
    cbn [w_servers w2] in Hs. rewrite insert_insert_eq in Hs.
    apply Hs; [apply lookup_insert_eq|done|by vm_compute].
Qed.

Lemma timestamps_unique_witness :
  exists w : world (gmap ekey (list Z)), w_issued w = sample_answers
    /\ forall x, covers (mkTimestamp 1600000000000 2, 2) x -> ~ covers (mkTimestamp 1600000000000 5, 3) x.
Proof.
  exists (sample_world 5 ∅ sample_answers). split; [reflexivity|]. intros x Ha Hb.
  discriminate (timestamps_unique 7 (sample_world 5 ∅ sample_answers) 0 1 _ _ x sample_reach eq_refl eq_refl eq_refl Ha Hb).
Defined.

(** The other server takes over. *)
Definition sample_taken : gmap ekey (list Z) := {[KLeader := [8]; KTimestamp := Uint64ToBytes sample_saved]}.
Lemma sample_takeover : reach 8 (mkWorld sample_taken [mkObject sample_now 5]
    (<[0%nat := mkServer sample_synced true]> {[1%nat := idle_server]}) ∅ sample_answers).
Proof.
  apply (reach_step 7 _ _ sample_reach).
  - apply (step_etcd (sample_world 5 ∅ sample_answers)). split; [done|]. right. right.
    exists 1%nat, idle_server. by vm_compute.
  - intros b Hb. change (sample_taken !! KTimestamp = Some b) in Hb. exists sample_saved.
    vm_compute in Hb. injection Hb as <-. by vm_compute.
Qed.
Lemma sync_starts_later_witness :
  exists s h t', SyncTimestamp sample_now sample_taken [mkObject sample_now 5] (NewTimestampOracle [8] 3000000000)
      = Ret (s, h, t')
    /\ exists o, loadObject h t' = Ret o /\ 1600000000000 < physical_ms (o_physical o).
Proof.
  eexists _, _, _. split; [vm_compute; reflexivity|].
  destruct (sync_starts_later 8 (mkWorld sample_taken [mkObject sample_now 5]
    (<[0%nat := mkServer sample_synced true]> {[1%nat := idle_server]}) ∅ sample_answers) 1
    (NewTimestampOracle [8] 3000000000) sample_now
    (<[KTimestamp := Uint64ToBytes 1600000006001000000]> sample_taken)
    [mkObject sample_now 5; mkObject 1600000003001000000 0]
    (mkOracle (Some 1%nat) 1600000006001000000 [8] 3000000000) sample_takeover) as (o & Ho & Hall).
  - reflexivity.
  - reflexivity.
  - split; [discriminate|reflexivity].
  - vm_compute. reflexivity.
  - intros b Hb. exists 1600000006001000000. vm_compute in Hb. injection Hb as <-.
    split; [reflexivity|split; [discriminate|reflexivity]].
  - exists o. split; [exact Ho|]. apply (Hall (mkTimestamp 1600000000000 2, 2)). left.
Defined.

Lemma first_sync_overflow_witness :
  exists o, o_physical o = ZeroTime + updateTimestampGuard /\ 2500000000000000000 < two63.
Proof.
  assert (Hn : et_get sample_etcd KTimestamp = None) by (vm_compute; reflexivity).
  destruct (first_sync_overflow 2500000000000000000 sample_etcd [] sample_oracle Hn)
    with (s' := <[KTimestamp := Uint64ToBytes (wrap64 (UnixNano (ZeroTime + 3001000000)))]> sample_etcd)
         (h' := [mkObject (ZeroTime + 1000000) 0])
         (t' := mkOracle (Some 0%nat) (ZeroTime + 3001000000) [7] 3000000000) as (o & _ & Ho).
  - split; [discriminate|reflexivity].
  - vm_compute. reflexivity.
  - exists o. split; [rewrite Ho|]; vm_compute; reflexivity.
Defined.
