(* ===== verification/RaftServerpb.v ===== *)
(** * RaftServerpb: the states a peer keeps in its engines

    [RaftLocalState], [RaftApplyState], [RaftTruncatedState] and [StoreIdent] of
    [proto/pkg/raft_serverpb/raft_serverpb.pb.go] with their generated [MarshalTo],
    [Size] and [Unmarshal], and the proof that they are read back as written. *)

From stdpp Require Import base option list tactics.
From S2P Require Import Prelude.
From S2P Require Import Wire.
From S2P Require Import WireFacts.
From S2P Require Import Eraftpb.
From S2P Require Import EraftpbWire.
From S2P Require Import EraftpbRound.

Record RaftTruncatedState := mkTruncatedState {
  rt_Index : Z;
  rt_Term : Z;
  rt_XXX_unrecognized : option (list Z);
}.
#[export] Instance set_rt_Index : Setter rt_Index := fun g t =>
  mkTruncatedState (g (rt_Index t)) (rt_Term t) (rt_XXX_unrecognized t).
#[export] Instance set_rt_Term : Setter rt_Term := fun g t =>
  mkTruncatedState (rt_Index t) (g (rt_Term t)) (rt_XXX_unrecognized t).
#[export] Instance set_rt_XXX_unrecognized : Setter rt_XXX_unrecognized := fun g t =>
  mkTruncatedState (rt_Index t) (rt_Term t) (g (rt_XXX_unrecognized t)).

Record RaftApplyState := mkApplyState {
  ra_AppliedIndex : Z;
  ra_TruncatedState : option RaftTruncatedState;
  ra_XXX_unrecognized : option (list Z);
}.
#[export] Instance set_ra_AppliedIndex : Setter ra_AppliedIndex := fun g a =>
  mkApplyState (g (ra_AppliedIndex a)) (ra_TruncatedState a) (ra_XXX_unrecognized a).
#[export] Instance set_ra_TruncatedState : Setter ra_TruncatedState := fun g a =>
  mkApplyState (ra_AppliedIndex a) (g (ra_TruncatedState a)) (ra_XXX_unrecognized a).
#[export] Instance set_ra_XXX_unrecognized : Setter ra_XXX_unrecognized := fun g a =>
  mkApplyState (ra_AppliedIndex a) (ra_TruncatedState a) (g (ra_XXX_unrecognized a)).

Record RaftLocalState := mkLocalState {
  rl_HardState : option HardState;
  rl_LastIndex : Z;
  rl_LastTerm : Z;
  rl_XXX_unrecognized : option (list Z);
}.
#[export] Instance set_rl_HardState : Setter rl_HardState := fun g r =>
  mkLocalState (g (rl_HardState r)) (rl_LastIndex r) (rl_LastTerm r) (rl_XXX_unrecognized r).
#[export] Instance set_rl_LastIndex : Setter rl_LastIndex := fun g r =>
  mkLocalState (rl_HardState r) (g (rl_LastIndex r)) (rl_LastTerm r) (rl_XXX_unrecognized r).
#[export] Instance set_rl_LastTerm : Setter rl_LastTerm := fun g r =>
  mkLocalState (rl_HardState r) (rl_LastIndex r) (g (rl_LastTerm r)) (rl_XXX_unrecognized r).
#[export] Instance set_rl_XXX_unrecognized : Setter rl_XXX_unrecognized := fun g r =>
  mkLocalState (rl_HardState r) (rl_LastIndex r) (rl_LastTerm r) (g (rl_XXX_unrecognized r)).

Record StoreIdent := mkStoreIdent {
  id_ClusterId : Z;
  id_StoreId : Z;
  id_XXX_unrecognized : option (list Z);
}.
#[export] Instance set_id_ClusterId : Setter id_ClusterId := fun g m =>
  mkStoreIdent (g (id_ClusterId m)) (id_StoreId m) (id_XXX_unrecognized m).
#[export] Instance set_id_StoreId : Setter id_StoreId := fun g m =>
  mkStoreIdent (id_ClusterId m) (g (id_StoreId m)) (id_XXX_unrecognized m).
#[export] Instance set_id_XXX_unrecognized : Setter id_XXX_unrecognized := fun g m =>
  mkStoreIdent (id_ClusterId m) (id_StoreId m) (g (id_XXX_unrecognized m)).

Definition zero_StoreIdent : StoreIdent := mkStoreIdent 0 0 None.
Definition zero_RaftTruncatedState : RaftTruncatedState := mkTruncatedState 0 0 None.
Definition zero_RaftApplyState : RaftApplyState := mkApplyState 0 None None.
Definition zero_RaftLocalState : RaftLocalState := mkLocalState None 0 0 None.

(** ** RaftTruncatedState *)
Definition RaftTruncatedState_MarshalTo (m : RaftTruncatedState) (dAtA : list Z)
    : outcome wire_error (list Z * Z) :=
  (put_field_varint 0x8 (rt_Index m) ;>
   put_field_varint 0x10 (rt_Term m) ;>
   put_unrecognized (rt_XXX_unrecognized m)) dAtA 0.
Definition RaftTruncatedState_Size (m : RaftTruncatedState) : Z :=
  size_varint (rt_Index m) + size_varint (rt_Term m) + size_unrecognized (rt_XXX_unrecognized m).
Definition RaftTruncatedState_field (fieldNum : Z) : option (field_reader RaftTruncatedState) :=
  match fieldNum with
  | 1 => Some (read_varint wrap64 (fun v m => m <| rt_Index := v |>))
  | 2 => Some (read_varint wrap64 (fun v m => m <| rt_Term := v |>))
  | _ => None
  end.
Definition RaftTruncatedState_Unmarshal (m : RaftTruncatedState) (dAtA : list Z)
    : outcome wire_error RaftTruncatedState :=
  unmarshalWith RaftTruncatedState_field (fun b m => m <| rt_XXX_unrecognized ::= append_unrec b |>) m dAtA.

(** ** RaftApplyState *)
Definition RaftApplyState_MarshalTo (m : RaftApplyState) (dAtA : list Z)
    : outcome wire_error (list Z * Z) :=
  (put_field_varint 0x8 (ra_AppliedIndex m) ;>
   match ra_TruncatedState m with
   | Some t => put_field_msg 0x12 (RaftTruncatedState_Size t) (RaftTruncatedState_MarshalTo t)
   | None => wskip
   end ;>
   put_unrecognized (ra_XXX_unrecognized m)) dAtA 0.
Definition RaftApplyState_Size (m : RaftApplyState) : Z :=
  size_varint (ra_AppliedIndex m)
  + (match ra_TruncatedState m with Some t => size_delim (RaftTruncatedState_Size t) | None => 0 end)
  + size_unrecognized (ra_XXX_unrecognized m).
Definition RaftApplyState_field (fieldNum : Z) : option (field_reader RaftApplyState) :=
  match fieldNum with
  | 1 => Some (read_varint wrap64 (fun v m => m <| ra_AppliedIndex := v |>))
  | 2 => Some (read_optmsg ra_TruncatedState (fun t m => m <| ra_TruncatedState := Some t |>)
                 zero_RaftTruncatedState RaftTruncatedState_Unmarshal)
  | _ => None
  end.
Definition RaftApplyState_Unmarshal (m : RaftApplyState) (dAtA : list Z) : outcome wire_error RaftApplyState :=
  unmarshalWith RaftApplyState_field (fun b m => m <| ra_XXX_unrecognized ::= append_unrec b |>) m dAtA.

(** ** RaftLocalState *)
Definition RaftLocalState_MarshalTo (m : RaftLocalState) (dAtA : list Z)
    : outcome wire_error (list Z * Z) :=
  (match rl_HardState m with
   | Some hs => put_field_msg 0xa (HardState_Size hs) (HardState_MarshalTo hs)
   | None => wskip
   end ;>
   put_field_varint 0x10 (rl_LastIndex m) ;>
   put_field_varint 0x18 (rl_LastTerm m) ;>
   put_unrecognized (rl_XXX_unrecognized m)) dAtA 0.
Definition RaftLocalState_Size (m : RaftLocalState) : Z :=
  (match rl_HardState m with Some hs => size_delim (HardState_Size hs) | None => 0 end)
  + size_varint (rl_LastIndex m) + size_varint (rl_LastTerm m) + size_unrecognized (rl_XXX_unrecognized m).
Definition RaftLocalState_field (fieldNum : Z) : option (field_reader RaftLocalState) :=
  match fieldNum with
  | 1 => Some (read_optmsg rl_HardState (fun t m => m <| rl_HardState := Some t |>)
                 zero_HardState HardState_Unmarshal)
  | 2 => Some (read_varint wrap64 (fun v m => m <| rl_LastIndex := v |>))
  | 3 => Some (read_varint wrap64 (fun v m => m <| rl_LastTerm := v |>))
  | _ => None
  end.
Definition RaftLocalState_Unmarshal (m : RaftLocalState) (dAtA : list Z) : outcome wire_error RaftLocalState :=
  unmarshalWith RaftLocalState_field (fun b m => m <| rl_XXX_unrecognized ::= append_unrec b |>) m dAtA.

(** ** StoreIdent *)
Definition StoreIdent_MarshalTo (m : StoreIdent) (dAtA : list Z) : outcome wire_error (list Z * Z) :=
  (put_field_varint 0x8 (id_ClusterId m) ;>
   put_field_varint 0x10 (id_StoreId m) ;>
   put_unrecognized (id_XXX_unrecognized m)) dAtA 0.
Definition StoreIdent_Size (m : StoreIdent) : Z :=
  size_varint (id_ClusterId m) + size_varint (id_StoreId m) + size_unrecognized (id_XXX_unrecognized m).
Definition StoreIdent_field (fieldNum : Z) : option (field_reader StoreIdent) :=
  match fieldNum with
  | 1 => Some (read_varint wrap64 (fun v m => m <| id_ClusterId := v |>))
  | 2 => Some (read_varint wrap64 (fun v m => m <| id_StoreId := v |>))
  | _ => None
  end.
Definition StoreIdent_Unmarshal (m : StoreIdent) (dAtA : list Z) : outcome wire_error StoreIdent :=
  unmarshalWith StoreIdent_field (fun b m => m <| id_XXX_unrecognized ::= append_unrec b |>) m dAtA.

(** ** Read back as written *)
Definition StoreIdent_enc (m : StoreIdent) : list Z :=
  enc_varint 0x8 (id_ClusterId m) ++ enc_varint 0x10 (id_StoreId m) ++ default [] (id_XXX_unrecognized m).
Definition StoreIdent_ok (m : StoreIdent) : Prop :=
  is_u64 (id_ClusterId m) /\ is_u64 (id_StoreId m) /\ id_XXX_unrecognized m = None.
#[export] Instance StoreIdent_codec : Codec StoreIdent := {|
  c_Size := StoreIdent_Size; c_MarshalTo := StoreIdent_MarshalTo;
  c_Unmarshal := StoreIdent_Unmarshal; c_zero := zero_StoreIdent;
  c_enc := StoreIdent_enc; c_ok := StoreIdent_ok; c_norm := fun m => m |}.
#[export] Instance StoreIdent_laws : CodecLaws StoreIdent.
Proof.
  split; intros m (Hi & Ht & Hx) Hl; cbn in *; unfold StoreIdent_enc in *; rewrite !len_app in Hl.
  - unfold StoreIdent_Size. rewrite !len_app, !len_enc_varint, len_unrecognized. lia.
  - unfold StoreIdent_MarshalTo. apply emits_fills.
    repeat (apply emits_seq; [apply emits_field_varint|]). apply emits_unrecognized.
  - eapply unmarshalWith_consumes; [|rewrite !len_app; lia].
    next_u64 (fun v m => m <| id_ClusterId := v |>).
    next_u64 (fun v m => m <| id_StoreId := v |>).
    rewrite Hx. destruct m; cbn in *; subst. apply consumes_nil.
Qed.

Definition RaftTruncatedState_enc (m : RaftTruncatedState) : list Z :=
  enc_varint 0x8 (rt_Index m) ++ enc_varint 0x10 (rt_Term m) ++ default [] (rt_XXX_unrecognized m).
Definition RaftTruncatedState_ok (m : RaftTruncatedState) : Prop :=
  is_u64 (rt_Index m) /\ is_u64 (rt_Term m) /\ rt_XXX_unrecognized m = None.
#[export] Instance RaftTruncatedState_codec : Codec RaftTruncatedState := {|
  c_Size := RaftTruncatedState_Size; c_MarshalTo := RaftTruncatedState_MarshalTo;
  c_Unmarshal := RaftTruncatedState_Unmarshal; c_zero := zero_RaftTruncatedState;
  c_enc := RaftTruncatedState_enc; c_ok := RaftTruncatedState_ok; c_norm := fun m => m |}.
#[export] Instance RaftTruncatedState_laws : CodecLaws RaftTruncatedState.
Proof.
  split; intros m (Hi & Ht & Hx) Hl; cbn in *; unfold RaftTruncatedState_enc in *; rewrite !len_app in Hl.
  - unfold RaftTruncatedState_Size. rewrite !len_app, !len_enc_varint, len_unrecognized. lia.
  - unfold RaftTruncatedState_MarshalTo. apply emits_fills.
    repeat (apply emits_seq; [apply emits_field_varint|]). apply emits_unrecognized.
  - eapply unmarshalWith_consumes; [|rewrite !len_app; lia].
    next_u64 (fun v m => m <| rt_Index := v |>).
    next_u64 (fun v m => m <| rt_Term := v |>).
    rewrite Hx. destruct m; cbn in *; subst. apply consumes_nil.
Qed.

Definition RaftApplyState_enc (m : RaftApplyState) : list Z :=
  enc_varint 0x8 (ra_AppliedIndex m) ++ enc_opt 0x12 (ra_TruncatedState m)
  ++ default [] (ra_XXX_unrecognized m).
Definition RaftApplyState_ok (m : RaftApplyState) : Prop :=
  is_u64 (ra_AppliedIndex m) /\ from_option RaftTruncatedState_ok True (ra_TruncatedState m)
  /\ ra_XXX_unrecognized m = None.
#[export] Instance RaftApplyState_codec : Codec RaftApplyState := {|
  c_Size := RaftApplyState_Size; c_MarshalTo := RaftApplyState_MarshalTo;
  c_Unmarshal := RaftApplyState_Unmarshal; c_zero := zero_RaftApplyState;
  c_enc := RaftApplyState_enc; c_ok := RaftApplyState_ok; c_norm := fun m => m |}.
#[export] Instance RaftApplyState_laws : CodecLaws RaftApplyState.
Proof.
  split; intros m (Hi & Ht & Hx) Hl; cbn [c_enc c_Size c_MarshalTo c_Unmarshal c_norm RaftApplyState_codec] in *;
    unfold RaftApplyState_enc in *; rewrite !len_app in Hl.
  - unfold RaftApplyState_Size. rewrite !len_app, !len_enc_varint, len_unrecognized.
    rewrite size_optmsg by (done || (len_facts; lia)). cbn. lia.
  - unfold RaftApplyState_MarshalTo. apply emits_fills.
    apply emits_seq; [apply emits_field_varint|].
    apply emits_seq; [refine (emits_optmsg 0x12 (ra_TruncatedState m) _ _); [done|len_facts; lia]|].
    apply emits_unrecognized.
  - eapply unmarshalWith_consumes; [|rewrite !len_app; lia].
    next_u64 (fun v m => m <| ra_AppliedIndex := v |>).
    eapply consumes_app.
    { eapply (consumes_optmsg (T:=RaftTruncatedState) _ _ ra_TruncatedState
        (fun t m => m <| ra_TruncatedState := Some t |>)); try done; len_facts; lia. }
    destruct m as [i [t|] u]; cbn in *; subst u; apply consumes_nil.
Qed.

Definition RaftLocalState_enc (m : RaftLocalState) : list Z :=
  enc_opt 0xa (rl_HardState m) ++ enc_varint 0x10 (rl_LastIndex m) ++ enc_varint 0x18 (rl_LastTerm m)
  ++ default [] (rl_XXX_unrecognized m).
Definition RaftLocalState_ok (m : RaftLocalState) : Prop :=
  from_option HardState_ok True (rl_HardState m) /\ is_u64 (rl_LastIndex m) /\ is_u64 (rl_LastTerm m)
  /\ rl_XXX_unrecognized m = None.
#[export] Instance RaftLocalState_codec : Codec RaftLocalState := {|
  c_Size := RaftLocalState_Size; c_MarshalTo := RaftLocalState_MarshalTo;
  c_Unmarshal := RaftLocalState_Unmarshal; c_zero := zero_RaftLocalState;
  c_enc := RaftLocalState_enc; c_ok := RaftLocalState_ok; c_norm := fun m => m |}.
#[export] Instance RaftLocalState_laws : CodecLaws RaftLocalState.
Proof.
  split; intros m (Hh & Hi & Ht & Hx) Hl; cbn [c_enc c_Size c_MarshalTo c_Unmarshal c_norm RaftLocalState_codec] in *;
    unfold RaftLocalState_enc in *; rewrite !len_app in Hl.
  - unfold RaftLocalState_Size. rewrite !len_app, !len_enc_varint, len_unrecognized.
    rewrite size_optmsg by (done || (len_facts; lia)). cbn. lia.
  - unfold RaftLocalState_MarshalTo. apply emits_fills.
    apply emits_seq; [refine (emits_optmsg 0xa (rl_HardState m) _ _); [done|len_facts; lia]|].
    repeat (apply emits_seq; [apply emits_field_varint|]). apply emits_unrecognized.
  - eapply unmarshalWith_consumes; [|rewrite !len_app; lia].
    eapply consumes_app.
    { eapply (consumes_optmsg (T:=HardState) _ _ rl_HardState
        (fun t m => m <| rl_HardState := Some t |>)); try done; len_facts; lia. }
    destruct m as [[hs|] i t u]; cbn in *; subst u.
    all: next_u64 (fun v m => m <| rl_LastIndex := v |>).
    all: next_u64 (fun v m => m <| rl_LastTerm := v |>).
    all: apply consumes_nil.
Qed.
