(* ===== verification/Engine.v ===== *)
(** * Engine: key-value engines and write batches

    [Badger] is what the code uses of the badger package: reading a key, iterating from
    a key on, and applying the puts and deletes of a transaction, which is atomic;
    [BadgerLaws] is its documented behaviour.  A finite map is an instance.  On top of it
    [kv/util/engine_util]: write batches and the access to protobuf messages.  Errors of
    the engine itself are not modelled. *)

From stdpp Require Import base option list sorting gmap tactics.
From S2P Require Import Prelude.
From S2P Require Import Wire.
From S2P Require Import Metapb.
From S2P Require Import EraftpbRound.

(** A put, or a delete. *)
Abbreviation dbop := (list Z * option (list Z))%type.

Class Badger (D : Type) := {
  db_get : D -> list Z -> option (list Z);
  db_update : D -> list dbop -> D;
  (** the pairs an iterator visits after [Seek(key)] *)
  db_from : D -> list Z -> list (list Z * list Z);
}.

(** What is stored under a key after some operations. *)
Definition after_op (k : list Z) (v : option (list Z)) (op : dbop) : option (list Z) :=
  if bool_decide (op.1 = k) then op.2 else v.

Class BadgerLaws (D : Type) `{Badger D} : Prop := {
  db_get_update : forall d ops k, db_get (db_update d ops) k = foldl (after_op k) (db_get d k) ops;
  db_from_sorted : forall d k, StronglySorted (fun a b => key_lt a.1 b.1 = true) (db_from d k);
  db_from_elem : forall d k p, p ∈ db_from d k <-> db_get d p.1 = Some p.2 /\ key_lt p.1 k = false;
}.

(** ** A finite map *)
Definition kle (a b : list Z * list Z) : Prop := key_lt b.1 a.1 = false.
#[export] Instance kle_dec : RelDecision kle.
Proof. intros a b. unfold kle. apply _. Defined.
#[export] Instance kle_total : Total kle.
Proof.
  intros a b. unfold kle. destruct (key_lt b.1 a.1) eqn:H; [right|by left]. by apply key_lt_asym.
Qed.
#[export] Instance kle_trans : Transitive kle.
Proof.
  intros a b c. unfold kle. intros Hab Hbc. destruct (key_lt c.1 a.1) eqn:Hca; [|done].
  destruct (key_lt b.1 c.1) eqn:H2.
  - by rewrite (key_lt_trans _ _ _ H2 Hca) in Hab.
  - rewrite (key_lt_total _ _ H2 Hbc) in Hab. congruence.
Qed.

#[export] Instance map_badger : Badger (gmap (list Z) (list Z)) := {|
  db_get d k := d !! k;
  db_update d ops := foldl (fun d (op : dbop) => match op.2 with Some v => <[op.1 := v]> d | None => delete op.1 d end) d ops;
  db_from d k := merge_sort kle (filter (fun p => key_lt p.1 k = false) (map_to_list d)) |}.
#[export] Instance map_badger_laws : BadgerLaws (gmap (list Z) (list Z)).
Proof.
  split.
  - intros d ops k. cbn. revert d. induction ops as [|[k' [v|]] ops IH]; intros d; cbn; [done|..];
      rewrite IH; f_equal; unfold after_op; cbn; case_bool_decide; subst;
      by rewrite ?lookup_insert_eq, ?lookup_delete_eq, ?lookup_insert_ne, ?lookup_delete_ne.
  - intros d k. cbn. set (l := filter _ _).
    assert (Hs : StronglySorted kle (merge_sort kle l)) by (apply (StronglySorted_merge_sort kle)).
    assert (Hnd : base.NoDup (merge_sort kle l).*1).
    { rewrite merge_sort_Permutation. unfold l.
      eapply sublist_NoDup; [apply (NoDup_fst_map_to_list d)|]. apply fmap_sublist, sublist_filter. }
    induction Hs as [|a l' Hs IH Ha]; [constructor|]. cbn in Hnd. apply list.NoDup_cons in Hnd as [Hni Hnd].
    constructor; [by apply IH|]. rewrite list.Forall_forall in Ha |- *. intros b Hb. specialize (Ha b Hb). unfold kle in Ha.
    destruct (key_lt a.1 b.1) eqn:Hab; [done|]. destruct Hni. rewrite (key_lt_total _ _ Hab Ha).
    by apply list_elem_of_fmap_2.
  - intros d k [k' v]. cbn. rewrite merge_sort_Permutation, list_elem_of_filter, elem_of_map_to_list.
    cbn. tauto.
Qed.

(** ** Write batches *)
Record WriteBatch := mkWriteBatch {
  wb_entries : list (list Z * list Z);
  wb_size : Z;
  wb_safePoint : Z;
  wb_safePointSize : Z;
  wb_safePointUndo : Z;
}.
Definition new_WriteBatch : WriteBatch := mkWriteBatch [] 0 0 0 0.

Module wb.
Definition Len (b : WriteBatch) : Z := len (wb_entries b).
Definition add (b : WriteBatch) (key value : list Z) (n : Z) : WriteBatch :=
  mkWriteBatch (wb_entries b ++ [(key, value)]) (wb_size b + n) (wb_safePoint b) (wb_safePointSize b)
    (wb_safePointUndo b).
(** [append([]byte(cf+"_"), key...)]. *)
Definition KeyWithCF (cf key : list Z) : list Z := cf ++ [95] ++ key.
Definition SetCF (b : WriteBatch) (cf key val : list Z) : WriteBatch :=
  add b (KeyWithCF cf key) val (len key + len val).
(** No value: a delete. *)
Definition DeleteMeta (b : WriteBatch) (key : list Z) : WriteBatch := add b key [] (len key).
Definition DeleteCF (b : WriteBatch) (cf key : list Z) : WriteBatch := add b (KeyWithCF cf key) [] (len key).
Definition SetMeta {T} `{Codec T} (b : WriteBatch) (key : list Z) (msg : T) : outcome wire_error WriteBatch :=
  let! val := c_Marshal msg in Ret (add b key val (len key + len val)).
Definition SetSafePoint (b : WriteBatch) : WriteBatch :=
  mkWriteBatch (wb_entries b) (wb_size b) (len (wb_entries b)) (wb_size b) (wb_safePointUndo b).
Definition RollbackToSafePoint {E} (b : WriteBatch) : outcome E WriteBatch :=
  let! entries := slice_to (wb_entries b) (wb_safePoint b) in
  Ret (mkWriteBatch entries (wb_safePointSize b) (wb_safePoint b) (wb_safePointSize b) (wb_safePointUndo b)).
Definition Reset (b : WriteBatch) : WriteBatch := mkWriteBatch [] 0 0 0 0.

(** An entry without a value is deleted. *)
Definition op_of (e : list Z * list Z) : dbop := (e.1, if len e.2 =? 0 then None else Some e.2).
Definition WriteToDB {D} `{Badger D} (b : WriteBatch) (db : D) : D :=
  if len (wb_entries b) >? 0 then db_update db (map op_of (wb_entries b)) else db.
End wb.

(** ** Messages *)
Inductive engine_error := ErrKeyNotFound | ErrDecode (e : wire_error).

Definition GetMeta {D} `{Badger D} {T} `{Codec T} (engine : D) (key : list Z) : outcome engine_error T :=
  match db_get engine key with
  | None => Err ErrKeyNotFound
  | Some val => match c_Unmarshal c_zero val with
                | Ret m => Ret m
                | Err e => Err (ErrDecode e)
                | Panic => Panic
                | OutOfFuel => OutOfFuel
                end
  end.
(** [txn.Set]: unlike a write batch, it stores an empty value. *)
Definition PutMeta {D} `{Badger D} {T} `{Codec T} (engine : D) (key : list Z) (msg : T) : outcome wire_error D :=
  let! val := c_Marshal msg in Ret (db_update engine [(key, Some val)]).

(** ** What is stored after a batch *)
Section Facts.
Context {D : Type} `{BadgerLaws D}.

Definition after_entry (k : list Z) (v : option (list Z)) (e : list Z * list Z) : option (list Z) :=
  after_op k v (wb.op_of e).
Lemma WriteToDB_get b (db : D) k :
  db_get (wb.WriteToDB b db) k = foldl (after_entry k) (db_get db k) (wb_entries b).
Proof.
  unfold wb.WriteToDB. destruct (wb_entries b) as [|e es] eqn:Hb.
  - done.
  - assert ((len (e :: es) >? 0) = true) as -> by (rewrite len_cons; pose proof (len_nonneg es); lia).
    rewrite db_get_update, foldl_fmap. done.
Qed.
Lemma foldl_other k v es : Forall (fun e : list Z * list Z => e.1 <> k) es -> foldl (after_entry k) v es = v.
Proof.
  induction 1 as [|e es He _ IH]; [done|]. cbn. unfold after_entry at 2, after_op.
  rewrite bool_decide_false by done. exact IH.
Qed.
Lemma foldl_last k v es x val :
  x = (k, val) -> val <> [] -> foldl (after_entry k) v (es ++ [x]) = Some val.
Proof.
  intros -> Hv. rewrite foldl_app. cbn. unfold after_entry, after_op. cbn. rewrite bool_decide_true by done.
  destruct (Z.eqb_spec (len val) 0) as [Hz|]; [|done]. by apply len_0_nil in Hz.
Qed.
End Facts.
