(* ===== verification/EngineIter.v ===== *)
(** * EngineIter: column families of an engine

    [kv/util/engine_util]: reads and writes of a column family ([util.go]) and the iterator
    over one ([cf_iterator.go]).  A column family is the range of keys with its name and an
    underscore as their prefix; [visited] is what a loop over a range of user keys sees. *)

From Stdlib Require Import Ascii.
From stdpp Require Import base option list sorting strings gmap tactics.
From S2P Require Import Prelude.
From S2P Require Import Wire.
From S2P Require Import Metapb.
From S2P Require Import Engine.

(** The bytes of a string. *)
Definition bytes_of (s : string) : list Z := map (fun c => Z.of_N (N_of_ascii c)) (String.list_ascii_of_string s).
Definition CfDefault : list Z := bytes_of "default".
Definition CfWrite : list Z := bytes_of "write".
Definition CfLock : list Z := bytes_of "lock".
Definition CFs : list (list Z) := [CfDefault; CfWrite; CfLock].

Definition ExceedEndKey (current endKey : list Z) : bool :=
  if len endKey =? 0 then false else Compare current endKey >=? 0.

Section Iterator.
Context {D : Type} `{Badger D}.

(** ** Single keys *)
Definition GetCF (db : D) (cf key : list Z) : outcome engine_error (list Z) :=
  match db_get db (wb.KeyWithCF cf key) with Some val => Ret val | None => Err ErrKeyNotFound end.
Definition PutCF (db : D) (cf key val : list Z) : D := db_update db [(wb.KeyWithCF cf key, Some val)].
Definition DeleteCF (db : D) (cf key : list Z) : D := db_update db [(wb.KeyWithCF cf key, None)].

(** ** The iterator: the pairs from its position on *)
Record BadgerIterator := mkBadgerIterator {
  bi_txn : D;
  bi_rest : list (list Z * list Z);
  bi_prefix : list Z;
}.
Definition HasPrefix (prefix key : list Z) : bool := bool_decide (take (length prefix) key = prefix).
Definition NewCFIterator (cf : list Z) (txn : D) : BadgerIterator := mkBadgerIterator txn [] (cf ++ [95]).
Definition ValidForPrefix (it : BadgerIterator) (prefix : list Z) : bool :=
  match bi_rest it with (key, _) :: _ => HasPrefix (bi_prefix it ++ prefix) key | [] => false end.
Definition Valid (it : BadgerIterator) : bool := ValidForPrefix it [].
Definition Next (it : BadgerIterator) : BadgerIterator := mkBadgerIterator (bi_txn it) (tail (bi_rest it)) (bi_prefix it).
Definition Seek (it : BadgerIterator) (key : list Z) : BadgerIterator :=
  mkBadgerIterator (bi_txn it) (db_from (bi_txn it) (bi_prefix it ++ key)) (bi_prefix it).
Definition Rewind (it : BadgerIterator) : BadgerIterator :=
  mkBadgerIterator (bi_txn it) (db_from (bi_txn it) []) (bi_prefix it).
(** The key, without the prefix, and the value of the item; without an item the code panics. *)
Definition Item {E} (it : BadgerIterator) : outcome E (list Z * list Z) :=
  match bi_rest it with
  | (key, val) :: _ => let! key := slice_from key (len (bi_prefix it)) in Ret (key, val)
  | [] => Panic
  end.

(** [for ; it.Valid(); it.Next() { ... }]: the body says whether it breaks.  There is a
    round for every pair that is left. *)
Fixpoint iterLoop {E S} (n : nat) (body : S -> list Z -> list Z -> outcome E (S * bool)) (it : BadgerIterator) (st : S)
    : outcome E S :=
  match n with
  | O => OutOfFuel
  | Datatypes.S n =>
    if negb (Valid it) then Ret st else
    let! (key, val) := Item it in
    let! (st, break) := body st key val in
    if break : bool then Ret st else iterLoop n body (Next it) st
  end.
Definition iterFrom {E S} (it : BadgerIterator) (startKey : list Z) (body : S -> list Z -> list Z -> outcome E (S * bool))
    (st : S) : outcome E S :=
  let it := Seek it startKey in iterLoop (Datatypes.S (length (bi_rest it))) body it st.

(** ** Deleting a range *)
Definition deleteRangeCF {E} (txn : D) (batch : WriteBatch) (cf startKey endKey : list Z) : outcome E WriteBatch :=
  iterFrom (NewCFIterator cf txn) startKey
    (fun batch key _ => if ExceedEndKey key endKey then Ret (batch, true) else Ret (wb.DeleteCF batch cf key, false))
    batch.
Definition DeleteRange {E} (db : D) (startKey endKey : list Z) : outcome E D :=
  let! batch := foldM (fun batch cf => deleteRangeCF db batch cf startKey endKey) new_WriteBatch CFs in
  Ret (wb.WriteToDB batch db).
End Iterator.
Arguments BadgerIterator : clear implicits.

(** ** Prefixes *)
Lemma key_lt_cons x a y b :
  key_lt (x :: a) (y :: b) = match x ?= y with Eq => key_lt a b | Lt => true | Gt => false end.
Proof. unfold key_lt, Compare. cbn. by destruct (x ?= y). Qed.
Lemma key_lt_prefix p a b : key_lt (p ++ a) (p ++ b) = key_lt a b.
Proof. induction p as [|x p IH]; [done|]. cbn [app]. by rewrite key_lt_cons, Z.compare_refl. Qed.
(** What lies between two keys with a prefix has the prefix. *)
Lemma prefix_between p : forall a k b,
  key_lt k (p ++ a) = false -> key_lt k (p ++ b) = true -> exists c, k = p ++ c.
Proof.
  induction p as [|x p IH]; intros a k b; [by exists k|]. cbn [app].
  destruct k as [|y k]; [done|]. rewrite !key_lt_cons.
  destruct (Z.compare_spec y x) as [->| |]; try done. intros Ha Hb. destruct (IH _ _ _ Ha Hb) as [c ->]. by exists c.
Qed.
Lemma HasPrefix_spec p k : HasPrefix p k = true <-> exists c, k = p ++ c.
Proof.
  unfold HasPrefix. rewrite bool_decide_eq_true. split.
  - intros Ht. exists (drop (length p) k). by rewrite <- Ht at 1; rewrite take_drop.
  - intros [c ->]. by rewrite take_app_length.
Qed.
Lemma slice_from_app {E} (p c : list Z) : slice_from (E:=E) (p ++ c) (len p) = Ret c.
Proof.
  rewrite slice_from_ok; [|rewrite len_app; pose proof (len_nonneg p); pose proof (len_nonneg c); lia].
  f_equal. unfold len. rewrite Nat2Z.id. apply drop_app_length.
Qed.
Lemma KeyWithCF_eq cf key : wb.KeyWithCF cf key = (cf ++ [95]) ++ key.
Proof. unfold wb.KeyWithCF. by rewrite <- app_assoc. Qed.

(** ** What a loop over a range visits *)
Section Visited.
Context {D : Type} `{BadgerLaws D}.

(** Up to the first pair outside of the column family, or at the end key. *)
Fixpoint visited (prefix endKey : list Z) (rest : list (list Z * list Z)) : list (list Z * list Z) :=
  match rest with
  | [] => []
  | (k, v) :: rest =>
    if negb (HasPrefix prefix k) || ExceedEndKey (drop (length prefix) k) endKey then []
    else (drop (length prefix) k, v) :: visited prefix endKey rest
  end.
Definition cfRange (db : D) (cf startKey endKey : list Z) : list (list Z * list Z) :=
  visited (cf ++ [95]) endKey (db_from db ((cf ++ [95]) ++ startKey)).

Lemma iterLoop_visited {E S} (body : S -> list Z -> list Z -> outcome E (S * bool)) (f : S -> list Z -> list Z -> S)
    endKey (it : BadgerIterator D) : forall n st, (length (bi_rest it) < n)%nat ->
  (forall st key v, ExceedEndKey key endKey = true -> body st key v = Ret (st, true)) ->
  (forall st key v, ExceedEndKey key endKey = false -> body st key v = Ret (f st key v, false)) ->
  iterLoop n body it st = Ret (foldl (fun st p => f st p.1 p.2) st (visited (bi_prefix it) endKey (bi_rest it))).
Proof.
  destruct it as [db rest p]. cbn [bi_rest bi_prefix]. revert db.
  induction rest as [|[k v] rest IH]; intros db [|n] st Hn Hx Hf; cbn in Hn; try lia; [done|].
  cbn [iterLoop visited]. unfold Valid, ValidForPrefix. cbn [bi_rest bi_prefix]. rewrite app_nil_r.
  destruct (HasPrefix p k) eqn:Hp; cbn [negb orb]; [|done].
  apply HasPrefix_spec in Hp as [c ->]. unfold Item. cbn [bi_rest bi_prefix].
  rewrite (slice_from_app p c). cbn beta iota. rewrite drop_app_length.
  destruct (ExceedEndKey c endKey) eqn:He; [by rewrite Hx|].
  rewrite Hf by done. cbn [foldl fst snd]. apply IH; [lia|done|done].
Qed.
Lemma iterFrom_range {E S} (body : S -> list Z -> list Z -> outcome E (S * bool)) (f : S -> list Z -> list Z -> S)
    (db : D) cf startKey endKey st :
  (forall st key v, ExceedEndKey key endKey = true -> body st key v = Ret (st, true)) ->
  (forall st key v, ExceedEndKey key endKey = false -> body st key v = Ret (f st key v, false)) ->
  iterFrom (NewCFIterator cf db) startKey body st
  = Ret (foldl (fun st p => f st p.1 p.2) st (cfRange db cf startKey endKey)).
Proof. intros Hx Hf. apply (iterLoop_visited body f endKey); [apply Nat.lt_succ_diag_r|done|done]. Qed.

Lemma visited_incl p endKey rest key v :
  (key, v) ∈ visited p endKey rest -> (p ++ key, v) ∈ rest /\ ExceedEndKey key endKey = false.
Proof.
  induction rest as [|[k w] rest IH]; cbn [visited]; [by intros ?%elem_of_nil|].
  destruct (HasPrefix p k) eqn:Hp; cbn [negb orb]; [|by intros ?%elem_of_nil].
  apply HasPrefix_spec in Hp as [c ->]. rewrite drop_app_length.
  destruct (ExceedEndKey c endKey) eqn:He; [by intros ?%elem_of_nil|].
  rewrite !elem_of_cons. intros [[= -> ->]|Hin]; [by split; [left|]|].
  destruct (IH Hin) as [Hr Hk]. split; [by right|done].
Qed.
Lemma ExceedEndKey_le a b endKey : key_lt b a = false -> ExceedEndKey b endKey = false -> ExceedEndKey a endKey = false.
Proof.
  unfold ExceedEndKey. destruct (len endKey =? 0); [done|]. rewrite !Compare_ge, !negb_false_iff.
  intros Hba Hb. by eapply key_le_lt_trans.
Qed.
Lemma visited_complete p startKey endKey rest key v :
  StronglySorted (fun a b => key_lt a.1 b.1 = true) rest ->
  Forall (fun q => key_lt q.1 (p ++ startKey) = false) rest ->
  (p ++ key, v) ∈ rest -> ExceedEndKey key endKey = false -> (key, v) ∈ visited p endKey rest.
Proof.
  intros Hs Hge. induction Hs as [|[k w] rest Hs IH Hk]; [by intros ?%elem_of_nil|].
  apply list.Forall_cons in Hge as [Hg Hge]. cbn [visited fst] in *. intros Hin He.
  assert (Hle : k = p ++ key \/ key_lt k (p ++ key) = true).
  { apply elem_of_cons in Hin as [[= <- <-]|Hin]; [by left|right].
    rewrite list.Forall_forall in Hk. exact (Hk _ Hin). }
  assert (Hc : exists c, k = p ++ c /\ key_lt key c = false).
  { destruct Hle as [->|Hlt]; [exists key; split; [done|apply key_lt_irrefl]|].
    destruct (prefix_between _ _ _ _ Hg Hlt) as [c ->]. exists c. split; [done|].
    rewrite key_lt_prefix in Hlt. by apply key_lt_asym. }
  destruct Hc as (c & -> & Hkc). rewrite (proj2 (HasPrefix_spec p (p ++ c))) by (by exists c).
  cbn [negb orb]. rewrite drop_app_length, (ExceedEndKey_le c key) by done.
  apply elem_of_cons in Hin as [Heq|Hin].
  - injection Heq as Heq ->. apply app_inv_head in Heq as ->. by left.
  - right. by apply IH.
Qed.

(** A loop visits exactly the keys of the column family in the range, in order. *)
Lemma cfRange_elem (db : D) cf startKey endKey key v :
  (key, v) ∈ cfRange db cf startKey endKey
  <-> db_get db (wb.KeyWithCF cf key) = Some v /\ key_lt key startKey = false /\ ExceedEndKey key endKey = false.
Proof.
  unfold cfRange. rewrite KeyWithCF_eq. split.
  - intros [Hin He]%visited_incl. apply db_from_elem in Hin as [Hg Hge]. cbn [fst snd] in *.
    rewrite key_lt_prefix in Hge. done.
  - intros (Hg & Hge & He). apply (visited_complete _ startKey); [apply db_from_sorted| |by apply db_from_elem; cbn [fst snd]; rewrite key_lt_prefix|done].
    apply list.Forall_forall. intros q Hq. by apply db_from_elem in Hq as [_ ?].
Qed.
Lemma cfRange_sorted (db : D) cf startKey endKey :
  StronglySorted (fun a b => key_lt a.1 b.1 = true) (cfRange db cf startKey endKey).
Proof.
  unfold cfRange. pose proof (db_from_sorted db ((cf ++ [95]) ++ startKey)) as Hs. revert Hs.
  generalize (db_from db ((cf ++ [95]) ++ startKey)). intros rest Hs.
  induction Hs as [|[k w] rest Hs IH Hk]; [constructor|]. cbn [visited].
  destruct (HasPrefix (cf ++ [95]) k) eqn:Hp; cbn [negb orb]; [|constructor].
  apply HasPrefix_spec in Hp as [c ->]. rewrite drop_app_length.
  destruct (ExceedEndKey c endKey); [constructor|]. constructor; [exact IH|].
  apply list.Forall_forall. intros [key v] [Hin _]%visited_incl. rewrite list.Forall_forall in Hk.
  specialize (Hk _ Hin). cbn [fst] in *. by rewrite key_lt_prefix in Hk.
Qed.
End Visited.

(** ** [DeleteRange] *)
(** The keys of the data in a range of user keys. *)
Definition in_data (startKey endKey k : list Z) : bool :=
  existsb (fun cf => HasPrefix (cf ++ [95]) k
                     && (let key := drop (length (cf ++ [95])) k in
                         negb (key_lt key startKey) && negb (ExceedEndKey key endKey))) CFs.
Lemma in_data_spec startKey endKey k :
  in_data startKey endKey k = true <-> exists cf key, cf ∈ CFs /\ k = wb.KeyWithCF cf key
    /\ key_lt key startKey = false /\ ExceedEndKey key endKey = false.
Proof.
  unfold in_data. rewrite existsb_exists. split.
  - intros (cf & Hin & [(c & ->)%HasPrefix_spec Hr]%andb_prop). apply list_elem_of_In in Hin.
    rewrite drop_app_length in Hr. apply andb_prop in Hr as [Hs%negb_true_iff He%negb_true_iff].
    exists cf, c. by rewrite KeyWithCF_eq.
  - intros (cf & key & Hin & -> & Hs & He). exists cf. rewrite KeyWithCF_eq. split; [by apply list_elem_of_In|].
    rewrite (proj2 (HasPrefix_spec _ _)) by (by exists key). by rewrite drop_app_length, Hs, He.
Qed.

Section DeleteRange.
Context {D : Type} `{BadgerLaws D}.

Lemma deleteRangeCF_entries {E} (db : D) b cf startKey endKey :
  exists b', deleteRangeCF (E:=E) db b cf startKey endKey = Ret b'
    /\ wb_entries b' = wb_entries b ++ map (fun p => (wb.KeyWithCF cf p.1, [])) (cfRange db cf startKey endKey).
Proof.
  unfold deleteRangeCF.
  rewrite (iterFrom_range _ (fun b key _ => wb.DeleteCF b cf key) db cf startKey endKey); [|by intros ??? ->..].
  eexists. split; [reflexivity|]. generalize (cfRange db cf startKey endKey). intros l. revert b.
  induction l as [|p l IH]; intros b; cbn; [by rewrite app_nil_r|]. rewrite IH. cbn. by rewrite <- app_assoc.
Qed.
Lemma after_deletes k v (es : list (list Z * list Z)) :
  Forall (fun e => e.2 = []) es -> foldl (after_entry k) v es = if bool_decide (k ∈ es.*1) then None else v.
Proof.
  intros Hes. revert v. induction Hes as [|[k' w] es Hw Hes IH]; intros v; cbn [foldl]; [done|].
  cbn [fst snd] in *. rewrite Hw, IH. unfold after_entry, after_op, wb.op_of. cbn [fst snd len length Z.of_nat Z.eqb fmap list_fmap].
  repeat case_bool_decide; try done; set_solver.
Qed.

(** Deleting a range deletes the data with keys in the range, in every column family, and
    nothing else: in particular none of the keys of the raftstore. *)
Lemma DeleteRange_exact {E} (db : D) startKey endKey :
  exists db', DeleteRange (E:=E) db startKey endKey = Ret db'
    /\ forall k, db_get db' k = if in_data startKey endKey k then None else db_get db k.
Proof.
  unfold DeleteRange.
  assert (Hf : forall cfs b, exists b', foldM (fun b cf => deleteRangeCF (E:=E) db b cf startKey endKey) b cfs = Ret b'
    /\ wb_entries b' = wb_entries b
         ++ (cfs ≫= fun cf => map (fun p => (wb.KeyWithCF cf p.1, [])) (cfRange db cf startKey endKey))).
  { induction cfs as [|cf cfs IH]; intros b; cbn [foldM]; [exists b; by rewrite app_nil_r|].
    destruct (deleteRangeCF_entries (E:=E) db b cf startKey endKey) as (b1 & -> & Hb1). cbn beta iota.
    destruct (IH b1) as (b2 & -> & Hb2). exists b2. split; [done|]. rewrite Hb2, Hb1. cbn. by rewrite <- app_assoc. }
  destruct (Hf CFs new_WriteBatch) as (b & -> & Hb). eexists. split; [reflexivity|]. intros k.
  cbn [wb_entries new_WriteBatch app] in Hb. rewrite WriteToDB_get, after_deletes.
  2: { rewrite Hb. apply list.Forall_bind, list.Forall_true. intros cf. by apply list.Forall_fmap, list.Forall_true. }
  rewrite Hb. case_bool_decide as Hin.
  - apply list_elem_of_fmap in Hin as ([k' w] & -> & Hin). apply list_elem_of_bind in Hin as (cf & Hin & Hcf).
    apply list_elem_of_fmap in Hin as ([key v] & [= -> ->] & Hin).
    apply cfRange_elem in Hin as (_ & Hs & He). cbn [fst].
    rewrite (proj2 (in_data_spec _ _ _)); [done|]. by exists cf, key.
  - destruct (in_data startKey endKey k) eqn:Hd; [|done].
    apply in_data_spec in Hd as (cf & key & Hcf & -> & Hs & He).
    destruct (db_get db (wb.KeyWithCF cf key)) as [v|] eqn:Hg; [|done]. destruct Hin.
    apply list_elem_of_fmap. exists (wb.KeyWithCF cf key, []). split; [done|].
    apply list_elem_of_bind. exists cf. split; [|done].
    apply list_elem_of_fmap. exists (key, v). split; [done|]. by apply cfRange_elem.
Qed.
End DeleteRange.
