(* ===== verification/SchedStorage.v ===== *)
(** * SchedStorage: what the scheduler keeps in etcd

    [scheduler/server/core/storage.go] over the interface of [scheduler/server/kv/kv.go].
    Keys and values are byte strings.  The encodings of the cluster and of a store are
    parameters, as is the text of a float: a store's weights are read and, as the model of a
    store has none, dropped.  [LoadStores] reads the stores in pages; the theorem at the end says that it
    stops and returns every store once. *)

From stdpp Require Import base option list sorting strings gmap tactics.
From S2P Require Import Prelude.
From S2P Require Import Metapb.
From S2P Require Import Store.
From S2P Require Import Engine.
From S2P Require Import EngineIter.

(** ** The interface *)
(** [Load] of a key that is not there gives the empty string. *)
Class KVBase (K : Type) := {
  kb_get : K -> list Z -> option (list Z);
  kb_Save : K -> list Z -> list Z -> K;
  kb_Remove : K -> list Z -> K;
  (** the pairs from a key on and before another, in order *)
  kb_range : K -> list Z -> list Z -> list (list Z * list Z);
}.
Class KVBaseLaws (K : Type) `{KVBase K} : Prop := {
  kb_get_save : forall k key v key', kb_get (kb_Save k key v) key' = if decide (key' = key) then Some v else kb_get k key';
  kb_get_remove : forall k key key', kb_get (kb_Remove k key) key' = if decide (key' = key) then None else kb_get k key';
  kb_range_sorted : forall k a b, StronglySorted (fun p q => key_lt p.1 q.1 = true) (kb_range k a b);
  kb_range_elem : forall k a b p, p ∈ kb_range k a b <-> kb_get k p.1 = Some p.2 /\ key_lt p.1 a = false /\ key_lt p.1 b = true;
}.
Definition kb_Load {K} `{KVBase K} (k : K) (key : list Z) : list Z := default [] (kb_get k key).
Definition kb_LoadRange {K} `{KVBase K} (k : K) (key endKey : list Z) (limit : Z) : list (list Z * list Z) :=
  take (Z.to_nat limit) (kb_range k key endKey).

Lemma filter_sorted {A} (R : A -> A -> Prop) (P : A -> Prop) `{forall x, Decision (P x)} l :
  StronglySorted R l -> StronglySorted R (filter P l).
Proof.
  induction 1 as [|x l Hs IH Hx]; [constructor|]. rewrite filter_cons. case_decide; [|done].
  constructor; [done|]. rewrite list.Forall_forall in Hx |- *. intros y [_ Hy]%list_elem_of_filter. auto.
Qed.

(** A map is an instance. *)
#[export] Instance map_kv : KVBase (gmap (list Z) (list Z)) := {|
  kb_get k key := k !! key;
  kb_Save k key v := <[key := v]> k;
  kb_Remove k key := delete key k;
  kb_range k a b := filter (fun p => key_lt p.1 b = true) (db_from k a) |}.
#[export] Instance map_kv_laws : KVBaseLaws (gmap (list Z) (list Z)).
Proof.
  split.
  - intros k key v key'. cbn. destruct (decide (key' = key)) as [->|Hne]; [apply lookup_insert_eq|by apply lookup_insert_ne].
  - intros k key key'. cbn. destruct (decide (key' = key)) as [->|Hne]; [apply lookup_delete_eq|by apply lookup_delete_ne].
  - intros k a b. cbn [kb_range map_kv]. apply filter_sorted, db_from_sorted.
  - intros k a b p. cbn [kb_range kb_get map_kv]. rewrite list_elem_of_filter, db_from_elem. cbn [db_get map_badger]. tauto.
Qed.

(** ** Paths *)
(** [%020d]. *)
Fixpoint padded (n : nat) (z : Z) : list Z :=
  match n with O => [] | S n => padded n (z / 10) ++ [48 + z mod 10] end.
Definition clusterPath : list Z := bytes_of "raft".
Definition schedulePath : list Z := bytes_of "schedule".
Definition gcPath : list Z := bytes_of "gc".
Definition customScheduleConfigPath : list Z := bytes_of "scheduler_config".
(** [path.Join] of parts without slashes that are not empty. *)
Definition Join (a b : list Z) : list Z := a ++ [47] ++ b.
Definition storePath (storeID : Z) : list Z := Join (Join clusterPath (bytes_of "s")) (padded 20 storeID).
Definition regionPath (regionID : Z) : list Z := Join (Join clusterPath (bytes_of "r")) (padded 20 regionID).
Definition ClusterStatePath (option : list Z) : list Z := Join (Join clusterPath (bytes_of "status")) option.
Definition storeLeaderWeightPath (storeID : Z) : list Z :=
  Join (Join (Join schedulePath (bytes_of "store_weight")) (padded 20 storeID)) (bytes_of "leader").
Definition storeRegionWeightPath (storeID : Z) : list Z :=
  Join (Join (Join schedulePath (bytes_of "store_weight")) (padded 20 storeID)) (bytes_of "region").

(** ** Numbers in base 16 *)
Definition hexDigit (d : Z) : Z := if d <? 10 then 48 + d else 87 + d.
Definition hexValue (c : Z) : option Z :=
  if (48 <=? c) && (c <=? 57) then Some (c - 48) else
  if (97 <=? c) && (c <=? 102) then Some (c - 87) else
  if (65 <=? c) && (c <=? 70) then Some (c - 55) else None.
Fixpoint hexDigits (n : nat) (z : Z) (acc : list Z) : list Z :=
  match n with
  | O => acc
  | S n => let acc := hexDigit (z mod 16) :: acc in if z / 16 =? 0 then acc else hexDigits n (z / 16) acc
  end.
(** [strconv.FormatUint(z, 16)] and [strconv.ParseUint(s, 16, 64)]. *)
Definition FormatHex (z : Z) : list Z := hexDigits 16 z [].
Fixpoint parseHex (s : list Z) (acc : Z) : option Z :=
  match s with
  | [] => Some acc
  | c :: s => match hexValue c with
              | Some d => if acc * 16 + d <? two64 then parseHex s (acc * 16 + d) else None
              | None => None
              end
  end.
Definition ParseHex (s : list Z) : option Z := if len s =? 0 then None else parseHex s 0.

(** ** The storage *)
Inductive storage_error := ErrUnmarshal | ErrParse.
(** [metapb.Cluster]. *)
Record ClusterMeta := mkClusterMeta { cm_Id : Z; cm_MaxPeerCount : Z }.
Definition maxKVRangeLimit : Z := 10000.
Definition minKVRangeLimit : Z := 100.
Section Storage.
Context {K : Type} `{KVBase K}.
Context (storeBytes : Store -> list Z) (storeOf : list Z -> option Store).
Context (metaBytes : ClusterMeta -> list Z) (metaOf : list Z -> option ClusterMeta).
Context {F : Type} (FormatFloat : F -> list Z) (ParseFloat : list Z -> option F) (one : F).
Implicit Types (k : K).
Abbreviation result A := (outcome storage_error A).

(** The message, when there is one. *)
Definition loadProto {A} (parse : list Z -> option A) k (key : list Z) : result (option A) :=
  match kb_Load k key with
  | [] => Ret None
  | value => match parse value with Some msg => Ret (Some msg) | None => Err ErrUnmarshal end
  end.
Definition LoadMeta k : result (option ClusterMeta) := loadProto metaOf k clusterPath.
Definition SaveMeta k (meta : ClusterMeta) : K := kb_Save k clusterPath (metaBytes meta).
Definition LoadStore k (storeID : Z) : result (option Store) := loadProto storeOf k (storePath storeID).
Definition SaveStore k (store : Store) : K := kb_Save k (storePath (st_Id store)) (storeBytes store).
Definition DeleteStore k (store : Store) : K := kb_Remove k (storePath (st_Id store)).
Definition SaveStoreWeight k (storeID : Z) (leader region : F) : K :=
  kb_Save (kb_Save k (storeLeaderWeightPath storeID) (FormatFloat leader))
    (storeRegionWeightPath storeID) (FormatFloat region).
Definition loadFloatWithDefaultValue k (path : list Z) (def : F) : result F :=
  match kb_Load k path with
  | [] => Ret def
  | res => match ParseFloat res with Some val => Ret val | None => Err ErrParse end
  end.

(** One store of a page: the id after it, and what [f] makes of it. *)
Definition loadOne {A} (f : A -> StoreInfo -> A) k (st : Z * A) (str : list Z) : result (Z * A) :=
  match storeOf str with
  | None => Err ErrUnmarshal
  | Some store =>
    let! _ := loadFloatWithDefaultValue k (storeLeaderWeightPath (st_Id store)) one in
    let! _ := loadFloatWithDefaultValue k (storeRegionWeightPath (st_Id store)) one in
    Ret (st_Id store ⊞ 1, f (snd st) (store.NewStoreInfo store []))
  end.
Fixpoint loadPages {A} (fuel : nat) (f : A -> StoreInfo -> A) k (nextID : Z) (a : A) : result A :=
  match fuel with
  | O => OutOfFuel
  | S fuel =>
    let res := kb_LoadRange k (storePath nextID) (storePath (two64 - 1)) minKVRangeLimit in
    let! (nextID, a) := foldM (loadOne f k) (nextID, a) (map snd res) in
    if len res <? minKVRangeLimit then Ret a else loadPages fuel f k nextID a
  end.
Definition LoadStores {A} (f : A -> StoreInfo -> A) k (a : A) : result A :=
  loadPages (S (length (kb_range k (storePath 0) (storePath (two64 - 1))))) f k 0 a.

Definition SaveGCSafePoint k (safePoint : Z) : K := kb_Save k (Join gcPath (bytes_of "safe_point")) (FormatHex safePoint).
Definition LoadGCSafePoint k : result Z :=
  match kb_Load k (Join gcPath (bytes_of "safe_point")) with
  | [] => Ret 0
  | value => match ParseHex value with Some z => Ret z | None => Err ErrParse end
  end.

Definition SaveScheduleConfig k (scheduleName data : list Z) : K := kb_Save k (Join customScheduleConfigPath scheduleName) data.
Definition RemoveScheduleConfig k (scheduleName : list Z) : K := kb_Remove k (Join customScheduleConfigPath scheduleName).
Definition LoadScheduleConfig k (scheduleName : list Z) : list Z := kb_Load k (Join customScheduleConfigPath scheduleName).
Definition TrimPrefix (s prefix : list Z) : list Z := if bool_decide (prefix `prefix_of` s) then drop (length prefix) s else s.
(** [rangeEnd] is [clientv3.GetPrefixRangeEnd]. *)
Definition LoadAllScheduleConfig (rangeEnd : list Z -> list Z) k : list (list Z) * list (list Z) :=
  let res := kb_LoadRange k customScheduleConfigPath (rangeEnd customScheduleConfigPath) 1000 in
  (map (fun p => TrimPrefix p.1 (customScheduleConfigPath ++ [47])) res, map snd res).
End Storage.

(** ** The order of paths *)
Lemma padded_length n : forall z, length (padded n z) = n.
Proof. induction n as [|n IH]; intros z; cbn; [done|]. rewrite length_app, IH. cbn. lia. Qed.
Lemma digits_compare n : forall a b, 0 <= a < 10 ^ Z.of_nat n -> 0 <= b < 10 ^ Z.of_nat n ->
  bytes_compare (padded n a) (padded n b) = (a ?= b).
Proof.
  induction n as [|n IH]; intros a b Ha Hb; cbn [padded].
  { cbn in *. symmetry. apply Z.compare_eq_iff. lia. }
  rewrite Nat2Z.inj_succ, Z.pow_succ_r in Ha, Hb by lia.
  rewrite bytes_compare_app, IH by (rewrite ?padded_length; auto; Z.to_euclidean_division_equations; lia).
  pose proof (Z.div_mod a 10 ltac:(lia)). pose proof (Z.div_mod b 10 ltac:(lia)).
  pose proof (Z.mod_pos_bound a 10 ltac:(lia)). pose proof (Z.mod_pos_bound b 10 ltac:(lia)).
  destruct (Z.compare_spec (a / 10) (b / 10)) as [He|Hl|Hl]; cbn [bytes_compare].
  - destruct (Z.compare_spec (48 + a mod 10) (48 + b mod 10)); symmetry;
      [apply Z.compare_eq_iff|apply Z.compare_lt_iff|apply Z.compare_gt_iff]; lia.
  - symmetry. apply Z.compare_lt_iff. lia.
  - symmetry. apply Z.compare_gt_iff. lia.
Qed.
Lemma path_compare p a b : is_u64 a -> is_u64 b -> key_lt (Join p (padded 20 a)) (Join p (padded 20 b)) = (a <? b).
Proof.
  intros Ha Hb. unfold Join. rewrite !app_assoc, key_lt_prefix. unfold key_lt, Compare. unfold is_u64, two64 in *.
  rewrite digits_compare by (change (10 ^ Z.of_nat 20) with 100000000000000000000; lia).
  destruct (Z.compare_spec a b), (Z.ltb_spec a b); lia || done.
Qed.
Lemma storePath_lt a b : is_u64 a -> is_u64 b -> key_lt (storePath a) (storePath b) = (a <? b).
Proof. apply path_compare. Qed.
Lemma storePath_inj a b : is_u64 a -> is_u64 b -> storePath a = storePath b -> a = b.
Proof.
  intros Ha Hb He. pose proof (storePath_lt a b Ha Hb) as H1. pose proof (storePath_lt b a Hb Ha) as H2.
  rewrite He, key_lt_irrefl in H1, H2. lia.
Qed.

(** ** Ranges *)
Section Ranges.
Context {K : Type} `{KVBaseLaws K}.
Abbreviation before := (fun p q : list Z * list Z => key_lt p.1 q.1 = true).
#[local] Instance before_antisym : AntiSymm eq before.
Proof. intros p q H1 H2. by rewrite (key_lt_asym _ _ H1) in H2. Qed.

Lemma sorted_by_elements (l l' : list (list Z * list Z)) :
  StronglySorted before l -> StronglySorted before l' -> (forall p, p ∈ l <-> p ∈ l') -> l = l'.
Proof.
  intros Hl Hl' He. eapply (StronglySorted_unique before); [done..|].
  assert (Hnd : forall l, StronglySorted before l -> base.NoDup l).
  { intros m Hm. induction Hm as [|p m Hm IH Hp]; constructor; [|done]. intros Hin.
    rewrite list.Forall_forall in Hp. specialize (Hp p Hin). by rewrite key_lt_irrefl in Hp. }
  apply NoDup_Permutation; auto.
Qed.
Lemma StronglySorted_split (l1 l2 : list (list Z * list Z)) :
  StronglySorted before (l1 ++ l2) -> StronglySorted before l2 /\ forall p q, p ∈ l1 -> q ∈ l2 -> before p q.
Proof.
  induction l1 as [|x l1 IH]; cbn; intros Hs; [split; [done|]; intros p q []%not_elem_of_nil|].
  apply StronglySorted_inv in Hs as [Hs Hx]. destruct (IH Hs) as [H2 H12]. split; [done|].
  intros p q [->|Hp]%elem_of_cons Hq; [|by apply H12]. rewrite list.Forall_forall in Hx. apply Hx, elem_of_app. by right.
Qed.
(** The range from just after one of its elements. *)
Lemma range_after k a b l1 p l2 a' :
  kb_range k a b = l1 ++ p :: l2 -> key_lt a' a = false ->
  (forall q, q ∈ kb_range k a b -> key_lt q.1 a' = negb (key_lt p.1 q.1)) ->
  kb_range k a' b = l2.
Proof.
  intros Hl Haa Ha'. pose proof (kb_range_sorted k a b) as Hs. rewrite Hl in Hs.
  destruct (StronglySorted_split l1 (p :: l2) Hs) as [H2 H12]. apply StronglySorted_inv in H2 as [H2 Hp]. rewrite list.Forall_forall in Hp.
  apply sorted_by_elements; [apply kb_range_sorted|done|]. intros q. split.
  - intros (Hg & Hge & Hb)%kb_range_elem.
    assert (Hin : q ∈ kb_range k a b) by (apply kb_range_elem; split_and!; [done|by eapply key_le_trans|done]).
    rewrite (Ha' q Hin) in Hge. apply negb_false_iff in Hge. rewrite Hl in Hin.
    apply elem_of_app in Hin as [Hin|[->|Hin]%elem_of_cons]; [|by rewrite key_lt_irrefl in Hge|done].
    specialize (H12 q p Hin (list_elem_of_here _ _)). by rewrite (key_lt_asym _ _ H12) in Hge.
  - intros Hin. assert (Hq : q ∈ kb_range k a b) by (rewrite Hl, elem_of_app, elem_of_cons; auto).
    pose proof (Ha' q Hq) as Hlt. rewrite (Hp q Hin) in Hlt. apply kb_range_elem in Hq as (? & _ & ?).
    by apply kb_range_elem.
Qed.
End Ranges.

(** ** Loading the stores *)
Section Load.
Context {K : Type} `{KVBaseLaws K}.
Context (storeOf : list Z -> option Store) {F : Type} (ParseFloat : list Z -> option F) (one : F).
Abbreviation lastPath := (storePath (two64 - 1)).

(** A pair holds a store under its path. *)
Definition holds_store (p : list Z * list Z) (st : Store) : Prop :=
  p.1 = storePath (st_Id st) /\ is_u64 (st_Id st) /\ storeOf p.2 = Some st.
(** What is stored between the paths of stores are stores. *)
Definition stores_saved (k : K) : Prop := forall p,
  kb_get k p.1 = Some p.2 -> key_lt p.1 (storePath 0) = false -> key_lt p.1 lastPath = true -> exists st, holds_store p st.
Definition weights_saved (k : K) : Prop := forall id,
  (exists w, loadFloatWithDefaultValue ParseFloat k (storeLeaderWeightPath id) one = Ret w) /\
  (exists w, loadFloatWithDefaultValue ParseFloat k (storeRegionWeightPath id) one = Ret w).
Definition stores_from (k : K) (id : Z) : list Store := omap storeOf (map snd (kb_range k (storePath id) lastPath)).
Definition all_stores (k : K) : list Store := stores_from k 0.

Lemma omap_holds l : (forall p, p ∈ l -> exists st, holds_store p st) -> Forall2 holds_store l (omap storeOf (map snd l)).
Proof.
  induction l as [|p l IH]; intros Hl; [constructor|]. cbn.
  destruct (Hl p (list_elem_of_here _ _)) as (st & Hp). pose proof Hp as (_ & _ & Ho). rewrite Ho.
  constructor; [done|]. apply IH. intros q Hq. apply Hl. by apply list_elem_of_further.
Qed.
Lemma holds_omap l sts : Forall2 holds_store l sts -> omap storeOf (map snd l) = sts.
Proof. induction 1 as [|p st l sts (_ & _ & Ho) Hl IH]; [done|]. cbn. by rewrite Ho, <- IH. Qed.
Lemma range_holds k id : stores_saved k -> is_u64 id -> Forall2 holds_store (kb_range k (storePath id) lastPath) (stores_from k id).
Proof.
  intros Hk Hid. apply omap_holds. intros p (Hg & Hge & Hlt)%kb_range_elem. apply Hk; [done| |done].
  eapply key_le_trans; [|exact Hge]. rewrite storePath_lt by (unfold is_u64, two64 in *; lia). unfold is_u64 in *; lia.
Qed.

Lemma loadOne_fold {A} (f : A -> StoreInfo -> A) k l sts :
  weights_saved k -> Forall2 holds_store l sts -> forall n a,
  foldM (loadOne storeOf ParseFloat one f k) (n, a) (map snd l) =
    Ret (foldl (fun _ st => st_Id st ⊞ 1) n sts, foldl f a (map (fun st => store.NewStoreInfo st []) sts)).
Proof.
  intros Hw. induction 1 as [|p st l sts (_ & _ & Ho) Hl IH]; intros n a; [done|]. cbn [map foldM foldl].
  unfold loadOne at 1. rewrite Ho. destruct (Hw (st_Id st)) as [[w1 ->] [w2 ->]]. apply IH.
Qed.

(** The range after a store of the range. *)
Lemma next_range k id i p st :
  stores_saved k -> is_u64 id -> kb_range k (storePath id) lastPath !! i = Some p -> holds_store p st ->
  is_u64 (st_Id st ⊞ 1) /\ kb_range k (storePath (st_Id st ⊞ 1)) lastPath = drop (S i) (kb_range k (storePath id) lastPath).
Proof.
  intros Hk Hid Hi (Hp & Hu & _). set (l := kb_range k (storePath id) lastPath) in *.
  assert (Hmax : is_u64 (two64 - 1)) by (unfold is_u64, two64; lia).
  assert (Hin : p ∈ l) by (by eapply list_elem_of_lookup_2).
  pose proof Hin as (_ & Hge & Hlt)%kb_range_elem. rewrite Hp, storePath_lt in Hge, Hlt by done.
  assert (Hnext : st_Id st ⊞ 1 = st_Id st + 1) by (apply u64_add_small; unfold is_u64 in *; lia).
  assert (Hnu : is_u64 (st_Id st + 1)) by (unfold is_u64 in *; lia). rewrite Hnext. split; [done|].
  eapply (range_after k (storePath id) lastPath (take i l) p).
  - symmetry. by apply take_drop_middle.
  - rewrite storePath_lt by done. unfold is_u64 in *; lia.
  - intros q Hq. destruct (proj1 (list_elem_of_lookup _ _) Hq) as (j & Hj).
    destruct (Forall2_lookup_l _ _ _ _ _ (range_holds k id Hk Hid) Hj) as (st' & _ & Hq' & Hu' & _).
    rewrite Hp, Hq', !storePath_lt by done. destruct (Z.ltb_spec (st_Id st') (st_Id st + 1)), (Z.ltb_spec (st_Id st) (st_Id st')); lia || done.
Qed.
Lemma loadPages_ok {A} (f : A -> StoreInfo -> A) k :
  stores_saved k -> weights_saved k -> forall fuel id a, is_u64 id ->
  (length (kb_range k (storePath id) lastPath) < fuel)%nat ->
  loadPages storeOf ParseFloat one fuel f k id a =
    Ret (foldl f a (map (fun st => store.NewStoreInfo st []) (stores_from k id))).
Proof.
  intros Hk Hw. induction fuel as [|fuel IH]; intros id a Hid Hf; [lia|]. cbn [loadPages].
  pose proof (range_holds k id Hk Hid) as Hh. unfold kb_LoadRange.
  change (Z.to_nat minKVRangeLimit) with 100%nat. set (l := kb_range k (storePath id) lastPath) in *.
  rewrite (loadOne_fold f k (take 100 l) (take 100 (stores_from k id)) Hw) by (by apply Forall2_take).
  unfold len. rewrite length_take.
  destruct (Z.ltb_spec (Z.of_nat (100 `min` length l)) minKVRangeLimit) as [Hs|Hs]; unfold minKVRangeLimit in Hs.
  { rewrite take_ge; [done|]. rewrite <- (list.Forall2_length _ _ _ Hh). lia. }
  destruct (lookup_lt_is_Some_2 l 99 ltac:(lia)) as (p & Hp).
  destruct (Forall2_lookup_l _ _ _ _ _ Hh Hp) as (st & Hst & Hps).
  destruct (next_range k id 99 p st Hk Hid Hp Hps) as [Hu Hnext]. fold l in Hnext.
  rewrite (take_S_r _ 99 st Hst), foldl_snoc, IH; [|done|rewrite Hnext, length_drop; lia].
  rewrite <- foldl_app, <- map_app. do 3 f_equal. unfold stores_from at 2. rewrite Hnext.
  rewrite (holds_omap _ (drop 100 (stores_from k id))) by (by apply Forall2_drop).
  rewrite <- (take_S_r _ 99 st Hst). apply take_drop.
Qed.
Lemma holds_sorted l sts :
  StronglySorted (fun p q => key_lt p.1 q.1 = true) l -> Forall2 holds_store l sts ->
  StronglySorted (fun a b => st_Id a < st_Id b) sts.
Proof.
  intros Hs Hf. revert Hs. induction Hf as [|p st l sts (Hp & Hu & _) Hl IH]; intros Hs; [constructor|].
  apply StronglySorted_inv in Hs as [Hs Hlt]. constructor; [by apply IH|].
  rewrite list.Forall_forall in Hlt. apply list.Forall_forall. intros x (i & Hi)%list_elem_of_lookup.
  destruct (Forall2_lookup_r _ _ _ _ _ Hl Hi) as (q & Hq & Hq1 & Hu' & _).
  specialize (Hlt q (list_elem_of_lookup_2 _ _ _ Hq)). rewrite Hp, Hq1, storePath_lt in Hlt by done. lia.
Qed.
Lemma all_stores_sorted k : stores_saved k -> StronglySorted (fun a b => st_Id a < st_Id b) (all_stores k).
Proof.
  intros Hk. eapply holds_sorted; [apply kb_range_sorted|apply range_holds; [done|unfold is_u64, two64; lia]].
Qed.
Lemma all_stores_elem k st :
  stores_saved k ->
  st ∈ all_stores k <-> is_u64 (st_Id st) /\ st_Id st < two64 - 1 /\
    exists v, kb_get k (storePath (st_Id st)) = Some v /\ storeOf v = Some st.
Proof.
  intros Hk. pose proof (range_holds k 0 Hk ltac:(unfold is_u64, two64; lia)) as Hr.
  assert (Hm : is_u64 (two64 - 1)) by (unfold is_u64, two64; lia). split.
  - intros (i & Hi)%list_elem_of_lookup. destruct (Forall2_lookup_r _ _ _ _ _ Hr Hi) as (p & Hp & Hp1 & Hu & Ho).
    apply list_elem_of_lookup_2, kb_range_elem in Hp as (Hg & _ & Hlt). rewrite Hp1, storePath_lt in Hlt by done.
    split_and!; [done|lia|]. exists p.2. by rewrite <- Hp1.
  - intros (Hu & Hlt & v & Hg & Ho). apply list_elem_of_omap. exists v. split; [|done].
    apply (list_elem_of_fmap_2 snd _ (storePath (st_Id st), v)), kb_range_elem. cbn [fst snd].
    rewrite !storePath_lt by (done || (unfold is_u64, two64; lia)). unfold is_u64 in *. split_and!; [done|lia|lia].
Qed.
Lemma LoadStores_eq {A} (f : A -> StoreInfo -> A) k a :
  stores_saved k -> weights_saved k ->
  LoadStores storeOf ParseFloat one f k a = Ret (foldl f a (map (fun st => store.NewStoreInfo st []) (all_stores k))).
Proof. intros Hk Hw. apply loadPages_ok; [done..|unfold is_u64, two64; lia|lia]. Qed.

(** ** What keeps it so *)
Lemma outside_saved k k' key :
  stores_saved k -> (forall key', key' <> key -> kb_get k' key' = kb_get k key') ->
  key_lt key (storePath 0) = true \/ key_lt key lastPath = false -> stores_saved k'.
Proof.
  intros Hk He Ho p Hg H1 H2. apply Hk; [|done..]. rewrite <- He; [done|]. intros Hpk. rewrite <- Hpk in Ho. destruct Ho; congruence.
Qed.
Lemma SaveStore_saved storeBytes k st :
  stores_saved k -> is_u64 (st_Id st) -> storeOf (storeBytes st) = Some st -> stores_saved (SaveStore storeBytes k st).
Proof.
  intros Hk Hu Hr p. unfold SaveStore. rewrite kb_get_save. case_decide as Hp; [|by apply Hk].
  intros [= Hv] _ _. exists st. unfold holds_store. by rewrite <- Hv.
Qed.
Lemma DeleteStore_saved k st : stores_saved k -> stores_saved (DeleteStore k st).
Proof. intros Hk p. unfold DeleteStore. rewrite kb_get_remove. case_decide; [done|apply Hk]. Qed.
End Load.

(** ** Base 16 *)
Lemma hexValue_digit d : 0 <= d < 16 -> hexValue (hexDigit d) = Some d.
Proof.
  intros Hd. unfold hexValue, hexDigit. repeat case_match; f_equal; try lia.
Qed.
Lemma parseHex_digits n : forall z acc, 0 <= z < 16 ^ Z.of_nat n -> z < two64 -> (0 < n)%nat ->
  parseHex (hexDigits n z acc) 0 = parseHex acc z.
Proof.
  induction n as [|n IH]; intros z acc Hz H64 Hn; [lia|]. cbn [hexDigits].
  pose proof (Z.div_mod z 16 ltac:(lia)) as Hdm. pose proof (Z.mod_pos_bound z 16 ltac:(lia)) as Hm.
  rewrite Nat2Z.inj_succ, Z.pow_succ_r in Hz by lia.
  destruct (Z.eqb_spec (z / 16) 0) as [H0|H0].
  - cbn [parseHex]. rewrite hexValue_digit by lia. rewrite (proj2 (Z.ltb_lt _ _)) by lia. f_equal. lia.
  - assert (0 <= z / 16 < 16 ^ Z.of_nat n) by (Z.to_euclidean_division_equations; lia).
    assert (0 < n)%nat. { destruct n; [cbn in *; lia|lia]. }
    rewrite IH by (done || lia). cbn [parseHex]. rewrite hexValue_digit by lia.
    rewrite (proj2 (Z.ltb_lt _ _)) by lia. f_equal. lia.
Qed.
Lemma hexDigits_nonempty n z acc : (0 < n)%nat -> hexDigits n z acc <> [].
Proof.
  revert z acc. induction n as [|n IH]; intros z acc Hn; [lia|]. cbn. case_match; [done|].
  destruct n as [|n]; [done|]. apply IH. lia.
Qed.
Lemma ParseHex_FormatHex z : is_u64 z -> ParseHex (FormatHex z) = Some z.
Proof.
  intros Hz. unfold ParseHex, FormatHex. pose proof (hexDigits_nonempty 16 z [] ltac:(lia)) as Hne.
  destruct (Z.eqb_spec (len (hexDigits 16 z [])) 0) as [H0|_].
  - unfold len in H0. by destruct (hexDigits 16 z []).
  - rewrite parseHex_digits; [done| | |lia]; unfold is_u64, two64 in *; cbn; lia.
Qed.
Lemma gc_roundtrip {K} `{KVBaseLaws K} (k : K) z : is_u64 z -> LoadGCSafePoint (SaveGCSafePoint k z) = Ret z.
Proof.
  intros Hz. unfold LoadGCSafePoint, SaveGCSafePoint, kb_Load. rewrite kb_get_save, decide_True by done. cbn [default id].
  pose proof (hexDigits_nonempty 16 z [] ltac:(lia)) as Hne. pose proof (ParseHex_FormatHex z Hz) as Hp.
  unfold FormatHex in *. destruct (hexDigits 16 z []); [done|]. by rewrite Hp.
Qed.

(** C24. When everything between the paths of the stores is a store under its own path, and
    the weights parse, [LoadStores] ends, whatever the number of pages, and has called its
    function once for every store that [LoadStore] finds, in the order of the ids. *)
Theorem LoadStores_complete {K} `{KVBaseLaws K} (storeOf : list Z -> option Store)
    {F} (ParseFloat : list Z -> option F) (one : F) (k : K) :
  (forall st, storeOf [] = Some st -> st_Id st = 0) ->
  stores_saved storeOf k -> weights_saved ParseFloat one k ->
  exists sts,
    (forall A (f : A -> StoreInfo -> A) a,
       LoadStores storeOf ParseFloat one f k a = Ret (foldl f a (map (fun st => store.NewStoreInfo st []) sts))) /\
    StronglySorted (fun a b => st_Id a < st_Id b) sts /\
    forall st, 0 < st_Id st < two64 - 1 -> st ∈ sts <-> LoadStore storeOf k (st_Id st) = Ret (Some st).
Proof.
  intros Hz Hk Hw. exists (all_stores storeOf k). split; [|split; [by apply all_stores_sorted|]].
  { intros A f a. by apply LoadStores_eq. }
  intros st Hid. rewrite all_stores_elem by done. unfold LoadStore, loadProto, kb_Load. split.
  - intros (_ & _ & v & -> & Ho). cbn. destruct v; [specialize (Hz st Ho); lia|]. by rewrite Ho.
  - destruct (kb_get k (storePath (st_Id st))) as [[|x v]|] eqn:Hg; cbn; [done| |done].
    destruct (storeOf (x :: v)) as [st'|] eqn:Ho; [|done]. intros [= ->].
    split_and!; [unfold is_u64; lia|lia|]. by exists (x :: v).
Qed.

(** The id alone stands for an encoding. *)
Definition sampleBytes (st : Store) : list Z := [st_Id st].
Definition sampleOf (v : list Z) : option Store :=
  match v with [] => Some (mkStore 0 [] StoreState_Up) | id :: _ => Some (mkStore id [] StoreState_Up) end.
(** Three stores, saved in no order. *)
Definition sampleKV : gmap (list Z) (list Z) :=
  foldl (fun k id => SaveStore sampleBytes k (mkStore id [] StoreState_Up)) ∅ [7; 2; 300].
Lemma sampleKV_saved : stores_saved sampleOf sampleKV.
Proof.
  unfold sampleKV. cbn [foldl].
  do 3 (apply SaveStore_saved; [|unfold is_u64, two64; cbn; lia|done]).
  intros p Hg. cbn in Hg. by rewrite lookup_empty in Hg.
Qed.
Lemma LoadStores_complete_witness :
  exists sts, LoadStores sampleOf (fun _ => None) tt (fun l s => l ++ [s]) sampleKV [] =
    Ret (foldl (fun l s => l ++ [s]) [] (map (fun st => store.NewStoreInfo st []) sts)).
Proof.
  destruct (LoadStores_complete sampleOf (fun _ => None) tt sampleKV) as (sts & Hl & _).
  - intros st [= <-]. done.
  - apply sampleKV_saved.
  - intros id. assert (Hn : forall key, 115 = hd 0 key -> loadFloatWithDefaultValue (fun _ => None) sampleKV key tt = Ret tt).
    { intros key Hh. unfold loadFloatWithDefaultValue, kb_Load, sampleKV, SaveStore. cbn [foldl kb_get map_kv kb_Save].
      rewrite !lookup_insert_ne, lookup_empty; [done| | |]; intros <-; by vm_compute in Hh. }
    split; exists tt; by apply Hn.
  - exists sts. apply Hl.
Defined.

(** ** The base of the scheduler's storage over etcd

    [scheduler/server/kv/etcd_kv.go]: [etcdKVBase] keeps its keys below a root path of etcd.  etcd's own keys and
    ranges are an instance of the interface of [SchedStorage], and the instance below shows that what [etcdKVBase]
    makes of them is one again, whatever else etcd holds.  [path.Join] is a concatenation, which it is for the clean
    paths of [storage.go]; a failed request and the log of slow transactions are left out. *)
Record etcdKVBase (C : Type) := mkEtcdKVBase { ek_client : C; ek_rootPath : list Z }.
Arguments mkEtcdKVBase {C}. Arguments ek_client {C}. Arguments ek_rootPath {C}.

Section EtcdKV.
Context {C : Type} {HK : KVBase C} {HL : KVBaseLaws C}.
Implicit Types (kv : etcdKVBase C).
Definition NewEtcdKVBase (client : C) (rootPath : list Z) : etcdKVBase C := mkEtcdKVBase client rootPath.
(** The value of a key, when there is one; [Load] gives the empty string when there is none. *)
Definition etcd_get kv (key : list Z) : option (list Z) := kb_get (ek_client kv) (Join (ek_rootPath kv) key).
Definition trimRoot kv (key : list Z) : list Z := TrimPrefix (TrimPrefix key (ek_rootPath kv)) [47].
(** Without the limit, which is [take] in both. *)
Definition etcd_range kv (key endKey : list Z) : list (list Z * list Z) :=
  map (fun item => (trimRoot kv item.1, item.2))
      (kb_range (ek_client kv) (Join (ek_rootPath kv) key) (Join (ek_rootPath kv) endKey)).
Definition etcd_Save kv (key value : list Z) : etcdKVBase C :=
  mkEtcdKVBase (kb_Save (ek_client kv) (Join (ek_rootPath kv) key) value) (ek_rootPath kv).
Definition etcd_Remove kv (key : list Z) : etcdKVBase C :=
  mkEtcdKVBase (kb_Remove (ek_client kv) (Join (ek_rootPath kv) key)) (ek_rootPath kv).

Lemma TrimPrefix_app p s : TrimPrefix (p ++ s) p = s.
Proof. unfold TrimPrefix. rewrite bool_decide_true by (by exists s). by rewrite drop_app_length. Qed.
Lemma trimRoot_Join kv key : trimRoot kv (Join (ek_rootPath kv) key) = key.
Proof. unfold trimRoot, Join. by rewrite TrimPrefix_app, (TrimPrefix_app [47]). Qed.
Lemma Join_lt p a b : key_lt (Join p a) (Join p b) = key_lt a b.
Proof. unfold Join. by rewrite !key_lt_prefix. Qed.
Lemma Join_inj p a b : Join p a = Join p b <-> a = b.
Proof. unfold Join. split; [by intros ?%(inj _)%(inj _)|by intros ->]. Qed.
Lemma etcd_range_key kv a b item :
  item ∈ kb_range (ek_client kv) (Join (ek_rootPath kv) a) (Join (ek_rootPath kv) b) ->
  item.1 = Join (ek_rootPath kv) (trimRoot kv item.1).
Proof.
  intros (_ & Hge & Hlt)%kb_range_elem. unfold Join in Hge, Hlt. rewrite !app_assoc in Hge, Hlt.
  destruct (prefix_between _ _ _ _ Hge Hlt) as [c Hc]. rewrite <- app_assoc in Hc. fold (Join (ek_rootPath kv) c) in Hc.
  by rewrite Hc, trimRoot_Join.
Qed.

Definition etcd_kv : KVBase (etcdKVBase C) :=
  {| kb_get := etcd_get; kb_Save := etcd_Save; kb_Remove := etcd_Remove; kb_range := etcd_range |}.
Lemma etcd_kv_laws : @KVBaseLaws (etcdKVBase C) etcd_kv.
Proof.
  split.
  - intros kv key v key'. unfold kb_get, kb_Save, etcd_kv, etcd_get, etcd_Save. cbn. rewrite kb_get_save.
    by rewrite (decide_ext _ _ (Some v) _ (Join_inj (ek_rootPath kv) key' key)).
  - intros kv key key'. unfold kb_get, kb_Remove, etcd_kv, etcd_get, etcd_Remove. cbn. rewrite kb_get_remove.
    by rewrite (decide_ext _ _ None _ (Join_inj (ek_rootPath kv) key' key)).
  - intros kv a b. unfold kb_range, etcd_kv, etcd_range.
    pose proof (kb_range_sorted (ek_client kv) (Join (ek_rootPath kv) a) (Join (ek_rootPath kv) b)) as Hs.
    pose proof (etcd_range_key kv a b) as Hk. induction Hs as [|x l Hs IH Hx]; [constructor|]. cbn [map]. constructor.
    + apply IH. intros item Hi. apply Hk, elem_of_cons. by right.
    + apply list.Forall_forall. intros y (z & -> & Hz)%list_elem_of_fmap. rewrite list.Forall_forall in Hx. cbn.
      rewrite <- (Join_lt (ek_rootPath kv)), <- !Hk; [by apply Hx|apply elem_of_cons; by right|apply list_elem_of_here].
  - intros kv a b [key v]. unfold kb_range, kb_get, etcd_kv, etcd_range, etcd_get. cbn [fst snd]. split.
    + intros ([k' v'] & [= -> ->] & Hz)%list_elem_of_fmap. pose proof (etcd_range_key kv a b _ Hz) as Hk. cbn [fst] in Hk.
      apply kb_range_elem in Hz as (Hg & Hge & Hlt). cbn [fst snd] in *. rewrite <- Hk.
      by rewrite <- (Join_lt (ek_rootPath kv) _ a), <- (Join_lt (ek_rootPath kv) _ b), <- Hk.
    + intros (Hg & Hge & Hlt). apply list_elem_of_fmap. exists (Join (ek_rootPath kv) key, v). cbn [fst snd].
      rewrite trimRoot_Join. split; [done|]. apply kb_range_elem. cbn [fst snd]. by rewrite !Join_lt.
Qed.
End EtcdKV.
