(* ===== verification/SchedServer.v ===== *)
(** * SchedServer: the scheduler as its clients see it

    The gRPC handlers of [scheduler/server/grpc_service.go], what they call in
    [server.go], [cluster.go] and [cluster_worker.go], and how a server becomes the leader
    and stops being it.  A handler is a function on the server's state that answers, answers
    with an error in the header, or fails; the state it leaves is given in every case.
    Handlers run one after the other here, except for the two steps of
    [UpdateGCSafePoint], which takes no lock.  [saveOk] and [dropOk] say which writes of a
    store etcd accepts; those it does not have no effect.  Operators are not part of this
    file: a heartbeat that reaches [Dispatch] only says so. *)

From stdpp Require Import base option list strings gmap tactics.
From S2P Require Import Prelude.
From S2P Require Import Metapb.
From S2P Require Import RegionInfo.
From S2P Require Import Store.
From S2P Require Import Cluster.
From S2P Require Import Etcd.
From S2P Require Import IdAlloc.
From S2P Require Import EngineIter.
From S2P Require Import SchedStorage.
From S2P Require Import GoMonad.

Inductive ErrorType := ALREADY_BOOTSTRAPPED | NOT_BOOTSTRAPPED | STORE_TOMBSTONE.
#[export] Instance ErrorType_eq_dec : EqDecision ErrorType.
Proof. solve_decision. Defined.
Inductive rpc_error :=
  | notLeaderError
  | mismatchClusterID
  | invalidRequest
  | alreadyBootstrapped
  | errCommit
  | errCluster (e : cluster_error)
  | errAlloc (e : id_error)
  | errStorage (e : storage_error).
(** An answer, or one with an error in its header. *)
Inductive reply (A : Type) := Refused (e : ErrorType) | Reply (a : A).
Arguments Refused {A}.
Arguments Reply {A}.

(** [sv_core], [sv_meta] and [sv_running] are those of the [RaftCluster]; [sv_core] is nil before it is
    first started.  [sv_etcd] holds the allocator's key, [sv_storage] what is kept below the root path. *)
Record Server (S K : Type) := mkServer {
  sv_isServing : bool;
  sv_isLeader : bool;
  sv_clusterID : Z;
  sv_maxReplicas : Z;
  sv_etcd : S;
  sv_idAllocator : AllocatorImpl;
  sv_storage : K;
  sv_running : bool;
  sv_core : option BasicCluster;
  sv_meta : ClusterMeta;
}.
Arguments mkServer {S K}.
Arguments sv_isServing {S K}.
Arguments sv_isLeader {S K}.
Arguments sv_clusterID {S K}.
Arguments sv_maxReplicas {S K}.
Arguments sv_etcd {S K}.
Arguments sv_idAllocator {S K}.
Arguments sv_storage {S K}.
Arguments sv_running {S K}.
Arguments sv_core {S K}.
Arguments sv_meta {S K}.
#[export] Instance set_sv_isServing {S K} : Setter (@sv_isServing S K) := fun g s =>
  mkServer (g (sv_isServing s)) (sv_isLeader s) (sv_clusterID s) (sv_maxReplicas s) (sv_etcd s) (sv_idAllocator s) (sv_storage s) (sv_running s) (sv_core s) (sv_meta s).
#[export] Instance set_sv_isLeader {S K} : Setter (@sv_isLeader S K) := fun g s =>
  mkServer (sv_isServing s) (g (sv_isLeader s)) (sv_clusterID s) (sv_maxReplicas s) (sv_etcd s) (sv_idAllocator s) (sv_storage s) (sv_running s) (sv_core s) (sv_meta s).
#[export] Instance set_sv_clusterID {S K} : Setter (@sv_clusterID S K) := fun g s =>
  mkServer (sv_isServing s) (sv_isLeader s) (g (sv_clusterID s)) (sv_maxReplicas s) (sv_etcd s) (sv_idAllocator s) (sv_storage s) (sv_running s) (sv_core s) (sv_meta s).
#[export] Instance set_sv_maxReplicas {S K} : Setter (@sv_maxReplicas S K) := fun g s =>
  mkServer (sv_isServing s) (sv_isLeader s) (sv_clusterID s) (g (sv_maxReplicas s)) (sv_etcd s) (sv_idAllocator s) (sv_storage s) (sv_running s) (sv_core s) (sv_meta s).
#[export] Instance set_sv_etcd {S K} : Setter (@sv_etcd S K) := fun g s =>
  mkServer (sv_isServing s) (sv_isLeader s) (sv_clusterID s) (sv_maxReplicas s) (g (sv_etcd s)) (sv_idAllocator s) (sv_storage s) (sv_running s) (sv_core s) (sv_meta s).
#[export] Instance set_sv_idAllocator {S K} : Setter (@sv_idAllocator S K) := fun g s =>
  mkServer (sv_isServing s) (sv_isLeader s) (sv_clusterID s) (sv_maxReplicas s) (sv_etcd s) (g (sv_idAllocator s)) (sv_storage s) (sv_running s) (sv_core s) (sv_meta s).
#[export] Instance set_sv_storage {S K} : Setter (@sv_storage S K) := fun g s =>
  mkServer (sv_isServing s) (sv_isLeader s) (sv_clusterID s) (sv_maxReplicas s) (sv_etcd s) (sv_idAllocator s) (g (sv_storage s)) (sv_running s) (sv_core s) (sv_meta s).
#[export] Instance set_sv_running {S K} : Setter (@sv_running S K) := fun g s =>
  mkServer (sv_isServing s) (sv_isLeader s) (sv_clusterID s) (sv_maxReplicas s) (sv_etcd s) (sv_idAllocator s) (sv_storage s) (g (sv_running s)) (sv_core s) (sv_meta s).
#[export] Instance set_sv_core {S K} : Setter (@sv_core S K) := fun g s =>
  mkServer (sv_isServing s) (sv_isLeader s) (sv_clusterID s) (sv_maxReplicas s) (sv_etcd s) (sv_idAllocator s) (sv_storage s) (sv_running s) (g (sv_core s)) (sv_meta s).
#[export] Instance set_sv_meta {S K} : Setter (@sv_meta S K) := fun g s =>
  mkServer (sv_isServing s) (sv_isLeader s) (sv_clusterID s) (sv_maxReplicas s) (sv_etcd s) (sv_idAllocator s) (sv_storage s) (sv_running s) (sv_core s) (g (sv_meta s)).

(** What a region heartbeat leads to besides the state. *)
Inductive beat_event := BindStream (storeID : Z) | SendErr (targetPeer : option Peer) | Dispatch (region : RegionInfo).
(** How the commit of a transaction ends: as it should, or with an error, having taken effect or not. *)
Inductive fate := Committed | Failed (took : bool).

Section Server.
Context {S K : Type} `{Etcd S, KVBase K}.
Context (storeBytes : Store -> list Z) (storeOf : list Z -> option Store).
Context (metaBytes : ClusterMeta -> list Z) (metaOf : list Z -> option ClusterMeta).
Context {F : Type} (ParseFloat : list Z -> option F) (one : F).
Context (saveOk dropOk : Store -> bool).
Abbreviation server := (Server S K).

Abbreviation call := (st rpc_error server).

(** ** The cluster *)
Definition GetRaftCluster (s : server) : option BasicCluster :=
  if negb (sv_isServing s) || negb (sv_running s) then None else sv_core s.
(** [c.core]. *)
Definition core : call BasicCluster := fun s => (s, deref (sv_core s)).
Definition setCore (c : BasicCluster) : call unit := modify (fun s => s <| sv_core := Some c |>).

Definition loadClusterInfo : call bool :=
  modify (fun s => s <| sv_meta := mkClusterMeta 0 0 |>) ;;
  do! k <- gets sv_storage;
  do! meta <- lift errStorage (LoadMeta metaOf k);
  match meta with
  | None => ret false
  | Some meta =>
    modify (fun s => s <| sv_meta := meta |>) ;;
    do! c <- core;
    do! c <- lift errStorage (LoadStores storeOf ParseFloat one basic.PutStore k c);
    setCore c ;; ret true
  end.
(** The stores that were put before an error stay in a cluster that is not running. *)
Definition start : call unit :=
  do! running <- gets sv_running;
  if running : bool then ret tt else
  do! c <- lift errCluster basic.NewBasicCluster;
  setCore c ;;
  do! ok <- loadClusterInfo;
  if ok : bool then modify (fun s => s <| sv_running := true |>) else ret tt.
Definition stop : call unit := modify (fun s => s <| sv_running := false |>).

(** A store of the cache goes to the storage. *)
Definition saveStoreOf (c : BasicCluster) (storeID : Z) : call unit :=
  match cluster.GetStore c storeID with
  | Some x => modify (fun s => s <| sv_storage ::= fun k => SaveStore storeBytes k (si_meta x) |>)
  | None => ret tt
  end.
Definition putStore (x : Store) : call unit :=
  do! c <- core;
  do! c <- lift errCluster (cluster.putStore saveOk c x);
  setCore c ;; saveStoreOf c (st_Id x).
Definition RemoveStore (storeID : Z) : call unit :=
  do! c <- core;
  do! c' <- lift errCluster (cluster.RemoveStore saveOk c storeID);
  match cluster.GetStore c storeID with
  | Some x => if store.IsOffline x then ret tt else setCore c' ;; saveStoreOf c' storeID
  | None => ret tt
  end.
Definition BuryStore (storeID : Z) (force : bool) : call unit :=
  do! c <- core;
  do! c' <- lift errCluster (cluster.BuryStore saveOk c storeID force);
  match cluster.GetStore c storeID with
  | Some x => if store.IsTombstone x then ret tt else setCore c' ;; saveStoreOf c' storeID
  | None => ret tt
  end.
Definition SetStoreState (storeID : Z) (state : StoreState) : call unit :=
  do! c <- core;
  do! c <- lift errCluster (cluster.SetStoreState saveOk c storeID state);
  setCore c ;; saveStoreOf c storeID.
(** An error of [BuryStore] is logged. *)
Definition logged (c : call unit) : call unit := fun s =>
  match c s with (s, Err _) => (s, Ret tt) | r => r end.
Fixpoint checkStoresLoop (xs : list StoreInfo) : call unit :=
  match xs with
  | [] => ret tt
  | x :: xs =>
    (if store.IsTombstone x || store.IsUp x then ret tt else
     do! c <- core;
     if basic.GetStoreRegionCount c (store.GetID x) =? 0 then logged (BuryStore (store.GetID x) false) else ret tt) ;;
    checkStoresLoop xs
  end.
Definition checkStores : call unit := do! c <- core; checkStoresLoop (basic.GetStores c).
Fixpoint removeTombstones (xs : list StoreInfo) : call unit :=
  match xs with
  | [] => ret tt
  | x :: xs =>
    (if store.IsTombstone x then
       do! c <- core;
       do! c <- lift errCluster (cluster.deleteStoreLocked dropOk c x);
       modify (fun s => s <| sv_storage ::= fun k => DeleteStore k (si_meta x) |>) ;; setCore c
     else ret tt) ;;
    removeTombstones xs
  end.
Definition RemoveTombStoneRecords : call unit := do! c <- core; removeTombstones (basic.GetStores c).

(** ** Regions *)
Definition HandleRegionHeartbeat (region : RegionInfo) : call beat_event :=
  do! c <- core;
  do! c <- lift errCluster (cluster.processRegionHeartbeat c region);
  setCore c ;;
  if len (GetPeers region) =? 0 then fail invalidRequest else ret (Dispatch region).

Definition validRequestRegion (c : BasicCluster) (reqRegion : Region) : call unit :=
  do! (region, _) <- lift errCluster (cluster.GetRegionByKey c (rg_StartKey reqRegion));
  match region with
  | None => fail invalidRequest
  | Some region =>
    let reqRegionEpoch := default (mkEpoch 0 0) (rg_RegionEpoch reqRegion) in
    let regionEpoch := default (mkEpoch 0 0) (rg_RegionEpoch region) in
    if (ep_Version reqRegionEpoch <? ep_Version regionEpoch) || (ep_ConfVer reqRegionEpoch <? ep_ConfVer regionEpoch)
    then fail invalidRequest else ret tt
  end.
Definition allocID : call Z := fun s =>
  match Alloc (sv_etcd s) (sv_idAllocator s) with
  | Ret (e, a, id) => (s <| sv_etcd := e |> <| sv_idAllocator := a |>, Ret id)
  | Err e => (s, Err (errAlloc e))
  | Panic => (s, Panic)
  | OutOfFuel => (s, OutOfFuel)
  end.
Fixpoint allocIDs (n : nat) : call (list Z) :=
  match n with
  | O => ret []
  | Datatypes.S n => do! id <- allocID; do! ids <- allocIDs n; ret (id :: ids)
  end.
Definition handleAskSplit (c : BasicCluster) (region : Region) : call (Z * list Z) :=
  validRequestRegion c region ;;
  do! newRegionID <- allocID;
  do! peerIDs <- allocIDs (length (rg_Peers region));
  ret (newRegionID, peerIDs).
Definition AllocPeer (storeID : Z) : call Peer := do! peerID <- allocID; ret (mkPeer peerID storeID).

Definition checkSplitRegion (left right : option Region) : outcome rpc_error unit :=
  match left, right with
  | Some l, Some r =>
    if negb (bool_decide (rg_EndKey l = rg_StartKey r)) then Err invalidRequest else
    if (len (rg_EndKey r) =? 0) || (Compare (rg_StartKey l) (rg_EndKey r) <? 0) then Ret tt else Err invalidRequest
  | _, _ => Err invalidRequest
  end.
Definition handleReportSplit (left right : option Region) : call unit := fun s => (s, checkSplitRegion left right).

Definition putMetaLocked (meta : ClusterMeta) : call unit :=
  modify (fun s => s <| sv_storage ::= fun k => SaveMeta metaBytes k meta |> <| sv_meta := meta |>).
Definition putConfig (meta : ClusterMeta) : call unit :=
  do! clusterID <- gets sv_clusterID;
  if negb (cm_Id meta =? clusterID) then fail invalidRequest else putMetaLocked meta.

(** ** Bootstrap *)
Definition checkBootstrapRequest (x : option Store) : outcome rpc_error Store :=
  match x with
  | None => Err invalidRequest
  | Some x => if st_Id x =? 0 then Err invalidRequest else Ret x
  end.
Definition makeBootstrapTimeKey : list Z := ClusterStatePath (bytes_of "raft_bootstrap_time").
(** The puts of the transaction, which compares that there is no cluster yet. *)
Definition bootstrapOps (s : server) (x : Store) (nano : Z) (k : K) : K :=
  let k := kb_Save k clusterPath (metaBytes (mkClusterMeta (sv_clusterID s) (sv_maxReplicas s mod 2 ^ 32))) in
  let k := kb_Save k makeBootstrapTimeKey (Uint64ToBytes (wrap64 nano)) in
  kb_Save k (storePath (st_Id x)) (storeBytes x).
Definition bootstrapCluster (commit : fate) (nano : Z) (x : option Store) : call unit :=
  do! x <- lift id (checkBootstrapRequest x);
  do! s <- gets id;
  let put := modify (fun s => s <| sv_storage ::= bootstrapOps s x nano |>) in
  match kb_get (sv_storage s) clusterPath, commit with
  | Some _, Committed => fail alreadyBootstrapped
  | None, Committed => put ;; start
  | None, Failed true => put ;; fail errCommit
  | _, Failed _ => fail errCommit
  end.

(** ** The handlers *)
Definition validateRequest (clusterId : Z) : call unit :=
  do! s <- gets id;
  if negb (sv_isServing s) || negb (sv_isLeader s) then fail notLeaderError else
  if negb (clusterId =? sv_clusterID s) then fail mismatchClusterID else ret tt.
(** How all handlers but the first three begin. *)
Definition serving {A} (clusterId : Z) (k : BasicCluster -> call (reply A)) : call (reply A) :=
  validateRequest clusterId ;;
  do! c <- gets GetRaftCluster;
  match c with None => ret (Refused NOT_BOOTSTRAPPED) | Some c => k c end.

Definition Bootstrap (commit : fate) (nano clusterId : Z) (x : option Store) : call (reply unit) :=
  validateRequest clusterId ;;
  do! c <- gets GetRaftCluster;
  match c with
  | Some _ => ret (Refused ALREADY_BOOTSTRAPPED)
  | None => bootstrapCluster commit nano x ;; ret (Reply tt)
  end.
Definition IsBootstrapped (clusterId : Z) : call (reply bool) :=
  validateRequest clusterId ;;
  do! c <- gets GetRaftCluster;
  ret (Reply (match c with Some _ => true | None => false end)).
Definition AllocID (clusterId : Z) : call (reply Z) :=
  validateRequest clusterId ;;
  do! id <- allocID;
  ret (Reply id).
Definition GetStore (clusterId storeID : Z) : call (reply (Store * option StoreStats)) :=
  serving clusterId (fun c =>
    match cluster.GetStore c storeID with
    | None => fail invalidRequest
    | Some x => ret (Reply (si_meta x, si_stats x))
    end).
Definition checkStore2 (c : BasicCluster) (storeID : Z) : bool :=
  match cluster.GetStore c storeID with
  | Some x => bool_decide (store.GetState x = StoreState_Tombstone)
  | None => false
  end.
Definition PutStore (clusterId : Z) (x : Store) : call (reply unit) :=
  serving clusterId (fun c =>
    if checkStore2 c (st_Id x) then ret (Refused STORE_TOMBSTONE) else
    putStore x ;; ret (Reply tt)).
Definition GetAllStores (clusterId : Z) (excludeTombstone : bool) : call (reply (list Store)) :=
  serving clusterId (fun c =>
    ret (Reply (if excludeTombstone
                then List.filter (fun x => negb (bool_decide (st_State x = StoreState_Tombstone))) (basic.GetMetaStores c)
                else basic.GetMetaStores c))).
(** The check of the statistics comes before that of the cluster. *)
Definition StoreHeartbeat (now clusterId : Z) (stats : option StoreStats) : call (reply unit) :=
  validateRequest clusterId ;;
  match stats with
  | None => fail invalidRequest
  | Some stats =>
    do! c <- gets GetRaftCluster;
    match c with
    | None => ret (Refused NOT_BOOTSTRAPPED)
    | Some c =>
      if checkStore2 c (ss_StoreId stats) then ret (Refused STORE_TOMBSTONE) else
      do! c <- lift errCluster (cluster.handleStoreHeartbeat now c stats);
      setCore c ;; ret (Reply tt)
    end
  end.
(** One request of the stream, on a cluster that ran when the stream was opened; [bind_due] is whether the
    last binding is old enough.  An error ends the stream. *)
Definition RegionHeartbeat (bind_due : bool) (clusterId : Z) (request : RegionHeartbeatRequest) : call (list beat_event) :=
  validateRequest clusterId ;;
  let storeID := GetStoreId (hb_Leader request) in
  do! c <- core;
  match cluster.GetStore c storeID with
  | None => fail invalidRequest
  | Some _ =>
    let bound := if bind_due then [BindStream storeID] else [] in
    do! region <- lift id (RegionFromHeartbeat request);
    match RegionInfo.GetLeader region with
    | None => ret bound
    | Some _ =>
      if GetID region =? 0 then ret (bound ++ [SendErr (hb_Leader request)]) else fun s =>
      match HandleRegionHeartbeat region s with
      | (s, Ret e) => (s, Ret (bound ++ [e]))
      | (s, Err _) => (s, Ret (bound ++ [SendErr (hb_Leader request)]))
      | (s, Panic) => (s, Panic)
      | (s, OutOfFuel) => (s, OutOfFuel)
      end
    end
  end.
Definition GetRegion (clusterId : Z) (regionKey : list Z) : call (reply (option Region * option Peer)) :=
  serving clusterId (fun c =>
    do! r <- lift errCluster (cluster.GetRegionByKey c regionKey); ret (Reply r)).
Definition GetPrevRegion (clusterId : Z) (regionKey : list Z) : call (reply (option Region * option Peer)) :=
  serving clusterId (fun c =>
    do! r <- lift errCluster (cluster.GetPrevRegionByKey c regionKey); ret (Reply r)).
Definition GetRegionByID (clusterId regionID : Z) : call (reply (option Region * option Peer)) :=
  serving clusterId (fun c => ret (Reply (cluster.GetRegionByID c regionID))).
(** The meta of a nil region, and a leader that is not known, are those of the zero value. *)
Definition ScanRegions (clusterId : Z) (startKey endKey : list Z) (limit : Z) : call (reply (list Region * list Peer)) :=
  serving clusterId (fun c =>
    do! rs <- lift errCluster (cluster.ScanRegions c startKey endKey limit);
    do! rs <- lift id (foldM (fun l r => let! r := deref r in Ret (l ++ [r])) [] rs);
    ret (Reply (map GetMeta rs, map (fun r => default (mkPeer 0 0) (RegionInfo.GetLeader r)) rs))).
Definition AskSplit (clusterId : Z) (region : option Region) : call (reply (Z * list Z)) :=
  serving clusterId (fun c =>
    match region with
    | None => fail invalidRequest
    | Some region => do! split <- handleAskSplit c region; ret (Reply split)
    end).
Definition ReportSplit (clusterId : Z) (left right : option Region) : call (reply unit) :=
  serving clusterId (fun _ => handleReportSplit left right ;; ret (Reply tt)).
Definition GetClusterConfig (clusterId : Z) : call (reply ClusterMeta) :=
  serving clusterId (fun _ => do! meta <- gets sv_meta; ret (Reply meta)).
Definition PutClusterConfig (clusterId : Z) (conf : ClusterMeta) : call (reply unit) :=
  serving clusterId (fun _ => putConfig conf ;; ret (Reply tt)).
Definition GetGCSafePoint (clusterId : Z) : call (reply Z) :=
  serving clusterId (fun _ =>
    do! k <- gets sv_storage;
    do! safePoint <- lift errStorage (LoadGCSafePoint k);
    ret (Reply safePoint)).
(** What is read, and what is done with it. *)
Definition updateGC_load (clusterId : Z) : call (reply Z) := GetGCSafePoint clusterId.
Definition updateGC_save (newSafePoint oldSafePoint : Z) : call (reply Z) :=
  if newSafePoint >? oldSafePoint then
    modify (fun s => s <| sv_storage ::= fun k => SaveGCSafePoint k newSafePoint |>) ;; ret (Reply newSafePoint)
  else if newSafePoint <? oldSafePoint then ret (Reply oldSafePoint) else ret (Reply newSafePoint).
Definition UpdateGCSafePoint (clusterId newSafePoint : Z) : call (reply Z) :=
  do! old <- updateGC_load clusterId;
  match old with
  | Refused e => ret (Refused e)
  | Reply oldSafePoint => updateGC_save newSafePoint oldSafePoint
  end.

(** ** Leadership *)
(** [campaignLeader] once the lease is won and the timestamp is synced: a cluster that cannot be created ends it. *)
Definition becomeLeader : call unit :=
  start ;; modify (fun s => s <| sv_isLeader := true |>).
(** Its deferred calls. *)
Definition stepDown : call unit :=
  modify (fun s => s <| sv_isLeader := false |>) ;; stop.

(** ** The service *)
(** Everything that changes the state: the requests of clients, what an administrator does to the running
    cluster, the background job, and a change of leader.  A stream of heartbeats that was opened on a running
    cluster only gets past [validateRequest] while it runs. *)
Inductive request :=
  | RBootstrap (commit : fate) (nano clusterId : Z) (x : option Store)
  | RAllocID (clusterId : Z)
  | RPutStore (clusterId : Z) (x : Store)
  | RStoreHeartbeat (now clusterId : Z) (stats : option StoreStats)
  | RRegionHeartbeat (bind_due : bool) (clusterId : Z) (request : RegionHeartbeatRequest)
  | RAskSplit (clusterId : Z) (region : option Region)
  | RPutClusterConfig (clusterId : Z) (conf : ClusterMeta)
  | RUpdateGCSafePoint (clusterId newSafePoint : Z)
  | RRemoveStore (storeID : Z)
  | RBuryStore (storeID : Z) (force : bool)
  | RSetStoreState (storeID : Z) (state : StoreState)
  | RRemoveTombStoneRecords
  | RCheckStores
  | RStepDown
  | RBecomeLeader.
Definition on_running {A} (m : call A) : call unit :=
  do! c <- gets GetRaftCluster;
  match c with None => ret tt | Some _ => m ;; ret tt end.
Definition handle (r : request) : call unit :=
  match r with
  | RBootstrap commit nano clusterId x => Bootstrap commit nano clusterId x ;; ret tt
  | RAllocID clusterId => AllocID clusterId ;; ret tt
  | RPutStore clusterId x => PutStore clusterId x ;; ret tt
  | RStoreHeartbeat now clusterId stats => StoreHeartbeat now clusterId stats ;; ret tt
  | RRegionHeartbeat b clusterId request => on_running (RegionHeartbeat b clusterId request)
  | RAskSplit clusterId region => AskSplit clusterId region ;; ret tt
  | RPutClusterConfig clusterId conf => PutClusterConfig clusterId conf ;; ret tt
  | RUpdateGCSafePoint clusterId sp => UpdateGCSafePoint clusterId sp ;; ret tt
  | RRemoveStore storeID => on_running (RemoveStore storeID)
  | RBuryStore storeID force => on_running (BuryStore storeID force)
  | RSetStoreState storeID state => on_running (SetStoreState storeID state)
  | RRemoveTombStoneRecords => on_running RemoveTombStoneRecords
  | RCheckStores => on_running checkStores
  | RStepDown => stepDown
  | RBecomeLeader => becomeLeader
  end.
(** An error is an answer like any other. *)
Definition serve (rs : list request) (s : server) : server := foldl (fun s r => fst (handle r s)) s rs.
(** A server as it starts, on what is in etcd. *)
Definition new_server (clusterID maxReplicas : Z) (member : list Z) (e : S) (k : K) : server :=
  mkServer true false clusterID maxReplicas e (NewAllocatorImpl member) k false None (mkClusterMeta 0 0).
End Server.
