(* ===== verification/SchedServerProps.v ===== *)
(** * SchedServerProps: the scheduler's cache and its storage

    What a client of the scheduler may rely on across calls and across leaders: the stores
    and the configuration a new leader loads are those of the old one, a cluster is
    bootstrapped once, and the safe point of the garbage collection does not move back as
    long as its updates do not overlap. *)

From stdpp Require Import base option list strings sorting gmap tactics.
From S2P Require Import Prelude.
From S2P Require Import Metapb.
From S2P Require Import RegionInfo.
From S2P Require Import RegionsInfo.
From S2P Require Import Store.
From S2P Require Import Cluster.
From S2P Require Import ClusterProps.
From S2P Require Import Etcd.
From S2P Require Import IdAlloc.
From S2P Require Import EngineIter.
From S2P Require Import SchedStorage.
From S2P Require Import GoMonad.
From S2P Require Import SchedServer.

Section Props.
Context {S K : Type} {HE : Etcd S} {HK : KVBase K} {HL : KVBaseLaws K}.
Context (storeBytes : Store -> list Z) (storeOf : list Z -> option Store).
Context (metaBytes : ClusterMeta -> list Z) (metaOf : list Z -> option ClusterMeta).
Context {F : Type} (ParseFloat : list Z -> option F) (one : F).
Context (saveOk dropOk : Store -> bool).
Abbreviation server := (Server S K).
Abbreviation call := (st rpc_error (Server S K)).
Implicit Types (s : server) (k : K) (c : BasicCluster).

(** ** The invariant *)
(** What the code relies on of the generated encodings. *)
Hypothesis storeOf_bytes : forall st, is_u64 (st_Id st) -> storeOf (storeBytes st) = Some st.
Hypothesis metaOf_bytes : forall m, metaOf (metaBytes m) = Some m.
Hypothesis metaOf_nil : forall m, metaOf [] = Some m -> cm_Id m = 0.

Definition store_id (id : Z) : Prop := is_u64 id /\ id < two64 - 1.
(** The storage holds the stores of the cache, and no others. *)
Record cached c k : Prop := {
  ca_keys : keys_ok c;
  ca_ids : forall id x, basic.GetStore c id = Some x -> store_id id;
  ca_get : forall id, store_id id -> (kb_get k (storePath id) ≫= storeOf) = si_meta <$> basic.GetStore c id;
}.
Record stored k : Prop := {
  sk_stores : stores_saved storeOf k;
  sk_weights : weights_saved ParseFloat one k;
}.
Record sane s : Prop := {
  sn_id : sv_clusterID s <> 0;
  sn_stored : stored (sv_storage s);
  sn_running : sv_running s = true ->
    (exists c, sv_core s = Some c /\ cached c (sv_storage s)) /\
    LoadMeta metaOf (sv_storage s) = Ret (Some (sv_meta s));
}.

(** ** Keys *)
Lemma storePath_cons id : storePath id = 114 :: 97 :: 102 :: 116 :: 47 :: 115 :: 47 :: padded 20 id.
Proof. done. Qed.
(** A key that neither stores nor weights use. *)
Definition aside (key : list Z) : Prop :=
  (forall id, storePath id <> key) /\
  (key_lt key (storePath 0) = true \/ key_lt key (storePath (two64 - 1)) = false) /\ hd 0 key <> 115.
Lemma aside_cluster : aside clusterPath.
Proof. split_and!; [intros id; by rewrite storePath_cons|by left|done]. Qed.
Lemma aside_gc : aside (Join gcPath (bytes_of "safe_point")).
Proof. split_and!; [intros id; by rewrite storePath_cons|by left|done]. Qed.
Lemma aside_time : aside makeBootstrapTimeKey.
Proof. split_and!; [intros id; by rewrite storePath_cons|by right|done]. Qed.

Lemma weights_frame k k' :
  (forall key, hd 0 key = 115 -> kb_get k' key = kb_get k key) -> weights_saved ParseFloat one k -> weights_saved ParseFloat one k'.
Proof.
  intros He Hw id. destruct (Hw id) as [H1 H2].
  unfold loadFloatWithDefaultValue, kb_Load in *. by rewrite !He.
Qed.
Lemma stored_aside k key v : aside key -> stored k -> stored (kb_Save k key v).
Proof.
  intros (Hk & Hr & Hh) [Hs Hw]. split.
  - eapply (outside_saved _ _ _ key Hs); [|done]. intros key' Hne. by rewrite kb_get_save, decide_False.
  - eapply weights_frame; [|done]. intros key' Hh'. rewrite kb_get_save, decide_False; [done|]. by intros ->.
Qed.
Lemma cached_aside c k key v : aside key -> cached c k -> cached c (kb_Save k key v).
Proof.
  intros (Hk & _) [H1 H2 H3]. split; [done..|]. intros id Hid. rewrite kb_get_save, decide_False by (intros <-; by eapply Hk). auto.
Qed.
Lemma LoadMeta_frame k k' : kb_get k' clusterPath = kb_get k clusterPath -> LoadMeta metaOf k' = LoadMeta metaOf k.
Proof. intros He. unfold LoadMeta, loadProto, kb_Load. by rewrite He. Qed.
Lemma LoadMeta_save k m : cm_Id m <> 0 -> LoadMeta metaOf (SaveMeta metaBytes k m) = Ret (Some m).
Proof.
  intros Hm. unfold LoadMeta, SaveMeta, loadProto, kb_Load. rewrite kb_get_save, decide_True by done. cbn [default id].
  destruct (metaBytes m) as [|x v] eqn:Hb; [|by rewrite <- Hb, metaOf_bytes].
  specialize (metaOf_bytes m). rewrite Hb in metaOf_bytes. by apply metaOf_nil in metaOf_bytes.
Qed.

#[local] Opaque storePath LoadStores LoadMeta.

(** ** Storing a store *)
Lemma stored_save k st : store_id (st_Id st) -> stored k -> stored (SaveStore storeBytes k st).
Proof.
  intros [Hu _] [Hs Hw]. split; [by apply SaveStore_saved; auto|].
  eapply weights_frame; [|done]. intros key Hh. unfold SaveStore. rewrite kb_get_save, decide_False; [done|]. by intros ->.
Qed.
Lemma cached_save c k x : store_id (store.GetID x) -> cached c k -> cached (basic.PutStore c x) (SaveStore storeBytes k (si_meta x)).
Proof.
  intros Hid [H1 H2 H3]. split.
  - intros id y. rewrite put_lookup. case_decide as He; [by intros [= <-]|apply H1].
  - intros id y. rewrite put_lookup. case_decide as He; [by subst|apply H2].
  - intros id Hi. unfold SaveStore. rewrite kb_get_save, put_lookup. change (st_Id (si_meta x)) with (store.GetID x).
    destruct (decide (id = store.GetID x)) as [->|Hne]; [rewrite decide_True by done; apply storeOf_bytes, Hid|].
    rewrite decide_False; [by apply H3|]. intros He%storePath_inj; [done|apply Hi|apply Hid].
Qed.
Lemma stored_delete k st : stored k -> stored (DeleteStore k st).
Proof.
  intros [Hs Hw]. split; [by apply DeleteStore_saved|].
  eapply weights_frame; [|done]. intros key Hh. unfold DeleteStore. rewrite kb_get_remove, decide_False; [done|]. by intros ->.
Qed.
Lemma cached_delete c k x : store_id (store.GetID x) -> cached c k -> cached (basic.DeleteStore c x) (DeleteStore k (si_meta x)).
Proof.
  intros Hid [H1 H2 H3].
  assert (Hl : forall id, basic.GetStore (basic.DeleteStore c x) id = if decide (id = store.GetID x) then None else basic.GetStore c id).
  { intros id. unfold basic.GetStore, basic.DeleteStore, stores.GetStore, stores.DeleteStore. cbn.
    case_decide; subst; [apply lookup_delete_eq|by apply lookup_delete_ne]. }
  split; [intros id y; rewrite Hl; case_decide; [done|by apply H1]|intros id y; rewrite Hl; case_decide; [done|by apply H2]|].
  intros id Hi. unfold DeleteStore. rewrite kb_get_remove, Hl. change (st_Id (si_meta x)) with (store.GetID x).
  destruct (decide (id = store.GetID x)) as [->|Hne]; [by rewrite decide_True|].
  rewrite decide_False; [by apply H3|]. intros He%storePath_inj; [done|apply Hi|apply Hid].
Qed.
(** The cache may change in anything but the stores themselves. *)
Definition same_metas c c' : Prop := forall id, si_meta <$> basic.GetStore c' id = si_meta <$> basic.GetStore c id.
Lemma cached_same c c' k : same_metas c c' -> cached c k -> cached c' k.
Proof.
  intros Hm [H1 H2 H3]. split.
  - intros id x Hx. specialize (Hm id). rewrite Hx in Hm. cbn in Hm.
    destruct (basic.GetStore c id) as [y|] eqn:Hy; [|done]. cbn in Hm. injection Hm as Hm.
    rewrite <- (H1 id y Hy). unfold store.GetID. by rewrite Hm.
  - intros id x Hx. specialize (Hm id). rewrite Hx in Hm.
    destruct (basic.GetStore c id) as [y|] eqn:Hy; [|done]. by apply (H2 id y).
  - intros id Hi. by rewrite (H3 id Hi), Hm.
Qed.

(** ** Loading the cluster *)
Lemma put_all sts : forall c,
  base.NoDup (map st_Id sts) ->
  forall id, si_meta <$> basic.GetStore (foldl basic.PutStore c (map (fun st => store.NewStoreInfo st []) sts)) id =
    match List.find (fun st => st_Id st =? id) sts with Some st => Some st | None => si_meta <$> basic.GetStore c id end.
Proof.
  induction sts as [|st sts IH]; intros c Hnd id; [done|]. cbn [map foldl List.find] in *.
  apply list.NoDup_cons in Hnd as [Hni Hnd]. rewrite IH by done. destruct (Z.eqb_spec (st_Id st) id) as [<-|Hne].
  - destruct (List.find _ sts) as [st'|] eqn:Hf.
    + apply find_some in Hf as [Hin He]. destruct Hni. apply Z.eqb_eq in He. rewrite <- He.
      apply list_elem_of_fmap_2. by apply list_elem_of_In.
    + by rewrite put_lookup, decide_True.
  - destruct (List.find _ sts); [done|]. rewrite put_lookup, decide_False; [done|]. intros ->. by apply Hne.
Qed.
Lemma loaded_cached k c0 :
  stored k -> (forall id, basic.GetStore c0 id = None) ->
  cached (foldl basic.PutStore c0 (map (fun st => store.NewStoreInfo st []) (all_stores storeOf k))) k.
Proof.
  intros [Hs _] H0. set (sts := all_stores storeOf k). pose proof (all_stores_sorted storeOf k Hs) as Hsort. fold sts in Hsort.
  assert (Hnd : base.NoDup (map st_Id sts)).
  { clear -Hsort. induction Hsort as [|st l Hl IH Hlt]; constructor; [|done]. intros (st' & He & Hin)%list_elem_of_fmap.
    rewrite list.Forall_forall in Hlt. specialize (Hlt st' Hin). lia. }
  pose proof (put_all sts c0 Hnd) as Hput. set (c := foldl _ _ _) in *.
  assert (Hfind : forall id st, List.find (fun st => st_Id st =? id) sts = Some st ->
    st_Id st = id /\ store_id id /\ (kb_get k (storePath id) ≫= storeOf) = Some st).
  { intros id st [Hin He]%find_some. apply Z.eqb_eq in He. apply list_elem_of_In, all_stores_elem in Hin as (Hu & Hlt & v & Hg & Ho); [|done].
    subst id. split; [done|split; [done|]]. by rewrite Hg. }
  assert (Hc : forall id x, basic.GetStore c id = Some x -> st_Id (si_meta x) = id /\ store_id id).
  { intros id x Hx. specialize (Hput id). rewrite Hx, H0 in Hput. cbn in Hput.
    destruct (List.find _ sts) as [st|] eqn:Hf; [|done]. injection Hput as ->. destruct (Hfind id st Hf) as (? & ? & _). done. }
  split; [intros id x Hx; by apply Hc|intros id x Hx; by eapply Hc|].
  intros id Hid. rewrite Hput, H0. destruct (List.find _ sts) as [st|] eqn:Hf; [by apply Hfind|]. cbn.
  destruct (kb_get k (storePath id)) as [v|] eqn:Hg; [|done]. cbn.
  assert (Hm : is_u64 (two64 - 1)) by (unfold is_u64, two64; lia). assert (Hz : is_u64 0) by (unfold is_u64, two64; lia).
  destruct (Hs (storePath id, v) Hg) as (st & Hp & Hu & Ho); cbn [fst snd] in *.
  { rewrite storePath_lt by (done || apply Hid). destruct Hid as [[] ?]. lia. }
  { rewrite storePath_lt by (done || apply Hid). destruct Hid as [[] ?]. lia. }
  apply storePath_inj in Hp as ->; [|apply Hid|done].
  assert (Hin : st ∈ sts) by (apply all_stores_elem; [done|]; split; [done|split; [apply Hid|by exists v]]).
  apply list_elem_of_In in Hin. pose proof (find_none _ _ Hf st Hin) as He. cbn in He. lia.
Qed.
Lemma new_cluster_empty c id : basic.NewBasicCluster = Ret c -> basic.GetStore c id = None.
Proof. unfold basic.NewBasicCluster. destruct regions.NewRegionsInfo; [|done..]. intros [= <-]. apply lookup_empty. Qed.

Abbreviation Start := (start storeOf metaOf ParseFloat one).
(** A cluster that is in the storage is started with the stores of the storage. *)
Lemma start_loads s m :
  stored (sv_storage s) -> sv_running s = false -> LoadMeta metaOf (sv_storage s) = Ret (Some m) ->
  exists c, cached c (sv_storage s) /\
    Start s = (s <| sv_core := Some c |> <| sv_meta := m |> <| sv_running := true |>, Ret tt).
Proof.
  intros Hs Hr Hm. destruct new_cluster_ok as (c0 & Hc0 & _).
  eexists. split; [apply (loaded_cached _ c0 Hs); intros id; by apply new_cluster_empty|].
  unfold start, loadClusterInfo, bind, gets, lift, modify, setCore, core, ret. rewrite Hr, Hc0. cbn.
  rewrite Hm. cbn. rewrite LoadStores_eq by apply Hs. done.
Qed.

(** ** Every call keeps it *)
Abbreviation keeps m := (triple (E := rpc_error) sane m (fun _ => sane) sane).
Lemma keeps_bind {A B} (m : call A) (f : A -> call B) : keeps m -> (forall a, keeps (f a)) -> keeps (bind m f).
Proof. intros Hm Hf. by eapply triple_bind. Qed.
Lemma keeps_ret {A} (a : A) : keeps (ret a).
Proof. by intros s Hs. Qed.
Lemma keeps_fail {A} e : keeps (fail (A := A) e).
Proof. by intros s Hs. Qed.
Lemma keeps_gets {A} (f : server -> A) : keeps (gets f).
Proof. by intros s Hs. Qed.
Lemma keeps_lift {X A} inj (o : outcome X A) : keeps (lift inj o).
Proof. intros s Hs. cbn. by destruct o. Qed.
Lemma keeps_validate cid : keeps (validateRequest cid).
Proof. intros s Hs. unfold validateRequest, bind, gets. cbn. by destruct (_ || _); [|destruct (negb _)]. Qed.
(** Inside [serving] the cluster runs. *)
Definition runs c s : Prop := sane s /\ sv_running s = true /\ sv_core s = Some c.
Lemma keeps_serving {A} cid (f : BasicCluster -> call (reply A)) :
  (forall c, triple (runs c) (f c) (fun _ => sane) sane) -> keeps (serving cid f).
Proof.
  intros Hf. unfold serving. apply keeps_bind; [apply keeps_validate|]. intros _ s Hs.
  unfold bind, gets, GetRaftCluster. destruct (sv_isServing s), (sv_running s) eqn:Hr; cbn; try done.
  destruct (sv_core s) as [c|] eqn:Hc; [|done]. by apply Hf.
Qed.
Lemma start_keeps : keeps Start.
Proof.
  intros s Hs. destruct (sv_running s) eqn:Hr.
  { unfold start, bind, gets. by rewrite Hr. }
  destruct (LoadMeta metaOf (sv_storage s)) as [[m|]| | |] eqn:Hm.
  { destruct (start_loads s m) as (c & Hc & ->); [apply Hs|done..|]. destruct Hs as [H1 H2 H3].
    split; [done|done|]. intros _. cbn. split; [by exists c|done]. }
  all: destruct new_cluster_ok as (c0 & Hc0 & _).
  all: unfold start, loadClusterInfo, bind, gets, lift, modify, setCore, core, ret; rewrite Hr, Hc0; cbn; rewrite Hm.
  all: destruct Hs as [H1 H2 H3]; split; [done|done|]; cbn; congruence.
Qed.

(** ** Stores *)
(** A cluster that runs, whose cache [c] is. *)
Definition up s : Prop := sane s /\ sv_running s = true.
Abbreviation keeps_up m := (triple (E := rpc_error) up m (fun _ => up) up).
Lemma runs_up c s : runs c s -> up s.
Proof. by intros (? & ? & _). Qed.
Lemma up_runs s : up s -> exists c, runs c s.
Proof. intros [Hs Hr]. pose proof Hs as [_ _ H3]. destruct (H3 Hr) as [(c & Hc & _) _]. by exists c. Qed.
Lemma core_up {A} (f : BasicCluster -> call A) (Q : server -> Prop) :
  (forall c, triple (runs c) (f c) (fun _ => Q) Q) -> triple up (bind core f) (fun _ => Q) Q.
Proof.
  intros Hf s (c & Hs)%up_runs. unfold bind, core. pose proof Hs as (_ & _ & ->). cbn. by apply Hf.
Qed.
Lemma keeps_up_bind {A B} (m : call A) (f : A -> call B) : keeps_up m -> (forall a, keeps_up (f a)) -> keeps_up (bind m f).
Proof. intros Hm Hf. by eapply triple_bind. Qed.

(** A store put into the cache and into the storage. *)
Lemma put_and_save c x s :
  runs c s -> store_id (store.GetID x) ->
  up (s <| sv_core := Some (basic.PutStore c x) |> <| sv_storage ::= fun k => SaveStore storeBytes k (si_meta x) |>).
Proof.
  intros ([H1 H2 H3] & Hr & Hc) Hid. destruct (H3 Hr) as [(c1 & Hc1 & Hca) Hm]. rewrite Hc in Hc1. injection Hc1 as <-.
  split; [|done]. split; [done|by apply stored_save|]. intros _. cbn. split; [eexists; split; [done|]; by apply cached_save|].
  rewrite <- Hm. apply LoadMeta_frame. unfold SaveStore. rewrite kb_get_save, decide_False; [done|].
  intros He. by apply (proj1 aside_cluster (st_Id (si_meta x))).
Qed.
Lemma delete_and_drop c x s :
  runs c s -> store_id (store.GetID x) ->
  up (s <| sv_storage ::= fun k => DeleteStore k (si_meta x) |> <| sv_core := Some (basic.DeleteStore c x) |>).
Proof.
  intros ([H1 H2 H3] & Hr & Hc) Hid. destruct (H3 Hr) as [(c1 & Hc1 & Hca) Hm]. rewrite Hc in Hc1. injection Hc1 as <-.
  split; [|done]. split; [done|by apply stored_delete|]. intros _. cbn. split; [eexists; split; [done|]; by apply cached_delete|].
  rewrite <- Hm. apply LoadMeta_frame. unfold DeleteStore. rewrite kb_get_remove, decide_False; [done|].
  intros He. by apply (proj1 aside_cluster (st_Id (si_meta x))).
Qed.
Lemma same_core c c' s : runs c s -> same_metas c c' -> up (s <| sv_core := Some c' |>).
Proof.
  intros ([H1 H2 H3] & Hr & Hc) Hm. destruct (H3 Hr) as [(c1 & Hc1 & Hca) Hl]. rewrite Hc in Hc1. injection Hc1 as <-.
  split; [|done]. split; [done|done|]. intros _. cbn. split; [eexists; split; [done|]; by eapply cached_same|done].
Qed.
Lemma runs_keys c s : runs c s -> keys_ok c /\ forall id x, basic.GetStore c id = Some x -> store_id id.
Proof.
  intros ([_ _ H3] & Hr & Hc). destruct (H3 Hr) as [(c1 & Hc1 & []) _]. rewrite Hc in Hc1. by injection Hc1 as <-.
Qed.

Definition puts c c' (id : Z) : Prop := exists y, c' = basic.PutStore c y /\ store.GetID y = id.
Lemma puts_saved c c' id :
  puts c c' id -> store_id id -> triple (runs c) (bind (setCore c') (fun _ => saveStoreOf storeBytes c' id)) (fun _ => up) up.
Proof.
  intros (y & -> & Hy) Hid s Hs. unfold bind, setCore, modify, saveStoreOf, cluster.GetStore. cbn.
  rewrite put_lookup, decide_True by done. subst id. by apply put_and_save.
Qed.
Lemma putStore_puts c x c' : keys_ok c -> cluster.putStore saveOk c x = Ret c' -> puts c c' (st_Id x).
Proof.
  intros Hk. unfold cluster.putStore. destruct (st_Id x =? 0); [done|]. destruct (existsb _ _); [done|].
  intros ->%putStoreLocked_inv. eexists. split; [done|]. unfold cluster.GetStore.
  destruct (basic.GetStore c (st_Id x)) as [y|] eqn:Hy; [|done]. by apply Hk in Hy.
Qed.
Lemma change_puts c id x y c' :
  keys_ok c -> basic.GetStore c id = Some x -> store.GetID y = store.GetID x ->
  cluster.putStoreLocked saveOk c y = Ret c' -> puts c c' id.
Proof. intros Hk Hx Hy ->%putStoreLocked_inv. exists y. split; [done|]. rewrite Hy. by apply Hk. Qed.

(** What the calls that change a store have in common: [o] is what the method of the cluster gives. *)
Lemma keeps_change c id (o : outcome cluster_error BasicCluster) (skip : StoreInfo -> bool) :
  (forall x c', keys_ok c -> basic.GetStore c id = Some x -> skip x = false -> o = Ret c' -> puts c c' id) ->
  triple (runs c) (bind (lift errCluster o) (fun c' => match cluster.GetStore c id with
    | Some x => if skip x then ret tt else bind (setCore c') (fun _ => saveStoreOf storeBytes c' id)
    | None => ret tt end)) (fun _ => up) up.
Proof.
  intros Ho s Hs. pose proof (runs_up c s Hs) as Hu. unfold bind at 1, lift. destruct o as [c'| | |]; [|done..].
  unfold cluster.GetStore. destruct (basic.GetStore c id) as [x|] eqn:Hx; [|done].
  destruct (skip x) eqn:Hsk; [done|]. destruct (runs_keys c s Hs) as [Hk Hids].
  eapply puts_saved; eauto.
Qed.
Lemma keeps_RemoveStore id : keeps_up (RemoveStore storeBytes saveOk id).
Proof.
  apply core_up. intros c. apply keeps_change. intros x c' Hk Hx Ho. unfold cluster.RemoveStore, cluster.GetStore. rewrite Hx, Ho.
  destruct (store.IsTombstone x); [done|]. by apply change_puts with x.
Qed.
Lemma keeps_BuryStore id force : keeps_up (BuryStore storeBytes saveOk id force).
Proof.
  apply core_up. intros c. apply keeps_change. intros x c' Hk Hx Ho. unfold cluster.BuryStore, cluster.GetStore. rewrite Hx, Ho.
  destruct (_ && _); [done|]. by apply change_puts with x.
Qed.
Lemma keeps_SetStoreState id state : keeps_up (SetStoreState storeBytes saveOk id state).
Proof.
  apply core_up. intros c s Hs. pose proof (runs_up c s Hs) as Hu. destruct (runs_keys c s Hs) as [Hk Hids].
  unfold bind at 1, lift. destruct (cluster.SetStoreState saveOk c id state) as [c'| | |] eqn:Ho; [|done..].
  revert Ho. unfold cluster.SetStoreState, cluster.GetStore. destruct (basic.GetStore c id) as [x|] eqn:Hx; [|done].
  intros Ho. eapply puts_saved; [|by eapply Hids|done]. by eapply (change_puts c id x) in Ho.
Qed.
Lemma keeps_putStore x : store_id (st_Id x) -> keeps_up (putStore storeBytes saveOk x).
Proof.
  intros Hid. apply core_up. intros c s Hs. pose proof (runs_up c s Hs) as Hu. destruct (runs_keys c s Hs) as [Hk Hids].
  unfold bind at 1, lift. destruct (cluster.putStore saveOk c x) as [c'| | |] eqn:Ho; [|done..].
  eapply puts_saved; [|done..]. by apply putStore_puts.
Qed.
Lemma keeps_logged m : keeps_up m -> keeps_up (logged m).
Proof. intros Hm s Hs. specialize (Hm s Hs). unfold logged. by destruct (m s) as [s' []]. Qed.
Lemma keeps_checkStores : keeps_up (checkStores storeBytes saveOk).
Proof.
  apply core_up. intros c s Hs%runs_up. revert s Hs. change (keeps_up (checkStoresLoop storeBytes saveOk (basic.GetStores c))).
  induction (basic.GetStores c) as [|x xs IH]; [by intros s Hs|]. cbn [checkStoresLoop].
  apply keeps_up_bind; [|by intros _]. destruct (_ || _); [by intros s Hs|]. apply core_up. intros c' s Hs%runs_up. revert s Hs.
  destruct (_ =? 0); [|by intros s Hs]. apply keeps_logged, keeps_BuryStore.
Qed.
Lemma keeps_removeTombstones xs :
  (forall x, x ∈ xs -> store_id (store.GetID x)) -> keeps_up (removeTombstones dropOk xs).
Proof.
  induction xs as [|x xs IH]; intros Hx; [by intros s Hs|]. cbn [removeTombstones].
  apply keeps_up_bind; [|intros _; apply IH; intros y Hy; apply Hx; by apply list_elem_of_further].
  destruct (store.IsTombstone x); [|by intros s Hs]. apply core_up. intros c s Hs. pose proof (runs_up c s Hs) as Hu.
  unfold bind at 1, lift, cluster.deleteStoreLocked. destruct (negb _); [done|].
  apply (delete_and_drop c x s Hs), Hx, list_elem_of_here.
Qed.
Lemma keeps_RemoveTombStoneRecords : keeps_up (RemoveTombStoneRecords dropOk).
Proof.
  apply core_up. intros c s Hs. destruct (runs_keys c s Hs) as [Hk Hids]. apply (keeps_removeTombstones (basic.GetStores c)); [|by apply (runs_up c)].
  intros x Hx. unfold basic.GetStores, stores.GetStores in Hx. apply list_elem_of_fmap in Hx as ([id y] & -> & Hin%elem_of_map_to_list).
  change (store_id (store.GetID y)). rewrite (Hk id y Hin). by eapply Hids.
Qed.

(** ** Heartbeats *)
Lemma same_metas_put c x y : keys_ok c -> basic.GetStore c (store.GetID x) = Some y -> si_meta x = si_meta y -> same_metas c (basic.PutStore c x).
Proof.
  intros Hk Hy Hm id. rewrite put_lookup. case_decide as He; [|done]. subst id. rewrite Hy. cbn. by f_equal.
Qed.
Lemma same_metas_trans c1 c2 c3 : same_metas c1 c2 -> same_metas c2 c3 -> same_metas c1 c3.
Proof. intros H1 H2 id. by rewrite H2. Qed.
Lemma same_metas_keys c c' : same_metas c c' -> keys_ok c -> keys_ok c'.
Proof.
  intros Hm Hk id x Hx. specialize (Hm id). rewrite Hx in Hm. destruct (basic.GetStore c id) as [y|] eqn:Hy; [|done].
  injection Hm as Hm. rewrite <- (Hk id y Hy). unfold store.GetID. by rewrite Hm.
Qed.
Lemma status_same c id c' : keys_ok c -> cluster.updateStoreStatusLocked c id = Ret c' -> same_metas c c'.
Proof.
  intros Hk. unfold cluster.updateStoreStatusLocked.
  destruct (basic.GetStoreLeaderRegionSize c id) as [z1|?| |]; [|done..].
  destruct (basic.GetStoreRegionSize c id) as [z2|?| |]; [|done..].
  intros [= <-]. unfold basic.UpdateStoreStatus, stores.UpdateStoreStatus.
  destruct (bc_Stores c !! id) as [x|] eqn:Hx; [|by intros id'].
  apply (same_metas_put c _ x Hk); [|done]. change (basic.GetStore c (store.GetID x) = Some x). by rewrite (Hk id x Hx).
Qed.
Lemma heartbeat_same c region : keys_ok c -> wlp (cluster.processRegionHeartbeat c region) (same_metas c).
Proof.
  intros Hk. unfold cluster.processRegionHeartbeat. destruct (GetRegionEpoch region); [|by intros id].
  destruct (match cluster.GetRegion _ _ with Some _ => _ | None => _ end) as [[]| | |]; [|done..].
  unfold cluster.updateRegion, cluster.putRegion, basic.PutRegion. destruct (regions.SetRegion _ _) as [[rs o]| | |]; [|done..].
  cbv beta iota. apply wlp_foldM; [by intros id|]. intros c1 id Hm _.
  destruct (cluster.updateStoreStatusLocked c1 id) as [c2| | |] eqn:Hu; [|done..].
  eapply same_metas_trans; [exact Hm|]. eapply status_same; [|done]. by eapply same_metas_keys.
Qed.
Lemma keeps_HandleRegionHeartbeat region : keeps_up (HandleRegionHeartbeat (S := S) (K := K) region).
Proof.
  apply core_up. intros c s Hs. pose proof (runs_up c s Hs) as Hu. destruct (runs_keys c s Hs) as [Hk _].
  pose proof (heartbeat_same c region Hk) as Hm. unfold bind at 1, lift.
  destruct (cluster.processRegionHeartbeat c region) as [c'| | |]; [|done..]. cbn.
  destruct (_ =? 0); by eapply same_core.
Qed.
Lemma keeps_RegionHeartbeat b cid req : keeps_up (RegionHeartbeat (S := S) (K := K) b cid req).
Proof.
  apply keeps_up_bind; [intros s Hs; pose proof Hs as [Hn Hr]; unfold validateRequest, bind, gets; cbn; by destruct (_ || _); [|destruct (negb _)]|].
  intros _. apply core_up. intros c s Hs%runs_up. destruct (cluster.GetStore c _); [|done].
  unfold bind at 1, lift. destruct (RegionFromHeartbeat req) as [region| | |]; [|done..].
  destruct (RegionInfo.GetLeader region); [|done]. destruct (_ =? 0); [done|].
  pose proof (keeps_HandleRegionHeartbeat region s Hs) as Hh. by destruct (HandleRegionHeartbeat region s) as [s' []].
Qed.
Lemma keeps_StoreHeartbeat now cid stats : keeps (StoreHeartbeat (S := S) (K := K) now cid stats).
Proof.
  apply keeps_bind; [apply keeps_validate|]. intros _. destruct stats as [stats|]; [|apply keeps_fail].
  intros s Hs. unfold bind at 1, gets, GetRaftCluster. destruct (sv_isServing s), (sv_running s) eqn:Hr; cbn; try done.
  destruct (sv_core s) as [c|] eqn:Hc; [|done]. destruct (checkStore2 c _); [done|].
  assert (Hruns : runs c s) by done. destruct (runs_keys c s Hruns) as [Hk _].
  unfold bind, lift, cluster.handleStoreHeartbeat, cluster.GetStore. destruct (basic.GetStore c (ss_StoreId stats)) as [x|] eqn:Hx; [|done].
  apply (same_core c _ s Hruns), (same_metas_put c _ x Hk); [|done].
  change (basic.GetStore c (store.GetID x) = Some x). by rewrite (Hk _ x Hx).
Qed.

(** ** The other requests *)
Lemma sane_frame s s' :
  sv_clusterID s' = sv_clusterID s -> sv_storage s' = sv_storage s -> sv_running s' = sv_running s ->
  sv_core s' = sv_core s -> sv_meta s' = sv_meta s -> sane s -> sane s'.
Proof. intros E1 E2 E3 E4 E5 [H1 H2 H3]. split; rewrite ?E1, ?E2, ?E3, ?E4, ?E5; done. Qed.
Lemma keeps_allocID : keeps (allocID (S := S) (K := K)).
Proof.
  intros s Hs. unfold allocID. destruct (Alloc _ _) as [[[e a] id]| | |]; [|done..]. by apply (sane_frame s).
Qed.
Lemma keeps_allocIDs n : keeps (allocIDs (S := S) (K := K) n).
Proof.
  induction n as [|n IH]; [apply keeps_ret|]. apply keeps_bind; [apply keeps_allocID|]. intros id.
  apply keeps_bind; [done|]. intros ids. apply keeps_ret.
Qed.
Lemma keeps_validRequestRegion c region : keeps (validRequestRegion (S := S) (K := K) c region).
Proof.
  apply keeps_bind; [apply keeps_lift|]. intros [[r|] p]; [|apply keeps_fail].
  cbv zeta. destruct (_ || _); [apply keeps_fail|apply keeps_ret].
Qed.
Lemma keeps_AskSplit cid region : keeps (AskSplit (S := S) (K := K) cid region).
Proof.
  apply keeps_serving. intros c. apply (triple_pre _ sane); [by intros s [? _]|]. destruct region as [region|]; [|apply keeps_fail].
  apply keeps_bind; [|intros split; apply keeps_ret].
  apply keeps_bind; [apply keeps_validRequestRegion|]. intros _. apply keeps_bind; [apply keeps_allocID|]. intros id.
  apply keeps_bind; [apply keeps_allocIDs|]. intros ids. apply keeps_ret.
Qed.
Lemma keeps_PutStore cid x : store_id (st_Id x) -> keeps (PutStore storeBytes saveOk (S := S) cid x).
Proof.
  intros Hid. apply keeps_serving. intros c s Hs%runs_up. destruct (checkStore2 c _); [apply Hs|].
  pose proof (keeps_putStore x Hid s Hs) as Hp. unfold bind. destruct (putStore _ _ x s) as [s' []]; apply Hp.
Qed.
Lemma keeps_PutClusterConfig cid conf : keeps (PutClusterConfig (S := S) metaBytes cid conf).
Proof.
  apply keeps_serving. intros c s ([H1 H2 H3] & Hr & Hc). unfold putConfig, putMetaLocked, bind, gets. cbn.
  destruct (Z.eqb_spec (cm_Id conf) (sv_clusterID s)) as [He|]; cbn; [|done]. destruct (H3 Hr) as [(c' & Hc' & Hca) _].
  split; [done|by apply stored_aside; [apply aside_cluster|]|]. intros _. cbn.
  split; [exists c'; split; [done|by apply cached_aside; [apply aside_cluster|]]|]. apply LoadMeta_save. by rewrite He.
Qed.
Lemma keeps_UpdateGC cid sp : keeps (UpdateGCSafePoint (S := S) cid sp).
Proof.
  apply keeps_bind.
  { apply keeps_serving. intros c. apply (triple_pre _ sane); [by intros s [? _]|]. apply keeps_bind; [apply keeps_gets|]. intros k.
    apply keeps_bind; [apply keeps_lift|]. intros z. apply keeps_ret. }
  intros [e|old]; [apply keeps_ret|]. unfold updateGC_save. destruct (_ >? _); [|by destruct (_ <? _); apply keeps_ret].
  intros s [H1 H2 H3]. cbn. split; [done|by apply stored_aside; [apply aside_gc|]|]. intros Hr. destruct (H3 Hr) as [(c & Hc & Hca) Hm]. cbn.
  split; [exists c; split; [done|by apply cached_aside; [apply aside_gc|]]|]. rewrite <- Hm. apply LoadMeta_frame.
  unfold SaveGCSafePoint. by rewrite kb_get_save, decide_False.
Qed.
Definition ok_store (x : option Store) : Prop := forall st, x = Some st -> store_id (st_Id st).
(** After [validateRequest] a cluster that [GetRaftCluster] does not give does not run. *)
Definition idle s : Prop := sane s /\ sv_running s = false.
Lemma idle_keeps {A} (m : call A) cid :
  triple idle m (fun _ => sane) sane -> keeps (bind (validateRequest cid) (fun _ => bind (gets GetRaftCluster) (fun oc =>
    match oc with Some _ => ret (Refused ALREADY_BOOTSTRAPPED) | None => bind m (fun _ => ret (Reply tt)) end))).
Proof.
  intros Hm s Hs. unfold bind at 1, validateRequest, bind, gets. cbn.
  destruct (sv_isServing s) eqn:Hsv; cbn; [|done]. destruct (sv_isLeader s); cbn; [|done]. destruct (negb _); cbn; [done|].
  unfold GetRaftCluster. rewrite Hsv. cbn. destruct (sv_running s) eqn:Hr; cbn.
  - destruct (up_runs s (conj Hs Hr)) as (c & _ & _ & ->). done.
  - specialize (Hm s (conj Hs Hr)). by destruct (m s) as [s' []].
Qed.
Lemma ops_sane s x nano : idle s -> store_id (st_Id x) -> sane (s <| sv_storage ::= bootstrapOps storeBytes metaBytes s x nano |>).
Proof.
  intros [[H1 H2 H3] Hr] Hid. split; [done| |cbn; congruence]. cbn. unfold bootstrapOps. cbv zeta.
  apply (stored_save _ x Hid), stored_aside, stored_aside; [apply aside_time|apply aside_cluster|done].
Qed.
Lemma keeps_Bootstrap commit nano cid x : ok_store x -> keeps (Bootstrap storeBytes storeOf metaBytes metaOf ParseFloat one (S := S) commit nano cid x).
Proof.
  intros Hx. apply idle_keeps. intros s Hs. unfold bootstrapCluster, bind, lift, gets. pose proof Hs as [Hn _].
  destruct (checkBootstrapRequest x) as [y| | |] eqn:Hc; [|done..]. cbn.
  assert (Hy : store_id (st_Id y)).
  { apply Hx. destruct x as [x|]; [|done]. cbn in Hc. destruct (_ =? 0); [done|]. by injection Hc as ->. }
  pose proof (ops_sane s y nano Hs Hy) as Hops.
  destruct (kb_get _ _), commit as [|[]]; first [done|exact (start_keeps _ Hops)].
Qed.

Definition ok_request (r : request) : Prop :=
  match r with RBootstrap _ _ _ x => ok_store x | RPutStore _ x => store_id (st_Id x) | _ => True end.
Abbreviation handle := (SchedServer.handle storeBytes storeOf metaBytes metaOf ParseFloat one saveOk dropOk).
Abbreviation serve := (SchedServer.serve storeBytes storeOf metaBytes metaOf ParseFloat one saveOk dropOk).
Lemma keeps_on_running {A} (m : call A) : keeps_up m -> keeps (on_running m).
Proof.
  intros Hm s Hs. unfold on_running, bind at 1, gets, GetRaftCluster.
  destruct (sv_isServing s), (sv_running s) eqn:Hr; cbn; try done. destruct (sv_core s); [|done].
  specialize (Hm s (conj Hs Hr)). unfold bind. destruct (m s) as [s' []]; apply Hm.
Qed.
Lemma keeps_handle r : ok_request r -> keeps (handle r).
Proof.
  assert (Hd : forall A (m : call A), keeps m -> keeps (bind m (fun _ => ret tt))).
  { intros A m Hm. apply keeps_bind; [done|]. intros _. apply keeps_ret. }
  intros Hr. destruct r; cbn in Hr |- *.
  - by apply Hd, keeps_Bootstrap.
  - apply Hd, keeps_bind; [apply keeps_validate|]. intros _. apply keeps_bind; [apply keeps_allocID|]. intros id. apply keeps_ret.
  - by apply Hd, keeps_PutStore.
  - apply Hd, keeps_StoreHeartbeat.
  - apply keeps_on_running, keeps_RegionHeartbeat.
  - apply Hd, keeps_AskSplit.
  - apply Hd, keeps_PutClusterConfig.
  - apply Hd, keeps_UpdateGC.
  - apply keeps_on_running, keeps_RemoveStore.
  - apply keeps_on_running, keeps_BuryStore.
  - apply keeps_on_running, keeps_SetStoreState.
  - apply keeps_on_running, keeps_RemoveTombStoneRecords.
  - apply keeps_on_running, keeps_checkStores.
  - intros s [H1 H2 H3]. split; [done|done|]. cbn. congruence.
  - apply keeps_bind; [apply start_keeps|]. intros _ s Hs. by apply (sane_frame s).
Qed.
Lemma serve_sane rs : forall s, Forall ok_request rs -> sane s -> sane (serve rs s).
Proof.
  intros s Hrs Hs. unfold SchedServer.serve. apply (foldl_inv _ sane); [done|]. intros s' r Hs' Hin.
  rewrite list.Forall_forall in Hrs. pose proof (keeps_handle r (Hrs r Hin) s' Hs') as Hh. by destruct (handle r s') as [s'' []].
Qed.

(** ** What is written *)
(** The writes of the service: the safe point of the garbage collection is only replaced by a later one, and
    nothing removes the cluster. *)
Inductive write : K -> K -> Prop :=
  | write_store k st : write k (SaveStore storeBytes k st)
  | write_delete k st : write k (DeleteStore k st)
  | write_meta k m : write k (SaveMeta metaBytes k m)
  | write_boot s x nano k : write k (bootstrapOps storeBytes metaBytes s x nano k)
  | write_gc k old z : is_u64 z -> LoadGCSafePoint k = Ret old -> old < z -> write k (SaveGCSafePoint k z).
Definition writes {A} (m : call A) : Prop := forall s, rtc write (sv_storage s) (sv_storage (fst (m s))).
Lemma writes_bind {A B} (m : call A) (f : A -> call B) : writes m -> (forall a, writes (f a)) -> writes (bind m f).
Proof.
  intros Hm Hf s. specialize (Hm s). unfold bind. destruct (m s) as [s' [a| | |]]; [|done..]. etrans; [exact Hm|apply Hf].
Qed.
Lemma writes_ret {A} (a : A) : writes (ret a).
Proof. by intros s. Qed.
Lemma writes_fail {A} e : writes (fail (A := A) e).
Proof. by intros s. Qed.
Lemma writes_gets {A} (f : server -> A) : writes (gets f).
Proof. by intros s. Qed.
Lemma writes_lift {X A} inj (o : outcome X A) : writes (lift inj o).
Proof. by intros s. Qed.
Lemma writes_core : writes core.
Proof. by intros s. Qed.
Lemma writes_setCore c : writes (setCore c).
Proof. by intros s. Qed.
Lemma writes_validate cid : writes (validateRequest cid).
Proof. intros s. unfold validateRequest, bind, gets. cbn. by destruct (_ || _); [|destruct (negb _)]. Qed.
Lemma writes_allocID : writes (allocID (S := S) (K := K)).
Proof. intros s. unfold allocID. by destruct (Alloc _ _) as [[[e a] id]| | |]. Qed.
Lemma writes_quiet (g : server -> server) : (forall s, sv_storage (g s) = sv_storage s) -> writes (modify g).
Proof. intros Hg s. cbn. by rewrite Hg. Qed.
Lemma writes_once (g : server -> server) : (forall s, write (sv_storage s) (sv_storage (g s))) -> writes (modify g).
Proof. intros Hg s. by apply rtc_once. Qed.
(** Goes through a handler. *)
Ltac writes_walk :=
  repeat (cbv zeta; match goal with
  | |- writes (bind _ _) => apply writes_bind; [|intros ?]
  | |- writes (serving _ _) => unfold serving
  | |- writes (ret _) => apply writes_ret
  | |- writes (fail _) => apply writes_fail
  | |- writes (gets _) => apply writes_gets
  | |- writes (lift _ _) => apply writes_lift
  | |- writes core => apply writes_core
  | |- writes (setCore _) => apply writes_setCore
  | |- writes (validateRequest _) => apply writes_validate
  | |- writes allocID => apply writes_allocID
  | |- writes (modify _) => first [apply writes_quiet; by intros | apply writes_once; intros ?; constructor]
  | |- writes (match ?x with _ => _ end) => destruct x
  | |- writes (saveStoreOf _ _ _) => unfold saveStoreOf
  end).
Lemma writes_start : writes Start.
Proof. unfold start, loadClusterInfo. writes_walk. Qed.
Lemma writes_Bury id force : writes (BuryStore storeBytes saveOk id force (S := S)).
Proof. unfold BuryStore. writes_walk. Qed.
Lemma writes_checkStores : writes (checkStores storeBytes saveOk (S := S)).
Proof.
  unfold checkStores. writes_walk. generalize (basic.GetStores a). intros xs. induction xs as [|x xs IH]; cbn [checkStoresLoop]; writes_walk; [|done].
  intros s. pose proof (writes_Bury (store.GetID x) false s) as Hb. unfold logged. by destruct (BuryStore _ _ _ _ s) as [s' []].
Qed.
Lemma writes_tombstones : writes (RemoveTombStoneRecords dropOk (S := S)).
Proof.
  unfold RemoveTombStoneRecords. writes_walk. generalize (basic.GetStores a). intros xs.
  induction xs as [|x xs IH]; cbn [removeTombstones]; writes_walk; done.
Qed.
Lemma writes_Bootstrap commit nano cid x : writes (Bootstrap storeBytes storeOf metaBytes metaOf ParseFloat one (S := S) commit nano cid x).
Proof.
  unfold Bootstrap, bootstrapCluster. writes_walk; try apply writes_start.
Qed.
Lemma writes_RegionHeartbeat b cid req : writes (RegionHeartbeat (S := S) (K := K) b cid req).
Proof.
  assert (Hh : forall region, writes (HandleRegionHeartbeat (S := S) (K := K) region)) by (intros region; unfold HandleRegionHeartbeat; writes_walk).
  unfold RegionHeartbeat. writes_walk. intros sv.
  match goal with |- context [HandleRegionHeartbeat ?r sv] => specialize (Hh r sv); by destruct (HandleRegionHeartbeat r sv) as [s' []] end.
Qed.
(** The first half of [UpdateGCSafePoint] reads. *)
Lemma updateGC_load_eq cid s s' z :
  updateGC_load (S := S) cid s = (s', Ret (Reply z)) -> s' = s /\ LoadGCSafePoint (sv_storage s) = Ret z.
Proof.
  unfold updateGC_load, GetGCSafePoint, serving, validateRequest, bind, gets, ret, lift, fail. cbn.
  destruct (_ || _); [done|]. destruct (negb _); [done|]. destruct (GetRaftCluster s); [|done].
  destruct (LoadGCSafePoint (sv_storage s)); [|done..]. by intros [= -> ->].
Qed.
Lemma writes_GC cid z : is_u64 z -> writes (UpdateGCSafePoint (S := S) cid z).
Proof.
  intros Hz s. unfold UpdateGCSafePoint, bind at 1.
  assert (Hl : writes (updateGC_load (S := S) cid)) by (unfold updateGC_load, GetGCSafePoint; writes_walk). specialize (Hl s).
  destruct (updateGC_load cid s) as [s' [[e|old]| | |]] eqn:Hu; [done| |done..].
  apply updateGC_load_eq in Hu as [-> Ho]. unfold updateGC_save.
  destruct (Z.gtb_spec z old) as [Hg|]; [|by destruct (_ <? _)]. cbn. apply rtc_once. by apply (write_gc _ old).
Qed.
Lemma writes_allocIDs n : writes (allocIDs (S := S) (K := K) n).
Proof. induction n as [|n IH]; cbn [allocIDs]; writes_walk. done. Qed.
Definition ok_gc (r : request) : Prop := match r with RUpdateGCSafePoint _ z => is_u64 z | _ => True end.
Lemma writes_handle r : ok_gc r -> writes (handle r).
Proof.
  assert (Ho : forall A (m : call A), writes m -> writes (on_running m)).
  { intros A m Hm. unfold on_running. writes_walk. done. }
  intros Hr. destruct r; cbn in Hr |- *.
  all: unfold AllocID, PutStore, putStore, StoreHeartbeat, AskSplit, handleAskSplit, validRequestRegion, PutClusterConfig, putConfig, putMetaLocked.
  all: try apply Ho; unfold RemoveStore, SetStoreState, stepDown, stop, becomeLeader; writes_walk.
  all: auto using writes_start, writes_Bury, writes_checkStores, writes_tombstones, writes_Bootstrap, writes_RegionHeartbeat, writes_GC, writes_allocIDs.
Qed.
Lemma serve_writes rs : forall s, Forall ok_gc rs -> rtc write (sv_storage s) (sv_storage (serve rs s)).
Proof.
  intros s Hrs. unfold SchedServer.serve. apply (foldl_inv _ (fun s' => rtc write (sv_storage s) (sv_storage s'))); [done|].
  intros s' r Hs' Hin. rewrite list.Forall_forall in Hrs. etrans; [exact Hs'|]. apply writes_handle, Hrs, Hin.
Qed.

(** What no write undoes. *)
Lemma write_cluster k k' : rtc write k k' -> is_Some (kb_get k clusterPath) -> is_Some (kb_get k' clusterPath).
Proof.
  induction 1 as [|k1 k2 k3 Hw _ IH]; [done|]. intros Hk. apply IH. clear IH.
  destruct Hw; unfold SaveStore, DeleteStore, SaveMeta, bootstrapOps, SaveGCSafePoint; rewrite ?kb_get_save, ?kb_get_remove;
    repeat case_decide; done || (exfalso; eapply (proj1 aside_cluster); by symmetry).
Qed.
Lemma write_safe_point k k' z :
  rtc write k k' -> LoadGCSafePoint k = Ret z -> exists z', LoadGCSafePoint k' = Ret z' /\ z <= z'.
Proof.
  intros Hr. revert z. induction Hr as [|k1 k2 k3 Hw _ IH]; intros z Hz; [exists z; split; [done|lia]|].
  assert (Hframe : kb_get k2 (Join gcPath (bytes_of "safe_point")) = kb_get k1 (Join gcPath (bytes_of "safe_point")) ->
    LoadGCSafePoint k2 = LoadGCSafePoint k1) by (intros He; unfold LoadGCSafePoint, kb_Load; by rewrite He).
  pose proof (proj1 aside_gc) as Hgc.
  destruct Hw as [k st|k st|k m|s x nano k|k old z' Hu Ho Hlt].
  1-4: apply IH; rewrite Hframe; [done|]; unfold SaveStore, DeleteStore, SaveMeta, bootstrapOps; cbv zeta;
    rewrite ?kb_get_save, ?kb_get_remove; repeat (rewrite decide_False; [|first [done|intros He; by apply (Hgc _ (eq_sym He))]]); done.
  rewrite Hz in Ho. injection Ho as ->. destruct (IH z' (gc_roundtrip k z' Hu)) as (z2 & Hz2 & Hle). exists z2. split; [done|lia].
Qed.
End Props.

(** ** What the service promises *)
Section Claims.
Context {S K : Type} {HE : Etcd S} {HK : KVBase K} {HL : KVBaseLaws K}.
Context (storeBytes : Store -> list Z) (storeOf : list Z -> option Store).
Context (metaBytes : ClusterMeta -> list Z) (metaOf : list Z -> option ClusterMeta).
Context {F : Type} (ParseFloat : list Z -> option F) (one : F) (saveOk dropOk : Store -> bool).
Abbreviation serve := (SchedServer.serve storeBytes storeOf metaBytes metaOf ParseFloat one saveOk dropOk).
Abbreviation Bootstrap := (SchedServer.Bootstrap storeBytes storeOf metaBytes metaOf ParseFloat one).
Abbreviation becomeLeader := (SchedServer.becomeLeader storeOf metaOf ParseFloat one).
Abbreviation server := (Server S K).
#[local] Opaque clusterPath storePath LoadStores LoadMeta Alloc.

(** C22. Whatever requests, administration and changes of leader a scheduler has been through, another
    server that becomes the leader on the same etcd starts the cluster with exactly the same stores, in
    their addresses and states, and the same configuration. *)
Theorem failover_keeps_stores (rs : list request) (clusterID maxReplicas : Z) (member member' : list Z) (e e' : S) (k : K) :
  (forall st, is_u64 (st_Id st) -> storeOf (storeBytes st) = Some st) ->
  (forall m, metaOf (metaBytes m) = Some m) -> (forall m, metaOf [] = Some m -> cm_Id m = 0) ->
  stored storeOf ParseFloat one k -> clusterID <> 0 -> Forall ok_request rs ->
  let s := serve rs (new_server clusterID maxReplicas member e k) in
  sv_running s = true ->
  exists s' c c',
    becomeLeader (new_server clusterID maxReplicas member' e' (sv_storage s)) = (s', Ret tt) /\
    sv_isLeader s' = true /\ sv_running s' = true /\ sv_meta s' = sv_meta s /\
    sv_core s = Some c /\ sv_core s' = Some c' /\
    forall id, si_meta <$> basic.GetStore c' id = si_meta <$> basic.GetStore c id.
Proof.
  intros L1 L2 L3 Hk Hid Hrs s Hr.
  assert (Hs : sane storeOf metaOf ParseFloat one s) by (apply serve_sane; [done..|]; split; [done|done|discriminate]).
  destruct Hs as [_ Hst Hrun]. destruct (Hrun Hr) as [(c & Hc & Hca) Hm].
  destruct (start_loads storeOf metaOf ParseFloat one (new_server clusterID maxReplicas member' e' (sv_storage s)) (sv_meta s))
    as (c' & Hca' & Hstart); [done..|].
  eexists _, c, c'. unfold SchedServer.becomeLeader, bind. rewrite Hstart. cbn. split_and!; [done..|].
  intros id. destruct Hca as [K1 K2 K3], Hca' as [K1' K2' K3']. cbn [sv_storage new_server] in K3'.
  destruct (basic.GetStore c' id) as [x|] eqn:Hx.
  { rewrite <- (K3 id (K2' id x Hx)), (K3' id (K2' id x Hx)), Hx. done. }
  destruct (basic.GetStore c id) as [y|] eqn:Hy; [|done].
  rewrite <- Hy, <- (K3 id (K2 id y Hy)), (K3' id (K2 id y Hy)), Hx. done.
Qed.

Lemma bootstrap_refused (s : server) commit nano clusterId x :
  is_Some (kb_get (sv_storage s) clusterPath) ->
  snd (Bootstrap commit nano clusterId x s) <> Ret (Reply tt) /\
  sv_storage (fst (Bootstrap commit nano clusterId x s)) = sv_storage s.
Proof.
  intros [v Hv]. unfold SchedServer.Bootstrap, bootstrapCluster, validateRequest, bind, gets, lift, ret, fail. cbn.
  destruct (_ || _); [done|]. destruct (negb _); [done|]. destruct (GetRaftCluster s); [done|].
  destruct (checkBootstrapRequest x); [|done..]. cbn. rewrite Hv. by destruct commit as [|[]].
Qed.
Lemma bootstrap_stores (s s' : server) commit nano clusterId x :
  Bootstrap commit nano clusterId x s = (s', Ret (Reply tt)) -> is_Some (kb_get (sv_storage s') clusterPath).
Proof.
  unfold SchedServer.Bootstrap, bootstrapCluster, validateRequest, bind at 1 2 3 4 5, gets, lift, ret, fail. cbn.
  destruct (_ || _); [done|]. destruct (negb _); [done|]. destruct (GetRaftCluster s); [done|].
  destruct (checkBootstrapRequest x) as [y| | |]; [|done..]. cbn.
  destruct (kb_get _ _); destruct commit as [|[]]; try done. unfold bind, modify.
  match goal with |- context [start _ _ _ _ ?t] => set (s1 := t) end.
  pose proof (writes_start storeBytes storeOf metaBytes metaOf ParseFloat one s1) as Hw.
  destruct (start _ _ _ _ s1) as [s2 [[]| | |]]; try done. intros [= <-]. apply (write_cluster _ _ _ _ Hw). cbn.
  unfold bootstrapOps. rewrite !kb_get_save. repeat case_decide; done || (by eexists).
Qed.
(** C25. A cluster is bootstrapped at most once: after a [Bootstrap] that succeeded, through all requests and
    changes of leader, no other one succeeds or changes what is stored. *)
Theorem bootstrap_once (rs : list request) (s s' : server) commit nano clusterId x commit2 nano2 clusterId2 x2 :
  Forall ok_gc rs ->
  Bootstrap commit nano clusterId x s = (s', Ret (Reply tt)) ->
  let t := serve rs s' in
  snd (Bootstrap commit2 nano2 clusterId2 x2 t) <> Ret (Reply tt) /\
  sv_storage (fst (Bootstrap commit2 nano2 clusterId2 x2 t)) = sv_storage t.
Proof.
  intros Hrs Hb t. apply bootstrap_refused.
  eapply write_cluster; [by apply (serve_writes storeBytes storeOf metaBytes metaOf ParseFloat one saveOk dropOk)|]. by eapply bootstrap_stores.
Qed.

(** C26. The safe point of the garbage collection does not move back as long as requests are handled one after the
    other: an update answers and stores the later of the two, and no other request or change of leader touches what
    is stored.  An update reads the old one and stores the new one in two steps: what it stores depends on what it
    has read and not on what is stored then, so updates that overlap can move it back ([gc_safe_point_race]). *)
Theorem gc_safe_point_monotone (rs : list request) (s : server) (old : Z) :
  Forall ok_gc rs -> LoadGCSafePoint (sv_storage s) = Ret old ->
  (exists new, LoadGCSafePoint (sv_storage (serve rs s)) = Ret new /\ old <= new) /\
  (forall clusterId z s' a, is_u64 z -> UpdateGCSafePoint clusterId z s = (s', Ret (Reply a)) ->
    a = Z.max z old /\ LoadGCSafePoint (sv_storage s') = Ret a) /\
  forall read z, is_u64 z -> LoadGCSafePoint (sv_storage (fst (updateGC_save z read s))) = Ret (if read <? z then z else old).
Proof.
  intros Hrs Hold. split; [|split].
  { eapply write_safe_point; [by apply (serve_writes storeBytes storeOf metaBytes metaOf ParseFloat one saveOk dropOk)|done]. }
  2: { intros read z Hz. unfold updateGC_save. rewrite Z.gtb_ltb.
       destruct (read <? z); [by apply gc_roundtrip|]. by destruct (z <? read). }
  intros cid z s' a Hz. unfold UpdateGCSafePoint, bind at 1.
  destruct (updateGC_load cid s) as [s1 [[e1|o]| | |]] eqn:Hu; [done| |done..].
  apply updateGC_load_eq in Hu as [-> Ho]. rewrite Hold in Ho. injection Ho as <-. unfold updateGC_save.
  destruct (Z.gtb_spec z old); [|destruct (Z.ltb_spec z old)]; intros [= <- <-].
  - split; [lia|by apply gc_roundtrip].
  - split; [lia|done].
  - assert (z = old) as -> by lia. split; [lia|done].
Qed.

(** A bootstrap whose commit is reported as failed and took effect: until a server becomes the leader anew,
    the cluster is not bootstrapped for [IsBootstrapped], and cannot be bootstrapped. *)
Definition down (s : server) : Prop := sv_running s = false /\ is_Some (kb_get (sv_storage s) clusterPath).
Lemma down_serving {A} cid (f : BasicCluster -> st rpc_error server (reply A)) (s : server) : sv_running s = false -> fst (serving cid f s) = s.
Proof.
  intros Hs. unfold serving, validateRequest, bind, gets, ret, fail. cbn.
  destruct (_ || _); [done|]. destruct (negb _); [done|]. unfold GetRaftCluster. rewrite Hs, orb_true_r. done.
Qed.
Lemma down_on_running {A} (m : st rpc_error server A) (s : server) : sv_running s = false -> fst (on_running m s) = s.
Proof. intros Hs. unfold on_running, bind, gets, GetRaftCluster. by rewrite Hs, orb_true_r. Qed.
Lemma fst_bind_ret {A} (m : st rpc_error server A) (s : server) : fst (bind m (fun _ => ret tt) s) = fst (m s).
Proof. unfold bind. by destruct (m s) as [s' []]. Qed.
Lemma down_bootstrap (s : server) commit nano cid x : down s -> fst (Bootstrap commit nano cid x s) = s.
Proof.
  intros [Hs [v Hv]]. unfold SchedServer.Bootstrap, bootstrapCluster, validateRequest, bind, gets, lift, ret, fail. cbn.
  destruct (_ || _); [done|]. destruct (negb _); [done|]. destruct (GetRaftCluster s); [done|].
  destruct (checkBootstrapRequest x); [|done..]. cbn. rewrite Hv. by destruct commit as [|[]].
Qed.
Lemma down_handle r (s : server) :
  r <> RBecomeLeader -> down s ->
  down (fst (SchedServer.handle storeBytes storeOf metaBytes metaOf ParseFloat one saveOk dropOk r s)).
Proof.
  intros Hr Hd. pose proof Hd as [Hs Hc].
  destruct r; cbn [SchedServer.handle]; rewrite ?fst_bind_ret, ?down_on_running by done; try done.
  - by rewrite down_bootstrap.
  - unfold AllocID, validateRequest, bind, gets, fail, ret, allocID. cbn. destruct (_ || _); [done|]. destruct (negb _); [done|].
    by destruct (Alloc (sv_etcd s) (sv_idAllocator s)) as [[[e a] id]| | |].
  - unfold PutStore. by rewrite down_serving.
  - unfold StoreHeartbeat, validateRequest, bind, gets, fail, ret. cbn. destruct (_ || _); [done|]. destruct (negb _); [done|].
    destruct stats; [|done]. unfold GetRaftCluster. by rewrite Hs, orb_true_r.
  - unfold AskSplit. by rewrite down_serving.
  - unfold PutClusterConfig. by rewrite down_serving.
  - assert (Hl : fst (UpdateGCSafePoint clusterId newSafePoint s) = s); [|by rewrite Hl].
    unfold UpdateGCSafePoint, updateGC_load, GetGCSafePoint, serving, validateRequest, bind, gets, fail, ret. cbn.
    destruct (_ || _); [done|]. destruct (negb _); [done|]. unfold GetRaftCluster. by rewrite Hs, orb_true_r.
Qed.
Theorem lost_bootstrap_stuck (rs : list request) (s s' : server) nano clusterId x commit nano2 clusterId2 x2 clusterId3 :
  Forall (fun r => r <> RBecomeLeader) rs -> sv_running s = false -> kb_get (sv_storage s) clusterPath = None ->
  Bootstrap (Failed true) nano clusterId (Some x) s = (s', Err errCommit) -> st_Id x <> 0 ->
  let t := serve rs s' in
  snd (Bootstrap commit nano2 clusterId2 x2 t) <> Ret (Reply tt) /\
  snd (IsBootstrapped clusterId3 t) <> Ret (Reply true).
Proof.
  intros Hrs Hr Hk Hb Hx t.
  assert (Hd : down s').
  { revert Hb. unfold SchedServer.Bootstrap, bootstrapCluster, validateRequest, bind, gets, lift, ret, fail. cbn.
    destruct (_ || _); [done|]. destruct (negb _); [done|]. unfold GetRaftCluster at 1. rewrite Hr, orb_true_r. cbn.
    rewrite (proj2 (Z.eqb_neq _ _) Hx). cbn. rewrite Hk. intros [= <-]. split; [done|]. cbn. unfold bootstrapOps.
    rewrite !kb_get_save. repeat case_decide; done || (by eexists). }
  assert (Ht : down t).
  { unfold t, SchedServer.serve. apply (foldl_inv _ down); [done|]. intros s1 r Hs1 Hin. apply down_handle; [|done].
    rewrite list.Forall_forall in Hrs. by apply Hrs. }
  split; [apply bootstrap_refused, Ht|]. unfold IsBootstrapped, validateRequest, bind, gets, fail, ret. cbn.
  destruct (_ || _); [done|]. destruct (negb _); [done|]. unfold GetRaftCluster. rewrite (proj1 Ht), orb_true_r. done.
Qed.
End Claims.
