(* ===== verification/SchedServerRun.v ===== *)
(** * SchedServerRun: runs of the scheduler

    A scheduler on an empty etcd, with maps for etcd and its storage and a plain encoding:
    where the theorems of [SchedServerProps] apply, and two updates of the safe point of the
    garbage collection that overlap. *)

From stdpp Require Import base option list strings gmap tactics.
From S2P Require Import Prelude.
From S2P Require Import Metapb.
From S2P Require Import RegionInfo.
From S2P Require Import Store.
From S2P Require Import Cluster.
From S2P Require Import Etcd.
From S2P Require Import IdAlloc.
From S2P Require Import SchedStorage.
From S2P Require Import SchedServer.
From S2P Require Import SchedServerProps.

(** ** An encoding *)
Definition stateNum (st : StoreState) : Z :=
  match st with StoreState_Up => 0 | StoreState_Offline => 1 | StoreState_Tombstone => 2 end.
Definition stateOf (z : Z) : StoreState :=
  if z =? 0 then StoreState_Up else if z =? 1 then StoreState_Offline else StoreState_Tombstone.
Definition plainStore (st : Store) : list Z := st_Id st :: stateNum (st_State st) :: st_Address st.
Definition storeOfPlain (v : list Z) : option Store :=
  match v with
  | id :: st :: address => Some (mkStore id address (stateOf st))
  | [] => Some (mkStore 0 [] StoreState_Up)
  | _ => None
  end.
Definition plainMeta (m : ClusterMeta) : list Z := [cm_Id m; cm_MaxPeerCount m].
Definition metaOfPlain (v : list Z) : option ClusterMeta :=
  match v with id :: n :: _ => Some (mkClusterMeta id n) | _ => Some (mkClusterMeta 0 0) end.
Lemma storeOfPlain_bytes st : storeOfPlain (plainStore st) = Some st.
Proof. by destruct st as [id a []]. Qed.
Lemma metaOfPlain_bytes m : metaOfPlain (plainMeta m) = Some m.
Proof. by destruct m. Qed.

Abbreviation sserver := (Server (gmap ekey (list Z)) (gmap (list Z) (list Z))).
Abbreviation noFloat := (fun _ : list Z => @None unit).
Abbreviation yes := (fun _ : Store => true).
Definition sserve : list request -> sserver -> sserver := serve plainStore storeOfPlain plainMeta metaOfPlain noFloat tt yes yes.
Lemma empty_stored : stored (K := gmap (list Z) (list Z)) storeOfPlain noFloat tt ∅.
Proof.
  split.
  - intros p Hg. cbn in Hg. by rewrite lookup_empty in Hg.
  - intros id. split; exists tt; unfold loadFloatWithDefaultValue, kb_Load; cbn [kb_get map_kv]; by rewrite lookup_empty.
Qed.

(** ** A cluster of two stores *)
Definition store1 : Store := mkStore 1 [49] StoreState_Up.
Definition store2 : Store := mkStore 2 [50] StoreState_Up.
Definition fresh : sserver := new_server 7 3 [109] ∅ ∅.
Definition fresh2 (k : gmap (list Z) (list Z)) : sserver := new_server 7 3 [110] ∅ k.
Definition opening : list request := [RBecomeLeader; RBootstrap Committed 5 7 (Some store1); RPutStore 7 store2; RRemoveStore 1].
Lemma opening_ok : Forall ok_request opening /\ Forall ok_gc opening.
Proof.
  assert (H1 : store_id 1) by (split; unfold is_u64, two64; lia). assert (H2 : store_id 2) by (split; unfold is_u64, two64; lia).
  split; repeat (apply list.Forall_cons; split); first [exact I|apply list.Forall_nil_2|exact H2|by intros st [= <-]].
Qed.
Lemma opening_runs : sv_running (sserve opening fresh) = true.
Proof. vm_compute. reflexivity. Qed.

Lemma failover_keeps_stores_witness :
  exists s' c', becomeLeader storeOfPlain metaOfPlain noFloat tt (fresh2 (sv_storage (sserve opening fresh))) = (s', Ret tt) /\
    sv_core s' = Some c' /\ si_meta <$> basic.GetStore c' 1 = Some (mkStore 1 [49] StoreState_Offline).
Proof.
  destruct (failover_keeps_stores plainStore storeOfPlain plainMeta metaOfPlain noFloat tt yes yes opening 7 3 [109] [110] ∅ ∅ ∅)
    as (s' & c & c' & Hb & _ & _ & _ & Hc & Hc' & Hall).
  - intros st _. apply storeOfPlain_bytes.
  - apply metaOfPlain_bytes.
  - by intros m [= <-].
  - apply empty_stored.
  - done.
  - apply opening_ok.
  - apply opening_runs.
  - exists s', c'. split; [exact Hb|]. split; [exact Hc'|]. rewrite Hall.
    assert (Hx : forall c, sv_core (sserve opening fresh) = Some c -> si_meta <$> basic.GetStore c 1 = Some (mkStore 1 [49] StoreState_Offline)).
    { intros c1. vm_compute. intros [= <-]. reflexivity. }
    exact (Hx c Hc).
Defined.

Definition boot (s : sserver) := Bootstrap plainStore storeOfPlain plainMeta metaOfPlain noFloat tt Committed 5 7 (Some store1) s.
Lemma boot_ok : boot (sserve [RBecomeLeader] fresh) = (fst (boot (sserve [RBecomeLeader] fresh)), Ret (Reply tt)).
Proof.
  assert (Hs : snd (boot (sserve [RBecomeLeader] fresh)) = Ret (Reply tt)) by (vm_compute; reflexivity).
  rewrite <- Hs. apply surjective_pairing.
Qed.
Lemma bootstrap_once_witness :
  snd (boot (sserve [RPutStore 7 store2; RStepDown; RBecomeLeader] (fst (boot (sserve [RBecomeLeader] fresh))))) <> Ret (Reply tt).
Proof.
  apply (bootstrap_once plainStore storeOfPlain plainMeta metaOfPlain noFloat tt yes yes
    [RPutStore 7 store2; RStepDown; RBecomeLeader] (sserve [RBecomeLeader] fresh)
    (fst (boot (sserve [RBecomeLeader] fresh))) Committed 5 7 (Some store1) Committed 5 7 (Some store1)).
  - repeat constructor.
  - exact boot_ok.
Defined.

Lemma gc_safe_point_monotone_witness :
  (exists new, LoadGCSafePoint (sv_storage (sserve [RUpdateGCSafePoint 7 5; RUpdateGCSafePoint 7 3] (sserve opening fresh))) = Ret new /\ 0 <= new) /\
  forall s' a, UpdateGCSafePoint 7 9 (sserve opening fresh) = (s', Ret (Reply a)) -> a = 9.
Proof.
  destruct (gc_safe_point_monotone plainStore storeOfPlain plainMeta metaOfPlain noFloat tt yes yes
    [RUpdateGCSafePoint 7 5; RUpdateGCSafePoint 7 3] (sserve opening fresh) 0) as (H1 & H2 & _).
  - repeat constructor; unfold is_u64, two64; lia.
  - vm_compute. reflexivity.
  - split; [exact H1|]. intros s' a Ha. destruct (H2 7 9 s' a) as [-> _]; [unfold is_u64, two64; lia|exact Ha|reflexivity].
Defined.

(** ** Updates that overlap *)
(** One update reads 0 and is overtaken by another, which stores 20 and answers it; then the first stores 10. *)
Definition gc_overlap : Z * Z :=
  let s := sserve opening fresh in
  let (s, old) := updateGC_load 7 s in
  let (s, answered) := UpdateGCSafePoint 7 20 s in
  let (s, _) := updateGC_save 10 (match old with Ret (Reply z) => z | _ => -1 end) s in
  (match answered with Ret (Reply z) => z | _ => -1 end, match LoadGCSafePoint (sv_storage s) with Ret z => z | _ => -1 end).
Theorem gc_safe_point_race : gc_overlap = (20, 10).
Proof. vm_compute. reflexivity. Qed.
