(* ===== verification/SchedClient.v ===== *)
(** * SchedClient: how a store talks to the scheduler

    The interface [Client] of [kv/raftstore/scheduler_client/client.go] as a class, and the
    client of that file on top of the server of [SchedServer]: every call is tried ten
    times.  [faults] says what the network does to the attempts that follow; a call that
    times out may have been served.  The client is taken to know the leader, and the stream
    of region heartbeats is a queue with the request that could not be sent in front. *)

From stdpp Require Import base option list gmap tactics.
From S2P Require Import Prelude.
From S2P Require Import Metapb.
From S2P Require Import RegionInfo.
From S2P Require Import Store.
From S2P Require Import Etcd.
From S2P Require Import SchedStorage.
From S2P Require Import GoMonad.
From S2P Require Import SchedServer.

Inductive client_error := ErrLost | ErrTooManyTimes | ErrHeader (e : ErrorType) | ErrServer (e : rpc_error).
Class SchedulerClient (W : Type) := {
  sc_GetClusterID : W -> Z;
  sc_AllocID : st client_error W Z;
  sc_Bootstrap : Store -> st client_error W (reply unit);
  sc_IsBootstrapped : st client_error W bool;
  sc_PutStore : Store -> st client_error W unit;
  sc_GetStore : Z -> st client_error W Store;
  sc_GetRegion : list Z -> st client_error W (option Region * option Peer);
  sc_GetRegionByID : Z -> st client_error W (option Region * option Peer);
  sc_AskSplit : Region -> st client_error W (Z * list Z);
  sc_StoreHeartbeat : StoreStats -> st client_error W unit;
}.

Inductive fault := Delivered | LostRequest | LostAnswer.
(** [cl_now] is the clock of the server. *)
Record client (S K : Type) := mkClient {
  cl_clusterID : Z;
  cl_server : Server S K;
  cl_faults : list fault;
  cl_now : Z;
}.
Arguments mkClient {S K}.
Arguments cl_clusterID {S K}.
Arguments cl_server {S K}.
Arguments cl_faults {S K}.
Arguments cl_now {S K}.

Section Client.
Context {S K : Type} `{Etcd S, KVBase K}.
Context (storeBytes : Store -> list Z) (storeOf : list Z -> option Store).
Context (metaBytes : ClusterMeta -> list Z) (metaOf : list Z -> option ClusterMeta).
Context {F : Type} (ParseFloat : list Z -> option F) (one : F) (saveOk : Store -> bool).
Abbreviation client := (client S K).
Abbreviation served m c := (let (s, o) := m (cl_server c) in (mkClient (cl_clusterID c) s (tail (cl_faults c)) (cl_now c), o)).

(** One attempt: a request that is lost, served without an answer, or served. *)
Definition attempt {A} (m : st rpc_error (Server S K) A) : st client_error client A := fun c =>
  match hd Delivered (cl_faults c) with
  | LostRequest => (mkClient (cl_clusterID c) (cl_server c) (tail (cl_faults c)) (cl_now c), Err ErrLost)
  | LostAnswer => (fst (served m c), Err ErrLost)
  | Delivered => let (c, o) := served m c in
    (c, match o with Ret a => Ret a | Err e => Err (ErrServer e) | Panic => Panic | OutOfFuel => OutOfFuel end)
  end.
Definition maxRetryCount : nat := 10.
Fixpoint retry {A} (n : nat) (m : st rpc_error (Server S K) A) : st client_error client A :=
  match n with
  | O => fail ErrTooManyTimes
  | Datatypes.S n => fun c => match attempt m c with (c, Err _) => retry n m c | r => r end
  end.
(** [requestHeader] fills in the client's cluster id. *)
Definition doRequest {A} (m : Z -> st rpc_error (Server S K) A) : st client_error client A :=
  do! clusterID <- gets cl_clusterID; retry maxRetryCount (m clusterID).
Definition header {A} (r : reply A) : st client_error client A :=
  match r with Reply a => ret a | Refused e => fail (ErrHeader e) end.

Definition AllocID : st client_error client Z :=
  do! resp <- doRequest (fun cid => SchedServer.AllocID cid);
  ret (match resp with Reply id => id | Refused _ => 0 end).
Definition Bootstrap (x : Store) : st client_error client (reply unit) :=
  do! now <- gets cl_now;
  doRequest (fun cid => SchedServer.Bootstrap storeBytes storeOf metaBytes metaOf ParseFloat one Committed now cid (Some x)).
Definition IsBootstrapped : st client_error client bool :=
  do! resp <- doRequest (fun cid => SchedServer.IsBootstrapped cid); header resp.
Definition PutStore (x : Store) : st client_error client unit :=
  do! resp <- doRequest (fun cid => SchedServer.PutStore storeBytes saveOk cid x); header resp.
Definition GetStore (storeID : Z) : st client_error client Store :=
  do! resp <- doRequest (fun cid => SchedServer.GetStore cid storeID);
  do! r <- header resp; ret (fst r).
Definition GetRegion (key : list Z) : st client_error client (option Region * option Peer) :=
  do! resp <- doRequest (fun cid => SchedServer.GetRegion cid key); header resp.
Definition GetRegionByID (regionID : Z) : st client_error client (option Region * option Peer) :=
  do! resp <- doRequest (fun cid => SchedServer.GetRegionByID cid regionID); header resp.
Definition AskSplit (region : Region) : st client_error client (Z * list Z) :=
  do! resp <- doRequest (fun cid => SchedServer.AskSplit cid (Some region)); header resp.
Definition StoreHeartbeat (stats : StoreStats) : st client_error client unit :=
  do! now <- gets cl_now;
  do! resp <- doRequest (fun cid => SchedServer.StoreHeartbeat now cid (Some stats)); header resp.
#[export] Instance client_SchedulerClient : SchedulerClient client := {|
  sc_GetClusterID := cl_clusterID;
  sc_AllocID := AllocID;
  sc_Bootstrap := Bootstrap;
  sc_IsBootstrapped := IsBootstrapped;
  sc_PutStore := PutStore;
  sc_GetStore := GetStore;
  sc_GetRegion := GetRegion;
  sc_GetRegionByID := GetRegionByID;
  sc_AskSplit := AskSplit;
  sc_StoreHeartbeat := StoreHeartbeat |}.
End Client.

(** ** The stream of region heartbeats *)
Record heartbeats := mkHeartbeats {
  hbs_pending : option RegionHeartbeatRequest;
  hbs_regionCh : list RegionHeartbeatRequest;
  hbs_sent : list RegionHeartbeatRequest;
}.
Definition RegionHeartbeat (c : heartbeats) (request : RegionHeartbeatRequest) : heartbeats :=
  mkHeartbeats (hbs_pending c) (hbs_regionCh c ++ [request]) (hbs_sent c).
Definition getNextHeartbeatRequest (c : heartbeats) : option (RegionHeartbeatRequest * heartbeats) :=
  match hbs_pending c with
  | Some req => Some (req, mkHeartbeats None (hbs_regionCh c) (hbs_sent c))
  | None => match hbs_regionCh c with
            | [] => None
            | req :: ch => Some (req, mkHeartbeats None ch (hbs_sent c))
            end
  end.
(** One round of [reportRegionHeartbeat]; a stream on which a request could not be sent is given up. *)
Definition reportRegionHeartbeat (sendOk : bool) (c : heartbeats) : heartbeats :=
  match getNextHeartbeatRequest c with
  | None => c
  | Some (request, c) =>
    if sendOk then mkHeartbeats (hbs_pending c) (hbs_regionCh c) (hbs_sent c ++ [request])
    else mkHeartbeats (Some request) (hbs_regionCh c) (hbs_sent c)
  end.
(** No heartbeat is lost, sent twice or overtaken, whatever the stream does. *)
Definition reported (c : heartbeats) : list RegionHeartbeatRequest :=
  hbs_sent c ++ match hbs_pending c with Some r => [r] | None => [] end ++ hbs_regionCh c.
Lemma report_keeps sendOk c : reported (reportRegionHeartbeat sendOk c) = reported c.
Proof.
  destruct c as [[r|] [|r' ch] sent], sendOk; unfold reported; cbn; by rewrite <- ?app_assoc.
Qed.
Lemma RegionHeartbeat_last c r : reported (RegionHeartbeat c r) = reported c ++ [r].
Proof. unfold reported. cbn. by rewrite !app_assoc. Qed.
