(* ===== verification/SnapFile.v ===== *)
(** * SnapFile: snapshot files

    [kv/raftstore/snap/snap.go], [snap_builder.go] and [kv/util/file.go].  A snapshot is a
    file for every column family and a file with their sizes and checksums.  The directory
    of a manager is a map from names to contents; a file that is opened for writing keeps
    what it holds, and is written from its beginning on.  Failures of the disk are not
    modelled: an error is a file that is missing or has a wrong size.  An operation returns
    the manager with its result, since what was done before an error stays done.

    The table builder of badger is [sst_build], the encoding of the protobuf messages are
    [metaBytes] and [metaOf]. *)

From stdpp Require Import base option list sorting strings gmap tactics.
From S2P Require Import Prelude.
From S2P Require Import GoHeap.
From S2P Require Import Metapb.
From S2P Require Import Engine.
From S2P Require Import EngineIter.

(** ** Names *)
Record SnapKey := mkSnapKey { sk_RegionID : Z; sk_Term : Z; sk_Index : Z }.
#[export] Instance SnapKey_eq : EqDecision SnapKey.
Proof. solve_decision. Defined.
#[export] Instance SnapKey_countable : Countable SnapKey.
Proof.
  apply (inj_countable' (fun k => (sk_RegionID k, sk_Term k, sk_Index k)) (fun '(r, t, i) => mkSnapKey r t i)).
  by intros [].
Defined.

(** [%d] of a [uint64], which has at most twenty digits. *)
Fixpoint digits (n : nat) (z : Z) (acc : list Z) : list Z :=
  match n with
  | O => acc
  | S n => let acc := (48 + z mod 10) :: acc in if z / 10 =? 0 then acc else digits n (z / 10) acc
  end.
Definition decimal (z : Z) : list Z := digits 20 z [].
Definition SnapKey_String (k : SnapKey) : list Z :=
  decimal (sk_RegionID k) ++ [95] ++ decimal (sk_Term k) ++ [95] ++ decimal (sk_Index k).

Definition snapGenPrefix : list Z := bytes_of "gen".
Definition snapRevPrefix : list Z := bytes_of "rev".
Definition sstFileSuffix : list Z := bytes_of ".sst".
Definition tmpFileSuffix : list Z := bytes_of ".tmp".
Definition metaFileSuffix : list Z := bytes_of ".meta".

(** ** [hash/crc32] with the IEEE polynomial *)
Definition crcBit (c : Z) : Z :=
  if Z.testbit c 0 then Z.lxor (Z.shiftr c 1) 0xEDB88320 else Z.shiftr c 1.
Definition crcByte (c b : Z) : Z := Nat.iter 8 crcBit (Z.lxor c b).
Definition crcUpdate (crc : Z) (bs : list Z) : Z := Z.lxor 0xFFFFFFFF (foldl crcByte (Z.lxor 0xFFFFFFFF crc) bs).
Definition crc32 (bs : list Z) : Z := crcUpdate 0 bs.

Lemma crcUpdate_app c a b : crcUpdate c (a ++ b) = crcUpdate (crcUpdate c a) b.
Proof.
  unfold crcUpdate. rewrite foldl_app. f_equal. f_equal.
  by rewrite <- Z.lxor_assoc, Z.lxor_nilpotent, Z.lxor_0_l.
Qed.
(** The check value of the polynomial. *)
Lemma crc32_check : crc32 (bytes_of "123456789") = 0xCBF43926.
Proof. by vm_compute. Qed.

(** ** Data *)
Record SnapshotCFFile := mkSnapshotCFFile { sc_Cf : list Z; sc_Size : Z; sc_Checksum : Z }.
Definition SnapshotMeta := list SnapshotCFFile.

(** [cf_pairs] is what was added to the table builder, [cf_pos] the position in the open file. *)
Record CFFile := mkCFFile {
  cf_CF : list Z;
  cf_KVCount : Z;
  cf_Size : Z;
  cf_WrittenSize : Z;
  cf_Checksum : Z;
  cf_WriteDigest : Z;
  cf_pairs : list (list Z * list Z);
  cf_pos : Z;
}.
#[export] Instance set_cf_KVCount : Setter cf_KVCount := fun g f =>
  mkCFFile (cf_CF f) (g (cf_KVCount f)) (cf_Size f) (cf_WrittenSize f) (cf_Checksum f) (cf_WriteDigest f) (cf_pairs f) (cf_pos f).
#[export] Instance set_cf_Size : Setter cf_Size := fun g f =>
  mkCFFile (cf_CF f) (cf_KVCount f) (g (cf_Size f)) (cf_WrittenSize f) (cf_Checksum f) (cf_WriteDigest f) (cf_pairs f) (cf_pos f).
#[export] Instance set_cf_WrittenSize : Setter cf_WrittenSize := fun g f =>
  mkCFFile (cf_CF f) (cf_KVCount f) (cf_Size f) (g (cf_WrittenSize f)) (cf_Checksum f) (cf_WriteDigest f) (cf_pairs f) (cf_pos f).
#[export] Instance set_cf_Checksum : Setter cf_Checksum := fun g f =>
  mkCFFile (cf_CF f) (cf_KVCount f) (cf_Size f) (cf_WrittenSize f) (g (cf_Checksum f)) (cf_WriteDigest f) (cf_pairs f) (cf_pos f).
#[export] Instance set_cf_WriteDigest : Setter cf_WriteDigest := fun g f =>
  mkCFFile (cf_CF f) (cf_KVCount f) (cf_Size f) (cf_WrittenSize f) (cf_Checksum f) (g (cf_WriteDigest f)) (cf_pairs f) (cf_pos f).
#[export] Instance set_cf_pairs : Setter cf_pairs := fun g f =>
  mkCFFile (cf_CF f) (cf_KVCount f) (cf_Size f) (cf_WrittenSize f) (cf_Checksum f) (cf_WriteDigest f) (g (cf_pairs f)) (cf_pos f).
#[export] Instance set_cf_pos : Setter cf_pos := fun g f =>
  mkCFFile (cf_CF f) (cf_KVCount f) (cf_Size f) (cf_WrittenSize f) (cf_Checksum f) (cf_WriteDigest f) (cf_pairs f) (g (cf_pos f)).

Record Snap := mkSnap {
  sn_key : SnapKey;
  sn_isSending : bool;
  sn_CFFiles : list CFFile;
  sn_cfIndex : nat;
  sn_Meta : SnapshotMeta;
  sn_holdTmpFiles : bool;
}.
#[export] Instance set_sn_CFFiles : Setter sn_CFFiles := fun g s =>
  mkSnap (sn_key s) (sn_isSending s) (g (sn_CFFiles s)) (sn_cfIndex s) (sn_Meta s) (sn_holdTmpFiles s).
#[export] Instance set_sn_cfIndex : Setter sn_cfIndex := fun g s =>
  mkSnap (sn_key s) (sn_isSending s) (sn_CFFiles s) (g (sn_cfIndex s)) (sn_Meta s) (sn_holdTmpFiles s).
#[export] Instance set_sn_Meta : Setter sn_Meta := fun g s =>
  mkSnap (sn_key s) (sn_isSending s) (sn_CFFiles s) (sn_cfIndex s) (g (sn_Meta s)) (sn_holdTmpFiles s).
#[export] Instance set_sn_holdTmpFiles : Setter sn_holdTmpFiles := fun g s =>
  mkSnap (sn_key s) (sn_isSending s) (sn_CFFiles s) (sn_cfIndex s) (sn_Meta s) (g (sn_holdTmpFiles s)).

(** The file names of a snapshot. *)
Definition namePrefix (isSending : bool) (key : SnapKey) : list Z :=
  (if isSending then snapGenPrefix else snapRevPrefix) ++ [95] ++ SnapKey_String key.
Definition cfPath (s : Snap) (cf : list Z) : list Z :=
  namePrefix (sn_isSending s) (sn_key s) ++ [95] ++ cf ++ sstFileSuffix.
Definition metaPath (s : Snap) : list Z := namePrefix (sn_isSending s) (sn_key s) ++ metaFileSuffix.
Definition tmp (path : list Z) : list Z := path ++ tmpFileSuffix.

(** ** The manager *)
Inductive SnapEntry := SnapEntryGenerating | SnapEntrySending | SnapEntryReceiving | SnapEntryApplying.
#[export] Instance SnapEntry_eq : EqDecision SnapEntry.
Proof. solve_decision. Defined.

Record SnapManager := mkSnapManager {
  sm_files : gmap (list Z) (list Z);
  sm_snapSize : Z;
  sm_registry : gmap SnapKey (list SnapEntry);
  sm_MaxTotalSize : Z;
}.
#[export] Instance set_sm_files : Setter sm_files := fun g m =>
  mkSnapManager (g (sm_files m)) (sm_snapSize m) (sm_registry m) (sm_MaxTotalSize m).
#[export] Instance set_sm_snapSize : Setter sm_snapSize := fun g m =>
  mkSnapManager (sm_files m) (g (sm_snapSize m)) (sm_registry m) (sm_MaxTotalSize m).
#[export] Instance set_sm_registry : Setter sm_registry := fun g m =>
  mkSnapManager (sm_files m) (sm_snapSize m) (g (sm_registry m)) (sm_MaxTotalSize m).

Inductive snap_error :=
  | ErrMissing (path : list Z)
  | ErrCfNumber
  | ErrCfName (cf : list Z)
  | ErrFileSize (path : list Z)
  | ErrChecksum (path : list Z)
  | ErrMetaDecode
  | ErrCorrupted
  | ErrParseName (name : list Z)
  | ErrTooManySnapshots
  | ErrNoMessage
  | ErrEmptyChunk
  | ErrShortWrite
  | ErrEOF
  | ErrStale
  | ErrEngine
  | ErrIngest.

Definition smM (A : Type) := SnapManager -> SnapManager * outcome snap_error A.
Definition sm_ret {A} (a : A) : smM A := fun m => (m, Ret a).
Definition sm_err {A} (e : snap_error) : smM A := fun m => (m, Err e).
Definition sm_panic {A} : smM A := fun m => (m, Panic).
Definition sm_fuel {A} : smM A := fun m => (m, OutOfFuel).
Definition sm_lift {A} (o : outcome snap_error A) : smM A := fun m => (m, o).
Definition sm_bind {A B} (c : smM A) (k : A -> smM B) : smM B := fun m =>
  match c m with
  | (m, Ret a) => k a m
  | (m, Err e) => (m, Err e)
  | (m, Panic) => (m, Panic)
  | (m, OutOfFuel) => (m, OutOfFuel)
  end.
Declare Scope snap_scope.
Delimit Scope snap_scope with snap.
Notation "'do!' p := c 'in' k" := (sm_bind c (fun p => k))
  (at level 10, p pattern, c at level 100, k at level 200) : snap_scope.
Notation "'run!' c 'then' k" := (sm_bind c (fun _ => k))
  (at level 10, c at level 100, k at level 200) : snap_scope.
Open Scope snap_scope.
(** The error is a value of its own: the caller goes on. *)
Definition sm_try {A} (c : smM A) : smM (A + snap_error) := fun m =>
  match c m with
  | (m, Ret a) => (m, Ret (inl a))
  | (m, Err e) => (m, Ret (inr e))
  | (m, Panic) => (m, Panic)
  | (m, OutOfFuel) => (m, OutOfFuel)
  end.
Fixpoint sm_mapM {A B} (f : A -> smM B) (l : list A) : smM (list B) :=
  match l with
  | [] => sm_ret []
  | x :: l => do! y := f x in do! ys := sm_mapM f l in sm_ret (y :: ys)
  end.

(** ** Files *)
Definition FileExists (path : list Z) (m : SnapManager) : bool := bool_decide (is_Some (sm_files m !! path)).
Definition read_file (path : list Z) : smM (list Z) := fun m =>
  (m, match sm_files m !! path with Some c => Ret c | None => Err (ErrMissing path) end).
Definition GetFileSize (path : list Z) : smM Z := do! c := read_file path in sm_ret (len c).
Definition CalcCRC32 (path : list Z) : smM Z := do! c := read_file path in sm_ret (crc32 c).
(** Whether there was a file. *)
Definition DeleteFileIfExists (path : list Z) : smM bool := fun m =>
  (m <| sm_files ::= delete path |>, Ret (FileExists path m)).
(** [os.O_CREATE | os.O_WRONLY]. *)
Definition OpenFile (path : list Z) : smM unit := fun m =>
  (if FileExists path m then m else m <| sm_files ::= <[path := []]> |>, Ret tt).
Definition write_at (path : list Z) (pos : Z) (bs : list Z) : smM unit := fun m =>
  (m <| sm_files ::= fun fs => <[path := overwrite (default [] (fs !! path)) (Z.to_nat pos) bs]> fs |>, Ret tt).
Definition Rename (old new : list Z) : smM unit :=
  do! c := read_file old in
  fun m => (m <| sm_files ::= fun fs => <[new := c]> (delete old fs) |>, Ret tt).
Definition addSnapSize (z : Z) : smM unit := fun m => (m <| sm_snapSize ::= fun s => int64 (s + z) |>, Ret tt).

Definition checkFileSize (path : list Z) (expectedSize : Z) : smM unit :=
  do! size := GetFileSize path in
  if negb (size =? expectedSize) then sm_err (ErrFileSize path) else sm_ret tt.
Definition checkFileChecksum (path : list Z) (expectedChecksum : Z) : smM unit :=
  do! checksum := CalcCRC32 path in
  if negb (checksum =? expectedChecksum) then sm_err (ErrChecksum path) else sm_ret tt.
Definition checkFileSizeAndChecksum (path : list Z) (expectedSize expectedChecksum : Z) : smM unit :=
  run! checkFileSize path expectedSize then checkFileChecksum path expectedChecksum.

(** ** Snapshots *)
Definition snapExists (s : Snap) (m : SnapManager) : bool :=
  forallb (fun f => negb ((cf_Size f >? 0) && negb (FileExists (cfPath s (cf_CF f)) m))) (sn_CFFiles s)
  && FileExists (metaPath s) m.

Definition TotalSize (s : Snap) : Z := foldl (fun total f => total ⊞ cf_Size f) 0 (sn_CFFiles s).

(** [Delete] and [DeleteSnapshot] of the manager. *)
Definition snapDelete (s : Snap) : smM unit :=
  do! _ := sm_mapM (fun f =>
             run! (if sn_holdTmpFiles s then run! DeleteFileIfExists (tmp (cfPath s (cf_CF f))) then sm_ret tt else sm_ret tt) then
             do! deleted := DeleteFileIfExists (cfPath s (cf_CF f)) in
             if deleted : bool then addSnapSize (int64 (- cf_Size f)) else sm_ret tt) (sn_CFFiles s) in
  run! DeleteFileIfExists (metaPath s) then
  if sn_holdTmpFiles s then run! DeleteFileIfExists (tmp (metaPath s)) then sm_ret tt else sm_ret tt.
Definition DeleteSnapshot (key : SnapKey) (snapshot : Snap) (checkEntry : bool) : smM bool := fun m =>
  let registered := match sm_registry m !! key with
                    | Some e => if checkEntry then len e >? 0 else true
                    | None => false
                    end in
  if registered then (m, Ret false) else (run! snapDelete snapshot then sm_ret true) m.
(** The loop sleeps between two attempts. *)
Fixpoint retryDelete (n : nat) (key : SnapKey) (s : Snap) : smM bool :=
  match n with
  | O => sm_ret false
  | S n => do! deleted := DeleteSnapshot key s true in if deleted : bool then sm_ret true else retryDelete n key s
  end.
Definition deleteRetryMaxTime : nat := 6.
Definition retryDeleteSnapshot (key : SnapKey) (s : Snap) : smM bool := retryDelete deleteRetryMaxTime key s.

Section Snap.
Context (metaBytes : SnapshotMeta -> list Z) (metaOf : list Z -> option SnapshotMeta).
Context (sst_build : list (list Z * list Z) -> list Z).

(** *** Opening *)
Definition readSnapshotMeta (s : Snap) : smM SnapshotMeta :=
  do! buf := read_file (metaPath s) in
  match metaOf buf with Some meta => sm_ret meta | None => sm_err ErrMetaDecode end.

(** The files with what the metadata says, up to the first error. *)
Fixpoint setMetaLoop (s : Snap) (files : list CFFile) (meta : SnapshotMeta) : smM (list CFFile * option snap_error) :=
  match files, meta with
  | f :: files, c :: meta =>
    if negb (bool_decide (sc_Cf c = cf_CF f)) then sm_ret (f :: files, Some (ErrCfName (sc_Cf c))) else
    do! err := (fun m => if FileExists (cfPath s (cf_CF f)) m
                         then sm_try (checkFileSize (cfPath s (cf_CF f)) (sc_Size c)) m
                         else (m, Ret (inl tt))) in
    match err with
    | inr e => sm_ret (f :: files, Some e)
    | inl _ =>
      do! (files, err) := setMetaLoop s files meta in
      sm_ret (f <| cf_Size := sc_Size c |> <| cf_Checksum := sc_Checksum c |> :: files, err)
    end
  | [], _ => sm_ret ([], None)
  | _ :: _, [] => sm_panic
  end.
Definition setSnapshotMeta (s : Snap) (snapshotMeta : SnapshotMeta) : smM (Snap * option snap_error) :=
  if negb (len snapshotMeta =? len (sn_CFFiles s)) then sm_ret (s, Some ErrCfNumber) else
  do! (files, err) := setMetaLoop s (sn_CFFiles s) snapshotMeta in
  let s := s <| sn_CFFiles := files |> in
  match err with
  | Some e => sm_ret (s, Some e)
  | None => sm_ret (s <| sn_Meta := snapshotMeta |>, None)
  end.
Definition loadSnapMeta (s : Snap) : smM (Snap * option snap_error) :=
  do! read := sm_try (readSnapshotMeta s) in
  match read with
  | inr e => sm_ret (s, Some e)
  | inl snapshotMeta =>
    do! (s, err) := setSnapshotMeta s snapshotMeta in
    match err with
    | Some e => sm_ret (s, Some e)
    | None => fun m => (m, Ret (s, if snapExists s m then None else Some ErrCorrupted))
    end
  end.

Definition newCFFile (cf : list Z) : CFFile := mkCFFile cf 0 0 0 0 0 [] 0.
Definition NewSnap (key : SnapKey) (isSending toBuild : bool) : smM Snap :=
  let s := mkSnap key isSending (map newCFFile CFs) 0 [] false in
  fun m =>
  if FileExists (metaPath s) m then
    (do! (s, err) := loadSnapMeta s in
     match err with
     | None => sm_ret s
     | Some err =>
       if negb toBuild then sm_err err else
       do! deleted := retryDeleteSnapshot key s in
       if deleted : bool then sm_ret s else sm_err err
     end) m
  else (m, Ret s).

Definition initForBuilding (s : Snap) : smM Snap := fun m =>
  if snapExists s m then (m, Ret s) else
  (run! OpenFile (tmp (metaPath s)) then
   do! files := sm_mapM (fun f => run! OpenFile (tmp (cfPath s (cf_CF f))) then
                                  sm_ret (f <| cf_pairs := [] |> <| cf_pos := 0 |>)) (sn_CFFiles s) in
   sm_ret (s <| sn_CFFiles := files |> <| sn_holdTmpFiles := true |>)) m.
Definition NewSnapForBuilding (key : SnapKey) : smM Snap :=
  do! s := NewSnap key true true in initForBuilding s.
Definition NewSnapForSending (key : SnapKey) : smM Snap :=
  do! s := NewSnap key true false in
  fun m =>
  if negb (snapExists s m) then (m, Ret s) else
  (do! files := sm_mapM (fun f => if cf_Size f >? 0
                                  then run! read_file (cfPath s (cf_CF f)) then sm_ret (f <| cf_pos := 0 |>)
                                  else sm_ret f) (sn_CFFiles s) in
   sm_ret (s <| sn_CFFiles := files |>)) m.
Definition NewSnapForReceiving (key : SnapKey) (snapshotMeta : SnapshotMeta) : smM Snap :=
  do! s := NewSnap key false false in
  do! (s, err) := setSnapshotMeta s snapshotMeta in
  match err with
  | Some e => sm_err e
  | None => fun m =>
    if snapExists s m then (m, Ret s) else
    (run! OpenFile (tmp (metaPath s)) then
     do! files := sm_mapM (fun f => if cf_Size f =? 0 then sm_ret f else
                                    run! OpenFile (tmp (cfPath s (cf_CF f))) then
                                    sm_ret (f <| cf_pos := 0 |> <| cf_WriteDigest := 0 |>)) (sn_CFFiles s) in
     sm_ret (s <| sn_CFFiles := files |> <| sn_holdTmpFiles := true |>)) m
  end.
Definition NewSnapForApplying (key : SnapKey) : smM Snap := NewSnap key false false.

(** *** Building *)
Definition genSnapshotMeta (cfFiles : list CFFile) : smM SnapshotMeta :=
  sm_mapM (fun f => if existsb (fun cf => bool_decide (cf = cf_CF f)) CFs
                    then sm_ret (mkSnapshotCFFile (cf_CF f) (cf_Size f) (cf_Checksum f))
                    else sm_err (ErrCfName (cf_CF f))) cfFiles.
Definition saveCFFile (s : Snap) (f : CFFile) : smM CFFile :=
  let path := cfPath s (cf_CF f) in
  run! (if cf_KVCount f >? 0 then write_at (tmp path) (cf_pos f) (sst_build (cf_pairs f)) else sm_ret tt) then
  do! size := GetFileSize (tmp path) in
  if size >? 0 then
    run! Rename (tmp path) path then
    run! addSnapSize size then
    do! checksum := CalcCRC32 path in
    sm_ret (f <| cf_Size := size |> <| cf_Checksum := checksum |>)
  else
    run! DeleteFileIfExists (tmp path) then sm_ret f.
Definition saveCFFiles (s : Snap) : smM Snap :=
  do! files := sm_mapM (saveCFFile s) (sn_CFFiles s) in sm_ret (s <| sn_CFFiles := files |>).
Definition saveMetaFile (s : Snap) : smM Snap :=
  run! write_at (tmp (metaPath s)) 0 (metaBytes (sn_Meta s)) then
  run! Rename (tmp (metaPath s)) (metaPath s) then
  sm_ret (s <| sn_holdTmpFiles := false |>).

(** [snapBuilder.build]: the files with the pairs of the region, and the counts. *)
Section Build.
Context {D : Type} `{Badger D}.
Definition buildFile (txn : D) (region : Region) (f : CFFile) : outcome snap_error CFFile :=
  iterFrom (NewCFIterator (cf_CF f) txn) (rg_StartKey region)
    (fun f key value =>
       if ExceedEndKey key (rg_EndKey region) then Ret (f, true) else
       let cfKey := wb.KeyWithCF (cf_CF f) key in
       Ret (f <| cf_pairs ::= fun l => l ++ [(cfKey, value)] |> <| cf_KVCount ::= Z.add 1 |>
              <| cf_Size ::= fun s => s ⊞ (len cfKey + len value) |>, false)) f.
Fixpoint buildFiles (txn : D) (region : Region) (files : list CFFile) : outcome snap_error (list CFFile) :=
  match files with
  | [] => Ret []
  | f :: files => let! f := buildFile txn region f in let! files := buildFiles txn region files in Ret (f :: files)
  end.
Definition build (txn : D) (region : Region) (files : list CFFile) : outcome snap_error (list CFFile * Z * Z) :=
  let! files := buildFiles txn region files in
  Ret (files, foldl (fun n f => n + cf_KVCount f) 0 files, foldl (fun n f => n + int64 (cf_Size f)) 0 files).

(** The snapshot, the file size and metadata for the snapshot data, and the number of pairs.
    [validate] accepts everything, so an existing snapshot is used as it is. *)
Definition Build (txn : D) (region : Region) (s : Snap) : smM (Snap * Z * SnapshotMeta * Z) := fun m =>
  if snapExists s m then (m, Ret (s, TotalSize s, sn_Meta s, 0)) else
  (do! (files, kvCount, _) := sm_lift (build txn region (sn_CFFiles s)) in
   do! s := saveCFFiles (s <| sn_CFFiles := files |>) in
   do! snapshotMeta := genSnapshotMeta (sn_CFFiles s) in
   do! s := saveMetaFile (s <| sn_Meta := snapshotMeta |>) in
   sm_ret (s, TotalSize s, sn_Meta s, kvCount)) m.
End Build.

(** *** Sending and receiving *)
(** [Read]: up to [n] bytes of the current file, and [io.EOF] after the last one. *)
Fixpoint readLoop (k : nat) (s : Snap) (n : Z) : smM (Snap * list Z) :=
  match k with
  | O => sm_fuel
  | S k =>
    match sn_CFFiles s !! sn_cfIndex s with
    | None => sm_err ErrEOF
    | Some f =>
      let next := s <| sn_cfIndex ::= S |> in
      if cf_Size f =? 0 then readLoop k next n else
      do! content := read_file (cfPath s (cf_CF f)) in
      let bs := take (Z.to_nat n) (drop (Z.to_nat (cf_pos f)) content) in
      if len bs >? 0
      then sm_ret (s <| sn_CFFiles ::= <[sn_cfIndex s := f <| cf_pos ::= Z.add (len bs) |>]> |>, bs)
      else readLoop k next n
    end
  end.
Definition snapRead (s : Snap) (n : Z) : smM (Snap * list Z) :=
  if n =? 0 then sm_ret (s, []) else readLoop (S (length (sn_CFFiles s))) s n.

(** [Write]: the number of bytes written. *)
Definition writePart (s : Snap) (f : CFFile) (bs : list Z) : smM Snap :=
  run! write_at (tmp (cfPath s (cf_CF f))) (cf_pos f) bs then
  sm_ret (s <| sn_CFFiles ::= <[sn_cfIndex s :=
            f <| cf_WriteDigest ::= fun d => crcUpdate d bs |> <| cf_WrittenSize ::= fun w => w ⊞ len bs |>
              <| cf_pos ::= Z.add (len bs) |>]> |>).
Fixpoint writeLoop (k : nat) (s : Snap) (total : Z) (nextBuf : list Z) : smM (Snap * Z) :=
  match k with
  | O => sm_fuel
  | S k =>
    match sn_CFFiles s !! sn_cfIndex s with
    | None => sm_ret (s, total - len nextBuf)
    | Some f =>
      let next s := s <| sn_cfIndex ::= S |> in
      if cf_Size f =? 0 then writeLoop k (next s) total nextBuf else
      let left := cf_Size f ⊟ cf_WrittenSize f in
      if left =? 0 then writeLoop k (next s) total nextBuf else
      if len nextBuf >? int64 left then
        do! bs := sm_lift (slice_to nextBuf left) in
        do! s := writePart s f bs in
        do! rest := sm_lift (slice_from nextBuf left) in
        writeLoop k (next s) total rest
      else
        do! s := writePart s f nextBuf in sm_ret (s, total)
    end
  end.
Definition snapWrite (s : Snap) (b : list Z) : smM (Snap * Z) :=
  if len b =? 0 then sm_ret (s, 0) else writeLoop (S (length (sn_CFFiles s))) s (len b) b.

Definition saveReceived (s : Snap) (f : CFFile) : smM unit :=
  let path := cfPath s (cf_CF f) in
  if cf_Size f =? 0 then sm_ret tt else
  if negb (cf_WrittenSize f =? cf_Size f) then sm_err (ErrFileSize path) else
  if negb (cf_Checksum f =? cf_WriteDigest f) then sm_err (ErrChecksum path) else
  run! Rename (tmp path) path then addSnapSize (int64 (cf_Size f)).
Definition Save (s : Snap) : smM Snap :=
  do! _ := sm_mapM (saveReceived s) (sn_CFFiles s) in
  run! write_at (tmp (metaPath s)) 0 (metaBytes (sn_Meta s)) then
  run! Rename (tmp (metaPath s)) (metaPath s) then
  sm_ret (s <| sn_holdTmpFiles := false |>).

(** *** Applying *)
Definition Apply {D} (ingest : D -> list (list Z) -> option D) (db : D) (s : Snap) : smM D :=
  do! externalFiles := sm_mapM (fun f => read_file (cfPath s (cf_CF f)))
                         (filter (fun f => cf_Size f <> 0) (sn_CFFiles s)) in
  match ingest db externalFiles with Some db => sm_ret db | None => sm_err ErrIngest end.

Definition Drop (s : Snap) : smM unit := fun m =>
  if existsb (fun f => FileExists (tmp (cfPath s (cf_CF f))) m) (sn_CFFiles s) || FileExists (tmp (metaPath s)) m
  then snapDelete s m
  else if negb (snapExists s m) then snapDelete s m else (m, Ret tt).
End Snap.
