(* ===== verification/PeerStorage.v ===== *)
(** * PeerStorage: the Raft storage of a peer on disk

    [PeerStorage] of [kv/raftstore/peer_storage.go] with the initial states of
    [kv/raftstore/meta/values.go]: the second implementation of the [Storage] interface,
    over two engines.  The Raft and apply states and the log entries are the bytes the
    generated code writes.  Tasks sent to the region worker are collected in a list, and
    the channel a generated snapshot comes back on is its content.  The encoding of the
    region state and the region inside the snapshot data are parameters. *)

From stdpp Require Import base option list strings gmap tactics.
From S2P Require Import Prelude.
From S2P Require Import Wire.
From S2P Require Import Eraftpb.
From S2P Require Import EraftpbWire.
From S2P Require Import EraftpbRound.
From S2P Require Import RaftServerpb.
From S2P Require Import RaftStorage.
From S2P Require Import RawNode.
From S2P Require Import Meta.
From S2P Require Import Metapb.
From S2P Require Import Engine.

Definition isHardStateEqual (a b : HardState) : bool :=
  (hs_Term a =? hs_Term b) && (hs_Vote a =? hs_Vote b) && (hs_Commit a =? hs_Commit b).
Definition IsEmptyHardState (st : HardState) : bool := isHardStateEqual st zero_HardState.

Definition RaftInitLogTerm : Z := 5.
Definition RaftInitLogIndex : Z := 5.

Inductive SnapStateType := SnapState_Relax | SnapState_Generating | SnapState_Applying.
Inductive PeerState := PeerState_Normal | PeerState_Tombstone.

(** Tasks for the region worker. *)
Inductive region_task :=
  | RegionTaskGen (RegionId : Z)
  | RegionTaskApply (RegionId : Z) (SnapMeta : SnapshotMetadata) (StartKey EndKey : list Z)
  | RegionTaskDestroy (RegionId : Z) (StartKey EndKey : list Z).

Record ApplySnapResult := mkApplySnapResult { as_PrevRegion : Region; as_Region : Region }.

Section PeerStorage.
Context {D : Type} `{Badger D}.
(** The bytes of a [RegionLocalState], and the region of a [RaftSnapshotData]: [None] when
    the bytes are not such a message. *)
Context (regionStateBytes : PeerState -> Region -> list Z).
Context (snapRegion : option (list Z) -> option (option Region)).

Record PeerStorage := mkPeerStorage {
  ps_region : Region;
  ps_raftState : RaftLocalState;
  ps_applyState : RaftApplyState;
  ps_snapState : SnapStateType;
  (** nothing in the channel, or a snapshot pointer *)
  ps_receiver : option (option Snapshot);
  ps_snapTriedCnt : Z;
  ps_raft : D;
  ps_kv : D;
  ps_tasks : list region_task;
}.
#[export] Instance set_ps_region : Setter ps_region := fun g p =>
  mkPeerStorage (g (ps_region p)) (ps_raftState p) (ps_applyState p) (ps_snapState p) (ps_receiver p) (ps_snapTriedCnt p) (ps_raft p) (ps_kv p) (ps_tasks p).
#[export] Instance set_ps_raftState : Setter ps_raftState := fun g p =>
  mkPeerStorage (ps_region p) (g (ps_raftState p)) (ps_applyState p) (ps_snapState p) (ps_receiver p) (ps_snapTriedCnt p) (ps_raft p) (ps_kv p) (ps_tasks p).
#[export] Instance set_ps_applyState : Setter ps_applyState := fun g p =>
  mkPeerStorage (ps_region p) (ps_raftState p) (g (ps_applyState p)) (ps_snapState p) (ps_receiver p) (ps_snapTriedCnt p) (ps_raft p) (ps_kv p) (ps_tasks p).
#[export] Instance set_ps_snapState : Setter ps_snapState := fun g p =>
  mkPeerStorage (ps_region p) (ps_raftState p) (ps_applyState p) (g (ps_snapState p)) (ps_receiver p) (ps_snapTriedCnt p) (ps_raft p) (ps_kv p) (ps_tasks p).
#[export] Instance set_ps_receiver : Setter ps_receiver := fun g p =>
  mkPeerStorage (ps_region p) (ps_raftState p) (ps_applyState p) (ps_snapState p) (g (ps_receiver p)) (ps_snapTriedCnt p) (ps_raft p) (ps_kv p) (ps_tasks p).
#[export] Instance set_ps_snapTriedCnt : Setter ps_snapTriedCnt := fun g p =>
  mkPeerStorage (ps_region p) (ps_raftState p) (ps_applyState p) (ps_snapState p) (ps_receiver p) (g (ps_snapTriedCnt p)) (ps_raft p) (ps_kv p) (ps_tasks p).
#[export] Instance set_ps_raft : Setter ps_raft := fun g p =>
  mkPeerStorage (ps_region p) (ps_raftState p) (ps_applyState p) (ps_snapState p) (ps_receiver p) (ps_snapTriedCnt p) (g (ps_raft p)) (ps_kv p) (ps_tasks p).
#[export] Instance set_ps_kv : Setter ps_kv := fun g p =>
  mkPeerStorage (ps_region p) (ps_raftState p) (ps_applyState p) (ps_snapState p) (ps_receiver p) (ps_snapTriedCnt p) (ps_raft p) (g (ps_kv p)) (ps_tasks p).
#[export] Instance set_ps_tasks : Setter ps_tasks := fun g p =>
  mkPeerStorage (ps_region p) (ps_raftState p) (ps_applyState p) (ps_snapState p) (ps_receiver p) (ps_snapTriedCnt p) (ps_raft p) (ps_kv p) (g (ps_tasks p)).
Implicit Types (ps : PeerStorage).

(** ** Initial states *)
Abbreviation eresult A := (outcome engine_error A).
Definition GetRaftLocalState (db : D) (regionId : Z) : eresult RaftLocalState := GetMeta db (RaftStateKey regionId).
Definition GetApplyState (db : D) (regionId : Z) : eresult RaftApplyState := GetMeta db (ApplyStateKey regionId).
Definition GetRaftEntry (db : D) (regionId idx : Z) : eresult Entry := GetMeta db (RaftLogKey regionId idx).

Definition wire_as_engine {A} (o : outcome wire_error A) : eresult A :=
  match o with Ret a => Ret a | Err e => Err (ErrDecode e) | Panic => Panic | OutOfFuel => OutOfFuel end.

Definition InitRaftLocalState (raftEngine : D) (region : Region) : eresult (D * RaftLocalState) :=
  match GetRaftLocalState raftEngine (rg_Id region) with
  | Ret raftState => Ret (raftEngine, raftState)
  | Err ErrKeyNotFound =>
    if len (rg_Peers region) >? 0 then
      let raftState := mkLocalState (Some (mkHardState RaftInitLogTerm 0 RaftInitLogIndex None))
                         RaftInitLogIndex RaftInitLogTerm None in
      let! db := wire_as_engine (PutMeta raftEngine (RaftStateKey (rg_Id region)) raftState) in
      Ret (db, raftState)
    else Ret (raftEngine, mkLocalState (Some zero_HardState) 0 0 None)
  | Err e => Err e
  | Panic => Panic
  | OutOfFuel => OutOfFuel
  end.

Definition InitApplyState (kvEngine : D) (region : Region) : eresult (D * RaftApplyState) :=
  match GetApplyState kvEngine (rg_Id region) with
  | Ret applyState => Ret (kvEngine, applyState)
  | Err ErrKeyNotFound =>
    let applyState :=
      if len (rg_Peers region) >? 0
      then mkApplyState RaftInitLogIndex (Some (mkTruncatedState RaftInitLogIndex RaftInitLogTerm None)) None
      else mkApplyState 0 (Some zero_RaftTruncatedState) None in
    let! db := wire_as_engine (PutMeta kvEngine (ApplyStateKey (rg_Id region)) applyState) in
    Ret (db, applyState)
  | Err e => Err e
  | Panic => Panic
  | OutOfFuel => OutOfFuel
  end.

Definition NewPeerStorage (raft kv : D) (region : Region) : eresult PeerStorage :=
  let! (raft, raftState) := InitRaftLocalState raft region in
  let! (kv, applyState) := InitApplyState kv region in
  if rl_LastIndex raftState <? ra_AppliedIndex applyState then Panic else
  Ret (mkPeerStorage region raftState applyState SnapState_Relax None 0 raft kv []).

(** ** The [Storage] interface *)
Abbreviation result A := (outcome error A).

Definition truncated ps : result RaftTruncatedState := deref (ra_TruncatedState (ps_applyState ps)).
Definition truncatedIndex ps : result Z := let! t := truncated ps in Ret (rt_Index t).
Definition truncatedTerm ps : result Z := let! t := truncated ps in Ret (rt_Term t).
Definition AppliedIndex ps : Z := ra_AppliedIndex (ps_applyState ps).
Definition isInitialized ps : bool := len (rg_Peers (ps_region ps)) >? 0.
Definition SetRegion ps (region : Region) : PeerStorage := ps <| ps_region := region |>.

Definition ConfStateFromRegion (region : Region) : ConfState := mkConfState (map p_Id (rg_Peers region)) None.

Definition InitialState ps : result (HardState * ConfState) :=
  let! hs := deref (rl_HardState (ps_raftState ps)) in
  if IsEmptyHardState hs then
    if isInitialized ps then Panic else Ret (zero_HardState, mkConfState [] None)
  else Ret (hs, ConfStateFromRegion (ps_region ps)).

Definition checkRange ps (low high : Z) : result unit :=
  if low >? high then Err (ErrMsg "low is greater than high") else
  let! ti := truncatedIndex ps in
  if low <=? ti then Err ErrCompacted else
  if high >? rl_LastIndex (ps_raftState ps) ⊞ 1 then Err (ErrMsg "entries' high is out of bound") else
  Ret tt.

(** The iteration of [Entries], over what the iterator visits. *)
Fixpoint entriesLoop (it : list (list Z * list Z)) (endKey : list Z) (nextIndex : Z) (buf : list Entry)
    : result (list Entry) :=
  match it with
  | [] => Ret buf
  | (key, val) :: it =>
    if Compare key endKey >=? 0 then Ret buf else
    match Entry_Unmarshal zero_Entry val with
    | Ret entry =>
      if negb (e_Index entry =? nextIndex) then Ret buf
      else entriesLoop it endKey (nextIndex ⊞ 1) (buf ++ [entry])
    | Err _ => Err (ErrMsg "unmarshal")
    | Panic => Panic
    | OutOfFuel => OutOfFuel
    end
  end.
Definition Entries ps (low high : Z) : result (list Entry) :=
  let! _ := checkRange ps low high in
  if low =? high then Ret [] else
  let startKey := RaftLogKey (rg_Id (ps_region ps)) low in
  let endKey := RaftLogKey (rg_Id (ps_region ps)) high in
  let! buf := entriesLoop (db_from (ps_raft ps) startKey) endKey low [] in
  if len buf =? int64 (high ⊟ low) then Ret buf else Err ErrUnavailable.

Definition Term ps (idx : Z) : result Z :=
  let! ti := truncatedIndex ps in
  if idx =? ti then truncatedTerm ps else
  let! _ := checkRange ps idx (idx ⊞ 1) in
  let! tTerm := truncatedTerm ps in
  let st := ps_raftState ps in
  if (tTerm =? rl_LastTerm st) || (idx =? rl_LastIndex st) then Ret (rl_LastTerm st) else
  match GetRaftEntry (ps_raft ps) (rg_Id (ps_region ps)) idx with
  | Ret entry => Ret (e_Term entry)
  | Err _ => Err (ErrMsg "get meta")
  | Panic => Panic
  | OutOfFuel => OutOfFuel
  end.
Definition LastIndex ps : result Z := Ret (rl_LastIndex (ps_raftState ps)).
Definition FirstIndex ps : result Z := let! ti := truncatedIndex ps in Ret (ti ⊞ 1).

Definition validateSnap ps (snap : Snapshot) : result bool :=
  let idx := match s_Metadata snap with Some md => sm_Index md | None => 0 end in
  let! ti := truncatedIndex ps in
  if idx <? ti then Ret false else
  match snapRegion (s_Data snap) with
  | None => Ret false
  | Some region =>
    let confVer (e : option RegionEpoch) := match e with Some e => ep_ConfVer e | None => 0 end in
    let snapEpoch := match region with Some r => rg_RegionEpoch r | None => None end in
    Ret (negb (confVer snapEpoch <? confVer (rg_RegionEpoch (ps_region ps))))
  end.

(** The end of [Snapshot]: give up after five times, or ask for a new one. *)
Definition requestSnapshot ps : PeerStorage * result Snapshot :=
  if ps_snapTriedCnt ps >=? 5
  then (ps <| ps_snapTriedCnt := 0 |>, Err (ErrMsg "failed to get snapshot"))
  else (ps <| ps_snapTriedCnt ::= Z.add 1 |> <| ps_snapState := SnapState_Generating |>
           <| ps_receiver := None |>
           <| ps_tasks ::= fun l => l ++ [RegionTaskGen (rg_Id (ps_region ps))] |>,
        Err ErrSnapshotTemporarilyUnavailable).
Definition GetSnapshot ps : PeerStorage * result Snapshot :=
  match ps_snapState ps with
  | SnapState_Generating =>
    match ps_receiver ps with
    | None => (ps, Err ErrSnapshotTemporarilyUnavailable)
    | Some s =>
      let ps := ps <| ps_receiver := None |> <| ps_snapState := SnapState_Relax |> in
      match s with
      | Some snapshot =>
        match s_Metadata snapshot with
        | Some _ =>
          let ps := ps <| ps_snapTriedCnt := 0 |> in
          match validateSnap ps snapshot with
          | Ret true => (ps, Ret snapshot)
          | Ret false => requestSnapshot ps
          | Err e => (ps, Err e)
          | Panic => (ps, Panic)
          | OutOfFuel => (ps, OutOfFuel)
          end
        | None => requestSnapshot ps
        end
      | None => requestSnapshot ps
      end
    end
  | _ => requestSnapshot ps
  end.

#[export] Instance Storage_PeerStorage : Storage PeerStorage := {|
  st_InitialState := InitialState;
  st_Entries := Entries;
  st_Term := Term;
  st_LastIndex := LastIndex;
  st_FirstIndex := FirstIndex;
  st_Snapshot := GetSnapshot;
|}.

(** ** Saving *)
(** The loop over the log keys from [firstIndex] to [lastIndex]. *)
Fixpoint deleteLogs (n : nat) (regionID i : Z) (raftWB : WriteBatch) : WriteBatch :=
  match n with
  | O => raftWB
  | S n => deleteLogs n regionID (i + 1) (wb.DeleteMeta raftWB (RaftLogKey regionID i))
  end.
(** An error of [RaftLogIndex] is the only one. *)
Definition ClearMeta (raft : D) (kvWB raftWB : WriteBatch) (regionID lastIndex : Z)
    : outcome meta_error (WriteBatch * WriteBatch) :=
  let kvWB := wb.DeleteMeta kvWB (RegionStateKey regionID) in
  let kvWB := wb.DeleteMeta kvWB (ApplyStateKey regionID) in
  let beginLogKey := RaftLogKey regionID 0 in
  let endLogKey := RaftLogKey regionID (lastIndex ⊞ 1) in
  let! firstIndex := (match db_from raft beginLogKey with
                      | (key, _) :: _ => if Compare key endLogKey <? 0 then RaftLogIndex key
                                         else Ret (lastIndex ⊞ 1)
                      | [] => Ret (lastIndex ⊞ 1)
                      end) in
  let raftWB := deleteLogs (Z.to_nat (lastIndex + 1 - firstIndex)) regionID firstIndex raftWB in
  Ret (kvWB, wb.DeleteMeta raftWB (RaftStateKey regionID)).
Definition clearMeta ps (kvWB raftWB : WriteBatch) : outcome meta_error (WriteBatch * WriteBatch) :=
  ClearMeta (ps_raft ps) kvWB raftWB (rg_Id (ps_region ps)) (rl_LastIndex (ps_raftState ps)).

Definition clearRange ps (regionID : Z) (start stop : list Z) : PeerStorage :=
  ps <| ps_tasks ::= fun l => l ++ [RegionTaskDestroy regionID start stop] |>.
Definition clearExtraData ps (newRegion : Region) : PeerStorage :=
  let oldStartKey := rg_StartKey (ps_region ps) in
  let oldEndKey := rg_EndKey (ps_region ps) in
  let newStartKey := rg_StartKey newRegion in
  let newEndKey := rg_EndKey newRegion in
  let ps := if Compare oldStartKey newStartKey <? 0
            then clearRange ps (rg_Id newRegion) oldStartKey newStartKey else ps in
  if Compare newEndKey oldEndKey <? 0 then clearRange ps (rg_Id newRegion) newEndKey oldEndKey else ps.
Definition ClearData ps : PeerStorage :=
  clearRange ps (rg_Id (ps_region ps)) (rg_StartKey (ps_region ps)) (rg_EndKey (ps_region ps)).

(** An entry that cannot be marshalled panics. *)
Fixpoint appendLoop ps (entries : list Entry) (raftWB : WriteBatch) : result (PeerStorage * WriteBatch) :=
  match entries with
  | [] => Ret (ps, raftWB)
  | entry :: rest =>
    match wb.SetMeta raftWB (RaftLogKey (rg_Id (ps_region ps)) (e_Index entry)) entry with
    | Ret raftWB =>
      let ps := if len rest =? 0
                then ps <| ps_raftState := (ps_raftState ps) <| rl_LastIndex := e_Index entry |>
                                                             <| rl_LastTerm := e_Term entry |> |>
                else ps in
      appendLoop ps rest raftWB
    | _ => Panic
    end
  end.
Definition Append ps (entries : list Entry) (raftWB : WriteBatch) : result (PeerStorage * WriteBatch) :=
  appendLoop ps entries raftWB.

(** The error of a [SetMeta] whose result is not looked at. *)
Definition try_SetMeta {T} `{Codec T} (b : WriteBatch) (key : list Z) (msg : T) : result WriteBatch :=
  match wb.SetMeta b key msg with Ret b => Ret b | Err _ => Ret b | Panic => Panic | OutOfFuel => OutOfFuel end.

Definition WriteRegionState (kvWB : WriteBatch) (region : Region) (state : PeerState) : WriteBatch :=
  let val := regionStateBytes state region in
  wb.add kvWB (RegionStateKey (rg_Id region)) val (len (RegionStateKey (rg_Id region)) + len val).

Definition ApplySnapshot ps (snapshot : Snapshot) (kvWB raftWB : WriteBatch)
    : result (PeerStorage * WriteBatch * WriteBatch * ApplySnapResult) :=
  match snapRegion (s_Data snapshot) with
  | None => Err (ErrMsg "unmarshal")
  | Some region =>
    match clearMeta ps kvWB raftWB with
    | Ret (kvWB, raftWB) =>
      let! newRegion := deref region in
      let ps := clearExtraData ps newRegion in
      let! metadata := deref (s_Metadata snapshot) in
      let! t := truncated ps in
      let prev := ps_region ps in
      let applyState := (ps_applyState ps)
        <| ra_AppliedIndex := sm_Index metadata |>
        <| ra_TruncatedState := Some (t <| rt_Index := sm_Index metadata |> <| rt_Term := sm_Term metadata |>) |> in
      let ps := ps <| ps_raftState := (ps_raftState ps) <| rl_LastIndex := sm_Index metadata |>
                                                       <| rl_LastTerm := sm_Term metadata |> |>
                   <| ps_snapState := SnapState_Applying |>
                   <| ps_applyState := applyState |> in
      let! kvWB := try_SetMeta kvWB (ApplyStateKey (rg_Id newRegion)) applyState in
      let ps := ps <| ps_tasks ::= fun l => l ++ [RegionTaskApply (rg_Id newRegion) metadata
                                                    (rg_StartKey newRegion) (rg_EndKey newRegion)] |> in
      Ret (ps, WriteRegionState kvWB newRegion PeerState_Normal, raftWB, mkApplySnapResult prev newRegion)
    | _ => Panic
    end
  end.

Definition SaveReadyState ps (ready : Ready) : result (PeerStorage * option ApplySnapResult) :=
  let! (ps, kvWb, raftWb, res) :=
    (if negb (IsEmptySnap (Some (rd_Snapshot ready))) then
       match ApplySnapshot ps (rd_Snapshot ready) new_WriteBatch new_WriteBatch with
       | Ret (ps, kvWb, raftWb, res) => Ret (ps, kvWb, raftWb, Some res)
       | OutOfFuel => OutOfFuel
       | _ => Panic
       end
     else Ret (ps, new_WriteBatch, new_WriteBatch, None)) in
  let! (ps, raftWb) := Append ps (rd_Entries ready) raftWb in
  let! (ps, raftWb) :=
    (if negb (IsEmptyHardState (rd_HardState ready)) then
       let ps := ps <| ps_raftState := (ps_raftState ps) <| rl_HardState := Some (rd_HardState ready) |> |> in
       let! raftWb := try_SetMeta raftWb (RaftStateKey (rg_Id (ps_region ps))) (ps_raftState ps) in
       Ret (ps, raftWb)
     else Ret (ps, raftWb)) in
  Ret (ps <| ps_raft := wb.WriteToDB raftWb (ps_raft ps) |>
          <| ps_kv := wb.WriteToDB kvWb (ps_kv ps) |>, res).
End PeerStorage.
Arguments PeerStorage : clear implicits.
