(* ===== verification/PeerStorageProps.v ===== *)
(** * PeerStorageProps: a peer storage serves the log it was given

    A well-formed peer storage ([ps_ok]) satisfies the laws the Raft module relies on, so
    that everything proved of Raft holds over it; [Entries] and [Term] return what is
    stored; [SaveReadyState] stores the entries of a [Ready]; and what a restart finds. *)

From stdpp Require Import base option list sorting strings gmap tactics.
From S2P Require Import Prelude.
From S2P Require Import Eraftpb.
From S2P Require Import Wire.
From S2P Require Import WireFacts.
From S2P Require Import EraftpbWire.
From S2P Require Import EraftpbRound.
From S2P Require Import RaftStorage.
From S2P Require Import RaftLog.
From S2P Require Import Raft.
From S2P Require Import RawNode.
From S2P Require Import GoHeap.
From S2P Require Import Meta.
From S2P Require Import Metapb.
From S2P Require Import RaftServerpb.
From S2P Require Import Engine.
From S2P Require Import PeerStorage.

Lemma log_key_lt r i j : is_u64 r -> is_u64 i -> is_u64 j -> key_lt (RaftLogKey r i) (RaftLogKey r j) = (i <? j).
Proof.
  intros Hr Hi Hj. unfold key_lt, Compare. rewrite RaftLogKey_compare by done. rewrite Z.compare_refl.
  destruct (Z.compare_spec i j), (Z.ltb_spec i j); done || lia.
Qed.
Lemma log_key_inj r i j : is_u64 r -> is_u64 i -> is_u64 j -> RaftLogKey r i = RaftLogKey r j -> i = j.
Proof.
  intros Hr Hi Hj He. pose proof (log_key_lt r i j Hr Hi Hj) as H1. pose proof (log_key_lt r j i Hr Hj Hi) as H2.
  rewrite He, key_lt_irrefl in H1. rewrite <- He, key_lt_irrefl in H2. lia.
Qed.

Section Log.
Context {D : Type} `{BadgerLaws D}.
Implicit Types (ps : PeerStorage D).

Abbreviation lastIndex ps := (rl_LastIndex (ps_raftState ps)).
Abbreviation regionId ps := (rg_Id (ps_region ps)).

(** The entry stored under an index. *)
Definition stored ps (i : Z) : option Entry :=
  match db_get (ps_raft ps) (RaftLogKey (regionId ps) i) with
  | Some v => match Entry_Unmarshal zero_Entry v with Ret e => Some e | _ => None end
  | None => None
  end.

(** The log is stored from after the truncated index [ti] to the last index, among the
    keys of the region's log there are only log keys, and the hard state is in range. *)
Record ps_ok (ti : Z) ps : Prop := {
  po_truncated : exists t, ra_TruncatedState (ps_applyState ps) = Some t /\ rt_Index t = ti;
  po_range : 0 <= ti <= lastIndex ps;
  po_room : lastIndex ps + 1 < two64;
  po_length : lastIndex ps - ti < two63;
  po_region : is_u64 (regionId ps);
  po_log : forall i, ti < i <= lastIndex ps -> exists e, stored ps i = Some e /\ e_Index e = i;
  po_keys : forall k v, db_get (ps_raft ps) k = Some v ->
    key_lt k (RaftLogKey (regionId ps) 0) = false ->
    key_lt k (RaftLogKey (regionId ps) (two64 - 1)) = true ->
    exists i, is_u64 i /\ k = RaftLogKey (regionId ps) i;
  po_hard : exists hs, rl_HardState (ps_raftState ps) = Some hs /\ ti <= hs_Commit hs <= lastIndex ps
    /\ (IsEmptyHardState hs = true -> isInitialized ps = false);
}.

(** What the iterator visits from an index of the log on. *)
Definition from_index ps (lo : Z) (it : list (list Z * list Z)) : Prop :=
  StronglySorted (fun a b => key_lt a.1 b.1 = true) it /\
  forall p, p ∈ it <-> db_get (ps_raft ps) p.1 = Some p.2 /\ key_lt p.1 (RaftLogKey (regionId ps) lo) = false.

Lemma from_index_cons ti ps lo it :
  ps_ok ti ps -> ti < lo <= lastIndex ps -> from_index ps lo it ->
  exists v e it', it = (RaftLogKey (regionId ps) lo, v) :: it' /\ Entry_Unmarshal zero_Entry v = Ret e
    /\ stored ps lo = Some e /\ e_Index e = lo /\ from_index ps (lo + 1) it'.
Proof.
  intros Hok Hlo [Hs Hel]. pose proof (po_range ti ps Hok) as Hr. pose proof (po_room ti ps Hok) as Hroom.
  destruct (po_log ti ps Hok lo Hlo) as (e & Hst & Hei). unfold stored in Hst.
  destruct (db_get (ps_raft ps) (RaftLogKey (regionId ps) lo)) as [v|] eqn:Hv; [|done].
  destruct (Entry_Unmarshal zero_Entry v) as [e'|?| |] eqn:Hu; try done. injection Hst as ->.
  assert (Hin : (RaftLogKey (regionId ps) lo, v) ∈ it) by (apply Hel; split; [done|apply key_lt_irrefl]).
  assert (Hu1 : is_u64 lo /\ is_u64 (lo + 1)) by (unfold is_u64; lia). destruct Hu1 as [Hulo Hulo1].
  assert (Hkk : key_lt (RaftLogKey (regionId ps) lo) (RaftLogKey (regionId ps) (lo + 1)) = true).
  { rewrite log_key_lt by (done || apply Hok || (unfold is_u64, two64 in *; lia)). lia. }
  destruct it as [|p0 it']; [by apply elem_of_nil in Hin|]. apply StronglySorted_inv in Hs as [Hs Hp0].
  rewrite list.Forall_forall in Hp0.
  assert (p0 = (RaftLogKey (regionId ps) lo, v)) as ->.
  { apply elem_of_cons in Hin as [Hin|Hin]; [done|]. specialize (Hp0 _ Hin). cbn [fst] in Hp0.
    assert (Hge : key_lt p0.1 (RaftLogKey (regionId ps) lo) = false) by (apply Hel; apply list_elem_of_here). congruence. }
  exists v, e, it'. split_and!; try done; [unfold stored; by rewrite Hv, Hu|].
  split; [done|]. intros p. split.
  - intros Hp. assert (Hpi : p ∈ (RaftLogKey (regionId ps) lo, v) :: it') by (by apply list_elem_of_further).
    apply Hel in Hpi as [Hget Hge]. split; [done|]. specialize (Hp0 p Hp). cbn [fst] in Hp0.
    destruct (key_lt p.1 (RaftLogKey (regionId ps) (lo + 1))) eqn:Hlt; [|done].
    destruct (po_keys ti ps Hok p.1 p.2 Hget) as (i & Hi & Heq).
    + destruct (key_lt p.1 (RaftLogKey (regionId ps) 0)) eqn:Hz; [|done].
      pose proof (key_lt_trans _ _ _ Hp0 Hz) as Ht. rewrite log_key_lt in Ht by (done || apply Hok || (unfold is_u64, two64 in *; lia)). lia.
    + eapply key_lt_le_trans; [exact Hlt|]. rewrite log_key_lt; [lia|apply Hok|unfold is_u64, two64; lia|done].
    + rewrite Heq, log_key_lt in Hp0, Hlt by (done || apply Hok || (unfold is_u64, two64 in *; lia)). lia.
  - intros [Hget Hge]. assert (Hpi : p ∈ (RaftLogKey (regionId ps) lo, v) :: it').
    { apply Hel. split; [done|]. destruct (key_lt p.1 (RaftLogKey (regionId ps) lo)) eqn:Hlt; [|done].
      by rewrite (key_lt_trans _ _ _ Hlt Hkk) in Hge. }
    apply elem_of_cons in Hpi as [->|Hp]; [cbn [fst] in Hge; congruence|done].
Qed.

(** The stored entries of a range. *)
Definition log_range ps (lo n : Z) : list Entry := omap (stored ps) (seqZ lo n).

Lemma log_range_S ps lo n e : 0 <= n -> stored ps lo = Some e ->
  log_range ps lo (n + 1) = e :: log_range ps (lo + 1) n.
Proof.
  intros Hn He. unfold log_range. rewrite seqZ_cons by lia. cbn. rewrite He.
  by replace (Z.pred (n + 1)) with n by lia.
Qed.

Lemma entriesLoop_spec ti ps n : forall lo it buf,
  ps_ok ti ps -> ti < lo -> lo + Z.of_nat n <= lastIndex ps + 1 -> from_index ps lo it ->
  entriesLoop it (RaftLogKey (regionId ps) (lo + Z.of_nat n)) lo buf
    = Ret (buf ++ log_range ps lo (Z.of_nat n)).
Proof.
  induction n as [|n IH]; intros lo it buf Hok Hlo Hhi Hit.
  - unfold log_range. rewrite Z.add_0_r, app_nil_r. destruct it as [|[k v] it]; cbn [entriesLoop]; [done|].
    assert (Hge : key_lt k (RaftLogKey (regionId ps) lo) = false).
    { apply (proj2 Hit (k, v)). apply list_elem_of_here. }
    by rewrite Compare_ge, Hge.
  - pose proof (po_range ti ps Hok) as Hr. pose proof (po_room ti ps Hok) as Hroom.
    destruct (from_index_cons ti ps lo it Hok) as (v & e & it' & -> & Hu & Hst & Hei & Hit'); [lia|done|].
    cbn [entriesLoop]. rewrite Compare_ge, log_key_lt by (apply Hok || (unfold is_u64; lia)).
    destruct (Z.ltb_spec lo (lo + Z.of_nat (S n))); [cbn [negb]|lia]. rewrite Hu, Hei, Z.eqb_refl. cbn [negb].
    rewrite u64_add_small by (unfold is_u64; lia).
    replace (lo + Z.of_nat (S n)) with (lo + 1 + Z.of_nat n) by lia.
    rewrite IH by (done || lia). replace (Z.of_nat (S n)) with (Z.of_nat n + 1) by lia.
    rewrite (log_range_S ps lo (Z.of_nat n) e) by (done || lia). by rewrite <- app_assoc.
Qed.

Lemma truncatedIndex_ok ti ps : ps_ok ti ps -> truncatedIndex ps = Ret ti.
Proof. intros Hok. destruct (po_truncated ti ps Hok) as (t & Ht & <-). unfold truncatedIndex, truncated. by rewrite Ht. Qed.

Lemma checkRange_ok ti ps lo hi :
  ps_ok ti ps -> ti < lo <= hi -> hi <= lastIndex ps + 1 -> checkRange ps lo hi = Ret tt.
Proof.
  intros Hok Hlo Hhi. unfold checkRange. rewrite (truncatedIndex_ok ti ps Hok). cbn beta iota.
  pose proof (po_range ti ps Hok). pose proof (po_room ti ps Hok).
  rewrite u64_add_small by (unfold is_u64; lia). zif; [lia|]. zif; [lia|]. zif; [lia|done].
Qed.

Lemma log_range_len ti ps lo n :
  ps_ok ti ps -> ti < lo -> lo + Z.of_nat n <= lastIndex ps + 1 ->
  len (log_range ps lo (Z.of_nat n)) = Z.of_nat n /\ contiguous lo (log_range ps lo (Z.of_nat n)).
Proof.
  intros Hok. revert lo. induction n as [|n IH]; intros lo Hlo Hhi.
  { split; [done|]. apply contiguous_nil. }
  replace (Z.of_nat (S n)) with (Z.of_nat n + 1) by lia.
  destruct (po_log ti ps Hok lo) as (e & He & Hei); [lia|]. rewrite (log_range_S ps lo _ e) by (done || lia).
  destruct (IH (lo + 1)) as [Hl Hc]; [lia|lia|]. split; [rewrite len_cons; lia|].
  change (e :: log_range ps (lo + 1) (Z.of_nat n)) with ([e] ++ log_range ps (lo + 1) (Z.of_nat n)).
  apply contiguous_app; [by apply contiguous_one|]. by rewrite len_cons, len_nil.
Qed.

(** [Entries] returns the stored entries of the range. *)
Lemma Entries_spec ti ps lo hi :
  ps_ok ti ps -> ti < lo <= hi -> hi <= lastIndex ps + 1 ->
  Entries ps lo hi = Ret (log_range ps lo (hi - lo)).
Proof.
  intros Hok Hlo Hhi. unfold Entries. rewrite (checkRange_ok ti ps lo hi) by done. cbn beta iota.
  pose proof (po_range ti ps Hok). pose proof (po_room ti ps Hok). pose proof (po_length ti ps Hok).
  destruct (Z.eqb_spec lo hi) as [->|Hne]; [unfold log_range; by rewrite Z.sub_diag|].
  set (n := Z.to_nat (hi - lo)).
  assert (Hn : Z.of_nat n = hi - lo) by (unfold n; lia).
  replace hi with (lo + Z.of_nat n) by lia.
  rewrite (entriesLoop_spec ti ps n lo _ []); [|done|lia|lia|split; [apply db_from_sorted|apply db_from_elem]].
  cbn [app]. rewrite u64_sub_small by (unfold is_u64; lia).
  replace (lo + Z.of_nat n - lo) with (Z.of_nat n) by lia.
  rewrite int64_small by (unfold two63 in *; lia).
  rewrite (proj1 (log_range_len ti ps lo n Hok ltac:(lia) ltac:(lia))). by rewrite Z.eqb_refl.
Qed.

(** The terms of the log never decrease, from the truncated term to the last one. *)
Definition terms_ok (ti : Z) ps : Prop :=
  (forall i j e f, ti < i <= j -> j <= lastIndex ps -> stored ps i = Some e -> stored ps j = Some f ->
     e_Term e <= e_Term f)
  /\ (forall i e t, ti < i <= lastIndex ps -> stored ps i = Some e -> truncatedTerm ps = Ret t -> t <= e_Term e)
  /\ (forall e, ti < lastIndex ps -> stored ps (lastIndex ps) = Some e -> e_Term e = rl_LastTerm (ps_raftState ps)).

Lemma ps_Term_total ti ps i : ps_ok ti ps -> ti <= i <= lastIndex ps -> exists t, Term ps i = Ret t.
Proof.
  intros Hok Hi. pose proof (po_range ti ps Hok). pose proof (po_room ti ps Hok).
  unfold Term. rewrite (truncatedIndex_ok ti ps Hok). cbn beta iota.
  destruct (po_truncated ti ps Hok) as (t & Ht & _). unfold truncatedTerm, truncated. rewrite Ht. cbn [deref].
  destruct (Z.eqb_spec i ti) as [->|Hne]; [eauto|].
  rewrite u64_add_small by (unfold is_u64; lia). rewrite (checkRange_ok ti ps i (i + 1)) by (done || lia). cbn beta iota.
  destruct (_ || _); [eauto|]. destruct (po_log ti ps Hok i) as (e & He & _); [lia|].
  unfold GetRaftEntry, GetMeta. unfold stored in He. cbn [c_Unmarshal c_zero Entry_codec].
  destruct (db_get (ps_raft ps) _) as [v|]; [|done]. destruct (Entry_Unmarshal zero_Entry v); try done. eauto.
Qed.

(** [Term] returns the term of the stored entry, also where it takes a short cut. *)
Lemma Term_spec ti ps i e :
  ps_ok ti ps -> terms_ok ti ps -> ti < i <= lastIndex ps -> stored ps i = Some e ->
  Term ps i = Ret (e_Term e).
Proof.
  intros Hok (Hmono & Hlow & Hlast) Hi He. pose proof (po_range ti ps Hok). pose proof (po_room ti ps Hok).
  destruct (po_log ti ps Hok (lastIndex ps)) as (f & Hf & _); [lia|].
  pose proof (Hlast f ltac:(lia) Hf) as Hft. pose proof (Hmono i (lastIndex ps) e f ltac:(lia) ltac:(lia) He Hf) as Hle.
  destruct (po_truncated ti ps Hok) as (t & Ht & _).
  assert (Htt : truncatedTerm ps = Ret (rt_Term t)) by (unfold truncatedTerm, truncated; by rewrite Ht).
  pose proof (Hlow i e (rt_Term t) Hi He Htt) as Hge.
  unfold Term. rewrite (truncatedIndex_ok ti ps Hok), Htt. cbn beta iota. zif; [lia|].
  rewrite u64_add_small by (unfold is_u64; lia). rewrite (checkRange_ok ti ps i (i + 1)) by (done || lia). cbn beta iota.
  destruct (Z.eqb_spec (rt_Term t) (rl_LastTerm (ps_raftState ps))) as [Heq|Hne]; cbn [orb]; [f_equal; lia|].
  destruct (Z.eqb_spec i (lastIndex ps)) as [->|Hnl]; [rewrite He in Hf; injection Hf as <-; by rewrite Hft|].
  unfold GetRaftEntry, GetMeta. unfold stored in He. cbn [c_Unmarshal c_zero Entry_codec].
  destruct (db_get (ps_raft ps) _) as [v|]; [|done]. destruct (Entry_Unmarshal zero_Entry v); try done.
  by injection He as ->.
Qed.

(** What [ps_ok] depends on. *)
Lemma ps_ok_ext ti ps ps' :
  ps_ok ti ps -> ps_region ps' = ps_region ps -> ps_raftState ps' = ps_raftState ps ->
  ps_applyState ps' = ps_applyState ps -> ps_raft ps' = ps_raft ps -> ps_ok ti ps'.
Proof.
  intros [H1 H2 H3 H4 H5 H6 H7 H8] E1 E2 E3 E4.
  split; unfold isInitialized, stored in *; rewrite ?E1, ?E2, ?E3, ?E4; done.
Qed.
End Log.

(** ** The laws of a storage *)
Section Laws.
Context {D : Type} `{BadgerLaws D}.
Context (snapRegion : option (list Z) -> option (option Region)).

Lemma requestSnapshot_ok ti (ps : PeerStorage D) :
  ps_ok ti ps -> ps_ok ti (fst (requestSnapshot ps)) /\ ps_raftState (fst (requestSnapshot ps)) = ps_raftState ps
    /\ ps_applyState (fst (requestSnapshot ps)) = ps_applyState ps
    /\ exists e, snd (requestSnapshot ps) = Err e.
Proof.
  intros Hok. unfold requestSnapshot. destruct (_ >=? 5); cbn; split_and!; try done; eauto; by apply (ps_ok_ext ti ps).
Qed.
Lemma GetSnapshot_ok ti (ps : PeerStorage D) :
  ps_ok ti ps ->
  ps_ok ti (fst (GetSnapshot snapRegion ps))
  /\ ps_raftState (fst (GetSnapshot snapRegion ps)) = ps_raftState ps
  /\ ps_applyState (fst (GetSnapshot snapRegion ps)) = ps_applyState ps
  /\ ((exists e, snd (GetSnapshot snapRegion ps) = Err e) \/
      (exists snap md, snd (GetSnapshot snapRegion ps) = Ret snap /\ s_Metadata snap = Some md)).
Proof.
  intros Hok. unfold GetSnapshot.
  assert (Hreq : forall ps', ps_ok ti ps' -> ps_raftState ps' = ps_raftState ps -> ps_applyState ps' = ps_applyState ps ->
    ps_ok ti (fst (requestSnapshot ps')) /\ ps_raftState (fst (requestSnapshot ps')) = ps_raftState ps
    /\ ps_applyState (fst (requestSnapshot ps')) = ps_applyState ps
    /\ ((exists e, snd (requestSnapshot ps') = Err e)
        \/ (exists snap md, snd (requestSnapshot ps') = Ret snap /\ s_Metadata snap = Some md))).
  { intros ps' Hok' <- <-. destruct (requestSnapshot_ok ti ps' Hok') as (? & ? & ? & ?). auto. }
  destruct (ps_snapState ps); [by apply Hreq| |by apply Hreq].
  destruct (ps_receiver ps) as [[snap|]|]; [|apply Hreq; try done; by apply (ps_ok_ext ti ps)|cbn; split_and!; try done; left; by eauto].
  destruct (s_Metadata snap) as [md|] eqn:Hmd; [|apply Hreq; try done; by apply (ps_ok_ext ti ps)].
  cbn zeta. set (ps1 := _ <| ps_snapTriedCnt := 0 |>).
  assert (Hok1 : ps_ok ti ps1) by (by apply (ps_ok_ext ti ps)).
  unfold validateSnap. rewrite (truncatedIndex_ok ti ps1 Hok1), Hmd. cbn beta iota zeta.
  destruct (_ <? ti); [by apply Hreq|]. destruct (snapRegion (s_Data snap)) as [region|]; [|by apply Hreq].
  destruct (negb _); [|by apply Hreq]. cbn. split_and!; try done. right. by exists snap, md.
Qed.
Definition ti_of (ps : PeerStorage D) : Z := match truncatedIndex ps with Ret t => t | _ => 0 end.

#[export] Program Instance StorageLaws_PeerStorage
    : @StorageLaws (PeerStorage D) (Storage_PeerStorage snapRegion) := {|
  st_wf := fun ps => ps_ok (ti_of ps) ps;
  st_first := fun ps => ti_of ps + 1;
  st_last := fun ps => rl_LastIndex (ps_raftState ps);
|}.
Next Obligation.
  intros ps Hok. pose proof (po_range _ _ Hok). pose proof (po_room _ _ Hok). lia.
Qed.
Next Obligation.
  intros ps Hok. cbn. unfold FirstIndex. rewrite (truncatedIndex_ok _ _ Hok). cbn beta iota.
  pose proof (po_range _ _ Hok). pose proof (po_room _ _ Hok). by rewrite u64_add_small by (unfold is_u64; lia).
Qed.
Next Obligation. done. Qed.
Next Obligation.
  intros ps lo hi Hok ???. cbn beta in *. exists (log_range ps lo (hi - lo)).
  destruct (log_range_len _ ps lo (Z.to_nat (hi - lo)) Hok) as [Hl Hc]; [lia|lia|].
  rewrite Z2Nat.id in Hl, Hc by lia. split_and!; [|done|lia]. apply (Entries_spec (ti_of ps)); [done|lia|lia].
Qed.
Next Obligation. intros ps i Hok Hi. cbn beta in *. apply (ps_Term_total (ti_of ps)); [done|lia]. Qed.
Next Obligation.
  intros ps Hok. cbn beta in *. pose proof (po_range _ _ Hok). destruct (po_hard _ _ Hok) as (hs & Hhs & Hc & He). cbn.
  unfold InitialState. rewrite Hhs. cbn [deref]. destruct (IsEmptyHardState hs) eqn:Hem.
  - rewrite (He eq_refl). eexists _, _. split; [done|].
    unfold IsEmptyHardState, isHardStateEqual in Hem. rewrite !andb_true_iff, !Z.eqb_eq in Hem.
    destruct Hem as (_ & Hem). cbn in *. lia.
  - eexists _, _. split; [done|lia].
Qed.
Next Obligation.
  intros ps Hok. destruct (GetSnapshot_ok _ ps Hok) as (Hok' & Hr & Ha & Hs).
  assert (Hti : ti_of (fst (GetSnapshot snapRegion ps)) = ti_of ps).
  { unfold ti_of, truncatedIndex, truncated. by rewrite Ha. }
  cbn. rewrite Hti, Hr. by split_and!.
Qed.
End Laws.

(** ** Saving a ready without a snapshot *)
Lemma c_Marshal_enc {T} `{CodecLaws T} (m : T) : c_ok m -> len (c_enc m) < two63 -> c_Marshal m = Ret (c_enc m).
Proof. intros Hok Hl. apply marshalWith_fills; [by apply c_fills|by apply c_size]. Qed.

Lemma enc_varint_ne t v : v <> 0 -> enc_varint t v <> [].
Proof. intros Hv. unfold enc_varint. by destruct (Z.eqb_spec v 0). Qed.
Lemma Entry_enc_ne e : e_Index e <> 0 -> Entry_enc e <> [].
Proof.
  intros He. unfold Entry_enc. intros Hn. apply app_eq_nil in Hn as [_ Hn]. apply app_eq_nil in Hn as [_ Hn].
  apply app_eq_nil in Hn as [Hn _]. by apply (enc_varint_ne 0x18 _ He).
Qed.
Lemma RaftLocalState_enc_ne m hs : rl_HardState m = Some hs -> RaftLocalState_enc m <> [].
Proof. intros Hh. unfold RaftLocalState_enc. by rewrite Hh. Qed.

(** The key of the Raft state lies behind the log of the region. *)
Lemma state_key_after r : is_u64 r -> key_lt (RaftStateKey r) (RaftLogKey r (two64 - 1)) = false.
Proof.
  intros Hr. unfold RaftStateKey, RaftLogKey. rewrite makeRegionPrefix_eq, makeRegionKey_eq.
  unfold key_lt, Compare. rewrite bytes_compare_app by done. rewrite bytes_compare_refl.
  rewrite bytes_compare_app by (by rewrite !be64_length). by rewrite bytes_compare_refl.
Qed.
Lemma state_key_ne r i : RaftStateKey r <> RaftLogKey r i.
Proof. intros He. by apply (f_equal length) in He. Qed.

Section Save.
Context {D : Type} `{BadgerLaws D}.
Context (regionStateBytes : PeerState -> Region -> list Z).
Context (snapRegion : option (list Z) -> option (option Region)).
Implicit Types (ps : PeerStorage D).

Abbreviation lastIndex ps := (rl_LastIndex (ps_raftState ps)).
Abbreviation regionId ps := (rg_Id (ps_region ps)).

(** Entries as Raft appends them: consecutive, and what the wire format can hold. *)
Record entries_ok (lo : Z) (es : list Entry) : Prop := {
  eo_contiguous : contiguous lo es;
  eo_entries : Forall (fun e => Entry_ok e /\ len (Entry_enc e) < two63) es;
  eo_room : 0 < lo /\ lo + len es < two64;
}.

(** The state after [Append]. *)
Definition set_last ps (es : list Entry) : PeerStorage D :=
  match list.last es with
  | Some e => ps <| ps_raftState := (ps_raftState ps) <| rl_LastIndex := e_Index e |> <| rl_LastTerm := e_Term e |> |>
  | None => ps
  end.
#[local] Arguments set_last : simpl never.
Definition log_ops (id : Z) (es : list Entry) : list (list Z * list Z) :=
  map (fun e => (RaftLogKey id (e_Index e), Entry_enc e)) es.

Lemma appendLoop_spec ps es : forall b,
  Forall (fun e => Entry_ok e /\ len (Entry_enc e) < two63) es ->
  exists b', appendLoop ps es b = Ret (set_last ps es, b')
    /\ wb_entries b' = wb_entries b ++ log_ops (regionId ps) es.
Proof.
  induction es as [|e es IH]; intros b Hes; cbn [appendLoop].
  { exists b. by rewrite app_nil_r. }
  apply list.Forall_cons in Hes as [[He Hl] Hes]. unfold wb.SetMeta.
  rewrite (@c_Marshal_enc Entry Entry_codec Entry_laws e He Hl). cbn beta iota zeta. set (b1 := wb.add _ _ _ _).
  assert (Hb1 : wb_entries b1 = wb_entries b ++ [(RaftLogKey (regionId ps) (e_Index e), Entry_enc e)]) by done.
  destruct es as [|e2 es].
  - exists b1. split; [done|exact Hb1].
  - assert ((len (e2 :: es) =? 0) = false) as -> by (rewrite len_cons; pose proof (len_nonneg es); lia).
    destruct (IH b1 Hes) as (b' & -> & Hb'). exists b'. split; [done|].
    rewrite Hb', Hb1, <- app_assoc. done.
Qed.

(** What is written to the Raft engine. *)
Definition state_ops ps (rd : Ready) : list (list Z * list Z) :=
  if IsEmptyHardState (rd_HardState rd) then [] else
  [(RaftStateKey (regionId ps),
    RaftLocalState_enc ((ps_raftState (set_last ps (rd_Entries rd))) <| rl_HardState := Some (rd_HardState rd) |>))].
Definition saved_state ps (rd : Ready) : RaftLocalState :=
  let st := ps_raftState (set_last ps (rd_Entries rd)) in
  if IsEmptyHardState (rd_HardState rd) then st else st <| rl_HardState := Some (rd_HardState rd) |>.

Lemma set_last_same ps es :
  ps_region (set_last ps es) = ps_region ps /\ ps_raft (set_last ps es) = ps_raft ps
  /\ ps_kv (set_last ps es) = ps_kv ps /\ ps_applyState (set_last ps es) = ps_applyState ps.
Proof. unfold set_last. by destruct (list.last es). Qed.

Lemma SaveReadyState_eq ps rd :
  IsEmptySnap (Some (rd_Snapshot rd)) = true ->
  Forall (fun e => Entry_ok e /\ len (Entry_enc e) < two63) (rd_Entries rd) ->
  RaftLocalState_ok (saved_state ps rd) -> len (RaftLocalState_enc (saved_state ps rd)) < two63 ->
  exists ps' b, SaveReadyState regionStateBytes snapRegion ps rd = Ret (ps', None)
    /\ wb_entries b = log_ops (regionId ps) (rd_Entries rd) ++ state_ops ps rd
    /\ ps_raft ps' = wb.WriteToDB b (ps_raft ps)
    /\ ps_kv ps' = ps_kv ps /\ ps_region ps' = ps_region ps /\ ps_applyState ps' = ps_applyState ps
    /\ ps_raftState ps' = saved_state ps rd.
Proof.
  intros Hsnap Hes Hok Hlen. unfold SaveReadyState. rewrite Hsnap. cbn [negb]. cbn beta iota.
  unfold Append. destruct (appendLoop_spec ps (rd_Entries rd) new_WriteBatch Hes) as (b & -> & Hb). cbn beta iota.
  destruct (set_last_same ps (rd_Entries rd)) as (Hr & Hdb & Hkv & Hap).
  unfold saved_state, state_ops in *. destruct (IsEmptyHardState (rd_HardState rd)); cbn [negb].
  - eexists _, b. split; [done|]. unfold set_ps_kv, set_ps_raft, set_ps_raftState. cbn. rewrite Hr, Hdb, Hkv, Hap, app_nil_r. done.
  - pose proof (@c_Marshal_enc RaftLocalState RaftLocalState_codec RaftLocalState_laws _ Hok Hlen) as Hm.
    unfold try_SetMeta, wb.SetMeta. match goal with |- context [c_Marshal ?x] => change (c_Marshal x) with
      (c_Marshal ((ps_raftState (set_last ps (rd_Entries rd))) <| rl_HardState := Some (rd_HardState rd) |>)) end.
    rewrite Hm. cbn beta iota.
    eexists _, (wb.add b _ _ _). split; [done|]. unfold set_ps_kv, set_ps_raft, set_ps_raftState. cbn. rewrite Hb, Hr, Hdb, Hkv, Hap. done.
Qed.

(** The last write under a log key. *)
Lemma foldl_log_ops id lo es i v :
  is_u64 id -> is_u64 i -> entries_ok lo es ->
  foldl (after_entry (RaftLogKey id i)) v (log_ops id es)
    = match es !! Z.to_nat (i - lo) with
      | Some e => if i <? lo then v else Some (Entry_enc e)
      | None => v
      end.
Proof.
  intros Hid Hi [Hc Hok Hroom].
  assert (Hidx : forall e, e ∈ es -> is_u64 (e_Index e)).
  { intros e [k Hk]%list_elem_of_lookup. pose proof (Hc k e Hk). apply lookup_lt_Some in Hk. unfold is_u64, len in *. lia. }
  assert (Hother : forall l, (forall e, e ∈ l -> e ∈ es /\ e_Index e <> i) -> forall w,
    foldl (after_entry (RaftLogKey id i)) w (log_ops id l) = w).
  { intros l Hl w. apply foldl_other. apply list.Forall_forall. intros x (e & -> & He)%list_elem_of_fmap. cbn [fst].
    destruct (Hl e He) as [Hin Hne]. intros Heq%log_key_inj; [done|done|by apply Hidx|done]. }
  destruct (Z.ltb_spec i lo) as [Hlt|Hge].
  { rewrite Hother; [by destruct (es !! _)|]. intros e He. split; [done|].
    apply list_elem_of_lookup in He as [k Hk]. pose proof (Hc k e Hk). lia. }
  destruct (es !! Z.to_nat (i - lo)) as [e|] eqn:He.
  - pose proof (Hc _ _ He) as Hei. rewrite <- (take_drop_middle es _ e He). unfold log_ops. rewrite map_app. cbn [map].
    change (?l ++ ?x :: ?r) with (l ++ [x] ++ r). rewrite app_assoc, foldl_app.
    rewrite (foldl_last _ _ _ _ (Entry_enc e)); [|f_equal; f_equal; lia|apply Entry_enc_ne; lia].
    fold (log_ops id (drop (S (Z.to_nat (i - lo))) es)). apply Hother. intros f Hf.
    apply list_elem_of_lookup in Hf as [k Hk]. rewrite lookup_drop in Hk. pose proof (Hc _ _ Hk).
    split; [by eapply list_elem_of_lookup_2|lia].
  - apply Hother. intros e Hel. split; [done|]. apply list_elem_of_lookup in Hel as [k Hk]. pose proof (Hc k e Hk).
    intros Heq. replace (Z.to_nat (i - lo)) with k in He by lia. congruence.
Qed.

(** What is stored after a save: the new entries, and the old ones at the other indices. *)
Lemma saved_stored ps ps' rd b lo :
  wb_entries b = log_ops (regionId ps) (rd_Entries rd) ++ state_ops ps rd ->
  ps_raft ps' = wb.WriteToDB b (ps_raft ps) -> ps_region ps' = ps_region ps ->
  is_u64 (regionId ps) -> entries_ok lo (rd_Entries rd) ->
  forall i, is_u64 i ->
  stored ps' i = match rd_Entries rd !! Z.to_nat (i - lo) with
                 | Some e => if i <? lo then stored ps i else Some e
                 | None => stored ps i
                 end.
Proof.
  intros Hb Hraft Hreg Hid Heo i Hi. unfold stored. rewrite Hreg, Hraft, WriteToDB_get, Hb, foldl_app.
  rewrite (foldl_other _ _ (state_ops ps rd)).
  2: { unfold state_ops. destruct (IsEmptyHardState _); [constructor|]. apply list.Forall_singleton. apply state_key_ne. }
  rewrite (foldl_log_ops _ lo) by done. destruct (rd_Entries rd !! _) as [e|] eqn:He; [|done].
  destruct (i <? lo); [done|]. pose proof (eo_entries _ _ Heo) as Hes. rewrite list.Forall_forall in Hes.
  destruct (Hes e) as [Hok Hl]; [by eapply list_elem_of_lookup_2|].
  assert (Hr : Entry_Unmarshal zero_Entry (Entry_enc e) = Ret e) by exact (@c_round Entry Entry_codec Entry_laws e Hok Hl).
  by rewrite Hr.
Qed.

(** A ready that Raft may hand to a storage: its entries follow or replace the stored log
    after the truncated and the committed index, and its hard state, if any, is in range. *)
Record ready_ok (ti lo : Z) ps (rd : Ready) : Prop := {
  ro_snapshot : IsEmptySnap (Some (rd_Snapshot rd)) = true;
  ro_entries : entries_ok lo (rd_Entries rd);
  ro_start : ti < lo <= lastIndex ps + 1;
  ro_committed : forall hs, rl_HardState (ps_raftState ps) = Some hs -> rd_Entries rd <> [] -> hs_Commit hs < lo;
  ro_last : lastIndex (set_last ps (rd_Entries rd)) - ti < two63;
  ro_hard : IsEmptyHardState (rd_HardState rd) = false ->
    HardState_ok (rd_HardState rd) /\ ti <= hs_Commit (rd_HardState rd) <= lastIndex (set_last ps (rd_Entries rd));
  ro_state : from_option HardState_ok True (rl_HardState (ps_raftState ps))
    /\ is_u64 (rl_LastTerm (ps_raftState ps)) /\ rl_XXX_unrecognized (ps_raftState ps) = None;
}.

Lemma set_last_index ps lo es :
  entries_ok lo es -> lastIndex (set_last ps es) = if decide (es = []) then lastIndex ps else lo + len es - 1.
Proof.
  intros [Hc _ _]. unfold set_last. destruct (decide (es = [])) as [->|Hne]; [done|].
  destruct (list.last es) as [e|] eqn:Hl; [|by apply last_None in Hl].
  rewrite last_lookup in Hl. cbn. rewrite (Hc _ _ Hl). unfold len. apply lookup_lt_Some in Hl. lia.
Qed.
Lemma set_last_term ps lo es :
  entries_ok lo es -> is_u64 (rl_LastTerm (ps_raftState ps)) -> is_u64 (rl_LastTerm (ps_raftState (set_last ps es))).
Proof.
  intros [_ Hok _] Ht. unfold set_last. destruct (list.last es) as [e|] eqn:Hl; [|done]. cbn.
  rewrite list.Forall_forall in Hok. apply Hok. by apply last_Some_elem_of.
Qed.

Lemma saved_state_ok ti lo ps rd :
  ps_ok ti ps -> ready_ok ti lo ps rd ->
  RaftLocalState_ok (saved_state ps rd) /\ len (RaftLocalState_enc (saved_state ps rd)) < two63.
Proof.
  intros Hok Hrd. pose proof (ro_entries _ _ _ _ Hrd) as Heo. destruct (ro_state _ _ _ _ Hrd) as (Hh & Ht & Hx).
  assert (Hl : is_u64 (lastIndex (set_last ps (rd_Entries rd)))).
  { rewrite (set_last_index ps lo) by done. pose proof (po_range _ _ Hok). pose proof (po_room _ _ Hok).
    pose proof (eo_room _ _ Heo). pose proof (ro_start _ _ _ _ Hrd). pose proof (len_nonneg (rd_Entries rd)).
    unfold is_u64. destruct (decide _); lia. }
  pose proof (set_last_term ps lo _ Heo Ht) as Ht'.
  assert (Hxx : rl_XXX_unrecognized (ps_raftState (set_last ps (rd_Entries rd))) = None)
    by (unfold set_last; by destruct (list.last _)).
  assert (Hhh : rl_HardState (ps_raftState (set_last ps (rd_Entries rd))) = rl_HardState (ps_raftState ps))
    by (unfold set_last; by destruct (list.last _)).
  assert (Hok' : RaftLocalState_ok (saved_state ps rd)).
  { unfold saved_state. destruct (IsEmptyHardState (rd_HardState rd)) eqn:He; split_and!; cbn; try done.
    - by rewrite Hhh.
    - by apply (ro_hard _ _ _ _ Hrd). }
  split; [done|]. destruct Hok' as (Hh' & _ & _ & Hx'). unfold RaftLocalState_enc. rewrite Hx', !len_app. cbn [default].
  pose proof (enc_varint_len_le 0x10 (rl_LastIndex (saved_state ps rd))).
  pose proof (enc_varint_len_le 0x18 (rl_LastTerm (saved_state ps rd))).
  assert (Hopt : len (enc_opt 0xa (rl_HardState (saved_state ps rd))) <= 100).
  { destruct (rl_HardState (saved_state ps rd)) as [hs|]; [|done]. cbn [enc_opt from_option] in *.
    destruct Hh' as (_ & _ & _ & Hu). unfold enc_delim. cbn [c_enc HardState_codec]. unfold HardState_enc. rewrite Hu. cbn [default].
    pose proof (enc_varint_len_le 0x8 (hs_Term hs)). pose proof (enc_varint_len_le 0x10 (hs_Vote hs)).
    pose proof (enc_varint_len_le 0x18 (hs_Commit hs)).
    repeat first [rewrite len_app|rewrite len_cons]. unfold varint.
    pose proof (varint_len_le 10 (len (enc_varint 8 (hs_Term hs) ++ enc_varint 16 (hs_Vote hs) ++ enc_varint 24 (hs_Commit hs) ++ []))).
    rewrite ?len_app, ?len_nil in *. unfold two63 in *. lia. }
  rewrite len_nil. unfold two63. lia.
Qed.

(** The keys written are log keys of the region and the key behind them. *)
Lemma saved_keys lo ps rd k v :
  is_u64 (regionId ps) -> entries_ok lo (rd_Entries rd) ->
  foldl (after_entry k) v (log_ops (regionId ps) (rd_Entries rd) ++ state_ops ps rd) = v
  \/ (exists i, is_u64 i /\ k = RaftLogKey (regionId ps) i) \/ k = RaftStateKey (regionId ps).
Proof.
  intros Hid [Hc Hok Hroom].
  destruct (decide (k = RaftStateKey (regionId ps))) as [|Hns]; [by right; right|].
  destruct (decide (Exists (fun x : list Z * list Z => x.1 = k) (log_ops (regionId ps) (rd_Entries rd)))) as [Hex|Hno].
  - right. left. apply list.Exists_exists in Hex as (x & (e & -> & He)%list_elem_of_fmap & <-).
    exists (e_Index e). split; [|done]. apply list_elem_of_lookup in He as [n Hn]. pose proof (Hc n e Hn).
    apply lookup_lt_Some in Hn. unfold is_u64, len in *. lia.
  - left. apply foldl_other, list.Forall_app. split.
    + apply list.Forall_forall. intros x Hx He. apply Hno, list.Exists_exists. by exists x.
    + unfold state_ops. destruct (IsEmptyHardState _); [constructor|]. apply list.Forall_singleton. by apply not_eq_sym.
Qed.

Lemma saved_ps_ok ti lo ps rd ps' b :
  ps_ok ti ps -> ready_ok ti lo ps rd ->
  wb_entries b = log_ops (regionId ps) (rd_Entries rd) ++ state_ops ps rd ->
  ps_raft ps' = wb.WriteToDB b (ps_raft ps) -> ps_region ps' = ps_region ps ->
  ps_applyState ps' = ps_applyState ps -> ps_raftState ps' = saved_state ps rd ->
  ps_ok ti ps'.
Proof.
  intros Hok Hrd Hb Hraft Hreg Hap Hst. pose proof (ro_entries _ _ _ _ Hrd) as Heo.
  pose proof (po_range _ _ Hok). pose proof (po_room _ _ Hok). pose proof (po_region _ _ Hok) as Hid.
  pose proof (ro_start _ _ _ _ Hrd). pose proof (eo_room _ _ Heo). pose proof (eo_contiguous _ _ Heo) as Hc.
  assert (Hli : lastIndex ps' = lastIndex (set_last ps (rd_Entries rd)))
    by (rewrite Hst; unfold saved_state; by destruct (IsEmptyHardState _)).
  pose proof (set_last_index ps lo _ Heo) as Hsl.
  assert (Hlen : rd_Entries rd <> [] -> 0 < len (rd_Entries rd))
    by (intros; unfold len; destruct (rd_Entries rd); [done|cbn; lia]).
  split.
  - rewrite Hap. apply (po_truncated _ _ Hok).
  - rewrite Hli, Hsl. destruct (decide _) as [|Hne]; [done|]. specialize (Hlen Hne). lia.
  - rewrite Hli, Hsl. destruct (decide _) as [|Hne]; [done|]. lia.
  - rewrite Hli. apply (ro_last _ _ _ _ Hrd).
  - by rewrite Hreg.
  - intros i Hi. rewrite Hli, Hsl in Hi.
    assert (Hui : is_u64 i) by (unfold is_u64; destruct (decide _); lia).
    rewrite (saved_stored ps ps' rd b lo) by done.
    destruct (rd_Entries rd !! Z.to_nat (i - lo)) as [e|] eqn:He.
    + destruct (Z.ltb_spec i lo); [apply (po_log _ _ Hok); lia|]. exists e. split; [done|].
      rewrite (Hc _ _ He). lia.
    + apply (po_log _ _ Hok). split; [lia|]. apply lookup_ge_None in He. unfold len in *. destruct (decide _); lia.
  - intros k v. rewrite Hreg, Hraft, WriteToDB_get, Hb.
    destruct (saved_keys lo ps rd k (db_get (ps_raft ps) k) Hid Heo) as [->|[(i & Hi & ->)| ->]].
    + apply (po_keys _ _ Hok).
    + intros _ _ _. by exists i.
    + by rewrite state_key_after.
  - destruct (po_hard _ _ Hok) as (hs & Hhs & Hco & Hem). rewrite Hli, Hst. unfold isInitialized. rewrite Hreg.
    unfold saved_state. destruct (IsEmptyHardState (rd_HardState rd)) eqn:He.
    + exists hs. split_and!; [unfold set_last; by destruct (list.last _)|lia| |done].
      rewrite Hsl. destruct (decide _) as [|Hne]; [lia|]. pose proof (ro_committed _ _ _ _ Hrd hs Hhs Hne).
      specialize (Hlen Hne). lia.
    + exists (rd_HardState rd). destruct (ro_hard _ _ _ _ Hrd He) as [_ Hr].
      split_and!; [done|lia|lia|by rewrite He].
Qed.

(** What the Raft state key holds after a save. *)
Lemma saved_local_state ti lo ps rd b :
  ps_ok ti ps -> ready_ok ti lo ps rd ->
  wb_entries b = log_ops (regionId ps) (rd_Entries rd) ++ state_ops ps rd ->
  GetRaftLocalState (wb.WriteToDB b (ps_raft ps)) (regionId ps)
    = if IsEmptyHardState (rd_HardState rd) then GetRaftLocalState (ps_raft ps) (regionId ps)
      else Ret (saved_state ps rd).
Proof.
  intros Hok Hrd Hb. unfold GetRaftLocalState, GetMeta. rewrite WriteToDB_get, Hb, foldl_app.
  rewrite (foldl_other _ _ (log_ops _ _)).
  2: { apply list.Forall_forall. intros x (e & -> & _)%list_elem_of_fmap. cbn [fst]. apply not_eq_sym, state_key_ne. }
  unfold state_ops. destruct (IsEmptyHardState (rd_HardState rd)) eqn:He; [done|].
  destruct (saved_state_ok ti lo ps rd Hok Hrd) as [Hst Hlen].
  assert (Hs : saved_state ps rd = (ps_raftState (set_last ps (rd_Entries rd))) <| rl_HardState := Some (rd_HardState rd) |>)
    by (unfold saved_state; by rewrite He).
  rewrite <- Hs. set (bs := RaftLocalState_enc (saved_state ps rd)) in *.
  assert (Hne : bs <> []) by (apply (RaftLocalState_enc_ne _ (rd_HardState rd)); by rewrite Hs).
  pose proof (foldl_last (RaftStateKey (regionId ps)) (db_get (ps_raft ps) (RaftStateKey (regionId ps))) []
    (RaftStateKey (regionId ps), bs) bs eq_refl Hne) as Hl. cbn [app] in Hl. rewrite Hl.
  assert (Hr : RaftLocalState_Unmarshal zero_RaftLocalState bs = Ret (saved_state ps rd))
    by exact (@c_round RaftLocalState RaftLocalState_codec RaftLocalState_laws _ Hst Hlen).
  change (c_Unmarshal c_zero bs) with (RaftLocalState_Unmarshal zero_RaftLocalState bs). by rewrite Hr.
Qed.

(** Starting again from what is on disk. *)
Lemma restart_spec (raft kv : D) region st ap :
  GetRaftLocalState raft (rg_Id region) = Ret st -> GetApplyState kv (rg_Id region) = Ret ap ->
  ra_AppliedIndex ap <= rl_LastIndex st ->
  NewPeerStorage raft kv region = Ret (mkPeerStorage region st ap SnapState_Relax None 0 raft kv []).
Proof.
  intros Hst Hap Hle. unfold NewPeerStorage, InitRaftLocalState, InitApplyState. rewrite Hst, Hap. cbn beta iota.
  by destruct (Z.ltb_spec (rl_LastIndex st) (ra_AppliedIndex ap)); [lia|].
Qed.
End Save.

(** ** What a peer storage promises *)

(** A well-formed peer storage serves its log: [Entries] returns exactly the stored
    entries of a range inside the log, [Term] the term of the stored entry also where it
    answers without reading it, and ranges outside are refused. *)
Theorem peer_storage_reads {D} `{BadgerLaws D} (ti : Z) (ps : PeerStorage D) :
  ps_ok ti ps -> terms_ok ti ps ->
  let last := rl_LastIndex (ps_raftState ps) in
  (forall lo hi, ti < lo <= hi -> hi <= last + 1 -> Entries ps lo hi = Ret (log_range ps lo (hi - lo)))
  /\ (forall i e, ti < i <= last -> stored ps i = Some e -> Term ps i = Ret (e_Term e))
  /\ (forall lo hi, lo <= hi -> lo <= ti -> Entries ps lo hi = Err ErrCompacted)
  /\ (forall lo hi, ti < lo <= hi -> last + 1 < hi -> exists e, Entries ps lo hi = Err e).
Proof.
  intros Hok Ht. pose proof (po_range ti ps Hok). pose proof (po_room ti ps Hok). split_and!.
  - intros lo hi Hlo Hhi. by apply (Entries_spec ti).
  - intros i e Hi He. by apply (Term_spec ti).
  - intros lo hi Hlh Hlo. unfold Entries, checkRange. rewrite (truncatedIndex_ok ti ps Hok).
    zif; [lia|]. cbn beta iota. by zif; [|lia].
  - intros lo hi Hlo Hhi. unfold Entries, checkRange. rewrite (truncatedIndex_ok ti ps Hok).
    rewrite u64_add_small by (unfold is_u64; lia). zif; [lia|]. cbn beta iota. zif; [lia|]. zif; [|lia]. eauto.
Qed.

(** C29. [SaveReadyState] of a [Ready] without a snapshot succeeds, keeps the storage
    well-formed and the truncated index, and stores the log of the Raft paper: the entries
    of the [Ready] from their first index on, the old entries before. *)
Theorem save_ready_state {D} `{BadgerLaws D} regionStateBytes snapRegion (ti lo : Z) (ps : PeerStorage D) (rd : Ready) :
  ps_ok ti ps -> ready_ok ti lo ps rd ->
  exists ps', SaveReadyState regionStateBytes snapRegion ps rd = Ret (ps', None) /\ ps_ok ti ps'
    /\ rl_LastIndex (ps_raftState ps') =
         (if decide (rd_Entries rd = []) then rl_LastIndex (ps_raftState ps) else lo + len (rd_Entries rd) - 1)
    /\ forall i, is_u64 i -> stored ps' i = match rd_Entries rd !! Z.to_nat (i - lo) with
                                           | Some e => if i <? lo then stored ps i else Some e
                                           | None => stored ps i
                                           end.
Proof.
  intros Hok Hrd. pose proof (ro_entries _ _ _ _ Hrd) as Heo. destruct (saved_state_ok ti lo ps rd Hok Hrd) as [Hst Hlen].
  destruct (SaveReadyState_eq regionStateBytes snapRegion ps rd (ro_snapshot _ _ _ _ Hrd) (eo_entries _ _ Heo) Hst Hlen)
    as (ps' & b & Heq & Hb & Hraft & Hkv & Hreg & Hap & Hrs).
  exists ps'. split_and!; [done|by eapply saved_ps_ok| |].
  - rewrite Hrs. rewrite <- (set_last_index ps lo (rd_Entries rd) Heo). unfold saved_state.
    by destruct (IsEmptyHardState _).
  - apply (saved_stored ps ps' rd b lo); try done. apply (po_region _ _ Hok).
Qed.

(** C30. A peer that restarts after saving a [Ready] without a snapshot and with a hard
    state finds it: the hard state of the [Ready], the last index and term it had in memory,
    and the log with the entries of the [Ready] from their first index on and the old ones
    before.  The apply state it finds is the one on disk, which saving the [Ready] leaves
    alone. *)
Theorem restart_recovers {D} `{BadgerLaws D} regionStateBytes snapRegion (ti lo : Z) (ps : PeerStorage D) (rd : Ready)
    (ap : RaftApplyState) :
  ps_ok ti ps -> ready_ok ti lo ps rd -> IsEmptyHardState (rd_HardState rd) = false ->
  GetApplyState (ps_kv ps) (rg_Id (ps_region ps)) = Ret ap ->
  ra_AppliedIndex ap <= hs_Commit (rd_HardState rd) ->
  exists ps' ps'', SaveReadyState regionStateBytes snapRegion ps rd = Ret (ps', None)
    /\ NewPeerStorage (ps_raft ps') (ps_kv ps') (ps_region ps') = Ret ps''
    /\ ps_raftState ps'' = ps_raftState ps' /\ rl_HardState (ps_raftState ps'') = Some (rd_HardState rd)
    /\ rl_LastIndex (ps_raftState ps'')
        = (if decide (rd_Entries rd = []) then rl_LastIndex (ps_raftState ps) else lo + len (rd_Entries rd) - 1)
    /\ (forall i, is_u64 i -> stored ps'' i = match rd_Entries rd !! Z.to_nat (i - lo) with
                                             | Some e => if i <? lo then stored ps i else Some e
                                             | None => stored ps i
                                             end)
    /\ ps_applyState ps'' = ap /\ (ap = ps_applyState ps -> ps_ok ti ps'').
Proof.
  intros Hok Hrd He Hkvst Hai. pose proof (ro_entries _ _ _ _ Hrd) as Heo.
  destruct (saved_state_ok ti lo ps rd Hok Hrd) as [Hst Hlen].
  destruct (SaveReadyState_eq regionStateBytes snapRegion ps rd (ro_snapshot _ _ _ _ Hrd) (eo_entries _ _ Heo) Hst Hlen)
    as (ps' & b & Heq & Hb & Hraft & Hkv & Hreg & Hap & Hrs).
  pose proof (saved_ps_ok ti lo ps rd ps' b Hok Hrd Hb Hraft Hreg Hap Hrs) as Hok'.
  pose proof (saved_local_state ti lo ps rd b Hok Hrd Hb) as Hls. rewrite He in Hls.
  destruct (ro_hard _ _ _ _ Hrd He) as [_ Hc].
  assert (Hsl : rl_LastIndex (saved_state ps rd) = rl_LastIndex (ps_raftState (set_last ps (rd_Entries rd))))
    by (unfold saved_state; by rewrite He).
  eexists ps', _. split; [done|]. split.
  { apply (restart_spec (ps_raft ps') (ps_kv ps') (ps_region ps') (saved_state ps rd) ap).
    - by rewrite Hraft, Hreg.
    - by rewrite Hkv, Hreg.
    - lia. }
  cbn. rewrite Hrs. split_and!; try done.
  - unfold saved_state. by rewrite He.
  - by rewrite Hsl, (set_last_index ps lo _ Heo).
  - intros i Hi. change (stored (mkPeerStorage _ _ _ _ _ _ _ _ _) i) with (stored ps' i).
    apply (saved_stored ps ps' rd b lo); try done. apply (po_region _ _ Hok).
  - intros ->. by apply (ps_ok_ext ti ps').
Qed.

(** A [Ready] with entries and no hard state is saved without the new last index: the
    entries are written and served, but a peer that restarts starts at the old last index,
    and the entries are gone from its log. *)
Theorem restart_forgets_entries {D} `{BadgerLaws D} regionStateBytes snapRegion (ti : Z) (ps : PeerStorage D) (rd : Ready) :
  ps_ok ti ps -> ready_ok ti (rl_LastIndex (ps_raftState ps) + 1) ps rd ->
  rd_Entries rd <> [] -> IsEmptyHardState (rd_HardState rd) = true ->
  GetRaftLocalState (ps_raft ps) (rg_Id (ps_region ps)) = Ret (ps_raftState ps) ->
  GetApplyState (ps_kv ps) (rg_Id (ps_region ps)) = Ret (ps_applyState ps) ->
  ra_AppliedIndex (ps_applyState ps) <= rl_LastIndex (ps_raftState ps) ->
  exists ps' ps'', SaveReadyState regionStateBytes snapRegion ps rd = Ret (ps', None)
    /\ LastIndex ps' = Ret (rl_LastIndex (ps_raftState ps) + len (rd_Entries rd))
    /\ NewPeerStorage (ps_raft ps') (ps_kv ps') (ps_region ps') = Ret ps''
    /\ LastIndex ps'' = Ret (rl_LastIndex (ps_raftState ps)).
Proof.
  intros Hok Hrd Hne He Hraftst Hkvst Hai. pose proof (ro_entries _ _ _ _ Hrd) as Heo.
  set (lo := rl_LastIndex (ps_raftState ps) + 1) in *.
  destruct (saved_state_ok ti lo ps rd Hok Hrd) as [Hst Hlen].
  destruct (SaveReadyState_eq regionStateBytes snapRegion ps rd (ro_snapshot _ _ _ _ Hrd) (eo_entries _ _ Heo) Hst Hlen)
    as (ps' & b & Heq & Hb & Hraft & Hkv & Hreg & Hap & Hrs).
  pose proof (saved_local_state ti lo ps rd b Hok Hrd Hb) as Hls. rewrite He, Hraftst in Hls.
  eexists ps', _. split; [done|]. split.
  { unfold LastIndex. rewrite Hrs. unfold saved_state. rewrite He, (set_last_index ps lo _ Heo).
    rewrite decide_False by done. f_equal. unfold lo. lia. }
  split.
  { apply (restart_spec (ps_raft ps') (ps_kv ps') (ps_region ps') (ps_raftState ps) (ps_applyState ps)).
    - by rewrite Hraft, Hreg.
    - by rewrite Hkv, Hreg.
    - lia. }
  done.
Qed.

(** ** Samples of peer storages

    Concrete peer storages over finite maps. *)
Definition db := gmap (list Z) (list Z).
Definition noBytes (_ : PeerState) (_ : Region) : list Z := [0].
Definition noRegion (_ : option (list Z)) : option (option Region) := None.
Definition demo_region : Region :=
  mkRegion 1 [] [] (Some (mkEpoch 1 1)) [mkPeer 1 1; mkPeer 2 2; mkPeer 3 3].

Definition demo_entry (index : Z) : Entry := zero_Entry <| e_Term := 6 |> <| e_Index := index |>.

(** ** Samples *)
Definition first_state : RaftLocalState := mkLocalState (Some (mkHardState 5 0 5 None)) 5 5 None.
Definition first_apply : RaftApplyState := mkApplyState 5 (Some (mkTruncatedState 5 5 None)) None.
(** The storage of a new region. *)
Definition first_storage : PeerStorage db :=
  mkPeerStorage demo_region first_state first_apply SnapState_Relax None 0
    {[RaftStateKey 1 := RaftLocalState_enc first_state]} {[ApplyStateKey 1 := RaftApplyState_enc first_apply]} [].

Lemma first_storage_new : NewPeerStorage (∅ : db) ∅ demo_region = Ret first_storage.
Proof. vm_compute. reflexivity. Qed.

Lemma first_storage_ok : ps_ok 5 first_storage.
Proof.
  split.
  - by eexists.
  - done.
  - done.
  - done.
  - done.
  - intros i Hi. cbn in Hi. lia.
  - intros k v Hk _ Hlt. change (({[RaftStateKey 1 := RaftLocalState_enc first_state]} : db) !! k = Some v) in Hk.
    apply lookup_singleton_Some in Hk as [<- _].
    rewrite state_key_after in Hlt; [done|]. by vm_compute.
  - by eexists.
Qed.
Lemma first_storage_terms : terms_ok 5 first_storage.
Proof.
  unfold terms_ok. cbn. split_and!.
  - intros i j e f Hi Hj. lia.
  - intros i e t Hi. lia.
  - intros e He. lia.
Qed.

Definition demo_ready (hs : HardState) : Ready := mkReady None hs [demo_entry 6] zero_Snapshot [] [].
Lemma demo_ready_ok hs :
  hs = zero_HardState \/ hs = mkHardState 6 1 5 None -> ready_ok 5 6 first_storage (demo_ready hs).
Proof.
  intros Hhs. split.
  - done.
  - split; [by apply contiguous_one| |done]. apply list.Forall_singleton. by vm_compute.
  - done.
  - intros hs' [= <-] _. done.
  - done.
  - destruct Hhs as [-> | ->]; [done|]. intros _. by vm_compute.
  - by vm_compute.
Qed.

Lemma peer_storage_reads_witness :
  Entries first_storage 5 6 = Err ErrCompacted /\ Entries first_storage 6 6 = Ret [].
Proof.
  destruct (peer_storage_reads 5 first_storage first_storage_ok first_storage_terms) as (He & _ & Hc & _).
  split; [apply Hc; lia|]. apply (He 6 6); [lia|]. reflexivity || (cbn; lia).
Defined.

Lemma save_ready_state_witness :
  exists ps', SaveReadyState noBytes noRegion first_storage (demo_ready zero_HardState) = Ret (ps', None)
    /\ stored ps' 6 = Some (demo_entry 6).
Proof.
  destruct (save_ready_state noBytes noRegion 5 6 first_storage (demo_ready zero_HardState) first_storage_ok)
    as (ps' & Hs & _ & _ & Hst).
  - apply demo_ready_ok. left. reflexivity.
  - exists ps'. split; [exact Hs|]. rewrite Hst; [reflexivity|]. unfold is_u64, two64. lia.
Defined.

Lemma restart_recovers_witness :
  exists ps' ps'', SaveReadyState noBytes noRegion first_storage (demo_ready (mkHardState 6 1 5 None)) = Ret (ps', None)
    /\ NewPeerStorage (ps_raft ps') (ps_kv ps') (ps_region ps') = Ret ps''
    /\ rl_HardState (ps_raftState ps'') = Some (mkHardState 6 1 5 None).
Proof.
  destruct (restart_recovers noBytes noRegion 5 6 first_storage (demo_ready (mkHardState 6 1 5 None)) first_apply first_storage_ok)
    as (ps' & ps'' & Hs & Hn & _ & Hh & _).
  - apply demo_ready_ok. right. reflexivity.
  - reflexivity.
  - vm_compute. reflexivity.
  - cbn. lia.
  - exists ps', ps''. split; [exact Hs|]. split; [exact Hn|exact Hh].
Defined.

Lemma restart_forgets_entries_witness :
  exists ps' ps'', SaveReadyState noBytes noRegion first_storage (demo_ready zero_HardState) = Ret (ps', None)
    /\ LastIndex ps' = Ret 6
    /\ NewPeerStorage (ps_raft ps') (ps_kv ps') (ps_region ps') = Ret ps''
    /\ LastIndex ps'' = Ret 5.
Proof.
  destruct (restart_forgets_entries noBytes noRegion 5 first_storage (demo_ready zero_HardState) first_storage_ok)
    as (ps' & ps'' & Hs & Hl & Hn & Hl').
  - apply demo_ready_ok. left. reflexivity.
  - discriminate.
  - reflexivity.
  - vm_compute. reflexivity.
  - vm_compute. reflexivity.
  - cbn. lia.
  - exists ps', ps''. split; [exact Hs|]. split; [exact Hl|]. split; [exact Hn|exact Hl'].
Defined.
