(* ===== verification/RaftCmdpb.v ===== *)
(** * RaftCmdpb: commands and messages of the raftstore

    The messages of [raft_cmdpb] and [RaftMessage] of [raft_serverpb], as far as the
    raftstore reads them.  A [bytes] field that may be nil is an [option]; getters of nil
    pointers are written out where they are used. *)

From stdpp Require Import base option list tactics.
From S2P Require Import Prelude.
From S2P Require Import Eraftpb.
From S2P Require Import Metapb.

(** ** Commands on keys *)
Inductive CmdType := CmdType_Invalid | CmdType_Get | CmdType_Put | CmdType_Delete | CmdType_Snap.
#[export] Instance CmdType_eq_dec : EqDecision CmdType.
Proof. solve_decision. Defined.
Record GetRequest := mkGet { get_Cf : list Z; get_Key : option (list Z) }.
Record PutRequest := mkPut { put_Cf : list Z; put_Key : option (list Z); put_Value : option (list Z) }.
Record DeleteRequest := mkDelete { del_Cf : list Z; del_Key : option (list Z) }.
Record Request := mkReq {
  rqs_CmdType : CmdType;
  rqs_Get : option GetRequest;
  rqs_Put : option PutRequest;
  rqs_Delete : option DeleteRequest;
}.

(** ** Commands on the group *)
Inductive AdminCmdType :=
  | AdminCmdType_InvalidAdmin | AdminCmdType_ChangePeer | AdminCmdType_CompactLog
  | AdminCmdType_TransferLeader | AdminCmdType_Split.
#[export] Instance AdminCmdType_eq_dec : EqDecision AdminCmdType.
Proof. solve_decision. Defined.
Record ChangePeerRequest := mkChangePeer { cp_ChangeType : ConfChangeType; cp_Peer : option Peer }.
Record CompactLogRequest := mkCompactLog { cl_CompactIndex : Z; cl_CompactTerm : Z }.
Record TransferLeaderRequest := mkTransferLeader { tl_Peer : option Peer }.
Record SplitRequest := mkSplit { sp_SplitKey : list Z; sp_NewRegionId : Z; sp_NewPeerIds : list Z }.
Record AdminRequest := mkAdmin {
  ad_CmdType : AdminCmdType;
  ad_ChangePeer : option ChangePeerRequest;
  ad_CompactLog : option CompactLogRequest;
  ad_TransferLeader : option TransferLeaderRequest;
  ad_Split : option SplitRequest;
}.

(** ** Requests *)
Record RaftRequestHeader := mkHeader {
  rh_RegionId : Z;
  rh_Peer : option Peer;
  rh_RegionEpoch : option RegionEpoch;
  rh_Term : Z;
}.
Record RaftCmdRequest := mkRequest {
  rq_Header : option RaftRequestHeader;
  rq_Requests : list Request;
  rq_AdminRequest : option AdminRequest;
}.

(** ** Responses *)
Inductive Response := GetResponse (Value : list Z) | PutResponse | DeleteResponse | SnapResponse (region : Region).

(** ** Messages between stores *)
Record RaftMessage := mkRaftMessage {
  ms_RegionId : Z;
  ms_FromPeer : option Peer;
  ms_ToPeer : option Peer;
  ms_Message : option Message;
  ms_RegionEpoch : option RegionEpoch;
  ms_IsTombstone : bool;
  ms_StartKey : list Z;
  ms_EndKey : list Z;
}.
#[export] Instance set_ms_RegionId : Setter ms_RegionId := fun g m =>
  mkRaftMessage (g (ms_RegionId m)) (ms_FromPeer m) (ms_ToPeer m) (ms_Message m) (ms_RegionEpoch m) (ms_IsTombstone m) (ms_StartKey m) (ms_EndKey m).
#[export] Instance set_ms_FromPeer : Setter ms_FromPeer := fun g m =>
  mkRaftMessage (ms_RegionId m) (g (ms_FromPeer m)) (ms_ToPeer m) (ms_Message m) (ms_RegionEpoch m) (ms_IsTombstone m) (ms_StartKey m) (ms_EndKey m).
#[export] Instance set_ms_ToPeer : Setter ms_ToPeer := fun g m =>
  mkRaftMessage (ms_RegionId m) (ms_FromPeer m) (g (ms_ToPeer m)) (ms_Message m) (ms_RegionEpoch m) (ms_IsTombstone m) (ms_StartKey m) (ms_EndKey m).
#[export] Instance set_ms_Message : Setter ms_Message := fun g m =>
  mkRaftMessage (ms_RegionId m) (ms_FromPeer m) (ms_ToPeer m) (g (ms_Message m)) (ms_RegionEpoch m) (ms_IsTombstone m) (ms_StartKey m) (ms_EndKey m).
#[export] Instance set_ms_RegionEpoch : Setter ms_RegionEpoch := fun g m =>
  mkRaftMessage (ms_RegionId m) (ms_FromPeer m) (ms_ToPeer m) (ms_Message m) (g (ms_RegionEpoch m)) (ms_IsTombstone m) (ms_StartKey m) (ms_EndKey m).
#[export] Instance set_ms_IsTombstone : Setter ms_IsTombstone := fun g m =>
  mkRaftMessage (ms_RegionId m) (ms_FromPeer m) (ms_ToPeer m) (ms_Message m) (ms_RegionEpoch m) (g (ms_IsTombstone m)) (ms_StartKey m) (ms_EndKey m).
#[export] Instance set_ms_StartKey : Setter ms_StartKey := fun g m =>
  mkRaftMessage (ms_RegionId m) (ms_FromPeer m) (ms_ToPeer m) (ms_Message m) (ms_RegionEpoch m) (ms_IsTombstone m) (g (ms_StartKey m)) (ms_EndKey m).
#[export] Instance set_ms_EndKey : Setter ms_EndKey := fun g m =>
  mkRaftMessage (ms_RegionId m) (ms_FromPeer m) (ms_ToPeer m) (ms_Message m) (ms_RegionEpoch m) (ms_IsTombstone m) (ms_StartKey m) (g (ms_EndKey m)).
