(* ===== verification/SnapMgr.v ===== *)
(** * SnapMgr: managing, making and moving snapshots

    [kv/raftstore/snap/snap_manager.go], the region worker of
    [kv/raftstore/runner/region_task.go] and the transfer of snapshot files in
    [kv/storage/raft_storage/snap_runner.go].  The stream between two stores is the list of
    the chunks.  Besides the parameters of [SnapFile], [ingest] is what badger does with
    table files, and [snapDataBytes], [snapDataOf] and [regionStateOf] are the encodings of
    the protobuf messages. *)

From stdpp Require Import base option list sorting strings gmap tactics.
From S2P Require Import Prelude.
From S2P Require Import Wire.
From S2P Require Import Eraftpb.
From S2P Require Import EraftpbRound.
From S2P Require Import RaftServerpb.
From S2P Require Import Meta.
From S2P Require Import Metapb.
From S2P Require Import Engine.
From S2P Require Import EngineIter.
From S2P Require Import SnapFile.
From S2P Require Import PeerStorage.
From S2P Require Import RaftCmdpb.

(** ** The registry *)
Definition HasRegistered (key : SnapKey) (m : SnapManager) : bool := bool_decide (is_Some (sm_registry m !! key)).
Definition Register (key : SnapKey) (entry : SnapEntry) (m : SnapManager) : SnapManager :=
  let entries := default [] (sm_registry m !! key) in
  if existsb (fun e => bool_decide (e = entry)) entries then m
  else m <| sm_registry ::= <[key := entries ++ [entry]]> |>.
Fixpoint removeEntry (entry : SnapEntry) (entries : list SnapEntry) : option (list SnapEntry) :=
  match entries with
  | [] => None
  | e :: entries => if bool_decide (e = entry) then Some entries else (e ::.) <$> removeEntry entry entries
  end.
Definition Deregister (key : SnapKey) (entry : SnapEntry) (m : SnapManager) : SnapManager :=
  match removeEntry entry (default [] (sm_registry m !! key)) with
  | Some entries => if len entries >? 0 then m <| sm_registry ::= <[key := entries]> |>
                    else m <| sm_registry ::= delete key |>
  | None => m
  end.
(** The sending and the receiving snapshots. *)
Definition Stats (m : SnapManager) : Z * Z :=
  map_fold (fun _ entries '(sending, receiving) =>
    let isSending := existsb (fun e => bool_decide (e = SnapEntryGenerating) || bool_decide (e = SnapEntrySending)) entries in
    let isReceiving := existsb (fun e => bool_decide (e = SnapEntryReceiving) || bool_decide (e = SnapEntryApplying)) entries in
    (if isSending then sending + 1 else sending, if isReceiving then receiving + 1 else receiving))
    (0, 0) (sm_registry m).
Definition GetTotalSnapSize (m : SnapManager) : Z := wrap64 (sm_snapSize m).

(** ** File names *)
Definition HasSuffix (suffix name : list Z) : bool :=
  (len suffix <=? len name) && bool_decide (drop (length name - length suffix) name = suffix).
(** [strings.Split(s, "_")]. *)
Fixpoint split_ (s part : list Z) : list (list Z) :=
  match s with
  | [] => [part]
  | c :: s => if c =? 95 then part :: split_ s [] else split_ s (part ++ [c])
  end.
(** [strconv.ParseUint(s, 10, 64)]. *)
Fixpoint parseDigits (s : list Z) (acc : Z) : option Z :=
  match s with
  | [] => Some acc
  | c :: s => if (48 <=? c) && (c <=? 57) && (acc * 10 + (c - 48) <? two64) then parseDigits s (acc * 10 + (c - 48)) else None
  end.
Definition ParseUint (s : list Z) : option Z := if len s =? 0 then None else parseDigits s 0.

(** A name without the suffix: the key, and whether the snapshot is for sending. *)
Definition parseName (name : list Z) : option (SnapKey * bool) :=
  match split_ name [] with
  | [_; region; term; idx] =>
    region ← ParseUint region; term ← ParseUint term; idx ← ParseUint idx;
    Some (mkSnapKey region term idx, HasPrefix snapGenPrefix name)
  | _ => None
  end.
(** The order of [sort.Slice]: the receiving snapshot of a key comes first. *)
Definition idleLess (a b : SnapKey * bool) : bool :=
  let (ka, sa) := a in let (kb, _) := b in
  if sk_RegionID ka =? sk_RegionID kb then
    if sk_Term ka =? sk_Term kb then
      if sk_Index ka =? sk_Index kb then negb sa else sk_Index ka <? sk_Index kb
    else sk_Term ka <? sk_Term kb
  else sk_RegionID ka <? sk_RegionID kb.
Fixpoint listIdle (m : SnapManager) (names : list (list Z)) : outcome snap_error (list (SnapKey * bool)) :=
  match names with
  | [] => Ret []
  | name :: names =>
    if negb (HasSuffix metaFileSuffix name) then listIdle m names else
    match parseName (take (length name - length metaFileSuffix) name) with
    | None => Err (ErrParseName name)
    | Some key => let! rest := listIdle m names in
                  Ret (if HasRegistered (fst key) m then rest else key :: rest)
    end
  end.
Definition key_le (a b : list Z) : Prop := key_lt b a = false.
#[export] Instance key_le_dec : RelDecision key_le.
Proof. intros a b. unfold key_le. apply _. Defined.
Definition idle_le (a b : SnapKey * bool) : Prop := idleLess a b = true.
#[export] Instance idle_le_dec : RelDecision idle_le.
Proof. intros a b. unfold idle_le. apply _. Defined.
Definition ListIdleSnap (m : SnapManager) : outcome snap_error (list (SnapKey * bool)) :=
  let! results := listIdle m (merge_sort key_le (map_to_list (sm_files m)).*1) in
  Ret (merge_sort idle_le results).

(** Leftover temporary files go, and the tables are counted. *)
Definition Init (m : SnapManager) : SnapManager :=
  foldl (fun m '(name, content) =>
           if HasSuffix tmpFileSuffix name then m <| sm_files ::= delete name |>
           else if HasSuffix sstFileSuffix name then m <| sm_snapSize ::= fun s => int64 (s + len content) |>
           else m) m (map_to_list (sm_files m)).

Record RaftSnapshotData := mkSnapshotData {
  sd_Region : option Region;
  sd_FileSize : Z;
  sd_Meta : option SnapshotMeta;
}.

Section Manager.
Context {D : Type} `{Badger D}.
Context (metaBytes : SnapshotMeta -> list Z) (metaOf : list Z -> option SnapshotMeta).
Context (sst_build : list (list Z * list Z) -> list Z) (ingest : D -> list (list Z) -> option D).
Context (snapDataBytes : RaftSnapshotData -> list Z) (snapDataOf : list Z -> option RaftSnapshotData).
Context (regionStateOf : list Z -> option (PeerState * option Region)).
Context (modTime : list Z -> Z).
Open Scope snap_scope.

(** ** Getting snapshots *)
Definition GetSnapshotForSending (key : SnapKey) : smM Snap := NewSnapForSending metaOf key.
Definition GetSnapshotForReceiving (key : SnapKey) (data : list Z) : smM Snap :=
  match snapDataOf data with
  | Some d => match sd_Meta d with
              | Some meta => NewSnapForReceiving metaOf key meta
              | None => run! NewSnap metaOf key false false then sm_panic
              end
  | None => sm_err ErrMetaDecode
  end.
Definition GetSnapshotForApplying (key : SnapKey) : smM Snap :=
  do! s := NewSnapForApplying metaOf key in
  fun m => if negb (snapExists s m) then (m, Err (ErrMissing (metaPath s))) else (m, Ret s).

Fixpoint idleForSending (idle : list (SnapKey * bool)) : smM (list (SnapKey * Snap)) :=
  match idle with
  | [] => sm_ret []
  | (key, isSending) :: idle =>
    if negb isSending then idleForSending idle else
    do! snap := sm_try (GetSnapshotForSending key) in
    match snap with
    | inr _ => idleForSending idle
    | inl snap =>
      run! read_file (metaPath snap) then
      do! rest := idleForSending idle in sm_ret ((key, snap) :: rest)
    end
  end.
Definition older (a b : SnapKey * Snap) : Prop := modTime (metaPath (snd a)) <= modTime (metaPath (snd b)).
#[local] Instance older_dec : RelDecision older.
Proof. intros a b. unfold older. apply _. Defined.
Fixpoint deleteOldest (snaps : list (SnapKey * Snap)) : smM unit := fun m =>
  if negb (GetTotalSnapSize m >? sm_MaxTotalSize m) then (m, Ret tt) else
  match snaps with
  | [] => (m, Err ErrTooManySnapshots)
  | (key, snap) :: snaps => (run! DeleteSnapshot key snap false then deleteOldest snaps) m
  end.
Definition deleteOldIdleSnaps : smM unit :=
  do! idleSnaps := (fun m => (m, ListIdleSnap m)) in
  do! snaps := idleForSending idleSnaps in
  deleteOldest (merge_sort older snaps).
Definition GetSnapshotForBuilding (key : SnapKey) : smM Snap := fun m =>
  (run! (if GetTotalSnapSize m >? sm_MaxTotalSize m then deleteOldIdleSnaps else sm_ret tt) then
   NewSnapForBuilding metaOf key) m.

(** ** The region worker *)
Definition getAppliedIdxTermForSnapshot (raft kv : D) (regionId : Z) : outcome engine_error (Z * Z) :=
  let! applyState := GetApplyState kv regionId in
  let! t := deref (ra_TruncatedState applyState) in
  let idx := ra_AppliedIndex applyState in
  if idx =? rt_Index t then Ret (idx, rt_Term t) else
  let! entry := GetRaftEntry raft regionId idx in Ret (idx, e_Term entry).

(** A computation between [Register] and a deferred [Deregister]. *)
Definition registered {A} (key : SnapKey) (entry : SnapEntry) (c : smM A) : smM A := fun m =>
  let (m, r) := c (Register key entry m) in (Deregister key entry m, r).

Definition doSnapshot (raft kv : D) (regionId : Z) : smM Snapshot :=
  match getAppliedIdxTermForSnapshot raft kv regionId with
  | Ret (idx, term) =>
    let key := mkSnapKey regionId term idx in
    registered key SnapEntryGenerating
      (match db_get kv (RegionStateKey regionId) ≫= regionStateOf with
       | None => sm_panic
       | Some (state, region) =>
         match state with
         | PeerState_Normal =>
           do! region := sm_lift (deref region) in
           do! s := GetSnapshotForBuilding key in
           do! (_, fileSize, meta, _) := Build metaBytes sst_build kv region s in
           sm_ret (mkSnapshot (Some (snapDataBytes (mkSnapshotData (Some region) fileSize (Some meta))))
                     (Some (mkSnapshotMetadata (Some (ConfStateFromRegion region)) idx term None)) None)
         | _ => sm_err ErrStale
         end
       end)
  | Err _ => sm_err ErrEngine
  | Panic => sm_panic
  | OutOfFuel => sm_fuel
  end.
(** What the notifier gets. *)
Definition handleGen (raft kv : D) (regionId : Z) : smM (option Snapshot) :=
  do! snap := sm_try (doSnapshot raft kv regionId) in
  sm_ret (match snap with inl snap => Some snap | inr _ => None end).

(** The range is cleaned up even if the snapshot cannot be applied. *)
Definition cleanUpRange (kv : D) (startKey endKey : list Z) : outcome snap_error D := DeleteRange kv startKey endKey.
Definition applySnap (kv : D) (regionId : Z) (startKey endKey : list Z) (snapMeta : SnapshotMetadata) : smM D :=
  do! kv := sm_lift (cleanUpRange kv startKey endKey) in
  let key := mkSnapKey regionId (sm_Term snapMeta) (sm_Index snapMeta) in
  registered key SnapEntryApplying (do! snapshot := GetSnapshotForApplying key in Apply ingest kv snapshot).
(** A failure ends the process. *)
Definition handleApply (kv : D) (regionId : Z) (startKey endKey : list Z) (snapMeta : SnapshotMetadata) : smM D := fun m =>
  match applySnap kv regionId startKey endKey snapMeta m with
  | (m, Err _) => (m, Panic)
  | r => r
  end.
Definition HandleRegionTask (raft kv : D) (t : region_task) : smM (D * option (option Snapshot)) :=
  match t with
  | RegionTaskGen regionId => do! snap := handleGen raft kv regionId in sm_ret (kv, Some snap)
  | RegionTaskApply regionId snapMeta startKey endKey =>
    do! kv := handleApply kv regionId startKey endKey snapMeta in sm_ret (kv, None)
  | RegionTaskDestroy regionId startKey endKey =>
    do! kv := sm_lift (cleanUpRange kv startKey endKey) in sm_ret (kv, None)
  end.

(** ** Transfer *)
Definition SnapKeyFromRegionSnap (regionID : Z) (snap : Snapshot) : outcome snap_error SnapKey :=
  let! md := deref (s_Metadata snap) in Ret (mkSnapKey regionID (sm_Term md) (sm_Index md)).
Definition SnapKeyFromSnap (snap : Snapshot) : outcome snap_error SnapKey :=
  match snapDataOf (default [] (s_Data snap)) with
  | None => Err ErrMetaDecode
  | Some data => let! region := deref (sd_Region data) in SnapKeyFromRegionSnap (rg_Id region) snap
  end.
Definition snapChunkLen : Z := 1024 * 1024.

(** [io.ReadFull(snap, buf)] with a buffer of [n] bytes. *)
Fixpoint readFull (k : nat) (s : Snap) (n : Z) (buf : list Z) : smM (Snap * list Z) :=
  if len buf >=? n then sm_ret (s, buf) else
  match k with
  | O => sm_fuel
  | S k => do! (s, bs) := snapRead s (n - len buf) in readFull k s n (buf ++ bs)
  end.
(** The chunks that are sent, of [size] bytes but for the last one. *)
Fixpoint sendLoop (k : nat) (size : Z) (s : Snap) (remain : Z) : smM (list (list Z)) :=
  if remain =? 0 then sm_ret [] else
  match k with
  | O => sm_fuel
  | S k =>
    let n := if remain <? size then remain else size in
    do! (s, buf) := readFull (Z.to_nat n) s n [] in
    do! rest := sendLoop k n s (remain ⊟ n) in
    sm_ret (buf :: rest)
  end.
Definition sendSnap (msg : RaftMessage) : smM (list (list Z)) := fun m =>
  match (let! message := deref (ms_Message msg) in let! snap := deref (m_Snapshot message) in SnapKeyFromSnap snap) with
  | Ret key =>
    registered key SnapEntrySending
      (do! s := GetSnapshotForSending key in
       fun m => if negb (snapExists s m) then (m, Err (ErrMissing (metaPath s))) else
                sendLoop (Z.to_nat (TotalSize s)) snapChunkLen s (TotalSize s) m) m
  | Err e => (m, Err e)
  | Panic => (m, Panic)
  | OutOfFuel => (m, OutOfFuel)
  end.

(** [bytes.NewReader(data).WriteTo(snapshot)] is one [Write]. *)
Fixpoint recvLoop (s : Snap) (chunks : list (list Z)) : smM Snap :=
  match chunks with
  | [] => sm_ret s
  | data :: chunks =>
    if len data =? 0 then sm_err ErrEmptyChunk else
    do! (s, n) := snapWrite s data in
    if n <? len data then sm_err ErrShortWrite else recvLoop s chunks
  end.
(** The message that is handed on when the files are there. *)
Definition recvSnap (head : option RaftMessage) (chunks : list (list Z)) : smM RaftMessage :=
  match head with
  | None => sm_err ErrNoMessage
  | Some msg =>
    do! message := sm_lift (deref (ms_Message msg)) in
    do! snap := sm_lift (deref (m_Snapshot message)) in
    do! key := sm_lift (SnapKeyFromSnap snap) in
    do! s := GetSnapshotForReceiving key (default [] (s_Data snap)) in
    fun m => if snapExists s m then (m, Ret msg) else
    registered key SnapEntryReceiving
      (do! s := recvLoop s chunks in run! Save metaBytes s then sm_ret msg) m
  end.
End Manager.
