(* ===== verification/SnapProps.v ===== *)
(** * SnapProps: a snapshot arrives as it was made

    Building, sending, receiving and applying a snapshot: whatever the sizes of the chunks,
    the receiver ends with the files of the sender, and after applying them a region has
    the data it had on the sender. *)

From stdpp Require Import base option list sorting strings gmap tactics.
From S2P Require Import Prelude.
From S2P Require Import GoHeap.
From S2P Require Import Wire.
From S2P Require Import Eraftpb.
From S2P Require Import EraftpbRound.
From S2P Require Import RaftServerpb.
From S2P Require Import Meta.
From S2P Require Import Metapb.
From S2P Require Import Engine.
From S2P Require Import EngineIter.
From S2P Require Import SnapFile.
From S2P Require Import PeerStorage.
From S2P Require Import RaftCmdpb.
From S2P Require Import SnapMgr.
Open Scope snap_scope.

(** ** Names are different *)
Lemma last_suffix (l suf : list Z) : suf <> [] -> list.last (l ++ suf) = list.last suf.
Proof. intros Hs. rewrite last_app. destruct (list.last suf) eqn:Hl; [done|]. by apply last_None in Hl. Qed.
Lemma tmp_last x : list.last (tmp x) = Some 112.
Proof. unfold tmp. by rewrite last_suffix. Qed.
Lemma cfPath_last s cf : list.last (cfPath s cf) = Some 116.
Proof. unfold cfPath. rewrite !app_assoc. by rewrite last_suffix. Qed.
Lemma metaPath_last s : list.last (metaPath s) = Some 97.
Proof. unfold metaPath. by rewrite last_suffix. Qed.
Lemma tmp_cf x s cf : tmp x <> cfPath s cf.
Proof. intros Heq. pose proof (tmp_last x). rewrite Heq, cfPath_last in *. done. Qed.
Lemma tmp_meta x s : tmp x <> metaPath s.
Proof. intros Heq. pose proof (tmp_last x). rewrite Heq, metaPath_last in *. done. Qed.
Lemma cf_meta s cf s' : cfPath s cf <> metaPath s'.
Proof. intros Heq. pose proof (cfPath_last s cf). rewrite Heq, metaPath_last in *. done. Qed.
Lemma tmp_inj x y : tmp x = tmp y -> x = y.
Proof. apply app_inv_tail. Qed.
Lemma cfPath_inj s cf cf' : cfPath s cf = cfPath s cf' -> cf = cf'.
Proof. unfold cfPath. intros H%app_inv_head%app_inv_head%app_inv_tail. done. Qed.
Create HintDb names.
#[export] Hint Resolve tmp_cf tmp_meta cf_meta not_eq_sym : names.

(** ** The files of a snapshot *)
(** The metadata of the contents of the files. *)
Definition metas (cfs : list (list Z)) (cs : list (list Z)) : SnapshotMeta :=
  zip_with (fun cf c => mkSnapshotCFFile cf (len c) (crc32 c)) cfs cs.
(** The manager holds a snapshot with the given contents, where an empty one has no file. *)
Record holds (metaBytes : SnapshotMeta -> list Z) (s : Snap) (cs : list (list Z)) (m : SnapManager) : Prop := {
  ho_meta : sm_files m !! metaPath s = Some (metaBytes (metas CFs cs));
  ho_files : forall j cf c, CFs !! j = Some cf -> cs !! j = Some c ->
    sm_files m !! cfPath s cf = if bool_decide (c = []) then None else Some c;
}.
(** There are no files of the snapshot. *)
Definition fresh (s : Snap) (m : SnapManager) : Prop :=
  sm_files m !! metaPath s = None /\ sm_files m !! tmp (metaPath s) = None
  /\ forall cf, sm_files m !! cfPath s cf = None /\ sm_files m !! tmp (cfPath s cf) = None.

Definition bare (key : SnapKey) (isSending : bool) : Snap := mkSnap key isSending (map newCFFile CFs) 0 [] false.
(** A file of which [w] was written or read. *)
Definition file_at (cf c w : list Z) : CFFile := mkCFFile cf 0 (len c) (len w) (crc32 c) (crc32 w) [] (len w).
Definition loaded (key : SnapKey) (isSending : bool) (cs : list (list Z)) : Snap :=
  mkSnap key isSending (zip_with (fun cf c => file_at cf c []) CFs cs) 0 (metas CFs cs) false.

Lemma is_nil_len (l : list Z) : bool_decide (l = []) = (len l =? 0).
Proof. destruct l; [done|]. rewrite len_cons, bool_decide_false by done. pose proof (len_nonneg l). lia. Qed.
Lemma is_nil_pos (l : list Z) : bool_decide (l = []) = negb (len l >? 0).
Proof. rewrite is_nil_len. pose proof (len_nonneg l). lia. Qed.
Lemma FileExists_eq path m : FileExists path m = match sm_files m !! path with Some _ => true | None => false end.
Proof.
  unfold FileExists. destruct (sm_files m !! path) eqn:Hp; [by rewrite bool_decide_true by eauto|].
  rewrite bool_decide_false; [done|]. by intros [? ?].
Qed.

Section Load.
Context (metaBytes : SnapshotMeta -> list Z) (metaOf : list Z -> option SnapshotMeta).
Context (Hmeta : forall meta, metaOf (metaBytes meta) = Some meta).

Lemma setMetaLoop_ok s m : forall cfs cs,
  length cfs = length cs ->
  (forall j cf c, cfs !! j = Some cf -> cs !! j = Some c ->
     sm_files m !! cfPath s cf = None \/ sm_files m !! cfPath s cf = Some c) ->
  setMetaLoop s (map newCFFile cfs) (metas cfs cs) m = (m, Ret (zip_with (fun cf c => file_at cf c []) cfs cs, None)).
Proof.
  induction cfs as [|cf cfs IH]; intros [|c cs] Hl Hf; try done. cbn [map metas zip_with setMetaLoop].
  cbn [cf_CF newCFFile sc_Cf]. rewrite bool_decide_true by done. cbn [negb]. unfold sm_bind at 1.
  rewrite FileExists_eq. destruct (Hf 0%nat cf c eq_refl eq_refl) as [Hn|Hn]; rewrite Hn.
  2: unfold checkFileSize, GetFileSize, read_file, sm_try, sm_bind; rewrite Hn; cbn [sm_ret sc_Size]; rewrite Z.eqb_refl; cbn [negb sm_ret].
  all: cbn beta iota; unfold sm_bind; rewrite IH; [reflexivity|by injection Hl|intros j; exact (Hf (S j))].
Qed.

Lemma setSnapshotMeta_ok key isSending cs m :
  length cs = length CFs ->
  (forall j cf c, CFs !! j = Some cf -> cs !! j = Some c ->
     sm_files m !! cfPath (bare key isSending) cf = None \/ sm_files m !! cfPath (bare key isSending) cf = Some c) ->
  setSnapshotMeta (bare key isSending) (metas CFs cs) m = (m, Ret (loaded key isSending cs, None)).
Proof.
  intros Hl Hf. unfold setSnapshotMeta. assert (Hlen : len (metas CFs cs) = len (sn_CFFiles (bare key isSending))).
  { unfold len, metas. rewrite length_zip_with. cbn. rewrite Hl. done. }
  rewrite Hlen, Z.eqb_refl. cbn [negb]. unfold sm_bind.
  change (sn_CFFiles (bare key isSending)) with (map newCFFile CFs). rewrite setMetaLoop_ok by done. done.
Qed.

(** Whether a loaded snapshot is there. *)
Lemma loaded_exists key isSending cs m : length cs = length CFs ->
  holds metaBytes (bare key isSending) cs m -> snapExists (loaded key isSending cs) m = true.
Proof.
  intros Hl [Hm Hf]. unfold snapExists. rewrite FileExists_eq.
  change (metaPath (loaded key isSending cs)) with (metaPath (bare key isSending)). rewrite Hm, andb_true_r.
  apply forallb_forall. intros f Hin. apply list_elem_of_In in Hin. cbn [sn_CFFiles loaded] in Hin.
  apply list_elem_of_lookup in Hin as [j Hj]. apply lookup_zip_with_Some in Hj as (cf & c & -> & Hcf & Hc).
  cbn [cf_Size cf_CF file_at]. rewrite FileExists_eq.
  change (cfPath (loaded key isSending cs)) with (cfPath (bare key isSending)).
  rewrite (Hf _ _ _ Hcf Hc), is_nil_pos. destruct (len c >? 0); done.
Qed.

(** A snapshot that is there can be opened. *)
Lemma NewSnap_holds key isSending toBuild cs m : length cs = length CFs ->
  holds metaBytes (bare key isSending) cs m ->
  NewSnap metaOf key isSending toBuild m = (m, Ret (loaded key isSending cs)).
Proof.
  intros Hl Hh. pose proof Hh as [Hm Hf]. unfold NewSnap. fold (bare key isSending).
  rewrite FileExists_eq, Hm. unfold sm_bind at 1, loadSnapMeta. unfold sm_bind at 1, sm_try, readSnapshotMeta, sm_bind at 1, read_file.
  rewrite Hm, Hmeta. cbn [sm_ret]. unfold sm_bind at 1. rewrite setSnapshotMeta_ok; [|done|].
  - by rewrite loaded_exists.
  - intros j cf c Hcf Hc. rewrite (Hf _ _ _ Hcf Hc). case_bool_decide; [by left|by right].
Qed.
Lemma NewSnap_fresh key isSending toBuild m : fresh (bare key isSending) m ->
  NewSnap metaOf key isSending toBuild m = (m, Ret (bare key isSending)).
Proof. intros [Hm _]. unfold NewSnap. fold (bare key isSending). by rewrite FileExists_eq, Hm. Qed.
End Load.

(** ** Reading a snapshot *)
Lemma take_take_length {A} n (l : list A) : take (length (take n l)) l = take n l.
Proof.
  rewrite length_take. destruct (Nat.le_ge_cases n (length l)); [by rewrite Nat.min_l|].
  rewrite Nat.min_r by done. by rewrite !take_ge.
Qed.
Section Read.
Context (cs : list (list Z)) (m : SnapManager).

(** What is left to read: the rest of the current file, and the files after it. *)
Record reading (s : Snap) (cur : list Z) : Prop := {
  rd_length : length (sn_CFFiles s) = length cs;
  rd_file : forall j f c, sn_CFFiles s !! j = Some f -> cs !! j = Some c ->
    cf_Size f = len c /\ (c <> [] -> sm_files m !! cfPath s (cf_CF f) = Some c);
  rd_cur : forall f c, sn_CFFiles s !! sn_cfIndex s = Some f -> cs !! sn_cfIndex s = Some c ->
    cur = drop (Z.to_nat (cf_pos f)) c /\ 0 <= cf_pos f;
  rd_end : sn_CFFiles s !! sn_cfIndex s = None -> cur = [];
  rd_later : forall j f, (sn_cfIndex s < j)%nat -> sn_CFFiles s !! j = Some f -> cf_pos f = 0;
}.
Definition remaining (s : Snap) (cur : list Z) : list Z := cur ++ concat (drop (S (sn_cfIndex s)) cs).

Lemma reading_next s : reading s [] ->
  exists cur, reading (s <| sn_cfIndex ::= S |>) cur /\ remaining (s <| sn_cfIndex ::= S |>) cur = remaining s [].
Proof.
  intros [Hl Hf _ _ Hz]. unfold remaining. cbn [sn_cfIndex set_sn_cfIndex upd app].
  destruct (sn_CFFiles s !! S (sn_cfIndex s)) as [f|] eqn:Hn.
  - destruct (lookup_lt_is_Some_2 cs (S (sn_cfIndex s))) as [c Hc].
    { rewrite <- Hl. apply lookup_lt_is_Some. eauto. }
    exists c. rewrite (drop_S _ _ _ Hc). split; [|done]. split; try done.
    + cbn. intros f' c' Hf' Hc'. rewrite Hn in Hf'. rewrite Hc in Hc'. injection Hf' as <-. injection Hc' as <-.
      rewrite (Hz (S (sn_cfIndex s)) f); [done|lia|done].
    + cbn. by rewrite Hn.
    + cbn. intros j f' Hj. apply Hz. lia.
  - exists []. apply lookup_ge_None in Hn. rewrite !drop_ge by lia. split; [|done]. split; try done.
    + cbn. intros f c Hf' _. apply lookup_lt_Some in Hf'. lia.
    + cbn. intros j f' Hj. apply Hz. lia.
Qed.

Lemma readLoop_ok k : forall s cur n, 0 < n -> reading s cur -> remaining s cur <> [] ->
  (length cs - sn_cfIndex s < k)%nat ->
  exists s' cur' bs, readLoop k s n m = (m, Ret (s', bs)) /\ bs <> [] /\ len bs <= n
    /\ reading s' cur' /\ remaining s cur = bs ++ remaining s' cur'.
Proof.
  induction k as [|k IH]; intros s cur n Hn Hr Hne Hk; [lia|]. pose proof Hr as [Hl Hf Hc He Hz]. cbn [readLoop].
  destruct (sn_CFFiles s !! sn_cfIndex s) as [f|] eqn:Hcur.
  2: { apply lookup_ge_None in Hcur. destruct Hne. unfold remaining. rewrite (He eq_refl), drop_ge by lia. done. }
  pose proof (lookup_lt_Some _ _ _ Hcur) as Hlt. destruct (lookup_lt_is_Some_2 cs (sn_cfIndex s)) as [c Hcs]; [lia|].
  destruct (Hf _ _ _ Hcur Hcs) as [Hs Hm]. destruct (Hc _ _ eq_refl Hcs) as [-> Hp].
  assert (Hnext : drop (Z.to_nat (cf_pos f)) c = [] ->
    exists s' cur' bs, readLoop k (s <| sn_cfIndex ::= S |>) n m = (m, Ret (s', bs)) /\ bs <> [] /\ len bs <= n
      /\ reading s' cur' /\ remaining s (drop (Z.to_nat (cf_pos f)) c) = bs ++ remaining s' cur').
  { intros Hd. rewrite Hd in Hr, Hne |- *. destruct (reading_next s Hr) as (cur & Hr' & Heq). rewrite <- Heq in Hne |- *.
    apply IH; [done|done|done|]. cbn. lia. }
  rewrite Hs. destruct (Z.eqb_spec (len c) 0) as [Hz0|Hz0].
  { apply Hnext. apply len_0_nil in Hz0 as ->. apply drop_nil. }
  assert (Hcn : c <> []) by (by intros ->). unfold sm_bind, read_file. rewrite (Hm Hcn).
  destruct (drop (Z.to_nat (cf_pos f)) c) as [|x cur] eqn:Hd.
  { rewrite take_nil. cbn [len length Z.of_nat Z.gtb Z.compare]. by apply Hnext. }
  set (bs := take (Z.to_nat n) (x :: cur)).
  assert (Hbs : 0 < len bs <= n).
  { unfold bs, len. rewrite length_take. cbn [length]. lia. }
  assert ((len bs >? 0) = true) as -> by lia. unfold sm_ret.
  set (f' := f <| cf_pos ::= Z.add (len bs) |>).
  set (s' := s <| sn_CFFiles ::= <[sn_cfIndex s := f']> |>).
  exists s', (drop (length bs) (x :: cur)), bs. split; [done|]. split; [intros Hb; assert (len bs = 0) by (by rewrite Hb); lia|].
  split; [lia|]. split; [|unfold remaining; cbn [sn_cfIndex]; rewrite app_assoc; f_equal;
    rewrite <- (take_drop (length bs) (x :: cur)) at 1; f_equal; apply take_take_length].
  split; cbn [sn_CFFiles sn_cfIndex s' set_sn_CFFiles upd].
  - by rewrite length_insert.
  - intros j f0 c0 Hj Hj'. apply list_lookup_insert_Some in Hj as [(<- & <- & _)|(Hne' & Hj)]; [|by apply (Hf j)].
    cbn [cf_Size cf_CF f' set_cf_pos upd]. by apply (Hf (sn_cfIndex s)).
  - intros f0 c0 Hf0 Hc0. rewrite list_lookup_insert_eq in Hf0 by done. injection Hf0 as <-.
    rewrite Hcs in Hc0. injection Hc0 as <-. cbn [cf_pos f' set_cf_pos upd]. split; [|lia].
    rewrite <- Hd, drop_drop. f_equal. unfold len. lia.
  - intros Hnone. rewrite list_lookup_insert_eq in Hnone by done. done.
  - intros j f0 Hj. rewrite list_lookup_insert_ne by lia. by apply Hz.
Qed.

Lemma snapRead_ok s cur n : 0 < n -> reading s cur -> remaining s cur <> [] ->
  exists s' cur' bs, snapRead s n m = (m, Ret (s', bs)) /\ bs <> [] /\ len bs <= n
    /\ reading s' cur' /\ remaining s cur = bs ++ remaining s' cur'.
Proof.
  intros Hn Hr Hne. unfold snapRead. destruct (Z.eqb_spec n 0); [lia|].
  apply readLoop_ok; [done|done|done|]. rewrite (rd_length _ _ Hr). lia.
Qed.

(** [io.ReadFull] gets as many bytes as it asks for. *)
Lemma readFull_ok k : forall s cur n buf, reading s cur -> len buf <= n <= len (buf ++ remaining s cur) ->
  (Z.to_nat (n - len buf) <= k)%nat ->
  exists s' cur' bs, readFull k s n buf m = (m, Ret (s', buf ++ bs)) /\ len (buf ++ bs) = n
    /\ reading s' cur' /\ remaining s cur = bs ++ remaining s' cur'.
Proof.
  induction k as [|k IH]; intros s cur n buf Hr Hn Hk; cbn [readFull].
  all: destruct (Z.geb_spec (len buf) n) as [Hge|Hlt];
    [exists s, cur, []; rewrite app_nil_r; split; [done|split; [lia|done]]|].
  - lia.
  - destruct (snapRead_ok s cur (n - len buf)) as (s1 & cur1 & bs & Hread & Hbs & Hle & Hr1 & Heq); [lia|done| |].
    { intros Hnil. rewrite Hnil, app_nil_r in Hn. lia. }
    unfold sm_bind. rewrite Hread. assert (0 < len bs).
    { pose proof (len_nonneg bs). destruct (Z.eq_dec (len bs) 0) as [Hz%len_0_nil|]; [done|lia]. }
    destruct (IH s1 cur1 n (buf ++ bs)) as (s2 & cur2 & bs2 & Hf & Hlen & Hr2 & Heq2); [done| |rewrite len_app; lia|].
    { rewrite <- app_assoc, <- Heq. rewrite len_app. lia. }
    exists s2, cur2, (bs ++ bs2). rewrite app_assoc. split; [done|]. split; [done|]. split; [done|].
    by rewrite Heq, Heq2, app_assoc.
Qed.

(** What is sent is what was left to read, in chunks that are not empty. *)
Lemma sendLoop_ok k : forall s cur size, 0 < size -> reading s cur -> len (remaining s cur) < two64 ->
  (Z.to_nat (len (remaining s cur)) <= k)%nat ->
  exists chunks, sendLoop k size s (len (remaining s cur)) m = (m, Ret chunks)
    /\ concat chunks = remaining s cur /\ Forall (fun ch => ch <> []) chunks.
Proof.
  induction k as [|k IH]; intros s cur size Hsz Hr Hb Hk; cbn [sendLoop].
  all: destruct (Z.eqb_spec (len (remaining s cur)) 0) as [Hz|Hz];
    [exists []; apply len_0_nil in Hz; rewrite Hz; done|]; pose proof (len_nonneg (remaining s cur)).
  - lia.
  - set (n := if len (remaining s cur) <? size then len (remaining s cur) else size).
    assert (Hn : 0 < n <= len (remaining s cur)) by (unfold n; destruct (Z.ltb_spec (len (remaining s cur)) size); lia).
    destruct (readFull_ok (Z.to_nat n) s cur n []) as (s1 & cur1 & bs & Hf & Hlen & Hr1 & Heq); [done|cbn [app]; change (len (@nil Z)) with 0; lia|change (len (@nil Z)) with 0; lia|].
    cbn [app] in Hf, Hlen. unfold sm_bind. rewrite Hf.
    assert (Hrem : len (remaining s cur) ⊟ n = len (remaining s1 cur1)).
    { rewrite Heq, len_app. rewrite u64_sub_small; [lia|]. unfold is_u64. pose proof (len_nonneg (remaining s1 cur1)).
      rewrite Heq, len_app in Hb. lia. }
    rewrite Hrem. assert (Hl : len (remaining s cur) = n + len (remaining s1 cur1)) by (rewrite Heq, len_app; lia).
    destruct (IH s1 cur1 n) as (chunks & -> & Hc & Hne); [lia|done|lia|lia|].
    exists (bs :: chunks). split; [done|]. split; [cbn; by rewrite Hc, Heq|]. constructor; [|done].
    intros ->. change (len (@nil Z)) with 0 in Hlen. lia.
Qed.
End Read.

(** ** Writing a snapshot *)
Lemma overwrite_end (w bs : list Z) : overwrite w (Z.to_nat (len w)) bs = w ++ bs.
Proof.
  unfold overwrite, len. rewrite Nat2Z.id, take_ge by done. f_equal. rewrite drop_ge by lia. apply app_nil_r.
Qed.
(** Only the temporary files of the column families of a snapshot change. *)
Definition cf_frame (s : Snap) (m m' : SnapManager) : Prop :=
  sm_registry m' = sm_registry m
  /\ forall p, (forall cf, p <> tmp (cfPath s cf)) -> sm_files m' !! p = sm_files m !! p.
Lemma cf_frame_trans s m1 m2 m3 : cf_frame s m1 m2 -> cf_frame s m2 m3 -> cf_frame s m1 m3.
Proof. intros [Hr1 Hf1] [Hr2 Hf2]. split; [congruence|]. intros p Hp. by rewrite Hf2, Hf1. Qed.
(** The same snapshot, but for its files. *)
Definition same_snap (s s' : Snap) : Prop :=
  sn_key s' = sn_key s /\ sn_isSending s' = sn_isSending s /\ sn_Meta s' = sn_Meta s
  /\ map cf_CF (sn_CFFiles s') = map cf_CF (sn_CFFiles s).
Lemma same_snap_trans s1 s2 s3 : same_snap s1 s2 -> same_snap s2 s3 -> same_snap s1 s3.
Proof. unfold same_snap. intuition congruence. Qed.
Lemma same_cfPath s s' cf : same_snap s s' -> cfPath s' cf = cfPath s cf.
Proof. intros (Hk & Hs & _). unfold cfPath. by rewrite Hk, Hs. Qed.
Lemma same_metaPath s s' : same_snap s s' -> metaPath s' = metaPath s.
Proof. intros (Hk & Hs & _). unfold metaPath. by rewrite Hk, Hs. Qed.

Section Write.
Context (cs : list (list Z)) (Hsize : Forall (fun c => len c < two63) cs).

(** The part [w] of the [j]-th file was written. *)
Definition has_written (m : SnapManager) (s : Snap) (j : nat) (c w : list Z) : Prop :=
  exists cf, sn_CFFiles s !! j = Some (file_at cf c w)
    /\ (c <> [] -> sm_files m !! tmp (cfPath s cf) = Some w) /\ w `prefix_of` c.
Record writing (s : Snap) (m : SnapManager) (w : list Z) : Prop := {
  wr_length : length (sn_CFFiles s) = length cs;
  wr_nodup : base.NoDup (map cf_CF (sn_CFFiles s));
  wr_done : forall j c, (j < sn_cfIndex s)%nat -> cs !! j = Some c -> has_written m s j c c;
  wr_cur : forall c, cs !! sn_cfIndex s = Some c -> has_written m s (sn_cfIndex s) c w;
  wr_later : forall j c, (sn_cfIndex s < j)%nat -> cs !! j = Some c -> has_written m s j c [];
}.
Definition to_write (s : Snap) (w : list Z) : list Z :=
  match cs !! sn_cfIndex s with Some c => drop (length w) c | None => [] end ++ concat (drop (S (sn_cfIndex s)) cs).

(** The current file is complete. *)
Lemma writing_next s m c : writing s m c -> cs !! sn_cfIndex s = Some c ->
  writing (s <| sn_cfIndex ::= S |>) m [] /\ to_write (s <| sn_cfIndex ::= S |>) [] = to_write s c.
Proof.
  intros [Hl Hn Hd Hc Hz] Hcs. split.
  - split; try done.
    + intros j c' Hj Hj'. cbn in Hj. destruct (decide (j = sn_cfIndex s)) as [->|].
      * rewrite Hcs in Hj'. injection Hj' as <-. by apply Hc.
      * apply Hd; [lia|done].
    + intros c' Hc'. cbn in Hc'. apply Hz; [cbn; lia|done].
    + intros j c' Hj. cbn in Hj. apply Hz. lia.
  - unfold to_write. cbn [sn_cfIndex set_sn_cfIndex upd]. rewrite Hcs, (drop_ge c) by done. cbn [app].
    destruct (cs !! S (sn_cfIndex s)) as [c'|] eqn:Hc'; [by rewrite (drop_S _ _ _ Hc')|].
    apply lookup_ge_None in Hc'. by rewrite !drop_ge by lia.
Qed.

(** The bookkeeping of a file when more is written. *)
Lemma file_at_write cf c w bs j : cs !! j = Some c -> w ++ bs `prefix_of` c ->
  (file_at cf c w) <| cf_WriteDigest ::= fun d => crcUpdate d bs |> <| cf_WrittenSize ::= fun w => w ⊞ len bs |>
    <| cf_pos ::= Z.add (len bs) |> = file_at cf c (w ++ bs).
Proof.
  intros Hc Hp. unfold file_at, upd, set_cf_WriteDigest, set_cf_WrittenSize, set_cf_pos.
  cbn [cf_CF cf_KVCount cf_Size cf_WrittenSize cf_Checksum
       cf_WriteDigest cf_pairs cf_pos]. f_equal.
  - rewrite u64_add_small; [by rewrite len_app|]. rewrite <- len_app. unfold is_u64. split; [apply len_nonneg|].
    apply prefix_length in Hp. rewrite list.Forall_lookup in Hsize. specialize (Hsize _ _ Hc). cbn in Hsize.
    unfold len in *. unfold two63, two64 in *. lia.
  - unfold crc32. by rewrite crcUpdate_app.
  - rewrite len_app. lia.
Qed.
Lemma has_written_other s m cf f p' j c w : base.NoDup (map cf_CF (sn_CFFiles s)) ->
  sn_CFFiles s !! sn_cfIndex s = Some f -> cf_CF f = cf -> j <> sn_cfIndex s -> has_written m s j c w ->
  forall f', has_written (m <| sm_files := <[tmp (cfPath s cf) := p']> (sm_files m) |>)
    (s <| sn_CFFiles := <[sn_cfIndex s := f']> (sn_CFFiles s) |>) j c w.
Proof.
  intros Hn Hf Hcf Hj (cf' & Hl & Hw & Hp) f'. exists cf'. cbn [sn_CFFiles set_sn_CFFiles upd].
  rewrite list_lookup_insert_ne by done. split; [done|]. split; [|done]. intros Hc. cbn [sm_files set_sm_files upd].
  rewrite lookup_insert_ne; [by apply Hw|]. intros Heq%tmp_inj.
  apply (cfPath_inj s cf cf') in Heq. apply Hj.
  eapply (list.NoDup_lookup _ _ _ cf Hn).
  - change (map cf_CF (sn_CFFiles s)) with (cf_CF <$> sn_CFFiles s). rewrite list_lookup_fmap, Hl. cbn. by rewrite Heq.
  - change (map cf_CF (sn_CFFiles s)) with (cf_CF <$> sn_CFFiles s). rewrite list_lookup_fmap, Hf. cbn. by rewrite Hcf.
Qed.
Lemma writePart_ok s m w cf c bs : writing s m w -> cs !! sn_cfIndex s = Some c -> c <> [] ->
  sn_CFFiles s !! sn_cfIndex s = Some (file_at cf c w) -> w ++ bs `prefix_of` c ->
  exists s' m', writePart s (file_at cf c w) bs m = (m', Ret s') /\ writing s' m' (w ++ bs)
    /\ sn_cfIndex s' = sn_cfIndex s /\ same_snap s s' /\ cf_frame s m m'.
Proof.
  intros [Hl Hn Hd Hc Hz] Hcs Hne Hf Hp. destruct (Hc c Hcs) as (cf' & Hf' & Hw & _).
  rewrite Hf in Hf'. injection Hf' as <-.
  set (s' := s <| sn_CFFiles := <[sn_cfIndex s := file_at cf c (w ++ bs)]> (sn_CFFiles s) |>).
  set (m' := m <| sm_files := <[tmp (cfPath s cf) := w ++ bs]> (sm_files m) |>).
  exists s', m'. split; [|split].
  - unfold writePart, sm_bind, write_at, sm_ret. rewrite (file_at_write cf c w bs _ Hcs Hp).
    unfold upd, set_sm_files, set_sn_CFFiles. cbn [cf_CF file_at cf_pos]. rewrite (Hw Hne). cbn [default].
    by rewrite overwrite_end.
  - pose proof (lookup_lt_Some _ _ _ Hf) as Hlt.
    assert (Hmap : map cf_CF (sn_CFFiles s') = map cf_CF (sn_CFFiles s)).
    { cbn [s' sn_CFFiles set_sn_CFFiles upd]. change (map cf_CF) with (fmap (M:=list) cf_CF). rewrite list_fmap_insert.
      apply list_insert_id. by rewrite list_lookup_fmap, Hf. }
    split.
    + cbn [s' sn_CFFiles set_sn_CFFiles upd]. by rewrite length_insert.
    + by rewrite Hmap.
    + intros j c' Hj Hj'. apply (has_written_other s m cf (file_at cf c w)); [done|done|done|cbn in Hj; lia|by apply Hd].
    + cbn [s' sn_cfIndex set_sn_CFFiles upd]. intros c' Hc'. rewrite Hcs in Hc'. injection Hc' as <-. exists cf.
      cbn [s' sn_CFFiles set_sn_CFFiles upd]. rewrite list_lookup_insert_eq by done. split; [done|]. split; [|done].
      intros _. apply lookup_insert_eq.
    + intros j c' Hj Hj'. apply (has_written_other s m cf (file_at cf c w)); [done|done|done|cbn in Hj; lia|by apply Hz].
  - split; [done|]. split; [split_and!; try done|split; [done|]].
    + cbn [s' sn_CFFiles set_sn_CFFiles upd]. change (map cf_CF) with (fmap (M:=list) cf_CF). rewrite list_fmap_insert.
      apply list_insert_id. by rewrite list_lookup_fmap, Hf.
    + intros p Hpp. cbn [m' sm_files set_sm_files upd]. by rewrite lookup_insert_ne by (by apply not_eq_sym).
Qed.

(** A buffer that continues what was written is written as a whole. *)
Lemma writeLoop_ok k : forall s m w b rest total, writing s m w -> b <> [] -> to_write s w = b ++ rest ->
  (length cs - sn_cfIndex s < k)%nat ->
  exists s' m' w', writeLoop k s total b m = (m', Ret (s', total)) /\ writing s' m' w' /\ to_write s' w' = rest
    /\ same_snap s s' /\ cf_frame s m m'.
Proof.
  induction k as [|k IH]; intros s m w b rest total Hw Hb Heq Hk; [lia|]. cbn [writeLoop].
  destruct (cs !! sn_cfIndex s) as [c|] eqn:Hcs.
  2: { unfold to_write in Heq. rewrite Hcs in Heq. apply lookup_ge_None in Hcs. rewrite drop_ge in Heq by lia.
       by destruct b. }
  pose proof (lookup_lt_Some _ _ _ Hcs) as Hlt.
  destruct (wr_cur _ _ _ Hw c Hcs) as (cf & Hf & Hfile & [r Hr]). rewrite Hf.
  assert (Hnext : w = c ->
    exists s' m' w', writeLoop k (s <| sn_cfIndex ::= S |>) total b m = (m', Ret (s', total)) /\ writing s' m' w'
      /\ to_write s' w' = rest /\ same_snap s s' /\ cf_frame s m m').
  { intros ->. destruct (writing_next s m c Hw Hcs) as [Hw' Ht].
    destruct (IH (s <| sn_cfIndex ::= S |>) m [] b rest total Hw' Hb) as (s' & m' & w' & Hx); [congruence|cbn; lia|].
    exists s', m', w'. exact Hx. }
  cbn [cf_Size file_at cf_WrittenSize]. destruct (Z.eqb_spec (len c) 0) as [Hz|Hz].
  { apply len_0_nil in Hz as ->. apply Hnext. by destruct w. }
  assert (Hlen : len c = len w + len r) by (rewrite Hr; apply len_app).
  assert (Hsm : len c < two63). { rewrite list.Forall_lookup in Hsize. exact (Hsize _ _ Hcs). }
  pose proof (len_nonneg r) as Hr0. pose proof (len_nonneg w) as Hw0.
  assert (Hleft : len c ⊟ len w = len r).
  { rewrite u64_sub_small; [lia|]. unfold is_u64. unfold two63, two64 in *. lia. }
  rewrite Hleft. destruct (Z.eqb_spec (len r) 0) as [Hrz|Hrz].
  { apply Hnext. apply len_0_nil in Hrz as ->. by rewrite app_nil_r in Hr. }
  assert (Hne : c <> []) by (by intros ->). rewrite int64_small by (unfold two63 in *; lia).
  unfold to_write in Heq. rewrite Hcs, Hr, drop_app_length in Heq.
  destruct (Z.gtb_spec (len b) (len r)) as [Hgt|Hle].
  - assert (Hb2 : exists b2, b = r ++ b2 /\ concat (drop (S (sn_cfIndex s)) cs) = b2 ++ rest /\ b2 <> []).
    { apply app_eq_inv in Heq as [(k1 & -> & Hx)|(k1 & -> & Hx)].
      - rewrite len_app in Hgt. pose proof (len_nonneg k1). lia.
      - exists k1. split; [done|]. split; [done|]. intros ->. rewrite app_nil_r in Hgt. lia. }
    destruct Hb2 as (b2 & -> & Hrest & Hb2). unfold sm_bind at 1, sm_lift at 1, slice_to.
    rewrite slice_ok by (rewrite ?len_app; pose proof (len_nonneg b2); lia).
    replace (take (Z.to_nat (len r - 0)) (drop (Z.to_nat 0) (r ++ b2))) with r.
    2: { change (drop (Z.to_nat 0) (r ++ b2)) with (r ++ b2). unfold len. rewrite Z.sub_0_r, Nat2Z.id.
         by rewrite take_app_length. }
    destruct (writePart_ok s m w cf c r Hw Hcs Hne Hf) as (s1 & m1 & Hp & Hw1 & Hi & Hs1 & Hf1); [by rewrite <- Hr|].
    unfold sm_bind at 1. rewrite Hp. unfold sm_bind, sm_lift. rewrite slice_from_app.
    rewrite <- Hr in Hw1. rewrite <- Hi in Hcs. destruct (writing_next s1 m1 c Hw1 Hcs) as [Hw2 Ht].
    destruct (IH (s1 <| sn_cfIndex ::= S |>) m1 [] b2 rest total Hw2 Hb2) as (s' & m' & w' & Hx & Hwr & Hto & Hss & Hff).
    + rewrite Ht. unfold to_write. rewrite Hcs, drop_ge by done. by rewrite Hi.
    + cbn. lia.
    + exists s', m', w'. split; [exact Hx|]. split; [exact Hwr|]. split; [exact Hto|].
      split; [exact (same_snap_trans _ _ _ Hs1 Hss)|]. eapply cf_frame_trans; [exact Hf1|].
      destruct Hff as [Hreg Hfr]. split; [exact Hreg|]. intros p Hpp. apply Hfr. intros cf0.
      change (cfPath (s1 <| sn_cfIndex ::= S |>) cf0) with (cfPath s1 cf0). by rewrite (same_cfPath s s1).
  - assert (Hb2 : exists r2, r = b ++ r2 /\ r2 ++ concat (drop (S (sn_cfIndex s)) cs) = rest).
    { apply app_eq_inv in Heq as [(k1 & -> & Hx)|(k1 & -> & Hx)]; [by exists k1|].
      rewrite len_app in Hle. pose proof (len_nonneg k1). assert (Hk1 : len k1 = 0) by lia.
      apply len_0_nil in Hk1 as ->. exists []. by rewrite !app_nil_r. }
    destruct Hb2 as (r2 & -> & Hrest).
    destruct (writePart_ok s m w cf c b Hw Hcs Hne Hf) as (s1 & m1 & Hp & Hw1 & Hi & Hs1 & Hf1).
    { exists r2. by rewrite <- app_assoc. }
    unfold sm_bind. rewrite Hp. exists s1, m1, (w ++ b). split; [done|]. split; [exact Hw1|]. split; [|done].
    unfold to_write. rewrite Hi, Hcs, Hr, app_assoc, drop_app_length. exact Hrest.
Qed.

(** Chunks that make up what is left complete the snapshot, however they are cut. *)
Lemma recvLoop_ok chunks : forall s m w, writing s m w -> Forall (fun ch => ch <> []) chunks ->
  to_write s w = concat chunks ->
  exists s' m' w', recvLoop s chunks m = (m', Ret s') /\ writing s' m' w' /\ to_write s' w' = []
    /\ same_snap s s' /\ cf_frame s m m'.
Proof.
  induction chunks as [|data chunks IH]; intros s m w Hw Hne Heq; cbn [recvLoop concat] in *.
  - exists s, m, w. split; [done|]. split; [done|]. split; [done|]. split; [done|]. by split.
  - apply list.Forall_cons in Hne as [Hd Hne].
    destruct (Z.eqb_spec (len data) 0) as [Hz%len_0_nil|Hz]; [done|]. unfold sm_bind, snapWrite.
    destruct (Z.eqb_spec (len data) 0); [done|].
    destruct (writeLoop_ok (S (length (sn_CFFiles s))) s m w data (concat chunks) (len data) Hw Hd Heq)
      as (s1 & m1 & w1 & -> & Hw1 & Ht1 & Hs1 & Hf1); [rewrite (wr_length _ _ _ Hw); lia|].
    rewrite Z.ltb_irrefl. destruct (IH s1 m1 w1 Hw1 Hne Ht1) as (s' & m' & w' & -> & Hw' & Ht' & Hs' & Hf').
    exists s', m', w'. split; [done|]. split; [done|]. split; [done|].
    split; [exact (same_snap_trans _ _ _ Hs1 Hs')|]. eapply cf_frame_trans; [exact Hf1|].
    destruct Hf' as [Hreg Hfr]. split; [done|]. intros p Hp. apply Hfr. intros cf. by rewrite (same_cfPath s s1).
Qed.

(** Then every file is written. *)
Lemma writing_complete s m w : writing s m w -> to_write s w = [] ->
  forall j c, cs !! j = Some c -> has_written m s j c c.
Proof.
  intros [Hl Hn Hd Hc Hz] Ht j c Hj. unfold to_write in Ht. apply app_eq_nil in Ht as [Hcur Hrest].
  destruct (lt_eq_lt_dec j (sn_cfIndex s)) as [[Hlt| ->]|Hgt]; [by apply Hd| |].
  - rewrite Hj in Hcur. destruct (Hc c Hj) as (cf & Hf & Hw & [r ->]). rewrite drop_app_length in Hcur. subst r.
    rewrite app_nil_r in *. by exists cf.
  - assert (c = []) as ->.
    { apply (list.Forall_lookup_1 (fun c => c = []) (drop (S (sn_cfIndex s)) cs) (j - S (sn_cfIndex s))).
      - clear -Hrest. induction (drop _ cs) as [|x l IH]; [constructor|]. cbn in Hrest.
        apply app_eq_nil in Hrest as [-> Hrest]. constructor; [done|by apply IH].
      - rewrite lookup_drop. rewrite <- Hj. f_equal. lia. }
    by apply Hz.
Qed.
End Write.

(** ** Receiving *)
Definition files_of (l : list (list Z * list Z)) : list CFFile := map (fun p => file_at p.1 p.2 p.2) l.
(** Files whose names are not those of some column families, nor their temporary names. *)
Definition others (s : Snap) (l : list (list Z * list Z)) (p : list Z) : Prop :=
  forall cf c, (cf, c) ∈ l -> p <> cfPath s cf /\ p <> tmp (cfPath s cf).

Lemma saveReceived_ok s cf c m : c <> [] -> len c < two63 -> sm_files m !! tmp (cfPath s cf) = Some c ->
  exists m', saveReceived s (file_at cf c c) m = (m', Ret tt) /\ sm_registry m' = sm_registry m
    /\ sm_files m' = <[cfPath s cf := c]> (delete (tmp (cfPath s cf)) (sm_files m)).
Proof.
  intros Hne Hlt Hf. unfold saveReceived. cbn [cf_CF cf_Size cf_WrittenSize cf_Checksum cf_WriteDigest file_at].
  destruct (Z.eqb_spec (len c) 0) as [Hz%len_0_nil|]; [done|]. rewrite !Z.eqb_refl. cbn [negb].
  unfold Rename, sm_bind, read_file. rewrite Hf. unfold addSnapSize. eexists. split; [reflexivity|]. done.
Qed.
Lemma saveAll_ok s : forall l m, base.NoDup l.*1 -> Forall (fun p => len p.2 < two63) l ->
  (forall cf c, (cf, c) ∈ l -> c <> [] -> sm_files m !! tmp (cfPath s cf) = Some c) ->
  exists m' u, sm_mapM (saveReceived s) (files_of l) m = (m', Ret u) /\ sm_registry m' = sm_registry m
    /\ (forall cf c, (cf, c) ∈ l -> sm_files m' !! cfPath s cf = if bool_decide (c = []) then sm_files m !! cfPath s cf else Some c)
    /\ (forall p, others s l p -> sm_files m' !! p = sm_files m !! p).
Proof.
  induction l as [|[cf c] l IH]; intros m Hn Hs Ht; cbn [files_of map sm_mapM].
  { exists m, []. split; [done|]. split; [done|]. split; [by intros ?? ?%elem_of_nil|done]. }
  cbn in Hn. apply list.NoDup_cons in Hn as [Hni Hn]. apply list.Forall_cons in Hs as [Hc Hs]. cbn [fst snd] in *.
  assert (Hneq : forall cf' c', (cf', c') ∈ l -> cf' <> cf).
  { intros cf' c' Hin ->. apply Hni. apply list_elem_of_fmap. by exists (cf, c'). }
  assert (Hstep : exists m1, saveReceived s (file_at cf c c) m = (m1, Ret tt) /\ sm_registry m1 = sm_registry m
    /\ (sm_files m1 !! cfPath s cf = if bool_decide (c = []) then sm_files m !! cfPath s cf else Some c)
    /\ forall p, p <> cfPath s cf -> p <> tmp (cfPath s cf) -> sm_files m1 !! p = sm_files m !! p).
  { case_bool_decide as Hce.
    - exists m. subst c. done.
    - destruct (saveReceived_ok s cf c m Hce Hc (Ht cf c ltac:(by left) Hce)) as (m1 & Hm & Hr & Hf).
      exists m1. split; [done|]. split; [done|]. rewrite Hf. split; [apply lookup_insert_eq|].
      intros p H1 H2. by rewrite lookup_insert_ne, lookup_delete_ne by (by apply not_eq_sym). }
  destruct Hstep as (m1 & Hm1 & Hr1 & Hcf & Ho1). unfold sm_bind. rewrite Hm1. fold (files_of l).
  destruct (IH m1 Hn Hs) as (m' & u & -> & Hr & Hf & Ho).
  { intros cf' c' Hin Hne. rewrite Ho1; [|apply tmp_cf|]; [|intros Heq%tmp_inj%cfPath_inj; by eapply Hneq].
    apply Ht; [by right|done]. }
  exists m', (tt :: u). split; [done|]. split; [congruence|]. split.
  - intros cf' c' [[= -> ->]|Hin]%elem_of_cons.
    + rewrite Ho; [done|]. intros cf' c' Hin. split; [|apply not_eq_sym, tmp_cf].
      intros Heq%cfPath_inj. by eapply Hneq.
    + rewrite (Hf cf' c' Hin). destruct (bool_decide (c' = [])); [|done]. apply Ho1; [|apply not_eq_sym, tmp_cf].
      intros Heq%cfPath_inj. by eapply Hneq.
  - intros p Hp. rewrite Ho by (intros cf' c' Hin; apply (Hp cf' c'); by right). by apply Ho1; apply (Hp cf c); left.
Qed.

(** Opening the files of a snapshot to receive. *)
Definition openOne (s : Snap) (f : CFFile) : smM CFFile :=
  if cf_Size f =? 0 then sm_ret f else
  run! OpenFile (tmp (cfPath s (cf_CF f))) then sm_ret (f <| cf_pos := 0 |> <| cf_WriteDigest := 0 |>).
Lemma openAll_ok s : forall l m, base.NoDup l.*1 ->
  (forall cf c, (cf, c) ∈ l -> sm_files m !! tmp (cfPath s cf) = None) ->
  exists m', sm_mapM (openOne s) (map (fun p => file_at p.1 p.2 []) l) m = (m', Ret (map (fun p => file_at p.1 p.2 []) l))
    /\ sm_registry m' = sm_registry m
    /\ (forall cf c, (cf, c) ∈ l -> c <> [] -> sm_files m' !! tmp (cfPath s cf) = Some [])
    /\ (forall p, others s l p \/ (exists cf, p = cfPath s cf) -> sm_files m' !! p = sm_files m !! p).
Proof.
  induction l as [|[cf c] l IH]; intros m Hn Ht; cbn [map sm_mapM].
  { exists m. split; [done|]. split; [done|]. split; [by intros ?? ?%elem_of_nil|done]. }
  cbn in Hn. apply list.NoDup_cons in Hn as [Hni Hn].
  assert (Hneq : forall cf' c', (cf', c') ∈ l -> cf' <> cf).
  { intros cf' c' Hin ->. apply Hni. apply list_elem_of_fmap. by exists (cf, c'). }
  assert (Hstep : exists m1, openOne s (file_at cf c []) m = (m1, Ret (file_at cf c [])) /\ sm_registry m1 = sm_registry m
    /\ (c <> [] -> sm_files m1 !! tmp (cfPath s cf) = Some [])
    /\ forall p, p <> tmp (cfPath s cf) -> sm_files m1 !! p = sm_files m !! p).
  { unfold openOne. cbn [cf_Size cf_CF file_at]. destruct (Z.eqb_spec (len c) 0) as [Hz%len_0_nil|Hz].
    - exists m. by subst c.
    - unfold sm_bind, OpenFile. rewrite FileExists_eq, (Ht cf c ltac:(by left)). eexists. split; [reflexivity|].
      split; [done|]. split; [intros _; apply lookup_insert_eq|]. intros p Hp. apply lookup_insert_ne. by apply not_eq_sym. }
  destruct Hstep as (m1 & Hm1 & Hr1 & Hcf & Ho1). unfold sm_bind. cbn [fst snd]. rewrite Hm1.
  destruct (IH m1 Hn) as (m' & -> & Hr & Hf & Ho).
  { intros cf' c' Hin. rewrite Ho1; [apply (Ht cf' c'); by right|]. intros Heq%tmp_inj%cfPath_inj. by eapply Hneq. }
  exists m'. split; [done|]. split; [congruence|]. split.
  - intros cf' c' [[= -> ->]|Hin]%elem_of_cons Hne; [|by apply (Hf cf' c')].
    rewrite Ho; [by apply Hcf|]. left. intros cf' c' Hin. split; [apply tmp_cf|].
    intros Heq%tmp_inj%cfPath_inj. by eapply Hneq.
  - intros p Hp. rewrite Ho; [apply Ho1|].
    + destruct Hp as [Hp|[cf' ->]]; [by apply (Hp cf c); left|apply not_eq_sym, tmp_cf].
    + destruct Hp as [Hp|Hp]; [left|by right]. intros cf' c' Hin. apply (Hp cf' c'). by right.
Qed.

Lemma zip_with_map {A B C} (f : A -> B -> C) l k : zip_with f l k = map (fun p => f p.1 p.2) (zip l k).
Proof. revert k. induction l as [|x l IH]; intros [|y k]; cbn; [done..|]. by rewrite IH. Qed.
Lemma zip_lookup_elem {A B} (l : list A) (k : list B) x y :
  (x, y) ∈ zip l k <-> exists j, l !! j = Some x /\ k !! j = Some y.
Proof.
  rewrite list_elem_of_lookup. split; intros [j Hj]; exists j.
  - by apply lookup_zip_with_Some in Hj as (? & ? & [= -> ->] & Hx & Hy).
  - apply lookup_zip_with_Some. exists x, y. by destruct Hj.
Qed.
Lemma CFs_nodup : base.NoDup CFs.
Proof. repeat (apply list.NoDup_cons; split; [vm_compute; set_solver|]). apply list.NoDup_nil. done. Qed.

Section Receive.
Context (metaBytes : SnapshotMeta -> list Z) (metaOf : list Z -> option SnapshotMeta).
Context (cs : list (list Z)) (Hlen : length cs = length CFs) (Hsize : Forall (fun c => len c < two63) cs).
Context (key : SnapKey).
Abbreviation s0 := (bare key false).

Lemma zip_nodup : base.NoDup (zip CFs cs).*1.
Proof. rewrite fst_zip by (rewrite Hlen; done). apply CFs_nodup. Qed.

(** Ready to receive. *)
Record ready_to_receive (s : Snap) (m : SnapManager) : Prop := {
  rr_same : same_snap (loaded key false cs) s;
  rr_writing : writing cs s m [];
  rr_all : to_write cs s [] = concat cs;
  rr_none : snapExists s m = false;
  rr_meta : sm_files m !! tmp (metaPath s0) = Some [];
  rr_files : forall cf, sm_files m !! cfPath s0 cf = None;
}.
Lemma NewSnapForReceiving_ok m : fresh s0 m ->
  exists s m', NewSnapForReceiving metaOf key (metas CFs cs) m = (m', Ret s) /\ sm_registry m' = sm_registry m
    /\ ready_to_receive s m'.
Proof.
  intros Hfr. pose proof Hfr as (Hm & Htm & Hcf). unfold NewSnapForReceiving, sm_bind at 1.
  rewrite (NewSnap_fresh _ _ _ _ _ Hfr). unfold sm_bind at 1.
  rewrite setSnapshotMeta_ok; [|done|intros j cf c _ _; left; exact (proj1 (Hcf cf))].
  assert (Hex : forall m, sm_files m !! metaPath s0 = None -> snapExists (loaded key false cs) m = false).
  { intros m0 Hm0. unfold snapExists. rewrite FileExists_eq. change (metaPath (loaded key false cs)) with (metaPath s0).
    by rewrite Hm0, andb_false_r. }
  rewrite (Hex m Hm). unfold sm_bind at 1, OpenFile at 1. rewrite FileExists_eq.
  change (metaPath (loaded key false cs)) with (metaPath s0). rewrite Htm. cbn beta iota.
  set (m1 := upd sm_files _ m).
  assert (Hm1 : forall p, p <> tmp (metaPath s0) -> sm_files m1 !! p = sm_files m !! p).
  { intros p Hp. apply lookup_insert_ne. by apply not_eq_sym. }
  assert (Htm1 : sm_files m1 !! tmp (metaPath s0) = Some []) by apply lookup_insert_eq.
  destruct (openAll_ok (loaded key false cs) (zip CFs cs) m1 zip_nodup) as (m2 & Hopen & Hreg & Htmp & Hoth).
  { intros cf c _. rewrite Hm1; [exact (proj2 (Hcf cf))|]. intros Heq%tmp_inj. by eapply cf_meta. }
  rewrite <- (zip_with_map (fun cf c => file_at cf c []) CFs cs) in Hopen. unfold sm_bind at 1. change (sn_CFFiles (loaded key false cs)) with
    (zip_with (fun cf c => file_at cf c []) CFs cs). unfold openOne in Hopen. rewrite Hopen. unfold sm_ret.
  eexists _, m2. split; [reflexivity|]. split; [done|].
  assert (Hmeta2 : forall p, p = metaPath s0 \/ p = tmp (metaPath s0) -> sm_files m2 !! p = sm_files m1 !! p).
  { intros p Hp. apply Hoth. left. intros cf c _. change (cfPath (loaded key false cs)) with (cfPath s0).
    destruct Hp as [-> | ->]; (split; [auto with names|]).
    - apply not_eq_sym, tmp_meta.
    - intros Heq%tmp_inj. apply not_eq_sym in Heq; [done|]. apply cf_meta. }
  assert (Hcf2 : forall cf, sm_files m2 !! cfPath s0 cf = None).
  { intros cf. rewrite Hoth by (right; by exists cf). rewrite Hm1 by (apply not_eq_sym, tmp_cf). exact (proj1 (Hcf cf)). }
  set (s := _ <| sn_holdTmpFiles := true |>).
  assert (Hall : forall j c, cs !! j = Some c -> has_written m2 s j c []).
  { intros j c Hc. destruct (lookup_lt_is_Some_2 CFs j) as [cf Hj].
    { rewrite <- Hlen. by apply lookup_lt_Some in Hc. }
    exists cf. split; [|split; [|apply prefix_nil]].
    - change (sn_CFFiles s) with (zip_with (fun cf c => file_at cf c []) CFs cs). apply lookup_zip_with_Some. by exists cf, c.
    - intros Hne. apply (Htmp cf c); [|done]. apply zip_lookup_elem. by exists j. }
  split; try done.
  - split; cbn [sn_CFFiles sn_cfIndex].
    + change (sn_CFFiles s) with (zip_with (fun cf c => file_at cf c []) CFs cs). rewrite length_zip_with, Hlen. done.
    + change (sn_CFFiles s) with (zip_with (fun cf c => file_at cf c []) CFs cs). rewrite zip_with_map, map_map.
      cbn [cf_CF file_at]. apply zip_nodup.
    + intros j c Hj. inversion Hj.
    + intros c. apply Hall.
    + intros j c _. apply Hall.
  - unfold to_write. cbn. destruct cs; [done|]. done.
  - change (snapExists (loaded key false cs) m2 = false). apply Hex. rewrite Hmeta2 by (by left). rewrite Hm1; [done|].
    apply not_eq_sym, tmp_meta.
  - rewrite Hmeta2 by (by right). done.
Qed.

(** A complete snapshot is saved under its names. *)
Lemma Save_ok s m : same_snap (loaded key false cs) s -> (forall j c, cs !! j = Some c -> has_written m s j c c) ->
  length (sn_CFFiles s) = length cs ->
  sm_files m !! tmp (metaPath s0) = Some [] -> (forall cf, sm_files m !! cfPath s0 cf = None) ->
  exists s' m', Save metaBytes s m = (m', Ret s') /\ holds metaBytes s0 cs m'.
Proof.
  intros Hss Hall Hl Htm Hnone. pose proof Hss as (_ & _ & Hmt & Hcfs). unfold Save.
  assert (Hp : forall cf, cfPath s cf = cfPath s0 cf) by (intros cf; exact (same_cfPath _ _ cf Hss)).
  assert (Hmp : metaPath s = metaPath s0) by exact (same_metaPath _ _ Hss).
  assert (Hnames : map cf_CF (sn_CFFiles s) = CFs).
  { rewrite Hcfs. cbn [loaded sn_CFFiles]. rewrite zip_with_map, map_map. cbn [cf_CF file_at].
    apply (fst_zip CFs cs). by rewrite Hlen. }
  assert (Hfiles : sn_CFFiles s = files_of (zip CFs cs)).
  { apply list_eq. intros j. unfold files_of. change (map ?f (zip CFs cs)) with (f <$> zip CFs cs). rewrite list_lookup_fmap.
    destruct (cs !! j) as [c|] eqn:Hc.
    - destruct (Hall j c Hc) as (cf & Hj & _). rewrite Hj.
      assert (Hcf : CFs !! j = Some cf). { rewrite <- Hnames. change (map cf_CF) with (fmap (M:=list) cf_CF). by rewrite list_lookup_fmap, Hj. }
      by rewrite (proj2 (lookup_zip_with_Some _ _ _ _ _) (ex_intro _ cf (ex_intro _ c (conj eq_refl (conj Hcf Hc))))).
    - apply lookup_ge_None in Hc. rewrite (proj2 (lookup_ge_None _ _)) by lia.
      rewrite (proj2 (lookup_ge_None (zip CFs cs) _)); [done|]. rewrite length_zip_with. lia. }
  destruct (saveAll_ok s (zip CFs cs) m zip_nodup) as (m1 & u & Hsave & Hreg & Hf & Hoth).
  { apply list.Forall_forall. intros [cf c] (j & _ & Hc)%zip_lookup_elem. rewrite list.Forall_lookup in Hsize. exact (Hsize _ _ Hc). }
  { intros cf c (j & Hcf & Hc)%zip_lookup_elem Hne. destruct (Hall j c Hc) as (cf' & Hj & Hw & _).
    assert (cf' = cf) as ->; [|by apply Hw]. rewrite <- Hnames in Hcf. change (map cf_CF) with (fmap (M:=list) cf_CF) in Hcf.
    rewrite list_lookup_fmap, Hj in Hcf. by injection Hcf. }
  unfold sm_bind at 1. rewrite Hfiles, Hsave.
  assert (Htm1 : sm_files m1 !! tmp (metaPath s0) = Some []).
  { rewrite Hoth; [done|]. intros cf c _. split; [apply tmp_cf|]. intros Heq%tmp_inj. symmetry in Heq. by eapply cf_meta. }
  unfold sm_bind at 1, write_at. rewrite Hmp, Hmt. unfold upd, set_sm_files. rewrite Htm1. cbn [default].
  unfold sm_bind, Rename, sm_bind, read_file. cbn [sm_files]. rewrite lookup_insert_eq. cbn beta iota. eexists _, _. split; [reflexivity|].
  rewrite (overwrite_end [] (metaBytes _) : overwrite [] (Z.to_nat 0) (metaBytes _) = _). cbn [app].
  split; cbn [sm_files upd set_sm_files].
  - apply lookup_insert_eq.
  - intros j cf c Hcf Hc. rewrite lookup_insert_ne by (apply not_eq_sym, cf_meta).
    rewrite lookup_delete_ne, lookup_insert_ne by apply tmp_cf.
    rewrite <- Hp. rewrite (Hf cf c) by (apply zip_lookup_elem; by exists j). rewrite Hp, Hnone. done.
Qed.

Lemma receive_all s m chunks : ready_to_receive s m -> Forall (fun ch => ch <> []) chunks -> concat chunks = concat cs ->
  exists s' m', (do! s := recvLoop s chunks in Save metaBytes s) m = (m', Ret s') /\ holds metaBytes s0 cs m'.
Proof.
  intros [Hss Hw Ht _ Hm Hf] Hne Heq.
  destruct (recvLoop_ok cs Hsize chunks s m [] Hw Hne) as (s1 & m1 & w1 & Hr & Hw1 & Ht1 & Hs1 & [_ Hfr]); [congruence|].
  unfold sm_bind. rewrite Hr.
  assert (Hp : forall cf, cfPath s cf = cfPath s0 cf) by (intros cf; exact (same_cfPath _ _ cf Hss)).
  apply (Save_ok s1 m1).
  - exact (same_snap_trans _ _ _ Hss Hs1).
  - exact (writing_complete cs s1 m1 w1 Hw1 Ht1).
  - exact (wr_length _ _ _ _ Hw1).
  - rewrite Hfr; [done|]. intros cf Heq'%tmp_inj. symmetry in Heq'. by eapply cf_meta.
  - intros cf. rewrite Hfr; [done|]. intros cf'. apply not_eq_sym, tmp_cf.
Qed.
End Receive.

(** ** Building *)
Section Build.
Context {D : Type} `{BadgerLaws D}.
Context (metaBytes : SnapshotMeta -> list Z) (metaOf : list Z -> option SnapshotMeta).
Context (sst_build : list (list Z * list Z) -> list Z) (Hsst : forall l, l <> [] -> sst_build l <> []).

(** The pairs of a region in a column family, and the content of their file. *)
Definition cfPairs (txn : D) (region : Region) (cf : list Z) : list (list Z * list Z) :=
  map (fun p => (wb.KeyWithCF cf p.1, p.2)) (cfRange txn cf (rg_StartKey region) (rg_EndKey region)).
Definition content (pairs : list (list Z * list Z)) : list Z := if bool_decide (pairs = []) then [] else sst_build pairs.
Definition contents (txn : D) (region : Region) : list (list Z) := map (fun cf => content (cfPairs txn region cf)) CFs.

Lemma content_nil pairs : content pairs = [] <-> pairs = [].
Proof. unfold content. case_bool_decide; [done|]. split; [|done]. intros Hc. by apply Hsst in Hc. Qed.

Record built (pairs : list (list Z * list Z)) (cf : list Z) (f : CFFile) : Prop := {
  bu_cf : cf_CF f = cf;
  bu_count : cf_KVCount f = len pairs;
  bu_pairs : cf_pairs f = pairs;
  bu_pos : cf_pos f = 0;
  bu_empty : pairs = [] -> cf_Size f = 0 /\ cf_Checksum f = 0;
}.
Lemma buildFile_ok (txn : D) region cf :
  exists f, buildFile txn region (newCFFile cf) = Ret f /\ built (cfPairs txn region cf) cf f.
Proof.
  unfold buildFile, cfPairs. cbn [cf_CF newCFFile].
  rewrite (iterFrom_range _ (fun f key value => f <| cf_pairs ::= fun l => l ++ [(wb.KeyWithCF (cf_CF f) key, value)] |>
     <| cf_KVCount ::= Z.add 1 |> <| cf_Size ::= fun s => s ⊞ (len (wb.KeyWithCF (cf_CF f) key) + len value) |>)
     txn cf (rg_StartKey region) (rg_EndKey region)); [|by intros ??? ->..].
  eexists. split; [reflexivity|]. generalize (cfRange txn cf (rg_StartKey region) (rg_EndKey region)). intros l.
  induction l as [|[k v] l IH] using rev_ind; [by split|]. rewrite foldl_app. cbn [foldl fst snd].
  destruct IH as [Hcf Hct Hp Hpos _]. set (f := foldl _ _ l) in *. split; cbn.
  - exact Hcf.
  - rewrite Hct, map_app, len_app. cbn. change (len [_]) with 1. lia.
  - by rewrite Hp, Hcf, map_app.
  - exact Hpos.
  - intros Hn. rewrite map_app in Hn. by apply app_eq_nil in Hn as [_ ?].
Qed.

(** Steps of a computation that return. *)
Lemma sm_bind_eq {A B} (c : smM A) (k : A -> smM B) m m' a : c m = (m', Ret a) -> sm_bind c k m = k a m'.
Proof. intros Hc. unfold sm_bind. by rewrite Hc. Qed.
Lemma read_file_ok path m c : sm_files m !! path = Some c -> read_file path m = (m, Ret c).
Proof. intros Hp. unfold read_file. by rewrite Hp. Qed.
Lemma GetFileSize_ok path m c : sm_files m !! path = Some c -> GetFileSize path m = (m, Ret (len c)).
Proof. intros Hp. unfold GetFileSize. by rewrite (sm_bind_eq _ _ _ _ _ (read_file_ok _ _ _ Hp)). Qed.
Lemma CalcCRC32_ok path m c : sm_files m !! path = Some c -> CalcCRC32 path m = (m, Ret (crc32 c)).
Proof. intros Hp. unfold CalcCRC32. by rewrite (sm_bind_eq _ _ _ _ _ (read_file_ok _ _ _ Hp)). Qed.
Lemma Rename_ok old new m c : sm_files m !! old = Some c ->
  Rename old new m = (m <| sm_files := <[new := c]> (delete old (sm_files m)) |>, Ret tt).
Proof. intros Hp. unfold Rename. by rewrite (sm_bind_eq _ _ _ _ _ (read_file_ok _ _ _ Hp)). Qed.
Lemma write_at_start path bs m : sm_files m !! path = Some [] ->
  write_at path 0 bs m = (m <| sm_files := <[path := bs]> (sm_files m) |>, Ret tt).
Proof.
  intros Hp. unfold write_at, upd, set_sm_files. rewrite Hp. change (default [] (Some [])) with (@nil Z).
  by rewrite (overwrite_end [] bs : overwrite [] (Z.to_nat 0) bs = _).
Qed.

(** One file is saved. *)
Lemma saveCFFile_ok s m cf pairs f : built pairs cf f ->
  sm_files m !! tmp (cfPath s cf) = Some [] -> sm_files m !! cfPath s cf = None ->
  exists f' m', saveCFFile sst_build s f m = (m', Ret f') /\ cf_CF f' = cf /\ cf_Size f' = len (content pairs)
    /\ cf_Checksum f' = crc32 (content pairs)
    /\ (sm_files m' !! cfPath s cf = if bool_decide (content pairs = []) then None else Some (content pairs))
    /\ (forall p, p <> cfPath s cf -> p <> tmp (cfPath s cf) -> sm_files m' !! p = sm_files m !! p).
Proof.
  intros [Hcf Hct Hp Hpos He] Ht Hn. unfold saveCFFile. rewrite Hcf, Hct, Hp, Hpos. unfold content.
  case_bool_decide as Hnil.
  - destruct (He Hnil) as [Hs Hc]. rewrite Hnil. cbn [len length Z.of_nat Z.gtb Z.compare].
    rewrite (sm_bind_eq _ _ m m tt eq_refl), (sm_bind_eq _ _ _ _ _ (GetFileSize_ok _ _ _ Ht)).
    cbn [len length Z.of_nat Z.gtb Z.compare]. eexists f, _. split; [reflexivity|]. split; [done|].
    rewrite Hs, Hc. split; [done|]. split; [done|]. rewrite bool_decide_true by done. cbn [sm_files upd set_sm_files].
    split; [by rewrite lookup_delete_ne by apply tmp_cf|]. intros p _ Hp'. apply lookup_delete_ne. by apply not_eq_sym.
  - set (c := sst_build pairs). assert (Hc : c <> []) by (by apply Hsst).
    assert ((len pairs >? 0) = true) as ->. { destruct pairs; [done|]. rewrite len_cons. pose proof (len_nonneg pairs). lia. }
    assert (Hgt : (len c >? 0) = true). { destruct c; [done|]. rewrite len_cons. pose proof (len_nonneg c). lia. }
    rewrite (sm_bind_eq _ _ _ _ _ (write_at_start _ c m Ht)). set (m1 := m <| sm_files := _ |>).
    assert (Ht1 : sm_files m1 !! tmp (cfPath s cf) = Some c) by apply lookup_insert_eq.
    rewrite (sm_bind_eq _ _ _ _ _ (GetFileSize_ok _ _ _ Ht1)), Hgt.
    rewrite (sm_bind_eq _ _ _ _ _ (Rename_ok _ (cfPath s cf) m1 c Ht1)). set (m2 := m1 <| sm_files := _ |>).
    set (m3 := m2 <| sm_snapSize ::= fun z => int64 (z + len c) |>).
    rewrite (sm_bind_eq _ _ m2 m3 tt eq_refl).
    assert (Ht3 : sm_files m3 !! cfPath s cf = Some c) by apply lookup_insert_eq.
    rewrite (sm_bind_eq _ _ _ _ _ (CalcCRC32_ok _ _ _ Ht3)).
    eexists _, m3. split; [reflexivity|]. rewrite bool_decide_false by done. split_and!; try done.
    intros p H1 H2. cbn [m3 m2 m1 sm_files upd set_sm_files set_sm_snapSize].
    rewrite lookup_insert_ne, lookup_delete_ne, lookup_insert_ne by (by apply not_eq_sym). done.
Qed.

(** A file as it is described in the metadata. *)
Definition described (p : list Z * list (list Z * list Z)) (f : CFFile) : Prop :=
  cf_CF f = p.1 /\ cf_Size f = len (content p.2) /\ cf_Checksum f = crc32 (content p.2).
Lemma saveBuilt_ok s : forall l fs m, Forall2 (fun p f => built p.2 p.1 f) l fs -> base.NoDup l.*1 ->
  (forall cf pairs, (cf, pairs) ∈ l -> sm_files m !! tmp (cfPath s cf) = Some [] /\ sm_files m !! cfPath s cf = None) ->
  exists fs' m', sm_mapM (saveCFFile sst_build s) fs m = (m', Ret fs') /\ Forall2 described l fs'
    /\ (forall cf pairs, (cf, pairs) ∈ l ->
          sm_files m' !! cfPath s cf = if bool_decide (content pairs = []) then None else Some (content pairs))
    /\ (forall p, (forall cf pairs, (cf, pairs) ∈ l -> p <> cfPath s cf /\ p <> tmp (cfPath s cf)) ->
          sm_files m' !! p = sm_files m !! p).
Proof.
  intros l fs m Hall. revert m. induction Hall as [|[cf pairs] f l fs Hb Hall IH]; intros m Hn Hm; cbn [sm_mapM].
  { exists [], m. split; [done|]. split; [constructor|]. split; [by intros ?? ?%elem_of_nil|done]. }
  cbn in Hn. apply list.NoDup_cons in Hn as [Hni Hn]. destruct (Hm cf pairs ltac:(by left)) as [Ht Hnone].
  assert (Hneq : forall cf' pairs', (cf', pairs') ∈ l -> cf' <> cf).
  { intros cf' pairs' Hin ->. apply Hni. apply list_elem_of_fmap. by exists (cf, pairs'). }
  destruct (saveCFFile_ok s m cf pairs f Hb Ht Hnone) as (f1 & m1 & Hs1 & Hcf1 & Hsz1 & Hck1 & Hf1 & Ho1).
  rewrite (sm_bind_eq _ _ _ _ _ Hs1).
  destruct (IH m1 Hn) as (fs' & m' & Hs' & Hd & Hf' & Ho').
  { intros cf' pairs' Hin. destruct (Hm cf' pairs' ltac:(by right)) as [Ht' Hn']. pose proof (Hneq _ _ Hin) as Hne.
    rewrite !Ho1; [done|..]; auto with names; intros Heq; [apply cfPath_inj in Heq|apply tmp_inj, cfPath_inj in Heq]; done. }
  rewrite (sm_bind_eq _ _ _ _ _ Hs'). exists (f1 :: fs'), m'. split; [done|]. split; [by constructor|]. split.
  - intros cf' pairs' [[= -> ->]|Hin]%elem_of_cons; [|by apply (Hf' cf' pairs')].
    rewrite Ho'; [done|]. intros cf' pairs' Hin. split; [|apply not_eq_sym, tmp_cf].
    intros Heq%cfPath_inj. by eapply Hneq.
  - intros p Hp. rewrite Ho' by (intros cf' pairs' Hin; apply (Hp cf' pairs'); by right).
    by apply Ho1; apply (Hp cf pairs); left.
Qed.

(** Opening the files to build a snapshot. *)
Definition openBuild (s : Snap) (f : CFFile) : smM CFFile :=
  run! OpenFile (tmp (cfPath s (cf_CF f))) then sm_ret (f <| cf_pairs := [] |> <| cf_pos := 0 |>).
Lemma openBuild_all s : forall cfs m, (forall cf, sm_files m !! tmp (cfPath s cf) = None \/ sm_files m !! tmp (cfPath s cf) = Some []) ->
  exists m', sm_mapM (openBuild s) (map newCFFile cfs) m = (m', Ret (map newCFFile cfs))
    /\ sm_MaxTotalSize m' = sm_MaxTotalSize m
    /\ (forall cf, cf ∈ cfs -> sm_files m' !! tmp (cfPath s cf) = Some [])
    /\ (forall cf, sm_files m' !! tmp (cfPath s cf) = sm_files m !! tmp (cfPath s cf) \/ sm_files m' !! tmp (cfPath s cf) = Some [])
    /\ (forall p, (forall cf, p <> tmp (cfPath s cf)) -> sm_files m' !! p = sm_files m !! p).
Proof.
  induction cfs as [|cf cfs IH]; intros m Ht; cbn [map sm_mapM].
  { exists m. split; [done|]. split; [done|]. split; [by intros ? ?%elem_of_nil|]. split; [by left|done]. }
  assert (Hstep : exists m1, openBuild s (newCFFile cf) m = (m1, Ret (newCFFile cf)) /\ sm_MaxTotalSize m1 = sm_MaxTotalSize m
    /\ sm_files m1 !! tmp (cfPath s cf) = Some []
    /\ forall p, p <> tmp (cfPath s cf) -> sm_files m1 !! p = sm_files m !! p).
  { unfold openBuild, OpenFile, sm_bind. cbn [cf_CF newCFFile]. rewrite FileExists_eq.
    destruct (Ht cf) as [Hn|Hn]; rewrite Hn; (eexists; split; [reflexivity|split; [done|]]).
    - split; [apply lookup_insert_eq|]. intros p Hp. apply lookup_insert_ne. by apply not_eq_sym.
    - done. }
  destruct Hstep as (m1 & Hs1 & Hmax & Hcf & Ho1). rewrite (sm_bind_eq _ _ _ _ _ Hs1).
  assert (Hm1 : forall cf', sm_files m1 !! tmp (cfPath s cf') = sm_files m !! tmp (cfPath s cf') \/ sm_files m1 !! tmp (cfPath s cf') = Some []).
  { intros cf'. destruct (decide (cf' = cf)) as [->|Hne]; [by right|left]. apply Ho1.
    intros Heq%tmp_inj%cfPath_inj. done. }
  destruct (IH m1) as (m' & Hs' & Hmax' & Hin & Hor & Ho).
  { intros cf'. destruct (Hm1 cf') as [->|]; [apply Ht|by right]. }
  rewrite (sm_bind_eq _ _ _ _ _ Hs'). exists m'. split; [done|]. split; [congruence|]. split; [|split].
  - intros cf' [->|Hi]%elem_of_cons; [|by apply Hin]. destruct (Hor cf) as [->|]; done.
  - intros cf'. destruct (Hor cf') as [->|]; [apply Hm1|by right].
  - intros p Hp. rewrite Ho by done. by apply Ho1.
Qed.

(** A snapshot that is not there yet is opened, built and saved. *)
Context (key : SnapKey).
Abbreviation s1 := (bare key true).
Lemma NewSnapForBuilding_ok m : fresh s1 m ->
  exists m', NewSnapForBuilding metaOf key m = (m', Ret (s1 <| sn_holdTmpFiles := true |>))
    /\ sm_files m' !! tmp (metaPath s1) = Some [] /\ sm_files m' !! metaPath s1 = None
    /\ forall cf, cf ∈ CFs -> sm_files m' !! tmp (cfPath s1 cf) = Some [] /\ sm_files m' !! cfPath s1 cf = None.
Proof.
  intros Hfr. pose proof Hfr as (Hm & Htm & Hcf). unfold NewSnapForBuilding.
  rewrite (sm_bind_eq _ _ _ _ _ (NewSnap_fresh metaOf key true true m Hfr)). unfold initForBuilding.
  assert (snapExists s1 m = false) as ->.
  { unfold snapExists. by rewrite (FileExists_eq (metaPath s1)), Hm, andb_false_r. }
  set (m1 := m <| sm_files := <[tmp (metaPath s1) := []]> (sm_files m) |>).
  rewrite (sm_bind_eq _ _ m m1 tt) by (unfold OpenFile; by rewrite FileExists_eq, Htm).
  assert (Hm1 : forall p, p <> tmp (metaPath s1) -> sm_files m1 !! p = sm_files m !! p).
  { intros p Hp. apply lookup_insert_ne. by apply not_eq_sym. }
  assert (Hne : forall cf, tmp (cfPath s1 cf) <> tmp (metaPath s1)) by (intros cf Heq%tmp_inj; by eapply cf_meta).
  destruct (openBuild_all s1 CFs m1) as (m2 & Hopen & _ & Hin & _ & Ho).
  { intros cf. left. rewrite Hm1 by done. exact (proj2 (Hcf cf)). }
  rewrite (sm_bind_eq _ _ m1 m2 (map newCFFile CFs) Hopen). exists m2. split; [done|]. split; [|split].
  - rewrite Ho by (intros cf; by apply not_eq_sym). apply lookup_insert_eq.
  - rewrite Ho by (intros cf; apply not_eq_sym, tmp_meta). rewrite Hm1 by apply not_eq_sym, tmp_meta. done.
  - intros cf Hi. split; [by apply Hin|]. rewrite Ho by (intros cf'; apply not_eq_sym, tmp_cf).
    rewrite Hm1 by apply not_eq_sym, tmp_cf. exact (proj1 (Hcf cf)).
Qed.

Lemma buildFiles_ok (txn : D) region : forall cfs,
  exists fs, buildFiles txn region (map newCFFile cfs) = Ret fs
    /\ Forall2 (fun p f => built p.2 p.1 f) (map (fun cf => (cf, cfPairs txn region cf)) cfs) fs.
Proof.
  induction cfs as [|cf cfs IH]; cbn [map buildFiles]; [exists []; by split|].
  destruct (buildFile_ok txn region cf) as (f & -> & Hf). cbn beta iota. destruct IH as (fs & -> & Hfs).
  exists (f :: fs). split; [done|]. by constructor.
Qed.
Lemma genSnapshotMeta_ok m : forall l fs, Forall2 described l fs -> Forall (fun p => p.1 ∈ CFs) l ->
  genSnapshotMeta fs m = (m, Ret (metas l.*1 (map (fun p => content p.2) l))).
Proof.
  intros l fs Hd. unfold genSnapshotMeta. induction Hd as [|[cf pairs] f l fs (Hcf & Hs & Hc) Hd IH]; intros Hin; [done|].
  apply list.Forall_cons in Hin as [Hi Hin]. cbn [sm_mapM map metas zip_with fmap list_fmap fst snd] in *.
  rewrite Hcf, Hs, Hc. assert (existsb (fun cf0 => bool_decide (cf0 = cf)) CFs = true) as ->.
  { apply existsb_exists. exists cf. split; [by apply list_elem_of_In|by apply bool_decide_true]. }
  rewrite (sm_bind_eq _ _ m m _ eq_refl), (sm_bind_eq _ _ _ _ _ (IH Hin)). done.
Qed.
Lemma Build_ok (txn : D) region m :
  sm_files m !! tmp (metaPath s1) = Some [] -> sm_files m !! metaPath s1 = None ->
  (forall cf, cf ∈ CFs -> sm_files m !! tmp (cfPath s1 cf) = Some [] /\ sm_files m !! cfPath s1 cf = None) ->
  exists s' size n m', Build metaBytes sst_build txn region (s1 <| sn_holdTmpFiles := true |>) m
      = (m', Ret (s', size, metas CFs (contents txn region), n))
    /\ holds metaBytes s1 (contents txn region) m'.
Proof.
  intros Htm Hm Hcf. unfold Build. set (s := s1 <| sn_holdTmpFiles := true |>).
  assert (snapExists s m = false) as ->.
  { unfold snapExists. rewrite (FileExists_eq (metaPath s)). change (metaPath s) with (metaPath s1). by rewrite Hm, andb_false_r. }
  change (sn_CFFiles s) with (map newCFFile CFs). unfold build. destruct (buildFiles_ok txn region CFs) as (fs & -> & Hb).
  cbn beta iota. rewrite (sm_bind_eq _ _ m m _ eq_refl). set (s2 := s <| sn_CFFiles := fs |>). unfold saveCFFiles.
  set (l := map (fun cf => (cf, cfPairs txn region cf)) CFs) in *.
  destruct (saveBuilt_ok s2 l fs m Hb CFs_nodup) as (fs' & m1 & Hs & Hd & Hf & Ho).
  { intros cf pairs Hin. apply (Hcf cf). change l with ((fun cf => (cf, cfPairs txn region cf)) <$> CFs) in Hin.
    by apply list_elem_of_fmap in Hin as (cf' & [= -> _] & Hi). }
  change (sn_CFFiles s2) with fs. assert (Hsave : (do! files := sm_mapM (saveCFFile sst_build s2) fs in
    sm_ret (s2 <| sn_CFFiles := files |>)) m = (m1, Ret (s2 <| sn_CFFiles := fs' |>))) by (by rewrite (sm_bind_eq _ _ _ _ _ Hs)).
  rewrite (sm_bind_eq _ _ _ _ _ Hsave). cbn beta. change (sn_CFFiles (s2 <| sn_CFFiles := fs' |>)) with fs'.
  assert (Hgen : genSnapshotMeta fs' m1 = (m1, Ret (metas CFs (contents txn region)))).
  { rewrite (genSnapshotMeta_ok m1 l fs' Hd); [done|]. apply list.Forall_forall. intros p Hin.
    change l with ((fun cf => (cf, cfPairs txn region cf)) <$> CFs) in Hin. by apply list_elem_of_fmap in Hin as (cf & -> & Hi). }
  rewrite (sm_bind_eq _ _ _ _ _ Hgen). unfold saveMetaFile. cbn [sn_Meta].
  change (metaPath (_ <| sn_Meta := _ |>)) with (metaPath s1).
  assert (Htm1 : sm_files m1 !! tmp (metaPath s1) = Some []).
  { rewrite Ho; [done|]. intros cf pairs _. split; [apply tmp_cf|]. intros Heq%tmp_inj. symmetry in Heq. by eapply cf_meta. }
  set (b := metaBytes (sn_Meta _)). set (m2 := m1 <| sm_files := <[tmp (metaPath s1) := b]> (sm_files m1) |>).
  assert (Ht2 : sm_files m2 !! tmp (metaPath s1) = Some b) by apply lookup_insert_eq.
  set (m3 := m2 <| sm_files := <[metaPath s1 := b]> (delete (tmp (metaPath s1)) (sm_files m2)) |>).
  set (s3 := s2 <| sn_CFFiles := fs' |> <| sn_Meta := metas CFs (contents txn region) |> <| sn_holdTmpFiles := false |>).
  eexists s3, _, _, m3. split.
  - rewrite (sm_bind_eq _ _ m1 m3 s3); [reflexivity|]. rewrite (sm_bind_eq _ _ _ _ _ (write_at_start _ b m1 Htm1)).
    by rewrite (sm_bind_eq _ _ _ _ _ (Rename_ok _ (metaPath s1) m2 b Ht2)).
  - split; [apply lookup_insert_eq|]. intros j cf c Hj Hc. cbn [m3 m2 sm_files upd set_sm_files].
    rewrite lookup_insert_ne by (apply not_eq_sym, cf_meta). rewrite lookup_delete_ne, lookup_insert_ne by apply tmp_cf.
    unfold contents in Hc. change (map ?g CFs) with (g <$> CFs) in Hc. rewrite list_lookup_fmap, Hj in Hc. injection Hc as <-.
    apply (Hf cf). change l with ((fun cf => (cf, cfPairs txn region cf)) <$> CFs). apply list_elem_of_fmap.
    exists cf. split; [done|]. by apply list_elem_of_lookup_2 in Hj.
Qed.
End Build.
