(* ===== verification/SnapTransfer.v ===== *)
(** * SnapTransfer: from the leader to the follower

    The way of a snapshot through [doSnapshot], [sendSnap], [recvSnap] and [applySnap], a
    run in which a leftover temporary file spoils a snapshot, and the names of snapshots. *)

From stdpp Require Import base option list sorting strings gmap countable tactics.
From S2P Require Import Prelude.
From S2P Require Import GoHeap.
From S2P Require Import Wire.
From S2P Require Import Eraftpb.
From S2P Require Import EraftpbRound.
From S2P Require Import RaftServerpb.
From S2P Require Import Meta.
From S2P Require Import Metapb.
From S2P Require Import Engine.
From S2P Require Import EngineIter.
From S2P Require Import SnapFile.
From S2P Require Import PeerStorage.
From S2P Require Import RaftCmdpb.
From S2P Require Import SnapMgr.
From S2P Require Import SnapProps.
Open Scope snap_scope.

(** The registry is not looked at by what is done between registering and deregistering. *)
Lemma Register_files key e m : sm_files (Register key e m) = sm_files m
  /\ sm_snapSize (Register key e m) = sm_snapSize m /\ sm_MaxTotalSize (Register key e m) = sm_MaxTotalSize m.
Proof. unfold Register. by destruct (existsb _ _). Qed.
Lemma Deregister_files key e m : sm_files (Deregister key e m) = sm_files m.
Proof. unfold Deregister. destruct (removeEntry _ _) as [l|]; [|done]. by destruct (_ >? 0). Qed.
Lemma registered_ok {A} key e (c : smM A) m m' a : c (Register key e m) = (m', Ret a) ->
  exists m'', registered key e c m = (m'', Ret a) /\ sm_files m'' = sm_files m'.
Proof. intros Hc. unfold registered. rewrite Hc. eexists. split; [reflexivity|]. apply Deregister_files. Qed.
Lemma holds_files metaBytes s cs m m' : sm_files m' = sm_files m -> holds metaBytes s cs m -> holds metaBytes s cs m'.
Proof. intros Heq [Hm Hf]. split; rewrite Heq; done. Qed.
Lemma fresh_files s m m' : sm_files m' = sm_files m -> fresh s m -> fresh s m'.
Proof. unfold fresh. by intros ->. Qed.

(** ** Sending *)
Section Send.
Context (metaBytes : SnapshotMeta -> list Z) (metaOf : list Z -> option SnapshotMeta).
Context (Hmeta : forall meta, metaOf (metaBytes meta) = Some meta).
Context (key : SnapKey) (cs : list (list Z)) (Hlen : length cs = length CFs).
Abbreviation s1 := (loaded key true cs).

Lemma NewSnapForSending_ok m : holds metaBytes (bare key true) cs m -> NewSnapForSending metaOf key m = (m, Ret s1).
Proof.
  intros Hh. unfold NewSnapForSending. rewrite (sm_bind_eq _ _ _ _ _ (NewSnap_holds metaBytes metaOf Hmeta key true false cs m Hlen Hh)).
  rewrite (loaded_exists metaBytes key true cs m Hlen Hh). cbn [negb].
  assert (Hopen : forall l, (forall cf c, (cf, c) ∈ l -> c <> [] -> sm_files m !! cfPath s1 cf = Some c) ->
    sm_mapM (fun f => if cf_Size f >? 0 then run! read_file (cfPath s1 (cf_CF f)) then sm_ret (f <| cf_pos := 0 |>)
                      else sm_ret f) (map (fun p => file_at p.1 p.2 []) l) m = (m, Ret (map (fun p => file_at p.1 p.2 []) l))).
  { induction l as [|[cf c] l IH]; intros Hl; [done|]. cbn [map sm_mapM fst snd].
    assert (Hf : (if len c >? 0 then run! read_file (cfPath s1 cf) then sm_ret ((file_at cf c []) <| cf_pos := 0 |>)
                  else sm_ret (file_at cf c [])) m = (m, Ret (file_at cf c []))).
    { destruct (len c >? 0) eqn:Hc; [|done].
      assert (Hne : c <> []) by (by intros ->). by rewrite (sm_bind_eq _ _ _ _ _ (read_file_ok _ _ _ (Hl cf c ltac:(by left) Hne))). }
    rewrite (sm_bind_eq _ _ _ _ _ Hf). rewrite (sm_bind_eq _ _ _ _ _ (IH ltac:(intros cf' c' Hin; apply Hl; by right))). done. }
  change (sn_CFFiles s1) with (zip_with (fun cf c => file_at cf c []) CFs cs). rewrite zip_with_map.
  assert (Hz : forall cf c, (cf, c) ∈ zip CFs cs -> c <> [] -> sm_files m !! cfPath s1 cf = Some c).
  { intros cf c (j & Hj & Hc)%zip_lookup_elem Hne. change (cfPath s1 cf) with (cfPath (bare key true) cf).
    rewrite (ho_files _ _ _ _ Hh j cf c Hj Hc). by rewrite bool_decide_false. }
  rewrite (sm_bind_eq _ _ _ _ _ (Hopen _ Hz)). by rewrite <- (zip_with_map (fun cf c => file_at cf c [])).
Qed.

Lemma loaded_reading m : holds metaBytes (bare key true) cs m ->
  exists cur, reading cs m s1 cur /\ remaining cs s1 cur = concat cs.
Proof.
  intros Hh. destruct cs as [|c rest] eqn:Hcs; [done|]. exists c. split; [|done].
  rewrite <- Hcs in *. assert (Hfile : forall j f, sn_CFFiles s1 !! j = Some f -> exists cf c, f = file_at cf c []
    /\ CFs !! j = Some cf /\ cs !! j = Some c).
  { intros j f Hj. change (sn_CFFiles s1) with (zip_with (fun cf c => file_at cf c []) CFs cs) in Hj.
    by apply lookup_zip_with_Some in Hj. }
  split.
  - change (sn_CFFiles s1) with (zip_with (fun cf c => file_at cf c []) CFs cs). rewrite length_zip_with, Hlen. lia.
  - intros j f c0 Hj Hc. destruct (Hfile j f Hj) as (cf & c1 & -> & Hcf & Hc1). rewrite Hc in Hc1. injection Hc1 as <-.
    split; [done|]. intros Hne. change (cfPath s1 (cf_CF (file_at cf c0 []))) with (cfPath (bare key true) cf).
    rewrite (ho_files _ _ _ _ Hh j cf c0 Hcf Hc). by rewrite bool_decide_false.
  - cbn [sn_cfIndex loaded]. intros f c0 Hj Hc. destruct (Hfile _ f Hj) as (cf & c1 & -> & _ & Hc1).
    rewrite Hcs in Hc. injection Hc as <-. done.
  - cbn [sn_cfIndex loaded]. intros Hnone. apply lookup_ge_None in Hnone.
    change (sn_CFFiles s1) with (zip_with (fun cf c => file_at cf c []) CFs cs) in Hnone. rewrite length_zip_with, Hlen in Hnone.
    rewrite Hcs in Hlen. cbn in Hlen, Hnone. lia.
  - intros j f _ Hj. by destruct (Hfile j f Hj) as (cf & c1 & -> & _).
Qed.
Lemma TotalSize_ok : len (concat cs) < two64 -> TotalSize s1 = len (concat cs).
Proof.
  unfold TotalSize. change (sn_CFFiles s1) with (zip_with (fun cf c => file_at cf c []) CFs cs).
  assert (Hgen : forall cfs l acc, length l = length cfs -> 0 <= acc -> acc + len (concat l) < two64 ->
    foldl (fun total f => total ⊞ cf_Size f) acc (zip_with (fun cf c => file_at cf c []) cfs l) = acc + len (concat l)).
  { induction cfs as [|cf cfs IH]; intros [|c l] acc Hl Ha Hb; try done; cbn [zip_with foldl concat] in *.
    - change (len (@nil Z)) with 0. lia.
    - rewrite len_app in *. pose proof (len_nonneg c). pose proof (len_nonneg (concat l)).
      change (cf_Size (file_at cf c [])) with (len c). rewrite u64_add_small by (unfold is_u64; lia).
      rewrite IH; [lia|by injection Hl|lia|lia]. }
  intros Hb. rewrite Hgen; [lia|done|lia|lia].
Qed.
End Send.

(** ** From end to end *)
Lemma len_concat_elem (c : list Z) cs : c ∈ cs -> len c <= len (concat cs).
Proof.
  induction cs as [|c' cs IH]; intros Hin; [by apply elem_of_nil in Hin|]. cbn [concat]. rewrite len_app.
  pose proof (len_nonneg c'). pose proof (len_nonneg (concat cs)). apply elem_of_cons in Hin as [->|Hin]; [lia|].
  specialize (IH Hin). lia.
Qed.
Lemma foldl_puts_other (k : list Z) v (l : list (list Z * list Z)) : (forall w, (k, w) ∉ l) ->
  foldl (fun v p => if bool_decide (p.1 = k) then Some p.2 else v) v l = v.
Proof.
  induction l as [|[k' w] l IH] using rev_ind; intros Hl; [done|]. rewrite foldl_app. cbn [foldl fst snd].
  rewrite bool_decide_false by (intros ->; apply (Hl w); set_solver). apply IH. intros w'. specialize (Hl w'). set_solver.
Qed.
Lemma foldl_puts_in (k : list Z) v0 v (l : list (list Z * list Z)) : (k, v0) ∈ l -> (forall w, (k, w) ∈ l -> w = v0) ->
  foldl (fun v p => if bool_decide (p.1 = k) then Some p.2 else v) v l = Some v0.
Proof.
  induction l as [|[k' w] l IH] using rev_ind; intros Hin Hl; [by apply elem_of_nil in Hin|]. rewrite foldl_app.
  cbn [foldl fst snd]. case_bool_decide as Hk; [subst; f_equal; apply Hl; set_solver|].
  apply IH; [set_solver|]. intros w' Hw. apply Hl. set_solver.
Qed.

Section Transfer.
Context {D : Type} `{BadgerLaws D}.
Context (metaBytes : SnapshotMeta -> list Z) (metaOf : list Z -> option SnapshotMeta).
Context (sst_build : list (list Z * list Z) -> list Z) (ingest : D -> list (list Z) -> option D).
Context (snapDataBytes : RaftSnapshotData -> list Z) (snapDataOf : list Z -> option RaftSnapshotData).
Context (regionStateOf : list Z -> option (PeerState * option Region)) (modTime : list Z -> Z).
(** The messages can be decoded, a table with pairs is not empty, and taking in tables puts
    their pairs. *)
Context (Hmeta : forall meta, metaOf (metaBytes meta) = Some meta).
Context (Hdata : forall d, snapDataOf (snapDataBytes d) = Some d).
Context (Hsst : forall l, l <> [] -> sst_build l <> []).
Context (Hingest : forall (db : D) tables, Forall (fun l => l <> []) tables ->
  base.NoDup (concat tables).*1 -> exists db', ingest db (map sst_build tables) = Some db'
    /\ forall k, db_get db' k = foldl (fun v p => if bool_decide (p.1 = k) then Some p.2 else v) (db_get db k) (concat tables)).

Abbreviation contents := (contents sst_build).
Lemma contents_length (txn : D) region : length (contents txn region) = length CFs.
Proof. unfold SnapProps.contents. by rewrite length_map. Qed.

(** Making a snapshot. *)
Lemma doSnapshot_ok (raft kv : D) regionId region bs idx term m :
  getAppliedIdxTermForSnapshot raft kv regionId = Ret (idx, term) ->
  db_get kv (RegionStateKey regionId) = Some bs -> regionStateOf bs = Some (PeerState_Normal, Some region) ->
  GetTotalSnapSize m <= sm_MaxTotalSize m -> fresh (bare (mkSnapKey regionId term idx) true) m ->
  exists m' size, doSnapshot metaBytes metaOf sst_build snapDataBytes regionStateOf modTime raft kv regionId m
      = (m', Ret (mkSnapshot (Some (snapDataBytes (mkSnapshotData (Some region) size (Some (metas CFs (contents kv region))))))
                    (Some (mkSnapshotMetadata (Some (ConfStateFromRegion region)) idx term None)) None))
    /\ holds metaBytes (bare (mkSnapKey regionId term idx) true) (contents kv region) m'.
Proof.
  intros Hi Hs Hr Hsz Hfr. set (key := mkSnapKey regionId term idx) in *. unfold doSnapshot. rewrite Hi.
  fold key. destruct (Register_files key SnapEntryGenerating m) as (Hf & Hz & Hx).
  set (m0 := Register key SnapEntryGenerating m) in *.
  destruct (NewSnapForBuilding_ok metaOf key m0 (fresh_files _ _ _ Hf Hfr)) as (m1 & Hnew & Htm & Hmeta1 & Hcf1).
  destruct (Build_ok metaBytes sst_build Hsst key kv region m1 Htm Hmeta1 Hcf1) as (s' & size & n & m2 & Hb & Hh).
  set (c := match _ with Some _ => _ | None => _ end).
  assert (Hc : c m0 = (m2, Ret (mkSnapshot (Some (snapDataBytes (mkSnapshotData (Some region) size (Some (metas CFs (contents kv region))))))
                    (Some (mkSnapshotMetadata (Some (ConfStateFromRegion region)) idx term None)) None))).
  { unfold c. rewrite Hs. cbn [mbind option_bind]. rewrite Hr. rewrite (sm_bind_eq _ _ m0 m0 region eq_refl).
    rewrite (sm_bind_eq _ _ m0 m1 ((bare key true) <| sn_holdTmpFiles := true |>)).
    - by rewrite (sm_bind_eq _ _ _ _ _ Hb).
    - unfold GetSnapshotForBuilding, GetTotalSnapSize. rewrite Hz, Hx. unfold GetTotalSnapSize in Hsz.
      destruct (Z.gtb_spec (wrap64 (sm_snapSize m)) (sm_MaxTotalSize m)); [lia|].
      rewrite (sm_bind_eq _ _ m0 m0 tt eq_refl). exact Hnew. }
  destruct (registered_ok key SnapEntryGenerating c m m2 _ Hc) as (m3 & -> & Heq). exists m3, size. split; [done|].
  by apply (holds_files _ _ _ m2).
Qed.

(** A message with the snapshot of a region. *)
Definition carries (msg : RaftMessage) (snap : Snapshot) : Prop :=
  exists message, ms_Message msg = Some message /\ m_Snapshot message = Some snap.

Lemma sendSnap_ok msg region size idx term cf cs m : length cs = length CFs -> len (concat cs) < two64 ->
  carries msg (mkSnapshot (Some (snapDataBytes (mkSnapshotData (Some region) size (Some (metas CFs cs)))))
                 (Some (mkSnapshotMetadata cf idx term None)) None) ->
  holds metaBytes (bare (mkSnapKey (rg_Id region) term idx) true) cs m ->
  exists m' chunks, sendSnap metaOf snapDataOf msg m = (m', Ret chunks)
    /\ concat chunks = concat cs /\ Forall (fun ch => ch <> []) chunks.
Proof.
  intros Hl Hb (message & Hm & Hs) Hh. set (key := mkSnapKey (rg_Id region) term idx) in *. unfold sendSnap.
  rewrite Hm. cbn [deref]. rewrite Hs. cbn [deref]. unfold SnapKeyFromSnap. cbn [s_Data from_option id]. rewrite Hdata.
  cbn [sd_Region deref]. unfold SnapKeyFromRegionSnap. cbn [s_Metadata deref sm_Term sm_Index]. fold key.
  set (m0 := Register key SnapEntrySending m).
  assert (Hh0 : holds metaBytes (bare key true) cs m0) by (apply (holds_files _ _ _ m); [apply Register_files|done]).
  destruct (loaded_reading metaBytes key cs Hl m0 Hh0) as (cur & Hrd & Hrem).
  destruct (sendLoop_ok cs m0 (Z.to_nat (len (concat cs))) (loaded key true cs) cur snapChunkLen) as (chunks & Hsend & Hc & Hne);
    [done|done|by rewrite Hrem|by rewrite Hrem|]. rewrite Hrem in Hsend, Hc.
  set (c := sm_bind _ _).
  assert (Hcm : c m0 = (m0, Ret chunks)).
  { unfold c, GetSnapshotForSending. rewrite (sm_bind_eq _ _ _ _ _ (NewSnapForSending_ok metaBytes metaOf Hmeta key cs Hl m0 Hh0)).
    rewrite (loaded_exists metaBytes key true cs m0 Hl Hh0). cbn [negb]. by rewrite (TotalSize_ok key cs Hl Hb). }
  destruct (registered_ok key SnapEntrySending c m m0 _ Hcm) as (m1 & -> & _). by exists m1, chunks.
Qed.

Lemma recvSnap_ok msg region size idx term cf cs chunks m : length cs = length CFs -> Forall (fun c => len c < two63) cs ->
  carries msg (mkSnapshot (Some (snapDataBytes (mkSnapshotData (Some region) size (Some (metas CFs cs)))))
                 (Some (mkSnapshotMetadata cf idx term None)) None) ->
  fresh (bare (mkSnapKey (rg_Id region) term idx) false) m ->
  Forall (fun ch => ch <> []) chunks -> concat chunks = concat cs ->
  exists m', recvSnap metaBytes metaOf snapDataOf (Some msg) chunks m = (m', Ret msg)
    /\ holds metaBytes (bare (mkSnapKey (rg_Id region) term idx) false) cs m'.
Proof.
  intros Hl Hsz (message & Hm & Hs) Hfr Hne Heq. set (key := mkSnapKey (rg_Id region) term idx) in *. unfold recvSnap.
  rewrite Hm. rewrite (sm_bind_eq _ _ m m message eq_refl). rewrite Hs. erewrite (sm_bind_eq _ _ m m) by reflexivity.
  rewrite (sm_bind_eq _ _ m m key).
  2: { unfold sm_lift, SnapKeyFromSnap. cbn [s_Data from_option id]. by rewrite Hdata. }
  destruct (NewSnapForReceiving_ok metaOf cs Hl Hsz key m Hfr) as (s & m1 & Hnew & _ & Hrr).
  rewrite (sm_bind_eq _ _ m m1 s).
  2: { unfold GetSnapshotForReceiving. cbn [s_Data from_option id]. rewrite Hdata. exact Hnew. }
  pose proof (rr_none _ _ _ _ Hrr) as Hex. rewrite Hex. set (m2 := Register key SnapEntryReceiving m1).
  assert (Hrr2 : ready_to_receive cs key s m2).
  { destruct (Register_files key SnapEntryReceiving m1) as (Hf & _). destruct Hrr as [R1 [W1 W2 W3 W4 W5] R3 R4 R5 R6].
    fold m2 in Hf. split; try done; rewrite ?Hf; try done.
    - split; try done; intros; unfold has_written; rewrite Hf; eauto.
      + by apply W3.
      + by apply W4.
      + by apply W5.
    - rewrite <- R4. unfold snapExists, FileExists. by rewrite Hf. }
  destruct (receive_all metaBytes cs Hl Hsz key s m2 chunks Hrr2 Hne Heq) as (s' & m3 & Hr & Hh).
  set (c := sm_bind _ _).
  assert (Hc : c m2 = (m3, Ret msg)).
  { unfold c. clear -Hr. revert Hr. unfold sm_bind, sm_ret. destruct (recvLoop s chunks m2) as [ma [sa|e| |]]; try done.
    destruct (Save metaBytes sa ma) as [mb [sb|e| |]]; try done. by intros [= -> ->]. }
  destruct (registered_ok key SnapEntryReceiving c m1 m3 _ Hc) as (m4 & -> & Heq4). exists m4. split; [done|].
  by apply (holds_files _ _ _ m3).
Qed.

(** Applying it. *)
Definition tables (kv : D) (region : Region) : list (list (list Z * list Z)) :=
  filter (fun l => l <> []) (map (cfPairs kv region) CFs).
Lemma tables_content kv region k v : (k, v) ∈ concat (tables kv region)
  <-> in_data (rg_StartKey region) (rg_EndKey region) k = true /\ db_get kv k = Some v.
Proof.
  rewrite list_elem_of_In, in_concat. split.
  - intros (l & [_ Hl]%list_elem_of_In%list_elem_of_filter & Hin%list_elem_of_In). change (map ?g CFs) with (g <$> CFs) in Hl.
    apply list_elem_of_fmap in Hl as (cf & -> & Hcf). unfold cfPairs in Hin. change (map ?g ?x) with (g <$> x) in Hin.
    apply list_elem_of_fmap in Hin as ([key w] & [= -> ->] & (Hg & Hs & He)%cfRange_elem).
    split; [|done]. apply in_data_spec. by exists cf, key.
  - intros [(cf & key & Hcf & -> & Hs & He)%in_data_spec Hg]. exists (cfPairs kv region cf).
    assert (Hin : (wb.KeyWithCF cf key, v) ∈ cfPairs kv region cf).
    { unfold cfPairs. change (map ?g ?x) with (g <$> x). apply list_elem_of_fmap. exists (key, v). split; [done|].
      by apply cfRange_elem. }
    rewrite <- !list_elem_of_In. split; [|done]. apply list_elem_of_filter. split; [by intros Heq; rewrite Heq in Hin; apply elem_of_nil in Hin|].
    change (map ?g CFs) with (g <$> CFs). by apply list_elem_of_fmap_2.
Qed.
Lemma sorted_nodup (l : list (list Z * list Z)) : StronglySorted (fun a b => key_lt a.1 b.1 = true) l -> base.NoDup l.*1.
Proof.
  induction 1 as [|[k v] l Hs IH Hf]; cbn; [apply list.NoDup_nil; done|]. apply list.NoDup_cons. split; [|exact IH].
  intros Hin. apply list_elem_of_fmap in Hin as ([k' w] & Heq & Hin). cbn in Heq. subst k'. rewrite list.Forall_forall in Hf.
  specialize (Hf _ Hin). cbn in Hf. by rewrite key_lt_irrefl in Hf.
Qed.
Lemma cfPairs_key (kv : D) region cf k : k ∈ (cfPairs kv region cf).*1 -> exists key, k = wb.KeyWithCF cf key.
Proof.
  intros Hin. apply list_elem_of_fmap in Hin as (p & -> & Hin). unfold cfPairs in Hin. change (map ?g ?x) with (g <$> x) in Hin.
  apply list_elem_of_fmap in Hin as (q & -> & _). by exists q.1.
Qed.
Lemma cfPairs_nodup (kv : D) region cf : base.NoDup (cfPairs kv region cf).*1.
Proof.
  unfold cfPairs. change (map ?g ?x) with (g <$> x). rewrite <- list_fmap_compose.
  change (fst ∘ _) with (wb.KeyWithCF cf ∘ @fst (list Z) (list Z)). rewrite list_fmap_compose. apply NoDup_fmap_2; [|apply sorted_nodup, cfRange_sorted].
  intros a b Heq. unfold wb.KeyWithCF in Heq. by apply app_inv_head, app_inv_head in Heq.
Qed.
Lemma concat_tables kv region : concat (tables kv region) = concat (map (cfPairs kv region) CFs).
Proof.
  unfold tables. induction (map _ CFs) as [|l ls IH]; [done|]. rewrite filter_cons. cbn [concat].
  case_decide as Hl; cbn [concat]; [by rewrite IH|]. by subst l.
Qed.
Lemma tables_nodup kv region : base.NoDup (concat (tables kv region)).*1.
Proof.
  rewrite concat_tables. cbn [CFs map concat]. rewrite app_nil_r, !fmap_app.
  assert (Hd : forall cf cf' k, head cf <> head cf' -> cf <> [] -> cf' <> [] ->
    k ∈ (cfPairs kv region cf).*1 -> k ∉ (cfPairs kv region cf').*1).
  { intros [|b cf] [|b' cf'] k Hh ?? (key & ->)%cfPairs_key (key' & Heq)%cfPairs_key; try done.
    apply Hh. injection Heq as ->. done. }
  apply list.NoDup_app. split; [apply cfPairs_nodup|]. split.
  { intros k Hk. rewrite not_elem_of_app. split; revert Hk; by apply Hd. }
  apply list.NoDup_app. split; [apply cfPairs_nodup|]. split; [|apply cfPairs_nodup]. intros k. by apply Hd.
Qed.

Lemma Apply_files kv region key m : holds metaBytes (bare key false) (contents kv region) m ->
  sm_mapM (fun f => read_file (cfPath (loaded key false (contents kv region)) (cf_CF f)))
    (filter (fun f => cf_Size f <> 0) (sn_CFFiles (loaded key false (contents kv region)))) m
  = (m, Ret (map sst_build (tables kv region))).
Proof.
  intros Hh. set (path := fun cf => cfPath (bare key false) cf).
  change (fun f => read_file _) with (fun f => read_file (path (cf_CF f))).
  cbn [sn_CFFiles loaded]. unfold tables, SnapProps.contents.
  assert (Hf : forall cf, cf ∈ CFs -> sm_files m !! path cf
    = if bool_decide (content sst_build (cfPairs kv region cf) = []) then None else Some (content sst_build (cfPairs kv region cf))).
  { intros cf [j Hj]%list_elem_of_lookup. apply (ho_files _ _ _ _ Hh j cf _ Hj). unfold SnapProps.contents.
    change (map ?g CFs) with (g <$> CFs). by rewrite list_lookup_fmap, Hj. }
  clear Hh. clearbody path. revert Hf. generalize CFs. induction l as [|cf cfs IH]; intros Hf; [done|]. cbn [map zip_with].
  rewrite !filter_cons. specialize (Hf cf ltac:(by left)) as Hcf.
  assert (IH' := IH ltac:(intros cf' Hin; apply Hf; by right)). clear IH Hf. change (cf_Size (file_at cf ?c [])) with (len c).
  assert (Hc : content sst_build (cfPairs kv region cf) = [] <-> cfPairs kv region cf = []) by (by apply content_nil).
  destruct (decide (cfPairs kv region cf <> [])) as [Hne|Hne].
  - rewrite bool_decide_false in Hcf by (by rewrite Hc). rewrite decide_True by (intros ?%len_0_nil; by apply Hne, Hc).
    cbn [sm_mapM map]. change (cf_CF (file_at cf _ [])) with cf.
    rewrite (sm_bind_eq _ _ _ _ _ (read_file_ok _ _ _ Hcf)). rewrite (sm_bind_eq _ _ _ _ _ IH').
    unfold content. by rewrite bool_decide_false.
  - rewrite decide_False; [exact IH'|]. intros Hl. apply Hl. rewrite (proj2 Hc); [done|].
    destruct (cfPairs kv region cf); [done|]. exfalso. by apply Hne.
Qed.

Lemma applySnap_ok (kv kv2 : D) region md m :
  holds metaBytes (bare (mkSnapKey (rg_Id region) (sm_Term md) (sm_Index md)) false) (contents kv region) m ->
  exists m' kv2', applySnap metaOf ingest kv2 (rg_Id region) (rg_StartKey region) (rg_EndKey region) md m = (m', Ret kv2')
    /\ forall k, db_get kv2' k = db_get (if in_data (rg_StartKey region) (rg_EndKey region) k then kv else kv2) k.
Proof.
  intros Hh. set (key := mkSnapKey _ _ _) in *. unfold applySnap.
  destruct (DeleteRange_exact (E:=snap_error) kv2 (rg_StartKey region) (rg_EndKey region)) as (kv3 & Hdel & Hget).
  unfold cleanUpRange. rewrite (sm_bind_eq _ _ m m kv3) by (unfold sm_lift; by rewrite Hdel). fold key.
  destruct (Hingest kv3 (tables kv region)) as (kv4 & Hin & Hget4).
  { apply list.Forall_forall. by intros l [Hl _]%list_elem_of_filter. }
  { apply tables_nodup. }
  set (m0 := Register key SnapEntryApplying m).
  assert (Hh0 : holds metaBytes (bare key false) (contents kv region) m0) by (apply (holds_files _ _ _ m); [apply Register_files|done]).
  set (c := sm_bind _ _). assert (Hc : c m0 = (m0, Ret kv4)).
  { unfold c, GetSnapshotForApplying, NewSnapForApplying.
    rewrite (sm_bind_eq _ _ m0 m0 (loaded key false (contents kv region))).
    2: { rewrite (sm_bind_eq _ _ _ _ _ (NewSnap_holds metaBytes metaOf Hmeta key false false _ m0 (contents_length kv region) Hh0)).
         by rewrite (loaded_exists metaBytes key false _ m0 (contents_length kv region) Hh0). }
    unfold Apply. rewrite (sm_bind_eq _ _ _ _ _ (Apply_files kv region key m0 Hh0)). by rewrite Hin. }
  destruct (registered_ok key SnapEntryApplying c m m0 _ Hc) as (m1 & -> & _). exists m1, kv4. split; [done|].
  intros k. rewrite Hget4, Hget. destruct (in_data _ _ k) eqn:Hk.
  - destruct (db_get kv k) as [v|] eqn:Hv.
    + apply foldl_puts_in; [by apply tables_content|]. intros w [_ Hw]%tables_content. congruence.
    + apply foldl_puts_other. intros w [_ Hw]%tables_content. congruence.
  - apply foldl_puts_other. intros w [Hw _]%tables_content. congruence.
Qed.

Abbreviation RegionTask := (HandleRegionTask metaBytes metaOf sst_build ingest snapDataBytes regionStateOf modTime).

(** C11. A snapshot carries a region. The region worker of the leader makes one, [sendSnap]
    cuts it into chunks, and whatever the chunks the network hands on, as long as they have
    the same bytes, [recvSnap] takes them in and the region worker of the follower applies
    the snapshot: then the follower has, in the range of the region, just what the leader
    had, all column families included, and what it had before everywhere else. None of the
    steps fails, where neither store has files of this snapshot. *)
Theorem snapshot_transfers_region (raft kv raft2 kv2 : D) region bs idx term m1 m2 :
  let key := mkSnapKey (rg_Id region) term idx in
  getAppliedIdxTermForSnapshot raft kv (rg_Id region) = Ret (idx, term) ->
  db_get kv (RegionStateKey (rg_Id region)) = Some bs -> regionStateOf bs = Some (PeerState_Normal, Some region) ->
  GetTotalSnapSize m1 <= sm_MaxTotalSize m1 -> fresh (bare key true) m1 -> fresh (bare key false) m2 ->
  len (concat (contents kv region)) < two63 ->
  exists m1' snap md, RegionTask raft kv (RegionTaskGen (rg_Id region)) m1 = (m1', Ret (kv, Some (Some snap)))
  /\ s_Metadata snap = Some md /\ sm_Index md = idx /\ sm_Term md = term
  /\ forall msg, carries msg snap -> exists m1'' chunks, sendSnap metaOf snapDataOf msg m1' = (m1'', Ret chunks)
  /\ Forall (fun ch => ch <> []) chunks
  /\ forall received, Forall (fun ch => ch <> []) received -> concat received = concat chunks ->
     exists m2' m2'' kv2', recvSnap metaBytes metaOf snapDataOf (Some msg) received m2 = (m2', Ret msg)
     /\ RegionTask raft2 kv2 (RegionTaskApply (rg_Id region) md (rg_StartKey region) (rg_EndKey region)) m2'
        = (m2'', Ret (kv2', None))
     /\ forall k, db_get kv2' k = db_get (if in_data (rg_StartKey region) (rg_EndKey region) k then kv else kv2) k.
Proof.
  intros key Hi Hs Hr Hsz Hf1 Hf2 Hb.
  destruct (doSnapshot_ok raft kv (rg_Id region) region bs idx term m1 Hi Hs Hr Hsz Hf1) as (m1' & size & Hdo & Hh).
  set (snap := mkSnapshot _ _ _) in Hdo. eexists m1', snap, _. split.
  { cbn [HandleRegionTask]. unfold handleGen. rewrite (sm_bind_eq _ _ m1 m1' (Some snap)); [done|].
    rewrite (sm_bind_eq _ _ m1 m1' (inl snap)); [done|]. unfold sm_try. by rewrite Hdo. }
  split; [reflexivity|]. split; [done|]. split; [done|]. intros msg Hmsg.
  destruct (sendSnap_ok msg region size idx term (Some (ConfStateFromRegion region)) (contents kv region) m1' (contents_length kv region)) as (m1'' & chunks & Hsend & Hc & Hnec);
    [unfold two64, two63 in *; lia|exact Hmsg|exact Hh|].
  exists m1'', chunks. split; [exact Hsend|]. split; [exact Hnec|]. intros received Hne Hrc.
  assert (Hsizes : Forall (fun c => len c < two63) (contents kv region)).
  { apply list.Forall_forall. intros c Hc'. pose proof (len_concat_elem c _ Hc'). lia. }
  destruct (recvSnap_ok msg region size idx term (Some (ConfStateFromRegion region)) (contents kv region) received m2 (contents_length kv region) Hsizes Hmsg Hf2 Hne)
    as (m2' & Hrecv & Hh2); [congruence|].
  set (md := mkSnapshotMetadata (Some (ConfStateFromRegion region)) idx term None).
  destruct (applySnap_ok kv kv2 region md m2' Hh2) as (m2'' & kv2' & Happ & Hget).
  exists m2', m2'', kv2'. split; [exact Hrecv|]. split; [|exact Hget].
  cbn [HandleRegionTask]. rewrite (sm_bind_eq _ _ m2' m2'' kv2'); [done|]. unfold handleApply. by rewrite Happ.
Qed.
End Transfer.

(** ** Two stores *)
(** Messages and tables as numbers. *)
#[local] Instance Peer_countable : Countable Peer :=
  inj_countable' (fun p => (p_Id p, p_StoreId p)) (fun '(i, s) => mkPeer i s) ltac:(by intros []).
#[local] Instance RegionEpoch_countable : Countable RegionEpoch :=
  inj_countable' (fun e => (ep_ConfVer e, ep_Version e)) (fun '(c, v) => mkEpoch c v) ltac:(by intros []).
#[local] Instance Region_countable : Countable Region :=
  inj_countable' (fun r => (rg_Id r, rg_StartKey r, rg_EndKey r, rg_RegionEpoch r, rg_Peers r))
    (fun '(i, s, e, ep, ps) => mkRegion i s e ep ps) ltac:(by intros []).
#[local] Instance SnapshotCFFile_eq_dec : EqDecision SnapshotCFFile.
Proof. solve_decision. Defined.
#[local] Instance SnapshotCFFile_countable : Countable SnapshotCFFile :=
  inj_countable' (fun f => (sc_Cf f, sc_Size f, sc_Checksum f)) (fun '(c, s, k) => mkSnapshotCFFile c s k) ltac:(by intros []).
#[local] Instance RaftSnapshotData_eq_dec : EqDecision RaftSnapshotData.
Proof. solve_decision. Defined.
#[local] Instance RaftSnapshotData_countable : Countable RaftSnapshotData :=
  inj_countable' (fun d => (sd_Region d, sd_FileSize d, sd_Meta d)) (fun '(r, s, m) => mkSnapshotData r s m) ltac:(by intros []).

Definition number {A} `{Countable A} (a : A) : list Z := [Z.pos (encode a)].
Definition numbered {A} `{Countable A} (bs : list Z) : option A :=
  match bs with [Z.pos p] => decode p | _ => None end.
Lemma numbered_number {A} `{Countable A} (a : A) : numbered (number a) = Some a.
Proof. apply decode_encode. Qed.
Lemma number_nonempty {A} `{Countable A} (a : A) : number a <> [].
Proof. done. Qed.
Definition map_ingest (db : gmap (list Z) (list Z)) (files : list (list Z)) : option (gmap (list Z) (list Z)) :=
  tables ← mapM numbered files; Some (foldl (fun d p => <[p.1 := p.2]> d) db (concat tables)).
Lemma map_ingest_puts (db : gmap (list Z) (list Z)) tables : exists db', map_ingest db (map number tables) = Some db'
  /\ forall k, db_get db' k = foldl (fun v p => if bool_decide (p.1 = k) then Some p.2 else v) (db_get db k) (concat tables).
Proof.
  unfold map_ingest. change (map number tables) with (number <$> tables).
  rewrite (mapM_fmap_Some numbered number) by apply numbered_number. cbn [mbind option_bind]. eexists. split; [reflexivity|].
  intros k. cbn [db_get map_badger]. revert db. induction (concat tables) as [|[k' v] l IH]; intros db; [done|].
  cbn [foldl fst snd]. rewrite IH. f_equal. case_bool_decide as Hk; [subst; apply lookup_insert_eq|by apply lookup_insert_ne].
Qed.

(** A leader with two keys in the range [10, 20) of its region, and one outside; a follower
    with other data. *)
Definition xfer_region : Region := mkRegion 7 [10] [20] (Some (mkEpoch 1 1)) [mkPeer 71 1; mkPeer 72 2].
Definition xfer_state (bs : list Z) : option (PeerState * option Region) :=
  match bs with [1] => Some (PeerState_Normal, Some xfer_region) | _ => None end.
Definition xfer_apply : RaftApplyState := mkApplyState 9 (Some (mkTruncatedState 9 6 None)) None.
Definition xfer_kv : gmap (list Z) (list Z) :=
  {[ ApplyStateKey 7 := c_enc xfer_apply; RegionStateKey 7 := [1];
     wb.KeyWithCF CfDefault [11] := [1; 1]; wb.KeyWithCF CfLock [12] := [2; 2]; wb.KeyWithCF CfDefault [20] := [3; 3] ]}.
Definition xfer_kv2 : gmap (list Z) (list Z) :=
  {[ wb.KeyWithCF CfDefault [11] := [4]; wb.KeyWithCF CfWrite [15] := [5]; wb.KeyWithCF CfDefault [9] := [6] ]}.
Definition xfer_manager : SnapManager := mkSnapManager ∅ 0 ∅ 1000.

Definition xfer_msg (snap : Snapshot) : RaftMessage :=
  mkRaftMessage 7 None None (Some (zero_Message <| m_Snapshot := Some snap |>)) None false [] [].
Definition meta_bytes : SnapshotMeta -> list Z := number (A := list SnapshotCFFile).
Definition meta_of : list Z -> option SnapshotMeta := numbered (A := list SnapshotCFFile).
Definition table_bytes : list (list Z * list Z) -> list Z := number.
Definition data_bytes : RaftSnapshotData -> list Z := number.
Definition data_of : list Z -> option RaftSnapshotData := numbered.
Abbreviation xfer_task := (HandleRegionTask meta_bytes meta_of table_bytes map_ingest data_bytes xfer_state (fun _ => 0)).
Lemma snapshot_transfers_region_witness : exists m1' snap md m1'' chunks m2' m2'' kv2',
  xfer_task ∅ xfer_kv (RegionTaskGen 7) xfer_manager = (m1', Ret (xfer_kv, Some (Some snap)))
  /\ sendSnap meta_of data_of (xfer_msg snap) m1' = (m1'', Ret chunks)
  /\ recvSnap meta_bytes meta_of data_of (Some (xfer_msg snap)) chunks xfer_manager = (m2', Ret (xfer_msg snap))
  /\ xfer_task ∅ xfer_kv2 (RegionTaskApply 7 md [10] [20]) m2' = (m2'', Ret (kv2', None))
  /\ db_get kv2' (wb.KeyWithCF CfDefault [11]) = Some [1; 1] /\ db_get kv2' (wb.KeyWithCF CfLock [12]) = Some [2; 2]
  /\ db_get kv2' (wb.KeyWithCF CfWrite [15]) = None /\ db_get kv2' (wb.KeyWithCF CfDefault [9]) = Some [6]
  /\ db_get kv2' (wb.KeyWithCF CfDefault [20]) = None.
Proof.
  destruct (snapshot_transfers_region meta_bytes meta_of table_bytes map_ingest data_bytes data_of xfer_state (fun _ => 0)
    (numbered_number) (numbered_number) (fun l _ => number_nonempty l) (fun db tables _ _ => map_ingest_puts db tables)
    ∅ xfer_kv ∅ xfer_kv2 xfer_region [1] 9 6 xfer_manager xfer_manager) as (m1' & snap & md & Hgen & _ & _ & _ & Hrest).
  1: vm_compute; reflexivity.
  1-2: reflexivity.
  1: vm_compute; discriminate.
  1-2: split; [|split]; intros; rewrite ?lookup_empty; try split; reflexivity.
  1: vm_compute; reflexivity.
  destruct (Hrest (xfer_msg snap)) as (m1'' & chunks & Hsend & Hne & Hrecv).
  { exists (zero_Message <| m_Snapshot := Some snap |>). split; reflexivity. }
  destruct (Hrecv chunks Hne eq_refl) as (m2' & m2'' & kv2' & Hr & Ha & Hget).
  exists m1', snap, md, m1'', chunks, m2', m2'', kv2'.
  split; [exact Hgen|]. split; [exact Hsend|]. split; [exact Hr|]. split; [exact Ha|]. rewrite !Hget.
  repeat split.
Defined.

(** ** Names *)
(** The key of a snapshot, whose numbers are 64-bit ones, can be read off the name of its
    metadata. *)
Definition key_ok (key : SnapKey) : Prop := is_u64 (sk_RegionID key) /\ is_u64 (sk_Term key) /\ is_u64 (sk_Index key).
Lemma digits_nonempty n : forall z a acc, digits n z (a :: acc) <> [].
Proof. induction n as [|n IH]; intros z a acc; [done|]. cbn [digits]. by destruct (z / 10 =? 0). Qed.
Lemma parse_digits n : forall z acc, 0 <= z < 10 ^ Z.of_nat n -> z < two64 -> parseDigits (digits n z acc) 0 = parseDigits acc z.
Proof.
  induction n as [|n IH]; intros z acc Hz Hb; [cbn in Hz; assert (z = 0) as -> by lia; done|].
  rewrite Nat2Z.inj_succ, Z.pow_succ_r in Hz by lia. cbn [digits].
  pose proof (Z.mod_pos_bound z 10 ltac:(lia)). pose proof (Z.div_mod z 10 ltac:(lia)).
  assert (Hone : forall a, a = z / 10 -> parseDigits (48 + z mod 10 :: acc) a = parseDigits acc z).
  { intros a ->. cbn [parseDigits]. replace (z / 10 * 10 + (48 + z mod 10 - 48)) with z by lia.
    rewrite (proj2 (Z.leb_le _ _)), (proj2 (Z.leb_le _ _)), (proj2 (Z.ltb_lt _ _)) by lia. done. }
  destruct (Z.eqb_spec (z / 10) 0) as [Hq|Hq]; [by apply Hone|].
  rewrite IH; [by apply Hone| |lia]. split; [apply Z.div_pos; lia|apply Z.div_lt_upper_bound; lia].
Qed.
Lemma ParseUint_decimal z : is_u64 z -> ParseUint (decimal z) = Some z.
Proof.
  intros Hz. unfold is_u64, two64 in *. unfold ParseUint, decimal.
  destruct (Z.eqb_spec (len (digits 20 z [])) 0) as [Hl%len_0_nil|_].
  - exfalso. revert Hl. change (digits 20 z []) with (if z / 10 =? 0 then [48 + z mod 10] else digits 19 (z / 10) [48 + z mod 10]).
    destruct (z / 10 =? 0); [done|]. apply digits_nonempty.
  - rewrite parse_digits; [done| |unfold two64; lia]. change (10 ^ Z.of_nat 20) with 100000000000000000000. lia.
Qed.
Lemma digits_range n : forall z acc, Forall (fun c => 48 <= c <= 57) acc -> Forall (fun c => 48 <= c <= 57) (digits n z acc).
Proof.
  induction n as [|n IH]; intros z acc Ha; [done|]. cbn [digits]. pose proof (Z.mod_pos_bound z 10 ltac:(lia)).
  destruct (_ =? 0); [|apply IH]; (constructor; [lia|done]).
Qed.
Lemma split_app a : forall part b, Forall (fun c => c <> 95) a -> split_ (a ++ [95] ++ b) part = (part ++ a) :: split_ b [].
Proof.
  induction a as [|c a IH]; intros part b Ha; cbn [app split_]; [by rewrite app_nil_r|].
  apply list.Forall_cons in Ha as [Hc Ha]. destruct (Z.eqb_spec c 95); [done|]. cbn [app] in IH. rewrite IH by done. by rewrite <- app_assoc.
Qed.
Lemma split_last a : forall part, Forall (fun c => c <> 95) a -> split_ a part = [part ++ a].
Proof.
  induction a as [|c a IH]; intros part Ha; cbn [split_]; [by rewrite app_nil_r|].
  apply list.Forall_cons in Ha as [Hc Ha]. destruct (Z.eqb_spec c 95); [done|]. rewrite IH by done. by rewrite <- app_assoc.
Qed.
Lemma parseName_prefix key isSending : key_ok key -> parseName (namePrefix isSending key) = Some (key, isSending).
Proof.
  intros (Hr & Ht & Hi). assert (Hd : forall z, Forall (fun c => c <> 95) (decimal z)).
  { intros z. eapply list.Forall_impl; [apply (digits_range 20 z []); constructor|]. cbn. lia. }
  unfold parseName, namePrefix, SnapKey_String. rewrite split_app by (destruct isSending; repeat (constructor; [done|]); constructor).
  rewrite !split_app, split_last by done. cbn [app]. rewrite !ParseUint_decimal by done. cbn [mbind option_bind].
  by destruct key, isSending.
Qed.
Lemma metaPath_inj key b key' b' : key_ok key -> key_ok key' -> metaPath (bare key b) = metaPath (bare key' b') -> key = key' /\ b = b'.
Proof.
  intros Hk Hk' Heq. apply app_inv_tail in Heq. cbn [sn_isSending sn_key bare] in Heq.
  pose proof (parseName_prefix key b Hk) as Hp. rewrite Heq, (parseName_prefix key' b' Hk') in Hp. by injection Hp as -> ->.
Qed.
Lemma HasSuffix_app suffix name : HasSuffix suffix (name ++ suffix) = true.
Proof.
  unfold HasSuffix. rewrite len_app, length_app. pose proof (len_nonneg name). rewrite (proj2 (Z.leb_le _ _)) by lia.
  replace (length name + length suffix - length suffix)%nat with (length name) by lia. by rewrite drop_app_length, bool_decide_true.
Qed.

(** Every file of metadata is that of some snapshot. *)
Definition names_ok (m : SnapManager) : Prop :=
  forall name, is_Some (sm_files m !! name) -> HasSuffix metaFileSuffix name = true ->
  exists key isSending, key_ok key /\ name = metaPath (bare key isSending).
Lemma listIdle_ok m names : (forall name, name ∈ names -> HasSuffix metaFileSuffix name = true ->
    exists key isSending, key_ok key /\ name = metaPath (bare key isSending)) ->
  exists l, listIdle m names = Ret l
    /\ forall key isSending, (key, isSending) ∈ l <-> key_ok key /\ metaPath (bare key isSending) ∈ names /\ HasRegistered key m = false.
Proof.
  induction names as [|name names IH]; intros Hn; cbn [listIdle].
  { exists []. split; [done|]. intros key b. split; [by intros ?%elem_of_nil|by intros (_ & ?%elem_of_nil & _)]. }
  destruct IH as (l & Hl & Hin); [intros name' Hi; apply Hn; by right|].
  destruct (HasSuffix metaFileSuffix name) eqn:Hs; cbn [negb].
  - destruct (Hn name ltac:(by left) Hs) as (key & b & Hk & ->). unfold metaPath at 1 2. rewrite length_app.
    replace (_ + _ - _)%nat with (length (namePrefix (sn_isSending (bare key b)) (sn_key (bare key b)))) by lia.
    rewrite take_app_length. cbn [sn_isSending sn_key bare]. rewrite parseName_prefix by done. rewrite Hl. cbn beta iota.
    eexists. split; [reflexivity|]. cbn [fst]. intros key' b'. rewrite elem_of_cons.
    destruct (HasRegistered key m) eqn:Hr; rewrite ?elem_of_cons, Hin.
    + split; [by intros (? & ? & ?); auto|]. intros (Hk' & [Heq|Hi] & Hr'); [|by auto].
      apply metaPath_inj in Heq as [-> _]; [|done|done]. congruence.
    + split; [intros [[= -> ->]|(? & ? & ?)]; auto|]. intros (Hk' & [Heq|Hi] & Hr'); [|by auto].
      apply metaPath_inj in Heq as [-> ->]; [|done|done]. by left.
  - exists l. split; [done|]. intros key b. rewrite Hin, elem_of_cons. split; [by intros (? & ? & ?); auto|].
    intros (Hk & [Heq|Hi] & Hr); [|by auto]. rewrite <- Heq in Hs. unfold metaPath in Hs. by rewrite HasSuffix_app in Hs.
Qed.

(** Nothing is forgotten and nothing in use is offered for deletion: [ListIdleSnap]
    reads the names of the files back to snapshots, so that it lists just the snapshots that
    have metadata and that nobody is generating, sending, receiving or applying, and tells
    those for sending from those for applying. *)
Theorem idle_snapshots_listed m : names_ok m ->
  exists l, ListIdleSnap m = Ret l /\ forall key isSending,
    (key, isSending) ∈ l <-> key_ok key /\ is_Some (sm_files m !! metaPath (bare key isSending)) /\ sm_registry m !! key = None.
Proof.
  intros Hn. unfold ListIdleSnap. set (names := merge_sort _ _).
  assert (Hnames : forall name, name ∈ names <-> is_Some (sm_files m !! name)).
  { intros name. unfold names. rewrite merge_sort_Permutation. rewrite list_elem_of_fmap. split.
    - intros ([name' c] & -> & Hin%elem_of_map_to_list). eauto.
    - intros [c Hc]. exists (name, c). split; [done|]. by apply elem_of_map_to_list. }
  destruct (listIdle_ok m names) as (l & -> & Hin); [intros name Hi%Hnames; by apply Hn|].
  cbn beta iota. eexists. split; [reflexivity|]. intros key b. rewrite merge_sort_Permutation, Hin, Hnames.
  unfold HasRegistered. split; intros (? & ? & Hr); split; try done; split; try done.
  - apply bool_decide_eq_false in Hr. by apply eq_None_not_Some.
  - rewrite Hr. by apply bool_decide_false, is_Some_None.
Qed.
Definition idle_manager : SnapManager :=
  mkSnapManager {[ metaPath (bare (mkSnapKey 7 6 9) true) := [1]; metaPath (bare (mkSnapKey 8 6 12) false) := [2] ]} 0
    {[ mkSnapKey 8 6 12 := [SnapEntryApplying] ]} 1000.
Lemma small_key r t i : 0 <= r < 100 -> 0 <= t < 100 -> 0 <= i < 100 -> key_ok (mkSnapKey r t i).
Proof. unfold key_ok, is_u64, two64. cbn. lia. Qed.
Lemma idle_manager_ok : names_ok idle_manager.
Proof.
  intros name [c Hc] _. apply elem_of_map_to_list in Hc. unfold idle_manager in Hc. cbn [sm_files] in Hc.
  apply elem_of_map_to_list, lookup_insert_Some in Hc as [[<- _]|[_ [<- _]%lookup_singleton_Some]].
  - exists (mkSnapKey 7 6 9), true. split; [apply small_key; lia|exact eq_refl].
  - exists (mkSnapKey 8 6 12), false. split; [apply small_key; lia|exact eq_refl].
Qed.
Lemma idle_snapshots_listed_witness : exists l, ListIdleSnap idle_manager = Ret l
  /\ (mkSnapKey 7 6 9, true) ∈ l /\ (mkSnapKey 8 6 12, false) ∉ l.
Proof.
  destruct (idle_snapshots_listed idle_manager idle_manager_ok) as (l & Hl & Hin). exists l. split; [exact Hl|]. split.
  - apply Hin. split; [apply small_key; lia|]. split; [exists [1]; vm_compute; reflexivity|vm_compute; reflexivity].
  - intros Hl'. apply Hin in Hl' as (_ & _ & Hr). vm_compute in Hr. discriminate.
Defined.
