(* ===== verification/RaftstoreUtil.v ===== *)
(** * RaftstoreUtil: checks of requests and messages

    [kv/raftstore/util/util.go] and [error.go]: whether a key lies in a region, whether
    the epoch, the term, the store and the peer of a request match, and the errors that
    are sent back.  [RemovePeer] shifts the peers inside the array of the region's slice;
    here the region gets the new list.  Message texts and [CloneMsg], which is the
    protobuf library, are left out. *)

From stdpp Require Import base option list strings gmap tactics.
From S2P Require Import Prelude.
From S2P Require Import Eraftpb.
From S2P Require Import Metapb.
From S2P Require Import PeerStorage.
From S2P Require Import RaftCmdpb.

Definition RaftInvalidIndex : Z := 0.
Definition InvalidID : Z := 0.

Inductive raftstore_error :=
  | ErrNotLeader (RegionId : Z) (Leader : option Peer)
  | ErrRegionNotFound (RegionId : Z)
  | ErrKeyNotInRegion (Key : list Z) (region : Region)
  | ErrEpochNotMatch (Regions : list Region)
  | ErrStaleCommand
  | ErrStoreNotMatch (RequestStoreId ActualStoreId : Z)
  | ErrOther (msg : string).

Definition result A := outcome raftstore_error A.

(** ** Messages *)
Definition IsInitialMsg (msg : Message) : bool :=
  bool_decide (m_MsgType msg = MsgRequestVote)
  || (bool_decide (m_MsgType msg = MsgHeartbeat) && (m_Commit msg =? RaftInvalidIndex)).
Definition IsVoteMessage (msg : Message) : bool := bool_decide (m_MsgType msg = MsgRequestVote).
Definition IsFirstVoteMessage (msg : Message) : bool :=
  IsVoteMessage msg && (m_Term msg =? RaftInitLogTerm + 1).

(** ** Keys *)
Definition CheckKeyInRegion (key : list Z) (region : Region) : result unit :=
  if (Compare key (rg_StartKey region) >=? 0)
     && ((len (rg_EndKey region) =? 0) || (Compare key (rg_EndKey region) <? 0))
  then Ret tt else Err (ErrKeyNotInRegion key region).
Definition CheckKeyInRegionExclusive (key : list Z) (region : Region) : result unit :=
  if (Compare (rg_StartKey region) key <? 0)
     && ((len (rg_EndKey region) =? 0) || (Compare key (rg_EndKey region) <? 0))
  then Ret tt else Err (ErrKeyNotInRegion key region).
Definition CheckKeyInRegionInclusive (key : list Z) (region : Region) : result unit :=
  if (Compare key (rg_StartKey region) >=? 0)
     && ((len (rg_EndKey region) =? 0) || (Compare key (rg_EndKey region) <=? 0))
  then Ret tt else Err (ErrKeyNotInRegion key region).

(** ** Epochs *)
Definition IsEpochStale (epoch checkEpoch : RegionEpoch) : bool :=
  (ep_Version epoch <? ep_Version checkEpoch) || (ep_ConfVer epoch <? ep_ConfVer checkEpoch).

(** Which parts of the epoch a request depends on. *)
Definition epochChecks (admin : option AdminCmdType) : bool * bool :=
  match admin with
  | None => (true, false)
  | Some AdminCmdType_CompactLog | Some AdminCmdType_InvalidAdmin => (false, false)
  | Some AdminCmdType_ChangePeer => (false, true)
  | Some AdminCmdType_Split | Some AdminCmdType_TransferLeader => (true, true)
  end.
Definition CheckRegionEpoch (req : RaftCmdRequest) (region : Region) (includeRegion : bool) : result unit :=
  let (checkVer, checkConfVer) := epochChecks (option_map ad_CmdType (rq_AdminRequest req)) in
  if negb checkVer && negb checkConfVer then Ret tt else
  match rq_Header req with
  | None => Err (ErrOther "missing header!")
  | Some header =>
    match rh_RegionEpoch header with
    | None => Err (ErrOther "missing epoch!")
    | Some fromEpoch =>
      let! currentEpoch := deref (rg_RegionEpoch region) in
      if (checkConfVer && negb (ep_ConfVer fromEpoch =? ep_ConfVer currentEpoch))
         || (checkVer && negb (ep_Version fromEpoch =? ep_Version currentEpoch))
      then Err (ErrEpochNotMatch (if includeRegion then [region] else []))
      else Ret tt
    end
  end.

(** ** Peers *)
Definition FindPeer (region : Region) (storeID : Z) : option Peer :=
  List.find (fun p => p_StoreId p =? storeID) (rg_Peers region).
(** The peers without the first one on the store, and that peer. *)
Fixpoint removeFirst (peers : list Peer) (storeID : Z) : option (list Peer * Peer) :=
  match peers with
  | [] => None
  | p :: peers =>
    if p_StoreId p =? storeID then Some (peers, p)
    else match removeFirst peers storeID with Some (l, q) => Some (p :: l, q) | None => None end
  end.
Definition RemovePeer (region : Region) (storeID : Z) : Region * option Peer :=
  match removeFirst (rg_Peers region) storeID with
  | Some (peers, p) => (region <| rg_Peers := peers |>, Some p)
  | None => (region, None)
  end.
Definition PeerEqual (l r : Peer) : bool := (p_Id l =? p_Id r) && (p_StoreId l =? p_StoreId r).
Definition RegionEqual (l r : option Region) : result bool :=
  match l, r with
  | Some l, Some r =>
    if negb (rg_Id l =? rg_Id r) then Ret false else
    let! le := deref (rg_RegionEpoch l) in
    let! re := deref (rg_RegionEpoch r) in
    Ret ((ep_Version le =? ep_Version re) && (ep_ConfVer le =? ep_ConfVer re))
  | _, _ => Ret false
  end.

(** ** The header of a request *)
Definition headerPeer (req : RaftCmdRequest) : result Peer :=
  let! header := deref (rq_Header req) in deref (rh_Peer header).
Definition CheckStoreID (req : RaftCmdRequest) (storeID : Z) : result unit :=
  let! peer := headerPeer req in
  if p_StoreId peer =? storeID then Ret tt else Err (ErrOther "store not match").
Definition CheckTerm (req : RaftCmdRequest) (term : Z) : result unit :=
  let! header := deref (rq_Header req) in
  if (rh_Term header =? 0) || (term <=? rh_Term header ⊞ 1) then Ret tt else Err ErrStaleCommand.
Definition CheckPeerID (req : RaftCmdRequest) (peerID : Z) : result unit :=
  let! peer := headerPeer req in
  if p_Id peer =? peerID then Ret tt else Err (ErrOther "mismatch peer id").

(** ** Errors on the wire *)
Inductive pb_error :=
  | PbNotLeader (RegionId : Z) (Leader : option Peer)
  | PbRegionNotFound (RegionId : Z)
  | PbKeyNotInRegion (Key : list Z) (RegionId : Z) (StartKey EndKey : list Z)
  | PbEpochNotMatch (CurrentRegions : list Region)
  | PbStaleCommand
  | PbStoreNotMatch (RequestStoreId ActualStoreId : Z)
  | PbMessage (msg : string).
Definition RaftstoreErrToPbError (e : raftstore_error) : pb_error :=
  match e with
  | ErrNotLeader id leader => PbNotLeader id leader
  | ErrRegionNotFound id => PbRegionNotFound id
  | ErrKeyNotInRegion key region => PbKeyNotInRegion key (rg_Id region) (rg_StartKey region) (rg_EndKey region)
  | ErrEpochNotMatch regions => PbEpochNotMatch regions
  | ErrStaleCommand => PbStaleCommand
  | ErrStoreNotMatch a b => PbStoreNotMatch a b
  | ErrOther msg => PbMessage msg
  end.

(** ** Facts *)

(** A request passes the epoch check when the parts of the epoch it depends on are the
    region's, and is refused otherwise; commands that depend on none always pass. *)
Lemma CheckRegionEpoch_spec req region includeRegion header from cur :
  rq_Header req = Some header -> rh_RegionEpoch header = Some from -> rg_RegionEpoch region = Some cur ->
  let (ver, conf) := epochChecks (option_map ad_CmdType (rq_AdminRequest req)) in
  CheckRegionEpoch req region includeRegion
    = if (ver && negb (ep_Version from =? ep_Version cur)) || (conf && negb (ep_ConfVer from =? ep_ConfVer cur))
      then Err (ErrEpochNotMatch (if includeRegion then [region] else [])) else Ret tt.
Proof.
  intros Hh Hf Hc. unfold CheckRegionEpoch. destruct (epochChecks _) as [ver conf]. rewrite Hh, Hf, Hc.
  cbn [deref]. rewrite orb_comm. by destruct ver, conf.
Qed.

(** The term of a request may be one behind; the successor of the greatest term wraps
    around, so that a request with it is refused in every term but 0. *)
Lemma CheckTerm_spec req header term :
  rq_Header req = Some header -> is_u64 (rh_Term header) -> 0 < rh_Term header -> is_u64 term ->
  CheckTerm req term
    = if (rh_Term header <? two64 - 1) && (term <=? rh_Term header + 1) || (term =? 0) then Ret tt else Err ErrStaleCommand.
Proof.
  intros Hh Hu Hp Ht. unfold CheckTerm. rewrite Hh. cbn [deref].
  destruct (Z.eqb_spec (rh_Term header) 0); [lia|]. cbn [orb].
  destruct (Z.ltb_spec (rh_Term header) (two64 - 1)) as [Hlt|Hge]; cbn [andb orb].
  - rewrite u64_add_small by (unfold is_u64 in *; lia).
    destruct (Z.leb_spec term (rh_Term header + 1)), (Z.eqb_spec term 0); try done; unfold is_u64 in *; lia.
  - assert (rh_Term header = two64 - 1) as -> by (unfold is_u64 in Hu; lia). change ((two64 - 1) ⊞ 1) with 0.
    unfold is_u64 in Ht. destruct (Z.leb_spec term 0), (Z.eqb_spec term 0); done || lia.
Qed.

(** Removing a peer removes one peer, on that store, and keeps the others in order. *)
Lemma RemovePeer_spec region storeID :
  match RemovePeer region storeID with
  | (region', Some p) => exists l1 l2, rg_Peers region = l1 ++ p :: l2 /\ rg_Peers region' = l1 ++ l2
      /\ p_StoreId p = storeID /\ Forall (fun q => p_StoreId q <> storeID) l1
  | (region', None) => region' = region /\ Forall (fun q => p_StoreId q <> storeID) (rg_Peers region)
  end.
Proof.
  unfold RemovePeer.
  assert (Hr : forall peers, match removeFirst peers storeID with
    | Some (l, p) => exists l1 l2, peers = l1 ++ p :: l2 /\ l = l1 ++ l2 /\ p_StoreId p = storeID
        /\ Forall (fun q => p_StoreId q <> storeID) l1
    | None => Forall (fun q => p_StoreId q <> storeID) peers end).
  { induction peers as [|p peers IH]; cbn; [constructor|].
    destruct (Z.eqb_spec (p_StoreId p) storeID) as [He|Hne]; [by exists [], peers|].
    destruct (removeFirst peers storeID) as [[l q]|]; [|by constructor].
    destruct IH as (l1 & l2 & -> & -> & Hq & Hl1). exists (p :: l1), l2. split_and!; try done. by constructor. }
  specialize (Hr (rg_Peers region)). destruct (removeFirst (rg_Peers region) storeID) as [[l p]|]; [|done].
  destruct Hr as (l1 & l2 & -> & -> & Hp & Hl1). by exists l1, l2.
Qed.
