(* ===== verification/Peer.v ===== *)
(** * Peer: a peer of a region on a store

    [kv/raftstore/peer.go], [ticker.go], [cmd_resp.go], the initial states of
    [bootstrap.go] and the [storeMeta] of [raftstore.go].  The peer storage is the storage
    of the Raft log: the Go code holds one pointer to it in both places.  Callbacks are
    numbers, [None] for nil.  What a handler sends to channels, callbacks and the
    transport is collected in a list of effects.  Commands are encoded by [cmdBytes] and
    decoded by [cmdOf], which are parameters, as are the random numbers of the Raft
    package.  [PeersStartPendingTime] is the set of its keys: the times are only logged. *)

From stdpp Require Import base option list strings gmap tactics.
From S2P Require Import Prelude.
From S2P Require Import Eraftpb.
From S2P Require Import RaftServerpb.
From S2P Require Import RaftStorage.
From S2P Require Import RaftLog.
From S2P Require Import Raft.
From S2P Require Import RawNode.
From S2P Require Import Meta.
From S2P Require Import BTree.
From S2P Require Import Metapb.
From S2P Require Import Engine.
From S2P Require Import EngineIter.
From S2P Require Import PeerStorage.
From S2P Require Import RaftCmdpb.
From S2P Require Import RaftstoreUtil.

(** ** Configuration and ticker *)
Record Config := mkStoreConfig {
  cf_RaftBaseTickInterval : Z;
  cf_RaftHeartbeatTicks : Z;
  cf_RaftElectionTimeoutTicks : Z;
  cf_RaftLogGCTickInterval : Z;
  cf_RaftLogGcCountLimit : Z;
  cf_SplitRegionCheckTickInterval : Z;
  cf_SchedulerHeartbeatTickInterval : Z;
  cf_SchedulerStoreHeartbeatTickInterval : Z;
  cf_RegionMaxSize : Z;
  cf_RegionSplitSize : Z;
}.
Definition Validate (c : Config) : outcome error unit :=
  if cf_RaftHeartbeatTicks c =? 0 then Err (ErrMsg "heartbeat tick must greater than 0") else
  if cf_RaftElectionTimeoutTicks c <=? cf_RaftHeartbeatTicks c
  then Err (ErrMsg "election tick must be greater than heartbeat tick.") else Ret tt.
(** Durations are in nanoseconds. *)
Definition Millisecond : Z := 1000000.
Definition Second : Z := 1000 * Millisecond.
Definition MB : Z := 1024 * 1024.
Definition NewDefaultConfig : Config :=
  mkStoreConfig (1 * Second) 2 10 (10 * Second) 128000 (10 * Second) (100 * Millisecond) (10 * Second) (144 * MB) (96 * MB).
Definition NewTestConfig : Config :=
  mkStoreConfig (50 * Millisecond) 2 10 (50 * Millisecond) 128000 (100 * Millisecond) (100 * Millisecond)
    (500 * Millisecond) (144 * MB) (96 * MB).

Inductive PeerTick := PeerTickRaft | PeerTickRaftLogGC | PeerTickSplitRegionCheck | PeerTickSchedulerHeartbeat.
Definition tick_no (tp : PeerTick) : nat :=
  match tp with
  | PeerTickRaft => 0 | PeerTickRaftLogGC => 1 | PeerTickSplitRegionCheck => 2 | PeerTickSchedulerHeartbeat => 3
  end.
Record tickSchedule := mkSchedule { ts_runAt : Z; ts_interval : Z }.
Record ticker := mkTicker { tk_regionID : Z; tk_tick : Z; tk_schedules : list tickSchedule }.
Definition newTicker {E} (regionID : Z) (cfg : Config) : outcome E ticker :=
  let baseInterval := cf_RaftBaseTickInterval cfg in
  if baseInterval =? 0 then Panic else
  Ret (mkTicker regionID 0
         [mkSchedule 0 1;
          mkSchedule 0 (Z.quot (cf_RaftLogGCTickInterval cfg) baseInterval);
          mkSchedule 0 (Z.quot (cf_SplitRegionCheckTickInterval cfg) baseInterval);
          mkSchedule 0 (Z.quot (cf_SchedulerHeartbeatTickInterval cfg) baseInterval);
          mkSchedule 0 0; mkSchedule 0 0]).
Definition tickClock (t : ticker) : ticker := mkTicker (tk_regionID t) (int64 (tk_tick t + 1)) (tk_schedules t).
Definition schedule {E} (t : ticker) (tp : PeerTick) : outcome E ticker :=
  let! sched := deref (tk_schedules t !! tick_no tp) in
  let runAt := if ts_interval sched <=? 0 then -1 else int64 (tk_tick t + ts_interval sched) in
  Ret (mkTicker (tk_regionID t) (tk_tick t) (<[tick_no tp := mkSchedule runAt (ts_interval sched)]> (tk_schedules t))).
Definition isOnTick {E} (t : ticker) (tp : PeerTick) : outcome E bool :=
  let! sched := deref (tk_schedules t !! tick_no tp) in Ret (ts_runAt sched =? tk_tick t).

(** ** Responses *)
Record RaftCmdResponse := mkResponse {
  resp_Error : option pb_error;
  resp_CurrentTerm : Z;
  resp_Responses : list Response;
  resp_AdminResponse : option AdminCmdType;
}.
Definition newCmdResp : RaftCmdResponse := mkResponse None 0 [] None.
Definition BindRespTerm (resp : RaftCmdResponse) (term : Z) : RaftCmdResponse :=
  if term =? 0 then resp else mkResponse (resp_Error resp) term (resp_Responses resp) (resp_AdminResponse resp).
Definition BindRespError (resp : RaftCmdResponse) (err : raftstore_error) : RaftCmdResponse :=
  mkResponse (Some (RaftstoreErrToPbError err)) (resp_CurrentTerm resp) (resp_Responses resp) (resp_AdminResponse resp).
Definition ErrResp (err : raftstore_error) : RaftCmdResponse := BindRespError newCmdResp err.
Definition ErrRespWithTerm (err : raftstore_error) (term : Z) : RaftCmdResponse := BindRespTerm (ErrResp err) term.
Definition ErrRespStaleCommand (term : Z) : RaftCmdResponse := ErrRespWithTerm ErrStaleCommand term.

(** ** The regions of a store, by start key and by id *)
Definition regionLess (r other : Region) : bool := Compare (rg_StartKey r) (rg_StartKey other) <? 0.
Record storeMeta := mkStoreMeta { me_regionRanges : BTree Region; me_regions : gmap Z Region }.
Definition newStoreMeta {E} : outcome E storeMeta := let! t := New 2 in Ret (mkStoreMeta t ∅).
Definition getOverlapRegions {E} (m : storeMeta) (region : Region) : outcome E (list Region) :=
  let! result := DescendLessOrEqual regionLess (me_regionRanges m) region (fun _ i => (Some i, false)) None in
  let result := match result with
                | None => region
                | Some r => if ExceedEndKey (rg_StartKey region) (rg_EndKey r) then region else r
                end in
  AscendGreaterOrEqual regionLess (me_regionRanges m) result
    (fun overlaps over =>
       if ExceedEndKey (rg_StartKey over) (rg_EndKey region) then (overlaps, false)
       else (overlaps ++ [over], true)) [].

(** ** Membership of a region: [Region.AddPeer] and [Region.RemovePeer] *)
Fixpoint addPeerLoop {E} (peers : list Peer) (peer : Peer) : outcome E bool :=
  match peers with
  | [] => Ret true
  | pr :: peers =>
    if ((p_StoreId pr =? p_StoreId peer) && negb (p_Id pr =? p_Id peer))
       || (negb (p_StoreId pr =? p_StoreId peer) && (p_Id pr =? p_Id peer)) then Panic else
    if p_Id pr =? p_Id peer then Ret false else addPeerLoop peers peer
  end.
Definition AddPeer {E} (region : Region) (peer : Peer) : outcome E (Region * bool) :=
  let! fresh := addPeerLoop (rg_Peers region) peer in
  Ret (if fresh : bool then (region <| rg_Peers := rg_Peers region ++ [peer] |>, true) else (region, false)).
Fixpoint removeId (peers : list Peer) (id : Z) : option (list Peer) :=
  match peers with
  | [] => None
  | p :: peers => if id =? p_Id p then Some peers else (p ::.) <$> removeId peers id
  end.
Definition RemovePeerId (region : Region) (id : Z) : Region * bool :=
  match removeId (rg_Peers region) id with
  | Some peers => (region <| rg_Peers := peers |>, true)
  | None => (region, false)
  end.

(** ** Peers *)
Record proposal := mkProposal { pp_index : Z; pp_term : Z; pp_cb : Z }.

Record peer (D : Type) := mkPeerState {
  pe_ticker : ticker;
  pe_RaftGroup : RawNode (PeerStorage D);
  pe_Meta : Peer;
  pe_regionId : Z;
  pe_proposals : list proposal;
  pe_LastCompactedIdx : Z;
  pe_peerCache : gmap Z Peer;
  pe_PeersStartPendingTime : gset Z;
  pe_stopped : bool;
  pe_SizeDiffHint : Z;
  pe_ApproximateSize : option Z;
}.
Arguments mkPeerState {D}.
Arguments pe_ticker {D}.
Arguments pe_RaftGroup {D}.
Arguments pe_Meta {D}.
Arguments pe_regionId {D}.
Arguments pe_proposals {D}.
Arguments pe_LastCompactedIdx {D}.
Arguments pe_peerCache {D}.
Arguments pe_PeersStartPendingTime {D}.
Arguments pe_stopped {D}.
Arguments pe_SizeDiffHint {D}.
Arguments pe_ApproximateSize {D}.
#[export] Instance set_pe_ticker {D} : Setter (@pe_ticker D) := fun g p =>
  mkPeerState (g (pe_ticker p)) (pe_RaftGroup p) (pe_Meta p) (pe_regionId p) (pe_proposals p) (pe_LastCompactedIdx p) (pe_peerCache p) (pe_PeersStartPendingTime p) (pe_stopped p) (pe_SizeDiffHint p) (pe_ApproximateSize p).
#[export] Instance set_pe_RaftGroup {D} : Setter (@pe_RaftGroup D) := fun g p =>
  mkPeerState (pe_ticker p) (g (pe_RaftGroup p)) (pe_Meta p) (pe_regionId p) (pe_proposals p) (pe_LastCompactedIdx p) (pe_peerCache p) (pe_PeersStartPendingTime p) (pe_stopped p) (pe_SizeDiffHint p) (pe_ApproximateSize p).
#[export] Instance set_pe_Meta {D} : Setter (@pe_Meta D) := fun g p =>
  mkPeerState (pe_ticker p) (pe_RaftGroup p) (g (pe_Meta p)) (pe_regionId p) (pe_proposals p) (pe_LastCompactedIdx p) (pe_peerCache p) (pe_PeersStartPendingTime p) (pe_stopped p) (pe_SizeDiffHint p) (pe_ApproximateSize p).
#[export] Instance set_pe_regionId {D} : Setter (@pe_regionId D) := fun g p =>
  mkPeerState (pe_ticker p) (pe_RaftGroup p) (pe_Meta p) (g (pe_regionId p)) (pe_proposals p) (pe_LastCompactedIdx p) (pe_peerCache p) (pe_PeersStartPendingTime p) (pe_stopped p) (pe_SizeDiffHint p) (pe_ApproximateSize p).
#[export] Instance set_pe_proposals {D} : Setter (@pe_proposals D) := fun g p =>
  mkPeerState (pe_ticker p) (pe_RaftGroup p) (pe_Meta p) (pe_regionId p) (g (pe_proposals p)) (pe_LastCompactedIdx p) (pe_peerCache p) (pe_PeersStartPendingTime p) (pe_stopped p) (pe_SizeDiffHint p) (pe_ApproximateSize p).
#[export] Instance set_pe_LastCompactedIdx {D} : Setter (@pe_LastCompactedIdx D) := fun g p =>
  mkPeerState (pe_ticker p) (pe_RaftGroup p) (pe_Meta p) (pe_regionId p) (pe_proposals p) (g (pe_LastCompactedIdx p)) (pe_peerCache p) (pe_PeersStartPendingTime p) (pe_stopped p) (pe_SizeDiffHint p) (pe_ApproximateSize p).
#[export] Instance set_pe_peerCache {D} : Setter (@pe_peerCache D) := fun g p =>
  mkPeerState (pe_ticker p) (pe_RaftGroup p) (pe_Meta p) (pe_regionId p) (pe_proposals p) (pe_LastCompactedIdx p) (g (pe_peerCache p)) (pe_PeersStartPendingTime p) (pe_stopped p) (pe_SizeDiffHint p) (pe_ApproximateSize p).
#[export] Instance set_pe_PeersStartPendingTime {D} : Setter (@pe_PeersStartPendingTime D) := fun g p =>
  mkPeerState (pe_ticker p) (pe_RaftGroup p) (pe_Meta p) (pe_regionId p) (pe_proposals p) (pe_LastCompactedIdx p) (pe_peerCache p) (g (pe_PeersStartPendingTime p)) (pe_stopped p) (pe_SizeDiffHint p) (pe_ApproximateSize p).
#[export] Instance set_pe_stopped {D} : Setter (@pe_stopped D) := fun g p =>
  mkPeerState (pe_ticker p) (pe_RaftGroup p) (pe_Meta p) (pe_regionId p) (pe_proposals p) (pe_LastCompactedIdx p) (pe_peerCache p) (pe_PeersStartPendingTime p) (g (pe_stopped p)) (pe_SizeDiffHint p) (pe_ApproximateSize p).
#[export] Instance set_pe_SizeDiffHint {D} : Setter (@pe_SizeDiffHint D) := fun g p =>
  mkPeerState (pe_ticker p) (pe_RaftGroup p) (pe_Meta p) (pe_regionId p) (pe_proposals p) (pe_LastCompactedIdx p) (pe_peerCache p) (pe_PeersStartPendingTime p) (pe_stopped p) (g (pe_SizeDiffHint p)) (pe_ApproximateSize p).
#[export] Instance set_pe_ApproximateSize {D} : Setter (@pe_ApproximateSize D) := fun g p =>
  mkPeerState (pe_ticker p) (pe_RaftGroup p) (pe_Meta p) (pe_regionId p) (pe_proposals p) (pe_LastCompactedIdx p) (pe_peerCache p) (pe_PeersStartPendingTime p) (pe_stopped p) (pe_SizeDiffHint p) (g (pe_ApproximateSize p)).

(** What a handler sends. *)
Inductive effect (D : Type) :=
  | EDone (cb : Z) (resp : RaftCmdResponse)
  | ETxn (cb : Z) (kv : D)
  | ESend (msg : RaftMessage)
  | ERaftLogGC (RegionID StartIdx EndIdx : Z)
  | ERegister (p : peer D)
  | EClose (regionID : Z)
  | EStart (regionID : Z)
  | EStoreMsg (msg : RaftMessage)
  | ETick (regionID : Z)
  | EHeartbeat (region : Region) (p : Peer) (pending : list Peer) (size : option Z)
  | ESplitCheck (region : Region)
  | EAskSplit (region : Region) (splitKey : list Z) (p : Peer) (cb : option Z)
  | EDeleteSnap (RegionID Term Index : Z) (isSending : bool).
Arguments EDone {D}.
Arguments ETxn {D}.
Arguments ESend {D}.
Arguments ERaftLogGC {D}.
Arguments ERegister {D}.
Arguments EClose {D}.
Arguments EStart {D}.
Arguments EStoreMsg {D}.
Arguments ETick {D}.
Arguments EHeartbeat {D}.
Arguments ESplitCheck {D}.
Arguments EAskSplit {D}.
Arguments EDeleteSnap {D}.

(** The state of a [peerMsgHandler]: the peer, the regions of the store, and what was sent. *)
Record handler (D : Type) := mkHandler {
  d_peer : peer D;
  d_storeMeta : storeMeta;
  d_out : list (effect D);
}.
Arguments mkHandler {D}.
Arguments d_peer {D}.
Arguments d_storeMeta {D}.
Arguments d_out {D}.
#[export] Instance set_d_peer {D} : Setter (@d_peer D) := fun g d =>
  mkHandler (g (d_peer d)) (d_storeMeta d) (d_out d).
#[export] Instance set_d_storeMeta {D} : Setter (@d_storeMeta D) := fun g d =>
  mkHandler (d_peer d) (g (d_storeMeta d)) (d_out d).
#[export] Instance set_d_out {D} : Setter (@d_out D) := fun g d =>
  mkHandler (d_peer d) (d_storeMeta d) (g (d_out d)).

Section Peer.
Context {D : Type} `{Badger D}.
Context (regionStateBytes : PeerState -> Region -> list Z) (snapRegion : option (list Z) -> option (option Region)).
Context (rand_Int : nat -> Z) (cfg : Config).
Instance peer_storage : Storage (PeerStorage D) := Storage_PeerStorage snapRegion.

Definition peerStorage (p : peer D) : PeerStorage D := l_storage (r_RaftLog (rn_Raft (pe_RaftGroup p))).
Definition setStorage (p : peer D) (ps : PeerStorage D) : peer D :=
  p <| pe_RaftGroup ::= fun rn => rn <| rn_Raft ::= fun r => r <| r_RaftLog ::= fun l => l <| l_storage := ps |> |> |> |>.
Definition getRegion (p : peer D) : Region := ps_region (peerStorage p).
Definition SetPeerRegion (p : peer D) (region : Region) : peer D := setStorage p (SetRegion (peerStorage p) region).
Definition storeID (p : peer D) : Z := p_StoreId (pe_Meta p).
Definition PeerId (p : peer D) : Z := p_Id (pe_Meta p).
Definition LeaderId (p : peer D) : Z := r_Lead (rn_Raft (pe_RaftGroup p)).
Definition IsLeader (p : peer D) : bool := bool_decide (r_State (rn_Raft (pe_RaftGroup p)) = StateLeader).
Definition PeerTerm (p : peer D) : Z := r_Term (rn_Raft (pe_RaftGroup p)).
Definition nextProposalIndex (p : peer D) : Z := RaftLog.LastIndex (r_RaftLog (rn_Raft (pe_RaftGroup p))) ⊞ 1.
Definition MaybeDestroy (p : peer D) : bool := negb (pe_stopped p).

(** ** Creation *)
Definition NewPeer (storeId : Z) (raft kv : D) (region : Region) (meta : Peer) : outcome error (peer D) :=
  if p_Id meta =? InvalidID then Err (ErrMsg "invalid peer id") else
  match NewPeerStorage raft kv region with
  | Ret ps =>
    let! rn := NewRawNode rand_Int
                 (mkConfig (p_Id meta) None (cf_RaftElectionTimeoutTicks cfg) (cf_RaftHeartbeatTicks cfg)
                    (Some ps) (AppliedIndex ps)) in
    let! tk := newTicker (rg_Id region) cfg in
    let p := mkPeerState tk rn meta (rg_Id region) [] 0 ∅ ∅ false 0 None in
    match rg_Peers region with
    | [only] =>
      if p_StoreId only =? storeId then
        let! rn := Campaign rand_Int (pe_RaftGroup p) in Ret (p <| pe_RaftGroup := rn |>)
      else Ret p
    | _ => Ret p
    end
  | Err _ => Err (ErrMsg "peer storage")
  | Panic => Panic
  | OutOfFuel => OutOfFuel
  end.
Definition createPeer (storeID : Z) (raft kv : D) (region : Region) : outcome error (peer D) :=
  match FindPeer region storeID with
  | None => Err (ErrMsg "find no peer for store")
  | Some metaPeer => NewPeer storeID raft kv region metaPeer
  end.
Definition replicatePeer (storeID : Z) (raft kv : D) (regionID : Z) (metaPeer : Peer) : outcome error (peer D) :=
  NewPeer storeID raft kv (zero_Region <| rg_Id := regionID |> <| rg_RegionEpoch := Some (mkEpoch 0 0) |>) metaPeer.

(** ** The peer cache *)
Definition insertPeerCache (p : peer D) (x : Peer) : peer D := p <| pe_peerCache ::= <[p_Id x := x]> |>.
Definition removePeerCache (p : peer D) (peerID : Z) : peer D := p <| pe_peerCache ::= delete peerID |>.
Definition getPeerFromCache (p : peer D) (peerID : Z) : peer D * option Peer :=
  match pe_peerCache p !! peerID with
  | Some x => (p, Some x)
  | None =>
    match List.find (fun x => p_Id x =? peerID) (rg_Peers (getRegion p)) with
    | Some x => (insertPeerCache p x, Some x)
    | None => (p, None)
    end
  end.

(** ** Pending peers: the order is that of a Go map *)
Definition CollectPendingPeers (p : peer D) : outcome error (peer D * list Peer) :=
  let! truncatedIdx := truncatedIndex (peerStorage p) in
  Ret (foldl (fun '(p, pending) '(id, progress) =>
                if id =? p_Id (pe_Meta p) then (p, pending) else
                if pr_Match progress <? truncatedIdx then
                  match getPeerFromCache p id with
                  | (p, Some x) => (p <| pe_PeersStartPendingTime ::= fun s => {[id]} ∪ s |>, pending ++ [x])
                  | (p, None) => (p, pending)
                  end
                else (p, pending))
         (p, []) (map_to_list (GetProgress (pe_RaftGroup p)))).
Definition AnyNewPeerCatchUp (p : peer D) (peerId : Z) : outcome error (peer D * bool) :=
  if decide (pe_PeersStartPendingTime p = ∅) then Ret (p, false) else
  if negb (IsLeader p) then Ret (p <| pe_PeersStartPendingTime := ∅ |>, false) else
  if decide (peerId ∈ pe_PeersStartPendingTime p) then
    let! truncatedIdx := truncatedIndex (peerStorage p) in
    match r_Prs (rn_Raft (pe_RaftGroup p)) !! peerId with
    | Some progress =>
      if pr_Match progress >=? truncatedIdx
      then Ret (p <| pe_PeersStartPendingTime ::= fun s => s ∖ {[peerId]} |>, true)
      else Ret (p, false)
    | None => Ret (p, false)
    end
  else Ret (p, false).
Definition MaybeCampaign (p : peer D) (parentIsLeader : bool) : outcome error (peer D * bool) :=
  if (len (rg_Peers (getRegion p)) <=? 1) || negb parentIsLeader then Ret (p, false) else
  let! rn := ignore_err (pe_RaftGroup p) (Campaign rand_Int (pe_RaftGroup p)) in
  Ret (p <| pe_RaftGroup := rn |>, true).

(** ** Sending *)
Definition sendRaftMessage (p : peer D) (msg : Message) : outcome error (peer D * option RaftMessage) :=
  let region := getRegion p in
  let! epoch := deref (rg_RegionEpoch region) in
  match getPeerFromCache p (m_To msg) with
  | (p, None) => Ret (p, None)
  | (p, Some toPeer) =>
    let (startKey, endKey) := if isInitialized (peerStorage p) && IsInitialMsg msg
                              then (rg_StartKey region, rg_EndKey region) else ([], []) in
    Ret (p, Some (mkRaftMessage (pe_regionId p) (Some (pe_Meta p)) (Some toPeer) (Some msg)
                    (Some (mkEpoch (ep_ConfVer epoch) (ep_Version epoch))) false startKey endKey))
  end.
End Peer.
