(* ===== verification/PeerMsg.v ===== *)
(** * PeerMsg: the message handler of a peer

    [kv/raftstore/peer_msg_handler.go].  A method takes the handler's state and returns the
    new one; a Go error that the caller turns into a panic is a [Panic].  The engines of the
    context are those of the peer storage.  A peer that a split creates is handed to the
    router with the engines as they are.  Reading a snapshot file for applying succeeds
    when [snapOk] says so; for collecting old snapshot files the message says what the
    snapshot manager finds. *)

From stdpp Require Import base option list strings gmap tactics.
From S2P Require Import Prelude.
From S2P Require Import Eraftpb.
From S2P Require Import EraftpbWire.
From S2P Require Import RaftServerpb.
From S2P Require Import RaftStorage.
From S2P Require Import RaftLog.
From S2P Require Import Raft.
From S2P Require Import RawNode.
From S2P Require Import Meta.
From S2P Require Import BTree.
From S2P Require Import Metapb.
From S2P Require Import Engine.
From S2P Require Import PeerStorage.
From S2P Require Import RaftCmdpb.
From S2P Require Import RaftstoreUtil.
From S2P Require Import Peer.

Section Handler.
Context {D : Type} `{Badger D}.
Context (regionStateBytes : PeerState -> Region -> list Z) (snapRegion : option (list Z) -> option (option Region)).
Context (cmdBytes : RaftCmdRequest -> list Z) (cmdOf : list Z -> option RaftCmdRequest).
Context (rand_Int : nat -> Z) (cfg : Config) (snapOk : Z -> Z -> Z -> bool).
#[local] Instance handler_storage : Storage (PeerStorage D) := Storage_PeerStorage snapRegion.
Abbreviation handler := (handler D).
Abbreviation result A := (outcome error A).

Definition storage (d : handler) : PeerStorage D := peerStorage (d_peer d).
Definition set_storage (d : handler) (ps : PeerStorage D) : handler := d <| d_peer ::= fun p => setStorage p ps |>.
Definition kv (d : handler) : D := ps_kv (storage d).
Definition set_kv (d : handler) (db : D) : handler := set_storage d ((storage d) <| ps_kv := db |>).
Definition region (d : handler) : Region := getRegion (d_peer d).
Definition emit (d : handler) (e : effect D) : handler := d <| d_out ::= fun l => l ++ [e] |>.
Definition group (d : handler) : RawNode (PeerStorage D) := pe_RaftGroup (d_peer d).
Definition set_group (d : handler) (rn : RawNode (PeerStorage D)) : handler := d <| d_peer ::= fun p => p <| pe_RaftGroup := rn |> |>.

(** [Callback.Done] and [AdminDone]; a nil callback does nothing. *)
Definition Done (d : handler) (cb : option Z) (resp : RaftCmdResponse) : handler :=
  match cb with Some cb => emit d (EDone cb resp) | None => d end.
Definition AdminDone (d : handler) (cb : option Z) (cmdType : AdminCmdType) : handler :=
  Done d cb (mkResponse None 0 [] (Some cmdType)).

(** [storeMeta.setRegion(region, d.peer)]. *)
Definition setRegion (d : handler) (r : Region) : handler :=
  d <| d_storeMeta ::= fun m => mkStoreMeta (me_regionRanges m) (<[rg_Id r := r]> (me_regions m)) |>
    <| d_peer ::= fun p => SetPeerRegion p r |>.

(** ** Proposals *)
(** The proposals left, the callback of a stale one, and the proposal of the entry. *)
Fixpoint popProposals (proposals : list proposal) (term index : Z)
    : list proposal * option Z * option proposal :=
  match proposals with
  | [] => ([], None, None)
  | p :: rest =>
    if (pp_term p >? term) || ((pp_term p =? term) && (pp_index p >? index)) then (proposals, None, None) else
    if negb (pp_term p =? term) then (rest, Some (pp_cb p), None) else
    if negb (pp_index p =? index) then popProposals rest term index
    else (rest, None, Some p)
  end.
Definition popProposal (d : handler) (term index : Z) : handler * option proposal :=
  let '(rest, stale, p) := popProposals (pe_proposals (d_peer d)) term index in
  let d := d <| d_peer ::= fun q => q <| pe_proposals := rest |> |> in
  match stale with
  | Some cb => (Done d (Some cb) (ErrRespStaleCommand (PeerTerm (d_peer d))), p)
  | None => (d, p)
  end.
(** Answer the proposal of an entry with an error. *)
Definition failProposal (d : handler) (ent : Entry) (err : raftstore_error) : handler :=
  match popProposal d (e_Term ent) (e_Index ent) with
  | (d, Some p) => Done d (Some (pp_cb p)) (ErrResp err)
  | (d, None) => d
  end.

(** ** Applying commands on keys *)
Definition getKey (req : Request) : result (option (list Z)) :=
  match rqs_CmdType req with
  | CmdType_Put => let! put := deref (rqs_Put req) in Ret (put_Key put)
  | CmdType_Get => let! get := deref (rqs_Get req) in Ret (get_Key get)
  | CmdType_Delete => let! del := deref (rqs_Delete req) in Ret (del_Key del)
  | _ => Ret None
  end.

Definition checkRegionVersion (d : handler) (ent : Entry) (msgRegionEpoch : option RegionEpoch) : result (handler * bool) :=
  let! epoch := deref (rg_RegionEpoch (region d)) in
  let! msgEpoch := deref msgRegionEpoch in
  if negb (ep_Version epoch =? ep_Version msgEpoch)
  then Ret (failProposal d ent (ErrEpochNotMatch [region d]), false)
  else Ret (d, true).
Definition checkKeyRange (d : handler) (ent : Entry) (req : Request) : result (handler * bool) :=
  let! key := getKey req in
  match key with
  | None => Ret (d, true)
  | Some key =>
    match CheckKeyInRegion key (region d) with
    | Err err => Ret (failProposal d ent err, false)
    | _ => Ret (d, true)
    end
  end.

(** The answer to the client; a [Get] of a key that is not there panics. *)
Definition respond (d : handler) (req : Request) (p : proposal) : result (handler * list Response) :=
  match rqs_CmdType req with
  | CmdType_Get =>
    let! get := deref (rqs_Get req) in
    let! val := deref (db_get (kv d) (wb.KeyWithCF (get_Cf get) (default [] (get_Key get)))) in
    Ret (d, [GetResponse val])
  | CmdType_Put => Ret (d, [PutResponse])
  | CmdType_Delete => Ret (d, [DeleteResponse])
  | CmdType_Snap => Ret (emit d (ETxn (pp_cb p) (kv d)), [SnapResponse (region d)])
  | CmdType_Invalid => Ret (d, [])
  end.
Definition handleProposal (d : handler) (req : Request) (ent : Entry) (b : WriteBatch) : result (handler * WriteBatch) :=
  match popProposal d (e_Term ent) (e_Index ent) with
  | (d, None) => Ret (d, b)
  | (d, Some p) =>
    if negb (pp_index p =? e_Index ent) then Panic else
    let! (d, responses) := respond d req p in
    Ret (Done d (Some (pp_cb p)) (mkResponse None 0 responses None), b)
  end.

Definition handleRequest (d : handler) (msg : RaftCmdRequest) (ent : Entry) (b : WriteBatch) : result (handler * WriteBatch) :=
  match rq_Requests msg with
  | [req] =>
    let! header := deref (rq_Header msg) in
    let! (d, ok) := checkRegionVersion d ent (rh_RegionEpoch header) in
    if negb ok then Ret (d, b) else
    let! (d, ok) := checkKeyRange d ent req in
    if negb ok then Ret (d, b) else
    let! b := (match rqs_CmdType req with
               | CmdType_Put => let! put := deref (rqs_Put req) in
                   Ret (wb.SetCF b (put_Cf put) (default [] (put_Key put)) (default [] (put_Value put)))
               | CmdType_Delete => let! del := deref (rqs_Delete req) in
                   Ret (wb.DeleteCF b (del_Cf del) (default [] (del_Key del)))
               | CmdType_Snap =>
                   let! epoch := deref (rg_RegionEpoch (region d)) in
                   let! msgEpoch := deref (rh_RegionEpoch header) in
                   if negb (ep_Version msgEpoch =? ep_Version epoch) then Panic else Ret b
               | _ => Ret b
               end) in
    let d := set_kv d (wb.WriteToDB b (kv d)) in
    handleProposal d req ent new_WriteBatch
  | _ => Panic
  end.

(** ** Destroying the peer *)
Definition Destroy (d : handler) : result handler :=
  match clearMeta (storage d) new_WriteBatch new_WriteBatch with
  | Ret (kvWB, raftWB) =>
    let kvWB := WriteRegionState regionStateBytes kvWB (region d) PeerState_Tombstone in
    let d := set_kv d (wb.WriteToDB kvWB (kv d)) in
    let d := set_storage d ((storage d) <| ps_raft := wb.WriteToDB raftWB (ps_raft (storage d)) |>) in
    let d := if isInitialized (storage d) then set_storage d (ClearData (storage d)) else d in
    let d := foldl (fun d p => Done d (Some (pp_cb p)) (ErrResp (ErrRegionNotFound (rg_Id (region d)))))
               d (pe_proposals (d_peer d)) in
    Ret (d <| d_peer ::= fun p => p <| pe_proposals := [] |> |>)
  | _ => Panic
  end.
Definition destroyPeer (d : handler) : result handler :=
  let regionID := pe_regionId (d_peer d) in
  let initialized := isInitialized (storage d) in
  let! d := Destroy d in
  let d := emit d (EClose regionID) in
  let d := d <| d_peer ::= fun p => p <| pe_stopped := true |> |> in
  let! d := (if initialized then
               let! (tree, old) := Delete regionLess (me_regionRanges (d_storeMeta d)) (region d) in
               let! _ := deref old in
               Ret (d <| d_storeMeta ::= fun m => mkStoreMeta tree (me_regions m) |>)
             else Ret d) in
  let! _ := deref (me_regions (d_storeMeta d) !! regionID) in
  Ret (d <| d_storeMeta ::= fun m => mkStoreMeta (me_regionRanges m) (delete regionID (me_regions m)) |>).

(** ** Applying commands on the group *)
Definition ScheduleCompactLog (d : handler) (truncatedIndex : Z) : handler :=
  let endIdx := truncatedIndex ⊞ 1 in
  emit (d <| d_peer ::= fun p => p <| pe_LastCompactedIdx := endIdx |> |>)
    (ERaftLogGC (pe_regionId (d_peer d)) (pe_LastCompactedIdx (d_peer d)) endIdx).
Definition applyCompactLog (d : handler) (compactLog : CompactLogRequest) (b : WriteBatch) : result (handler * WriteBatch) :=
  let! t := truncated (storage d) in
  if cl_CompactIndex compactLog >? rt_Index t then
    let t := t <| rt_Index := cl_CompactIndex compactLog |> <| rt_Term := cl_CompactTerm compactLog |> in
    let applySt := (ps_applyState (storage d)) <| ra_TruncatedState := Some t |> in
    let d := set_storage d ((storage d) <| ps_applyState := applySt |>) in
    let! b := try_SetMeta b (ApplyStateKey (pe_regionId (d_peer d))) applySt in
    Ret (ScheduleCompactLog d (cl_CompactIndex compactLog), b)
  else Ret (d, b).

(** What becomes of the peer: an added peer that is there already changes nothing, and the
    removal of an unknown one goes on. *)
Inductive peer_change := Unchanged | Changed | SelfRemoved.
Definition bumpConfVer (r : Region) : result Region :=
  let! e := deref (rg_RegionEpoch r) in
  Ret (r <| rg_RegionEpoch := Some (e <| ep_ConfVer := ep_ConfVer e ⊞ 1 |>) |>).
(** The region's state under the key of a region id. *)
Definition saveRegion (d : handler) (regionID : Z) (r : Region) : handler :=
  let val := regionStateBytes PeerState_Normal r in
  let key := RegionStateKey regionID in
  set_kv d (wb.WriteToDB (wb.add new_WriteBatch key val (len key + len val)) (kv d)).
Definition changePeer (d : handler) (cc : ConfChange) (msg : RaftCmdRequest) : result (handler * Region * peer_change) :=
  match cc_ChangeType cc with
  | ConfChangeType_AddNode =>
    let! admin := deref (rq_AdminRequest msg) in
    let! change := deref (ad_ChangePeer admin) in
    let! pr := deref (cp_Peer change) in
    let! (r, added) := AddPeer (region d) pr in
    if added : bool then
      let! r := bumpConfVer r in
      let d := saveRegion d (rg_Id r) r in
      Ret (d <| d_peer ::= fun p => insertPeerCache p pr |>, r, Changed)
    else Ret (d, r, Unchanged)
  | ConfChangeType_RemoveNode =>
    let (r, removed) := RemovePeerId (region d) (cc_NodeId cc) in
    if removed : bool then
      if cc_NodeId cc =? r_id (rn_Raft (group d)) then Ret (d, r, SelfRemoved) else
      let! r := bumpConfVer r in
      let d := saveRegion d (pe_regionId (d_peer d)) r in
      Ret (d <| d_peer ::= fun p => removePeerCache p (cc_NodeId cc) |>, r, Changed)
    else Ret (d, r, Changed)
  | _ => Panic
  end.
(** [_, ok := err.( *util.ErrEpochNotMatch)]. *)
Definition epochNotMatch (o : RaftstoreUtil.result unit) : result bool :=
  match o with
  | Ret _ => Ret false
  | Err err => Ret (match err with ErrEpochNotMatch _ => true | _ => false end)
  | Panic => Panic
  | OutOfFuel => OutOfFuel
  end.
Definition applyChangePeer (d : handler) (ent : Entry) (b : WriteBatch) : result (handler * WriteBatch) :=
  match ConfChange_Unmarshal zero_ConfChange (default [] (e_Data ent)) with
  | Ret cc =>
    let! msg := deref (cmdOf (default [] (cc_Context cc))) in
    let! stale := epochNotMatch (CheckRegionEpoch msg (region d) true) in
    if stale : bool then Ret (d, b) else
    let! (d, r, change) := changePeer d cc msg in
    match change with
    | Unchanged => Ret (d, b)
    | SelfRemoved => let! d := destroyPeer (setRegion d r) in Ret (d, b)
    | Changed =>
      let d := setRegion d r in
      let! (rn, _) := ApplyConfChange (group d) cc in
      Ret (set_group d rn, b)
    end
  | OutOfFuel => OutOfFuel
  | _ => Panic
  end.

(** [updateConfChange], [addNode] and [removeNode] are an older version of the same change. *)
Definition handler_addNode (d : handler) (r : Region) (cc : ConfChange) : result handler :=
  match cmdOf (default [] (cc_Context cc)) with
  | None => Ret d
  | Some msg =>
    let! admin := deref (rq_AdminRequest msg) in
    let! change := deref (ad_ChangePeer admin) in
    let! pr := deref (cp_Peer change) in
    let! (r, added) := AddPeer r pr in
    if added : bool then
      let! r := bumpConfVer r in
      Ret ((setRegion (saveRegion d (rg_Id r) r) r) <| d_peer ::= fun p => insertPeerCache p pr |>)
    else Ret d
  end.
Definition handler_removeNode (d : handler) (r : Region) (cc : ConfChange) : result handler :=
  let (r, removed) := RemovePeerId r (cc_NodeId cc) in
  if removed : bool then
    if cc_NodeId cc =? r_id (rn_Raft (group d)) then destroyPeer (setRegion d r) else
    let! r := bumpConfVer r in
    let d := setRegion d r in
    let d := d <| d_peer ::= fun p => removePeerCache p (cc_NodeId cc) |> in
    Ret (saveRegion d (pe_regionId (d_peer d)) r)
  else Ret d.
Definition updateConfChange (d : handler) (cc : ConfChange) : result handler :=
  match cc_ChangeType cc with
  | ConfChangeType_AddNode => handler_addNode d (region d) cc
  | ConfChangeType_RemoveNode => handler_removeNode d (region d) cc
  | _ => Ret d
  end.

(** Start and end of a cloned region are nil when they are empty. *)
Definition validSplitKey (key start stop : list Z) : bool :=
  (if len start =? 0 then true else Compare start key <? 0)
  && (if len stop =? 0 then true else Compare key stop <? 0).
Definition InitEpochVer : Z := 1.
Definition InitEpochConfVer : Z := 1.
Definition writeInitialApplyState (kvWB : WriteBatch) (regionID : Z) : result WriteBatch :=
  try_SetMeta kvWB (ApplyStateKey regionID)
    (mkApplyState RaftInitLogIndex (Some (mkTruncatedState RaftInitLogIndex RaftInitLogTerm None)) None).
Definition writeInitialRaftState (raftWB : WriteBatch) (regionID : Z) : result WriteBatch :=
  try_SetMeta raftWB (RaftStateKey regionID)
    (mkLocalState (Some (mkHardState RaftInitLogTerm 0 RaftInitLogIndex None)) RaftInitLogIndex 0 None).
(** The new peers are on the stores of the old ones, in order; too many ids panic. *)
Fixpoint splitPeers (ids : list Z) (peers : list Peer) : result (list Peer) :=
  match ids, peers with
  | [], _ => Ret []
  | id :: ids, p :: peers => let! l := splitPeers ids peers in Ret (mkPeer id (p_StoreId p) :: l)
  | _ :: _, [] => Panic
  end.
Definition regionSplit (d : handler) (r : Region) (req : SplitRequest) : result (handler * Region) :=
  if len (sp_NewPeerIds req) =? 0 then Panic else
  let! peers := splitPeers (sp_NewPeerIds req) (rg_Peers r) in
  let newRegion := mkRegion (sp_NewRegionId req) (sp_SplitKey req) (rg_EndKey r)
                     (Some (mkEpoch InitEpochConfVer InitEpochVer)) peers in
  let! kvWB := writeInitialApplyState new_WriteBatch (rg_Id newRegion) in
  let kvWB := WriteRegionState regionStateBytes kvWB newRegion PeerState_Normal in
  let! e := deref (rg_RegionEpoch r) in
  let r := r <| rg_RegionEpoch := Some (e <| ep_Version := ep_Version e ⊞ 1 |>) |>
             <| rg_EndKey := sp_SplitKey req |> in
  let kvWB := WriteRegionState regionStateBytes kvWB r PeerState_Normal in
  let d := set_kv d (wb.WriteToDB kvWB (kv d)) in
  let d := setRegion d r in
  let! raftWB := writeInitialRaftState new_WriteBatch (rg_Id newRegion) in
  let d := set_storage d ((storage d) <| ps_raft := wb.WriteToDB raftWB (ps_raft (storage d)) |>) in
  Ret (d, newRegion).
Definition applySplit (d : handler) (split : SplitRequest) (b : WriteBatch) : result (handler * WriteBatch) :=
  let r := region d in
  if negb (validSplitKey (sp_SplitKey split) (rg_StartKey r) (rg_EndKey r)) then Ret (d, b) else
  if negb (len (rg_Peers r) =? len (sp_NewPeerIds split)) then Ret (d, b) else
  let! (d, newRegion) := regionSplit d r split in
  let! newPeer := must (createPeer snapRegion rand_Int cfg (p_StoreId (pe_Meta (d_peer d)))
                          (ps_raft (storage d)) (kv d) newRegion) in
  let! (tree, _) := ReplaceOrInsert regionLess (me_regionRanges (d_storeMeta d)) newRegion in
  let d := d <| d_storeMeta ::= fun m => mkStoreMeta tree (<[rg_Id newRegion := newRegion]> (me_regions m)) |> in
  let d := emit d (ERegister (SetPeerRegion newPeer newRegion)) in
  Ret (emit d (EStart (rg_Id newRegion)), b).

Definition handleAdminRequest (d : handler) (msg : AdminRequest) (ent : Entry) (b : WriteBatch) : result (handler * WriteBatch) :=
  match ad_CmdType msg with
  | AdminCmdType_CompactLog => let! compactLog := deref (ad_CompactLog msg) in applyCompactLog d compactLog b
  | AdminCmdType_ChangePeer => applyChangePeer d ent b
  | AdminCmdType_Split => let! split := deref (ad_Split msg) in applySplit d split b
  | _ => Ret (d, b)
  end.

(** ** Committed entries *)
Definition applyEntry (d : handler) (ent : Entry) (data : list Z) (b : WriteBatch) : result (handler * WriteBatch) :=
  if decide (e_EntryType ent = EntryType_EntryConfChange)
  then handleAdminRequest d (mkAdmin AdminCmdType_ChangePeer None None None None) ent b
  else
    let! msg := deref (cmdOf data) in
    match rq_AdminRequest msg with
    | Some admin => if negb (len (rq_Requests msg) =? 0) then Panic else handleAdminRequest d admin ent b
    | None => handleRequest d msg ent b
    end.
(** The loop ends when the peer is destroyed. *)
Fixpoint commitLoop (d : handler) (ents : list Entry) (b : WriteBatch) : result (handler * WriteBatch) :=
  match ents with
  | [] => Ret (d, b)
  | ent :: ents =>
    match e_Data ent with
    | None => commitLoop d ents b
    | Some data =>
      let! (d, b) := applyEntry d ent data b in
      if pe_stopped (d_peer d) then Ret (d, b) else commitLoop d ents b
    end
  end.
Definition HandleCommitEnts (d : handler) (ents : list Entry) : result handler :=
  match list.last ents with
  | None => Ret d
  | Some lastEnt =>
    let! (d, b) := commitLoop d ents new_WriteBatch in
    if pe_stopped (d_peer d) then Ret d else
    let applySt := (ps_applyState (storage d)) <| ra_AppliedIndex := e_Index lastEnt |> in
    let d := set_storage d ((storage d) <| ps_applyState := applySt |>) in
    let! b := try_SetMeta b (ApplyStateKey (pe_regionId (d_peer d))) applySt in
    Ret (set_kv d (wb.WriteToDB b (kv d)))
  end.

(** ** [HandleRaftReady] *)
(** [reflect.DeepEqual] also tells a nil key from an empty one: only the first region of a
    cluster, as it is made at bootstrap, has empty keys that are not nil. *)
Definition mayUpdateRegion (d : handler) (res : option ApplySnapResult) : result handler :=
  match res with
  | Some res =>
    if decide (as_PrevRegion res = as_Region res) then Ret d else
    let d := d <| d_peer ::= fun p => SetPeerRegion p (as_Region res) |> in
    let! (tree, _) := Delete regionLess (me_regionRanges (d_storeMeta d)) (as_PrevRegion res) in
    let! (tree, _) := ReplaceOrInsert regionLess tree (as_Region res) in
    Ret (d <| d_storeMeta ::= fun m => mkStoreMeta tree (<[rg_Id (as_Region res) := as_Region res]> (me_regions m)) |>)
  | None => Ret d
  end.
(** A message for an unknown peer is dropped. *)
Definition Send (d : handler) (msgs : list Message) : result handler :=
  foldM (fun d msg =>
           let! (p, sent) := sendRaftMessage (d_peer d) msg in
           let d := d <| d_peer := p |> in
           Ret (match sent with Some m => emit d (ESend m) | None => d end)) d msgs.
Definition HandleRaftReady (d : handler) : result handler :=
  if pe_stopped (d_peer d) then Ret d else
  let! ready := HasReady (group d) in
  if negb ready then Ret d else
  let! (rn, rd) := ReadyNode (group d) in
  let d := set_group d rn in
  let! (ps, res) := must (SaveReadyState regionStateBytes snapRegion (storage d) rd) in
  let d := set_storage d ps in
  let! d := mayUpdateRegion d res in
  let! d := Send d (rd_Messages rd) in
  let! d := HandleCommitEnts d (rd_CommittedEntries rd) in
  let! rn := Advance (group d) rd in
  Ret (set_group d rn).

(** ** Proposing *)
(** The last region of the store from this one on. *)
Definition findSiblingRegion (d : handler) : result (option Region) :=
  AscendGreaterOrEqual regionLess (me_regionRanges (d_storeMeta d)) (region d) (fun _ i => (Some i, true)) None.
(** The handler, with a peer that may be cached, and the error. *)
Definition as_error {A} (d : handler) (o : RaftstoreUtil.result A) (k : result (handler * option raftstore_error))
    : result (handler * option raftstore_error) :=
  match o with Ret _ => k | Err e => Ret (d, Some e) | Panic => Panic | OutOfFuel => OutOfFuel end.
Definition preProposeRaftCommand (d : handler) (req : RaftCmdRequest) : result (handler * option raftstore_error) :=
  as_error d (CheckStoreID req (storeID (d_peer d)))
    (if negb (IsLeader (d_peer d)) then
       let (p, leader) := getPeerFromCache (d_peer d) (LeaderId (d_peer d)) in
       Ret (d <| d_peer := p |>, Some (ErrNotLeader (pe_regionId p) leader))
     else
     as_error d (CheckPeerID req (PeerId (d_peer d)))
       (as_error d (CheckTerm req (PeerTerm (d_peer d)))
          (match CheckRegionEpoch req (region d) true with
           | Err (ErrEpochNotMatch regions) =>
             let! sibling := findSiblingRegion d in
             Ret (d, Some (ErrEpochNotMatch (regions ++ match sibling with Some r => [r] | None => [] end)))
           | o => as_error d o (Ret (d, None))
           end))).

Definition proposeRequest (d : handler) (msg : RaftCmdRequest) (cb : option Z) : result handler :=
  let d := match cb with
           | Some cb => d <| d_peer ::= fun p => p <| pe_proposals := pe_proposals p
                               ++ [mkProposal (nextProposalIndex p) (PeerTerm p) cb] |> |>
           | None => d
           end in
  let! rn := must (Propose rand_Int (group d) (Some (cmdBytes msg))) in
  Ret (set_group d rn).
Definition proposeAdminRequest (d : handler) (msg : RaftCmdRequest) (admin : AdminRequest) (cb : option Z) : result handler :=
  match ad_CmdType admin with
  | AdminCmdType_CompactLog =>
    let! rn := ignore_err (group d) (Propose rand_Int (group d) (Some (cmdBytes msg))) in
    Ret (set_group d rn)
  | AdminCmdType_TransferLeader =>
    let! transfer := deref (ad_TransferLeader admin) in
    let! peer := deref (tl_Peer transfer) in
    let! rn := TransferLeader rand_Int (group d) (p_Id peer) in
    Ret (AdminDone (set_group d rn) cb AdminCmdType_TransferLeader)
  | AdminCmdType_ChangePeer =>
    if r_PendingConfIndex (rn_Raft (group d)) >? 0 then Ret (AdminDone d cb AdminCmdType_ChangePeer) else
    let! change := deref (ad_ChangePeer admin) in
    let! peer := deref (cp_Peer change) in
    let cc := mkConfChange (cp_ChangeType change) (p_Id peer) (Some (cmdBytes msg)) None in
    let! rn := must (ProposeConfChange rand_Int (group d) cc) in
    Ret (AdminDone (set_group d rn) cb AdminCmdType_ChangePeer)
  | AdminCmdType_Split => proposeRequest d msg cb
  | AdminCmdType_InvalidAdmin => Ret d
  end.
Definition proposeRaftCommand (d : handler) (msg : RaftCmdRequest) (cb : option Z) : result handler :=
  let! (d, err) := preProposeRaftCommand d msg in
  match err with
  | Some err => Ret (Done d cb (ErrResp err))
  | None =>
    match rq_AdminRequest msg with
    | Some admin => proposeAdminRequest d msg admin cb
    | None => proposeRequest d msg cb
    end
  end.

(** ** Messages of other peers *)
Definition HeartbeatScheduler (d : handler) : result handler :=
  let! (p, pending) := CollectPendingPeers (d_peer d) in
  let d := d <| d_peer := p |> in
  Ret (emit d (EHeartbeat (region d) (pe_Meta p) pending (pe_ApproximateSize p))).

Definition validateRaftMessage (d : handler) (msg : RaftMessage) : bool :=
  (GetStoreId (ms_ToPeer msg) =? storeID (d_peer d)) && match ms_RegionEpoch msg with Some _ => true | None => false end.
Definition handleStaleMsg (d : handler) (msg : RaftMessage) (curEpoch : RegionEpoch) (needGC : bool) : handler :=
  if needGC then
    emit d (ESend (mkRaftMessage (ms_RegionId msg) (ms_ToPeer msg) (ms_FromPeer msg) None (Some curEpoch) true [] []))
  else d.
Definition handleGCPeerMsg (d : handler) (msg : RaftMessage) : result handler :=
  let! epoch := deref (rg_RegionEpoch (region d)) in
  let! fromEpoch := deref (ms_RegionEpoch msg) in
  if negb (IsEpochStale epoch fromEpoch) then Ret d else
  let! toPeer := deref (ms_ToPeer msg) in
  if negb (PeerEqual (pe_Meta (d_peer d)) toPeer) then Ret d else
  if MaybeDestroy (d_peer d) then destroyPeer d else Ret d.
(** The new state, and whether the message is dropped. *)
Definition checkMessage (d : handler) (msg : RaftMessage) : result (handler * bool) :=
  let! fromEpoch := deref (ms_RegionEpoch msg) in
  let isVoteMsg := match ms_Message msg with Some m => IsVoteMessage m | None => false end in
  let! epoch := deref (rg_RegionEpoch (region d)) in
  if IsEpochStale fromEpoch epoch
     && match FindPeer (region d) (GetStoreId (ms_FromPeer msg)) with None => true | Some _ => false end
  then Ret (handleStaleMsg d msg epoch isVoteMsg, true) else
  let! target := deref (ms_ToPeer msg) in
  if p_Id target <? PeerId (d_peer d) then Ret (d, true) else
  if p_Id target >? PeerId (d_peer d) then
    if MaybeDestroy (d_peer d) then
      let! d := destroyPeer d in Ret (emit d (EStoreMsg msg), true)
    else Ret (d, true)
  else Ret (d, false).

(** Nothing to do, or the key of a snapshot that is dropped. *)
Definition checkSnapshot (d : handler) (msg : RaftMessage) : result (option (Z * Z * Z)) :=
  let! m := deref (ms_Message msg) in
  match m_Snapshot m with
  | None => Ret None
  | Some snapshot =>
    let! md := deref (s_Metadata snapshot) in
    let key := (ms_RegionId msg, sm_Term md, sm_Index md) in
    match snapRegion (s_Data snapshot) with
    | None => Err (ErrMsg "unmarshal")
    | Some sr =>
      let! sr := deref sr in
      let! toPeer := deref (ms_ToPeer msg) in
      if negb (existsb (fun p => p_Id p =? p_Id toPeer) (rg_Peers sr)) then Ret (Some key) else
      match RegionEqual (me_regions (d_storeMeta d) !! pe_regionId (d_peer d)) (Some (region d)) with
      | Ret true =>
        let! existRegions := getOverlapRegions (d_storeMeta d) sr in
        if existsb (fun r => negb (rg_Id r =? rg_Id sr)) existRegions then Ret (Some key) else
        if snapOk (ms_RegionId msg) (sm_Term md) (sm_Index md) then Ret None else Err (ErrMsg "snapshot")
      | Ret false => if isInitialized (storage d) then Panic else Ret (Some key)
      | _ => Panic
      end
    end
  end.

(** The error is the second component: what was done before it stays done. *)
Definition onRaftMsg (d : handler) (msg : RaftMessage) : result (handler * option error) :=
  if negb (validateRaftMessage d msg) then Ret (d, None) else
  if pe_stopped (d_peer d) then Ret (d, None) else
  if ms_IsTombstone msg then let! d := handleGCPeerMsg d msg in Ret (d, None) else
  let! (d, drop) := checkMessage d msg in
  if drop : bool then Ret (d, None) else
  match checkSnapshot d msg with
  | Err err => Ret (d, Some err)
  | Panic => Panic
  | OutOfFuel => OutOfFuel
  | Ret (Some (regionID, term, index)) =>
    if snapOk regionID term index then Ret (emit d (EDeleteSnap regionID term index false), None)
    else Ret (d, Some (ErrMsg "snapshot"))
  | Ret None =>
    let! from := deref (ms_FromPeer msg) in
    let! m := deref (ms_Message msg) in
    let d := d <| d_peer ::= fun p => insertPeerCache p from |> in
    match StepNode rand_Int (group d) m with
    | Err err => Ret (d, Some err)
    | Panic => Panic
    | OutOfFuel => OutOfFuel
    | Ret rn =>
      let d := set_group d rn in
      let! (p, caught) := AnyNewPeerCatchUp (d_peer d) (p_Id from) in
      let d := d <| d_peer := p |> in
      if caught : bool then let! d := HeartbeatScheduler d in Ret (d, None) else Ret (d, None)
    end
  end.

(** ** Ticks *)
Definition newAdminRequest (regionID : Z) (peer : Peer) (admin : AdminRequest) : RaftCmdRequest :=
  mkRequest (Some (mkHeader regionID (Some peer) None 0)) [] (Some admin).
Definition newCompactLogRequest (regionID : Z) (peer : Peer) (compactIndex compactTerm : Z) : RaftCmdRequest :=
  newAdminRequest regionID peer
    (mkAdmin AdminCmdType_CompactLog None (Some (mkCompactLog compactIndex compactTerm)) None None).
Definition reschedule (d : handler) (tp : PeerTick) : result handler :=
  let! t := schedule (pe_ticker (d_peer d)) tp in Ret (d <| d_peer ::= fun p => p <| pe_ticker := t |> |>).

Definition onRaftBaseTick (d : handler) : result handler :=
  let! rn := ignore_err (group d) (Tick rand_Int (group d)) in reschedule (set_group d rn) PeerTickRaft.
Definition onRaftGCLogTick (d : handler) : result handler :=
  let! d := reschedule d PeerTickRaftLogGC in
  if negb (IsLeader (d_peer d)) then Ret d else
  let appliedIdx := AppliedIndex (storage d) in
  let! firstIdx := FirstIndex (storage d) in
  if (appliedIdx >? firstIdx) && (appliedIdx ⊟ firstIdx >=? cf_RaftLogGcCountLimit cfg) then
    let compactIdx := appliedIdx ⊟ 1 in
    if compactIdx <? firstIdx then Ret d else
    let! term := must (RaftLog.Term (r_RaftLog (rn_Raft (group d))) compactIdx) in
    proposeRaftCommand d (newCompactLogRequest (pe_regionId (d_peer d)) (pe_Meta (d_peer d)) compactIdx term) None
  else Ret d.
(** [pending]: whether the split checker has tasks waiting. *)
Definition onSplitRegionCheckTick (pending : bool) (d : handler) : result handler :=
  let! d := reschedule d PeerTickSplitRegionCheck in
  if pending then Ret d else
  if negb (IsLeader (d_peer d)) then Ret d else
  if match pe_ApproximateSize (d_peer d) with Some _ => true | None => false end
     && (pe_SizeDiffHint (d_peer d) <? cf_RegionSplitSize cfg / 8) then Ret d else
  Ret ((emit d (ESplitCheck (region d))) <| d_peer ::= fun p => p <| pe_SizeDiffHint := 0 |> |>).
Definition onSchedulerHeartbeatTick (d : handler) : result handler :=
  let! d := reschedule d PeerTickSchedulerHeartbeat in
  if negb (IsLeader (d_peer d)) then Ret d else HeartbeatScheduler d.
Definition onTick (pending : bool) (d : handler) : result handler :=
  if pe_stopped (d_peer d) then Ret d else
  let d := d <| d_peer ::= fun p => p <| pe_ticker ::= tickClock |> |> in
  let on tp (k : handler -> result handler) d :=
    (let! b := isOnTick (pe_ticker (d_peer d)) tp in if b : bool then k d else Ret d) in
  let! d := on PeerTickRaft onRaftBaseTick d in
  let! d := on PeerTickRaftLogGC onRaftGCLogTick d in
  let! d := on PeerTickSchedulerHeartbeat onSchedulerHeartbeatTick d in
  let! d := on PeerTickSplitRegionCheck (onSplitRegionCheckTick pending) d in
  Ret (emit d (ETick (pe_regionId (d_peer d)))).
Definition startTicker (d : handler) : result handler :=
  let! t := newTicker (pe_regionId (d_peer d)) cfg in
  let d := d <| d_peer ::= fun p => p <| pe_ticker := t |> |> in
  let d := emit d (ETick (pe_regionId (d_peer d))) in
  let! d := reschedule d PeerTickRaft in
  let! d := reschedule d PeerTickRaftLogGC in
  let! d := reschedule d PeerTickSplitRegionCheck in
  reschedule d PeerTickSchedulerHeartbeat.

(** ** Splitting *)
Definition validateSplitRegion (d : handler) (epoch : option RegionEpoch) (splitKey : list Z) : result (handler * option raftstore_error) :=
  if len splitKey =? 0 then Ret (d, Some (ErrOther "split key should not be empty")) else
  if negb (IsLeader (d_peer d)) then
    let (p, leader) := getPeerFromCache (d_peer d) (LeaderId (d_peer d)) in
    Ret (d <| d_peer := p |>, Some (ErrNotLeader (pe_regionId p) leader))
  else
  let! latestEpoch := deref (rg_RegionEpoch (region d)) in
  let! epoch := deref epoch in
  if negb (ep_Version latestEpoch =? ep_Version epoch) then Ret (d, Some (ErrEpochNotMatch [region d])) else
  Ret (d, None).
Definition onPrepareSplitRegion (d : handler) (regionEpoch : option RegionEpoch) (splitKey : list Z) (cb : option Z) : result handler :=
  let! (d, err) := validateSplitRegion d regionEpoch splitKey in
  match err with
  | Some err => Ret (Done d cb (ErrResp err))
  | None => Ret (emit d (EAskSplit (region d) splitKey (pe_Meta (d_peer d)) cb))
  end.
Definition onApproximateRegionSize (d : handler) (size : Z) : handler :=
  d <| d_peer ::= fun p => p <| pe_ApproximateSize := Some size |> |>.

(** ** Old snapshot files *)
(** The key of a file, whether it is for sending, whether it can be loaded, and whether its
    metadata can be read and say that it is more than four hours old. *)
Record snap_file := mkSnapFile {
  sf_RegionID : Z; sf_Term : Z; sf_Index : Z; sf_IsSending : bool; sf_loads : bool; sf_expired : bool;
}.
Definition onGCSnap (d : handler) (snaps : list snap_file) : result handler :=
  let! compactedIdx := truncatedIndex (storage d) in
  let! compactedTerm := truncatedTerm (storage d) in
  Ret (foldl (fun d key =>
         if negb (sf_loads key) then d else
         if (if sf_IsSending key
             then (sf_Term key <? compactedTerm) || (sf_Index key <? compactedIdx) || sf_expired key
             else (sf_Term key <=? compactedTerm) && ((sf_Index key <? compactedIdx) || (sf_Index key =? compactedIdx)))
         then emit d (EDeleteSnap (sf_RegionID key) (sf_Term key) (sf_Index key) (sf_IsSending key)) else d) d snaps).

(** ** [HandleMsg]; an error of [onRaftMsg] is only logged. *)
Inductive Msg :=
  | MsgTypeRaftMessage (m : RaftMessage)
  | MsgTypeRaftCmd (request : RaftCmdRequest) (cb : option Z)
  | MsgTypeTick (pending : bool)
  | MsgTypeSplitRegion (epoch : option RegionEpoch) (splitKey : list Z) (cb : option Z)
  | MsgTypeRegionApproximateSize (size : Z)
  | MsgTypeGcSnap (snaps : list snap_file)
  | MsgTypeStart.
Definition HandleMsg (d : handler) (msg : Msg) : result handler :=
  match msg with
  | MsgTypeRaftMessage m => let! (d, _) := onRaftMsg d m in Ret d
  | MsgTypeRaftCmd request cb => proposeRaftCommand d request cb
  | MsgTypeTick pending => onTick pending d
  | MsgTypeSplitRegion epoch splitKey cb => onPrepareSplitRegion d epoch splitKey cb
  | MsgTypeRegionApproximateSize size => Ret (onApproximateRegionSize d size)
  | MsgTypeGcSnap snaps => onGCSnap d snaps
  | MsgTypeStart => startTicker d
  end.
End Handler.
