(* ===== verification/Runner.v ===== *)
(** * Runner: the background workers of a store

    [kv/raftstore/runner]: the worker that deletes compacted log entries
    ([raftlog_gc.go]), the one that looks for split keys ([split_checker.go]), and the one
    that talks to the scheduler ([scheduler_task.go]).  What they send to the peers of the
    store is a list of messages with their regions; the scheduler's answers, the size of the
    disk and of the engine are parameters. *)

From stdpp Require Import base option list strings gmap sorting tactics.
From S2P Require Import Prelude.
From S2P Require Import Wire.
From S2P Require Import Eraftpb.
From S2P Require Import Codec.
From S2P Require Import Meta.
From S2P Require Import Metapb.
From S2P Require Import RegionInfo.
From S2P Require Import Store.
From S2P Require Import Engine.
From S2P Require Import EngineIter.
From S2P Require Import RaftCmdpb.
From S2P Require Import PeerMsg.

(** ** Deleting compacted log entries *)
Record RaftLogGCTask := mkRaftLogGCTask { lg_RegionID : Z; lg_StartIdx : Z; lg_EndIdx : Z }.

Section Workers.
Context {D : Type} `{Badger D}.

(** [for idx := firstIdx; idx < endIdx; idx += 1]: there are [n] rounds. *)
Fixpoint gcLoop (n : nat) (regionId idx : Z) (raftWb : WriteBatch) : WriteBatch :=
  match n with
  | O => raftWb
  | S n => gcLoop n regionId (idx + 1) (wb.DeleteMeta raftWb (RaftLogKey regionId idx))
  end.
Definition gcRaftLog (raftDb : D) (regionId startIdx endIdx : Z) : outcome meta_error (D * Z) :=
  let! firstIdx := (if startIdx =? 0 then
                      match db_from raftDb (RaftLogKey regionId 0) with
                      | (key, _) :: _ => RaftLogIndex key
                      | [] => Ret endIdx
                      end
                    else Ret startIdx) in
  if firstIdx >=? endIdx then Ret (raftDb, 0) else
  let raftWb := gcLoop (Z.to_nat (endIdx - firstIdx)) regionId firstIdx new_WriteBatch in
  let raftDb := if negb (wb.Len raftWb =? 0) then wb.WriteToDB raftWb raftDb else raftDb in
  Ret (raftDb, endIdx ⊟ firstIdx).
(** An error is logged; the number of entries is reported. *)
Definition HandleGCTask (raftDb : D) (t : RaftLogGCTask) : outcome meta_error (D * Z) :=
  match gcRaftLog raftDb (lg_RegionID t) (lg_StartIdx t) (lg_EndIdx t) with
  | Err _ => Ret (raftDb, 0)
  | r => r
  end.

(** ** Looking for a split key *)
Record sizeSplitChecker := mkChecker {
  sc_maxSize : Z;
  sc_splitSize : Z;
  sc_currentSize : Z;
  sc_splitKey : option (list Z);
}.
Definition newSizeSplitChecker (maxSize splitSize : Z) : sizeSplitChecker := mkChecker maxSize splitSize 0 None.
Definition checker_reset (c : sizeSplitChecker) : sizeSplitChecker := mkChecker (sc_maxSize c) (sc_splitSize c) 0 None.
Definition onKv (c : sizeSplitChecker) (key value : list Z) : sizeSplitChecker * bool :=
  let currentSize := sc_currentSize c ⊞ (len key + len value) in
  let splitKey := if (currentSize >? sc_splitSize c) && match sc_splitKey c with None => true | Some _ => false end
                  then Some key else sc_splitKey c in
  (mkChecker (sc_maxSize c) (sc_splitSize c) currentSize splitKey, currentSize >? sc_maxSize c).
Definition getSplitKey (c : sizeSplitChecker) : option (list Z) :=
  if sc_currentSize c <? sc_maxSize c then None else sc_splitKey c.

(** The checker, and what was sent: the size of the region, when a key after its end was
    seen. *)
Definition splitCheck {E} (engine : D) (c : sizeSplitChecker) (startKey endKey : list Z)
    : outcome E (option (list Z) * list Msg) :=
  let! (c, sent) := iterFrom (NewCFIterator CfDefault engine) startKey
    (fun '(c, sent) key value =>
       if ExceedEndKey key endKey then Ret ((c, sent ++ [MsgTypeRegionApproximateSize (sc_currentSize c)]), true) else
       let (c, stop) := onKv c key value in Ret ((c, sent), stop))
    (checker_reset c, []) in
  Ret (getSplitKey c, sent).
(** The timestamp of a key with one is cut off. *)
Definition HandleSplitCheck {E} (engine : D) (c : sizeSplitChecker) (region : Region) : outcome E (list Msg) :=
  let! (key, sent) := splitCheck engine c (rg_StartKey region) (rg_EndKey region) in
  match key with
  | Some key =>
    let! key := (match DecodeBytes key with
                 | Ret (_, userKey) => EncodeBytes userKey
                 | Err _ => Ret key
                 | Panic => Panic
                 | OutOfFuel => OutOfFuel
                 end) in
    Ret (sent ++ [MsgTypeSplitRegion (rg_RegionEpoch region) key None])
  | None => Ret sent
  end.
End Workers.

(** ** Talking to the scheduler *)
Record RegionHeartbeatResponse := mkHeartbeatResponse {
  hr_ChangePeer : option ChangePeerRequest;
  hr_TransferLeader : option TransferLeaderRequest;
  hr_RegionId : Z;
  hr_RegionEpoch : option RegionEpoch;
  hr_TargetPeer : option Peer;
}.
Record AskSplitResponse := mkAskSplit { as_NewRegionId : Z; as_NewPeerIds : list Z }.
Inductive scheduler_task :=
  | SchedulerAskSplitTask (region : Region) (splitKey : list Z) (peer : Peer) (cb : option Z)
  | SchedulerRegionHeartbeatTask (region : Region) (peer : Peer) (pendingPeers : list Peer) (approximateSize : option Z)
  | SchedulerStoreHeartbeatTask (stats : StoreStats).
(** A command for a region of the store, or a request to the scheduler. *)
Inductive scheduler_out :=
  | ToRegion (regionID : Z) (msg : Msg)
  | RegionHeartbeat (req : RegionHeartbeatRequest)
  | StoreHeartbeat (stats : StoreStats).

Definition sendAdminRequest (regionID : Z) (epoch : option RegionEpoch) (peer : option Peer) (req : AdminRequest)
    (cb : option Z) : scheduler_out :=
  ToRegion regionID (MsgTypeRaftCmd (mkRequest (Some (mkHeader regionID peer epoch 0)) [] (Some req)) cb).
(** [cb] is the new callback. *)
Definition onRegionHeartbeatResponse (cb : Z) (resp : RegionHeartbeatResponse) : list scheduler_out :=
  match hr_ChangePeer resp, hr_TransferLeader resp with
  | Some changePeer, _ =>
    [sendAdminRequest (hr_RegionId resp) (hr_RegionEpoch resp) (hr_TargetPeer resp)
       (mkAdmin AdminCmdType_ChangePeer (Some (mkChangePeer (cp_ChangeType changePeer) (cp_Peer changePeer))) None None None)
       (Some cb)]
  | None, Some transferLeader =>
    [sendAdminRequest (hr_RegionId resp) (hr_RegionEpoch resp) (hr_TargetPeer resp)
       (mkAdmin AdminCmdType_TransferLeader None None (Some (mkTransferLeader (tl_Peer transferLeader))) None) (Some cb)]
  | None, None => []
  end.

Section Scheduler.
(** The answer of the scheduler, [None] for an error; the capacity of the disk, and the
    sizes of the parts of the engine. *)
Context (AskSplit : Region -> option AskSplitResponse) (disk_Usage : option Z) (engine_Size : Z * Z).

Definition onAskSplit (region : Region) (splitKey : list Z) (peer : Peer) (cb : option Z) : list scheduler_out :=
  match AskSplit region with
  | None => []
  | Some resp =>
    [sendAdminRequest (rg_Id region) (rg_RegionEpoch region) (Some peer)
       (mkAdmin AdminCmdType_Split None None None (Some (mkSplit splitKey (as_NewRegionId resp) (as_NewPeerIds resp)))) cb]
  end.
Definition onHeartbeat (region : Region) (peer : Peer) (pendingPeers : list Peer) (approximateSize : option Z)
    : list scheduler_out :=
  let size := match approximateSize with Some s => int64 s | None => 0 end in
  [RegionHeartbeat (mkHeartbeat (Some region) (Some peer) pendingPeers (wrap64 size))].
Definition onStoreHeartbeat (stats : StoreStats) : list scheduler_out :=
  match disk_Usage with
  | None => []
  | Some capacity =>
    let usedSize := ss_UsedSize stats ⊞ wrap64 (fst engine_Size) ⊞ wrap64 (snd engine_Size) in
    let available := if capacity >? usedSize then capacity ⊟ usedSize else 0 in
    [StoreHeartbeat (mkStoreStats (ss_StoreId stats) capacity available (ss_RegionCount stats) (ss_SendingSnapCount stats)
       (ss_ReceivingSnapCount stats) (ss_StartTime stats) (ss_ApplyingSnapCount stats) (ss_IsBusy stats) usedSize)]
  end.
Definition HandleSchedulerTask (t : scheduler_task) : list scheduler_out :=
  match t with
  | SchedulerAskSplitTask region splitKey peer cb => onAskSplit region splitKey peer cb
  | SchedulerRegionHeartbeatTask region peer pendingPeers size => onHeartbeat region peer pendingPeers size
  | SchedulerStoreHeartbeatTask stats => onStoreHeartbeat stats
  end.
End Scheduler.
