(* ===== verification/RunnerProps.v ===== *)
(** * RunnerProps: theorems on the background workers

    Deleting compacted entries is invisible to the peer; a split key halves a region that
    is too big; the last region of the key space is never measured. *)

From stdpp Require Import base option list strings gmap sorting tactics.
From S2P Require Import Prelude.
From S2P Require Import Wire.
From S2P Require Import Eraftpb.
From S2P Require Import GoHeap.
From S2P Require Import Codec.
From S2P Require Import RaftStorage.
From S2P Require Import Meta.
From S2P Require Import Metapb.
From S2P Require Import Engine.
From S2P Require Import EngineIter.
From S2P Require Import RaftServerpb.
From S2P Require Import PeerStorage.
From S2P Require Import RaftCmdpb.
From S2P Require Import Peer.
From S2P Require Import PeerMsg.
From S2P Require Import Runner.

(** ** Deleting log entries *)
Section GC.
Context {D : Type} `{BadgerLaws D}.

Lemma gcLoop_entries n : forall regionId idx b,
  wb_entries (gcLoop n regionId idx b) = wb_entries b ++ map (fun i => (RaftLogKey regionId i, [])) (seqZ idx (Z.of_nat n)).
Proof.
  induction n as [|n IH]; intros r idx b; cbn [gcLoop]; [by rewrite app_nil_r|]. rewrite IH. cbn [wb_entries wb.DeleteMeta wb.add].
  rewrite <- app_assoc. f_equal. rewrite (seqZ_cons idx) by lia. cbn [map app]. f_equal. f_equal. f_equal; lia.
Qed.
Lemma RaftLogKey_inj r i r' i' : is_u64 r -> is_u64 i -> is_u64 r' -> is_u64 i' -> RaftLogKey r i = RaftLogKey r' i' -> r = r' /\ i = i'.
Proof.
  intros Hr Hi Hr' Hi' Heq. pose proof (RaftLogKey_compare r i r' i' Hr Hi Hr' Hi') as Hc. rewrite Heq, bytes_compare_refl in Hc.
  destruct (Z.compare_spec r r'); try done. destruct (Z.compare_spec i i'); done.
Qed.
Lemma RaftLogKey_lt r i j : is_u64 r -> is_u64 i -> is_u64 j -> key_lt (RaftLogKey r i) (RaftLogKey r j) = (i <? j).
Proof.
  intros Hr Hi Hj. unfold key_lt, Compare. rewrite RaftLogKey_compare, Z.compare_refl by done. unfold Z.ltb. by destruct (i ?= j).
Qed.

(** The keys in the range of a region's log are keys of entries. *)
Definition logPrefix (r : Z) : list Z := [LocalPrefix; RegionRaftPrefix] ++ be64 r ++ [RaftLogSuffix].
Lemma RaftLogKey_prefix r i : RaftLogKey r i = logPrefix r ++ be64 i.
Proof. unfold RaftLogKey, logPrefix. rewrite makeRegionKey_eq. by rewrite <- !app_assoc. Qed.
Definition log_keys (db : D) (r : Z) : Prop :=
  (forall k v, db_get db k = Some v -> is_bytes k)
  /\ (forall k v, db_get db (logPrefix r ++ k) = Some v -> exists i, is_u64 i /\ logPrefix r ++ k = RaftLogKey r i).
Lemma RaftLogIndex_range key : is_bytes key -> RaftLogIndex key = Err (ErrLogKey key) \/ exists i, RaftLogIndex key = Ret i /\ is_u64 i.
Proof.
  intros Hb. unfold RaftLogIndex. destruct (Z.eqb_spec (len key) RegionRaftLogLen) as [Hl|]; [right|by left]. cbn [negb].
  unfold len, RegionRaftLogLen in Hl. assert (Hlen : length key = 19%nat) by lia.
  assert (slice_from (E:=meta_error) key (RegionRaftLogLen - 8) = Ret (drop 11 key)) as ->.
  { unfold slice_from, slice, RegionRaftLogLen, len. rewrite Hlen. cbn -[drop]. f_equal. apply take_ge.
    rewrite length_drop. lia. }
  cbn beta iota. assert (Hd : is_bytes (drop 11 key)) by (by apply Forall_drop).
  assert (Hl8 : length (drop 11 key) = 8%nat) by (rewrite length_drop; lia).
  exists (be_val (drop 11 key)). split; [|by apply be_val_range].
  rewrite <- (app_nil_r (drop 11 key)) at 1. by apply Uint64_val.
Qed.

Lemma first_entry (db : D) r i v : is_u64 r -> is_u64 i -> log_keys db r -> db_get db (RaftLogKey r i) = Some v ->
  exists i0 v0 rest, is_u64 i0 /\ i0 <= i /\ db_from db (RaftLogKey r 0) = (RaftLogKey r i0, v0) :: rest.
Proof.
  intros Hr Hi Hk Hg. assert (H00 : is_u64 0) by (unfold is_u64, two64; lia).
  assert (Hin : (RaftLogKey r i, v) ∈ db_from db (RaftLogKey r 0)).
  { apply db_from_elem. cbn [fst snd]. split; [done|]. rewrite RaftLogKey_lt by done. unfold is_u64 in Hi. lia. }
  pose proof (db_from_sorted db (RaftLogKey r 0)) as Hs. pose proof (db_from_elem db (RaftLogKey r 0)) as He.
  destruct (db_from db (RaftLogKey r 0)) as [|[k0 v0] rest]; [by apply elem_of_nil in Hin|].
  apply StronglySorted_inv in Hs as [_ Hs]. destruct (proj1 (He (k0, v0)) ltac:(by left)) as [Hg0 Hge]. cbn [fst snd] in *.
  apply elem_of_cons in Hin as [[= <- <-]|Hin]; [exists i, v, rest; split; [done|]; split; [lia|done]|].
  rewrite list.Forall_forall in Hs. specialize (Hs _ Hin). cbn [fst] in Hs.
  rewrite RaftLogKey_prefix in Hge. rewrite RaftLogKey_prefix in Hs.
  destruct (prefix_between _ _ _ _ Hge Hs) as [c ->]. destruct (proj2 Hk c v0 Hg0) as (i0 & Hi0 & Heq). rewrite Heq in Hs |- *.
  rewrite <- RaftLogKey_prefix, RaftLogKey_lt in Hs by done. exists i0, v0, rest. split; [done|]. split; [lia|done].
Qed.

Lemma gc_batch (db : D) r first stop k : first <= stop ->
  db_get (wb.WriteToDB (gcLoop (Z.to_nat (stop - first)) r first new_WriteBatch) db) k
  = if bool_decide (k ∈ RaftLogKey r <$> seqZ first (stop - first)) then None else db_get db k.
Proof.
  intros Hle. rewrite WriteToDB_get, gcLoop_entries. cbn [wb_entries new_WriteBatch app]. rewrite Z2Nat.id by lia.
  rewrite after_deletes by (by apply list.Forall_fmap, list.Forall_true). change (map ?g ?l) with (g <$> l).
  by rewrite <- list_fmap_compose.
Qed.

(** What is left: the entries of the region from the end on, and all other keys. *)
Definition gc_done (db db' : D) (r stop : Z) : Prop :=
  (forall i, is_u64 i -> i < stop -> db_get db' (RaftLogKey r i) = None)
  /\ (forall k, (forall i, is_u64 i -> i < stop -> k <> RaftLogKey r i) -> db_get db' k = db_get db k).
Definition none_below (db : D) (r first : Z) : Prop :=
  forall i, is_u64 i -> i < first -> db_get db (RaftLogKey r i) = None.
Lemma gc_range (db : D) r first stop : is_u64 r -> is_u64 stop -> is_u64 first -> none_below db r first ->
  exists db' n, (if first >=? stop then Ret (db, 0) else
      let b := gcLoop (Z.to_nat (stop - first)) r first new_WriteBatch in
      let db := if negb (wb.Len b =? 0) then wb.WriteToDB b db else db in Ret (E:=meta_error) (db, stop ⊟ first)) = Ret (db', n)
    /\ gc_done db db' r stop.
Proof.
  intros Hr Hstop Hf Hnone. destruct (Z.geb_spec first stop).
  - eexists _, _. split; [reflexivity|]. split; [|done]. intros i Hi Hlt. apply Hnone; [done|lia].
  - set (b := gcLoop _ _ _ _). assert (Hb : (if negb (wb.Len b =? 0) then wb.WriteToDB b db else db) = wb.WriteToDB b db).
    { unfold wb.WriteToDB, wb.Len. pose proof (len_nonneg (wb_entries b)). by destruct (Z.eqb_spec (len (wb_entries b)) 0) as [->|]. }
    cbv zeta. rewrite Hb. eexists _, _. split; [reflexivity|]. unfold is_u64 in *. split.
    + intros i Hi Hlt. unfold b. rewrite gc_batch by lia. case_bool_decide as Hin; [done|]. apply Hnone; [done|].
      destruct (Z.lt_ge_cases i first); [done|]. destruct Hin. apply list_elem_of_fmap_2, elem_of_seqZ. lia.
    + intros k Hk'. unfold b. rewrite gc_batch by lia. rewrite bool_decide_false; [done|].
      intros (j & -> & Hj%elem_of_seqZ)%list_elem_of_fmap. apply (Hk' j); [unfold is_u64; lia|lia|done].
Qed.
Lemma head_key {A B} (a a' : A) (b b' : B) l l' : (a, b) :: l = (a', b') :: l' -> a = a'.
Proof. congruence. Qed.
Lemma no_entries (db : D) r : (forall i, is_u64 i -> db_get db (RaftLogKey r i) = None) ->
  forall stop, gc_done db db r stop.
Proof. intros Hn stop. split; [|done]. intros i Hi _. by apply Hn. Qed.
Lemma entries_dec (db : D) r : is_u64 r -> log_keys db r ->
  (forall i, is_u64 i -> db_get db (RaftLogKey r i) = None)
  \/ exists i0 v0 rest, is_u64 i0 /\ none_below db r i0 /\ db_from db (RaftLogKey r 0) = (RaftLogKey r i0, v0) :: rest.
Proof.
  intros Hr Hk. destruct (db_from db (RaftLogKey r 0)) as [|[k0 v0] rest] eqn:Hf.
  { left. intros i Hi. destruct (db_get db (RaftLogKey r i)) as [v|] eqn:Hg; [|done].
    destruct (first_entry db r i v Hr Hi Hk Hg) as (? & ? & ? & _ & _ & Heq). congruence. }
  destruct (HasPrefix (logPrefix r) k0) eqn:Hp.
  - apply HasPrefix_spec in Hp as [c ->]. right.
    destruct (proj1 (db_from_elem db (RaftLogKey r 0) (logPrefix r ++ c, v0)) ltac:(rewrite Hf; by left)) as [Hg _].
    destruct (proj2 Hk c v0 Hg) as (i0 & Hi0 & Heq). rewrite Heq in *. exists i0, v0, rest. split; [done|]. split; [|done].
    intros i Hi Hlt. destruct (db_get db (RaftLogKey r i)) as [v|] eqn:Hgi; [|done].
    destruct (first_entry db r i v Hr Hi Hk Hgi) as (i1 & ? & ? & Hi1 & Hle & Heq1). rewrite Hf in Heq1.
    apply head_key in Heq1. apply RaftLogKey_inj in Heq1 as [_ ->]; [lia|done..].
  - left. intros i Hi. destruct (db_get db (RaftLogKey r i)) as [v|] eqn:Hg; [|done].
    destruct (first_entry db r i v Hr Hi Hk Hg) as (i1 & ? & ? & _ & _ & Heq1). rewrite Hf in Heq1.
    apply head_key in Heq1 as ->. exfalso. rewrite RaftLogKey_prefix in Hp.
    by rewrite (proj2 (HasPrefix_spec _ _)) in Hp by (by exists (be64 i1)).
Qed.

Lemma HandleGCTask_exact (db : D) r start stop :
  is_u64 r -> is_u64 stop -> log_keys db r -> start = 0 \/ is_u64 start /\ none_below db r start ->
  exists db' n, HandleGCTask db (mkRaftLogGCTask r start stop) = Ret (db', n) /\ gc_done db db' r stop.
Proof.
  intros Hr Hstop Hk Hstart. unfold HandleGCTask, gcRaftLog. cbn [lg_RegionID lg_StartIdx lg_EndIdx].
  destruct (Z.eqb_spec start 0) as [->|Hne].
  2: { destruct Hstart as [?|[Hs Hnone]]; [done|]. destruct (gc_range db r start stop Hr Hstop Hs Hnone) as (db' & n & Heq & Hd).
       exists db', n. split; [cbv beta iota zeta in Heq |- *; by rewrite Heq|done]. }
  destruct (entries_dec db r Hr Hk) as [Hn|(i0 & v0 & rest & Hi0 & Hb & ->)].
  - destruct (db_from db (RaftLogKey r 0)) as [|[k0 v0] rest] eqn:Hf.
    + cbn beta iota. rewrite Z.geb_leb, Z.leb_refl. exists db, 0. split; [done|by apply no_entries].
    + destruct (proj1 (db_from_elem db (RaftLogKey r 0) (k0, v0)) ltac:(rewrite Hf; by left)) as [Hg _].
      destruct (RaftLogIndex_range k0 (proj1 Hk k0 v0 Hg)) as [->|(i & -> & Hi)].
      * exists db, 0. split; [done|by apply no_entries].
      * destruct (gc_range db r i stop Hr Hstop Hi) as (db' & n & Heq & Hd); [by intros j Hj _; apply Hn|].
        exists db', n. split; [cbv beta iota zeta in Heq |- *; by rewrite Heq|done].
  - rewrite RaftLogIndex_key by done. destruct (gc_range db r i0 stop Hr Hstop Hi0 Hb) as (db' & n & Heq & Hd).
    exists db', n. split; [cbv beta iota zeta in Heq |- *; by rewrite Heq|done].
Qed.

(** Two databases that agree from a key on give the same iteration. *)
Lemma sorted_unique (l1 l2 : list (list Z * list Z)) :
  StronglySorted (fun a b => key_lt a.1 b.1 = true) l1 -> StronglySorted (fun a b => key_lt a.1 b.1 = true) l2 ->
  (forall p, p ∈ l1 <-> p ∈ l2) -> l1 = l2.
Proof.
  intros Hs1. revert l2. induction Hs1 as [|a l1 Hs1 IH Ha]; intros l2 Hs2 Heq.
  - destruct l2 as [|b l2]; [done|]. specialize (proj2 (Heq b) ltac:(by left)). by intros ?%elem_of_nil.
  - destruct Hs2 as [|b l2 Hs2 Hb]; [specialize (proj1 (Heq a) ltac:(by left)); by intros ?%elem_of_nil|].
    rewrite list.Forall_forall in Ha, Hb. assert (a = b) as <-.
    { destruct (proj1 (elem_of_cons _ _ _) (proj1 (Heq a) ltac:(by left))) as [->|Hab]; [done|].
      destruct (proj1 (elem_of_cons _ _ _) (proj2 (Heq b) ltac:(by left))) as [->|Hba]; [done|].
      specialize (Ha _ Hba). specialize (Hb _ Hab). apply key_lt_asym in Ha. congruence. }
    f_equal. apply IH; [done|]. intros p. specialize (Heq p). rewrite !elem_of_cons in Heq.
    assert (Hirr : forall l : list (list Z * list Z), (forall x, x ∈ l -> key_lt a.1 x.1 = true) -> a ∉ l).
    { intros l Hl Hin. specialize (Hl _ Hin). by rewrite key_lt_irrefl in Hl. }
    specialize (Hirr l1 Ha) as Hn1. specialize (Hirr l2 Hb) as Hn2.
    split; intros Hp; [destruct (proj1 Heq ltac:(by right)) as [->|]|destruct (proj2 Heq ltac:(by right)) as [->|]]; done.
Qed.
Lemma db_from_ext (db db' : D) k : (forall k', key_lt k' k = false -> db_get db k' = db_get db' k') -> db_from db k = db_from db' k.
Proof.
  intros Heq. apply sorted_unique; [apply db_from_sorted..|]. intros p. rewrite !db_from_elem.
  split; intros [Hg Hk]; (split; [|done]); [rewrite <- Heq|rewrite Heq]; done.
Qed.
Lemma gc_done_from (db db' : D) r stop i : is_u64 r -> is_u64 i -> gc_done db db' r stop -> stop <= i ->
  db_from db' (RaftLogKey r i) = db_from db (RaftLogKey r i).
Proof.
  intros Hr Hi [_ Hother] Hle. apply db_from_ext. intros k Hk. apply Hother. intros j Hj Hlt ->.
  rewrite RaftLogKey_lt in Hk by done. lia.
Qed.

(** What the peer reads: [ps'] differs from [ps] in entries below its first index only. *)
Lemma reads_after_gc (ps : PeerStorage D) raft' ti : is_u64 (rg_Id (ps_region ps)) -> 0 <= ti ->
  truncatedIndex ps = Ret ti -> gc_done (ps_raft ps) raft' (rg_Id (ps_region ps)) (ti + 1) ->
  forall lo hi, Entries (ps <| ps_raft := raft' |>) lo hi = Entries ps lo hi /\ Term (ps <| ps_raft := raft' |>) lo = Term ps lo.
Proof.
  intros Hr Ht Hti Hd lo hi. set (ps' := ps <| ps_raft := raft' |>).
  assert (Hin : forall low high, checkRange ps low high = Ret tt -> ti + 1 <= low /\ is_u64 low).
  { intros low high Hc. unfold checkRange in Hc. rewrite Hti in Hc. destruct (Z.gtb_spec low high); [done|]. cbn beta iota in Hc.
    destruct (Z.leb_spec low ti); [done|]. destruct (Z.gtb_spec high (rl_LastIndex (ps_raftState ps) ⊞ 1)) as [|Hh]; [done|].
    pose proof (u64_add_range (rl_LastIndex (ps_raftState ps)) 1) as Hw. unfold is_u64 in *. lia. }
  assert (Hcr : forall low high, checkRange ps' low high = checkRange ps low high) by done.
  split.
  - unfold Entries. rewrite Hcr. destruct (checkRange ps lo hi) as [[]|e| |] eqn:Hc; [|done..]. destruct (Hin _ _ Hc) as [Hle Hu].
    cbn beta iota. change (ps_raft ps') with raft'. change (ps_region ps') with (ps_region ps).
    by rewrite (gc_done_from (ps_raft ps) raft' _ _ lo Hr Hu Hd Hle).
  - unfold Term. change (truncatedIndex ps') with (truncatedIndex ps). change (truncatedTerm ps') with (truncatedTerm ps).
    rewrite Hti, Hcr. cbn beta iota. destruct (lo =? ti); [done|]. destruct (checkRange ps lo (lo ⊞ 1)) as [[]|e| |] eqn:Hc; [|done..].
    destruct (Hin _ _ Hc) as [Hle Hu]. change (ps_raftState ps') with (ps_raftState ps). change (ps_region ps') with (ps_region ps).
    change (ps_raft ps') with raft'. unfold GetRaftEntry, GetMeta.
    assert (db_get raft' (RaftLogKey (rg_Id (ps_region ps)) lo) = db_get (ps_raft ps) (RaftLogKey (rg_Id (ps_region ps)) lo)) as ->; [|done].
    apply (proj2 Hd). intros i Hi Hlt Heq. apply RaftLogKey_inj in Heq as [_ ->]; [lia|done..].
Qed.

(** C12. Compacting the log loses nothing. Applying a [CompactLog] command moves the start of
    the log and hands a task to the log worker; when the worker has carried it out, whatever
    the peer can read of its log - any range of entries, any term - is what it was before
    the worker ran, no entry up to the compacted index is left, and there is nothing below
    [LastCompactedIdx], on which the next compaction relies. *)
Theorem compaction_invisible (d d' : handler D) (req : CompactLogRequest) (b b' : WriteBatch) (ti : Z) :
  applyCompactLog d req b = Ret (d', b') -> truncatedIndex (storage d) = Ret ti -> ti < cl_CompactIndex req ->
  0 <= ti -> cl_CompactIndex req + 1 < two64 ->
  pe_regionId (d_peer d) = rg_Id (region d) -> is_u64 (rg_Id (region d)) -> log_keys (ps_raft (storage d)) (rg_Id (region d)) ->
  is_u64 (pe_LastCompactedIdx (d_peer d)) -> none_below (ps_raft (storage d)) (rg_Id (region d)) (pe_LastCompactedIdx (d_peer d)) ->
  exists task raft' n, d_out d' = d_out d ++ [ERaftLogGC (lg_RegionID task) (lg_StartIdx task) (lg_EndIdx task)]
    /\ HandleGCTask (ps_raft (storage d')) task = Ret (raft', n)
    /\ (forall lo hi, Entries ((storage d') <| ps_raft := raft' |>) lo hi = Entries (storage d') lo hi
                      /\ Term ((storage d') <| ps_raft := raft' |>) lo = Term (storage d') lo)
    /\ none_below raft' (rg_Id (region d')) (cl_CompactIndex req + 1)
    /\ pe_LastCompactedIdx (d_peer d') = cl_CompactIndex req + 1.
Proof.
  intros Ha Hti Hlt H0' Hmax Hid Hr Hk Hlu Hlast. unfold applyCompactLog in Ha.
  unfold truncatedIndex in Hti. destruct (truncated (storage d)) as [t| | |] eqn:Ht; try done. injection Hti as <-.
  cbn beta iota in Ha. destruct (Z.gtb_spec (cl_CompactIndex req) (rt_Index t)); [|lia].
  destruct (try_SetMeta _ _ _) as [b1| | |]; try done. injection Ha as <- <-.
  assert (Hend : cl_CompactIndex req ⊞ 1 = cl_CompactIndex req + 1) by (apply u64_add_small; unfold is_u64; lia).
  set (d1 := set_storage d _) in *.
  assert (Hd1 : storage (ScheduleCompactLog d1 (cl_CompactIndex req)) = storage d1) by done.
  assert (Hraft : ps_raft (storage d1) = ps_raft (storage d)) by done.
  destruct (HandleGCTask_exact (ps_raft (storage d)) (rg_Id (region d)) (pe_LastCompactedIdx (d_peer d)) (cl_CompactIndex req + 1))
    as (raft' & n & Hgc & Hd); [done|unfold is_u64; lia|done|by right|].
  exists (mkRaftLogGCTask (rg_Id (region d)) (pe_LastCompactedIdx (d_peer d)) (cl_CompactIndex req + 1)), raft', n.
  rewrite Hd1, Hraft. split; [|split; [exact Hgc|split; [|split]]].
  - unfold ScheduleCompactLog. rewrite Hend. cbn [lg_RegionID lg_StartIdx lg_EndIdx]. by rewrite <- Hid.
  - intros lo hi. apply (reads_after_gc (storage d1) raft' (cl_CompactIndex req)); [done|lia|done|].
    by rewrite Hraft.
  - intros i Hi Hilt. by apply (proj1 Hd).
  - unfold ScheduleCompactLog. by rewrite Hend.
Qed.
End GC.

(** ** Splitting *)
Definition pair_size (p : list Z * list Z) : Z := len p.1 + len p.2.
Definition total (l : list (list Z * list Z)) : Z := foldr (fun p n => pair_size p + n) 0 l.
Lemma pair_size_nonneg p : 0 <= pair_size p.
Proof. unfold pair_size. pose proof (len_nonneg p.1). pose proof (len_nonneg p.2). lia. Qed.
Lemma total_cons p l : total (p :: l) = pair_size p + total l.
Proof. done. Qed.
Lemma pairs_total_nonneg l : 0 <= total l.
Proof. induction l as [|p l IH]; [done|]. rewrite total_cons. pose proof (pair_size_nonneg p). lia. Qed.

(** What the checker makes of the pairs of the region. *)
Fixpoint scan (c : sizeSplitChecker) (l : list (list Z * list Z)) : sizeSplitChecker :=
  match l with
  | [] => c
  | (k, v) :: l => let (c, stop) := onKv c k v in if stop : bool then c else scan c l
  end.

Section Split.
Context {D : Type} `{BadgerLaws D}.
Abbreviation body endKey := (fun '(c, sent) (key value : list Z) =>
       if ExceedEndKey key endKey then Ret (E:=meta_error) ((c, sent ++ [MsgTypeRegionApproximateSize (sc_currentSize c)]), true) else
       let (c, stop) := onKv c key value in Ret ((c, sent), stop)).

Lemma split_loop endKey (it : BadgerIterator D) : forall n c sent, (length (bi_rest it) < n)%nat ->
  exists more, iterLoop n (body endKey) it (c, sent) = Ret (scan c (visited (bi_prefix it) endKey (bi_rest it)), sent ++ more)
    /\ (more = [] \/ more = [MsgTypeRegionApproximateSize (sc_currentSize (scan c (visited (bi_prefix it) endKey (bi_rest it))))])
    /\ (endKey = [] -> more = []).
Proof.
  destruct it as [db rest p]. cbn [bi_rest bi_prefix]. revert db.
  induction rest as [|[k v] rest IH]; intros db [|n] c sent Hn; cbn in Hn; try lia.
  { exists []. rewrite app_nil_r. split; [done|]. split; [by left|done]. }
  cbn [iterLoop visited]. unfold Valid, ValidForPrefix. cbn [bi_rest bi_prefix]. rewrite app_nil_r.
  destruct (HasPrefix p k) eqn:Hp; cbn [negb orb]; [|exists []; rewrite app_nil_r; split; [done|split; [by left|done]]].
  apply HasPrefix_spec in Hp as [key ->]. unfold Item. cbn [bi_rest bi_prefix].
  rewrite (slice_from_app p key). cbn beta iota. rewrite drop_app_length.
  destruct (ExceedEndKey key endKey) eqn:He.
  { eexists. split; [reflexivity|]. split; [by right|]. by intros ->. }
  cbn [scan]. destruct (onKv c key v) as [c' stop]. destruct stop; cbn beta iota.
  - exists []. rewrite app_nil_r. split; [done|]. split; [by left|done].
  - destruct (IH db n c' sent ltac:(lia)) as (more & Heq & Hm). exists more. split; [|done].
    unfold Next. cbn [bi_txn bi_rest bi_prefix tail]. exact Heq.
Qed.

(** The checker on its own, below the width of its counter. *)
Lemma onKv_eq c k v : 0 <= sc_currentSize c -> sc_currentSize c + pair_size (k, v) < two64 ->
  onKv c k v = (mkChecker (sc_maxSize c) (sc_splitSize c) (sc_currentSize c + pair_size (k, v))
     (if (sc_currentSize c + pair_size (k, v) >? sc_splitSize c) && match sc_splitKey c with None => true | Some _ => false end
      then Some k else sc_splitKey c), sc_currentSize c + pair_size (k, v) >? sc_maxSize c).
Proof.
  intros Hc Hs. unfold onKv. pose proof (pair_size_nonneg (k, v)). unfold pair_size in *. cbn [fst snd] in *.
  rewrite u64_add_small by (unfold is_u64; lia). done.
Qed.
Lemma scan_size l : forall c, 0 <= sc_currentSize c <= sc_maxSize c -> sc_currentSize c + total l < two64 ->
  sc_maxSize (scan c l) = sc_maxSize c
  /\ (sc_currentSize (scan c l) <? sc_maxSize c) = (sc_currentSize c + total l <? sc_maxSize c).
Proof.
  induction l as [|[k v] l IH]; intros c Hc Hs; cbn [scan].
  { split; [done|]. f_equal. change (total []) with 0. lia. }
  rewrite total_cons in *. pose proof (pairs_total_nonneg l). pose proof (pair_size_nonneg (k, v)). rewrite onKv_eq by lia.
  destruct (Z.gtb_spec (sc_currentSize c + pair_size (k, v)) (sc_maxSize c)) as [Hgt|Hle].
  - split; [done|]. cbn [sc_currentSize]. lia.
  - destruct (IH (mkChecker (sc_maxSize c) (sc_splitSize c) (sc_currentSize c + pair_size (k, v))
     (if (sc_currentSize c + pair_size (k, v) >? sc_splitSize c) && match sc_splitKey c with None => true | Some _ => false end
      then Some k else sc_splitKey c))) as [Hm Hz]; cbn [sc_currentSize sc_maxSize] in *; [lia|lia|].
    split; [exact Hm|]. rewrite Hz. f_equal. lia.
Qed.
Lemma scan_keeps l : forall c k0, sc_splitKey c = Some k0 -> sc_splitKey (scan c l) = Some k0.
Proof.
  induction l as [|[k v] l IH]; intros c k0 Hk; cbn [scan]; [done|]. unfold onKv. rewrite Hk, andb_false_r.
  destruct (_ >? sc_maxSize c); [done|]. by apply IH.
Qed.
Lemma scan_finds l : forall c, sc_splitKey c = None -> sc_splitSize c < sc_maxSize c -> 0 <= sc_currentSize c <= sc_splitSize c ->
  sc_splitSize c < sc_currentSize c + total l -> sc_currentSize c + total l < two64 ->
  exists l1 k v l2, l = l1 ++ (k, v) :: l2 /\ sc_splitKey (scan c l) = Some k
    /\ sc_currentSize c + total l1 <= sc_splitSize c < sc_currentSize c + total l1 + pair_size (k, v).
Proof.
  induction l as [|[k v] l IH]; intros c Hk Hlt Hc Hgt Hs; [change (total []) with 0 in Hgt; lia|].
  rewrite total_cons in *. cbn [scan]. pose proof (pairs_total_nonneg l). pose proof (pair_size_nonneg (k, v)).
  rewrite onKv_eq, Hk by lia. rewrite andb_true_r.
  destruct (Z.gtb_spec (sc_currentSize c + pair_size (k, v)) (sc_splitSize c)) as [Hg|Hg].
  - exists [], k, v, l. split; [done|]. split; [|change (total []) with 0; lia].
    destruct (_ >? sc_maxSize c); [done|]. by apply scan_keeps.
  - destruct (Z.gtb_spec (sc_currentSize c + pair_size (k, v)) (sc_maxSize c)); [lia|].
    destruct (IH (mkChecker (sc_maxSize c) (sc_splitSize c) (sc_currentSize c + pair_size (k, v)) None))
      as (l1 & k' & v' & l2 & -> & Hsk & Hb); cbn [sc_currentSize sc_maxSize sc_splitSize sc_splitKey] in *; [done|lia..|].
    exists ((k, v) :: l1), k', v', l2. split; [done|]. split; [done|]. rewrite total_cons. lia.
Qed.

(** The split checker splits a region that is too big, and only such a one, and it splits
    it at the right place: when the keys and values of the region come to less than the
    maximum there is no split key; else there is one, it is a key of the region, what is
    before it is at most the split size, and one more pair would exceed it. *)
Theorem split_key_balanced (db : D) (c : sizeSplitChecker) (startKey endKey : list Z) :
  let pairs := cfRange db CfDefault startKey endKey in
  0 <= sc_splitSize c < sc_maxSize c -> total pairs < two64 ->
  exists key sent, splitCheck (E:=meta_error) db c startKey endKey = Ret (key, sent)
    /\ (total pairs < sc_maxSize c -> key = None)
    /\ (sc_maxSize c <= total pairs -> exists before k v after, pairs = before ++ (k, v) :: after /\ key = Some k
          /\ total before <= sc_splitSize c < total before + pair_size (k, v)).
Proof.
  intros pairs Hsz Htot. unfold splitCheck, iterFrom. set (it := Seek _ _).
  destruct (split_loop endKey it (S (length (bi_rest it))) (checker_reset c) []) as (more & -> & _); [lia|]. cbn beta iota.
  change (visited (bi_prefix it) endKey (bi_rest it)) with pairs. eexists _, _. split; [reflexivity|]. pose proof (pairs_total_nonneg pairs).
  destruct (scan_size pairs (checker_reset c)) as [Hm Hz]; cbn [checker_reset sc_currentSize sc_maxSize] in *; [lia|lia|].
  unfold getSplitKey. rewrite Hm, Hz. split; intros Hcase.
  - destruct (Z.ltb_spec (0 + total pairs) (sc_maxSize c)); [done|lia].
  - destruct (Z.ltb_spec (0 + total pairs) (sc_maxSize c)); [lia|].
    destruct (scan_finds pairs (checker_reset c)) as (l1 & k & v & l2 & Hl & Hk & Hb);
      cbn [checker_reset sc_splitKey sc_splitSize sc_maxSize sc_currentSize] in *; [done|lia..|].
    exists l1, k, v, l2. split; [exact Hl|]. split; [exact Hk|lia].
Qed.

Lemma enc_bytes u : is_bytes (enc u) -> is_bytes u.
Proof.
  induction u as [g Hg|g rest Hg IH] using groups_ind; [rewrite enc_short by done|rewrite enc_full by done]; unfold pad, is_bytes.
  - by intros [[? _]%list.Forall_app _]%list.Forall_app.
  - intros [[Hgb _]%list.Forall_app Hr]%list.Forall_app. apply list.Forall_app. split; [done|].
    apply IH. by apply list.Forall_cons in Hr as [_ ?].
Qed.
Lemma enc_below w u ts : is_bytes w -> is_bytes u ->
  key_lt (enc w ++ ts) (enc u) = bool_decide (w <> u) && key_lt w u.
Proof.
  intros Hw Hu. case_bool_decide as Hne; cbn [andb].
  - unfold key_lt, Compare. rewrite <- (app_nil_r (enc u)). by rewrite enc_compare.
  - assert (w = u) as -> by (destruct (decide (w = u)); [done|]; by destruct Hne).
    rewrite <- (app_nil_r (enc u)) at 2. rewrite key_lt_prefix. by destruct ts.
Qed.

(** C13. A split never separates the versions of a key. If the key that the checker found is
    that of some version of a user key, then the region is split at the encoded user key,
    without the version, and any two versions of any user key lie on the same side of it. A
    key that is not such an encoding is used as it is. *)
Theorem split_keeps_versions (db : D) (c : sizeSplitChecker) (region : Region) (k : list Z) (sent : list Msg) :
  splitCheck (E:=meta_error) db c (rg_StartKey region) (rg_EndKey region) = Ret (Some k, sent) -> is_bytes k ->
  exists key, HandleSplitCheck (E:=meta_error) db c region = Ret (sent ++ [MsgTypeSplitRegion (rg_RegionEpoch region) key None])
    /\ ((exists e, DecodeBytes k = Err e) /\ key = k
        \/ exists u ts, k = key ++ ts /\ EncodeBytes (E:=meta_error) u = Ret key
            /\ forall w ew ts1 ts2, is_bytes w -> EncodeBytes (E:=meta_error) w = Ret ew ->
                 key_lt (ew ++ ts1) key = key_lt (ew ++ ts2) key).
Proof.
  intros Hs Hb. unfold HandleSplitCheck. rewrite Hs. cbn beta iota.
  destruct (decodeLoop_total (S (length k)) k [] ltac:(lia)) as [[[ts u] Hr]|[e He]].
  - assert (Hd : DecodeBytes k = Ret (ts, u)) by exact Hr. rewrite Hd. cbn beta iota. rewrite EncodeBytes_enc. cbn beta iota.
    exists (enc u). split; [done|]. right. destruct (decodeLoop_canonical _ _ _ _ _ Hb Hr) as (v & Hv & Hk).
    cbn [app] in Hv. subst v. exists u, ts. split; [exact Hk|]. split; [apply EncodeBytes_enc|].
    intros w ew ts1 ts2 Hw Hew. rewrite EncodeBytes_enc in Hew. injection Hew as <-.
    assert (Hu : is_bytes u). { apply enc_bytes. rewrite Hk in Hb. by apply list.Forall_app in Hb as [? _]. }
    by rewrite !enc_below.
  - assert (Hd : DecodeBytes k = Err e) by exact He. rewrite Hd. exists k. split; [done|]. left. split; [by exists e|done].
Qed.

(** The region with the last keys is never measured: whatever it holds, a split check of
    a region without an end sends no [MsgTypeRegionApproximateSize], since the size is only
    sent when a key past the end of the region is met. *)
Theorem last_region_unmeasured (db : D) (c : sizeSplitChecker) (startKey : list Z) :
  exists key, splitCheck (E:=meta_error) db c startKey [] = Ret (key, []).
Proof.
  unfold splitCheck, iterFrom. set (it := Seek _ _).
  destruct (split_loop [] it (S (length (bi_rest it))) (checker_reset c) []) as (more & -> & _ & Hm); [lia|].
  rewrite Hm by done. by eexists.
Qed.
End Split.
