(* ===== verification/PeerProps.v ===== *)
(** * PeerProps: applying committed entries

    What the entries of the log do to the data of a region is a fold of [entryOp], the
    put or delete of an entry, over the committed entries: the proposals waiting on a
    peer, the way the entries are cut into [Ready]s and a crash while they are applied
    make no difference to it. *)

From stdpp Require Import base option list strings gmap tactics.
From S2P Require Import Prelude.
From S2P Require Import Wire.
From S2P Require Import WireFacts.
From S2P Require Import Eraftpb.
From S2P Require Import EraftpbRound.
From S2P Require Import RaftServerpb.
From S2P Require Import RaftStorage.
From S2P Require Import RaftLog.
From S2P Require Import Raft.
From S2P Require Import RawNode.
From S2P Require Import Meta.
From S2P Require Import BTree.
From S2P Require Import Metapb.
From S2P Require Import Engine.
From S2P Require Import PeerStorage.
From S2P Require Import PeerStorageProps.
From S2P Require Import RaftCmdpb.
From S2P Require Import RaftstoreUtil.
From S2P Require Import Peer.
From S2P Require Import PeerMsg.

(** ** What an entry does to the data *)
Definition in_range (r : Region) (key : list Z) : bool :=
  negb (key_lt key (rg_StartKey r)) && (bool_decide (rg_EndKey r = []) || key_lt key (rg_EndKey r)).
Definition requestOp (req : Request) : option dbop :=
  match rqs_CmdType req with
  | CmdType_Put =>
    put ← rqs_Put req;
    Some (wb.KeyWithCF (put_Cf put) (default [] (put_Key put)),
          match default [] (put_Value put) with [] => None | v => Some v end)
  | CmdType_Delete => del ← rqs_Delete req; Some (wb.KeyWithCF (del_Cf del) (default [] (del_Key del)), None)
  | _ => None
  end.
Definition requestKey (req : Request) : option (list Z) :=
  match rqs_CmdType req with
  | CmdType_Put => rqs_Put req ≫= put_Key
  | CmdType_Get => rqs_Get req ≫= get_Key
  | CmdType_Delete => rqs_Delete req ≫= del_Key
  | _ => None
  end.
(** A command takes effect in the version of the region it was made for, on its keys. *)
Definition accepted (r : Region) (epoch : RegionEpoch) (req : Request) : bool :=
  match rg_RegionEpoch r with
  | Some cur => (ep_Version cur =? ep_Version epoch)
                && match requestKey req with Some key => in_range r key | None => true end
  | None => false
  end.

(** A request that has the field of its type. *)
Definition wf_request (req : Request) : bool :=
  match rqs_CmdType req with
  | CmdType_Put => bool_decide (is_Some (rqs_Put req))
  | CmdType_Get => bool_decide (is_Some (rqs_Get req))
  | CmdType_Delete => bool_decide (is_Some (rqs_Delete req))
  | _ => true
  end.

Section Spec.
Context (cmdOf : list Z -> option RaftCmdRequest).

(** The command on keys of an entry. *)
Definition entryCommand (ent : Entry) : option (RegionEpoch * Request) :=
  data ← e_Data ent;
  msg ← cmdOf data;
  header ← rq_Header msg;
  epoch ← rh_RegionEpoch header;
  match rq_Requests msg with [req] => Some (epoch, req) | _ => None end.
Definition entryOp (r : Region) (ent : Entry) : option dbop :=
  c ← entryCommand ent;
  if accepted r c.1 c.2 then requestOp c.2 else None.
(** What is under a key after some entries. *)
Definition after_entries (r : Region) (ents : list Entry) (k : list Z) (v : option (list Z)) : option (list Z) :=
  foldl (fun v ent => match entryOp r ent with Some op => after_op k v op | None => v end) v ents.

(** An entry without data, or with one well-formed command on keys. *)
Definition kv_entry (ent : Entry) : bool :=
  match e_Data ent with
  | None => true
  | Some data =>
    negb (bool_decide (e_EntryType ent = EntryType_EntryConfChange))
    && bool_decide ((cmdOf data ≫= rq_AdminRequest) = None)
    && match entryCommand ent with Some c => wf_request c.2 | None => false end
  end.
Definition get_entry (ent : Entry) : bool :=
  match entryCommand ent with Some c => bool_decide (rqs_CmdType c.2 = CmdType_Get) | None => false end.

Lemma after_entries_app r l1 l2 k v :
  after_entries r (l1 ++ l2) k v = after_entries r l2 k (after_entries r l1 k v).
Proof. apply foldl_app. Qed.

(** The last write of a key decides, or nothing does. *)
Lemma after_entries_last r ents k :
  (exists w, forall v, after_entries r ents k v = w) \/ (forall v, after_entries r ents k v = v).
Proof.
  induction ents as [|ent ents IH] using rev_ind; [by right|].
  setoid_rewrite after_entries_app. cbn. destruct (entryOp r ent) as [[k' w]|]; [|done].
  unfold after_op. cbn. case_bool_decide; [left; by exists w|done].
Qed.
(** Entries that were applied in part are applied again. *)
Lemma after_entries_replay r l1 l2 k v :
  after_entries r (l1 ++ l2) k (after_entries r l1 k v) = after_entries r (l1 ++ l2) k v.
Proof.
  rewrite !after_entries_app. f_equal.
  destruct (after_entries_last r l1 k) as [[w Hw]|Hid]; [by rewrite !Hw|by rewrite !Hid].
Qed.
End Spec.

Lemma CheckKeyInRegion_spec key r :
  CheckKeyInRegion key r = if in_range r key then Ret tt else Err (ErrKeyNotInRegion key r).
Proof.
  unfold CheckKeyInRegion, in_range. replace (Compare key (rg_StartKey r) >=? 0) with (negb (key_lt key (rg_StartKey r))).
  2: { unfold key_lt. lia. }
  replace (len (rg_EndKey r) =? 0) with (bool_decide (rg_EndKey r = [])); [done|].
  destruct (rg_EndKey r); [done|]. rewrite len_cons, bool_decide_false by done.
  pose proof (len_nonneg l). lia.
Qed.

Section Apply.
Context {D : Type} `{BadgerLaws D}.
Context (regionStateBytes : PeerState -> Region -> list Z) (snapRegion : option (list Z) -> option (option Region)).
Context (cmdOf : list Z -> option RaftCmdRequest) (rand_Int : nat -> Z) (cfg : Config).
Abbreviation handler := (handler D).
Abbreviation commitLoop := (commitLoop regionStateBytes snapRegion cmdOf rand_Int cfg).
Abbreviation HandleCommitEnts := (HandleCommitEnts regionStateBytes snapRegion cmdOf rand_Int cfg).

(** ** Steps that only answer proposals *)
Record quiet (d d' : handler) : Prop := {
  q_peer : d_peer d' = (d_peer d) <| pe_proposals := pe_proposals (d_peer d') |>;
  q_meta : d_storeMeta d' = d_storeMeta d;
  q_sub : pe_proposals (d_peer d') ⊆ pe_proposals (d_peer d);
}.
#[export] Instance quiet_preorder : PreOrder quiet.
Proof.
  split.
  - intros [[] m o]. by split.
  - intros d1 d2 d3 [H1 H2 H3] [H4 H5 H6]. split; [|congruence|by etrans]. rewrite H4, H1. done.
Qed.
Lemma quiet_group (d d' : handler) : quiet d d' -> group d' = group d.
Proof. intros Hq. unfold group. by rewrite (q_peer _ _ Hq). Qed.
Lemma quiet_storage (d d' : handler) : quiet d d' -> storage d' = storage d.
Proof. intros Hq. unfold storage, peerStorage. pose proof (quiet_group _ _ Hq) as Hg. unfold group in Hg. by rewrite Hg. Qed.
Lemma quiet_emit (d : handler) e : quiet d (emit d e).
Proof. by destruct d as [[] m o]; split. Qed.
Lemma quiet_Done (d : handler) cb resp : quiet d (Done d cb resp).
Proof. destruct cb; [apply quiet_emit|done]. Qed.
(** Popping a proposal takes it, and those before it, from the front. *)
Lemma popProposals_sub proposals term index :
  match popProposals proposals term index with
  | (rest, _, p) => rest ⊆ proposals /\ forall q, p = Some q -> q ∈ proposals
  end.
Proof.
  induction proposals as [|q rest IH]; [done|]. cbn [popProposals].
  destruct (_ || _); [done|]. destruct (negb _); [by split; [set_solver|]|].
  destruct (pp_index q =? index); cbn [negb]; [split; [set_solver|]; intros ? [= <-]; by left|].
  destruct (popProposals rest term index) as [[rest' stale] p]. destruct IH as [Hr Hp].
  split; [set_solver|]. intros q' Hq. right. by apply Hp.
Qed.
Lemma quiet_popProposal (d : handler) term index : quiet d (popProposal d term index).1.
Proof.
  unfold popProposal. pose proof (popProposals_sub (pe_proposals (d_peer d)) term index) as Hs.
  destruct (popProposals _ _ _) as [[rest stale] p]. destruct Hs as [Hs _].
  assert (Hq : quiet d (d <| d_peer ::= fun q => q <| pe_proposals := rest |> |>)) by (split; [done..|exact Hs]).
  destruct stale; [|done]. cbn [fst]. etrans; [exact Hq|apply quiet_Done].
Qed.
Lemma quiet_failProposal (d : handler) ent err : quiet d (failProposal d ent err).
Proof.
  unfold failProposal. pose proof (quiet_popProposal d (e_Term ent) (e_Index ent)) as Hq.
  destruct (popProposal _ _ _) as [d' [p|]]; [|done]. etrans; [exact Hq|apply quiet_Done].
Qed.
Lemma popProposals_index proposals term index :
  match (popProposals proposals term index).2 with Some p => pp_index p = index /\ pp_term p = term | None => True end.
Proof.
  induction proposals as [|p rest IH]; [done|]. cbn.
  destruct (_ || _); [done|]. destruct (Z.eqb_spec (pp_term p) term); [|done]. cbn.
  destruct (Z.eqb_spec (pp_index p) index); done.
Qed.
(** The proposal of an entry waits on the peer. *)
Definition waits (d : handler) (ent : Entry) : Prop :=
  exists p, p ∈ pe_proposals (d_peer d) /\ pp_term p = e_Term ent /\ pp_index p = e_Index ent.
Lemma popProposal_waits (d : handler) ent p :
  (popProposal d (e_Term ent) (e_Index ent)).2 = Some p -> waits d ent /\ pp_index p = e_Index ent.
Proof.
  unfold popProposal. pose proof (popProposals_sub (pe_proposals (d_peer d)) (e_Term ent) (e_Index ent)) as Hs.
  pose proof (popProposals_index (pe_proposals (d_peer d)) (e_Term ent) (e_Index ent)) as Hi.
  destruct (popProposals _ _ _) as [[rest stale] q]. destruct Hs as [_ Hs].
  intros Hp. assert (Hq : q = Some p) by (by destruct stale). subst q. destruct Hi as [Hi Ht].
  split; [|done]. exists p. split; [by apply Hs|done].
Qed.

(** The value a [Get] asks for. *)
Definition got (data : list Z -> option (list Z)) (req : Request) : option (list Z) :=
  get ← rqs_Get req; data (wb.KeyWithCF (get_Cf get) (default [] (get_Key get))).
Lemma handleProposal_spec (d : handler) req ent b :
  wf_request req = true ->
  (exists d', handleProposal d req ent b = Ret (d', b) /\ quiet d d')
  \/ (handleProposal d req ent b = Panic /\ waits d ent
      /\ rqs_CmdType req = CmdType_Get /\ got (db_get (kv d)) req = None).
Proof.
  intros Hwf. unfold handleProposal. pose proof (quiet_popProposal d (e_Term ent) (e_Index ent)) as Hq.
  pose proof (popProposal_waits d ent) as Hp.
  destruct (popProposal _ _ _) as [d1 [p|]]; [|left; by exists d1].
  destruct (Hp p eq_refl) as [Hw Hi]. cbn [fst] in Hq. rewrite Hi, Z.eqb_refl. cbn [negb].
  assert (Hkv : kv d1 = kv d) by (unfold kv; by rewrite (quiet_storage _ _ Hq)).
  unfold respond, got, wf_request in *. destruct (rqs_CmdType req); cbn [deref].
  2: { apply bool_decide_eq_true in Hwf as [get ->]. cbn [deref mbind option_bind]. rewrite Hkv.
       destruct (db_get (kv d) _); [|by right]. left. eexists. split; [reflexivity|]. etrans; [exact Hq|apply quiet_emit]. }
  all: left; eexists; split; [reflexivity|]; etrans; [exact Hq|].
  all: apply quiet_emit || (etrans; apply quiet_emit).
Qed.

(** ** One entry *)
(** The data is changed by [f], the proposals are answered, and nothing else happens. *)
Record applied (f : list Z -> option (list Z) -> option (list Z)) (d d' : handler) : Prop := {
  ap_kv : forall k, db_get (kv d') k = f k (db_get (kv d) k);
  ap_quiet : quiet (set_kv d (kv d')) d';
}.
Lemma applied_region f (d d' : handler) : applied f d d' -> region d' = region d.
Proof. intros [_ Hq]. unfold region, getRegion. pose proof (quiet_storage _ _ Hq) as Hs. unfold storage in Hs. by rewrite Hs. Qed.
Lemma set_kv_same (d : handler) : set_kv d (kv d) = d.
Proof. by destruct d as [[tk [[? ? ? ? ? [[]]] ] ] m o]. Qed.
Lemma set_kv_twice (d : handler) x y : set_kv (set_kv d x) y = set_kv d y.
Proof. done. Qed.
Lemma quiet_set_kv (d d' : handler) x : quiet d d' -> quiet (set_kv d x) (set_kv d' x).
Proof.
  intros [Hp Hm Hn]. destruct d as [p m o], d' as [p' m' o']. cbn in *. subst m'.
  split; [|done|done]. cbn. destruct p, p'. cbn in *. injection Hp as -> -> -> -> -> -> -> -> -> ->. done.
Qed.
Lemma quiet_kv (d d' : handler) : quiet d d' -> kv d' = kv d.
Proof. intros Hq. unfold kv. by rewrite (quiet_storage _ _ Hq). Qed.
Lemma quiet_applied (d d' : handler) : quiet d d' -> applied (fun _ v => v) d d'.
Proof.
  intros Hq. split; [intros k; by rewrite (quiet_kv _ _ Hq)|]. by rewrite (quiet_kv _ _ Hq), set_kv_same.
Qed.
Lemma applied_trans f g (d d' d'' : handler) : applied f d d' -> applied g d' d'' -> applied (fun k v => g k (f k v)) d d''.
Proof.
  intros [Hf Hq] [Hg Hq']. split; [intros k; by rewrite Hg, Hf|].
  etrans; [|exact Hq']. rewrite <- (set_kv_twice d (kv d')). by apply quiet_set_kv.
Qed.

Lemma applied_ext f g (d d' : handler) : (forall k v, f k v = g k v) -> applied f d d' -> applied g d d'.
Proof. intros Hfg [Hk Hq]. split; [|done]. intros k. by rewrite Hk, Hfg. Qed.

Lemma requestOp_batch req :
  wf_request req = true ->
  exists b, (match rqs_CmdType req with
    | CmdType_Put => let! put := deref (rqs_Put req) in
        Ret (wb.SetCF new_WriteBatch (put_Cf put) (default [] (put_Key put)) (default [] (put_Value put)))
    | CmdType_Delete => let! del := deref (rqs_Delete req) in
        Ret (wb.DeleteCF new_WriteBatch (del_Cf del) (default [] (del_Key del)))
    | _ => Ret new_WriteBatch
    end : outcome error WriteBatch) = Ret b
  /\ forall k v, foldl (after_entry k) v (wb_entries b)
       = match requestOp req with Some op => after_op k v op | None => v end.
Proof.
  intros Hwf. unfold wf_request in Hwf. unfold requestOp. destruct (rqs_CmdType req).
  1, 2, 5: by eexists.
  - apply bool_decide_eq_true in Hwf as [put ->]. cbn. eexists. split; [done|]. intros k v. cbn.
    unfold after_entry, wb.op_of. cbn. f_equal. f_equal. destruct (default [] (put_Value put)) as [|x l]; [done|].
    rewrite len_cons. pose proof (len_nonneg l). by destruct (Z.eqb_spec (len l + 1) 0); [lia|].
  - apply bool_decide_eq_true in Hwf as [del ->]. cbn. eexists. split; [done|]. done.
Qed.

Definition effect_of (r : Region) (epoch : RegionEpoch) (req : Request) : list Z -> option (list Z) -> option (list Z) :=
  fun k v => match (if accepted r epoch req then requestOp req else None) with Some op => after_op k v op | None => v end.
Lemma effect_refused r epoch req k v : accepted r epoch req = false -> effect_of r epoch req k v = v.
Proof. intros Ha. unfold effect_of. by rewrite Ha. Qed.

Lemma checkRegionVersion_spec (d : handler) ent cur epoch :
  rg_RegionEpoch (region d) = Some cur ->
  exists d', checkRegionVersion d ent (Some epoch) = Ret (d', ep_Version cur =? ep_Version epoch)
    /\ quiet d d' /\ (ep_Version cur = ep_Version epoch -> d' = d).
Proof.
  intros Hcur. unfold checkRegionVersion. rewrite Hcur. cbn.
  destruct (Z.eqb_spec (ep_Version cur) (ep_Version epoch)); cbn; eexists; (split; [done|]); (split; [|done]).
  - done.
  - apply quiet_failProposal.
Qed.
Lemma getKey_wf req : wf_request req = true -> getKey req = Ret (requestKey req).
Proof.
  intros Hwf. unfold getKey, requestKey, wf_request in *. destruct (rqs_CmdType req); try done;
    apply bool_decide_eq_true in Hwf as [x Hx]; by rewrite Hx.
Qed.
Lemma checkKeyRange_spec (d : handler) ent req :
  wf_request req = true ->
  exists d' ok, checkKeyRange d ent req = Ret (d', ok) /\ quiet d d' /\ (ok = true -> d' = d)
    /\ ok = match requestKey req with Some key => in_range (region d) key | None => true end.
Proof.
  intros Hwf. unfold checkKeyRange.
  rewrite (getKey_wf req Hwf). cbn. destruct (requestKey req) as [key|]; [|by eexists _, _].
  rewrite CheckKeyInRegion_spec. destruct (in_range (region d) key).
  - by eexists _, _.
  - eexists _, _. split; [done|]. split; [apply quiet_failProposal|done].
Qed.

Lemma requestKey_cases (d : handler) ent req : wf_request req = true ->
  (exists key, requestKey req = Some key /\ in_range (region d) key = false
    /\ checkKeyRange d ent req = Ret (failProposal d ent (ErrKeyNotInRegion key (region d)), false))
  \/ (forall X (x : X) f, match requestKey req with Some key => if in_range (region d) key then x else f key | None => x end = x)
     /\ checkKeyRange d ent req = Ret (d, true).
Proof.
  intros Hwf. unfold checkKeyRange. rewrite (getKey_wf req Hwf). cbn. destruct (requestKey req) as [key|]; [|by right].
  rewrite CheckKeyInRegion_spec. destruct (in_range (region d) key) eqn:Hin; [by right|].
  left. by exists key.
Qed.

Lemma handleRequest_spec (d : handler) msg ent req header epoch cur :
  rq_Requests msg = [req] -> rq_Header msg = Some header -> rh_RegionEpoch header = Some epoch ->
  rg_RegionEpoch (region d) = Some cur -> wf_request req = true ->
  (exists d', handleRequest d msg ent new_WriteBatch = Ret (d', new_WriteBatch)
     /\ applied (effect_of (region d) epoch req) d d')
  \/ (handleRequest d msg ent new_WriteBatch = Panic /\ waits d ent /\ accepted (region d) epoch req = true
      /\ rqs_CmdType req = CmdType_Get /\ got (db_get (kv d)) req = None).
Proof.
  intros Hreq Hh He Hcur Hwf. unfold handleRequest. rewrite Hreq, Hh. cbn [deref]. rewrite He.
  destruct (checkRegionVersion_spec d ent cur epoch Hcur) as (d1 & -> & Hq1 & Hs1).
  assert (Hno : forall d', quiet d d' -> accepted (region d) epoch req = false ->
            applied (effect_of (region d) epoch req) d d').
  { intros d' Hq Ha. destruct (quiet_applied _ _ Hq) as [Hk Hqk]. split; [|done].
    intros k. by rewrite effect_refused. }
  destruct (Z.eqb_spec (ep_Version cur) (ep_Version epoch)) as [Hv|Hv]; cbn [negb].
  2: { left. exists d1. split; [done|]. apply Hno; [done|]. unfold accepted. rewrite Hcur.
       by destruct (Z.eqb_spec (ep_Version cur) (ep_Version epoch)). }
  rewrite (Hs1 Hv). destruct (checkKeyRange_spec d ent req Hwf) as (d2 & ok & -> & Hq2 & Hs2 & Hok).
  assert (Hacc : accepted (region d) epoch req = ok).
  { unfold accepted. rewrite Hcur. destruct (Z.eqb_spec (ep_Version cur) (ep_Version epoch)); [done|lia]. }
  destruct ok; cbn [negb].
  2: { left. exists d2. split; [done|]. by apply Hno. }
  rewrite (Hs2 eq_refl). destruct (requestOp_batch req Hwf) as (b & Hb & Hops).
  set (d3 := set_kv d (wb.WriteToDB b (kv d))).
  replace (match rqs_CmdType req with CmdType_Put => _ | _ => _ end) with (Ret (E:=error) b).
  2: { destruct (rqs_CmdType req); try done. rewrite Hcur. cbn [deref]. by rewrite Hv, Z.eqb_refl. }
  destruct (handleProposal_spec d3 req ent new_WriteBatch Hwf) as [(d4 & Hp & Hq4)|(Hp & Hw & Ht & Hg)].
  2: { right. split; [exact Hp|]. split; [exact Hw|]. split; [done|]. split; [done|]. rewrite Ht in Hb. injection Hb as <-.
       unfold got in *. destruct (rqs_Get req) as [get|]; [|done]. cbn in *.
       unfold d3 in Hg. change (kv (set_kv d ?x)) with x in Hg. by rewrite WriteToDB_get in Hg. }
  left. exists d4. split; [exact Hp|]. split.
  - intros k. rewrite (quiet_kv _ _ Hq4). unfold d3. change (kv (set_kv d ?x)) with x.
    rewrite WriteToDB_get, Hops. unfold effect_of. by rewrite Hacc.
  - rewrite (quiet_kv _ _ Hq4). exact Hq4.
Qed.

(** An entry that gets a key that is not there. *)
Definition absent_get (r : Region) (ent : Entry) (data : list Z -> option (list Z)) : Prop :=
  exists epoch req, entryCommand cmdOf ent = Some (epoch, req) /\ accepted r epoch req = true
    /\ rqs_CmdType req = CmdType_Get /\ got data req = None.

Lemma applyEntry_spec (d : handler) ent data cur :
  e_Data ent = Some data -> kv_entry cmdOf ent = true -> rg_RegionEpoch (region d) = Some cur ->
  let o := applyEntry regionStateBytes snapRegion cmdOf rand_Int cfg d ent data new_WriteBatch in
  (exists d', o = Ret (d', new_WriteBatch) /\ applied (after_entries cmdOf (region d) [ent]) d d')
  \/ (o = Panic /\ waits d ent /\ absent_get (region d) ent (db_get (kv d))).
Proof.
  intros Hdata Hkv Hcur o. unfold kv_entry in Hkv. rewrite Hdata in Hkv.
  apply andb_prop in Hkv as [Hkv Hwf]. apply andb_prop in Hkv as [Hty Hadm].
  apply negb_true_iff, bool_decide_eq_false in Hty. apply bool_decide_eq_true in Hadm.
  destruct (entryCommand cmdOf ent) as [[epoch req]|] eqn:Hc; [|done]. cbn in Hwf.
  pose proof Hc as Hc'. unfold entryCommand in Hc'. rewrite Hdata in Hc'. cbn in Hc'.
  destruct (cmdOf data) as [msg|] eqn:Hm; [|done]. cbn in Hc', Hadm.
  destruct (rq_Header msg) as [header|] eqn:Hh; [|done]. cbn in Hc'.
  destruct (rh_RegionEpoch header) as [epoch'|] eqn:He; [|done]. cbn in Hc'.
  destruct (rq_Requests msg) as [|req' [|? ?]] eqn:Hr; try done. injection Hc' as -> ->.
  assert (Ho : o = handleRequest d msg ent new_WriteBatch).
  { unfold o, applyEntry. rewrite decide_False by done. rewrite Hm. cbn [deref]. by rewrite Hadm. }
  rewrite Ho. destruct (handleRequest_spec d msg ent req header epoch cur Hr Hh He Hcur Hwf)
    as [(d' & Hd & Ha)|(Hd & Hw & Hacc & Hg & Hn)].
  - left. exists d'. split; [done|]. eapply applied_ext; [|exact Ha]. intros k v.
    unfold after_entries, effect_of, entryOp. cbn. by rewrite Hc.
  - right. split; [done|]. split; [done|]. by exists epoch, req.
Qed.

(** ** All entries of a [Ready] *)
Lemma applied_stopped f (d d' : handler) : applied f d d' -> pe_stopped (d_peer d') = pe_stopped (d_peer d).
Proof. intros [_ Hq]. by rewrite (q_peer _ _ Hq). Qed.
(** Some entry gets a key that is not there after the entries before it, and its client waits. *)
Definition unanswerable (d : handler) (ents : list Entry) : Prop :=
  exists pre ent post, ents = pre ++ ent :: post /\ waits d ent
    /\ absent_get (region d) ent (fun k => after_entries cmdOf (region d) pre k (db_get (kv d) k)).
Lemma absent_get_ext r ent f g : (forall k, f k = g k) -> absent_get r ent f -> absent_get r ent g.
Proof.
  intros Hfg (epoch & req & Hc & Ha & Ht & Hg). exists epoch, req. split_and!; try done.
  unfold got in *. destruct (rqs_Get req); [|done]. cbn in *. by rewrite <- Hfg.
Qed.
Lemma waits_sub (d d' : handler) ent : pe_proposals (d_peer d') ⊆ pe_proposals (d_peer d) -> waits d' ent -> waits d ent.
Proof. intros Hs (p & Hp & Hw). exists p. split; [by apply Hs|exact Hw]. Qed.
Lemma applied_sub f (d d' : handler) : applied f d d' -> pe_proposals (d_peer d') ⊆ pe_proposals (d_peer d).
Proof. intros [_ Hq]. exact (q_sub _ _ Hq). Qed.
Lemma unanswerable_cons ent ents (d d' : handler) :
  applied (after_entries cmdOf (region d) [ent]) d d' -> unanswerable d' ents -> unanswerable d (ent :: ents).
Proof.
  intros Ha (pre & x & post & -> & Hw & Hx). exists (ent :: pre), x, post. split; [done|].
  split; [by apply (waits_sub d d' x (applied_sub _ _ _ Ha))|].
  rewrite (applied_region _ _ _ Ha) in Hx. eapply absent_get_ext; [|exact Hx].
  intros k. cbn beta. rewrite (ap_kv _ _ _ Ha). exact (eq_sym (after_entries_app cmdOf (region d) [ent] pre k _)).
Qed.
(** Without a client that waits, or without a [Get], every entry can be applied. *)
Lemma answerable_none (d : handler) ents : pe_proposals (d_peer d) = [] -> ~ unanswerable d ents.
Proof. intros Hn (_ & ent & _ & _ & (p & Hp & _) & _). rewrite Hn in Hp. by apply elem_of_nil in Hp. Qed.
Lemma answerable_no_get (d : handler) ents : Forall (fun ent => get_entry cmdOf ent = false) ents -> ~ unanswerable d ents.
Proof.
  intros Hg (pre & ent & post & -> & _ & epoch & req & Hc & _ & Ht & _). apply list.Forall_app in Hg as [_ Hg].
  apply list.Forall_cons in Hg as [Hg _]. unfold get_entry in Hg. rewrite Hc in Hg. cbn in Hg.
  by apply bool_decide_eq_false in Hg.
Qed.

Lemma commitLoop_spec ents : forall (d : handler),
  Forall (fun ent => kv_entry cmdOf ent = true) ents -> is_Some (rg_RegionEpoch (region d)) ->
  pe_stopped (d_peer d) = false ->
  (exists d', commitLoop d ents new_WriteBatch = Ret (d', new_WriteBatch)
     /\ applied (after_entries cmdOf (region d) ents) d d')
  \/ (commitLoop d ents new_WriteBatch = Panic /\ unanswerable d ents).
Proof.
  induction ents as [|ent ents IH]; intros d Hkv Hcur Hst.
  - left. exists d. split; [done|]. by apply quiet_applied.
  - apply list.Forall_cons in Hkv as [He Hkv]. cbn [PeerMsg.commitLoop].
    assert (Hgo : forall d1, applied (after_entries cmdOf (region d) [ent]) d d1 ->
      (exists d', commitLoop d1 ents new_WriteBatch = Ret (d', new_WriteBatch)
         /\ applied (after_entries cmdOf (region d) (ent :: ents)) d d')
      \/ (commitLoop d1 ents new_WriteBatch = Panic /\ unanswerable d (ent :: ents))).
    { intros d1 Ha. pose proof (applied_region _ _ _ Ha) as Hr.
      destruct (IH d1 Hkv) as [(d2 & Hl & Ha2)|[Hl Hu]]; [by rewrite Hr|by rewrite (applied_stopped _ _ _ Ha)| |].
      - left. exists d2. split; [done|]. rewrite Hr in Ha2.
        eapply applied_ext; [|exact (applied_trans _ _ _ _ _ Ha Ha2)].
        intros k v. exact (eq_sym (after_entries_app cmdOf (region d) [ent] ents k v)).
      - right. split; [done|]. by apply (unanswerable_cons ent ents d d1). }
    destruct (e_Data ent) as [data|] eqn:Hdata.
    + destruct Hcur as [cur Hcur].
      destruct (applyEntry_spec d ent data cur Hdata He Hcur) as [(d1 & -> & Ha)|(-> & Hw & Hx)].
      * cbn beta iota. rewrite (applied_stopped _ _ _ Ha), Hst. by apply Hgo.
      * right. split; [done|]. by exists [], ent, ents.
    + apply Hgo. eapply applied_ext; [|by apply quiet_applied]. intros k v.
      unfold after_entries. cbn [foldl]. unfold entryOp, entryCommand. by rewrite Hdata.
Qed.

(** The apply state of a running peer. *)
Definition apply_ok (a : RaftApplyState) : Prop :=
  (exists t, ra_TruncatedState a = Some t /\ RaftTruncatedState_ok t) /\ ra_XXX_unrecognized a = None.
Record node_ok (d : handler) : Prop := {
  no_epoch : is_Some (rg_RegionEpoch (region d));
  no_running : pe_stopped (d_peer d) = false;
  no_apply : apply_ok (ps_applyState (storage d));
}.

Lemma apply_enc a i : apply_ok a -> is_u64 i ->
  let a' := a <| ra_AppliedIndex := i |> in
  RaftApplyState_ok a' /\ len (RaftApplyState_enc a') < two63 /\ RaftApplyState_enc a' <> [].
Proof.
  intros [(t & Ht & Htok) Hx] Hi a'. unfold a', RaftApplyState_ok, RaftApplyState_enc. cbn -[varint]. rewrite Ht, Hx. cbn -[varint].
  split; [done|]. split.
  - rewrite !len_app. destruct Htok as (_ & _ & Hu). unfold enc_delim, RaftTruncatedState_enc. rewrite Hu. cbn [default].
    pose proof (enc_varint_len_le 0x8 i). pose proof (enc_varint_len_le 0x8 (rt_Index t)).
    pose proof (enc_varint_len_le 0x10 (rt_Term t)).
    repeat first [rewrite len_app|rewrite len_cons]. unfold varint.
    pose proof (varint_len_le 10 (len (enc_varint 8 (rt_Index t) ++ enc_varint 16 (rt_Term t) ++ []))).
    rewrite ?len_app, ?len_nil in *. unfold two63 in *. lia.
  - intros Hn. apply app_eq_nil in Hn as [_ Hn]. done.
Qed.
Lemma saveApply a i key (db : D) : apply_ok a -> is_u64 i ->
  exists b, try_SetMeta new_WriteBatch key (a <| ra_AppliedIndex := i |>) = Ret b
    /\ GetMeta (wb.WriteToDB b db) key = Ret (a <| ra_AppliedIndex := i |>)
    /\ forall k, k <> key -> db_get (wb.WriteToDB b db) k = db_get db k.
Proof.
  intros Ha Hi. destruct (apply_enc a i Ha Hi) as (Hok & Hlen & Hne). cbv zeta in *.
  set (a' := a <| ra_AppliedIndex := i |>) in *. unfold try_SetMeta, wb.SetMeta.
  assert (c_Marshal a' = Ret (RaftApplyState_enc a')) as -> by exact (c_Marshal_enc (T:=RaftApplyState) a' Hok Hlen).
  eexists. split; [reflexivity|]. split.
  - unfold GetMeta. rewrite WriteToDB_get. cbn [wb_entries wb.add new_WriteBatch app].
    pose proof (foldl_last key (db_get db key) [] (key, RaftApplyState_enc a') _ eq_refl Hne) as Hl.
    cbn [app] in Hl. rewrite Hl.
    pose proof (@c_round RaftApplyState RaftApplyState_codec RaftApplyState_laws a' Hok Hlen) as Hr.
    cbn [c_norm c_enc RaftApplyState_codec] in Hr. by rewrite Hr.
  - intros k Hk. rewrite WriteToDB_get. apply foldl_other. by constructor.
Qed.

(** The keys that hold data, not the apply state of the region. *)
Definition data_key (d : handler) (k : list Z) : Prop := k <> ApplyStateKey (pe_regionId (d_peer d)).

Record entries_applied (d : handler) (ents : list Entry) (index : Z) (d' : handler) : Prop := {
  ea_data : forall k, data_key d k -> db_get (kv d') k = after_entries cmdOf (region d) ents k (db_get (kv d) k);
  ea_region : region d' = region d;
  ea_id : pe_regionId (d_peer d') = pe_regionId (d_peer d);
  ea_state : ps_applyState (storage d') = (ps_applyState (storage d)) <| ra_AppliedIndex := index |>;
  ea_saved : GetApplyState (kv d') (pe_regionId (d_peer d)) = Ret (ps_applyState (storage d'));
  ea_running : pe_stopped (d_peer d') = pe_stopped (d_peer d);
  ea_sub : pe_proposals (d_peer d') ⊆ pe_proposals (d_peer d);
}.

Lemma HandleCommitEnts_spec (d : handler) ents lastEnt :
  node_ok d -> Forall (fun ent => kv_entry cmdOf ent = true) ents ->
  list.last ents = Some lastEnt -> is_u64 (e_Index lastEnt) ->
  (exists d', HandleCommitEnts d ents = Ret d' /\ entries_applied d ents (e_Index lastEnt) d')
  \/ (HandleCommitEnts d ents = Panic /\ unanswerable d ents).
Proof.
  intros [Hep Hst Hap] Hkv Hlast Hi. unfold PeerMsg.HandleCommitEnts. rewrite Hlast.
  destruct (commitLoop_spec ents d Hkv Hep Hst) as [(d1 & -> & Ha)|[-> Hu]]; [|by right]. left. cbn beta iota.
  rewrite (applied_stopped _ _ _ Ha), Hst.
  assert (Hs1 : storage d1 = (storage d) <| ps_kv := kv d1 |>) by (destruct Ha as [_ Hq]; by rewrite (quiet_storage _ _ Hq)).
  assert (Hap1 : ps_applyState (storage d1) = ps_applyState (storage d)) by (by rewrite Hs1).
  assert (Hid : pe_regionId (d_peer d1) = pe_regionId (d_peer d)) by (destruct Ha as [_ Hq]; by rewrite (q_peer _ _ Hq)).
  cbv zeta. rewrite Hap1.
  match goal with |- context [set_kv ?x _] => set (d2 := x) end.
  change (pe_regionId (d_peer d2)) with (pe_regionId (d_peer d1)). rewrite Hid.
  destruct (saveApply (ps_applyState (storage d)) (e_Index lastEnt)
    (ApplyStateKey (pe_regionId (d_peer d))) (kv d1) Hap Hi) as (b & -> & Hg & Hk).
  eexists. split; [reflexivity|]. split.
  - intros k Hdk. change (kv (set_kv ?x ?y)) with y. change (kv d2) with (kv d1). by rewrite Hk, (ap_kv _ _ _ Ha).
  - exact (applied_region _ _ _ Ha).
  - exact Hid.
  - done.
  - exact Hg.
  - exact (applied_stopped _ _ _ Ha).
  - exact (applied_sub _ _ _ Ha).
Qed.
Lemma entries_applied_ok d ents i d' : node_ok d -> entries_applied d ents i d' -> node_ok d'.
Proof.
  intros [He Hr Ha] []. split; [by rewrite ea_region0|congruence|]. rewrite ea_state0.
  destruct Ha as [Ht Hx]. by split.
Qed.

(** A run over the [Ready]s of some rounds. *)
Definition commitRounds (d : handler) (rounds : list (list Entry)) : outcome error handler :=
  foldM HandleCommitEnts d rounds.
(** What a peer can apply in such rounds. *)
Record rounds_ok (d : handler) (rounds : list (list Entry)) : Prop := {
  rk_node : node_ok d;
  rk_entries : Forall (fun ent => kv_entry cmdOf ent = true /\ is_u64 (e_Index ent)) (concat rounds);
}.
(** One of the rounds cannot be answered. *)
Definition round_unanswerable (d : handler) (rounds : list (list Entry)) : Prop :=
  exists before ents after d1, rounds = before ++ ents :: after /\ commitRounds d before = Ret d1 /\ unanswerable d1 ents.
Lemma commitRounds_spec rounds : forall d, rounds_ok d rounds ->
  (exists d', commitRounds d rounds = Ret d' /\ region d' = region d /\ node_ok d'
     /\ forall k, data_key d k -> db_get (kv d') k = after_entries cmdOf (region d) (concat rounds) k (db_get (kv d) k))
  \/ (commitRounds d rounds = Panic /\ round_unanswerable d rounds).
Proof.
  induction rounds as [|ents rounds IH]; intros d [Hn He]; [left; by exists d|].
  cbn [concat] in *. apply list.Forall_app in He as [He He']. unfold commitRounds in *. cbn [foldM].
  destruct (list.last ents) as [lastEnt|] eqn:Hl.
  2: { apply last_None in Hl as ->. cbn. destruct (IH d) as [?|[Hp (bf & es & af & d1 & -> & Hb & Hu)]]; [by split|by left|].
       right. split; [done|]. by exists ([] :: bf), es, af, d1. }
  assert (Hin : lastEnt ∈ ents) by (by apply list_elem_of_last || (apply last_Some_elem_of; done)).
  destruct (HandleCommitEnts_spec d ents lastEnt Hn) as [(d1 & Hd1 & Ha)|[Hd1 Hu]].
  - eapply list.Forall_impl; [exact He|]. by intros ? [].
  - done.
  - rewrite list.Forall_forall in He. by apply He.
  - rewrite Hd1. cbn beta iota. pose proof (entries_applied_ok _ _ _ _ Hn Ha) as Hn1. destruct Ha.
    destruct (IH d1) as [(d' & Hc & Hr & Hn' & Hk)|[Hp (bf & es & af & d2 & -> & Hb & Hu)]]; [by split| |].
    + left. exists d'. split; [done|]. split; [congruence|]. split; [done|]. intros k Hdk.
      rewrite Hk, ea_region0, ea_data0, after_entries_app; [done|done|]. unfold data_key in *. by rewrite ea_id0.
    + right. split; [done|]. exists (ents :: bf), es, af, d2. split; [done|]. split; [|done]. unfold commitRounds. cbn [foldM]. by rewrite Hd1.
  - right. rewrite Hd1. split; [done|]. by exists [], ents, rounds, d.
Qed.

(** ** Answers *)
(** The proposal of an entry is behind proposals of its term with smaller indexes. *)
Definition proposed (d : handler) (ent : Entry) (p : proposal) (rest : list proposal) : Prop :=
  exists older, pe_proposals (d_peer d) = older ++ p :: rest
    /\ Forall (fun q => pp_term q = e_Term ent /\ pp_index q < e_Index ent) older
    /\ pp_term p = e_Term ent /\ pp_index p = e_Index ent.
Lemma popProposal_proposed (d : handler) ent p rest :
  proposed d ent p rest ->
  popProposal d (e_Term ent) (e_Index ent) = (d <| d_peer ::= fun q => q <| pe_proposals := rest |> |>, Some p).
Proof.
  intros (older & Hps & Hold & Ht & Hi). unfold popProposal. rewrite Hps.
  enough (popProposals (older ++ p :: rest) (e_Term ent) (e_Index ent) = (rest, None, Some p)) as -> by done.
  clear Hps. induction Hold as [|q older [Hqt Hqi] _ IH]; cbn.
  - by rewrite Ht, Hi, Z.gtb_ltb, Z.ltb_irrefl, !Z.eqb_refl, Z.gtb_ltb, Z.ltb_irrefl.
  - rewrite Hqt, Z.gtb_ltb, Z.ltb_irrefl, Z.eqb_refl. cbn.
    destruct (Z.gtb_spec (pp_index q) (e_Index ent)); [lia|]. cbn.
    by destruct (Z.eqb_spec (pp_index q) (e_Index ent)); [lia|].
Qed.

(** What the client gets: an error when the command is not accepted, the response of its
    type otherwise; there is none for a [Get] of a key that is not there. *)
Definition refusal (d : handler) (epoch : RegionEpoch) (req : Request) (cb : Z) : option (list (effect D)) :=
  cur ← rg_RegionEpoch (region d);
  if negb (ep_Version cur =? ep_Version epoch) then Some [EDone cb (ErrResp (ErrEpochNotMatch [region d]))] else
  match requestKey req with
  | Some key =>
    if in_range (region d) key then None else Some [EDone cb (ErrResp (ErrKeyNotInRegion key (region d)))]
  | None => None
  end.
Definition response (d : handler) (req : Request) (cb : Z) : option (list (effect D)) :=
  let done responses := EDone cb (mkResponse None 0 responses None) in
  match rqs_CmdType req with
  | CmdType_Get =>
    get ← rqs_Get req;
    v ← db_get (kv d) (wb.KeyWithCF (get_Cf get) (default [] (get_Key get)));
    Some [done [GetResponse v]]
  | CmdType_Put => Some [done [PutResponse]]
  | CmdType_Delete => Some [done [DeleteResponse]]
  | CmdType_Snap => Some [ETxn cb (kv d); done [SnapResponse (region d)]]
  | CmdType_Invalid => Some [done []]
  end.
Definition answer (d : handler) (epoch : RegionEpoch) (req : Request) (cb : Z) : option (list (effect D)) :=
  match refusal d epoch req cb with Some out => Some out | None => response d req cb end.

Lemma failProposal_proposed (d : handler) ent p rest err :
  proposed d ent p rest ->
  failProposal d ent err
  = emit (d <| d_peer ::= fun q => q <| pe_proposals := rest |> |>) (EDone (pp_cb p) (ErrResp err)).
Proof. intros Hp. unfold failProposal. by rewrite (popProposal_proposed d ent p rest Hp). Qed.
Lemma handleProposal_proposed (d : handler) req ent b p rest :
  wf_request req = true -> proposed d ent p rest ->
  match response d req (pp_cb p) with
  | Some out => exists d', handleProposal d req ent b = Ret (d', b)
                  /\ d_out d' = d_out d ++ out /\ pe_proposals (d_peer d') = rest
  | None => handleProposal d req ent b = Panic
  end.
Proof.
  intros Hwf Hp. unfold handleProposal. rewrite (popProposal_proposed d ent p rest Hp).
  destruct Hp as (_ & _ & _ & _ & Hi). rewrite Hi, Z.eqb_refl. cbn [negb].
  set (d1 := d <| d_peer ::= _ |>). unfold response, respond, wf_request in *.
  destruct (rqs_CmdType req); cbn; try (eexists; split; [reflexivity|]; done).
  - apply bool_decide_eq_true in Hwf as [get ->]. cbn.
    change (kv d1) with (kv d). destruct (db_get (kv d) _); cbn; [|done]. eexists. split; [reflexivity|]. done.
  - eexists. split; [reflexivity|]. cbn. by rewrite <- app_assoc.
Qed.
End Apply.

(** ** Claims *)
Section Claims.
Context {D : Type} `{BadgerLaws D}.
Context (regionStateBytes : PeerState -> Region -> list Z) (snapRegion : option (list Z) -> option (option Region)).
Context (cmdOf : list Z -> option RaftCmdRequest) (rand_Int : nat -> Z) (cfg : Config).

(** C5. Applying the committed entries of a [Ready], where each has no data or one command
    on keys, is a fold over them: under every key but that of the apply state there is
    afterwards what the puts and deletes of the entries leave there, where a command made
    for another version of the region or for a key outside it does nothing.  The region
    stays, and the new applied index is in memory and on disk.  The only other outcome is a
    panic, when some entry is a [Get] of a key that is not there after the entries before
    it and its client waits on this peer. *)
Theorem apply_refines_fold (d : handler D) (ents : list Entry) (lastEnt : Entry) :
  node_ok d -> Forall (fun ent => kv_entry cmdOf ent = true) ents ->
  list.last ents = Some lastEnt -> is_u64 (e_Index lastEnt) ->
  (exists d', HandleCommitEnts regionStateBytes snapRegion cmdOf rand_Int cfg d ents = Ret d'
    /\ (forall k, data_key d k -> db_get (kv d') k = after_entries cmdOf (region d) ents k (db_get (kv d) k))
    /\ region d' = region d
    /\ AppliedIndex (storage d') = e_Index lastEnt
    /\ GetApplyState (kv d') (pe_regionId (d_peer d)) = Ret (ps_applyState (storage d')))
  \/ (HandleCommitEnts regionStateBytes snapRegion cmdOf rand_Int cfg d ents = Panic /\ unanswerable cmdOf d ents).
Proof.
  intros Hn Hkv Hl Hi.
  destruct (HandleCommitEnts_spec regionStateBytes snapRegion cmdOf rand_Int cfg d ents lastEnt Hn Hkv Hl Hi)
    as [(d' & Hd & [])|?]; [left|by right].
  exists d'. split_and!; try done. unfold AppliedIndex. by rewrite ea_state0.
Qed.

(** C6. Replicas agree: two peers with the same region and the same data that apply the
    same entries, each without data or with one command on keys, end with the same data,
    however each cuts them into [Ready]s and whichever clients wait on it.  Each of them
    gets through its entries, unless it comes to a [Get] of a key that is not there whose
    client waits on it: then it panics. *)
Theorem replicas_agree (d1 d2 : handler D) (rounds1 rounds2 : list (list Entry)) :
  rounds_ok cmdOf d1 rounds1 -> rounds_ok cmdOf d2 rounds2 -> concat rounds1 = concat rounds2 ->
  region d1 = region d2 -> pe_regionId (d_peer d1) = pe_regionId (d_peer d2) ->
  (forall k, data_key d1 k -> db_get (kv d1) k = db_get (kv d2) k) ->
  let run := commitRounds regionStateBytes snapRegion cmdOf rand_Int cfg in
  let panics d rounds := run d rounds = Panic /\ round_unanswerable regionStateBytes snapRegion cmdOf rand_Int cfg d rounds in
  ((exists d1', run d1 rounds1 = Ret d1') \/ panics d1 rounds1)
  /\ ((exists d2', run d2 rounds2 = Ret d2') \/ panics d2 rounds2)
  /\ forall d1' d2', run d1 rounds1 = Ret d1' -> run d2 rounds2 = Ret d2' ->
       forall k, data_key d1 k -> db_get (kv d1') k = db_get (kv d2') k.
Proof.
  intros H1 H2 Hc Hr Hid Hk run panics.
  pose proof (commitRounds_spec regionStateBytes snapRegion cmdOf rand_Int cfg rounds1 d1 H1) as Hs1.
  pose proof (commitRounds_spec regionStateBytes snapRegion cmdOf rand_Int cfg rounds2 d2 H2) as Hs2.
  split; [destruct Hs1 as [(d1' & Hd1 & _)|?]; [left; by exists d1'|by right]|].
  split; [destruct Hs2 as [(d2' & Hd2 & _)|?]; [left; by exists d2'|by right]|].
  intros d1' d2' Hd1 Hd2 k Hdk. unfold run in *.
  destruct Hs1 as [(x1 & Hx1 & _ & _ & Hk1)|[Hx1 _]]; [|congruence].
  destruct Hs2 as [(x2 & Hx2 & _ & _ & Hk2)|[Hx2 _]]; [|congruence].
  rewrite Hx1 in Hd1. rewrite Hx2 in Hd2. injection Hd1 as ->. injection Hd2 as ->.
  assert (Hdk2 : data_key d2 k) by (unfold data_key in *; congruence).
  by rewrite (Hk1 k Hdk), (Hk2 k Hdk2), Hc, Hr, (Hk k Hdk).
Qed.

(** C9. A committed command whose proposal waits behind proposals of its own term is
    answered, and the proposals up to it are gone: with the region when the command was
    made for another version of it, with an error when the key is outside, and else with
    the response of its type.  Only a [Get] of a key that is not there has no answer: it
    panics. *)
Theorem command_answered (d : handler D) (msg : RaftCmdRequest) (ent : Entry) (req : Request)
    (header : RaftRequestHeader) (epoch : RegionEpoch) (p : proposal) (rest : list proposal) :
  rq_Requests msg = [req] -> rq_Header msg = Some header -> rh_RegionEpoch header = Some epoch ->
  is_Some (rg_RegionEpoch (region d)) -> wf_request req = true -> proposed d ent p rest ->
  match answer d epoch req (pp_cb p) with
  | Some out => exists d', handleRequest d msg ent new_WriteBatch = Ret (d', new_WriteBatch)
                  /\ d_out d' = d_out d ++ out /\ pe_proposals (d_peer d') = rest
  | None => handleRequest d msg ent new_WriteBatch = Panic
  end.
Proof.
  intros Hr Hh He [cur Hcur] Hwf Hp. unfold handleRequest. rewrite Hr, Hh. cbn [deref]. rewrite He.
  unfold answer, refusal, checkRegionVersion. rewrite Hcur. cbn [deref mbind option_bind].
  destruct (Z.eqb_spec (ep_Version cur) (ep_Version epoch)) as [Hv|Hv]; cbn [negb].
  2: { eexists. split; [reflexivity|]. by rewrite (failProposal_proposed d ent p rest). }
  destruct (requestKey_cases d ent req Hwf) as [(key & Hk & Hin & Hc)|[Hin Hc]].
  - rewrite Hk, Hin, Hc. eexists. split; [reflexivity|]. by rewrite (failProposal_proposed d ent p rest).
  - rewrite Hin, Hc. cbn [negb]. destruct (requestOp_batch req Hwf) as (b & Hb & _).
    set (d1 := set_kv d (wb.WriteToDB b (kv d))).
    assert (Hres : response d req (pp_cb p) = response d1 req (pp_cb p)).
    { unfold response. destruct (rqs_CmdType req); try done; by injection Hb as <-. }
    pose proof (handleProposal_proposed d1 req ent new_WriteBatch p rest Hwf Hp) as Hfin. rewrite <- Hres in Hfin.
    replace (match rqs_CmdType req with CmdType_Put => _ | _ => _ end) with (Ret (E:=error) b); [exact Hfin|].
    destruct (rqs_CmdType req); try done. rewrite Hcur. cbn [deref]. by rewrite Hv, Z.eqb_refl.
Qed.
End Claims.
