(* ===== verification/PeerSplit.v ===== *)
(** * PeerSplit: creating peers and splitting regions

    A peer is created on what is on disk whenever that is well formed, also after a crash
    in the middle of the entries of a [Ready], which are then applied again; and applying a
    split cuts the key range in two, saves both regions and the first states of the new
    one, and hands a working peer for it to the router. *)

From stdpp Require Import base option list strings gmap sorting tactics.
From S2P Require Import Prelude.
From S2P Require Import GoHeap.
From S2P Require Import Eraftpb.
From S2P Require Import EraftpbRound.
From S2P Require Import RaftServerpb.
From S2P Require Import RaftStorage.
From S2P Require Import RaftLog.
From S2P Require Import Raft.
From S2P Require Import RaftFacts.
From S2P Require Import RaftInv.
From S2P Require Import RaftSafe.
From S2P Require Import RawNode.
From S2P Require Import Meta.
From S2P Require Import BTree.
From S2P Require Import BTreeFacts.
From S2P Require Import BTreeProps.
From S2P Require Import Metapb.
From S2P Require Import Engine.
From S2P Require Import PeerStorage.
From S2P Require Import PeerStorageProps.
From S2P Require Import RaftCmdpb.
From S2P Require Import RaftstoreUtil.
From S2P Require Import Peer.
From S2P Require Import PeerMsg.
From S2P Require Import PeerProps.

#[export] Instance regionLess_order : StrictWeakOrder regionLess.
Proof.
  split.
  - intros x. apply key_lt_irrefl.
  - intros x y z. apply key_lt_trans.
  - intros x y z. change (key_lt (rg_StartKey x) (rg_StartKey z) = true ->
      key_lt (rg_StartKey x) (rg_StartKey y) = true \/ key_lt (rg_StartKey y) (rg_StartKey z) = true).
    destruct (key_lt (rg_StartKey x) (rg_StartKey y)) eqn:Hxy; [by left|].
    intros Hxz. right. by eapply key_le_lt_trans.
Qed.

(** A usable configuration of a store. *)
Record cfg_ok (cfg : Peer.Config) : Prop := {
  ck_base : cf_RaftBaseTickInterval cfg <> 0;
  ck_heartbeat : 0 < cf_RaftHeartbeatTicks cfg;
  ck_election : cf_RaftHeartbeatTicks cfg < cf_RaftElectionTimeoutTicks cfg;
}.

(** A single member that campaigns leads at once and does not touch its storage. *)
Section Alone.
Context {S : Type} `{Storage S} (rand_Int : nat -> Z).
Implicit Types (r : Raft S).
Definition alone r := r_peers r = [r_id r].
Definition log_base (l : RaftLog S) := (l_storage l, l_applied l).
Lemma propose_storage es : forall r, let r' := foldl proposeEntry r es in
  log_base (r_RaftLog r') = log_base (r_RaftLog r) /\ r_peers r' = r_peers r /\ r_id r' = r_id r.
Proof.
  induction es as [|e es IH]; intros r; [done|]. cbn [foldl]. destruct (IH (proposeEntry r e)) as (-> & -> & ->).
  unfold proposeEntry. destruct (decide _); [destruct (negb _)|]; done.
Qed.
Lemma handleMsgPropose_storage r m :
  wlp (handleMsgPropose r m) (fun r' => log_base (r_RaftLog r') = log_base (r_RaftLog r)
    /\ r_peers r' = r_peers r /\ r_id r' = r_id r).
Proof.
  unfold handleMsgPropose, updProgress. pose proof (propose_storage (m_Entries m) r) as Hp. cbv zeta in *.
  generalize dependent (foldl proposeEntry r (m_Entries m)). intros r1 Hp.
  destruct (r_Prs r1 !! r_id r1); [|done]. cbn [deref]. destruct (_ =? 1); exact Hp.
Qed.
Lemma broadCastAE_alone r : alone r -> broadCastAE r = Ret r.
Proof. unfold alone, broadCastAE. intros ->. cbn [foldM]. by rewrite Z.eqb_refl. Qed.
Lemma requestVotes_alone r : alone r -> requestVotes r = Ret r.
Proof. unfold alone, requestVotes. intros ->. cbn [foldM]. by rewrite Z.eqb_refl. Qed.
Lemma resetElectionTimeout_keeps r :
  wlp (resetElectionTimeout rand_Int r) (fun r' => r_RaftLog r' = r_RaftLog r /\ r_peers r' = r_peers r /\ r_id r' = r_id r).
Proof. unfold resetElectionTimeout. by destruct (_ =? 0). Qed.
Lemma becomeLeader_alone r : alone r ->
  wlp (becomeLeader r) (fun r' => log_base (r_RaftLog r') = log_base (r_RaftLog r) /\ alone r').
Proof.
  intros Ha. unfold becomeLeader. cbv zeta. apply wlp_bind.
  eapply wlp_mono; [apply handleMsgPropose_storage|]. cbn beta. intros r3 (Hs & Hps & Hid).
  assert (Ha3 : alone r3) by (unfold alone; rewrite Hps, Hid; exact Ha).
  rewrite (broadCastAE_alone r3 Ha3). split; [exact Hs|exact Ha3].
Qed.
Lemma becomeCandidate_alone r : alone r ->
  wlp (becomeCandidate rand_Int r) (fun r' => log_base (r_RaftLog r') = log_base (r_RaftLog r) /\ alone r').
Proof.
  intros Ha. unfold becomeCandidate. apply wlp_bind.
  eapply wlp_mono; [apply resetElectionTimeout_keeps|]. cbn beta. intros r1 (Hl & Hps & Hid).
  assert (Ha1 : alone r1) by (unfold alone; rewrite Hps, Hid; exact Ha).
  assert (Hone : (len (r_peers r1) =? 1) = true) by (by rewrite Ha1). rewrite Hone.
  eapply wlp_mono; [by apply becomeLeader_alone|]. cbn beta. intros r2 [Hs Ha2]. split; [|exact Ha2].
  rewrite Hs, Hl. reflexivity.
Qed.
Lemma Step_hup r m : m_MsgType m = MsgHup -> r_State r <> StateLeader -> Raft.Step rand_Int r m = campaign rand_Int r.
Proof. exact (StepF_hup rand_Int 1 r m). Qed.
Lemma campaign_keeps r : alone r ->
  wlp (campaign rand_Int r) (fun r' => log_base (r_RaftLog r') = log_base (r_RaftLog r)).
Proof.
  intros Ha. unfold campaign. apply wlp_bind.
  eapply wlp_mono; [by apply becomeCandidate_alone|]. cbn beta. intros r1 [Hs Ha1].
  by rewrite (requestVotes_alone _ Ha1).
Qed.
Lemma campaign_alone r r' m :
  m_MsgType m = MsgHup -> r_State r = StateFollower -> alone r -> Raft.Step rand_Int r m = Ret r' ->
  log_base (r_RaftLog r') = log_base (r_RaftLog r).
Proof.
  intros Hm Hs Ha. rewrite Step_hup by (done || by rewrite Hs). exact (wlp_inv _ _ r' (campaign_keeps r Ha)).
Qed.
End Alone.

Section Create.
Context {D : Type} `{BadgerLaws D}.
Context (snapRegion : option (list Z) -> option (option Region)).
Context (rand_Int : nat -> Z) (cfg : Peer.Config).
Context (Hcfg : cfg_ok cfg).

Definition node_wf (p : peer D) : Prop :=
  @raft_wf (PeerStorage D) (Storage_PeerStorage snapRegion) (StorageLaws_PeerStorage snapRegion)
    (rn_Raft (pe_RaftGroup p)).

(** What a store has on disk for a region that can be started. *)
Record on_disk (ti : Z) (raft kv : D) (region : Region) (st : RaftLocalState) (ap : RaftApplyState) : Prop := {
  od_raft : GetRaftLocalState raft (rg_Id region) = Ret st;
  od_apply : GetApplyState kv (rg_Id region) = Ret ap;
  od_storage : ps_ok ti (mkPeerStorage region st ap SnapState_Relax None 0 raft kv []);
  od_hard : exists hs, rl_HardState st = Some hs /\ IsEmptyHardState hs = false /\ ra_AppliedIndex ap <= hs_Commit hs;
  od_room : rl_LastIndex st + 2 < two64;
}.

Lemma FindPeer_elem region storeId mp :
  FindPeer region storeId = Some mp -> mp ∈ rg_Peers region /\ p_StoreId mp = storeId.
Proof.
  unfold FindPeer. intros Hf. apply List.find_some in Hf as [Hin Heq].
  split; [by apply list_elem_of_In|by apply Z.eqb_eq].
Qed.

Lemma createPeer_ok ti storeId raft kv region st ap mp :
  on_disk ti raft kv region st ap -> FindPeer region storeId = Some mp -> p_Id mp <> 0 ->
  exists p, createPeer snapRegion rand_Int cfg storeId raft kv region = Ret p
    /\ node_wf p /\ getRegion p = region /\ pe_Meta p = mp /\ pe_regionId p = rg_Id region
    /\ pe_proposals p = [] /\ pe_stopped p = false
    /\ ps_raft (peerStorage p) = raft /\ ps_kv (peerStorage p) = kv
    /\ ps_applyState (peerStorage p) = ap
    /\ l_applied (r_RaftLog (rn_Raft (pe_RaftGroup p))) = Z.max (ra_AppliedIndex ap) ti.
Proof.
  intros [Hst Hap Hok (hs & Hhs & Hemp & Hle) Hroom] Hf Hid.
  destruct (FindPeer_elem _ _ _ Hf) as [Hin _].
  assert (Hlast : ra_AppliedIndex ap <= rl_LastIndex st).
  { destruct (po_hard _ _ Hok) as (hs' & Hhs' & [_ Hc] & _). cbn in *. simplify_eq. lia. }
  unfold createPeer. rewrite Hf. unfold NewPeer. apply Z.eqb_neq in Hid as Hid'.
  change InvalidID with 0. rewrite Hid'.
  rewrite (restart_spec _ _ _ _ _ Hst Hap Hlast).
  set (ps := mkPeerStorage _ _ _ _ _ _ _ _ _) in *. set (c := mkConfig _ _ _ _ _ _).
  assert (Hti : ti_of ps = ti) by (unfold ti_of; by rewrite (truncatedIndex_ok _ _ Hok)).
  assert (Hc : @config_ok _ (Storage_PeerStorage snapRegion) (StorageLaws_PeerStorage snapRegion) c ps
                 (map p_Id (rg_Peers region))).
  { split; cbn.
    - done.
    - unfold validate. cbn [cfg_ID cfg_HeartbeatTick cfg_ElectionTick cfg_Storage c]. change None_id with 0. rewrite Hid'. destruct Hcfg.
      destruct (Z.leb_spec (cf_RaftHeartbeatTicks cfg) 0); [lia|].
      by destruct (Z.leb_spec (cf_RaftElectionTimeoutTicks cfg) (cf_RaftHeartbeatTicks cfg)); [lia|].
    - by rewrite Hti.
    - apply list_elem_of_fmap_2' with mp; done.
    - exists hs, (ConfStateFromRegion region). split; [|done].
      unfold InitialState. cbn. rewrite Hhs. cbn. by rewrite Hemp. }
  destruct (wp_inv _ _ (newRaft_wp rand_Int c ps _ Hc)) as (r & Hr & Hw & Hs & Hrid & Hrps & _ & _ & _ & _ & Hla & Hls & Happ).
  unfold NewRawNode, peer_storage. rewrite Hr. cbn beta iota.
  unfold newTicker. destruct (Z.eqb_spec (cf_RaftBaseTickInterval cfg) 0); [by destruct Hcfg|]. cbn beta iota zeta.
  assert (Hbase : log_base (r_RaftLog r) = (ps, Z.max (ra_AppliedIndex ap) ti)).
  { unfold log_base. rewrite Hls, (Happ eq_refl). cbn -[Z.max]. rewrite Hti. do 2 f_equal. lia. }
  assert (Hcamp : forall rn, rn_Raft rn = r -> alone r ->
    exists rn', @Campaign (PeerStorage D) (Storage_PeerStorage snapRegion) rand_Int rn = Ret rn'
      /\ @raft_wf _ _ (StorageLaws_PeerStorage snapRegion) (rn_Raft rn')
      /\ log_base (r_RaftLog (rn_Raft rn')) = (ps, Z.max (ra_AppliedIndex ap) ti)).
  { intros rn Hrn Ha. unfold Campaign, onRaft. rewrite Hrn.
    destruct (wp_inv _ _ (@Step_safe_wp _ _ (StorageLaws_PeerStorage snapRegion) rand_Int r
      (zero_Message <| m_MsgType := MsgHup |>) Hw ltac:(split; [unfold room; rewrite Hla; cbn; lia|done]))) as (r' & Hr' & Hw' & _).
    rewrite Hr'. eexists. split; [reflexivity|]. split; [exact Hw'|].
    change (log_base (r_RaftLog r') = (ps, Z.max (ra_AppliedIndex ap) ti)). rewrite <- Hbase. refine (campaign_alone rand_Int r r' _ _ Hs Ha Hr'). reflexivity. }
  assert (Hreg : forall p, log_base (r_RaftLog (rn_Raft (pe_RaftGroup p))) = (ps, Z.max (ra_AppliedIndex ap) ti) ->
    getRegion p = region /\ ps_raft (peerStorage p) = raft /\ ps_kv (peerStorage p) = kv
    /\ ps_applyState (peerStorage p) = ap
    /\ l_applied (r_RaftLog (rn_Raft (pe_RaftGroup p))) = Z.max (ra_AppliedIndex ap) ti).
  { intros p [= Hp ->]. unfold getRegion, peerStorage. by rewrite Hp. }
  destruct (rg_Peers region) as [|only [|? ?]] eqn:Hpeers.
  1, 3: eexists; split; [reflexivity|]; split_and!; [exact Hw|by apply Hreg|done..|by apply Hreg|by apply Hreg|by apply Hreg|by apply Hreg].
  destruct (p_StoreId only =? storeId); [|eexists; split; [reflexivity|]; split_and!; [exact Hw|by apply Hreg|done..|by apply Hreg|by apply Hreg|by apply Hreg|by apply Hreg]].
  cbn [pe_RaftGroup]. edestruct Hcamp as (rn' & Hrn' & Hw' & Hst'); [| |rewrite Hrn'].
  - reflexivity.
  - unfold alone. rewrite Hrps, Hrid. apply list_elem_of_singleton in Hin as ->. done.
  - eexists. split; [reflexivity|]. split_and!; [exact Hw'|by apply Hreg|done..|by apply Hreg|by apply Hreg|by apply Hreg|by apply Hreg].
Qed.
Lemma SetPeerRegion_same (p : peer D) : SetPeerRegion p (getRegion p) = p.
Proof. by destruct p as [? [[? ? ? ? ? [[]]] ]]. Qed.
End Create.

(** ** A crash while entries are applied *)
Section Crash.
Context (cmdOf : list Z -> option RaftCmdRequest).
(** The entry writes no key of the store's own, which start with [LocalPrefix]: its column
    family, [default], [write] or [lock], does not start with that byte. *)
Definition user_entry (ent : Entry) : bool :=
  match entryCommand cmdOf ent ≫= requestOp ∘ snd with
  | Some (k, _) => bool_decide (head k <> Some LocalPrefix)
  | None => true
  end.
Lemma after_entries_local r ents k v :
  Forall (fun ent => user_entry ent = true) ents -> head k = Some LocalPrefix -> after_entries cmdOf r ents k v = v.
Proof.
  intros Hu Hk. revert v. induction Hu as [|ent ents He _ IH]; intros v; [done|]. unfold after_entries in *. cbn [foldl].
  rewrite IH. unfold user_entry, entryOp in *. destruct (entryCommand cmdOf ent) as [[epoch req]|]; [|done]. cbn in *.
  destruct (accepted r epoch req); [|done]. destruct (requestOp req) as [[k' w]|]; [|done].
  apply bool_decide_eq_true in He. unfold after_op. cbn. rewrite bool_decide_false; [done|]. by intros ->.
Qed.
End Crash.
Lemma local_keys id : head (ApplyStateKey id) = Some LocalPrefix /\ head (RegionStateKey id) = Some LocalPrefix.
Proof. unfold ApplyStateKey. by rewrite RegionStateKey_eq, makeRegionPrefix_eq. Qed.

Lemma on_disk_kv {D} `{BadgerLaws D} ti (raft kv kv' : D) region st ap :
  on_disk ti raft kv region st ap ->
  db_get kv' (ApplyStateKey (rg_Id region)) = db_get kv (ApplyStateKey (rg_Id region)) ->
  on_disk ti raft kv' region st ap.
Proof.
  intros [Hst Hap [] Hhs Hroom] Hk. split; [done| |by split|done|done].
  unfold GetApplyState, GetMeta in *. by rewrite Hk.
Qed.

(** C10. A crash while entries are applied is harmless.  Each of the entries has no data or
    one command on a user's key.  The data is written entry by entry and the applied index
    only at the end: whatever part of the entries was applied when the process stopped, the
    region's own state on disk is as before, so a peer is created again on the engines, with
    the old applied index, from which its log hands out entries.  Given the entries again it
    always gets through, with no client waiting, and ends with the data, and the applied
    index, it would have had without the crash. *)
Theorem replay_after_crash {D} `{BadgerLaws D} regionStateBytes snapRegion cmdOf (rand_Int : nat -> Z) (cfg : Peer.Config)
    (d crashed : handler D) (done left : list Entry) (lastEnt : Entry) (b : WriteBatch)
    (storeId ti : Z) (st : RaftLocalState) (ap : RaftApplyState) (mp : Peer) (meta : storeMeta) :
  cfg_ok cfg -> node_ok d -> pe_regionId (d_peer d) = rg_Id (region d) ->
  on_disk ti (ps_raft (storage d)) (kv d) (region d) st ap -> apply_ok ap -> ti <= ra_AppliedIndex ap ->
  FindPeer (region d) storeId = Some mp -> p_Id mp <> 0 ->
  Forall (fun ent => kv_entry cmdOf ent = true) (done ++ left) ->
  Forall (fun ent => user_entry cmdOf ent = true) (done ++ left) ->
  list.last (done ++ left) = Some lastEnt -> is_u64 (e_Index lastEnt) ->
  commitLoop regionStateBytes snapRegion cmdOf rand_Int cfg d done new_WriteBatch = Ret (crashed, b) ->
  db_get (kv crashed) (RegionStateKey (rg_Id (region d))) = db_get (kv d) (RegionStateKey (rg_Id (region d)))
  /\ exists p r',
    createPeer snapRegion rand_Int cfg storeId (ps_raft (storage crashed)) (kv crashed) (region d) = Ret p
    /\ l_applied (r_RaftLog (rn_Raft (pe_RaftGroup p))) = ra_AppliedIndex ap
    /\ HandleCommitEnts regionStateBytes snapRegion cmdOf rand_Int cfg (mkHandler p meta []) (done ++ left) = Ret r'
    /\ AppliedIndex (storage r') = e_Index lastEnt
    /\ (forall k, data_key d k ->
          db_get (kv r') k = after_entries cmdOf (region d) (done ++ left) k (db_get (kv d) k))
    /\ forall d', HandleCommitEnts regionStateBytes snapRegion cmdOf rand_Int cfg d (done ++ left) = Ret d' ->
         forall k, data_key d k -> db_get (kv r') k = db_get (kv d') k.
Proof.
  intros Hcfg Hn Hid Hdisk Hap Hti Hf Hz Hkv Hu Hl Hi Hloop.
  assert (Hrest : forall d', HandleCommitEnts regionStateBytes snapRegion cmdOf rand_Int cfg d (done ++ left) = Ret d' ->
    forall k, data_key d k -> db_get (kv d') k = after_entries cmdOf (region d) (done ++ left) k (db_get (kv d) k)).
  { intros d' Hd. destruct (HandleCommitEnts_spec regionStateBytes snapRegion cmdOf rand_Int cfg d _ lastEnt Hn Hkv Hl Hi)
      as [(x & Hx & [])|[Hx _]]; rewrite Hx in Hd; [by injection Hd as <-|done]. }
  pose proof Hkv as [Hkv1 _]%list.Forall_app. pose proof Hu as [Hu1 _]%list.Forall_app.
  destruct (commitLoop_spec regionStateBytes snapRegion cmdOf rand_Int cfg done d Hkv1) as [(x & Hx & Ha)|[Hx _]];
    [apply Hn|apply Hn|rewrite Hx in Hloop; injection Hloop as -> <-|by rewrite Hx in Hloop].
  assert (Hloc : forall k, head k = Some LocalPrefix -> db_get (kv crashed) k = db_get (kv d) k)
    by (intros k Hk; by rewrite (ap_kv _ _ _ Ha), after_entries_local).
  destruct (local_keys (rg_Id (region d))) as [Hla Hlr]. split; [by apply Hloc|].
  pose proof (on_disk_kv _ _ _ (kv crashed) _ _ _ Hdisk (Hloc _ Hla)) as Hdisk'.
  assert (Hraft : ps_raft (storage crashed) = ps_raft (storage d))
    by (destruct Ha as [_ Hq]; by rewrite (quiet_storage _ _ Hq)).
  destruct (createPeer_ok snapRegion rand_Int cfg Hcfg ti storeId _ _ _ _ _ mp Hdisk' Hf Hz)
    as (p & Hp & _ & Hreg & _ & Hpid & Hnone & Hrun & _ & Hpkv & Hpap & Hlap).
  set (r := mkHandler p meta []). assert (Hnr : node_ok r).
  { split; [|done|]. - change (region r) with (getRegion p). rewrite Hreg. apply Hn.
    - change (storage r) with (peerStorage p). by rewrite Hpap. }
  destruct (HandleCommitEnts_spec regionStateBytes snapRegion cmdOf rand_Int cfg r _ lastEnt Hnr Hkv Hl Hi)
    as [(r' & Hr' & Hea)|[_ Hun]]; [|by apply answerable_none in Hun].
  assert (Hdata : forall k, data_key d k ->
    db_get (kv r') k = after_entries cmdOf (region d) (done ++ left) k (db_get (kv d) k)).
  { intros k Hk. rewrite (ea_data _ _ _ _ _ Hea) by (unfold data_key in *; cbn; by rewrite Hpid, <- Hid).
    change (region r) with (getRegion p). change (kv r) with (ps_kv (peerStorage p)). rewrite Hreg, Hpkv.
    by rewrite (ap_kv _ _ _ Ha), after_entries_replay. }
  exists p, r'. rewrite Hraft. split; [exact Hp|]. split; [rewrite Hlap; lia|]. split; [exact Hr'|].
  split; [|split; [exact Hdata|intros d' Hd k Hk; by rewrite Hdata, (Hrest d' Hd k Hk)]].
  unfold AppliedIndex. by rewrite (ea_state _ _ _ _ _ Hea).
Qed.

(** ** The two halves *)
Definition left_region (r : Region) (e : RegionEpoch) (key : list Z) : Region :=
  r <| rg_RegionEpoch := Some (e <| ep_Version := ep_Version e ⊞ 1 |>) |> <| rg_EndKey := key |>.
Definition right_region (r : Region) (split : SplitRequest) (peers : list Peer) : Region :=
  mkRegion (sp_NewRegionId split) (sp_SplitKey split) (rg_EndKey r) (Some (mkEpoch 1 1)) peers.
(** The new peers are on the stores of the old ones, with the new ids in order. *)
Fixpoint new_peers (ids : list Z) (peers : list Peer) : list Peer :=
  match ids, peers with
  | id :: ids, p :: peers => mkPeer id (p_StoreId p) :: new_peers ids peers
  | _, _ => []
  end.
Lemma splitPeers_spec ids peers : length ids = length peers -> splitPeers ids peers = Ret (new_peers ids peers).
Proof.
  revert peers. induction ids as [|id ids IH]; intros [|p peers] Hl; try done. cbn in *. rewrite IH by lia. done.
Qed.
Lemma new_peers_ids ids peers : length ids = length peers -> map p_Id (new_peers ids peers) = ids.
Proof.
  revert peers. induction ids as [|id ids IH]; intros [|p peers] Hl; try done. cbn in *. rewrite IH by lia. done.
Qed.
Lemma new_peers_find store ids peers mp : length ids = length peers -> Forall (fun id => id <> 0) ids ->
  List.find (fun p => p_StoreId p =? store) peers = Some mp ->
  exists mp', List.find (fun p => p_StoreId p =? store) (new_peers ids peers) = Some mp' /\ p_Id mp' <> 0.
Proof.
  revert peers. induction ids as [|id ids IH]; intros [|p peers] Hl Hids Hf; try done. cbn in *.
  apply list.Forall_cons in Hids as [Hid Hids].
  destruct (p_StoreId p =? store); [by exists (mkPeer id (p_StoreId p))|]. by apply IH; [lia|..].
Qed.

(** The halves cover the region and do not meet. *)
Lemma halves r e split peers key :
  key_lt (rg_StartKey r) (sp_SplitKey split) = true ->
  rg_EndKey r = [] \/ key_lt (sp_SplitKey split) (rg_EndKey r) = true ->
  in_range r key = xorb (in_range (left_region r e (sp_SplitKey split)) key) (in_range (right_region r split peers) key).
Proof.
  intros Hs He. unfold in_range. cbn.
  assert (bool_decide (sp_SplitKey split = []) = false) as ->.
  { apply bool_decide_eq_false. intros Hn. rewrite Hn, key_lt_nil in Hs. done. }
  destruct (key_lt key (sp_SplitKey split)) eqn:Hk; cbn.
  - destruct (key_lt key (rg_StartKey r)); cbn; [done|]. destruct He as [->|He]; [done|].
    by rewrite (key_lt_trans _ _ _ Hk He), orb_true_r.
  - destruct (key_lt key (rg_StartKey r)) eqn:Hks; cbn; [|by destruct (_ || _)].
    by rewrite (key_lt_trans _ _ _ Hks Hs) in Hk.
Qed.

Lemma validSplitKey_spec key start stop :
  validSplitKey key start stop = (bool_decide (start = []) || key_lt start key) && (bool_decide (stop = []) || key_lt key stop).
Proof.
  unfold validSplitKey.
  assert (Hz : forall l : list Z, (len l =? 0) = bool_decide (l = [])).
  { intros l. destruct l; [done|]. rewrite len_cons. pose proof (len_nonneg l). rewrite bool_decide_false by done. lia. }
  by rewrite !Hz; destruct (bool_decide (start = [])), (bool_decide (stop = [])).
Qed.

(** ** The first states of a region *)
Definition first_apply_state : RaftApplyState := mkApplyState 5 (Some (mkTruncatedState 5 5 None)) None.
Definition first_raft_state : RaftLocalState := mkLocalState (Some (mkHardState 5 0 5 None)) 5 0 None.
Lemma writeInitialApplyState_eq b id : writeInitialApplyState b id =
  Ret (wb.add b (ApplyStateKey id) (RaftApplyState_enc first_apply_state)
         (len (ApplyStateKey id) + len (RaftApplyState_enc first_apply_state))).
Proof. done. Qed.
Lemma writeInitialRaftState_eq b id : writeInitialRaftState b id =
  Ret (wb.add b (RaftStateKey id) (RaftLocalState_enc first_raft_state)
         (len (RaftStateKey id) + len (RaftLocalState_enc first_raft_state))).
Proof. done. Qed.

Lemma region_key_inj i j : is_u64 i -> is_u64 j -> RegionStateKey i = RegionStateKey j -> i = j.
Proof.
  intros Hi Hj. rewrite !RegionStateKey_eq. intros Heq.
  apply app_inj_1 in Heq as [_ Heq]; [|done]. apply app_inj_1 in Heq as [Heq _]; [|by rewrite !be64_length].
  pose proof (be64_compare i j Hi Hj) as Hc. rewrite Heq, bytes_compare_refl in Hc. symmetry in Hc. by apply Z.compare_eq in Hc.
Qed.
Lemma region_apply_ne i j : RegionStateKey i <> ApplyStateKey j.
Proof. unfold ApplyStateKey. by rewrite RegionStateKey_eq, makeRegionPrefix_eq. Qed.

(** ** Applying a split *)
Section Split.
Context {D : Type} `{BadgerLaws D}.
Context (regionStateBytes : PeerState -> Region -> list Z) (snapRegion : option (list Z) -> option (option Region)).
Context (rand_Int : nat -> Z) (cfg : Peer.Config).
(** The state of a region has its state and the region in it, so its bytes are not empty. *)
Context (Hbytes : forall st r, regionStateBytes st r <> []).

Record split_ok (d : handler D) (split : SplitRequest) : Prop := {
  so_epoch : is_Some (rg_RegionEpoch (region d));
  so_key : key_lt (rg_StartKey (region d)) (sp_SplitKey split) = true;
  so_end : rg_EndKey (region d) = [] \/ key_lt (sp_SplitKey split) (rg_EndKey (region d)) = true;
  so_ids : length (sp_NewPeerIds split) = length (rg_Peers (region d));
  so_valid : Forall (fun id => id <> 0) (sp_NewPeerIds split);
  so_member : is_Some (FindPeer (region d) (storeID (d_peer d)));
  so_new : is_u64 (sp_NewRegionId split) /\ is_u64 (rg_Id (region d)) /\ sp_NewRegionId split <> rg_Id (region d);
  so_tree : bt_ok regionLess (me_regionRanges (d_storeMeta d));
  (** there is nothing in the place of the new region's log *)
  so_fresh : forall k v, db_get (ps_raft (storage d)) k = Some v ->
    key_lt k (RaftLogKey (sp_NewRegionId split) 0) = false ->
    key_lt k (RaftLogKey (sp_NewRegionId split) (two64 - 1)) = false;
}.

Definition split_batch (l r : Region) : WriteBatch :=
  WriteRegionState regionStateBytes
    (WriteRegionState regionStateBytes
       (wb.add new_WriteBatch (ApplyStateKey (rg_Id r)) (RaftApplyState_enc first_apply_state)
          (len (ApplyStateKey (rg_Id r)) + len (RaftApplyState_enc first_apply_state)))
       r PeerState_Normal) l PeerState_Normal.
Definition raft_batch (id : Z) : WriteBatch :=
  wb.add new_WriteBatch (RaftStateKey id) (RaftLocalState_enc first_raft_state)
    (len (RaftStateKey id) + len (RaftLocalState_enc first_raft_state)).

(** The state after [regionSplit]. *)
Definition split_state (d : handler D) (l r : Region) : handler D :=
  let d := setRegion (set_kv d (wb.WriteToDB (split_batch l r) (kv d))) l in
  set_storage d ((storage d) <| ps_raft := wb.WriteToDB (raft_batch (rg_Id r)) (ps_raft (storage d)) |>).

Lemma regionSplit_eq (d : handler D) split e :
  split_ok d split -> rg_RegionEpoch (region d) = Some e ->
  let l := left_region (region d) e (sp_SplitKey split) in
  let r := right_region (region d) split (new_peers (sp_NewPeerIds split) (rg_Peers (region d))) in
  regionSplit regionStateBytes d (region d) split = Ret (split_state d l r, r).
Proof.
  intros Hok He l r. unfold regionSplit.
  destruct (Z.eqb_spec (len (sp_NewPeerIds split)) 0) as [Hz|_].
  { apply len_0_nil in Hz. destruct (so_member _ _ Hok) as [mp Hmp]. pose proof (so_ids _ _ Hok) as Hl.
    rewrite Hz in Hl. unfold FindPeer in Hmp. by destruct (rg_Peers (region d)). }
  rewrite (splitPeers_spec _ _ (so_ids _ _ Hok)). cbn beta iota. rewrite writeInitialApplyState_eq.
  cbn beta iota. rewrite He. cbn [deref]. cbv zeta. rewrite writeInitialRaftState_eq. reflexivity.
Qed.

(** What the batch leaves in the engine. *)
Lemma split_batch_get (l r : Region) (db : D) k :
  is_u64 (rg_Id l) -> is_u64 (rg_Id r) -> rg_Id r <> rg_Id l ->
  db_get (wb.WriteToDB (split_batch l r) db) k =
    if bool_decide (k = RegionStateKey (rg_Id l)) then Some (regionStateBytes PeerState_Normal l)
    else if bool_decide (k = RegionStateKey (rg_Id r)) then Some (regionStateBytes PeerState_Normal r)
    else if bool_decide (k = ApplyStateKey (rg_Id r)) then Some (RaftApplyState_enc first_apply_state)
    else db_get db k.
Proof.
  intros Hl Hr Hne. rewrite WriteToDB_get. cbn [wb_entries split_batch WriteRegionState wb.add new_WriteBatch app foldl].
  assert (Hop : forall st x, wb.op_of (RegionStateKey (rg_Id x), regionStateBytes st x)
                  = (RegionStateKey (rg_Id x), Some (regionStateBytes st x))).
  { intros st x. unfold wb.op_of. cbn [fst snd]. destruct (Z.eqb_spec (len (regionStateBytes st x)) 0) as [Hz|]; [|done].
    apply len_0_nil in Hz. by apply Hbytes in Hz. }
  unfold after_entry. rewrite !Hop. unfold after_op. cbn [fst snd].
  repeat case_bool_decide; subst; try done; congruence.
Qed.
Lemma raft_batch_get id (db : D) k :
  db_get (wb.WriteToDB (raft_batch id) db) k =
    if bool_decide (k = RaftStateKey id) then Some (RaftLocalState_enc first_raft_state) else db_get db k.
Proof.
  rewrite WriteToDB_get. cbn [wb_entries raft_batch wb.add new_WriteBatch app foldl]. unfold after_entry, after_op. cbn [fst].
  repeat case_bool_decide; subst; done.
Qed.

(** The new region can be started from what was written. *)
Lemma split_on_disk (d : handler D) split e :
  split_ok d split -> rg_RegionEpoch (region d) = Some e ->
  let l := left_region (region d) e (sp_SplitKey split) in
  let r := right_region (region d) split (new_peers (sp_NewPeerIds split) (rg_Peers (region d))) in
  on_disk 5 (ps_raft (storage (split_state d l r))) (kv (split_state d l r)) r first_raft_state first_apply_state.
Proof.
  intros Hok He l r. destruct (so_new _ _ Hok) as (Hn & Ho & Hne).
  set (raft := ps_raft _). set (kv' := kv _).
  assert (Hraft : forall k, db_get raft k = if bool_decide (k = RaftStateKey (rg_Id r))
             then Some (RaftLocalState_enc first_raft_state) else db_get (ps_raft (storage d)) k)
    by (intros k; exact (raft_batch_get (rg_Id r) _ k)).
  assert (Hkv : forall k, db_get kv' k = _) by (intros k; exact (split_batch_get l r (kv d) k Ho Hn Hne)).
  split.
  - unfold GetRaftLocalState, GetMeta. rewrite Hraft, bool_decide_true by done. by vm_compute.
  - unfold GetApplyState, GetMeta. rewrite Hkv.
    rewrite bool_decide_false by (intros Hx; by apply (region_apply_ne _ _ (eq_sym Hx))).
    rewrite bool_decide_false by (intros Hx; by apply (region_apply_ne _ _ (eq_sym Hx))).
    rewrite bool_decide_true by done. by vm_compute.
  - split; cbn -[RaftLogKey RaftStateKey]; try done.
    + by eexists.
    + intros i Hi. lia.
    + intros k v Hk Hlo Hhi. change (rg_Id r) with (sp_NewRegionId split) in *. rewrite Hraft in Hk. case_bool_decide as Hkey.
      * subst k. by rewrite (state_key_after _ Hn) in Hhi.
      * by rewrite (so_fresh _ _ Hok _ _ Hk Hlo) in Hhi.
    + by eexists.
  - by eexists.
  - done.
Qed.

(** What a split does: [p] is the peer of the new region. *)
Record split_done (d : handler D) (split : SplitRequest) (l r : Region) (p : peer D) (d' : handler D) : Prop := {
  sd_left : region d' = l;
  sd_peer : node_wf snapRegion p /\ getRegion p = r /\ pe_regionId p = rg_Id r;
  sd_regions : me_regions (d_storeMeta d') = <[rg_Id r := r]> (<[rg_Id l := l]> (me_regions (d_storeMeta d)));
  sd_ranges : bt_ok regionLess (me_regionRanges (d_storeMeta d'))
    /\ contents (me_regionRanges (d_storeMeta d')) = put regionLess r (contents (me_regionRanges (d_storeMeta d)));
  sd_out : d_out d' = d_out d ++ [ERegister p; EStart (rg_Id r)];
  sd_saved : db_get (kv d') (RegionStateKey (rg_Id l)) = Some (regionStateBytes PeerState_Normal l)
    /\ db_get (kv d') (RegionStateKey (rg_Id r)) = Some (regionStateBytes PeerState_Normal r);
  sd_data : forall k, k <> RegionStateKey (rg_Id l) -> k <> RegionStateKey (rg_Id r) -> k <> ApplyStateKey (rg_Id r) ->
    db_get (kv d') k = db_get (kv d) k;
}.

Lemma applySplit_spec (d : handler D) split e b :
  cfg_ok cfg -> split_ok d split -> rg_RegionEpoch (region d) = Some e ->
  let l := left_region (region d) e (sp_SplitKey split) in
  let r := right_region (region d) split (new_peers (sp_NewPeerIds split) (rg_Peers (region d))) in
  exists p d', applySplit regionStateBytes snapRegion rand_Int cfg d split b = Ret (d', b) /\ split_done d split l r p d'.
Proof.
  intros Hcfg Hok He l r. unfold applySplit. rewrite validSplitKey_spec, (so_key _ _ Hok), orb_true_r.
  assert ((bool_decide (rg_EndKey (region d) = []) || key_lt (sp_SplitKey split) (rg_EndKey (region d))) = true) as ->.
  { destruct (so_end _ _ Hok) as [-> | ->]; [done|by rewrite orb_true_r]. }
  assert ((len (rg_Peers (region d)) =? len (sp_NewPeerIds split)) = true) as ->.
  { unfold len. rewrite (so_ids _ _ Hok). lia. }
  cbn [negb andb]. rewrite (regionSplit_eq d split e Hok He). cbn beta iota. fold l. fold r.
  set (d1 := split_state d l r).
  destruct (so_member _ _ Hok) as [mp Hmp]. unfold FindPeer in Hmp.
  destruct (new_peers_find _ _ _ _ (so_ids _ _ Hok) (so_valid _ _ Hok) Hmp) as (mp' & Hmp' & Hid).
  destruct (createPeer_ok snapRegion rand_Int cfg Hcfg 5 (storeID (d_peer d)) (ps_raft (storage d1)) (kv d1) r _ _ mp'
    (split_on_disk d split e Hok He) Hmp' Hid) as (p & Hp & Hw & Hpr & _ & Hpid & _ & _).
  change (p_StoreId (pe_Meta (d_peer d1))) with (storeID (d_peer d)). rewrite Hp. cbn [must].
  destruct (ReplaceOrInsert_spec (E:=error) regionLess (me_regionRanges (d_storeMeta d1)) r (so_tree _ _ Hok))
    as (tree & -> & Hbt & Hcont & _).
  cbn beta iota zeta. assert (Hsame : SetPeerRegion p r = p) by (rewrite <- Hpr; apply SetPeerRegion_same).
  rewrite Hsame. eexists p, _. split; [reflexivity|].
  destruct (so_new _ _ Hok) as (Hn & Ho & Hne).
  assert (Hkv : forall k, db_get (kv d1) k = _) by (intros k; exact (split_batch_get l r (kv d) k Ho Hn Hne)).
  split; try done.
  - cbn. by rewrite <- app_assoc.
  - change (kv (emit _ _)) with (kv d1). rewrite !Hkv, bool_decide_true by done. split; [done|].
    rewrite bool_decide_false by (intros Heq; by apply region_key_inj in Heq). by rewrite bool_decide_true.
  - intros k H1 H2 H3. change (kv (emit _ _)) with (kv d1). by rewrite Hkv, !bool_decide_false.
Qed.
End Split.

(** C8. Applying a split with a key inside the region always succeeds and cuts the region in
    two: the old region ends at the split key with its version increased, the new one, with
    the new ids, goes on from there to the old end, and every key of the old region is in
    exactly one of them.  Both are saved, no data is touched, and the peer of the new
    region, started from what was saved, is well formed and handed to the router. *)
Theorem split_partitions {D} `{BadgerLaws D} regionStateBytes snapRegion (rand_Int : nat -> Z) (cfg : Peer.Config)
    (d : handler D) (split : SplitRequest) (e : RegionEpoch) (b : WriteBatch) :
  (forall st r, regionStateBytes st r <> []) -> cfg_ok cfg -> split_ok d split ->
  rg_RegionEpoch (region d) = Some e ->
  let l := left_region (region d) e (sp_SplitKey split) in
  let r := right_region (region d) split (new_peers (sp_NewPeerIds split) (rg_Peers (region d))) in
  (exists p d', applySplit regionStateBytes snapRegion rand_Int cfg d split b = Ret (d', b)
     /\ split_done regionStateBytes snapRegion d split l r p d')
  /\ forall key, in_range (region d) key = xorb (in_range l key) (in_range r key).
Proof.
  intros Hb Hcfg Hok He l r. split.
  - by apply applySplit_spec.
  - intros key. exact (halves (region d) e split _ key (so_key _ _ Hok) (so_end _ _ Hok)).
Qed.
