(* ===== verification/PeerConf.v ===== *)
(** * PeerConf: changes of membership

    A peer keeps the members of its group twice: in the region, which is saved, and in the
    Raft state.  Applying a change of membership keeps the two the same, unless it destroys
    the peer, which was removed, or stops the process, when a store would get two peers. *)

From stdpp Require Import base option list strings gmap tactics.
From S2P Require Import Prelude.
From S2P Require Import Eraftpb.
From S2P Require Import EraftpbWire.
From S2P Require Import RaftServerpb.
From S2P Require Import RaftStorage.
From S2P Require Import RaftLog.
From S2P Require Import Raft.
From S2P Require Import RaftInv.
From S2P Require Import RaftConf.
From S2P Require Import RawNode.
From S2P Require Import Meta.
From S2P Require Import BTree.
From S2P Require Import BTreeProps.
From S2P Require Import Metapb.
From S2P Require Import Engine.
From S2P Require Import PeerStorage.
From S2P Require Import PeerStorageProps.
From S2P Require Import RaftCmdpb.
From S2P Require Import RaftstoreUtil.
From S2P Require Import Peer.
From S2P Require Import PeerMsg.
From S2P Require Import PeerProps.
From S2P Require Import PeerSplit.

Definition members (r : Region) : list Z := map p_Id (rg_Peers r).

(** Another peer on the store, or the peer on another store. *)
Definition clashes (pr q : Peer) : bool := xorb (p_Id q =? p_Id pr) (p_StoreId q =? p_StoreId pr).

(** ** Changes of a region *)
Lemma addPeerLoop_spec {E} peers pr :
  base.NoDup (map p_Id peers) -> base.NoDup (map p_StoreId peers) ->
  addPeerLoop (E:=E) peers pr
  = if existsb (clashes pr) peers then Panic else Ret (negb (bool_decide (p_Id pr ∈ map p_Id peers))).
Proof.
  induction peers as [|q peers IH]; intros Hi Hs; [done|]. cbn [addPeerLoop map existsb] in *.
  apply list.NoDup_cons in Hi as [Hqi Hi]. apply list.NoDup_cons in Hs as [Hqs Hs].
  unfold clashes at 1. destruct (Z.eqb_spec (p_StoreId q) (p_StoreId pr)) as [Hst|Hst];
    destruct (Z.eqb_spec (p_Id q) (p_Id pr)) as [Hid|Hid]; cbn; [| done..|].
  - rewrite bool_decide_true by (rewrite Hid; by left). destruct (existsb (clashes pr) peers) eqn:Hex; [|done].
    apply existsb_exists in Hex as (x & Hx & Hc). apply list_elem_of_In in Hx. unfold clashes in Hc.
    destruct (Z.eqb_spec (p_Id x) (p_Id pr)) as [Hxi|].
    + destruct Hqi. rewrite Hid, <- Hxi. by apply list_elem_of_fmap_2.
    + destruct (Z.eqb_spec (p_StoreId x) (p_StoreId pr)) as [Hxs|]; [|done].
      destruct Hqs. rewrite Hst, <- Hxs. by apply list_elem_of_fmap_2.
  - rewrite IH by done. destruct (existsb _ _); [done|]. do 2 f_equal. apply bool_decide_ext.
    rewrite elem_of_cons. split; [by right|]. intros [Hx|]; [congruence|done].
Qed.
(** A peer that clashes with none and is not there is on a store of its own. *)
Lemma fresh_store peers pr :
  existsb (clashes pr) peers = false -> p_Id pr ∉ map p_Id peers -> p_StoreId pr ∉ map p_StoreId peers.
Proof.
  intros Hc Hi Hs. apply list_elem_of_fmap in Hs as (q & Hq & Hin).
  assert (Hq' : clashes pr q = false).
  { destruct (clashes pr q) eqn:Hx; [|done]. rewrite <- Hc. symmetry. apply existsb_exists. exists q.
    by rewrite <- list_elem_of_In. }
  unfold clashes in Hq'. rewrite Hq, Z.eqb_refl in Hq'. destruct (Z.eqb_spec (p_Id q) (p_Id pr)) as [Heq|]; [|done].
  apply Hi. rewrite <- Heq. by apply list_elem_of_fmap_2.
Qed.
Lemma removeId_spec peers id :
  base.NoDup (map p_Id peers) ->
  match removeId peers id with
  | Some l => id ∈ map p_Id peers /\ map p_Id l = filter (fun x => x <> id) (map p_Id peers) /\ l `sublist_of` peers
  | None => id ∉ map p_Id peers
  end.
Proof.
  induction peers as [|p peers IH]; intros Hnd; cbn.
  - by intros Hx%elem_of_nil.
  - cbn in Hnd. apply list.NoDup_cons in Hnd as [Hno Hnd]. destruct (Z.eqb_spec id (p_Id p)) as [->|Hne].
    + split; [by left|]. rewrite decide_False by (intros Hx; by apply Hx). rewrite filter_absent by done.
      split; [done|]. by constructor.
    + specialize (IH Hnd). destruct (removeId peers id) as [l|]; cbn.
      * destruct IH as (Hin & Hl & Hsub). split; [by right|]. rewrite decide_True by done. rewrite Hl. split; [done|].
        by constructor.
      * intros [Hx|Hx]%elem_of_cons; [congruence|done].
Qed.

(** ** What a removal keeps: the id, and what holds of the storage and its snapshots *)
Section Kept.
Context {S : Type} `{Storage S} (P : S -> Prop) (HP : forall s, P s -> P (fst (st_Snapshot s))) (i : Z).
Implicit Types (r : Raft S).
Definition kept r : Prop := P (l_storage (r_RaftLog r)) /\ r_id r = i.

Lemma sendSnapshot_kept r to : kept r -> wlp (sendSnapshot r to) kept.
Proof.
  intros [Hp Hi]. unfold sendSnapshot. pose proof (HP _ Hp) as Hs.
  destruct (st_Snapshot _) as [st [snap| | |]]; try done.
  apply wlp_bind, wlp_deref. intros md _. unfold updProgress. apply wlp_bind, wlp_bind, wlp_deref. intros p _. done.
Qed.
Lemma sendAppend_kept r to : kept r -> wlp (sendAppend r to) (fun p => kept p.1).
Proof.
  intros Hk. unfold sendAppend. apply wlp_bind, wlp_deref. intros p _. destruct (needSnapshot _ _).
  - apply wlp_bind. eapply wlp_mono; [by apply sendSnapshot_kept|done].
  - destruct (_ >? _); [done|]. apply wlp_bind, wlp_true. intros es _. apply wlp_bind, wlp_true. intros t _. exact Hk.
Qed.
Lemma broadCastAE_kept r : kept r -> wlp (broadCastAE r) kept.
Proof.
  intros Hk. unfold broadCastAE. apply (wlp_foldM _ kept); [done|]. intros r' p Hk' _. destruct (p =? r_id r'); [done|].
  apply wlp_bind. eapply wlp_mono; [by apply sendAppend_kept|]. by intros [r'' b].
Qed.
Lemma commitLoop_kept fuel : forall r idx b, kept r -> wlp (Raft.commitLoop r fuel idx b) (fun p => kept p.1).
Proof.
  induction fuel as [|fuel IH]; intros r idx b Hk; [done|]. cbn [Raft.commitLoop]. destruct (_ <=? _); [|done].
  apply wlp_bind, wlp_true. intros n _. apply wlp_bind, wlp_true. intros t _.
  destruct (_ && _); apply IH; exact Hk.
Qed.
Lemma removeNode_kept r id : kept r -> wlp (removeNode r id) kept.
Proof.
  intros Hk. unfold removeNode. destruct (negb _); [done|]. cbv zeta.
  apply wlp_bind. unfold removePeer. apply wlp_bind, wlp_true. intros ps _. apply wlp_ret.
  apply wlp_bind. destruct (decide _); [|exact Hk]. apply wlp_bind.
  eapply wlp_mono; [apply commitLoop_kept; exact Hk|]. intros [r' b] Hk'. cbn [fst] in Hk'.
  destruct b; [|exact Hk']. eapply wlp_mono; [by apply broadCastAE_kept|]. done.
Qed.
End Kept.

(** A storage with a given region and data. *)
Definition storage_is {D} (r : Region) (db : D) (ps : PeerStorage D) : Prop := ps_region ps = r /\ ps_kv ps = db.
Lemma GetSnapshot_region {D} `{Badger D} snapRegion r db (ps : PeerStorage D) :
  storage_is r db ps -> storage_is r db (fst (GetSnapshot snapRegion ps)).
Proof.
  intros Hr. assert (Hreq : forall q : PeerStorage D, storage_is r db q -> storage_is r db (fst (requestSnapshot q))).
  { intros q Hq. unfold requestSnapshot. by destruct (_ >=? 5). }
  unfold GetSnapshot. destruct (ps_snapState ps); [by apply Hreq| |by apply Hreq].
  destruct (ps_receiver ps) as [[snap|]|]; [|by apply Hreq|done].
  destruct (s_Metadata snap); [|by apply Hreq]. destruct (validateSnap _ _ _) as [[|]| | |]; by (done || apply Hreq).
Qed.
Lemma containsPeer_decide {S} (r : Raft S) id : containsPeer r id = bool_decide (id ∈ r_peers r).
Proof.
  unfold containsPeer. apply eq_bool_prop_intro. rewrite bool_decide_spec. split.
  - intros Hx. apply Is_true_true, existsb_exists in Hx as (x & Hx & Heq). apply list_elem_of_In in Hx.
    by replace id with x by lia.
  - intros Hin. apply Is_true_true, existsb_exists. exists id. split; [by apply list_elem_of_In|apply Z.eqb_refl].
Qed.

Section Conf.
Context {D : Type} `{BadgerLaws D}.
Context (regionStateBytes : PeerState -> Region -> list Z) (snapRegion : option (list Z) -> option (option Region)).
Abbreviation handler := (handler D).
Abbreviation raft d := (rn_Raft (group d)).

(** The region and the Raft state have the same members. *)
Record in_sync (d : handler) : Prop := {
  is_wf : node_wf snapRegion (d_peer d);
  is_members : members (region d) = r_peers (raft d);
  is_nodup : base.NoDup (members (region d));
  is_stores : base.NoDup (map p_StoreId (rg_Peers (region d)));
  is_self : r_id (raft d) ∈ members (region d);
  is_id : rg_Id (region d) = pe_regionId (d_peer d);
}.

(** The peer of a command that adds one. *)
Definition added_peer (msg : RaftCmdRequest) : option Peer :=
  admin ← rq_AdminRequest msg; change ← ad_ChangePeer admin; cp_Peer change.
(** A change of a known type; the peer to add is the one of the command. *)
Definition change_wf (cc : ConfChange) (msg : RaftCmdRequest) : Prop :=
  match cc_ChangeType cc with
  | ConfChangeType_AddNode => p_Id <$> added_peer msg = Some (cc_NodeId cc)
  | ConfChangeType_RemoveNode => True
  | _ => False
  end.
(** The peer to add would be the second of its store, or is on another store. *)
Definition store_clash (d : handler) (cc : ConfChange) (msg : RaftCmdRequest) : bool :=
  match cc_ChangeType cc, added_peer msg with
  | ConfChangeType_AddNode, Some pr => existsb (clashes pr) (rg_Peers (region d))
  | _, _ => false
  end.
Definition removes_self (d : handler) (cc : ConfChange) : bool :=
  match cc_ChangeType cc with
  | ConfChangeType_RemoveNode => cc_NodeId cc =? r_id (raft d)
  | _ => false
  end.
(** A change that can be applied. *)
Definition change_ok (d : handler) (cc : ConfChange) (msg : RaftCmdRequest) : Prop :=
  change_wf cc msg /\ store_clash d cc msg = false /\ removes_self d cc = false.
Definition new_members (cc : ConfChange) (l : list Z) : list Z :=
  match cc_ChangeType cc with
  | ConfChangeType_RemoveNode => filter (fun x => x <> cc_NodeId cc) l
  | _ => if bool_decide (cc_NodeId cc ∈ l) then l else l ++ [cc_NodeId cc]
  end.

(** ** The Raft state *)
Lemma storage_region_ok ti (ps : PeerStorage D) (r : Region) (db : D) :
  ps_ok ti ps -> isInitialized ps = true -> rg_Id r = rg_Id (ps_region ps) ->
  ps_ok ti (ps <| ps_kv := db |> <| ps_region := r |>).
Proof.
  intros [H1 H2 H3 H4 H5 H6 H7 (hs & Hhs & Hc & He)] Hi Hr. split; unfold stored in *; cbn; rewrite ?Hr; try done.
  exists hs. split; [done|]. split; [done|]. intros Hx. rewrite (He Hx) in Hi. done.
Qed.
(** A new region with the same id leaves a well-formed peer well formed. *)
Lemma node_wf_region (d : handler) (r : Region) (db : D) :
  node_wf snapRegion (d_peer d) -> rg_Peers (region d) <> [] -> rg_Id r = rg_Id (region d) ->
  node_wf snapRegion (d_peer (setRegion (set_kv d db) r)).
Proof.
  intros (Hl & Hst & Ht & Hid & Hps) Hne Hr. split_and!; try done.
  - destruct Hl as [[Ha Hb Hc] H2 H3 H4]. split; [split; [exact Ha|exact Hb|exact Hc]|exact H2|exact H3|exact H4].
  - cbn in Hst |- *. unfold ti_of in *. cbn. apply storage_region_ok; [done| |done].
    unfold isInitialized. change (ps_region _) with (region d). destruct (rg_Peers (region d)); [done|].
    rewrite len_cons. pose proof (len_nonneg l). lia.
Qed.

(** Applying the change to the Raft state. *)
Lemma apply_conf (d : handler) cc :
  node_wf snapRegion (d_peer d) -> base.NoDup (r_peers (raft d)) -> cc_NodeId cc <> 0 ->
  match cc_ChangeType cc with
  | ConfChangeType_AddNode => True
  | ConfChangeType_RemoveNode => cc_NodeId cc <> r_id (raft d)
  | _ => False
  end ->
  exists rn cs, ApplyConfChange (H:=Storage_PeerStorage snapRegion) (group d) cc = Ret (rn, cs)
    /\ @raft_wf _ _ (StorageLaws_PeerStorage snapRegion) (rn_Raft rn)
    /\ r_peers (rn_Raft rn) = new_members cc (r_peers (raft d)) /\ r_id (rn_Raft rn) = r_id (raft d)
    /\ storage_is (region d) (kv d) (l_storage (r_RaftLog (rn_Raft rn))).
Proof.
  intros Hw Hnd Hz Ht. unfold ApplyConfChange, new_members. change None_id with 0.
  destruct (Z.eqb_spec (cc_NodeId cc) 0); [done|]. destruct (cc_ChangeType cc); [| |done].
  - destruct (addNode_safe (raft d) (cc_NodeId cc) Hw) as [Hw' _].
    eexists _, _. split; [reflexivity|]. split; [exact Hw'|]. cbn [rn_Raft set_rn_Raft].
    unfold addNode. rewrite containsPeer_decide. by case_bool_decide.
  - destruct (removeNode_safe (raft d) (cc_NodeId cc) Hw Hnd Ht) as (r' & Hr' & Hrm).
    pose proof (@removeNode_kept _ (Storage_PeerStorage snapRegion) (storage_is (region d) (kv d))
      (GetSnapshot_region snapRegion (region d) (kv d)) (r_id (raft d)) (raft d) (cc_NodeId cc)
      (conj (conj eq_refl eq_refl) eq_refl)) as Hk.
    rewrite Hr' in Hk. destruct Hk as [Hk Hi]. rewrite Hr'. eexists _, _. split; [reflexivity|].
    split; [exact (rm_wf _ _ _ Hrm)|]. split; [exact (rm_peers _ _ _ Hrm)|]. split; [exact Hi|exact Hk].
Qed.

(** A region whose state was saved, and the group with it. *)
Record region_set (d : handler) (cc : ConfChange) (r : Region) (d1 : handler) : Prop := {
  rs_id : rg_Id r = rg_Id (region d);
  rs_members : members r = new_members cc (members (region d));
  rs_stores : base.NoDup (map p_StoreId (rg_Peers r));
  rs_epoch : forall e, rg_RegionEpoch (region d) = Some e -> rg_RegionEpoch r =
    if bool_decide (members r = members (region d)) then Some e else Some (e <| ep_ConfVer := ep_ConfVer e ⊞ 1 |>);
  rs_group : exists db, group (setRegion d1 r) = group (setRegion (set_kv d db) r)
    /\ (members r <> members (region d) ->
        db_get db (RegionStateKey (pe_regionId (d_peer d))) = Some (regionStateBytes PeerState_Normal r));
  rs_regionId : pe_regionId (d_peer d1) = pe_regionId (d_peer d);
}.
Lemma saveRegion_get (d : handler) r :
  (forall st r, regionStateBytes st r <> []) ->
  db_get (kv (saveRegion regionStateBytes d (pe_regionId (d_peer d)) r)) (RegionStateKey (pe_regionId (d_peer d)))
  = Some (regionStateBytes PeerState_Normal r).
Proof.
  intros Hb. unfold saveRegion. change (kv (set_kv _ ?x)) with x. rewrite WriteToDB_get.
  cbn [wb_entries wb.add new_WriteBatch app].
  exact (foldl_last _ _ [] _ _ eq_refl (Hb PeerState_Normal r)).
Qed.

Lemma changePeer_spec (d : handler) cc msg :
  (forall st r, regionStateBytes st r <> []) -> in_sync d -> is_Some (rg_RegionEpoch (region d)) -> change_ok d cc msg ->
  (changePeer regionStateBytes d cc msg = Ret (d, region d, Unchanged)
     /\ new_members cc (members (region d)) = members (region d))
  \/ exists d1 r, changePeer regionStateBytes d cc msg = Ret (d1, r, Changed) /\ region_set d cc r d1.
Proof.
  intros Hb [Hw Hm Hnd Hns Hself Hid] [e He] (Hc & Hcl & Hrs).
  unfold changePeer, change_wf, store_clash, removes_self, added_peer, new_members in *.
  assert (Hne : forall l : list Z, l ++ [cc_NodeId cc] <> l).
  { intros l Hl. apply (f_equal length) in Hl. rewrite length_app in Hl. cbn in Hl. lia. }
  destruct (cc_ChangeType cc) eqn:Hty; [| |done].
  - destruct (rq_AdminRequest msg) as [admin|]; [|done]. cbn [deref]. cbn in Hc, Hcl.
    destruct (ad_ChangePeer admin) as [change|]; [|done]. cbn [deref].
    cbn in Hc, Hcl. destruct (cp_Peer change) as [pr|]; [|done]. injection Hc as Hpid. cbn [deref].
    unfold AddPeer. rewrite (addPeerLoop_spec _ _ Hnd Hns), Hcl. cbn beta iota.
    change (map p_Id (rg_Peers (region d))) with (members (region d)). rewrite Hpid.
    destruct (bool_decide (cc_NodeId cc ∈ members (region d))) eqn:Hin; cbn [negb]; [by left|]. right.
    unfold bumpConfVer. change (rg_RegionEpoch (_ <| rg_Peers := _ |>)) with (rg_RegionEpoch (region d)).
    rewrite He. cbn [deref]. cbn beta iota zeta. set (r := _ <| rg_RegionEpoch := _ |>).
    change (rg_Id r) with (rg_Id (region d)). rewrite Hid.
    assert (Hmr : members r = members (region d) ++ [cc_NodeId cc]).
    { unfold members. cbn. by rewrite map_app, <- Hpid. }
    eexists _, r. split; [reflexivity|]. split; [reflexivity| | | | |reflexivity].
    + unfold new_members. rewrite Hty, Hin. exact Hmr.
    + cbn. rewrite map_app. apply bool_decide_eq_false in Hin. rewrite <- Hpid in Hin.
      pose proof (fresh_store _ _ Hcl Hin) as Hf. apply list.NoDup_app. split_and!; [done|set_solver|apply list.NoDup_singleton].
    + intros e' He'. rewrite He in He'. injection He' as <-. rewrite Hmr, bool_decide_false by apply Hne. reflexivity.
    + exists (kv (saveRegion regionStateBytes d (pe_regionId (d_peer d)) r)).
      split; [reflexivity|]. intros _. by apply saveRegion_get.
  - unfold RemovePeerId. pose proof (removeId_spec (rg_Peers (region d)) (cc_NodeId cc) Hnd) as Hr.
    destruct (removeId (rg_Peers (region d)) (cc_NodeId cc)) as [l|]; right.
    + destruct Hr as (Hin & Hl & Hsub). rewrite Hrs.
      unfold bumpConfVer. change (rg_RegionEpoch (_ <| rg_Peers := _ |>)) with (rg_RegionEpoch (region d)).
      rewrite He. cbn [deref]. cbn beta iota zeta. set (r := _ <| rg_RegionEpoch := _ |>).
      eexists _, r. split; [reflexivity|].
      assert (Hmne : members r <> members (region d)).
      { change (map p_Id l <> members (region d)). rewrite Hl. intros Heq.
        change (cc_NodeId cc ∈ members (region d)) in Hin. rewrite <- Heq in Hin. apply list_elem_of_filter in Hin as [Hx _]. done. }
      split; [reflexivity| | | | |reflexivity].
      * unfold new_members. rewrite Hty. exact Hl.
      * apply (sublist_NoDup _ _ Hns). clear -Hsub. induction Hsub; cbn; by constructor.
      * intros e' He'. rewrite He in He'. injection He' as <-. rewrite bool_decide_false by exact Hmne. reflexivity.
      * exists (kv (saveRegion regionStateBytes d (pe_regionId (d_peer d)) r)).
      split; [reflexivity|]. intros _. by apply saveRegion_get.
    + exists d, (region d). split; [reflexivity|]. split; [reflexivity| |done| | |reflexivity].
      * unfold new_members. rewrite Hty. symmetry. by apply filter_absent.
      * intros e' He'. by rewrite bool_decide_true.
      * exists (kv d). by rewrite set_kv_same.
Qed.

Lemma new_members_ok cc (l : list Z) self :
  base.NoDup l -> self ∈ l -> (cc_ChangeType cc = ConfChangeType_RemoveNode -> cc_NodeId cc <> self) ->
  base.NoDup (new_members cc l) /\ self ∈ new_members cc l.
Proof.
  intros Hnd Hin Hs. unfold new_members. destruct (cc_ChangeType cc).
  2: { split; [by apply list.NoDup_filter|]. apply list_elem_of_filter. split; [|done]. intros ->. by apply Hs. }
  all: case_bool_decide as Hc; [done|]; split; [|set_solver].
  all: apply list.NoDup_app; split_and!; [done|set_solver|apply list.NoDup_singleton].
Qed.

(** The change of the Raft state that follows a change of the region. *)
Lemma sync_after (d d1 : handler) cc r :
  in_sync d -> cc_NodeId cc <> 0 ->
  match cc_ChangeType cc with
  | ConfChangeType_AddNode => True
  | ConfChangeType_RemoveNode => cc_NodeId cc <> r_id (raft d)
  | _ => False
  end ->
  region_set d cc r d1 ->
  exists rn cs, ApplyConfChange (H:=Storage_PeerStorage snapRegion) (group (setRegion d1 r)) cc = Ret (rn, cs)
    /\ in_sync (set_group (setRegion d1 r) rn) /\ region (set_group (setRegion d1 r) rn) = r
    /\ (members r <> members (region d) ->
        db_get (kv (set_group (setRegion d1 r) rn)) (RegionStateKey (pe_regionId (d_peer d)))
        = Some (regionStateBytes PeerState_Normal r)).
Proof.
  intros [Hw Hm Hnd _ Hself Hid] Hz Hty [Hrid Hrm Hrst _ (db & Hg & Hsaved) Hrr].
  set (d2 := setRegion d1 r) in *.
  assert (Hne : rg_Peers (region d) <> []).
  { intros Hn. unfold members in Hself. rewrite Hn in Hself. by apply elem_of_nil in Hself. }
  assert (Hw2 : node_wf snapRegion (d_peer d2)).
  { unfold node_wf. change (pe_RaftGroup (d_peer d2)) with (group d2). rewrite Hg.
    exact (node_wf_region d r db Hw Hne Hrid). }
  assert (Hp2 : r_peers (raft d2) = r_peers (raft d) /\ r_id (raft d2) = r_id (raft d)) by (by rewrite Hg).
  destruct Hp2 as [Hp2 Hi2].
  destruct (apply_conf d2 cc Hw2) as (rn & cs & Ha & Hwf & Hps & Hi & [Hreg Hkv]).
  - by rewrite Hp2, <- Hm.
  - done.
  - by rewrite Hi2.
  - exists rn, cs. split; [exact Ha|].
    destruct (new_members_ok cc (members (region d)) (r_id (raft d)) Hnd Hself) as [Hnd' Hself'].
    { intros Hr. by rewrite Hr in Hty. }
    assert (Hr : region (set_group d2 rn) = r) by exact Hreg.
    split; [|split; [exact Hr|]].
    + split; rewrite ?Hr.
      * exact Hwf.
      * rewrite Hrm, Hm, <- Hp2. symmetry. exact Hps.
      * by rewrite Hrm.
      * exact Hrst.
      * change (raft (set_group d2 rn)) with (rn_Raft rn). by rewrite Hi, Hi2, Hrm.
      * change (pe_regionId (d_peer (set_group d2 rn))) with (pe_regionId (d_peer d1)). congruence.
    + intros Hch. change (kv (set_group d2 rn)) with (ps_kv (l_storage (r_RaftLog (rn_Raft rn)))). rewrite Hkv.
      change (kv d2) with (ps_kv (l_storage (r_RaftLog (rn_Raft (group d2))))). rewrite Hg. by apply Hsaved.
Qed.

(** ** A peer that is removed *)
Lemma ClearMeta_ok ti (ps : PeerStorage D) b rb :
  ps_ok ti ps -> exists rb', clearMeta ps b rb
    = Ret (wb.DeleteMeta (wb.DeleteMeta b (RegionStateKey (rg_Id (ps_region ps)))) (ApplyStateKey (rg_Id (ps_region ps))), rb').
Proof.
  intros Hok. unfold clearMeta, ClearMeta. cbv zeta. set (id := rg_Id (ps_region ps)). set (last := rl_LastIndex _).
  pose proof (po_room _ _ Hok) as Hroom. pose proof (po_range _ _ Hok) as Hrange.
  fold last in Hroom, Hrange. assert (Hl : last ⊞ 1 = last + 1) by (apply u64_add_small; unfold is_u64; lia).
  destruct (db_from (ps_raft ps) (RaftLogKey id 0)) as [|[key val] rest] eqn:Hf; [by eexists|].
  change (Compare key ?x <? 0) with (key_lt key x). rewrite Hl.
  destruct (key_lt key (RaftLogKey id (last + 1))) eqn:Hlt; [|by eexists].
  assert (Hin : (key, val) ∈ db_from (ps_raft ps) (RaftLogKey id 0)) by (rewrite Hf; by left).
  apply db_from_elem in Hin as [Hg Hge].
  destruct (po_keys _ _ Hok key val Hg Hge) as (i & Hi & ->).
  - destruct (decide (last + 1 = two64 - 1)) as [<-|Hne]; [done|]. eapply key_lt_trans; [exact Hlt|].
    unfold key_lt, Compare. rewrite RaftLogKey_compare, Z.compare_refl by (apply (po_region _ _ Hok) || (unfold is_u64; lia)).
    by destruct (Z.compare_spec (last + 1) (two64 - 1)); [lia| |lia].
  - rewrite RaftLogIndex_key by done. by eexists.
Qed.

(** What is left of a destroyed peer: it is stopped, its region is a tombstone on disk and
    its apply state is gone, and the store does not know it any more. *)
Record destroyed (d : handler) (r : Region) (d' : handler) : Prop := {
  ds_stopped : pe_stopped (d_peer d') = true;
  ds_proposals : pe_proposals (d_peer d') = [];
  ds_state : db_get (kv d') (RegionStateKey (rg_Id r)) = Some (regionStateBytes PeerState_Tombstone r);
  ds_apply : db_get (kv d') (ApplyStateKey (rg_Id r)) = None;
  ds_region : me_regions (d_storeMeta d') = delete (rg_Id r) (me_regions (d_storeMeta d));
}.
(** The store has the region in its index by key. *)
Definition indexed (d : handler) : Prop :=
  bt_ok regionLess (me_regionRanges (d_storeMeta d))
  /\ is_Some (find_same regionLess (region d) (contents (me_regionRanges (d_storeMeta d)))).
Lemma quiet_dones (l : list proposal) : forall (d : handler) f, quiet d (foldl (fun d p => Done d (Some (pp_cb p)) (f d)) d l).
Proof.
  induction l as [|p l IH]; intros d f; [done|]. cbn [foldl].
  etrans; [apply quiet_Done|apply IH].
Qed.
Lemma Destroy_spec ti (d : handler) :
  (forall st r, regionStateBytes st r <> []) -> ps_ok ti (storage d) ->
  exists d', Destroy regionStateBytes d = Ret d' /\ pe_proposals (d_peer d') = [] /\ d_storeMeta d' = d_storeMeta d
    /\ region d' = region d /\ pe_regionId (d_peer d') = pe_regionId (d_peer d)
    /\ db_get (kv d') (RegionStateKey (rg_Id (region d))) = Some (regionStateBytes PeerState_Tombstone (region d))
    /\ db_get (kv d') (ApplyStateKey (rg_Id (region d))) = None.
Proof.
  intros Hb Hok. unfold Destroy. destruct (ClearMeta_ok ti _ new_WriteBatch new_WriteBatch Hok) as (rb & ->).
  change (ps_region (storage d)) with (region d). cbv zeta.
  match goal with |- context [set_kv d ?x] => set (db := x) end.
  match goal with |- context [foldl _ ?x _] => set (d1 := x) end.
  assert (Hd1 : region d1 = region d /\ kv d1 = db /\ d_storeMeta d1 = d_storeMeta d
    /\ pe_regionId (d_peer d1) = pe_regionId (d_peer d)).
  { unfold d1. by destruct (isInitialized _). }
  clearbody d1. destruct Hd1 as (Hr & Hkv & Hm & Hid).
  pose proof (quiet_dones (pe_proposals (d_peer d1)) d1 (fun d => ErrResp (ErrRegionNotFound (rg_Id (region d))))) as Hq.
  cbv beta in Hq. match type of Hq with quiet _ ?x => set (d2 := x) in * end.
  eexists. split; [reflexivity|]. split; [done|]. cbn [d_storeMeta d_peer pe_regionId]. split; [by rewrite <- Hm; apply Hq|].
  assert (Hs : storage d2 = storage d1) by by apply quiet_storage.
  split; [rewrite <- Hr; change (ps_region (storage d2) = ps_region (storage d1)); by rewrite Hs|].
  split; [rewrite <- Hid; change (pe_regionId (d_peer d2) = pe_regionId (d_peer d1)); by rewrite (q_peer _ _ Hq)|].
  match goal with |- db_get (kv ?x) _ = _ /\ _ => change (kv x) with (ps_kv (storage d2)) end. rewrite Hs.
  change (ps_kv (storage d1)) with (kv d1). rewrite Hkv. unfold db. rewrite !WriteToDB_get. split.
  - exact (foldl_last _ _ [_; _] _ _ eq_refl (Hb PeerState_Tombstone (region d))).
  - cbn [WriteRegionState wb_entries wb.add wb.DeleteMeta new_WriteBatch app foldl]. unfold after_entry, after_op. cbn.
    rewrite bool_decide_false by (by apply region_apply_ne). by rewrite bool_decide_true.
Qed.
Lemma destroyPeer_spec ti (d : handler) :
  (forall st r, regionStateBytes st r <> []) -> ps_ok ti (storage d) -> indexed d ->
  rg_Id (region d) = pe_regionId (d_peer d) -> is_Some (me_regions (d_storeMeta d) !! pe_regionId (d_peer d)) ->
  exists d', destroyPeer regionStateBytes d = Ret d' /\ destroyed d (region d) d'.
Proof.
  intros Hb Hok [Hbt [old Hold]] Hid [x Hx]. unfold destroyPeer.
  destruct (Destroy_spec ti d Hb Hok) as (d1 & -> & Hp & Hm & Hr & Hid1 & Hst & Hap). cbv zeta.
  destruct (Delete_spec (E:=error) regionLess _ (region d) Hbt) as (tree & Ht & _).
  assert (Hfin : forall d2, me_regions (d_storeMeta d2) = me_regions (d_storeMeta d1) -> d_peer d2 = (d_peer d1) <| pe_stopped := true |> ->
    exists d', (let! _ := deref (me_regions (d_storeMeta d2) !! pe_regionId (d_peer d)) in
      Ret (E:=error) (d2 <| d_storeMeta ::= fun m => mkStoreMeta (me_regionRanges m) (delete (pe_regionId (d_peer d)) (me_regions m)) |>))
      = Ret d' /\ destroyed d (region d) d').
  { intros d2 Hm2 Hp2. rewrite Hm2, Hm, Hx. cbn [deref]. eexists. split; [reflexivity|].
    destruct d2 as [p2 m2 o2]. cbn in Hm2, Hp2. subst p2. split; try done. cbn. by rewrite Hm2, Hm, Hid. }
  destruct (isInitialized (storage d)); [|by apply Hfin].
  match goal with |- context [Delete regionLess ?a ?b] => change (Delete regionLess a b) with
    (Delete (E:=error) regionLess (me_regionRanges (d_storeMeta d1)) (region d1)) end.
  rewrite Hm, Hr, Ht, Hold. cbn [deref]. cbn beta iota. by apply Hfin.
Qed.
Lemma changePeer_clash (d : handler) cc msg :
  in_sync d -> store_clash d cc msg = true -> changePeer regionStateBytes d cc msg = Panic.
Proof.
  intros [_ _ Hnd Hns _ _]. unfold store_clash, changePeer, added_peer. destruct (cc_ChangeType cc); try done.
  destruct (rq_AdminRequest msg) as [admin|]; [|done]. cbn. destruct (ad_ChangePeer admin) as [change|]; [|done]. cbn.
  destruct (cp_Peer change) as [pr|]; [|done]. intros Hc. cbn. unfold AddPeer. by rewrite (addPeerLoop_spec _ _ Hnd Hns), Hc.
Qed.
(** A peer that removes itself. *)
Lemma applySelfRemoved (d : handler) cc msg (b : WriteBatch) :
  (forall st r, regionStateBytes st r <> []) -> in_sync d -> indexed d -> removes_self d cc = true ->
  exists d' r, (let! (d, r, change) := changePeer regionStateBytes d cc msg in
      match change with
      | Unchanged => Ret (d, b)
      | SelfRemoved => let! d := destroyPeer regionStateBytes (setRegion d r) in Ret (d, b)
      | Changed =>
        let d := setRegion d r in
        let! (rn, _) := ApplyConfChange (H:=Storage_PeerStorage snapRegion) (group d) cc in
        Ret (set_group d rn, b)
      end) = Ret (d', b)
    /\ destroyed d r d' /\ rg_Id r = rg_Id (region d) /\ members r = new_members cc (members (region d)).
Proof.
  intros Hb [Hw Hm Hnd Hns Hself Hid] [Hbt Hfind] Hrs. unfold removes_self, changePeer, new_members in *.
  destruct (cc_ChangeType cc); try done. rewrite Hrs. apply Z.eqb_eq in Hrs.
  unfold RemovePeerId. pose proof (removeId_spec (rg_Peers (region d)) (cc_NodeId cc) Hnd) as Hr.
  destruct (removeId (rg_Peers (region d)) (cc_NodeId cc)) as [l|]; [|by rewrite Hrs in Hr].
  destruct Hr as (Hin & Hl & _). cbn beta iota. set (r := _ <| rg_Peers := l |>).
  assert (Hne : rg_Peers (region d) <> []) by (intros Hn; unfold members in Hself; rewrite Hn in Hself; by apply elem_of_nil in Hself).
  pose proof (node_wf_region d r (kv d) Hw Hne eq_refl) as Hw2. rewrite set_kv_same in Hw2.
  destruct (destroyPeer_spec (ti_of (storage (setRegion d r))) (setRegion d r) Hb) as (d' & -> & Hd').
  - apply Hw2.
  - by split.
  - exact Hid.
  - cbn. rewrite Hid, lookup_insert_eq. by eexists.
  - exists d', r. split; [done|]. split; [|by split]. destruct Hd' as [H1 H2 H3 H4 H5]. split; try done.
    rewrite H5. cbn. by rewrite delete_insert_eq.
Qed.
End Conf.

(** C7. Applying a change of membership, made for the current version of the region, has one
    of three outcomes.  When it adds a peer to a store that has another one, or a peer that
    is on another store, it panics.  When it removes the peer it runs on, that peer is
    destroyed: it is stopped, its region is a tombstone on disk without it, and the store
    forgets it.  Otherwise the members of the region and those of the Raft group stay the
    same: an added peer is added to both unless it is there already, a removed one is gone
    from both, the configuration version goes up exactly when the members change, and then
    the new region is on disk. *)
Theorem conf_change_in_sync {D} `{BadgerLaws D} regionStateBytes snapRegion
    (cmdOf : list Z -> option RaftCmdRequest) (d : handler D) (ent : Entry) (b : WriteBatch)
    (cc : ConfChange) (msg : RaftCmdRequest) (e : RegionEpoch) :
  (forall st r, regionStateBytes st r <> []) -> in_sync snapRegion d -> indexed d -> rg_RegionEpoch (region d) = Some e ->
  ConfChange_Unmarshal zero_ConfChange (default [] (e_Data ent)) = Ret cc -> cc_NodeId cc <> 0 ->
  cmdOf (default [] (cc_Context cc)) = Some msg -> CheckRegionEpoch msg (region d) true = Ret tt ->
  change_wf cc msg ->
  let o := applyChangePeer regionStateBytes snapRegion cmdOf d ent b in
  if store_clash d cc msg then o = Panic
  else if removes_self d cc then
    exists d' r, o = Ret (d', b) /\ destroyed regionStateBytes d r d'
      /\ rg_Id r = rg_Id (region d) /\ members r = new_members cc (members (region d))
  else
    exists d', o = Ret (d', b) /\ in_sync snapRegion d'
      /\ members (region d') = new_members cc (members (region d))
      /\ rg_RegionEpoch (region d') = (if bool_decide (members (region d') = members (region d)) then Some e
                                       else Some (e <| ep_ConfVer := ep_ConfVer e ⊞ 1 |>))
      /\ (members (region d') <> members (region d) ->
          db_get (kv d') (RegionStateKey (pe_regionId (d_peer d))) = Some (regionStateBytes PeerState_Normal (region d'))).
Proof.
  intros Hb Hs Hidx He Hcc Hz Hmsg Hep Hcw o. assert (Ho : o = applyChangePeer regionStateBytes snapRegion cmdOf d ent b) by done.
  unfold applyChangePeer in Ho. rewrite Hcc, Hmsg in Ho. cbn [deref] in Ho.
  rewrite Hep in Ho. cbn [epochNotMatch] in Ho. cbn beta iota in Ho. rewrite Ho. clear Ho o.
  destruct (store_clash d cc msg) eqn:Hcl; [by rewrite (changePeer_clash regionStateBytes snapRegion d cc msg Hs Hcl)|].
  destruct (removes_self d cc) eqn:Hrs.
  { by apply applySelfRemoved. }
  destruct (changePeer_spec regionStateBytes snapRegion d cc msg Hb Hs (mk_is_Some _ _ He) (conj Hcw (conj Hcl Hrs)))
    as [[-> Hsame]|(d1 & r & -> & Hrset)]; cbn beta iota.
  - exists d. split; [done|]. split; [done|]. split; [done|]. rewrite bool_decide_true by done. by split.
  - destruct (sync_after regionStateBytes snapRegion d d1 cc r Hs Hz) as (rn & cs & Ha & Hsync & Hr & Hkv); [|done|].
    { unfold change_wf, removes_self in *. destruct (cc_ChangeType cc); [done| |done]. by apply Z.eqb_neq. }
    unfold handler_storage. rewrite Ha. cbn beta iota. exists (set_group (setRegion d1 r) rn). split; [done|]. split; [done|].
    rewrite Hr. split; [exact (rs_members _ _ _ _ _ Hrset)|]. split; [exact (rs_epoch _ _ _ _ _ Hrset e He)|exact Hkv].
Qed.
