(* ===== verification/PeerRun.v ===== *)
(** * PeerRun: runs of a peer

    Concrete peers over finite maps: samples for the theorems about the message handler,
    and runs through [HandleMsg] and [HandleRaftReady] that show what goes wrong. *)

From stdpp Require Import base option list strings gmap tactics sorting.
From S2P Require Import Prelude.
From S2P Require Import Eraftpb.
From S2P Require Import EraftpbWire.
From S2P Require Import EraftpbRound.
From S2P Require Import RaftStorage.
From S2P Require Import RaftLog.
From S2P Require Import Raft.
From S2P Require Import RaftInv.
From S2P Require Import RawNode.
From S2P Require Import Codec.
From S2P Require Import GoHeap.
From S2P Require Import Meta.
From S2P Require Import BTree.
From S2P Require Import BTreeShape.
From S2P Require Import BTreeProps.
From S2P Require Import Metapb.
From S2P Require Import RaftServerpb.
From S2P Require Import Engine.
From S2P Require Import EngineIter.
From S2P Require Import PeerStorage.
From S2P Require Import PeerStorageProps.
From S2P Require Import RaftCmdpb.
From S2P Require Import RaftstoreUtil.
From S2P Require Import Peer.
From S2P Require Import PeerMsg.
From S2P Require Import Runner.
From S2P Require Import RunnerProps.
From S2P Require Import PeerProps.
From S2P Require Import PeerSplit.
From S2P Require Import PeerConf.

(** ** Commands *)
Definition demo_epoch : RegionEpoch := mkEpoch 1 1.
Definition demo_header (term : Z) : RaftRequestHeader := mkHeader 1 (Some (mkPeer 1 1)) (Some demo_epoch) term.
(** A put of one byte under a key of one byte. *)
Definition put_cmd (k v : Z) : RaftCmdRequest :=
  mkRequest (Some (demo_header 0))
    [mkReq CmdType_Put None (Some (mkPut [100] (Some [k]) (Some [v]))) None] None.
Definition add_cmd (id : Z) : RaftCmdRequest :=
  mkRequest (Some (demo_header 0)) []
    (Some (mkAdmin AdminCmdType_ChangePeer
             (Some (mkChangePeer ConfChangeType_AddNode (Some (mkPeer id id)))) None None None)).
Definition demo_key (k : Z) : list Z := wb.KeyWithCF [100] [k].

(** An encoding of these commands. *)
Definition demo_bytes (msg : RaftCmdRequest) : list Z :=
  match rq_AdminRequest msg, rq_Requests msg with
  | Some admin, _ =>
    match ad_ChangePeer admin with
    | Some change => [1; match cp_Peer change with Some p => p_Id p | None => 0 end]
    | None => []
    end
  | None, [req] =>
    match rqs_Put req with
    | Some put => 2 :: default [] (put_Key put) ++ default [] (put_Value put)
    | None => []
    end
  | None, _ => []
  end.
Definition demo_cmd (bytes : list Z) : option RaftCmdRequest :=
  match bytes with
  | [1; id] => Some (add_cmd id)
  | [2; k; v] => Some (put_cmd k v)
  | _ => None
  end.

Definition demo_cfg : Peer.Config := mkStoreConfig 1 1 10 10 128 10 10 10 144 96.
Definition demo_rand (_ : nat) : Z := 3.
Definition noSnap (_ _ _ : Z) : bool := false.

(** ** Runs *)
Inductive event := EvMsg (m : Msg) | EvReady.
Definition run_event (d : handler db) (ev : event) : outcome error (handler db) :=
  match ev with
  | EvMsg m => HandleMsg noBytes noRegion demo_bytes demo_rand demo_cfg noSnap d m
  | EvReady => HandleRaftReady noBytes noRegion demo_cmd demo_rand demo_cfg d
  end.
Definition run (d : handler db) (evs : list event) : outcome error (handler db) := foldM run_event d evs.

(** A message of a peer to peer 1. *)
Definition to_peer1 (from : Z) (m : Message) : event :=
  EvMsg (MsgTypeRaftMessage (mkRaftMessage 1 (Some (mkPeer from from)) (Some (mkPeer 1 1))
    (Some (m <| m_From := from |> <| m_To := 1 |>)) (Some demo_epoch) false [] [])).
Definition timeout_now (from term : Z) : event :=
  to_peer1 from (zero_Message <| m_MsgType := MsgTimeoutNow |> <| m_Term := term |>).
Definition vote (from term : Z) : event :=
  to_peer1 from (zero_Message <| m_MsgType := MsgRequestVoteResponse |> <| m_Term := term |>).
Definition appended (from term index : Z) : event :=
  to_peer1 from (zero_Message <| m_MsgType := MsgAppendResponse |> <| m_Term := term |> <| m_Index := index |>).
Definition append (from term prev prevTerm commit : Z) (es : list Entry) : event :=
  to_peer1 from (zero_Message <| m_MsgType := MsgAppend |> <| m_Term := term |> <| m_Index := prev |>
                   <| m_LogTerm := prevTerm |> <| m_Commit := commit |> <| m_Entries := es |>).
Definition client (cmd : RaftCmdRequest) (cb : Z) : event := EvMsg (MsgTypeRaftCmd cmd (Some cb)).

(** Peer 1 of a new region with three members. *)
Definition start_peer (region : Region) : outcome error (handler db) :=
  let! p := createPeer noRegion demo_rand demo_cfg 1 (∅ : db) ∅ region in
  let! m := newStoreMeta in
  let! (tree, _) := ReplaceOrInsert regionLess (me_regionRanges m) region in
  Ret (mkHandler p (mkStoreMeta tree {[rg_Id region := region]}) []).

(** The callbacks that were answered, in order. *)
Definition answered (d : handler db) : list Z :=
  omap (fun e => match e with EDone cb _ => Some cb | _ => None end) (d_out d).

(** A run that returns a state with a decidable property. *)
Lemma run_sat {A} (P : A -> Prop) `{forall a, Decision (P a)} (o : outcome error A) :
  (match o with Ret a => bool_decide (P a) | _ => false end) = true -> exists a, o = Ret a /\ P a.
Proof. destruct o; try done. intros Hp%bool_decide_eq_true. eauto. Qed.

(** Peer 1 leads in term 6 and takes a command.  Peer 3 takes over in term 7 with an empty
    entry, then peer 1 leads again in term 8 and takes two more commands, which peer 2
    acknowledges. *)
Definition lost_answer_run : outcome error (handler db) :=
  let! d := start_peer demo_region in
  run d [timeout_now 2 5; vote 2 6; EvReady; client (put_cmd 1 11) 1; EvReady;
         append 3 7 5 5 5 [zero_Entry <| e_Term := 7 |> <| e_Index := 6 |>]; EvReady;
         append 3 7 6 7 6 []; EvReady;
         timeout_now 3 7; vote 2 8; EvReady; client (put_cmd 2 22) 2; EvReady; appended 2 8 8; EvReady;
         client (put_cmd 3 33) 3; EvReady; appended 2 8 9; EvReady].

Definition single_region : Region := mkRegion 1 [] [] (Some demo_epoch) [mkPeer 1 1].
(** The only member is asked to add itself, and then to add peer 2, twice. *)
Definition stuck_run : outcome error (handler db) :=
  let! d := start_peer single_region in
  run d [EvReady; client (add_cmd 1) 1; EvReady; client (add_cmd 2) 2; EvReady; client (add_cmd 2) 3; EvReady].

(** A committed and applied command can stay unanswered.  A proposal of an older term at
    the head of the queue makes [popProposal] give up after answering it, so the command
    behind it is applied without its callback being called, and the next command drops its
    proposal from the queue. *)
Theorem committed_command_unanswered :
  exists d, lost_answer_run = Ret d
    /\ kv d !! demo_key 2 = Some [22] /\ AppliedIndex (storage d) = 9
    /\ answered d = [1; 3] /\ pe_proposals (d_peer d) = [].
Proof. apply (run_sat _). by vm_compute. Qed.

(** A leader that was asked to add a peer that is already a member refuses every later
    change of membership while it answers that it was done: the entry is applied without
    [ApplyConfChange], so [PendingConfIndex] stays set, and peer 2 is never added. *)
Theorem conf_change_stuck :
  exists d, stuck_run = Ret d /\ IsLeader (d_peer d) = true
    /\ answered d = [1; 2; 3] /\ members (region d) = [1] /\ r_peers (rn_Raft (group d)) = [1]
    /\ r_PendingConfIndex (rn_Raft (group d)) = 7 /\ AppliedIndex (storage d) = 7
    /\ RaftLog.LastIndex (r_RaftLog (rn_Raft (group d))) = 7.
Proof. apply (run_sat _). by vm_compute. Qed.

(** A follower gets two entries in two messages, and is then started again on its engines. *)
Definition restart_run : outcome error (handler db * peer db) :=
  let! d := start_peer demo_region in
  let! d := run d [append 3 6 5 5 5 [demo_entry 6]; EvReady; append 3 6 6 6 5 [demo_entry 7]; EvReady] in
  let! p := createPeer noRegion demo_rand demo_cfg 1 (ps_raft (storage d)) (kv d) demo_region in
  Ret (d, p).
(** The acknowledgements it sent to the leader. *)
Definition acknowledged (d : handler db) : list Z :=
  omap (fun e => match e with
                 | ESend msg => m ← ms_Message msg;
                     if decide (m_MsgType m = MsgAppendResponse /\ m_Reject m = false /\ m_To m = 3)
                     then Some (m_Index m) else None
                 | _ => None end) (d_out d).

(** A follower can acknowledge an entry and lose it.  It accepts the entry at index 7
    with a [Ready] that has no hard state, tells the leader so, and after a restart its
    log ends at index 6: the leader may have committed the entry on the strength of the
    acknowledgement. *)
Theorem acknowledged_entry_lost :
  exists s, restart_run = Ret s /\ acknowledged (s.1) = [6; 7]
    /\ rl_LastIndex (ps_raftState (storage (s.1))) = 7 /\ rl_LastIndex (ps_raftState (peerStorage (s.2))) = 6
    /\ RaftLog.LastIndex (r_RaftLog (rn_Raft (pe_RaftGroup (s.2)))) = 6.
Proof. apply (run_sat _). by vm_compute. Qed.

(** ** Samples *)
(** The value of a computation that returns. *)
Definition is_ret {A} (o : outcome error A) : bool := match o with Ret _ => true | _ => false end.
Definition ret_of {A} (o : outcome error A) : is_ret o = true -> A :=
  match o with Ret a => fun _ => a | _ => fun H => False_rect A (Bool.diff_false_true H) end.

(** Peer 1, started on a storage with an empty log. *)
Definition sample_start : outcome error (peer db) :=
  createPeer noRegion demo_rand demo_cfg 1 (ps_raft first_storage) (ps_kv first_storage) demo_region.
Definition sample_peer : peer db := Eval vm_compute in ret_of sample_start eq_refl.
Lemma sample_peer_wf : node_wf noRegion sample_peer.
Proof.
  destruct (createPeer_ok noRegion demo_rand demo_cfg ltac:(split; vm_compute; done) 5 1 (ps_raft first_storage)
    (ps_kv first_storage) demo_region first_state first_apply (mkPeer 1 1)) as (p & Hp & Hw & _).
  - split; [by vm_compute|by vm_compute|exact first_storage_ok| |by vm_compute].
    exists (mkHardState 5 0 5 None). by vm_compute.
  - done.
  - done.
  - assert (Hs : sample_start = Ret sample_peer) by (vm_compute; reflexivity).
    pose proof (eq_trans (eq_sym Hp) Hs) as Heq. by injection Heq as <-.
Qed.

Definition sample_meta : storeMeta :=
  mkStoreMeta (mkBTree 2 1 (Some (mkNode [demo_region] [] []))) {[1 := demo_region]}.
Lemma sample_meta_ok : bt_ok regionLess (me_regionRanges sample_meta).
Proof.
  split; cbn; [lia| |done|].
  - repeat constructor.
  - intros n [= <-]. exists 0%nat. split; [|done]. apply leaf_wf. cbn. lia.
Qed.
Definition sample : handler db := mkHandler sample_peer sample_meta [].
(** The same peer with a client waiting for the entry at index 6. *)
Definition sample_waiting : handler db := mkHandler (sample_peer <| pe_proposals := [mkProposal 6 6 1] |>) sample_meta [].
Lemma sample_node_ok : node_ok sample /\ node_ok sample_waiting.
Proof.
  assert (Ha : apply_ok first_apply).
  { split; [|reflexivity]. exists (mkTruncatedState 5 5 None). by split. }
  split; (split; [by eexists|reflexivity|exact Ha]).
Qed.
Lemma sample_in_sync : in_sync noRegion sample.
Proof.
  split; [exact sample_peer_wf|reflexivity| | |vm_compute; set_solver|reflexivity].
  all: vm_compute; repeat constructor; set_solver.
Qed.
Lemma sample_indexed : indexed sample.
Proof. split; [exact sample_meta_ok|]. by eexists. Qed.
Lemma demo_cfg_ok : cfg_ok demo_cfg.
Proof. by split; vm_compute. Qed.
Lemma sample_on_disk : on_disk 5 (ps_raft (storage sample)) (kv sample) (region sample) first_state first_apply.
Proof.
  split; [by vm_compute|by vm_compute|exact first_storage_ok| |by vm_compute].
  exists (mkHardState 5 0 5 None). by vm_compute.
Qed.
Definition put_entry (index k v : Z) : Entry :=
  zero_Entry <| e_Term := 6 |> <| e_Index := index |> <| e_Data := Some (demo_bytes (put_cmd k v)) |>.
Definition puts : list Entry := [put_entry 6 1 11; put_entry 7 1 12].
Lemma puts_ok : Forall (fun ent => kv_entry demo_cmd ent = true) puts.
Proof. by repeat constructor. Qed.
Lemma puts_answerable (d : handler db) : ~ unanswerable demo_cmd d puts.
Proof. apply answerable_no_get. by repeat constructor. Qed.

Lemma apply_refines_fold_witness :
  exists d', HandleCommitEnts noBytes noRegion demo_cmd demo_rand demo_cfg sample_waiting puts = Ret d'
    /\ kv d' !! demo_key 1 = Some [12] /\ AppliedIndex (storage d') = 7.
Proof.
  destruct (apply_refines_fold noBytes noRegion demo_cmd demo_rand demo_cfg sample_waiting puts (put_entry 7 1 12)
    (proj2 sample_node_ok) puts_ok eq_refl ltac:(by vm_compute)) as [(d' & Hd & Hk & _ & Hi & _)|[_ Hu]].
  - exists d'. split; [exact Hd|]. split; [|exact Hi]. apply (Hk (demo_key 1)). by vm_compute.
  - by apply puts_answerable in Hu.
Defined.

(** A client waits for a key that is not there: the other outcome. *)
Definition get_cmd (k : Z) : RaftCmdRequest :=
  mkRequest (Some (demo_header 0)) [mkReq CmdType_Get (Some (mkGet [100] (Some [k]))) None None] None.
Theorem absent_get_panics :
  HandleCommitEnts noBytes noRegion (fun _ => Some (get_cmd 9)) demo_rand demo_cfg sample_waiting
    [zero_Entry <| e_Term := 6 |> <| e_Index := 6 |> <| e_Data := Some [] |>] = Panic.
Proof. by vm_compute. Qed.

Lemma replicas_agree_witness :
  exists d1 d2, commitRounds noBytes noRegion demo_cmd demo_rand demo_cfg sample [puts] = Ret d1
    /\ commitRounds noBytes noRegion demo_cmd demo_rand demo_cfg sample_waiting [[put_entry 6 1 11]; []; [put_entry 7 1 12]] = Ret d2
    /\ kv d1 !! demo_key 1 = kv d2 !! demo_key 1.
Proof.
  assert (He : Forall (fun ent => kv_entry demo_cmd ent = true /\ is_u64 (e_Index ent)) puts).
  { by repeat constructor. }
  destruct (replicas_agree noBytes noRegion demo_cmd demo_rand demo_cfg sample sample_waiting [puts]
    [[put_entry 6 1 11]; []; [put_entry 7 1 12]]) as (_ & _ & Hk).
  - split; [apply sample_node_ok|exact He].
  - split; [apply sample_node_ok|exact He].
  - reflexivity.
  - reflexivity.
  - reflexivity.
  - reflexivity.
  - destruct (run_sat (fun _ => True) (commitRounds noBytes noRegion demo_cmd demo_rand demo_cfg sample [puts]))
      as (d1 & H1 & _); [by vm_compute|].
    destruct (run_sat (fun _ => True) (commitRounds noBytes noRegion demo_cmd demo_rand demo_cfg sample_waiting
      [[put_entry 6 1 11]; []; [put_entry 7 1 12]])) as (d2 & H2 & _); [by vm_compute|].
    exists d1, d2. split; [exact H1|]. split; [exact H2|]. apply (Hk d1 d2 H1 H2 (demo_key 1)). by vm_compute.
Defined.

Lemma replay_after_crash_witness :
  exists crashed b p r', commitLoop noBytes noRegion demo_cmd demo_rand demo_cfg sample [put_entry 6 1 11] new_WriteBatch
      = Ret (crashed, b)
    /\ createPeer noRegion demo_rand demo_cfg 1 (ps_raft (storage crashed)) (kv crashed) demo_region = Ret p
    /\ HandleCommitEnts noBytes noRegion demo_cmd demo_rand demo_cfg (mkHandler p sample_meta []) puts = Ret r'
    /\ kv crashed !! demo_key 1 = Some [11] /\ kv r' !! demo_key 1 = Some [12].
Proof.
  destruct (run_sat (fun s => kv s.1 !! demo_key 1 = Some [11])
    (commitLoop noBytes noRegion demo_cmd demo_rand demo_cfg sample [put_entry 6 1 11] new_WriteBatch))
    as ([crashed b] & Hc & Hk1); [by vm_compute|].
  destruct (replay_after_crash noBytes noRegion demo_cmd demo_rand demo_cfg sample crashed [put_entry 6 1 11]
    [put_entry 7 1 12] (put_entry 7 1 12) b 1 5 first_state first_apply (mkPeer 1 1) sample_meta)
    as (_ & p & r' & Hp & _ & Hr & _ & Hk & _).
  - exact demo_cfg_ok.
  - apply sample_node_ok.
  - reflexivity.
  - exact sample_on_disk.
  - split; [|reflexivity]. exists (mkTruncatedState 5 5 None). by split.
  - by vm_compute.
  - reflexivity.
  - done.
  - exact puts_ok.
  - by repeat constructor.
  - reflexivity.
  - by vm_compute.
  - exact Hc.
  - exists crashed, b, p, r'. split; [exact Hc|]. split; [exact Hp|]. split; [exact Hr|]. split; [exact Hk1|].
    apply (Hk (demo_key 1)). by vm_compute.
Defined.

Lemma command_answered_witness :
  exists d', handleRequest sample_waiting (put_cmd 1 11) (put_entry 6 1 11) new_WriteBatch = Ret (d', new_WriteBatch)
    /\ answered d' = [1] /\ pe_proposals (d_peer d') = [].
Proof.
  destruct (command_answered sample_waiting (put_cmd 1 11) (put_entry 6 1 11)
    (mkReq CmdType_Put None (Some (mkPut [100] (Some [1]) (Some [11]))) None) (demo_header 0) demo_epoch
    (mkProposal 6 6 1) [] eq_refl eq_refl eq_refl ltac:(by eexists) eq_refl) as (d' & Hd & Ho & Hp).
  - by exists [].
  - exists d'. split; [exact Hd|]. split; [|exact Hp]. unfold answered. by rewrite Ho.
Defined.

Definition sample_split : SplitRequest := mkSplit [50] 2 [4; 5; 6].
Lemma sample_split_ok : split_ok sample sample_split.
Proof.
  split.
  - by eexists.
  - reflexivity.
  - by left.
  - reflexivity.
  - by repeat constructor.
  - by eexists.
  - by vm_compute.
  - exact sample_meta_ok.
  - intros k v Hk. change (({[RaftStateKey 1 := RaftLocalState_enc first_state]} : db) !! k = Some v) in Hk.
    apply lookup_singleton_Some in Hk as [<- _]. by vm_compute.
Qed.
Lemma split_partitions_witness :
  exists p d', applySplit noBytes noRegion demo_rand demo_cfg sample sample_split new_WriteBatch = Ret (d', new_WriteBatch)
    /\ node_wf noRegion p /\ rg_StartKey (getRegion p) = [50] /\ d_out d' = [ERegister p; EStart 2].
Proof.
  destruct (split_partitions noBytes noRegion demo_rand demo_cfg sample sample_split demo_epoch new_WriteBatch)
    as ((p & d' & Hd & Hs) & _).
  - done.
  - split; by vm_compute.
  - exact sample_split_ok.
  - reflexivity.
  - exists p, d'. split; [exact Hd|]. destruct (sd_peer _ _ _ _ _ _ _ _ Hs) as (Hw & Hr & _).
    split; [exact Hw|]. rewrite Hr. split; [reflexivity|]. exact (sd_out _ _ _ _ _ _ _ _ Hs).
Defined.

Definition add4 : ConfChange := mkConfChange ConfChangeType_AddNode 4 (Some (demo_bytes (add_cmd 4))) None.
Definition add4_entry : Entry :=
  zero_Entry <| e_EntryType := EntryType_EntryConfChange |> <| e_Data := Some (ConfChange_enc add4) |>.
(** Peer 1 is removed, and a second peer is put on store 2. *)
Definition remove1 : ConfChange := mkConfChange ConfChangeType_RemoveNode 1 (Some (demo_bytes (add_cmd 1))) None.
Definition remove1_entry : Entry :=
  zero_Entry <| e_EntryType := EntryType_EntryConfChange |> <| e_Data := Some (ConfChange_enc remove1) |>.
Definition clash_cmd : RaftCmdRequest :=
  mkRequest (Some (demo_header 0)) []
    (Some (mkAdmin AdminCmdType_ChangePeer
             (Some (mkChangePeer ConfChangeType_AddNode (Some (mkPeer 4 2)))) None None None)).
Lemma conf_change_in_sync_witness :
  (exists d', applyChangePeer noBytes noRegion demo_cmd sample add4_entry new_WriteBatch = Ret (d', new_WriteBatch)
    /\ members (region d') = [1; 2; 3; 4] /\ r_peers (rn_Raft (group d')) = [1; 2; 3; 4])
  /\ (exists d', applyChangePeer noBytes noRegion demo_cmd sample remove1_entry new_WriteBatch = Ret (d', new_WriteBatch)
    /\ pe_stopped (d_peer d') = true)
  /\ applyChangePeer noBytes noRegion (fun _ => Some clash_cmd) sample add4_entry new_WriteBatch = Panic.
Proof.
  assert (Hb : forall st r, noBytes st r <> []) by done. split; [|split].
  - destruct (conf_change_in_sync noBytes noRegion demo_cmd sample add4_entry new_WriteBatch add4 (add_cmd 4) demo_epoch
      Hb sample_in_sync sample_indexed eq_refl ltac:(vm_compute; reflexivity) ltac:(done) eq_refl ltac:(vm_compute; reflexivity) eq_refl)
      as (d' & Hd & Hs & Hm & _).
    exists d'. split; [exact Hd|]. rewrite <- (is_members _ _ Hs), Hm. by vm_compute.
  - destruct (conf_change_in_sync noBytes noRegion demo_cmd sample remove1_entry new_WriteBatch remove1 (add_cmd 1) demo_epoch
      Hb sample_in_sync sample_indexed eq_refl ltac:(vm_compute; reflexivity) ltac:(done) eq_refl ltac:(vm_compute; reflexivity) I)
      as (d' & r & Hd & Hs & _).
    exists d'. split; [exact Hd|exact (ds_stopped _ _ _ _ Hs)].
  - exact (conf_change_in_sync noBytes noRegion (fun _ => Some clash_cmd) sample add4_entry new_WriteBatch add4 clash_cmd demo_epoch
      Hb sample_in_sync sample_indexed eq_refl ltac:(vm_compute; reflexivity) ltac:(done) eq_refl ltac:(vm_compute; reflexivity) eq_refl).
Defined.

(** ** The workers on concrete stores

    A peer whose log is compacted, and a region that is split. *)
(** A log with three entries. *)
Definition log_db : db := {[ RaftLogKey 1 6 := [1]; RaftLogKey 1 7 := [2]; RaftLogKey 1 8 := [3]; RaftStateKey 1 := [4] ]}.
Definition compacting : handler db := set_storage sample ((storage sample) <| ps_raft := log_db |>).
Lemma keys_check (m : db) (check : list Z -> bool) : forallb (fun p => check p.1) (map_to_list m) = true ->
  forall k v, m !! k = Some v -> check k = true.
Proof.
  intros Hc k v Hk. apply elem_of_map_to_list, list_elem_of_In in Hk. rewrite forallb_forall in Hc. exact (Hc _ Hk).
Qed.
Lemma log_db_keys : log_keys log_db 1.
Proof.
  split.
  - intros k v Hk. pose proof (keys_check log_db (fun k => forallb (fun b => (0 <=? b) && (b <? 256)) k) ltac:(by vm_compute) k v Hk) as Hb.
    apply list.Forall_forall. intros b Hin%list_elem_of_In. rewrite forallb_forall in Hb. specialize (Hb _ Hin). unfold is_byte. lia.
  - intros k v Hk. pose proof (keys_check log_db (fun k => negb (HasPrefix (logPrefix 1) k)
      || existsb (fun i => bool_decide (k = RaftLogKey 1 i)) [6; 7; 8]) ltac:(by vm_compute) _ v Hk) as Hb. cbn beta in Hb.
    rewrite (proj2 (HasPrefix_spec _ _)) in Hb by (by exists k). cbn [negb orb] in Hb.
    apply existsb_exists in Hb as (i & Hi & Heq%bool_decide_eq_true). exists i. split; [|exact Heq].
    unfold is_u64, two64. cbn in Hi. lia.
Qed.
Lemma compaction_invisible_witness : exists d' b' task raft' n,
  applyCompactLog compacting (mkCompactLog 7 6) new_WriteBatch = Ret (d', b')
  /\ HandleGCTask (ps_raft (storage d')) task = Ret (raft', n)
  /\ db_get raft' (RaftLogKey 1 6) = None /\ db_get raft' (RaftLogKey 1 7) = None
  /\ (forall lo hi, Entries ((storage d') <| ps_raft := raft' |>) lo hi = Entries (storage d') lo hi).
Proof.
  destruct (run_sat (fun r => rg_Id (region r.1) = 1) (applyCompactLog compacting (mkCompactLog 7 6) new_WriteBatch))
    as ([d' b'] & Ha & Hid); [by vm_compute|].
  destruct (compaction_invisible compacting d' (mkCompactLog 7 6) new_WriteBatch b' 5 Ha) as (task & raft' & n & _ & Hgc & Hr & Hn & _).
  1: reflexivity.
  1-3: cbn; unfold two64; lia.
  1: reflexivity.
  1: vm_compute; split; [discriminate|reflexivity].
  1: exact log_db_keys.
  1: vm_compute; split; [discriminate|reflexivity].
  1: { intros i Hi Hlt. change (i < 0) in Hlt. unfold is_u64 in Hi. lia. }
  exists d', b', task, raft', n. split; [exact Ha|]. split; [exact Hgc|].
  cbn [fst] in Hid. rewrite Hid in Hn.
  split; [|split; [|intros lo hi; exact (proj1 (Hr lo hi))]]; apply Hn; cbn; unfold is_u64, two64; lia.
Defined.

(** ** A region with three versions of two keys, split after the first ones *)
Definition version (u : list Z) (ts : Z) : list Z := enc u ++ be64 ts.
Definition split_db : db :=
  {[ wb.KeyWithCF CfDefault (version [1] 9) := [7; 7; 7]; wb.KeyWithCF CfDefault (version [2] 8) := [8; 8; 8];
     wb.KeyWithCF CfDefault (version [2] 9) := [9; 9; 9] ]}.
Definition split_checker : sizeSplitChecker := newSizeSplitChecker 50 45.
Lemma split_key_balanced_witness : exists key sent, splitCheck (E:=meta_error) split_db split_checker [] [] = Ret (key, sent)
  /\ exists before k v after, cfRange split_db CfDefault [] [] = before ++ (k, v) :: after /\ key = Some k
     /\ total before <= 45 < total before + pair_size (k, v).
Proof.
  destruct (split_key_balanced split_db split_checker [] []) as (key & sent & Hs & _ & Hbig); [by vm_compute..|].
  exists key, sent. split; [exact Hs|]. apply Hbig. vm_compute. discriminate.
Defined.
Lemma split_keeps_versions_witness : exists key,
  HandleSplitCheck (E:=meta_error) split_db split_checker (zero_Region <| rg_RegionEpoch := Some (mkEpoch 1 1) |>)
    = Ret [MsgTypeSplitRegion (Some (mkEpoch 1 1)) key None].
Proof.
  destruct (split_keeps_versions split_db split_checker (zero_Region <| rg_RegionEpoch := Some (mkEpoch 1 1) |>)
    (version [2] 9) []) as (key & Hh & _); [vm_compute; reflexivity|by vm_compute; repeat (constructor; [by vm_compute|])|].
  exists key. exact Hh.
Defined.
