(* ===== verification/SnapRace.v ===== *)
(** * SnapRace: applying a snapshot while the peer goes on

    [ApplySnapshot] hands the data of a snapshot to the region worker and does not wait for
    it.  The two runs here compose the region worker and the transfer of [SnapMgr] with the
    message handler of [PeerMsg]. *)

From stdpp Require Import base option list strings gmap countable tactics.
From S2P Require Import Prelude.
From S2P Require Import Eraftpb.
From S2P Require Import EraftpbRound.
From S2P Require Import RaftServerpb.
From S2P Require Import RaftStorage.
From S2P Require Import Meta.
From S2P Require Import Metapb.
From S2P Require Import Engine.
From S2P Require Import EngineIter.
From S2P Require Import SnapFile.
From S2P Require Import PeerStorage.
From S2P Require Import PeerStorageProps.
From S2P Require Import RaftCmdpb.
From S2P Require Import SnapMgr.
From S2P Require Import Peer.
From S2P Require Import PeerMsg.
From S2P Require Import PeerRun.

(** ** Encodings: a list is preceded by its length *)
Definition put_list (l : list Z) : list Z := len l :: l.
Definition get_list (bs : list Z) : list Z * list Z :=
  match bs with n :: bs => (take (Z.to_nat n) bs, drop (Z.to_nat n) bs) | [] => ([], []) end.
Definition race_table (pairs : list (list Z * list Z)) : list Z := concat (map (fun p => put_list p.1 ++ put_list p.2) pairs).
Fixpoint race_pairs (n : nat) (bs : list Z) : list (list Z * list Z) :=
  match n, bs with
  | S n, _ :: _ => let (k, bs) := get_list bs in let (v, bs) := get_list bs in (k, v) :: race_pairs n bs
  | _, _ => []
  end.
Definition race_ingest (d : db) (files : list (list Z)) : option db :=
  Some (foldl (fun d p => <[p.1 := p.2]> d) d (concat (map (fun f => race_pairs (length f) f) files))).
Definition race_meta (m : SnapshotMeta) : list Z :=
  concat (map (fun f => put_list (sc_Cf f) ++ [sc_Size f; sc_Checksum f]) m).
Fixpoint race_metaOf (n : nat) (bs : list Z) : SnapshotMeta :=
  match n, bs with
  | S n, _ :: _ =>
    match get_list bs with
    | (cf, size :: sum :: bs) => mkSnapshotCFFile cf size sum :: race_metaOf n bs
    | _ => []
    end
  | _, _ => []
  end.
Definition race_meta_of (bs : list Z) : option SnapshotMeta := Some (race_metaOf (length bs) bs).
(** There is one region. *)
Definition race_data (d : RaftSnapshotData) : list Z := race_meta (default [] (sd_Meta d)).
Definition race_data_of (bs : list Z) : option RaftSnapshotData := Some (mkSnapshotData (Some demo_region) 0 (race_meta_of bs)).

Definition race_manager : SnapManager := mkSnapManager ∅ 0 ∅ 1000.
(** The leader has applied up to index 9, and has key 5. *)
Definition race_state (bs : list Z) : option (PeerState * option Region) :=
  match bs with [1] => Some (PeerState_Normal, Some demo_region) | _ => None end.
Definition race_apply : RaftApplyState := mkApplyState 9 (Some (mkTruncatedState 9 6 None)) None.
Definition race_key (k : Z) : list Z := wb.KeyWithCF CfDefault [k].
Definition race_leader : db := {[ ApplyStateKey 1 := c_enc race_apply; RegionStateKey 1 := [1]; race_key 5 := [50] ]}.
Definition race_task (raft kv : db) (t : region_task) (m : SnapManager) :=
  HandleRegionTask race_meta race_meta_of race_table race_ingest race_data race_state (fun _ => 0) raft kv t m.

(** What the follower makes of commands and snapshots. *)
Definition race_cmd (bytes : list Z) : option RaftCmdRequest :=
  match bytes with
  | [2; k; v] => Some (mkRequest (Some (demo_header 0))
                         [mkReq CmdType_Put None (Some (mkPut CfDefault (Some [k]) (Some [v]))) None] None)
  | _ => None
  end.
Definition race_region (data : option (list Z)) : option (option Region) :=
  race_data_of (default [] data) ≫= fun d => Some (sd_Region d).
Definition race_event (d : handler db) (ev : event) : outcome error (handler db) :=
  match ev with
  | EvMsg m => HandleMsg noBytes race_region demo_bytes demo_rand demo_cfg (fun _ _ _ => true) d m
  | EvReady => HandleRaftReady noBytes race_region race_cmd demo_rand demo_cfg d
  end.

Definition as_run {A} (r : SnapManager * outcome snap_error A) : outcome error (SnapManager * A) :=
  match r with (m, Ret a) => Ret (m, a) | (_, OutOfFuel) => OutOfFuel | _ => Panic end.
Definition snap_event (snap : Snapshot) : event :=
  to_peer1 3 (zero_Message <| m_MsgType := MsgSnapshot |> <| m_Term := 6 |> <| m_Snapshot := Some snap |>).
Definition raft_msg (ev : event) : outcome error RaftMessage :=
  match ev with EvMsg (MsgTypeRaftMessage m) => Ret m | _ => Panic end.
(** The leader makes a snapshot, the follower receives it and handles the message: its
    handler and its snapshot manager. *)
Definition snapshot_run : outcome error (handler db * SnapManager) :=
  let! (m, gen) := as_run (race_task ∅ race_leader (RegionTaskGen 1) race_manager) in
  match gen with
  | (_, Some (Some snap)) =>
    let! msg := raft_msg (snap_event snap) in
    let! (_, chunks) := as_run (sendSnap race_meta_of race_data_of msg m) in
    let! (m, _) := as_run (recvSnap race_meta race_meta_of race_data_of (Some msg) chunks race_manager) in
    let! d := start_peer demo_region in
    let! d := foldM race_event d [snap_event snap; EvReady] in
    Ret (d, m)
  | _ => Panic
  end.
(** The next entry, a put of key 6, is committed and applied. *)
Definition next_put : event := append 3 6 9 6 10 [zero_Entry <| e_Term := 6 |> <| e_Index := 10 |> <| e_Data := Some [2; 6; 60] |>].
(** The region worker carries out what the peer has asked for. *)
Definition worker_run (d : handler db) (m : SnapManager) : outcome error db :=
  let! (_, kv) := foldM (fun '(m, kv) t => let! (m, r) := as_run (race_task (ps_raft (storage d)) kv t m) in Ret (m, fst r))
                    (m, kv d) (ps_tasks (storage d)) in
  Ret kv.

(** The worker is quick, or the worker is slow. *)
Definition quick_run : outcome error db :=
  let! (d, m) := snapshot_run in
  let! kv1 := worker_run d m in
  let d := set_storage d ((storage d) <| ps_kv := kv1 |> <| ps_tasks := [] |>) in
  let! d := foldM race_event d [next_put; EvReady] in
  Ret (kv d).
Definition slow_run : outcome error (handler db * db) :=
  let! (d, m) := snapshot_run in
  let! d := foldM race_event d [next_put; EvReady] in
  let! kv1 := worker_run d m in
  Ret (d, kv1).

Definition race_run : outcome error (db * handler db * db) :=
  let! quick := quick_run in let! (d, slow) := slow_run in Ret (quick, d, slow).
(** The store stops before the worker gets to its task, and starts again. *)
Definition crash_run : outcome error (peer db) :=
  let! (d, _) := snapshot_run in
  createPeer race_region demo_rand demo_cfg 1 (ps_raft (storage d)) (kv d) demo_region.

(** C38. A follower can lose a committed command while it applies a snapshot. [ApplySnapshot]
    queues the data for the region worker and goes on, and the worker clears the range of the
    region before it takes the data in. If the next entry, a put of key 6, is applied before
    the worker gets to its task, the worker deletes what the put has written: the follower
    has recorded index 10 as applied and does not have key 6. Had the worker been quicker,
    both keys would be there. *)
Theorem snapshot_race_loses_write :
  exists s, race_run = Ret s /\
    (s.1.1 !! race_key 5 = Some [50] /\ s.1.1 !! race_key 6 = Some [60])
    /\ kv (s.1.2) !! race_key 6 = Some [60] /\ AppliedIndex (storage (s.1.2)) = 10
    /\ s.2 !! race_key 5 = Some [50] /\ s.2 !! race_key 6 = None.
Proof. apply (run_sat _). by vm_compute. Qed.

(** A follower that stops before the region worker has applied a snapshot never gets its
    data: the snapshot is recorded as applied, up to index 9, in the engine, the task is lost
    with the process, and after the restart key 5 is missing. *)
Theorem snapshot_crash_loses_data :
  exists p, crash_run = Ret p /\ AppliedIndex (peerStorage p) = 9
    /\ ps_tasks (peerStorage p) = [] /\ ps_kv (peerStorage p) !! race_key 5 = None.
Proof. apply (run_sat _). by vm_compute. Qed.
