(* ===== verification/PeerTickProps.v ===== *)
(** * PeerTickProps: what the clock of a peer never does

    [kv/raftstore/ticker.go] under the default configuration of [kv/config/config.go]. *)

From stdpp Require Import base option list strings gmap tactics.
From S2P Require Import Prelude.
From S2P Require Import Eraftpb.
From S2P Require Import RaftStorage.
From S2P Require Import RaftServerpb.
From S2P Require Import Raft.
From S2P Require Import RawNode.
From S2P Require Import Metapb.
From S2P Require Import Engine.
From S2P Require Import PeerStorage.
From S2P Require Import PeerStorageProps.
From S2P Require Import RaftCmdpb.
From S2P Require Import RaftstoreUtil.
From S2P Require Import Peer.
From S2P Require Import PeerMsg.
From S2P Require Import PeerRun.

Create HintDb calm.

Section Tick.
Context {D : Type} `{Badger D}.
Context (regionStateBytes : PeerState -> Region -> list Z) (snapRegion : option (list Z) -> option (option Region)).
Context (cmdBytes : RaftCmdRequest -> list Z) (rand_Int : nat -> Z) (cfg : Peer.Config) (snapOk : Z -> Z -> Z -> bool).
Abbreviation handler := (Peer.handler D).

Definition no_heartbeat (e : effect D) : Prop := match e with EHeartbeat _ _ _ _ => False | _ => True end.
(** The clock stands at [n], the heartbeat is not scheduled, and none was sent. *)
Context (n : Z).
Record calm (d : handler) : Prop := {
  qt_tick : tk_tick (pe_ticker (d_peer d)) = n;
  qt_schedule : tk_schedules (pe_ticker (d_peer d)) !! 3%nat = Some (mkSchedule (-1) 0);
  qt_out : Forall no_heartbeat (d_out d);
}.
Lemma calm_ext d d' : calm d -> pe_ticker (d_peer d') = pe_ticker (d_peer d) -> d_out d' = d_out d -> calm d'.
Proof. intros [? ? ?] H1 H2. by split; rewrite ?H1, ?H2. Qed.
Lemma calm_emit d e : no_heartbeat e -> calm d -> calm (emit d e).
Proof. intros He [? ? ?]. split; [done..|]. apply Forall_app. split; [done|by constructor]. Qed.
Lemma calm_Done d cb resp : calm d -> calm (Done d cb resp).
Proof. destruct cb; [by apply calm_emit|done]. Qed.
Ltac qsolve :=
  cbn [fst snd] in *;
  first
  [ assumption
  | exact I
  | match goal with Hk : calm ?d |- calm ?d' => apply (calm_ext d d' Hk); reflexivity end
  | apply calm_emit; [exact I|]; qsolve
  | apply calm_Done; qsolve ].
#[local] Hint Extern 1 (calm _) => qsolve : calm.
Ltac qwalk := wlp_walk ltac:(eauto 2 with calm nocore).

Lemma getPeerFromCache_ticker (p : peer D) to : pe_ticker (getPeerFromCache p to).1 = pe_ticker p.
Proof. unfold getPeerFromCache. destruct (_ !! _); [done|]. by destruct (List.find _ _). Qed.
Lemma as_error_calm {A} d (o : RaftstoreUtil.result A) k :
  calm d -> wlp k (fun x => calm x.1) -> wlp (as_error d o k) (fun x => calm x.1).
Proof. intros Hk Hw. by destruct o. Qed.
Lemma preProposeRaftCommand_calm d req : calm d -> wlp (preProposeRaftCommand d req) (fun x => calm x.1).
Proof.
  intros Hk. unfold preProposeRaftCommand. apply as_error_calm; [done|]. destruct (negb _).
  { pose proof (getPeerFromCache_ticker (d_peer d) (LeaderId (d_peer d))) as Ht. destruct (getPeerFromCache _ _) as [p leader].
    cbn [fst] in Ht. by apply (calm_ext d). }
  do 2 (apply as_error_calm; [done|]). destruct (CheckRegionEpoch _ _ _) as [?|[]| |]; try exact Hk; try exact I.
  by destruct (findSiblingRegion d).
Qed.
Lemma proposeRequest_calm d msg cb : calm d -> wlp (proposeRequest snapRegion cmdBytes rand_Int d msg cb) calm.
Proof.
  intros Hk. unfold proposeRequest. set (d1 := match cb with Some _ => _ | None => _ end).
  assert (Hk1 : calm d1) by (unfold d1; destruct cb; qsolve). clearbody d1. cbv zeta. qwalk; qsolve.
Qed.
#[local] Hint Resolve preProposeRaftCommand_calm proposeRequest_calm : calm.
Lemma proposeAdminRequest_calm d msg admin cb :
  calm d -> wlp (proposeAdminRequest snapRegion cmdBytes rand_Int d msg admin cb) calm.
Proof. intros Hk. unfold proposeAdminRequest, AdminDone. qwalk; qsolve. Qed.
#[local] Hint Resolve proposeAdminRequest_calm : calm.
Lemma proposeRaftCommand_calm d msg cb : calm d -> wlp (proposeRaftCommand snapRegion cmdBytes rand_Int d msg cb) calm.
Proof. intros Hk. unfold proposeRaftCommand. qwalk; qsolve. Qed.
Lemma reschedule_calm d tp : calm d -> wlp (reschedule d tp) calm.
Proof.
  intros [Hn Hs Ho]. unfold reschedule, schedule. destruct tp; cbn [tick_no].
  1-3: match goal with |- context [deref ?o] => destruct o as [sched|]; [|exact I] end; cbn;
       split; [done|cbn; by rewrite list_lookup_insert_ne|done].
  rewrite Hs. cbn. split; [done| |done]. cbn. rewrite list_lookup_insert_eq; [done|]. by eapply lookup_lt_Some.
Qed.
#[local] Hint Resolve proposeRaftCommand_calm reschedule_calm : calm.
Lemma onRaftBaseTick_calm d : calm d -> wlp (onRaftBaseTick snapRegion rand_Int d) calm.
Proof.
  intros Hk. unfold onRaftBaseTick. destruct (ignore_err _ _); try exact I. by apply reschedule_calm, (calm_ext d).
Qed.
Lemma onRaftGCLogTick_calm d : calm d -> wlp (onRaftGCLogTick snapRegion cmdBytes rand_Int cfg d) calm.
Proof. intros Hk. unfold onRaftGCLogTick. qwalk; qsolve. Qed.
Lemma onSplitRegionCheckTick_calm pending d : calm d -> wlp (onSplitRegionCheckTick cfg pending d) calm.
Proof.
  intros Hk. unfold onSplitRegionCheckTick. qwalk; try qsolve.
  match goal with |- calm ?x => eapply (calm_ext (emit a (ESplitCheck (region a)))); [qsolve|reflexivity..] end.
Qed.
Lemma on_calm d tp k : calm d -> (calm d -> wlp (k d) calm) ->
  wlp (let! b := isOnTick (pe_ticker (d_peer d)) tp in if b : bool then k d else Ret d : outcome error handler) calm.
Proof. intros Hk Hw. destruct (isOnTick _ _) as [[]| | |]; try exact I; auto. Qed.
(** The heartbeat is never due: the clock does not stand at -1. *)
Lemma onTick_heartbeat_calm d : 0 <= n -> calm d ->
  wlp (let! b := isOnTick (pe_ticker (d_peer d)) PeerTickSchedulerHeartbeat in
       if b : bool then onSchedulerHeartbeatTick d else Ret d : outcome error handler) calm.
Proof.
  intros Hn Hk. unfold isOnTick. cbn [tick_no]. rewrite (qt_schedule _ Hk). cbn [deref ts_runAt]. cbv beta iota.
  rewrite (qt_tick _ Hk). destruct (Z.eqb_spec (-1) n); [lia|exact Hk].
Qed.
Lemma onTick_rest_calm pending d : 0 <= n -> calm d ->
  wlp (let on tp (k : handler -> outcome error handler) d :=
         (let! b := isOnTick (pe_ticker (d_peer d)) tp in if b : bool then k d else Ret d) in
       let! d := on PeerTickRaft (onRaftBaseTick snapRegion rand_Int) d in
       let! d := on PeerTickRaftLogGC (onRaftGCLogTick snapRegion cmdBytes rand_Int cfg) d in
       let! d := on PeerTickSchedulerHeartbeat onSchedulerHeartbeatTick d in
       let! d := on PeerTickSplitRegionCheck (onSplitRegionCheckTick cfg pending) d in
       Ret (emit d (ETick (pe_regionId (d_peer d))))) calm.
Proof.
  intros Hn Hk. cbv zeta beta.
  apply wlp_bind. eapply wlp_mono; [apply on_calm; [exact Hk|apply onRaftBaseTick_calm]|]. cbn beta. clear d Hk. intros d Hk.
  apply wlp_bind. eapply wlp_mono; [apply on_calm; [exact Hk|apply onRaftGCLogTick_calm]|]. cbn beta. clear d Hk. intros d Hk.
  apply wlp_bind. eapply wlp_mono; [by apply onTick_heartbeat_calm|]. cbn beta. clear d Hk. intros d Hk.
  apply wlp_bind. eapply wlp_mono; [apply on_calm; [exact Hk|apply onSplitRegionCheckTick_calm]|]. cbn beta. clear d Hk. intros d Hk.
  qsolve.
Qed.
End Tick.

Section Default.
Context {D : Type} `{Badger D}.
Context (regionStateBytes : PeerState -> Region -> list Z) (snapRegion : option (list Z) -> option (option Region)).
Context (cmdBytes : RaftCmdRequest -> list Z) (rand_Int : nat -> Z) (snapOk : Z -> Z -> Z -> bool).
Abbreviation handle := (HandleMsg (D := D) regionStateBytes snapRegion cmdBytes rand_Int NewDefaultConfig snapOk).

Lemma start_calm d : Forall no_heartbeat (d_out d) -> wlp (handle d MsgTypeStart) (calm 0).
Proof.
  intros Ho. cbn [HandleMsg]. unfold startTicker. change (newTicker _ NewDefaultConfig) with
    (Ret (E := error) (mkTicker (pe_regionId (d_peer d)) 0
       [mkSchedule 0 1; mkSchedule 0 10; mkSchedule 0 10; mkSchedule 0 0; mkSchedule 0 0; mkSchedule 0 0])).
  cbn. split; cbn; [done..|]. apply Forall_app. split; [exact Ho|by constructor].
Qed.
(** A stopped peer does not even move its clock. *)
Lemma tick_calm n pending d : 0 <= n -> n + 1 < two63 -> calm n d ->
  wlp (handle d (MsgTypeTick pending)) (fun d' => exists m, n <= m <= n + 1 /\ calm m d').
Proof.
  intros Hn Hlt Hk. cbn [HandleMsg]. unfold onTick. destruct (pe_stopped (d_peer d)).
  { exists n. split; [lia|exact Hk]. }
  destruct Hk as [Ht Hs Ho]. set (d1 := d <| d_peer ::= _ |>). assert (Hk : calm (n + 1) d1).
  { split; [|exact Hs|exact Ho]. change (int64 (tk_tick (pe_ticker (d_peer d)) + 1) = n + 1). rewrite Ht.
    apply int64_small. unfold two63 in *. lia. }
  clearbody d1. eapply wlp_mono; [apply (onTick_rest_calm) with (n := n + 1); [lia|exact Hk]|]. intros d' Hk'. exists (n + 1). split; [lia|exact Hk'].
Qed.
Lemma ticks_calm pendings : forall n d, 0 <= n -> n + len pendings < two63 -> calm n d ->
  wlp (foldM handle d (map MsgTypeTick pendings)) (fun d' => exists m, calm m d').
Proof.
  induction pendings as [|pending pendings IH]; intros n d Hn Hlt Hk; [by exists n|]. rewrite len_cons in Hlt.
  pose proof (len_nonneg pendings). cbn [map foldM]. apply wlp_bind.
  eapply wlp_mono; [apply (tick_calm n); [lia|lia|exact Hk]|]. intros d' (m & Hm & Hk'). apply (IH m); [lia|lia|exact Hk'].
Qed.
End Default.

(** Under the default configuration a peer never sends a heartbeat of its region to the
    scheduler on a tick. The interval of the heartbeat, 100 milliseconds, is a tenth of the
    base tick of one second, so the number of ticks between two heartbeats is zero, and a
    tick with that interval is not scheduled: from the start of the peer on, no clock tick
    ever makes the leader report its region. *)
Theorem default_config_never_heartbeats {D} `{Badger D} regionStateBytes snapRegion cmdBytes rand_Int snapOk
    (d : Peer.handler D) pendings d' :
  d_out d = [] -> len pendings < two63 ->
  foldM (HandleMsg regionStateBytes snapRegion cmdBytes rand_Int NewDefaultConfig snapOk) d
    (MsgTypeStart :: map MsgTypeTick pendings) = Ret d' ->
  forall region p pending size, EHeartbeat region p pending size ∉ d_out d'.
Proof.
  intros Hout Hlen Hrun region p pending size Hin.
  assert (Hq : Forall no_heartbeat (d_out d')).
  { cbn [foldM] in Hrun. bind_inv Hrun.
    assert (H0 : calm 0 a) by (refine (wlp_inv _ _ _ (start_calm _ _ _ _ _ d _) E); by rewrite Hout).
    by destruct (wlp_inv _ _ _ (ticks_calm _ _ _ _ _ pendings 0 a (Z.le_refl 0) Hlen H0) Hrun) as [m []]. }
  by apply (proj1 (list.Forall_forall _ _) Hq) in Hin.
Qed.

Lemma default_config_never_heartbeats_witness :
  exists d', foldM (HandleMsg noBytes noRegion demo_bytes demo_rand NewDefaultConfig noSnap) sample
    (MsgTypeStart :: map MsgTypeTick [false; false; false]) = Ret d'
  /\ forall region p pending size, EHeartbeat region p pending size ∉ d_out d'.
Proof.
  destruct (run_sat (fun _ => True) (foldM (HandleMsg noBytes noRegion demo_bytes demo_rand NewDefaultConfig noSnap) sample
    (MsgTypeStart :: map MsgTypeTick [false; false; false]))) as (d' & Hd & _); [by vm_compute|].
  exists d'. split; [exact Hd|].
  exact (default_config_never_heartbeats noBytes noRegion demo_bytes demo_rand noSnap sample [false; false; false] d'
    eq_refl ltac:(vm_compute; reflexivity) Hd).
Defined.
