(* ===== verification/RaftStore.v ===== *)
(** * RaftStore: the peers of a store and the workers around them

    [kv/raftstore/raftstore.go], [router.go], [raft_worker.go], [store_worker.go] and the
    tick driver of [ticker.go].  A [peerState] is an object that the router and a running
    batch of the raft worker share, so it lives in a list and is named by its place there.
    The engines belong to the store: a handler runs on a peer with the engines put in, and
    they are taken out again afterwards; what a handler has sent is then performed in
    order.  Channels are queues without a bound.  The order in which a Go map is visited is
    that of [map_to_list]. *)

From stdpp Require Import base option list strings gmap tactics.
From S2P Require Import Prelude.
From S2P Require Import Eraftpb.
From S2P Require Import RaftServerpb.
From S2P Require Import RaftStorage.
From S2P Require Import Raft.
From S2P Require Import RawNode.
From S2P Require Import Meta.
From S2P Require Import BTree.
From S2P Require Import Metapb.
From S2P Require Import RegionInfo.
From S2P Require Import Store.
From S2P Require Import Engine.
From S2P Require Import SnapFile.
From S2P Require Import PeerStorage.
From S2P Require Import RaftCmdpb.
From S2P Require Import SnapMgr.
From S2P Require Import RaftstoreUtil.
From S2P Require Import Peer.
From S2P Require Import PeerMsg.
From S2P Require Import Runner.

Record peerState (D : Type) := mkPeerObj { po_closed : bool; po_peer : peer D }.
Arguments mkPeerObj {D}.
Arguments po_closed {D}.
Arguments po_peer {D}.

Definition StoreTickSchedulerStoreHeartbeat : Z := 1.
Definition StoreTickSnapGC : Z := 2.
Inductive StoreMsg :=
  | MsgTypeStoreRaftMessage (msg : RaftMessage)
  | MsgTypeStoreTick (tick : Z)
  | MsgTypeStoreStart (id : Z).

(** Tasks for the region worker come with the peer that waits for the snapshot. *)
Record raftstore (D : Type) := mkRaftstore {
  sr_id : Z;
  sr_kv : D;
  sr_raft : D;
  sr_objs : list (peerState D);
  sr_peers : gmap Z nat;
  sr_meta : storeMeta;
  sr_pendingVotes : list RaftMessage;
  sr_snapMgr : SnapManager;
  sr_peerCh : list (Z * Msg);
  sr_storeCh : list StoreMsg;
  sr_regionCh : list (nat * region_task);
  sr_gcCh : list RaftLogGCTask;
  sr_splitCh : list Region;
  sr_schedCh : list scheduler_task;
  sr_regions : gset Z;
  sr_ticker : ticker;
  sr_sent : list (effect D);
  sr_scheduler : list scheduler_out;
}.
Arguments mkRaftstore {D}.
Arguments sr_id {D}.
Arguments sr_kv {D}.
Arguments sr_raft {D}.
Arguments sr_objs {D}.
Arguments sr_peers {D}.
Arguments sr_meta {D}.
Arguments sr_pendingVotes {D}.
Arguments sr_snapMgr {D}.
Arguments sr_peerCh {D}.
Arguments sr_storeCh {D}.
Arguments sr_regionCh {D}.
Arguments sr_gcCh {D}.
Arguments sr_splitCh {D}.
Arguments sr_schedCh {D}.
Arguments sr_regions {D}.
Arguments sr_ticker {D}.
Arguments sr_sent {D}.
Arguments sr_scheduler {D}.
#[export] Instance set_sr_id {D} : Setter (@sr_id D) := fun g s =>
  mkRaftstore (g (sr_id s)) (sr_kv s) (sr_raft s) (sr_objs s) (sr_peers s) (sr_meta s) (sr_pendingVotes s) (sr_snapMgr s) (sr_peerCh s) (sr_storeCh s) (sr_regionCh s) (sr_gcCh s) (sr_splitCh s) (sr_schedCh s) (sr_regions s) (sr_ticker s) (sr_sent s) (sr_scheduler s).
#[export] Instance set_sr_kv {D} : Setter (@sr_kv D) := fun g s =>
  mkRaftstore (sr_id s) (g (sr_kv s)) (sr_raft s) (sr_objs s) (sr_peers s) (sr_meta s) (sr_pendingVotes s) (sr_snapMgr s) (sr_peerCh s) (sr_storeCh s) (sr_regionCh s) (sr_gcCh s) (sr_splitCh s) (sr_schedCh s) (sr_regions s) (sr_ticker s) (sr_sent s) (sr_scheduler s).
#[export] Instance set_sr_raft {D} : Setter (@sr_raft D) := fun g s =>
  mkRaftstore (sr_id s) (sr_kv s) (g (sr_raft s)) (sr_objs s) (sr_peers s) (sr_meta s) (sr_pendingVotes s) (sr_snapMgr s) (sr_peerCh s) (sr_storeCh s) (sr_regionCh s) (sr_gcCh s) (sr_splitCh s) (sr_schedCh s) (sr_regions s) (sr_ticker s) (sr_sent s) (sr_scheduler s).
#[export] Instance set_sr_objs {D} : Setter (@sr_objs D) := fun g s =>
  mkRaftstore (sr_id s) (sr_kv s) (sr_raft s) (g (sr_objs s)) (sr_peers s) (sr_meta s) (sr_pendingVotes s) (sr_snapMgr s) (sr_peerCh s) (sr_storeCh s) (sr_regionCh s) (sr_gcCh s) (sr_splitCh s) (sr_schedCh s) (sr_regions s) (sr_ticker s) (sr_sent s) (sr_scheduler s).
#[export] Instance set_sr_peers {D} : Setter (@sr_peers D) := fun g s =>
  mkRaftstore (sr_id s) (sr_kv s) (sr_raft s) (sr_objs s) (g (sr_peers s)) (sr_meta s) (sr_pendingVotes s) (sr_snapMgr s) (sr_peerCh s) (sr_storeCh s) (sr_regionCh s) (sr_gcCh s) (sr_splitCh s) (sr_schedCh s) (sr_regions s) (sr_ticker s) (sr_sent s) (sr_scheduler s).
#[export] Instance set_sr_meta {D} : Setter (@sr_meta D) := fun g s =>
  mkRaftstore (sr_id s) (sr_kv s) (sr_raft s) (sr_objs s) (sr_peers s) (g (sr_meta s)) (sr_pendingVotes s) (sr_snapMgr s) (sr_peerCh s) (sr_storeCh s) (sr_regionCh s) (sr_gcCh s) (sr_splitCh s) (sr_schedCh s) (sr_regions s) (sr_ticker s) (sr_sent s) (sr_scheduler s).
#[export] Instance set_sr_pendingVotes {D} : Setter (@sr_pendingVotes D) := fun g s =>
  mkRaftstore (sr_id s) (sr_kv s) (sr_raft s) (sr_objs s) (sr_peers s) (sr_meta s) (g (sr_pendingVotes s)) (sr_snapMgr s) (sr_peerCh s) (sr_storeCh s) (sr_regionCh s) (sr_gcCh s) (sr_splitCh s) (sr_schedCh s) (sr_regions s) (sr_ticker s) (sr_sent s) (sr_scheduler s).
#[export] Instance set_sr_snapMgr {D} : Setter (@sr_snapMgr D) := fun g s =>
  mkRaftstore (sr_id s) (sr_kv s) (sr_raft s) (sr_objs s) (sr_peers s) (sr_meta s) (sr_pendingVotes s) (g (sr_snapMgr s)) (sr_peerCh s) (sr_storeCh s) (sr_regionCh s) (sr_gcCh s) (sr_splitCh s) (sr_schedCh s) (sr_regions s) (sr_ticker s) (sr_sent s) (sr_scheduler s).
#[export] Instance set_sr_peerCh {D} : Setter (@sr_peerCh D) := fun g s =>
  mkRaftstore (sr_id s) (sr_kv s) (sr_raft s) (sr_objs s) (sr_peers s) (sr_meta s) (sr_pendingVotes s) (sr_snapMgr s) (g (sr_peerCh s)) (sr_storeCh s) (sr_regionCh s) (sr_gcCh s) (sr_splitCh s) (sr_schedCh s) (sr_regions s) (sr_ticker s) (sr_sent s) (sr_scheduler s).
#[export] Instance set_sr_storeCh {D} : Setter (@sr_storeCh D) := fun g s =>
  mkRaftstore (sr_id s) (sr_kv s) (sr_raft s) (sr_objs s) (sr_peers s) (sr_meta s) (sr_pendingVotes s) (sr_snapMgr s) (sr_peerCh s) (g (sr_storeCh s)) (sr_regionCh s) (sr_gcCh s) (sr_splitCh s) (sr_schedCh s) (sr_regions s) (sr_ticker s) (sr_sent s) (sr_scheduler s).
#[export] Instance set_sr_regionCh {D} : Setter (@sr_regionCh D) := fun g s =>
  mkRaftstore (sr_id s) (sr_kv s) (sr_raft s) (sr_objs s) (sr_peers s) (sr_meta s) (sr_pendingVotes s) (sr_snapMgr s) (sr_peerCh s) (sr_storeCh s) (g (sr_regionCh s)) (sr_gcCh s) (sr_splitCh s) (sr_schedCh s) (sr_regions s) (sr_ticker s) (sr_sent s) (sr_scheduler s).
#[export] Instance set_sr_gcCh {D} : Setter (@sr_gcCh D) := fun g s =>
  mkRaftstore (sr_id s) (sr_kv s) (sr_raft s) (sr_objs s) (sr_peers s) (sr_meta s) (sr_pendingVotes s) (sr_snapMgr s) (sr_peerCh s) (sr_storeCh s) (sr_regionCh s) (g (sr_gcCh s)) (sr_splitCh s) (sr_schedCh s) (sr_regions s) (sr_ticker s) (sr_sent s) (sr_scheduler s).
#[export] Instance set_sr_splitCh {D} : Setter (@sr_splitCh D) := fun g s =>
  mkRaftstore (sr_id s) (sr_kv s) (sr_raft s) (sr_objs s) (sr_peers s) (sr_meta s) (sr_pendingVotes s) (sr_snapMgr s) (sr_peerCh s) (sr_storeCh s) (sr_regionCh s) (sr_gcCh s) (g (sr_splitCh s)) (sr_schedCh s) (sr_regions s) (sr_ticker s) (sr_sent s) (sr_scheduler s).
#[export] Instance set_sr_schedCh {D} : Setter (@sr_schedCh D) := fun g s =>
  mkRaftstore (sr_id s) (sr_kv s) (sr_raft s) (sr_objs s) (sr_peers s) (sr_meta s) (sr_pendingVotes s) (sr_snapMgr s) (sr_peerCh s) (sr_storeCh s) (sr_regionCh s) (sr_gcCh s) (sr_splitCh s) (g (sr_schedCh s)) (sr_regions s) (sr_ticker s) (sr_sent s) (sr_scheduler s).
#[export] Instance set_sr_regions {D} : Setter (@sr_regions D) := fun g s =>
  mkRaftstore (sr_id s) (sr_kv s) (sr_raft s) (sr_objs s) (sr_peers s) (sr_meta s) (sr_pendingVotes s) (sr_snapMgr s) (sr_peerCh s) (sr_storeCh s) (sr_regionCh s) (sr_gcCh s) (sr_splitCh s) (sr_schedCh s) (g (sr_regions s)) (sr_ticker s) (sr_sent s) (sr_scheduler s).
#[export] Instance set_sr_ticker {D} : Setter (@sr_ticker D) := fun g s =>
  mkRaftstore (sr_id s) (sr_kv s) (sr_raft s) (sr_objs s) (sr_peers s) (sr_meta s) (sr_pendingVotes s) (sr_snapMgr s) (sr_peerCh s) (sr_storeCh s) (sr_regionCh s) (sr_gcCh s) (sr_splitCh s) (sr_schedCh s) (sr_regions s) (g (sr_ticker s)) (sr_sent s) (sr_scheduler s).
#[export] Instance set_sr_sent {D} : Setter (@sr_sent D) := fun g s =>
  mkRaftstore (sr_id s) (sr_kv s) (sr_raft s) (sr_objs s) (sr_peers s) (sr_meta s) (sr_pendingVotes s) (sr_snapMgr s) (sr_peerCh s) (sr_storeCh s) (sr_regionCh s) (sr_gcCh s) (sr_splitCh s) (sr_schedCh s) (sr_regions s) (sr_ticker s) (g (sr_sent s)) (sr_scheduler s).
#[export] Instance set_sr_scheduler {D} : Setter (@sr_scheduler D) := fun g s =>
  mkRaftstore (sr_id s) (sr_kv s) (sr_raft s) (sr_objs s) (sr_peers s) (sr_meta s) (sr_pendingVotes s) (sr_snapMgr s) (sr_peerCh s) (sr_storeCh s) (sr_regionCh s) (sr_gcCh s) (sr_splitCh s) (sr_schedCh s) (sr_regions s) (sr_ticker s) (sr_sent s) (g (sr_scheduler s)).

(** ** The router *)
Section Router.
Context {D : Type}.
Abbreviation raftstore := (raftstore D).

Definition get (s : raftstore) (regionID : Z) : option nat := sr_peers s !! regionID.
Definition register (s : raftstore) (p : peer D) : raftstore :=
  s <| sr_objs ::= fun l => l ++ [mkPeerObj false p] |> <| sr_peers ::= <[pe_regionId p := length (sr_objs s)]> |>.
Definition close (s : raftstore) (regionID : Z) : raftstore :=
  match get s regionID with
  | Some ps => s <| sr_objs ::= alter (fun o => mkPeerObj true (po_peer o)) ps |> <| sr_peers ::= delete regionID |>
  | None => s
  end.
(** Whether the peer was found. *)
Definition send (s : raftstore) (regionID : Z) (msg : Msg) : raftstore * bool :=
  match get s regionID ≫= fun ps => sr_objs s !! ps with
  | Some o => if po_closed o then (s, false) else (s <| sr_peerCh ::= fun ch => ch ++ [(regionID, msg)] |>, true)
  | None => (s, false)
  end.
Definition sendStore (s : raftstore) (msg : StoreMsg) : raftstore := s <| sr_storeCh ::= fun ch => ch ++ [msg] |>.
Definition SendRaftMessage (s : raftstore) (msg : RaftMessage) : raftstore :=
  match send s (ms_RegionId msg) (MsgTypeRaftMessage msg) with
  | (s, true) => s
  | (s, false) => sendStore s (MsgTypeStoreRaftMessage msg)
  end.
Definition SendRaftCommand {E} (s : raftstore) (req : RaftCmdRequest) (cb : option Z) : outcome E (raftstore * bool) :=
  let! header := deref (rq_Header req) in Ret (send s (rh_RegionId header) (MsgTypeRaftCmd req cb)).
End Router.

(** ** The ticker of the store *)
Definition SnapMgrGcTickInterval : Z := 60 * Second.
Definition newStoreTicker {E} (cfg : Config) : outcome E ticker :=
  let baseInterval := cf_RaftBaseTickInterval cfg in
  if baseInterval =? 0 then Panic else
  Ret (mkTicker 0 0 [mkSchedule 0 0;
                     mkSchedule 0 (Z.quot (cf_SchedulerStoreHeartbeatTickInterval cfg) baseInterval);
                     mkSchedule 0 (Z.quot SnapMgrGcTickInterval baseInterval);
                     mkSchedule 0 0]).
Definition isOnStoreTick {E} (t : ticker) (tp : Z) : outcome E bool :=
  let! sched := deref (tk_schedules t !! Z.to_nat tp) in Ret (ts_runAt sched =? tk_tick t).
Definition scheduleStore {E} (t : ticker) (tp : Z) : outcome E ticker :=
  let! sched := deref (tk_schedules t !! Z.to_nat tp) in
  let runAt := if ts_interval sched <=? 0 then -1 else int64 (tk_tick t + ts_interval sched) in
  Ret (mkTicker (tk_regionID t) (tk_tick t) (<[Z.to_nat tp := mkSchedule runAt (ts_interval sched)]> (tk_schedules t))).

Section Store.
Context {D : Type} `{Badger D}.
Context (regionStateBytes : PeerState -> Region -> list Z) (regionStateOf : list Z -> option (PeerState * option Region)).
Context (snapRegion : option (list Z) -> option (option Region)).
Context (cmdBytes : RaftCmdRequest -> list Z) (cmdOf : list Z -> option RaftCmdRequest).
Context (rand_Int : nat -> Z) (cfg : Config) (metaOf : list Z -> option SnapshotMeta) (expired : SnapKey -> bool).
Context (metaBytes : SnapshotMeta -> list Z) (sst_build : list (list Z * list Z) -> list Z) (ingest : D -> list (list Z) -> option D).
Context (snapDataBytes : RaftSnapshotData -> list Z) (modTime : list Z -> Z).
Context (AskSplit : Region -> option AskSplitResponse) (disk_Usage : option Z) (engine_Size : Z * Z).
#[local] Instance store_storage : Storage (PeerStorage D) := Storage_PeerStorage snapRegion.
Abbreviation raftstore := (raftstore D).
Abbreviation result A := (outcome error A).

(** ** Running a handler *)
Definition loads (s : raftstore) (key : SnapKey) (isSending : bool) : bool :=
  match snd ((if isSending then GetSnapshotForSending metaOf key else GetSnapshotForApplying metaOf key) (sr_snapMgr s)) with
  | Ret _ => true | _ => false
  end.
Definition snapOk (s : raftstore) (regionID term index : Z) : bool := loads s (mkSnapKey regionID term index) false.
(** What a message means when it is handled. *)
Definition resolve (s : raftstore) (msg : Msg) : Msg :=
  match msg with
  | MsgTypeTick _ => MsgTypeTick (len (sr_splitCh s) >? 0)
  | MsgTypeGcSnap snaps =>
    MsgTypeGcSnap (map (fun f => let key := mkSnapKey (sf_RegionID f) (sf_Term f) (sf_Index f) in
                                 mkSnapFile (sf_RegionID f) (sf_Term f) (sf_Index f) (sf_IsSending f)
                                   (loads s key (sf_IsSending f)) (expired key)) snaps)
  | _ => msg
  end.
Definition deleteSnap (s : raftstore) (key : SnapKey) (isSending : bool) : raftstore * option snap_error :=
  match (if isSending then GetSnapshotForSending metaOf key else GetSnapshotForApplying metaOf key) (sr_snapMgr s) with
  | (m, Ret snapshot) => (s <| sr_snapMgr := fst (DeleteSnapshot key snapshot false m) |>, None)
  | (m, Err e) => (s <| sr_snapMgr := m |>, Some e)
  | (m, _) => (s <| sr_snapMgr := m |>, None)
  end.
Definition perform (s : raftstore) (e : effect D) : result raftstore :=
  match e with
  | ERegister p => Ret (register s p)
  | EClose regionID => Ret (close s regionID)
  | EStart regionID => let (s, ok) := send s regionID MsgTypeStart in if ok : bool then Ret s else Panic
  | EStoreMsg msg => Ret (sendStore s (MsgTypeStoreRaftMessage msg))
  | ETick regionID => Ret (s <| sr_regions ::= fun r => {[regionID]} ∪ r |>)
  | ERaftLogGC regionID startIdx endIdx => Ret (s <| sr_gcCh ::= fun ch => ch ++ [mkRaftLogGCTask regionID startIdx endIdx] |>)
  | EHeartbeat region p pending size =>
    Ret (s <| sr_schedCh ::= fun ch => ch ++ [SchedulerRegionHeartbeatTask region p pending size] |>)
  | ESplitCheck region => Ret (s <| sr_splitCh ::= fun ch => ch ++ [region] |>)
  | EAskSplit region splitKey p cb => Ret (s <| sr_schedCh ::= fun ch => ch ++ [SchedulerAskSplitTask region splitKey p cb] |>)
  | EDeleteSnap regionID term index isSending => Ret (fst (deleteSnap s (mkSnapKey regionID term index) isSending))
  | EDone _ _ | ETxn _ _ | ESend _ => Ret (s <| sr_sent ::= fun l => l ++ [e] |>)
  end.
(** The peer with the engines of the store. *)
Definition with_engines (s : raftstore) (p : peer D) : peer D :=
  setStorage p ((peerStorage p) <| ps_raft := sr_raft s |> <| ps_kv := sr_kv s |>).
Definition run_peer (s : raftstore) (ps : nat) (f : Peer.handler D -> result (Peer.handler D)) : result raftstore :=
  let! o := deref (sr_objs s !! ps) in
  let! d := f (mkHandler (with_engines s (po_peer o)) (sr_meta s) []) in
  let st := storage d in
  let s := s <| sr_objs ::= <[ps := mkPeerObj (po_closed o) (setStorage (d_peer d) (st <| ps_tasks := [] |>))]> |>
             <| sr_kv := ps_kv st |> <| sr_raft := ps_raft st |> <| sr_meta := d_storeMeta d |>
             <| sr_regionCh ::= fun ch => ch ++ map (pair ps) (ps_tasks st) |> in
  foldM perform s (d_out d).
Definition handlePeerMsg (s : raftstore) (ps : nat) (msg : Msg) : result raftstore :=
  run_peer s ps (fun d => HandleMsg regionStateBytes snapRegion cmdBytes rand_Int cfg (snapOk s) d (resolve s msg)).
Definition handleRaftReady (s : raftstore) (ps : nat) : result raftstore :=
  run_peer s ps (HandleRaftReady regionStateBytes snapRegion cmdOf rand_Int cfg).

(** ** The raft worker *)
(** The peers of a batch are looked up once. *)
Definition getPeerState (s : raftstore) (peersMap : gmap Z nat) (regionID : Z) : gmap Z nat * option nat :=
  match peersMap !! regionID with
  | Some ps => (peersMap, Some ps)
  | None => match get s regionID with
            | Some ps => (<[regionID := ps]> peersMap, Some ps)
            | None => (peersMap, None)
            end
  end.
Fixpoint batchLoop (s : raftstore) (peersMap : gmap Z nat) (msgs : list (Z * Msg)) : result (raftstore * gmap Z nat) :=
  match msgs with
  | [] => Ret (s, peersMap)
  | (regionID, msg) :: msgs =>
    match getPeerState s peersMap regionID with
    | (peersMap, None) => batchLoop s peersMap msgs
    | (peersMap, Some ps) => let! s := handlePeerMsg s ps msg in batchLoop s peersMap msgs
    end
  end.
(** One round of [run], which takes [n] messages. *)
Definition raftWorker_run (n : nat) (s : raftstore) : result raftstore :=
  let msgs := take n (sr_peerCh s) in
  let! (s, peersMap) := batchLoop (s <| sr_peerCh ::= drop n |>) ∅ msgs in
  foldM handleRaftReady s (map snd (map_to_list peersMap)).

(** ** The store worker *)
Definition GetRegionState (s : raftstore) (regionID : Z) : result (option (PeerState * option Region)) :=
  match db_get (sr_kv s) (RegionStateKey regionID) with
  | None => Ret None
  | Some val => match regionStateOf val with Some st => Ret (Some st) | None => Err (ErrMsg "unmarshal") end
  end.
(** The new state, and whether the message can be dropped. *)
Definition checkMsg (s : raftstore) (msg : RaftMessage) : result (raftstore * bool) :=
  let regionID := ms_RegionId msg in
  let! message := deref (ms_Message msg) in
  let isVoteMsg := IsVoteMessage message in
  let! fromPeer := deref (ms_FromPeer msg) in
  let! localState := GetRegionState s regionID in
  match localState with
  | None => Ret (s, false)
  | Some (PeerState_Tombstone, region) =>
    let! region := deref region in
    let! fromEpoch := deref (ms_RegionEpoch msg) in
    let! regionEpoch := deref (rg_RegionEpoch region) in
    if IsEpochStale fromEpoch regionEpoch then
      let notExist := match FindPeer region (p_StoreId fromPeer) with None => true | Some _ => false end in
      if isVoteMsg && notExist then
        Ret (s <| sr_sent ::= fun l => l ++ [ESend (mkRaftMessage regionID (ms_ToPeer msg) (ms_FromPeer msg) None
                                               (Some regionEpoch) true [] [])] |>, true)
      else Ret (s, true)
    else if ep_ConfVer fromEpoch =? ep_ConfVer regionEpoch then Err (ErrMsg "tombstone peer received an invalid message")
    else Ret (s, false)
  | Some (_, _) =>
    if IsFirstVoteMessage message then
      match me_regions (sr_meta s) !! regionID with
      | Some _ => Ret (s, false)
      | None => Ret (s <| sr_pendingVotes ::= fun l => l ++ [msg] |>, true)
      end
    else Err (ErrMsg "region not exists but not tombstone")
  end.
(** Whether there is a peer now. *)
Definition maybeCreatePeer (s : raftstore) (regionID : Z) (msg : RaftMessage) : result (raftstore * bool) :=
  match me_regions (sr_meta s) !! regionID with
  | Some _ => Ret (s, true)
  | None =>
    let! message := deref (ms_Message msg) in
    if negb (IsInitialMsg message) then Ret (s, false) else
    let! overlaps := getOverlapRegions (sr_meta s)
                       (zero_Region <| rg_StartKey := ms_StartKey msg |> <| rg_EndKey := ms_EndKey msg |>) in
    match overlaps with
    | _ :: _ =>
      if IsFirstVoteMessage message then Ret (s <| sr_pendingVotes ::= fun l => l ++ [msg] |>, false) else Ret (s, false)
    | [] =>
      let! toPeer := deref (ms_ToPeer msg) in
      let! p := replicatePeer snapRegion rand_Int cfg (sr_id s) (sr_raft s) (sr_kv s) regionID toPeer in
      let s := s <| sr_raft := ps_raft (peerStorage p) |> <| sr_kv := ps_kv (peerStorage p) |>
                 <| sr_meta ::= fun m => mkStoreMeta (me_regionRanges m) (<[regionID := getRegion p]> (me_regions m)) |> in
      let s := register s p in
      Ret (fst (send s regionID MsgTypeStart), true)
    end
  end.
(** The arguments of the log line are evaluated. *)
Definition onRaftMessage (s : raftstore) (msg : RaftMessage) : result raftstore :=
  let regionID := ms_RegionId msg in
  match send s regionID (MsgTypeRaftMessage msg) with
  | (s, true) => Ret s
  | (s, false) =>
    let! _ := deref (ms_FromPeer msg) in
    let! toPeer := deref (ms_ToPeer msg) in
    if negb (p_StoreId toPeer =? sr_id s) then Ret s else
    match ms_RegionEpoch msg with
    | None => Ret s
    | Some _ =>
      if ms_IsTombstone msg then Ret s else
      let! (s, ok) := checkMsg s msg in
      if ok : bool then Ret s else
      let! (s, created) := maybeCreatePeer s regionID msg in
      if negb created then Ret s else
      Ret (fst (send s regionID (MsgTypeRaftMessage msg)))
    end
  end.

Definition storeHeartbeatScheduler (s : raftstore) : raftstore :=
  s <| sr_schedCh ::= fun ch => ch ++ [SchedulerStoreHeartbeatTask (mkStoreStats (sr_id s) 0 0 (Z.of_nat (size (me_regions (sr_meta s))) mod 2 ^ 32) 0 0 0 0 false 0)] |>.
Definition reschedule_store (s : raftstore) (tp : Z) : result raftstore :=
  let! t := scheduleStore (sr_ticker s) tp in Ret (s <| sr_ticker := t |>).
Definition onSchedulerStoreHeartbeatTick (s : raftstore) : result raftstore :=
  reschedule_store (storeHeartbeatScheduler s) StoreTickSchedulerStoreHeartbeat.

(** Snapshots of a region without a peer are deleted: the first error ends the loop. *)
Fixpoint deleteSnaps (s : raftstore) (keys : list (SnapKey * bool)) : raftstore * option snap_error :=
  match keys with
  | [] => (s, None)
  | (key, isSending) :: keys =>
    match deleteSnap s key isSending with
    | (s, Some e) => (s, Some e)
    | (s, None) => deleteSnaps s keys
    end
  end.
Definition scheduleGCSnap (s : raftstore) (regionID : Z) (keys : list (SnapKey * bool)) : raftstore * option snap_error :=
  let gcSnap := MsgTypeGcSnap (map (fun '(key, isSending) =>
                  mkSnapFile (sk_RegionID key) (sk_Term key) (sk_Index key) isSending false false) keys) in
  match send s regionID gcSnap with
  | (s, true) => (s, None)
  | (s, false) => deleteSnaps s keys
  end.
Fixpoint gcSnapLoop (s : raftstore) (lastRegionID : Z) (keys : list (SnapKey * bool)) (snapKeys : list (SnapKey * bool))
    : raftstore * option snap_error :=
  match snapKeys with
  | [] => match keys with [] => (s, None) | _ => scheduleGCSnap s lastRegionID keys end
  | snap :: snapKeys =>
    let regionID := sk_RegionID (fst snap) in
    if lastRegionID =? regionID then gcSnapLoop s lastRegionID (keys ++ [snap]) snapKeys else
    match (match keys with [] => (s, None) | _ => scheduleGCSnap s lastRegionID keys end) with
    | (s, Some e) => (s, Some e)
    | (s, None) => gcSnapLoop s regionID [snap] snapKeys
    end
  end.
Definition handleSnapMgrGC (s : raftstore) : result (raftstore * option snap_error) :=
  match ListIdleSnap (sr_snapMgr s) with
  | Ret snapKeys => Ret (gcSnapLoop s 0 [] snapKeys)
  | Err e => Ret (s, Some e)
  | Panic => Panic
  | OutOfFuel => OutOfFuel
  end.
Definition onSnapMgrGC (s : raftstore) : result raftstore :=
  let! (s, _) := handleSnapMgrGC s in reschedule_store s StoreTickSnapGC.
Definition onStoreTick (s : raftstore) (tick : Z) : result raftstore :=
  if tick =? StoreTickSchedulerStoreHeartbeat then onSchedulerStoreHeartbeatTick s else
  if tick =? StoreTickSnapGC then onSnapMgrGC s else Ret s.
(** [d.id] is only logged. *)
Definition startStore (s : raftstore) : result raftstore :=
  let! s := reschedule_store s StoreTickSchedulerStoreHeartbeat in reschedule_store s StoreTickSnapGC.
(** An error is logged. *)
Definition handleMsg (s : raftstore) (msg : StoreMsg) : result raftstore :=
  match msg with
  | MsgTypeStoreRaftMessage m => match onRaftMessage s m with Err _ => Ret s | r => r end
  | MsgTypeStoreTick tick => onStoreTick s tick
  | MsgTypeStoreStart _ => startStore s
  end.
Definition storeWorker_run (s : raftstore) : result raftstore :=
  match sr_storeCh s with
  | [] => Ret s
  | msg :: ch => handleMsg (s <| sr_storeCh := ch |>) msg
  end.

(** ** The tick driver *)
Fixpoint tickStores {E} (t : ticker) (n : nat) (i : Z) (ch : list StoreMsg) : outcome E (list StoreMsg) :=
  match n with
  | O => Ret ch
  | S n =>
    let! on := isOnStoreTick t i in
    tickStores t n (i + 1) (if on : bool then ch ++ [MsgTypeStoreTick i] else ch)
  end.
Definition tickStore (s : raftstore) : result raftstore :=
  let t := tickClock (sr_ticker s) in
  let! ch := tickStores t (length (tk_schedules t)) 0 (sr_storeCh s) in
  Ret (s <| sr_ticker := t |> <| sr_storeCh := ch |>).
(** A tick: a region without a peer is forgotten. *)
Definition tickDriver_run (s : raftstore) : result raftstore :=
  let s := foldl (fun s regionID =>
                    match send s regionID (MsgTypeTick false) with
                    | (s, true) => s
                    | (s, false) => s <| sr_regions ::= fun r => r ∖ {[regionID]} |>
                    end) s (elements (sr_regions s)) in
  tickStore s.

(** ** The other workers take one task *)
Definition gcWorker_run (s : raftstore) : result raftstore :=
  match sr_gcCh s with
  | [] => Ret s
  | t :: ch =>
    match HandleGCTask (sr_raft s) t with
    | Ret (raft, _) => Ret (s <| sr_gcCh := ch |> <| sr_raft := raft |>)
    | OutOfFuel => OutOfFuel
    | _ => Panic
    end
  end.
(** A snapshot goes to the peer that has asked for it; an error of the worker ends the process. *)
Definition notify (s : raftstore) (ps : nat) (snapshot : option Snapshot) : raftstore :=
  s <| sr_objs ::= alter (fun o => mkPeerObj (po_closed o)
         (setStorage (po_peer o) ((peerStorage (po_peer o)) <| ps_receiver := Some snapshot |>))) ps |>.
Definition regionWorker_run (s : raftstore) : result raftstore :=
  match sr_regionCh s with
  | [] => Ret s
  | (ps, t) :: ch =>
    match HandleRegionTask metaBytes metaOf sst_build ingest snapDataBytes regionStateOf modTime
            (sr_raft s) (sr_kv s) t (sr_snapMgr s) with
    | (m, Ret (kv, snapshot)) =>
      let s := s <| sr_regionCh := ch |> <| sr_snapMgr := m |> <| sr_kv := kv |> in
      Ret (match snapshot with Some snapshot => notify s ps snapshot | None => s end)
    | (_, OutOfFuel) => OutOfFuel
    | _ => Panic
    end
  end.
Definition splitWorker_run (s : raftstore) : result raftstore :=
  match sr_splitCh s with
  | [] => Ret s
  | region :: ch =>
    let! msgs := HandleSplitCheck (sr_kv s) (newSizeSplitChecker (cf_RegionMaxSize cfg) (cf_RegionSplitSize cfg)) region in
    Ret (foldl (fun s msg => fst (send s (rg_Id region) msg)) (s <| sr_splitCh := ch |>) msgs)
  end.
Definition to_scheduler (s : raftstore) (o : scheduler_out) : raftstore :=
  match o with
  | ToRegion regionID msg => fst (send s regionID msg)
  | _ => s <| sr_scheduler ::= fun l => l ++ [o] |>
  end.
Definition schedulerWorker_run (s : raftstore) : raftstore :=
  match sr_schedCh s with
  | [] => s
  | t :: ch => foldl to_scheduler (s <| sr_schedCh := ch |>) (HandleSchedulerTask AskSplit disk_Usage engine_Size t)
  end.
(** An answer of the scheduler to a heartbeat, with the new callback. *)
Definition onHeartbeatResponse (s : raftstore) (cb : Z) (resp : RegionHeartbeatResponse) : raftstore :=
  foldl to_scheduler s (onRegionHeartbeatResponse cb resp).

(** ** Starting a store *)
Definition clearStaleMeta (raft : D) (kvWB raftWB : WriteBatch) (region : Region) : result (WriteBatch * WriteBatch) :=
  match GetRaftLocalState raft (rg_Id region) with
  | Err _ => Ret (kvWB, raftWB)
  | Panic => Panic
  | OutOfFuel => OutOfFuel
  | Ret raftState =>
    match ClearMeta raft kvWB raftWB (rg_Id region) (rl_LastIndex raftState) with
    | Ret (kvWB, raftWB) =>
      let val := regionStateBytes PeerState_Tombstone region in
      let key := RegionStateKey (rg_Id region) in
      Ret (wb.add kvWB key val (len key + len val), raftWB)
    | OutOfFuel => OutOfFuel
    | _ => Panic
    end
  end.
(** The iteration over the keys of the region states. *)
Fixpoint loadLoop (s : raftstore) (it : list (list Z * list Z)) (kvWB raftWB : WriteBatch) (peers : list (peer D))
    : result (raftstore * WriteBatch * WriteBatch * list (peer D)) :=
  match it with
  | [] => Ret (s, kvWB, raftWB, peers)
  | (key, val) :: it =>
    if Compare key RegionMetaMaxKey >=? 0 then Ret (s, kvWB, raftWB, peers) else
    match DecodeRegionMetaKey key with
    | Err _ => Err (ErrMsg "decode region meta key")
    | Panic => Panic
    | OutOfFuel => OutOfFuel
    | Ret (regionID, suffix) =>
      if negb (suffix =? RegionStateSuffix) then loadLoop s it kvWB raftWB peers else
      match regionStateOf val with
      | None => Err (ErrMsg "unmarshal")
      | Some (state, region) =>
        let! region := deref region in
        match state with
        | PeerState_Tombstone =>
          let! (kvWB, raftWB) := clearStaleMeta (sr_raft s) kvWB raftWB region in
          loadLoop s it kvWB raftWB peers
        | PeerState_Normal =>
          let! p := createPeer snapRegion rand_Int cfg (sr_id s) (sr_raft s) (sr_kv s) region in
          let! (tree, _) := ReplaceOrInsert regionLess (me_regionRanges (sr_meta s)) region in
          let s := s <| sr_raft := ps_raft (peerStorage p) |> <| sr_kv := ps_kv (peerStorage p) |>
                     <| sr_meta ::= fun m => mkStoreMeta tree (<[regionID := region]> (me_regions m)) |> in
          loadLoop s it kvWB raftWB (peers ++ [p])
        end
      end
    end
  end.
Definition loadPeers (s : raftstore) : result (raftstore * list (peer D)) :=
  let! (s, kvWB, raftWB, peers) := loadLoop s (db_from (sr_kv s) RegionMetaMinKey) new_WriteBatch new_WriteBatch [] in
  Ret (s <| sr_kv := wb.WriteToDB kvWB (sr_kv s) |> <| sr_raft := wb.WriteToDB raftWB (sr_raft s) |>, peers).
Definition startWorkers (s : raftstore) (peers : list (peer D)) : raftstore :=
  let s := sendStore s (MsgTypeStoreStart (sr_id s)) in
  foldl (fun s p => fst (send s (pe_regionId p) MsgTypeStart)) s peers.
Definition start (storeID : Z) (kv raft : D) (snapMgr : SnapManager) : result raftstore :=
  let! _ := Validate cfg in
  let! meta := newStoreMeta in
  let! t := newStoreTicker cfg in
  let s := mkRaftstore storeID kv raft [] ∅ meta [] (Init snapMgr) [] [] [] [] [] [] ∅ t [] [] in
  let! (s, peers) := loadPeers s in
  let s := foldl register s peers in
  Ret (startWorkers s peers).

(** ** A running store: its goroutines take turns, and messages and commands come in *)
Inductive store_step : raftstore -> raftstore -> Prop :=
  | step_raftWorker n s s' : raftWorker_run n s = Ret s' -> store_step s s'
  | step_storeWorker s s' : storeWorker_run s = Ret s' -> store_step s s'
  | step_tickDriver s s' : tickDriver_run s = Ret s' -> store_step s s'
  | step_gcWorker s s' : gcWorker_run s = Ret s' -> store_step s s'
  | step_regionWorker s s' : regionWorker_run s = Ret s' -> store_step s s'
  | step_splitWorker s s' : splitWorker_run s = Ret s' -> store_step s s'
  | step_schedulerWorker s : store_step s (schedulerWorker_run s)
  | step_response s cb resp : store_step s (onHeartbeatResponse s cb resp)
  | step_message s msg : store_step s (SendRaftMessage s msg)
  | step_command s req cb s' ok : SendRaftCommand (E := error) s req cb = Ret (s', ok) -> store_step s s'.
Inductive running (storeID : Z) (kv raft : D) (snapMgr : SnapManager) : raftstore -> Prop :=
  | running_start s : start storeID kv raft snapMgr = Ret s -> running storeID kv raft snapMgr s
  | running_step s s' : running storeID kv raft snapMgr s -> store_step s s' -> running storeID kv raft snapMgr s'.
End Store.
