(* ===== verification/RaftStoreProps.v ===== *)
(** * RaftStoreProps: what a store keeps true while its workers run

    The router only knows live peers, a destroyed peer is not made again by an old message,
    and a store that starts finds the regions it has on disk. *)

From stdpp Require Import base option list strings gmap tactics.
From S2P Require Import Prelude.
From S2P Require Import Eraftpb.
From S2P Require Import RaftServerpb.
From S2P Require Import RaftStorage.
From S2P Require Import Raft.
From S2P Require Import RawNode.
From S2P Require Import Meta.
From S2P Require Import BTree.
From S2P Require Import Metapb.
From S2P Require Import RegionInfo.
From S2P Require Import Store.
From S2P Require Import Engine.
From S2P Require Import PeerStorage.
From S2P Require Import RaftCmdpb.
From S2P Require Import SnapFile.
From S2P Require Import SnapMgr.
From S2P Require Import RaftstoreUtil.
From S2P Require Import Peer.
From S2P Require Import PeerMsg.
From S2P Require Import Runner.
From S2P Require Import RaftStore.

Create HintDb hok.

(** ** What a handler does to its peer *)
Section Handler.
Context {D : Type} `{Badger D}.
Context (regionStateBytes : PeerState -> Region -> list Z) (snapRegion : option (list Z) -> option (option Region)).
Context (cmdBytes : RaftCmdRequest -> list Z) (cmdOf : list Z -> option RaftCmdRequest).
Context (rand_Int : nat -> Z) (cfg : Peer.Config) (snapOk : Z -> Z -> Z -> bool).
Abbreviation handler := (Peer.handler D).

Definition live_effect (e : effect D) : Prop := match e with ERegister p => pe_stopped p = false | _ => True end.
(** The peer is that of region [id]; unless it was stopped before, its router entry is closed
    when it stops; and new peers are not stopped. *)
Context (id : Z) (was : bool).
Record hok (d : handler) : Prop := mkHok {
  hok_id : pe_regionId (d_peer d) = id;
  hok_stop : pe_stopped (d_peer d) = true -> was = true \/ EClose id ∈ d_out d;
  hok_live : Forall live_effect (d_out d);
}.
Lemma hok_ext d d' : hok d -> pe_regionId (d_peer d') = pe_regionId (d_peer d) ->
  pe_stopped (d_peer d') = pe_stopped (d_peer d) -> d_out d' = d_out d -> hok d'.
Proof. intros [Hi Hs Hl] H1 H2 H3. split; [congruence|rewrite H2, H3; exact Hs|rewrite H3; exact Hl]. Qed.
Lemma hok_emit d e : live_effect e -> hok d -> hok (emit d e).
Proof.
  intros He [Hi Hs Hl]. split; [exact Hi| |].
  - intros Hst. destruct (Hs Hst) as [?|?]; [by left|right]. apply elem_of_app. by left.
  - apply Forall_app. split; [exact Hl|by constructor].
Qed.
Lemma hok_Done d cb resp : hok d -> hok (Done d cb resp).
Proof. destruct cb; [by apply hok_emit|done]. Qed.

(** [hok] goals: the handler is a known one with other fields changed, or has sent more. *)
Ltac hsolve :=
  cbn [fst snd] in *;
  first
  [ assumption
  | exact I
  | match goal with Hk : hok ?d |- hok ?d' => apply (hok_ext d d' Hk); reflexivity end
  | apply hok_emit; [exact I|]; hsolve
  | apply hok_Done; hsolve ].
#[local] Hint Extern 1 (hok _) => hsolve : hok.
(** Walk through a handler: a call with a lemma is replaced by what the lemma says. *)
Ltac hwalk := wlp_walk ltac:(eauto 2 with hok nocore).

Lemma popProposal_hok d term index : hok d -> hok (popProposal d term index).1.
Proof. intros Hk. unfold popProposal. destruct (popProposals _ _ _) as [[rest [cb|]] p]; eauto 2 with hok nocore. Qed.
Lemma failProposal_hok d ent err : hok d -> hok (failProposal d ent err).
Proof.
  intros Hk. unfold failProposal. pose proof (popProposal_hok d (e_Term ent) (e_Index ent) Hk) as Hp.
  destruct (popProposal _ _ _) as [d' [p|]]; eauto 2 with hok nocore.
Qed.
#[local] Hint Resolve failProposal_hok : hok.
Lemma checkRegionVersion_hok d ent ep : hok d -> wlp (checkRegionVersion d ent ep) (fun x => hok x.1).
Proof. intros Hk. unfold checkRegionVersion. hwalk; eauto 2 with hok nocore. Qed.
Lemma checkKeyRange_hok d ent req : hok d -> wlp (checkKeyRange d ent req) (fun x => hok x.1).
Proof. intros Hk. unfold checkKeyRange. hwalk; eauto 2 with hok nocore. Qed.
Lemma respond_hok d req p : hok d -> wlp (respond d req p) (fun x => hok x.1).
Proof. intros Hk. unfold respond. hwalk; eauto 2 with hok nocore. Qed.
#[local] Hint Resolve checkRegionVersion_hok checkKeyRange_hok respond_hok : hok.
Lemma handleProposal_hok d req ent b : hok d -> wlp (handleProposal d req ent b) (fun x => hok x.1).
Proof.
  intros Hk. unfold handleProposal. pose proof (popProposal_hok d (e_Term ent) (e_Index ent) Hk) as Hp.
  destruct (popProposal _ _ _) as [d' [p|]]; hwalk; eauto 2 with hok nocore.
Qed.
#[local] Hint Resolve handleProposal_hok : hok.
Lemma handleRequest_hok d msg ent b : hok d -> wlp (handleRequest d msg ent b) (fun x => hok x.1).
Proof. intros Hk. unfold handleRequest. hwalk; eauto 2 with hok nocore. Qed.
#[local] Hint Resolve handleRequest_hok : hok.

Lemma Destroy_hok d : hok d -> wlp (Destroy regionStateBytes d) hok.
Proof.
  intros Hk. unfold Destroy. destruct (clearMeta _ _ _) as [[kvWB raftWB]| | |]; try exact I. cbv zeta.
  match goal with |- context [if ?c then ?x else ?y] =>
    assert (Hk2 : hok (if c then x else y)) by (destruct c; hsolve); revert Hk2; generalize (if c then x else y) end.
  clear d Hk. intros d2 Hk2. apply wlp_ret.
  assert (Hf : hok (foldl (fun d p => Done d (Some (pp_cb p)) (ErrResp (ErrRegionNotFound (rg_Id (region d))))) d2
                      (pe_proposals (d_peer d2)))) by (apply foldl_inv; [exact Hk2|intros; hsolve]).
  hsolve.
Qed.
Lemma hok_closed d : hok d -> hok ((emit d (EClose id)) <| d_peer ::= fun p => p <| pe_stopped := true |> |>).
Proof.
  intros [Hi Hs Hl]. split; [exact Hi| |].
  - intros _. right. apply elem_of_app. right. by apply list_elem_of_singleton.
  - apply Forall_app. split; [exact Hl|by constructor].
Qed.
#[local] Hint Resolve Destroy_hok : hok.
Lemma destroyPeer_hok d : hok d -> wlp (destroyPeer regionStateBytes d) hok.
Proof.
  intros Hk. unfold destroyPeer. rewrite (hok_id _ Hk). cbv zeta.
  generalize (isInitialized (storage d)). intros initialized. apply wlp_bind.
  eapply wlp_mono; [by apply Destroy_hok|]. cbn beta. clear d Hk. intros d Hk%hok_closed. revert Hk.
  generalize ((emit d (EClose id)) <| d_peer ::= fun p => p <| pe_stopped := true |> |>). clear d. intros d Hk.
  apply wlp_bind. eapply (wlp_mono _ hok); [hwalk; hsolve|]. clear d Hk. cbn beta. intros d Hk. hwalk; hsolve.
Qed.
#[local] Hint Resolve destroyPeer_hok : hok.
Lemma applyCompactLog_hok d c b : hok d -> wlp (applyCompactLog d c b) (fun x => hok x.1).
Proof. intros Hk. unfold applyCompactLog, ScheduleCompactLog. hwalk; hsolve. Qed.
Lemma changePeer_hok d cc msg : hok d -> wlp (changePeer regionStateBytes d cc msg) (fun x => hok x.1.1).
Proof. intros Hk. unfold changePeer. hwalk; hsolve. Qed.
#[local] Hint Resolve applyCompactLog_hok changePeer_hok : hok.
Lemma applyChangePeer_hok d ent b : hok d -> wlp (applyChangePeer regionStateBytes snapRegion cmdOf d ent b) (fun x => hok x.1).
Proof. intros Hk. unfold applyChangePeer. hwalk; hsolve. Qed.
Lemma regionSplit_hok d r req : hok d -> wlp (regionSplit regionStateBytes d r req) (fun x => hok x.1).
Proof. intros Hk. unfold regionSplit. hwalk; hsolve. Qed.
#[local] Hint Resolve applyChangePeer_hok regionSplit_hok : hok.
(** A new peer is that of its region, and runs. *)
Definition fresh_peer (regionID : Z) (p : peer D) : Prop := pe_regionId p = regionID /\ pe_stopped p = false.
Lemma NewPeer_fresh storeId raft kv region metaPeer :
  wlp (NewPeer snapRegion rand_Int cfg storeId raft kv region metaPeer) (fresh_peer (rg_Id region)).
Proof. unfold NewPeer. hwalk; split; reflexivity. Qed.
Lemma createPeer_fresh storeId raft kv region :
  wlp (createPeer snapRegion rand_Int cfg storeId raft kv region) (fresh_peer (rg_Id region)).
Proof. unfold createPeer. destruct (FindPeer _ _); [apply NewPeer_fresh|exact I]. Qed.
Lemma applySplit_hok d split b : hok d -> wlp (applySplit regionStateBytes snapRegion rand_Int cfg d split b) (fun x => hok x.1).
Proof.
  intros Hk. unfold applySplit. cbv zeta. do 2 (destruct (negb _); [exact Hk|]).
  apply wlp_bind. eapply wlp_mono; [by apply regionSplit_hok|]. intros [d1 newRegion] Hk1. cbn [fst] in Hk1.
  pose proof (createPeer_fresh (p_StoreId (pe_Meta (d_peer d1))) (ps_raft (storage d1)) (PeerMsg.kv d1) newRegion) as Hp.
  destruct (createPeer _ _ _ _ _ _ _) as [p| | |]; try exact I. destruct Hp as [_ Hp].
  destruct (ReplaceOrInsert _ _ _) as [[tree old]| | |]; try exact I.
  cbn. apply hok_emit; [exact I|]. apply hok_emit; [exact Hp|]. hsolve.
Qed.
#[local] Hint Resolve applySplit_hok : hok.
Lemma handleAdminRequest_hok d msg ent b :
  hok d -> wlp (handleAdminRequest regionStateBytes snapRegion cmdOf rand_Int cfg d msg ent b) (fun x => hok x.1).
Proof. intros Hk. unfold handleAdminRequest. hwalk; hsolve. Qed.
#[local] Hint Resolve handleAdminRequest_hok : hok.
Lemma applyEntry_hok d ent data b :
  hok d -> wlp (applyEntry regionStateBytes snapRegion cmdOf rand_Int cfg d ent data b) (fun x => hok x.1).
Proof. intros Hk. unfold applyEntry. hwalk; hsolve. Qed.
Lemma commitLoop_hok ents : forall d b,
  hok d -> wlp (commitLoop regionStateBytes snapRegion cmdOf rand_Int cfg d ents b) (fun x => hok x.1).
Proof.
  induction ents as [|ent ents IH]; intros d b Hk; [exact Hk|]. cbn [commitLoop].
  destruct (e_Data ent) as [data|]; [|by apply IH]. apply wlp_bind. eapply wlp_mono; [by apply applyEntry_hok|].
  intros [d1 b1] Hk1. destruct (pe_stopped _); [exact Hk1|by apply IH].
Qed.
#[local] Hint Resolve commitLoop_hok : hok.
Lemma HandleCommitEnts_hok d ents :
  hok d -> wlp (HandleCommitEnts regionStateBytes snapRegion cmdOf rand_Int cfg d ents) hok.
Proof. intros Hk. unfold HandleCommitEnts. hwalk; hsolve. Qed.
Lemma mayUpdateRegion_hok d res : hok d -> wlp (mayUpdateRegion d res) hok.
Proof. intros Hk. unfold mayUpdateRegion. hwalk; hsolve. Qed.
Lemma getPeerFromCache_keeps (p : peer D) to :
  let q := (getPeerFromCache p to).1 in pe_regionId q = pe_regionId p /\ pe_stopped q = pe_stopped p.
Proof. unfold getPeerFromCache. destruct (_ !! _); [done|]. by destruct (List.find _ _). Qed.
Lemma hok_peer d p : hok d -> pe_regionId p = pe_regionId (d_peer d) -> pe_stopped p = pe_stopped (d_peer d) ->
  hok (d <| d_peer := p |>).
Proof. intros Hk H1 H2. by apply (hok_ext d). Qed.
Lemma Send_hok msgs d : hok d -> wlp (Send d msgs) hok.
Proof.
  intros Hk. unfold Send. apply wlp_foldM; [exact Hk|]. clear d Hk. intros d msg Hk _. unfold sendRaftMessage.
  destruct (deref _); try exact I. destruct (getPeerFromCache_keeps (d_peer d) (m_To msg)) as [H1 H2]. cbn zeta in H1, H2.
  destruct (getPeerFromCache _ _) as [p [to|]]; [|by apply hok_peer].
  destruct (if _ && _ then _ else _). apply hok_emit; [exact I|]. by apply hok_peer.
Qed.
#[local] Hint Resolve HandleCommitEnts_hok mayUpdateRegion_hok Send_hok : hok.
Lemma HandleRaftReady_hok d :
  hok d -> wlp (HandleRaftReady regionStateBytes snapRegion cmdOf rand_Int cfg d) hok.
Proof. intros Hk. unfold HandleRaftReady. hwalk; hsolve. Qed.

Lemma as_error_hok {A} d (o : RaftstoreUtil.result A) k :
  hok d -> wlp k (fun x => hok x.1) -> wlp (as_error d o k) (fun x => hok x.1).
Proof. intros Hk Hw. by destruct o. Qed.
Lemma notLeader_hok d to : hok d -> wlp (let (p, leader) := getPeerFromCache (d_peer d) to in
  Ret (d <| d_peer := p |>, Some (ErrNotLeader (pe_regionId p) leader)) : outcome error _) (fun x => hok x.1).
Proof.
  intros Hk. destruct (getPeerFromCache_keeps (d_peer d) to) as [H1 H2]. cbn zeta in H1, H2.
  destruct (getPeerFromCache _ _). by apply hok_peer.
Qed.
Lemma preProposeRaftCommand_hok d req : hok d -> wlp (preProposeRaftCommand d req) (fun x => hok x.1).
Proof.
  intros Hk. unfold preProposeRaftCommand. apply as_error_hok; [done|]. destruct (negb _); [by apply notLeader_hok|].
  do 2 (apply as_error_hok; [done|]). destruct (CheckRegionEpoch _ _ _) as [?|[]| |]; try exact Hk; try exact I.
  by destruct (findSiblingRegion d).
Qed.
Lemma proposeRequest_hok d msg cb : hok d -> wlp (proposeRequest snapRegion cmdBytes rand_Int d msg cb) hok.
Proof.
  intros Hk. unfold proposeRequest. set (d1 := match cb with Some _ => _ | None => _ end).
  assert (Hk1 : hok d1) by (unfold d1; destruct cb; hsolve). clearbody d1. cbv zeta. hwalk; hsolve.
Qed.
#[local] Hint Resolve preProposeRaftCommand_hok proposeRequest_hok : hok.
Lemma proposeAdminRequest_hok d msg admin cb :
  hok d -> wlp (proposeAdminRequest snapRegion cmdBytes rand_Int d msg admin cb) hok.
Proof. intros Hk. unfold proposeAdminRequest, AdminDone. hwalk; hsolve. Qed.
#[local] Hint Resolve proposeAdminRequest_hok : hok.
Lemma proposeRaftCommand_hok d msg cb : hok d -> wlp (proposeRaftCommand snapRegion cmdBytes rand_Int d msg cb) hok.
Proof. intros Hk. unfold proposeRaftCommand. hwalk; hsolve. Qed.
Lemma CollectPendingPeers_keeps (p : peer D) : wlp (CollectPendingPeers p)
  (fun x => pe_regionId x.1 = pe_regionId p /\ pe_stopped x.1 = pe_stopped p).
Proof.
  unfold CollectPendingPeers. apply wlp_bind, wlp_true. intros t _. apply wlp_ret.
  apply (foldl_inv _ (fun x => pe_regionId x.1 = pe_regionId p /\ pe_stopped x.1 = pe_stopped p)); [done|].
  intros [q pending] [i pr] [H1 H2] _. cbn [fst] in *. destruct (i =? _); [done|]. destruct (_ <? _); [|done].
  destruct (getPeerFromCache_keeps q i) as [H3 H4]. cbn zeta in H3, H4.
  destruct (getPeerFromCache q i) as [q' [x|]]; cbn in *; split; congruence.
Qed.
Lemma HeartbeatScheduler_hok d : hok d -> wlp (HeartbeatScheduler d) hok.
Proof.
  intros Hk. unfold HeartbeatScheduler. apply wlp_bind. eapply wlp_mono; [apply CollectPendingPeers_keeps|].
  intros [p pending] [H1 H2]. apply hok_emit; [exact I|]. by apply hok_peer.
Qed.
#[local] Hint Resolve proposeRaftCommand_hok HeartbeatScheduler_hok : hok.
Lemma handleGCPeerMsg_hok d msg : hok d -> wlp (handleGCPeerMsg regionStateBytes d msg) hok.
Proof. intros Hk. unfold handleGCPeerMsg. hwalk; hsolve. Qed.
Lemma checkMessage_hok d msg : hok d -> wlp (checkMessage regionStateBytes d msg) (fun x => hok x.1).
Proof.
  intros Hk. unfold checkMessage, handleStaleMsg. hwalk; try hsolve.
  cbn [fst]. destruct (match ms_Message msg with Some m => _ | None => _ end); hsolve.
Qed.
#[local] Hint Resolve handleGCPeerMsg_hok checkMessage_hok : hok.
Lemma AnyNewPeerCatchUp_keeps (p : peer D) peerId : wlp (AnyNewPeerCatchUp p peerId)
  (fun x => pe_regionId x.1 = pe_regionId p /\ pe_stopped x.1 = pe_stopped p).
Proof. unfold AnyNewPeerCatchUp. hwalk; done. Qed.
Lemma onRaftMsg_hok d msg : hok d ->
  wlp (onRaftMsg regionStateBytes snapRegion rand_Int snapOk d msg) (fun x => hok x.1).
Proof.
  intros Hk. unfold onRaftMsg. destruct (negb _); [exact Hk|]. destruct (pe_stopped _); [exact Hk|].
  destruct (ms_IsTombstone msg); [hwalk; hsolve|].
  apply wlp_bind. eapply wlp_mono; [by apply checkMessage_hok|]. clear d Hk. intros [d drop] Hk. cbn [fst] in Hk.
  destruct drop; [exact Hk|]. destruct (checkSnapshot _ _ _ _) as [[[[rid term] index]|]|err| |]; try exact I; try exact Hk.
  { destruct (snapOk _ _ _); hsolve. }
  destruct (ms_FromPeer msg) as [from|]; [|exact I]. destruct (ms_Message msg) as [m|]; [|exact I]. cbn [deref]. cbv zeta.
  set (d1 := d <| d_peer ::= _ |>). assert (Hk1 : hok d1) by hsolve. clearbody d1. clear d Hk.
  destruct (StepNode _ _ _); try exact I; [|exact Hk1]. apply wlp_bind.
  eapply wlp_mono; [apply AnyNewPeerCatchUp_keeps|]. intros [p caught] [H1 H2]. cbn [fst] in H1, H2.
  assert (Hk2 : hok ((set_group d1 a) <| d_peer := p |>)) by (by apply (hok_ext d1)).
  destruct caught; [|exact Hk2]. apply wlp_bind. eapply wlp_mono; [by apply HeartbeatScheduler_hok|]. done.
Qed.
#[local] Hint Resolve onRaftMsg_hok : hok.
Lemma reschedule_hok d tp : hok d -> wlp (reschedule d tp) hok.
Proof. intros Hk. unfold reschedule. hwalk; hsolve. Qed.
#[local] Hint Resolve reschedule_hok : hok.
Lemma onRaftBaseTick_hok d : hok d -> wlp (onRaftBaseTick snapRegion rand_Int d) hok.
Proof.
  intros Hk. unfold onRaftBaseTick. destruct (ignore_err _ _); try exact I. by apply reschedule_hok, (hok_ext d).
Qed.
Lemma onRaftGCLogTick_hok d : hok d -> wlp (onRaftGCLogTick snapRegion cmdBytes rand_Int cfg d) hok.
Proof. intros Hk. unfold onRaftGCLogTick. hwalk; hsolve. Qed.
Lemma onSplitRegionCheckTick_hok pending d : hok d -> wlp (onSplitRegionCheckTick cfg pending d) hok.
Proof.
  intros Hk. unfold onSplitRegionCheckTick. hwalk; try hsolve.
  match goal with |- hok ?x => eapply (hok_ext (emit a (ESplitCheck (region a)))); [hsolve|reflexivity..] end.
Qed.
Lemma onSchedulerHeartbeatTick_hok d : hok d -> wlp (onSchedulerHeartbeatTick d) hok.
Proof. intros Hk. unfold onSchedulerHeartbeatTick. hwalk; hsolve. Qed.
Lemma on_hok d tp k : hok d -> (hok d -> wlp (k d) hok) ->
  wlp (let! b := isOnTick (pe_ticker (d_peer d)) tp in if b : bool then k d else Ret d : outcome error handler) hok.
Proof. intros Hk Hw. destruct (isOnTick _ _) as [[]| | |]; try exact I; auto. Qed.
Lemma onTick_hok pending d : hok d -> wlp (onTick snapRegion cmdBytes rand_Int cfg pending d) hok.
Proof.
  intros Hk. unfold onTick. destruct (pe_stopped _); [exact Hk|]. cbv zeta beta.
  set (d1 := d <| d_peer ::= _ |>). assert (Hk1 : hok d1) by hsolve. clearbody d1. clear d Hk.
  apply wlp_bind. eapply wlp_mono; [apply on_hok; [exact Hk1|apply onRaftBaseTick_hok]|]. cbn beta. clear. intros d Hk.
  apply wlp_bind. eapply wlp_mono; [apply on_hok; [exact Hk|apply onRaftGCLogTick_hok]|]. cbn beta. clear. intros d Hk.
  apply wlp_bind. eapply wlp_mono; [apply on_hok; [exact Hk|apply onSchedulerHeartbeatTick_hok]|]. cbn beta. clear. intros d Hk.
  apply wlp_bind. eapply wlp_mono; [apply on_hok; [exact Hk|apply onSplitRegionCheckTick_hok]|]. cbn beta. clear. intros d Hk.
  hsolve.
Qed.
Lemma startTicker_hok d : hok d -> wlp (startTicker cfg d) hok.
Proof.
  intros Hk. unfold startTicker. destruct (newTicker _ _); try exact I. cbv zeta.
  do 3 (apply wlp_bind; eapply wlp_mono; [apply reschedule_hok; hsolve|]; cbn beta; clear; intros d Hk). by apply reschedule_hok.
Qed.
Lemma onPrepareSplitRegion_hok d ep key cb : hok d -> wlp (onPrepareSplitRegion d ep key cb) hok.
Proof.
  intros Hk. unfold onPrepareSplitRegion. apply wlp_bind. apply (wlp_mono _ (fun x => hok x.1)).
  - unfold validateSplitRegion. destruct (_ =? _); [exact Hk|]. destruct (negb _); [by apply notLeader_hok|]. hwalk; hsolve.
  - intros [d1 [err|]] Hk1; hsolve.
Qed.
Lemma onGCSnap_hok d snaps : hok d -> wlp (onGCSnap d snaps) hok.
Proof.
  intros Hk. unfold onGCSnap. do 2 (apply wlp_bind, wlp_true; intros ? _). apply wlp_ret. apply foldl_inv; [exact Hk|].
  intros d1 key Hk1 _. destruct (negb _); [exact Hk1|].
  destruct (if sf_IsSending key then _ else _); hsolve.
Qed.
Lemma HandleMsg_hok d msg : hok d -> wlp (HandleMsg regionStateBytes snapRegion cmdBytes rand_Int cfg snapOk d msg) hok.
Proof.
  intros Hk. destruct msg; cbn [HandleMsg].
  - hwalk; hsolve.
  - by apply proposeRaftCommand_hok.
  - by apply onTick_hok.
  - by apply onPrepareSplitRegion_hok.
  - apply wlp_ret. unfold onApproximateRegionSize. hsolve.
  - by apply onGCSnap_hok.
  - by apply startTicker_hok.
Qed.
End Handler.

(** ** The router *)
Section Store.
Context {D : Type} `{Badger D}.
Context (regionStateBytes : PeerState -> Region -> list Z) (regionStateOf : list Z -> option (PeerState * option Region)).
Context (snapRegion : option (list Z) -> option (option Region)).
Context (cmdBytes : RaftCmdRequest -> list Z) (cmdOf : list Z -> option RaftCmdRequest).
Context (rand_Int : nat -> Z) (cfg : Peer.Config) (metaOf : list Z -> option SnapshotMeta) (expired : SnapKey -> bool).
Context (metaBytes : SnapshotMeta -> list Z) (sst_build : list (list Z * list Z) -> list Z) (ingest : D -> list (list Z) -> option D).
Context (snapDataBytes : RaftSnapshotData -> list Z) (modTime : list Z -> Z).
Context (AskSplit : Region -> option AskSplitResponse) (disk_Usage : option Z) (engine_Size : Z * Z).
Abbreviation raftstore := (RaftStore.raftstore D).

(** Every entry is an open peer of its region, which is not stopped unless it is [x]. *)
Definition routes (x : option (Z * nat)) (s : raftstore) : Prop :=
  forall rid ps, sr_peers s !! rid = Some ps -> exists o, sr_objs s !! ps = Some o /\ po_closed o = false
    /\ pe_regionId (po_peer o) = rid /\ (pe_stopped (po_peer o) = true -> x = Some (rid, ps)).
Lemma routes_ext x s s' : routes x s -> sr_peers s' = sr_peers s -> sr_objs s' = sr_objs s -> routes x s'.
Proof. intros Hr H1 H2 rid ps. rewrite H1, H2. apply Hr. Qed.
Lemma send_keeps (s : raftstore) rid msg :
  sr_peers (send s rid msg).1 = sr_peers s /\ sr_objs (send s rid msg).1 = sr_objs s.
Proof. unfold send. destruct (_ ≫= _) as [o|]; [|done]. by destruct (po_closed o). Qed.
Lemma send_routes x s rid msg : routes x s -> routes x (send s rid msg).1.
Proof. intros Hr. destruct (send_keeps s rid msg). by apply (routes_ext x s). Qed.
Lemma register_routes x s p : routes x s -> pe_stopped p = false -> routes x (register s p).
Proof.
  intros Hr Hp rid ps. unfold register. cbn. intros [[<- <-]|[Hne Hl]]%lookup_insert_Some.
  - exists (mkPeerObj false p). rewrite lookup_app_r, Nat.sub_diag by lia. split; [done|]. split; [done|]. split; [done|]. cbn. congruence.
  - destruct (Hr rid ps Hl) as (o & Ho & Hrest). exists o. split; [|exact Hrest]. by apply lookup_app_l_Some.
Qed.
Lemma close_routes x s rid : routes x s -> routes x (close s rid).
Proof.
  intros Hr rid' ps'. unfold close. destruct (get s rid) as [ps|] eqn:Hg; [|apply Hr]. cbn.
  intros [Hne Hl]%lookup_delete_Some. destruct (Hr rid' ps' Hl) as (o & Ho & Hc & Hi & Hs).
  destruct (Hr rid ps Hg) as (o2 & Ho2 & _ & Hi2 & _). exists o. split; [|done].
  rewrite list_lookup_alter_ne; [done|]. intros ->. congruence.
Qed.
Lemma deleteSnap_keeps (s : raftstore) key sending : sr_peers (deleteSnap metaOf s key sending).1 = sr_peers s
  /\ sr_objs (deleteSnap metaOf s key sending).1 = sr_objs s.
Proof. unfold deleteSnap. by destruct (_ (sr_snapMgr s)) as [m []]. Qed.

Lemma perform_routes x s e : live_effect e -> routes x s -> wlp (perform metaOf s e) (routes x).
Proof.
  intros He Hr. destruct e; cbn [perform]; try (by apply (routes_ext x s)).
  - by apply register_routes.
  - by apply close_routes.
  - pose proof (send_routes x s regionID MsgTypeStart Hr) as Hs. destruct (send _ _ _) as [s' []]; [exact Hs|exact I].
  - destruct (deleteSnap_keeps s (mkSnapKey RegionID Term Index) isSending). by apply (routes_ext x s).
Qed.
(** A closed entry does not come back. *)
Definition has (ps : nat) (s : raftstore) : Prop := (ps < length (sr_objs s))%nat.
Definition gone (rid : Z) (ps : nat) (s : raftstore) : Prop := sr_peers s !! rid <> Some ps /\ has ps s.
Lemma perform_has ps s e : has ps s -> wlp (perform metaOf s e) (has ps).
Proof.
  unfold has. intros Hl. destruct e; cbn [perform]; try exact Hl.
  - cbn. rewrite length_app. lia.
  - cbn. unfold close. destruct (get s regionID); cbn; [by rewrite length_alter|done].
  - destruct (send_keeps s regionID MsgTypeStart) as [_ H2]. destruct (send _ _ _) as [s' []]; [|exact I]. cbn in *. by rewrite H2.
  - destruct (deleteSnap_keeps s (mkSnapKey RegionID Term Index) isSending) as [_ H2]. cbn. by rewrite H2.
Qed.
Lemma perform_gone rid ps s e : gone rid ps s -> wlp (perform metaOf s e) (gone rid ps).
Proof.
  intros [Hg Hl]. apply wlp_true. intros s' Hp. split; [|exact (wlp_inv _ _ _ (perform_has ps s e Hl) Hp)].
  unfold has in Hl. revert Hp. destruct e; cbn [perform]; try (by intros [= <-]).
  - intros [= <-]. cbn. intros [[_ ?]|[_ ?]]%lookup_insert_Some; [lia|done].
  - intros [= <-]. unfold close. destruct (get s regionID); [|done]. cbn. by intros [_ ?]%lookup_delete_Some.
  - destruct (send_keeps s regionID MsgTypeStart) as [H1 _]. destruct (send _ _ _) as [s'' []]; [|done].
    intros [= <-]. cbn in H1. by rewrite H1.
  - intros [= <-]. destruct (deleteSnap_keeps s (mkSnapKey RegionID Term Index) isSending) as [H1 _]. by rewrite H1.
Qed.
Lemma perform_closes x s rid ps : routes x s -> has ps s -> wlp (perform metaOf s (EClose rid)) (gone rid ps).
Proof.
  intros Hr Hl. cbn. unfold close. destruct (get s rid) eqn:Hg; split; unfold has; cbn; try rewrite length_alter; try done.
  - by rewrite lookup_delete_eq.
  - unfold get in Hg. congruence.
Qed.
Lemma routes_gone rid ps s : routes (Some (rid, ps)) s -> gone rid ps s -> routes None s.
Proof.
  intros Hr [Hg _] rid' ps' Hl. destruct (Hr rid' ps' Hl) as (o & Ho & Hc & Hi & Hs). exists o. do 3 (split; [done|]).
  intros Hst. pose proof (Hs Hst) as [= <- <-]. done.
Qed.
Lemma foldM_perform_routes x l s : Forall live_effect l -> routes x s -> wlp (foldM (perform metaOf) s l) (routes x).
Proof.
  intros Hl Hr. apply wlp_foldM; [exact Hr|]. intros s' e Hr' He. apply perform_routes; [|exact Hr'].
  by apply (list.Forall_forall live_effect l).
Qed.
Lemma foldM_perform_close rid ps l : forall s, Forall live_effect l -> EClose rid ∈ l -> has ps s ->
  routes (Some (rid, ps)) s -> wlp (foldM (perform metaOf) s l) (routes None).
Proof.
  induction l as [|e l IH]; intros s Hl He Hs Hr; [by apply not_elem_of_nil in He|]. apply list.Forall_cons in Hl as [Hle Hl].
  cbn [foldM]. apply wlp_bind, wlp_true. intros s1 H1.
  pose proof (wlp_inv _ _ _ (perform_routes _ _ _ Hle Hr) H1) as Hr1.
  pose proof (wlp_inv _ _ _ (perform_has _ _ _ Hs) H1) as Hs1.
  apply elem_of_cons in He as [<-|He]; [|by apply IH].
  pose proof (wlp_inv _ _ _ (perform_closes _ _ _ _ Hr Hs) H1) as Hg1.
  eapply (wlp_mono _ (fun s => routes (Some (rid, ps)) s /\ gone rid ps s)); [|by intros ? [? ?]; eapply routes_gone].
  apply wlp_foldM; [done|]. intros s' e [Hr' Hg'] Hin. apply wlp_true. intros s2 H2. split.
  - apply (wlp_inv _ _ _ (perform_routes _ _ _ (proj1 (list.Forall_forall live_effect l) Hl e Hin) Hr') H2).
  - exact (wlp_inv _ _ _ (perform_gone _ _ _ _ Hg') H2).
Qed.
(** Running a handler on the object [ps]. *)
Lemma run_peer_routes s ps f :
  (forall id was d, hok id was d -> wlp (f d) (hok id was)) -> routes None s -> wlp (run_peer metaOf s ps f) (routes None).
Proof.
  intros Hf Hr. unfold run_peer. destruct (sr_objs s !! ps) as [o|] eqn:Ho; [|exact I]. cbn [deref]. cbv zeta.
  set (was := pe_stopped (po_peer o)). set (id := pe_regionId (po_peer o)).
  apply wlp_bind. eapply wlp_mono.
  { apply (Hf id was). split; [reflexivity|by left|constructor]. }
  intros d [Hi Hs Hl]. cbn beta.
  match goal with |- wlp (foldM _ ?x _) _ => set (s1 := x) end.
  assert (Hs1 : has ps s1).
  { unfold has, s1. cbn. rewrite length_insert. by eapply lookup_lt_Some. }
  assert (Hr1 : routes (if pe_stopped (d_peer d) then Some (id, ps) else None) s1).
  { intros rid ps' Hp. change (sr_peers s !! rid = Some ps') in Hp. destruct (Hr rid ps' Hp) as (o' & Ho' & Hc' & Hi' & Hs').
    destruct (decide (ps' = ps)) as [->|Hne].
    - assert (o' = o) as -> by congruence. eexists. split; [apply list_lookup_insert_eq; by eapply lookup_lt_Some|].
      split; [exact Hc'|]. cbn. split; [exact (eq_trans Hi Hi')|]. intros Hst. rewrite Hst. do 2 f_equal. exact Hi'.
    - exists o'. split; [by cbn; rewrite list_lookup_insert_ne|]. do 2 (split; [done|]). intros Hst. by specialize (Hs' Hst). }
  destruct (pe_stopped (d_peer d)) eqn:Hst; [|by apply foldM_perform_routes].
  destruct (Hs eq_refl) as [Hw|He]; [|by apply (foldM_perform_close id ps)].
  apply foldM_perform_routes; [done|]. intros rid ps' Hp. destruct (Hr1 rid ps' Hp) as (o' & Ho' & Hc' & Hi' & Hx).
  exists o'. do 3 (split; [done|]). intros Hst'. pose proof (Hx Hst') as [= <- <-].
  destruct (Hr id ps Hp) as (o2 & Ho2 & _ & _ & Hs2). assert (o2 = o) as -> by congruence. exact (Hs2 Hw).
Qed.

(** ** The workers keep the routes *)
Abbreviation ok := (routes None).
Lemma foldl_routes {A} (f : raftstore -> A -> raftstore) l s : (forall s x, ok s -> ok (f s x)) -> ok s -> ok (foldl f s l).
Proof. intros Hf Hs. apply foldl_inv; [exact Hs|]. intros s' x Hs' _. by apply Hf. Qed.
Lemma raftWorker_routes n s : ok s -> wlp (raftWorker_run regionStateBytes snapRegion cmdBytes cmdOf rand_Int cfg metaOf expired n s) ok.
Proof.
  intros Hr. unfold raftWorker_run. apply wlp_bind. apply (wlp_mono _ (fun x => ok x.1)).
  - generalize (∅ : gmap Z nat). generalize (take n (sr_peerCh s)). intros msgs.
    assert (Hr' : ok (s <| sr_peerCh ::= drop n |>)) by (by apply (routes_ext None s)). revert Hr'.
    generalize (s <| sr_peerCh ::= drop n |>). clear s Hr.
    induction msgs as [|[regionID msg] msgs IH]; intros s Hr peersMap; [exact Hr|]. cbn [batchLoop].
    destruct (getPeerState s peersMap regionID) as [peersMap' [ps|]]; [|by apply IH]. apply wlp_bind.
    eapply wlp_mono; [apply run_peer_routes; [|exact Hr]|intros s' Hr'; by apply IH].
    intros id was d Hk. by apply HandleMsg_hok.
  - intros [s' peersMap] Hr'. apply wlp_foldM; [exact Hr'|]. intros s2 ps Hr2 _. apply run_peer_routes; [|exact Hr2].
    intros id was d Hk. by apply HandleRaftReady_hok.
Qed.
Lemma checkMsg_routes s msg : ok s -> wlp (checkMsg regionStateOf s msg) (fun x => ok x.1).
Proof.
  intros Hr. unfold checkMsg. wlp_walk fail; cbn [fst]; try exact Hr; by apply (routes_ext None s).
Qed.
Lemma maybeCreatePeer_routes s rid msg : ok s -> wlp (maybeCreatePeer snapRegion rand_Int cfg s rid msg) (fun x => ok x.1).
Proof.
  intros Hr. unfold maybeCreatePeer. destruct (_ !! rid); [exact Hr|]. destruct (ms_Message msg); [|exact I]. cbn [deref].
  destruct (negb _); [exact Hr|]. destruct (getOverlapRegions _ _) as [[|r rs]| | |]; try exact I.
  - destruct (ms_ToPeer msg) as [to|]; [|exact I]. cbn [deref]. apply wlp_bind.
    eapply wlp_mono; [apply NewPeer_fresh|]. intros p [_ Hp]. cbv zeta. apply wlp_ret. cbn [fst].
    apply send_routes, register_routes; [|exact Hp]. by apply (routes_ext None s).
  - destruct (IsFirstVoteMessage _); cbn [fst wlp]; [|exact Hr]. by apply (routes_ext None s).
Qed.
Lemma onRaftMessage_routes s msg : ok s -> wlp (onRaftMessage regionStateOf snapRegion rand_Int cfg s msg) ok.
Proof.
  intros Hr. unfold onRaftMessage. cbv zeta. pose proof (send_routes None s (ms_RegionId msg) (MsgTypeRaftMessage msg) Hr) as Hs.
  destruct (send _ _ _) as [s1 []]; cbn [fst] in Hs; [exact Hs|].
  destruct (deref (ms_FromPeer msg)); try exact I. destruct (deref (ms_ToPeer msg)); try exact I.
  destruct (negb _); [exact Hs|]. destruct (ms_RegionEpoch msg); [|exact Hs]. destruct (ms_IsTombstone msg); [exact Hs|].
  apply wlp_bind. eapply wlp_mono; [by apply checkMsg_routes|]. intros [s2 []] Hs2; [exact Hs2|].
  apply wlp_bind. eapply wlp_mono; [by apply maybeCreatePeer_routes|]. intros [s3 []] Hs3; [|exact Hs3].
  by apply send_routes.
Qed.
Lemma reschedule_store_routes s tp : ok s -> wlp (reschedule_store s tp) ok.
Proof. intros Hr. unfold reschedule_store. destruct (scheduleStore _ _); try exact I. by apply (routes_ext None s). Qed.
Lemma deleteSnaps_routes keys : forall s, ok s -> ok (deleteSnaps metaOf s keys).1.
Proof.
  induction keys as [|[key sending] keys IH]; intros s Hr; [exact Hr|]. cbn [deleteSnaps].
  destruct (deleteSnap_keeps s key sending) as [H1 H2]. destruct (deleteSnap _ _ _ _) as [s1 [e|]]; cbn [fst] in *;
    [|apply IH]; by apply (routes_ext None s).
Qed.
Lemma scheduleGCSnap_routes s rid keys : ok s -> ok (scheduleGCSnap metaOf s rid keys).1.
Proof.
  intros Hr. unfold scheduleGCSnap. cbv zeta. match goal with |- context [send s rid ?m] => pose proof (send_routes None s rid m Hr) as Hs end.
  destruct (send _ _ _) as [s1 []]; cbn [fst] in *; [exact Hs|by apply deleteSnaps_routes].
Qed.
Lemma gcSnapLoop_routes snaps : forall s last keys, ok s -> ok (gcSnapLoop metaOf s last keys snaps).1.
Proof.
  assert (Hg : forall s last keys, ok s -> ok (match keys with [] => (s, None) | _ => scheduleGCSnap metaOf s last keys end).1).
  { intros s last [|key keys] Hr; [exact Hr|by apply scheduleGCSnap_routes]. }
  induction snaps as [|snap snaps IH]; intros s last keys Hr; cbn [gcSnapLoop]; [by apply Hg|].
  destruct (_ =? _); [by apply IH|]. pose proof (Hg s last keys Hr) as Hs.
  destruct (match keys with [] => _ | _ => _ end) as [s1 [e|]]; [exact Hs|by apply IH].
Qed.
Lemma storeWorker_routes s : ok s -> wlp (storeWorker_run regionStateOf snapRegion rand_Int cfg metaOf s) ok.
Proof.
  intros Hr. unfold storeWorker_run. destruct (sr_storeCh s) as [|msg ch]; [exact Hr|].
  assert (Hr1 : ok (s <| sr_storeCh := ch |>)) by (by apply (routes_ext None s)). revert Hr1.
  generalize (s <| sr_storeCh := ch |>). clear s Hr. intros s Hr. destruct msg as [m|tick|id]; cbn [handleMsg].
  - pose proof (onRaftMessage_routes s m Hr) as Hm. by destruct (onRaftMessage _ _ _ _ _ _).
  - unfold onStoreTick. destruct (_ =? _); [|destruct (_ =? _)]; [| |exact Hr].
    + apply reschedule_store_routes. by apply (routes_ext None s).
    + unfold onSnapMgrGC, handleSnapMgrGC. destruct (ListIdleSnap _) as [keys|e| |]; try exact I; [|by apply reschedule_store_routes].
      pose proof (gcSnapLoop_routes keys s 0 [] Hr) as Hg. destruct (gcSnapLoop _ _ _ _ _) as [s1 e]. by apply reschedule_store_routes.
  - unfold startStore. apply wlp_bind. eapply wlp_mono; [by apply reschedule_store_routes|]. intros s1 Hr1. by apply reschedule_store_routes.
Qed.
Lemma tickDriver_routes s : ok s -> wlp (tickDriver_run s) ok.
Proof.
  intros Hr. unfold tickDriver_run, tickStore. cbv zeta.
  match goal with |- context [foldl ?f s ?l] => assert (Hf : ok (foldl f s l)) end.
  { apply foldl_routes; [|exact Hr]. intros s1 rid Hr1. pose proof (send_routes None s1 rid (MsgTypeTick false) Hr1) as Hs.
    destruct (send _ _ _) as [s2 []]; cbn [fst] in Hs; [exact Hs|by apply (routes_ext None s2)]. }
  revert Hf. generalize (foldl (fun s rid => match send s rid (MsgTypeTick false) with
    | (s, true) => s | (s, false) => s <| sr_regions ::= fun r => r ∖ {[rid]} |> end) s (elements (sr_regions s))).
  clear s Hr. intros s Hr. destruct (tickStores _ _ _ _); try exact I. by apply (routes_ext None s).
Qed.
Lemma to_scheduler_routes s o : ok s -> ok (to_scheduler s o).
Proof. intros Hr. destruct o; cbn [to_scheduler]; try (by apply send_routes); by apply (routes_ext None s). Qed.
Lemma notify_routes s ps snap : ok s -> ok (notify s ps snap).
Proof.
  intros Hr rid ps' Hp. destruct (Hr rid ps' Hp) as (o & Ho & Hrest). cbn. destruct (decide (ps' = ps)) as [->|Hne].
  - eexists. split; [rewrite list_lookup_alter_eq, Ho; reflexivity|exact Hrest].
  - exists o. by rewrite list_lookup_alter_ne.
Qed.
Lemma regionWorker_routes s : ok s ->
  wlp (regionWorker_run regionStateOf metaOf metaBytes sst_build ingest snapDataBytes modTime s) ok.
Proof.
  intros Hr. unfold regionWorker_run. destruct (sr_regionCh s) as [|[ps t] ch]; [exact Hr|].
  destruct (HandleRegionTask _ _ _ _ _ _ _ _ _ _ _) as [m [[kv [snap|]]| | |]]; try exact I.
  - apply wlp_ret, notify_routes. by apply (routes_ext None s).
  - by apply (routes_ext None s).
Qed.
Lemma SendRaftMessage_routes s msg : ok s -> ok (SendRaftMessage s msg).
Proof.
  intros Hr. unfold SendRaftMessage. pose proof (send_routes None s (ms_RegionId msg) (MsgTypeRaftMessage msg) Hr) as Hs.
  destruct (send _ _ _) as [s1 []]; cbn [fst] in Hs; [exact Hs|by apply (routes_ext None s1)].
Qed.

(** ** Starting *)
Lemma loadLoop_routes it : forall s kvWB raftWB peers, ok s -> Forall (fun p => pe_stopped p = false) peers ->
  wlp (loadLoop regionStateBytes regionStateOf snapRegion rand_Int cfg s it kvWB raftWB peers)
    (fun x => ok x.1.1.1 /\ Forall (fun p => pe_stopped p = false) x.2).
Proof.
  induction it as [|[key val] it IH]; intros s kvWB raftWB peers Hr Hp; cbn [loadLoop]; [done|].
  destruct (_ >=? 0); [done|]. destruct (DecodeRegionMetaKey key) as [[rid suffix]| | |]; try exact I.
  destruct (negb _); [by apply IH|]. destruct (regionStateOf val) as [[state region]|]; [|exact I].
  destruct region as [region|]; [|exact I]. cbn [deref]. destruct state.
  - pose proof (createPeer_fresh snapRegion rand_Int cfg (sr_id s) (sr_raft s) (sr_kv s) region) as Hc.
    destruct (createPeer _ _ _ _ _ _ _) as [p| | |]; try exact I. destruct Hc as [_ Hc].
    destruct (ReplaceOrInsert _ _ _) as [[tree old]| | |]; try exact I. cbv zeta. apply IH; [by apply (routes_ext None s)|].
    apply Forall_app. split; [done|by constructor].
  - destruct (clearStaleMeta _ _ _ _ _) as [[kvWB' raftWB']| | |]; try exact I. by apply IH.
Qed.
Lemma start_routes storeID kv raft mgr :
  wlp (start regionStateBytes regionStateOf snapRegion rand_Int cfg storeID kv raft mgr) ok.
Proof.
  unfold start. destruct (Validate cfg); try exact I. destruct (newStoreMeta) as [meta| | |]; try exact I.
  destruct (newStoreTicker cfg) as [t| | |]; try exact I. cbv zeta. unfold loadPeers.
  match goal with |- context [loadLoop _ _ _ _ _ ?s ?it ?a ?b []] =>
    assert (Hr : ok s) by (intros rid ps Hl; cbn [sr_peers] in Hl; by apply lookup_empty_Some in Hl);
    pose proof (loadLoop_routes it s a b [] Hr ltac:(constructor)) as Hl end.
  destruct (loadLoop _ _ _ _ _ _ _ _ _ _) as [[[[s kvWB] raftWB] peers]| | |]; try exact I. destruct Hl as [Hs Hp]. cbn in Hs, Hp.
  apply wlp_ret. unfold startWorkers. cbv zeta. apply foldl_routes; [intros; by apply send_routes|].
  match goal with |- ok (sendStore ?s _) => apply (routes_ext None s); [|done..] end.
  apply foldl_inv; [by apply (routes_ext None s)|]. intros s1 p Hs1 Hin. apply register_routes; [exact Hs1|].
  by apply (proj1 (list.Forall_forall _ peers) Hp).
Qed.
Abbreviation store_step := (RaftStore.store_step regionStateBytes regionStateOf snapRegion cmdBytes cmdOf rand_Int cfg
  metaOf expired metaBytes sst_build ingest snapDataBytes modTime AskSplit disk_Usage engine_Size).
Lemma store_step_routes s s' : store_step s s' -> ok s -> ok s'.
Proof.
  intros Hstep Hr. destruct Hstep.
  - by apply (wlp_inv _ _ _ (raftWorker_routes n s Hr)).
  - by apply (wlp_inv _ _ _ (storeWorker_routes s Hr)).
  - by apply (wlp_inv _ _ _ (tickDriver_routes s Hr)).
  - match goal with He : gcWorker_run s = _ |- _ => revert He end. unfold gcWorker_run. destruct (sr_gcCh s); [by intros [= <-]|].
    destruct (HandleGCTask _ _) as [[raft n]| | |]; try done. intros [= <-]. by apply (routes_ext None s).
  - by apply (wlp_inv _ _ _ (regionWorker_routes s Hr)).
  - match goal with He : splitWorker_run _ s = _ |- _ => revert He end. unfold splitWorker_run. destruct (sr_splitCh s); [by intros [= <-]|].
    destruct (HandleSplitCheck _ _ _) as [msgs| | |]; try done. intros [= <-]. apply foldl_routes; [intros; by apply send_routes|].
    by apply (routes_ext None s).
  - unfold schedulerWorker_run. destruct (sr_schedCh s); [exact Hr|]. apply foldl_routes; [intros; by apply to_scheduler_routes|].
    by apply (routes_ext None s).
  - apply foldl_routes; [intros; by apply to_scheduler_routes|exact Hr].
  - by apply SendRaftMessage_routes.
  - match goal with He : SendRaftCommand s _ _ = _ |- _ => revert He end. unfold SendRaftCommand.
    destruct (rq_Header req) as [header|]; [|done]. cbn [deref].
    pose proof (send_routes None s (rh_RegionId header) (MsgTypeRaftCmd req cb) Hr) as Hs.
    destruct (send _ _ _). intros [= <- <-]. exact Hs.
Qed.
End Store.

(** C14. However its workers take turns, and whatever messages, commands and answers of the
    scheduler come in, a store that has started only ever routes a region to a live peer of
    that region: an entry of the router is a peer object that is open, has that region's id,
    and is not stopped, so no two regions share one. A peer that destroys itself while a
    batch is handled has left the router when its handler returns. *)
Theorem router_live {D} `{Badger D} regionStateBytes regionStateOf snapRegion cmdBytes cmdOf rand_Int cfg
    metaOf expired metaBytes sst_build (ingest : D -> list (list Z) -> option D) snapDataBytes modTime AskSplit disk_Usage engine_Size
    storeID (kv raft : D) snapMgr s :
  running regionStateBytes regionStateOf snapRegion cmdBytes cmdOf rand_Int cfg metaOf expired metaBytes sst_build ingest
    snapDataBytes modTime AskSplit disk_Usage engine_Size storeID kv raft snapMgr s ->
  forall regionID ps, get s regionID = Some ps -> exists o, sr_objs s !! ps = Some o
    /\ po_closed o = false /\ pe_regionId (po_peer o) = regionID /\ pe_stopped (po_peer o) = false.
Proof.
  intros Hrun. assert (Hr : routes None s).
  { induction Hrun as [s Hs|s s' _ IH Hstep]; [exact (wlp_inv _ _ _ (start_routes _ _ _ _ _ _ _ _ _) Hs)|].
    by eapply store_step_routes. }
  intros rid ps Hg. destruct (Hr rid ps Hg) as (o & Ho & Hc & Hi & Hs). exists o. do 3 (split; [done|]).
  destruct (pe_stopped (po_peer o)); [|done]. by specialize (Hs eq_refl).
Qed.

(** ** Messages for a destroyed peer *)
Section Tombstone.
Context {D : Type} `{Badger D}.
Context (regionStateOf : list Z -> option (PeerState * option Region)).

Lemma send_unknown (s : raftstore D) rid msg : get s rid = None -> send s rid msg = (s, false).
Proof. unfold send. by intros ->. Qed.
Lemma checkMsg_tombstone (s : raftstore D) msg m from fe region e :
  ms_Message msg = Some m -> ms_FromPeer msg = Some from -> ms_RegionEpoch msg = Some fe ->
  GetRegionState regionStateOf s (ms_RegionId msg) = Ret (Some (PeerState_Tombstone, Some region)) ->
  rg_RegionEpoch region = Some e ->
  checkMsg regionStateOf s msg =
    if IsEpochStale fe e then
      Ret (if IsVoteMessage m && bool_decide (FindPeer region (p_StoreId from) = None)
           then s <| sr_sent ::= fun l => l ++ [ESend (mkRaftMessage (ms_RegionId msg) (ms_ToPeer msg) (Some from) None (Some e) true [] [])] |>
           else s, true)
    else if ep_ConfVer fe =? ep_ConfVer e then Err (ErrMsg "tombstone peer received an invalid message") else Ret (s, false).
Proof.
  intros Hm Hf Hfe Hs He. unfold checkMsg. rewrite Hm, Hf, Hfe, Hs. cbn [deref]. rewrite He. cbn [deref].
  destruct (IsEpochStale fe e); [|done]. destruct (IsVoteMessage m); [|done]. cbn [andb].
  by destruct (FindPeer region (p_StoreId from)).
Qed.
End Tombstone.

(** The answer to a message [msg] of [from] for a peer that was destroyed in [region]. *)
Definition tombstone_answer {D} (storeID : Z) (msg : RaftMessage) (from to : Peer) (fe e : RegionEpoch) (region : Region) : list (effect D) :=
  if (p_StoreId to =? storeID) && negb (ms_IsTombstone msg) && IsEpochStale fe e
     && match ms_Message msg with Some m => IsVoteMessage m | None => false end
     && bool_decide (FindPeer region (p_StoreId from) = None)
  then [ESend (mkRaftMessage (ms_RegionId msg) (Some to) (Some from) None (Some e) true [] [])] else [].

(** C15. A peer that was destroyed is not made again by an old message. When the store has a
    tombstone of the region and no peer of it, a message whose configuration is not newer
    than the tombstone's leaves the engines, the peers and the regions of the store as they
    are. All that happens is that a stale request for a vote, from a store that is not a
    member of the region, is told that its sender is a tombstone too. *)
Theorem tombstone_not_resurrected {D} `{Badger D} regionStateOf snapRegion rand_Int cfg metaOf
    (s : raftstore D) msg m from to fe region e :
  ms_Message msg = Some m -> ms_FromPeer msg = Some from -> ms_ToPeer msg = Some to -> ms_RegionEpoch msg = Some fe ->
  get s (ms_RegionId msg) = None ->
  GetRegionState regionStateOf s (ms_RegionId msg) = Ret (Some (PeerState_Tombstone, Some region)) ->
  rg_RegionEpoch region = Some e -> ep_ConfVer fe <= ep_ConfVer e ->
  handleMsg regionStateOf snapRegion rand_Int cfg metaOf s (MsgTypeStoreRaftMessage msg) =
    Ret (s <| sr_sent ::= fun l => l ++ tombstone_answer (sr_id s) msg from to fe e region |>).
Proof.
  intros Hm Hf Ht Hfe Hg Hs He Hle. assert (Hsame : forall s : raftstore D, s <| sr_sent ::= fun l => l ++ [] |> = s).
  { intros []. unfold upd. cbn. unfold set_sr_sent. cbn. by rewrite app_nil_r. }
  cbn [handleMsg]. unfold onRaftMessage, tombstone_answer. cbv zeta. rewrite (send_unknown s _ _ Hg), Hf, Ht, Hfe, Hm. cbn [deref].
  destruct (p_StoreId to =? sr_id s); cbn [negb andb]; [|by rewrite Hsame].
  destruct (ms_IsTombstone msg) eqn:Hi; cbn [negb andb]; [by rewrite Hsame|].
  rewrite (checkMsg_tombstone regionStateOf s msg m from fe region e) by done. rewrite Ht.
  destruct (IsEpochStale fe e) eqn:Hst; cbn [andb].
  - destruct (IsVoteMessage m && _); [done|by rewrite Hsame].
  - unfold IsEpochStale in Hst. destruct (Z.eqb_spec (ep_ConfVer fe) (ep_ConfVer e)); [by rewrite Hsame|].
    apply orb_false_iff in Hst as [_ Hc]. apply Z.ltb_ge in Hc. lia.
Qed.
