(* ===== verification/RaftStoreStart.v ===== *)
(** * RaftStoreStart: a store starts with the regions it has on disk

    [loadPeers] visits the region states of the engine: it makes a peer of every region that
    is not a tombstone, and clears what is left of the others.  The engine is specified by
    [saved]; starting then always succeeds, and changes nothing that matters. *)

From stdpp Require Import base option list sorting strings gmap tactics.
From S2P Require Import Prelude.
From S2P Require Import Eraftpb.
From S2P Require Import RaftServerpb.
From S2P Require Import RaftStorage.
From S2P Require Import GoHeap.
From S2P Require Import Meta.
From S2P Require Import BTree.
From S2P Require Import BTreeShape.
From S2P Require Import BTreeProps.
From S2P Require Import Metapb.
From S2P Require Import Engine.
From S2P Require Import PeerStorage.
From S2P Require Import PeerStorageProps.
From S2P Require Import RaftCmdpb.
From S2P Require Import SnapMgr.
From S2P Require Import RaftstoreUtil.
From S2P Require Import Peer.
From S2P Require Import PeerMsg.
From S2P Require Import PeerProps.
From S2P Require Import PeerSplit.
From S2P Require Import RaftStore.

(** The keys that are visited. *)
Definition in_meta (key : list Z) : bool := negb (key_lt key RegionMetaMinKey) && key_lt key RegionMetaMaxKey.
Lemma RegionStateKey_in_meta id : in_meta (RegionStateKey id) = true.
Proof. by rewrite RegionStateKey_eq. Qed.
Lemma Decode_RegionStateKey id : is_u64 id -> DecodeRegionMetaKey (RegionStateKey id) = Ret (id, RegionStateSuffix).
Proof.
  intros Hid. rewrite RegionStateKey_eq. unfold DecodeRegionMetaKey.
  change (slice_from _ (len RegionMetaMinKey)) with (Ret (E:=meta_error) (be64 id ++ [RegionStateSuffix])).
  cbn [negb len]. by rewrite Uint64_be64.
Qed.

Section Start.
Context {D : Type} `{BadgerLaws D}.
Context (regionStateBytes : PeerState -> Region -> list Z) (regionStateOf : list Z -> option (PeerState * option Region)).
Context (snapRegion : option (list Z) -> option (option Region)).
Context (rand_Int : nat -> Z) (cfg : Peer.Config) (Hcfg : cfg_ok cfg).
Context (Hbytes : forall st r, regionStateBytes st r <> []).
Context (Hround : forall st r, regionStateOf (regionStateBytes st r) = Some (st, Some r)).
Context (storeID : Z) (kv raft : D).

(** The state of a region on disk. *)
Definition state_of (db : D) (id : Z) : option (PeerState * option Region) := db_get db (RegionStateKey id) ≫= regionStateOf.
(** What the engines of a store have in them: the regions are saved under their ids, those
    that are not tombstones can be started on this store, and what is left of the Raft
    state of a tombstone can be read. *)
Record saved : Prop := {
  sv_meta : forall key val, db_get kv key = Some val -> in_meta key = true -> exists state region,
    is_u64 (rg_Id region) /\ key = RegionStateKey (rg_Id region) /\ regionStateOf val = Some (state, Some region);
  sv_normal : forall id region, is_u64 id -> state_of kv id = Some (PeerState_Normal, Some region) -> exists ti st ap mp,
    on_disk ti raft kv region st ap /\ FindPeer region storeID = Some mp /\ p_Id mp <> 0;
  sv_tombstone : forall id region, is_u64 id -> state_of kv id = Some (PeerState_Tombstone, Some region) ->
    GetRaftLocalState raft id = Err ErrKeyNotFound \/ exists st, GetRaftLocalState raft id = Ret st;
  sv_log : forall id region last key val, is_u64 id -> state_of kv id = Some (PeerState_Tombstone, Some region) -> is_u64 last ->
    db_get raft key = Some val -> key_lt key (RaftLogKey id 0) = false -> key_lt key (RaftLogKey id last) = true -> exists i, is_u64 i /\ key = RaftLogKey id i;
}.

(** ** The batches touch nothing but tombstones *)
Definition tombstone (id : Z) (region : Region) : Prop :=
  is_u64 id /\ state_of kv id = Some (PeerState_Tombstone, Some region) /\ rg_Id region = id.
Definition kv_kept (b : WriteBatch) : Prop := forall k,
  db_get (wb.WriteToDB b kv) k = db_get kv k \/ exists id region, tombstone id region /\
    (k = ApplyStateKey id \/ k = RegionStateKey id /\ db_get (wb.WriteToDB b kv) k = Some (regionStateBytes PeerState_Tombstone region)).
Definition raft_kept (b : WriteBatch) : Prop := forall k,
  db_get (wb.WriteToDB b raft) k = db_get raft k \/ exists id region, tombstone id region /\
    (k = RaftStateKey id \/ exists i, k = RaftLogKey id i).

Lemma add_get b (db : D) key val n k :
  db_get (wb.WriteToDB (wb.add b key val n) db) k = if bool_decide (key = k) then (if len val =? 0 then None else Some val)
    else db_get (wb.WriteToDB b db) k.
Proof. rewrite !WriteToDB_get. cbn [wb_entries wb.add]. rewrite foldl_app. reflexivity. Qed.
Lemma raft_kept_delete b id region key : tombstone id region -> (key = RaftStateKey id \/ exists i, key = RaftLogKey id i) ->
  raft_kept b -> raft_kept (wb.DeleteMeta b key).
Proof.
  intros Ht Hk Hb k. unfold wb.DeleteMeta. rewrite add_get. case_bool_decide as Heq; [|apply Hb]. subst k. right. by exists id, region.
Qed.
Lemma deleteLogs_kept n : forall i b id region, tombstone id region -> raft_kept b -> raft_kept (deleteLogs n id i b).
Proof.
  induction n as [|n IH]; intros i b id region Ht Hb; [exact Hb|]. cbn [deleteLogs]. apply (IH _ _ _ region); [done|].
  eapply raft_kept_delete; [done| |done]. right. by exists i.
Qed.

Lemma ClearMeta_kept b rb id last region : saved -> tombstone id region -> kv_kept b -> raft_kept rb ->
  exists b' rb', ClearMeta raft b rb id last = Ret (b', rb') /\ raft_kept rb'
    /\ forall n, kv_kept (wb.add b' (RegionStateKey id) (regionStateBytes PeerState_Tombstone region) n).
Proof.
  intros Hs Ht Hb Hrb. unfold ClearMeta. cbv zeta.
  assert (Hfirst : exists i, (match db_from raft (RaftLogKey id 0) with
    | (key, _) :: _ => if Compare key (RaftLogKey id (last ⊞ 1)) <? 0 then RaftLogIndex key else Ret (last ⊞ 1)
    | [] => Ret (last ⊞ 1) end) = Ret i).
  { destruct (db_from raft (RaftLogKey id 0)) as [|[key val] rest] eqn:Hf; [eauto|].
    assert (Hin : (key, val) ∈ db_from raft (RaftLogKey id 0)) by (rewrite Hf; left).
    apply db_from_elem in Hin as [Hg Hge]. change (Compare key (RaftLogKey id (last ⊞ 1)) <? 0) with (key_lt key (RaftLogKey id (last ⊞ 1))).
    destruct (key_lt key _) eqn:Hlt; [|eauto]. destruct (sv_log Hs id region _ key val (proj1 Ht) (proj1 (proj2 Ht)) (wrap64_range _) Hg Hge Hlt) as (i & Hi & ->).
    exists i. by apply RaftLogIndex_key. }
  destruct Hfirst as [i ->]. cbn beta iota. eexists _, _. split; [reflexivity|]. split.
  - eapply raft_kept_delete; [done|by left|]. by eapply deleteLogs_kept.
  - intros n k. unfold wb.DeleteMeta. rewrite !add_get. case_bool_decide as H1.
    { right. exists id, region. split; [done|]. right. split; [done|].
      destruct (Z.eqb_spec (len (regionStateBytes PeerState_Tombstone region)) 0) as [Hz|]; [|done].
      apply len_0_nil in Hz. by apply Hbytes in Hz. }
    case_bool_decide as H2; [right; exists id, region; auto|]. apply Hb.
Qed.
Lemma clearStaleMeta_ok b rb region : saved -> tombstone (rg_Id region) region -> kv_kept b -> raft_kept rb ->
  exists b' rb', clearStaleMeta regionStateBytes raft b rb region = Ret (b', rb') /\ kv_kept b' /\ raft_kept rb'.
Proof.
  intros Hs Ht Hb Hrb. unfold clearStaleMeta. destruct (sv_tombstone Hs _ _ (proj1 Ht) (proj1 (proj2 Ht))) as [-> | [st ->]]; [eauto|].
  destruct (ClearMeta_kept b rb (rg_Id region) (rl_LastIndex st) region Hs Ht Hb Hrb) as (b' & rb' & -> & Hrb' & Hb').
  eexists _, _. split; [reflexivity|]. split; [apply Hb'|exact Hrb'].
Qed.

Lemma state_of_id id state region : saved -> is_u64 id -> state_of kv id = Some (state, Some region) -> rg_Id region = id.
Proof.
  intros Hs Hid Hst. unfold state_of in Hst. destruct (db_get kv (RegionStateKey id)) as [val|] eqn:Hg; [|done]. cbn in Hst.
  destruct (sv_meta Hs _ _ Hg (RegionStateKey_in_meta id)) as (state' & region' & Hu & Hk & Hv).
  assert (region' = region) as -> by congruence. symmetry. by apply region_key_inj.
Qed.

(** ** The loop *)
Definition started (r : Region) (p : peer D) : Prop := pe_regionId p = rg_Id r /\ getRegion p = r /\ node_wf snapRegion p.
Record loaded (it : list (list Z * list Z)) (s s' : raftstore D) (rs : list Region) : Prop := {
  ld_regions : forall r, r ∈ rs <-> exists p, p ∈ it /\ in_meta p.1 = true /\ regionStateOf p.2 = Some (PeerState_Normal, Some r);
  ld_objs : sr_objs s' = sr_objs s /\ sr_peers s' = sr_peers s /\ sr_peerCh s' = sr_peerCh s;
  ld_engines : sr_kv s' = kv /\ sr_raft s' = raft;
  ld_meta : me_regions (sr_meta s') = foldl (fun m r => <[rg_Id r := r]> m) (me_regions (sr_meta s)) rs;
}.
Definition visit (it : list (list Z * list Z)) : Prop :=
  StronglySorted (fun a b => key_lt a.1 b.1 = true) it /\ forall p, p ∈ it -> db_get kv p.1 = Some p.2 /\ key_lt p.1 RegionMetaMinKey = false.
Lemma visit_cons p it : visit (p :: it) -> visit it /\ db_get kv p.1 = Some p.2 /\ key_lt p.1 RegionMetaMinKey = false.
Proof.
  intros [Hs Hv]. inversion Hs; subst. split; [split; [done|]|apply Hv; left]. intros q Hq. apply Hv. by right.
Qed.
(** Nothing after a key that is too large is visited. *)
Lemma visit_end p it q : visit (p :: it) -> key_lt p.1 RegionMetaMaxKey = false -> q ∈ p :: it -> in_meta q.1 = false.
Proof.
  intros [Hs _] Hp Hq. unfold in_meta. apply andb_false_iff. right. apply elem_of_cons in Hq as [-> |Hq]; [exact Hp|].
  inversion Hs as [|? ? _ Hall]; subst. apply (proj1 (list.Forall_forall _ it)) with (x := q) in Hall; [|done].
  destruct (key_lt q.1 RegionMetaMaxKey) eqn:Hlt; [|done]. by rewrite (key_lt_trans _ _ _ Hall Hlt) in Hp.
Qed.
Abbreviation load := (loadLoop regionStateBytes regionStateOf snapRegion rand_Int cfg).

Lemma loaded_none it s : sr_kv s = kv -> sr_raft s = raft -> (forall p, p ∈ it -> in_meta p.1 = false) -> loaded it s s [].
Proof.
  intros Hkv Hraft Hit. split; try done. intros r. split; [by intros ?%not_elem_of_nil|].
  intros (p & Hp & Hin & _). by rewrite (Hit p Hp) in Hin.
Qed.
Lemma loaded_skip p it s s' rs : (forall r, regionStateOf p.2 <> Some (PeerState_Normal, Some r)) -> loaded it s s' rs -> loaded (p :: it) s s' rs.
Proof.
  intros Hp [Hr ? ? ?]. split; try done. intros r. rewrite Hr. split; intros (q & Hq & Hrest); exists q; split; try done.
  - by right.
  - apply elem_of_cons in Hq as [-> |Hq]; [|done]. by destruct (Hp r), Hrest.
Qed.
Lemma loaded_cons p it s s1 s' rs r : in_meta p.1 = true -> regionStateOf p.2 = Some (PeerState_Normal, Some r) ->
  sr_objs s1 = sr_objs s -> sr_peers s1 = sr_peers s -> sr_peerCh s1 = sr_peerCh s ->
  me_regions (sr_meta s1) = <[rg_Id r := r]> (me_regions (sr_meta s)) -> loaded it s1 s' rs -> loaded (p :: it) s s' (r :: rs).
Proof.
  intros Hin Hp Ho Hpe Hch Hm [Hr (? & ? & ?) ? Hmeta]. split; try done.
  - intros r'. rewrite elem_of_cons, Hr. split.
    + intros [-> |(q & Hq & Hrest)]; [exists p; split; [left|done]|exists q; split; [by right|done]].
    + intros (q & [-> |Hq]%elem_of_cons & Hin' & Hq'); [left; congruence|right; eauto].
  - split_and!; congruence.
  - by rewrite Hmeta, Hm.
Qed.

Lemma loadLoop_ok it : forall s b rb peers, saved -> visit it -> sr_id s = storeID -> sr_kv s = kv -> sr_raft s = raft ->
  bt_ok regionLess (me_regionRanges (sr_meta s)) -> kv_kept b -> raft_kept rb ->
  exists s' b' rb' rs ps, load s it b rb peers = Ret (s', b', rb', peers ++ ps) /\ loaded it s s' rs
    /\ Forall2 started rs ps /\ kv_kept b' /\ raft_kept rb'.
Proof.
  induction it as [|[key val] it IH]; intros s b rb peers Hs Hv Hid Hkv Hraft Hbt Hb Hrb; cbn [loadLoop].
  { exists s, b, rb, [], []. rewrite app_nil_r. split; [done|]. split; [|done].
    apply loaded_none; [done..|]. by intros p ?%not_elem_of_nil. }
  destruct (visit_cons _ _ Hv) as (Hv' & Hg & Hge). cbn [fst snd] in Hg, Hge.
  destruct (Compare key RegionMetaMaxKey >=? 0) eqn:Hmax.
  { exists s, b, rb, [], []. rewrite app_nil_r. split; [done|]. split; [|done].
    apply loaded_none; [done..|]. intros p Hp. apply (visit_end _ _ p Hv); [cbn; unfold key_lt; lia|done]. }
  assert (Hin : in_meta key = true).
  { unfold in_meta. rewrite Hge. cbn. unfold key_lt. lia. }
  destruct (sv_meta Hs key val Hg Hin) as (state & region & Hu & -> & Hval).
  rewrite (Decode_RegionStateKey _ Hu). change (RegionStateSuffix =? RegionStateSuffix) with true. cbn [negb].
  rewrite Hval. cbn [deref]. assert (Hst : state_of kv (rg_Id region) = Some (state, Some region)).
  { unfold state_of. by rewrite Hg. }
  destruct state.
  - destruct (sv_normal Hs _ _ Hu Hst) as (ti & st & ap & mp & Hdisk & Hmp & Hne).
    destruct (createPeer_ok snapRegion rand_Int cfg Hcfg ti storeID raft kv region st ap mp Hdisk Hmp Hne)
      as (p & Hp & Hwf & Hreg & _ & Hpid & _ & _ & Hpr & Hpk & _). rewrite Hid, Hkv, Hraft, Hp.
    destruct (ReplaceOrInsert_spec (E:=error) regionLess _ region Hbt) as (tree & -> & Hbt' & _). cbn beta iota zeta.
    match goal with |- context [load ?x _ _ _ _] => set (s1 := x) end.
    destruct (IH s1 b rb (peers ++ [p]) Hs Hv' Hid Hpk Hpr Hbt' Hb Hrb) as (s' & b' & rb' & rs & ps & -> & Hl & Hf & Hb' & Hrb').
    exists s', b', rb', (region :: rs), (p :: ps). rewrite <- app_assoc. split; [done|].
    split; [by apply (loaded_cons _ _ s s1)|]. split; [by constructor|done].
  - destruct (clearStaleMeta_ok b rb region Hs (conj Hu (conj Hst eq_refl)) Hb Hrb) as (b1 & rb1 & Hc & Hb1 & Hrb1). rewrite Hraft, Hc.
    cbn beta iota. destruct (IH s b1 rb1 peers Hs Hv' Hid Hkv Hraft Hbt Hb1 Hrb1) as (s' & b' & rb' & rs & ps & -> & Hl & Hrest).
    exists s', b', rb', rs, ps. split; [done|]. split; [|exact Hrest]. apply loaded_skip; [|exact Hl]. cbn. intros r. congruence.
Qed.

(** ** Registering and starting the peers *)
Lemma registers_get peers (s : raftstore D) id : (exists p, p ∈ peers /\ pe_regionId p = id) ->
  exists ps p, sr_peers (foldl register s peers) !! id = Some ps
    /\ sr_objs (foldl register s peers) !! ps = Some (mkPeerObj false p) /\ p ∈ peers /\ pe_regionId p = id.
Proof.
  induction peers as [|q peers IH] using rev_ind; [by intros (p & ?%not_elem_of_nil & _)|]. intros (p & Hp & Hid).
  rewrite foldl_app. cbn [foldl]. unfold register at 1 3. cbn. destruct (decide (pe_regionId q = id)) as [<-|Hne].
  - rewrite lookup_insert_eq. exists (length (sr_objs (foldl register s peers))), q. split; [done|].
    rewrite lookup_app_r, Nat.sub_diag by lia. split; [done|]. split; [|done]. apply elem_of_app. right. by apply list_elem_of_singleton.
  - destruct IH as (ps & p' & Hps & Ho & Hp' & Hid').
    { exists p. split; [|done]. apply elem_of_app in Hp as [Hp|Hp%list_elem_of_singleton]; [done|congruence]. }
    rewrite lookup_insert_ne by done. exists ps, p'. split; [done|]. split; [by apply lookup_app_l_Some|].
    split; [|done]. apply elem_of_app. by left.
Qed.
Lemma registers_none peers (s : raftstore D) id : (forall p, p ∈ peers -> pe_regionId p <> id) ->
  sr_peers (foldl register s peers) !! id = sr_peers s !! id.
Proof.
  induction peers as [|q peers IH] using rev_ind; [done|]. intros Hne. rewrite foldl_app. cbn [foldl]. unfold register at 1. cbn.
  rewrite lookup_insert_ne by (apply Hne, elem_of_app; right; by apply list_elem_of_singleton).
  apply IH. intros p Hp. apply Hne, elem_of_app. by left.
Qed.
Lemma foldl_register_keeps peers : forall s : raftstore D, let s' := foldl register s peers in
  sr_kv s' = sr_kv s /\ sr_raft s' = sr_raft s /\ sr_meta s' = sr_meta s /\ sr_peerCh s' = sr_peerCh s.
Proof. induction peers as [|p peers IH]; intros s; [done|]. exact (IH (register s p)). Qed.
Lemma starts (peers : list (peer D)) : forall s : raftstore D,
  (forall p, p ∈ peers -> exists ps q, sr_peers s !! pe_regionId p = Some ps /\ sr_objs s !! ps = Some (mkPeerObj false q)) ->
  foldl (fun s p => fst (send s (pe_regionId p) MsgTypeStart)) s peers
  = s <| sr_peerCh ::= fun ch => ch ++ map (fun p => (pe_regionId p, MsgTypeStart)) peers |>.
Proof.
  induction peers as [|p peers IH]; intros s Hp; cbn [foldl map].
  { destruct s. unfold upd. cbn. unfold set_sr_peerCh. cbn. by rewrite app_nil_r. }
  destruct (Hp p) as (ps & q & Hps & Ho); [left|]. unfold send at 2. unfold get. rewrite Hps. cbn [mbind option_bind]. rewrite Ho.
  cbn [po_closed fst]. rewrite IH; [|intros p' Hp'; apply Hp; by right]. destruct s. unfold upd. cbn. unfold set_sr_peerCh. cbn.
  by rewrite <- app_assoc.
Qed.
Lemma inserts_get (rs : list Region) : forall (m : gmap Z Region) r, r ∈ rs -> (forall r', r' ∈ rs -> rg_Id r' = rg_Id r -> r' = r) ->
  foldl (fun m r => <[rg_Id r := r]> m) m rs !! rg_Id r = Some r.
Proof.
  induction rs as [|q rs IH] using rev_ind; intros m r Hr Hu; [by apply not_elem_of_nil in Hr|]. rewrite foldl_app. cbn [foldl].
  destruct (decide (rg_Id q = rg_Id r)) as [Heq|Hne].
  - rewrite Heq, lookup_insert_eq. f_equal. apply Hu; [|done]. apply elem_of_app. right. by apply list_elem_of_singleton.
  - rewrite lookup_insert_ne by done. apply IH; [|intros r' Hr'; apply Hu, elem_of_app; by left].
    apply elem_of_app in Hr as [Hr|Hr%list_elem_of_singleton]; [done|congruence].
Qed.
Lemma inserts_none (rs : list Region) id : forall (m : gmap Z Region), (forall r, r ∈ rs -> rg_Id r <> id) ->
  foldl (fun m r => <[rg_Id r := r]> m) m rs !! id = m !! id.
Proof.
  induction rs as [|q rs IH]; intros m Hne; [done|]. cbn [foldl]. rewrite IH by (intros r Hr; apply Hne; by right).
  apply lookup_insert_ne. apply Hne. left.
Qed.

(** ** The store that has started *)
Record restored (s : raftstore D) : Prop := {
  (** a region that is not a tombstone has a peer, which is told to start *)
  rs_peers : forall id region, is_u64 id -> state_of kv id = Some (PeerState_Normal, Some region) ->
    me_regions (sr_meta s) !! id = Some region /\ (id, MsgTypeStart) ∈ sr_peerCh s /\
    exists ps p, get s id = Some ps /\ sr_objs s !! ps = Some (mkPeerObj false p) /\ getRegion p = region /\ node_wf snapRegion p;
  (** there are no other peers *)
  rs_only : forall id, is_u64 id -> (forall region, state_of kv id <> Some (PeerState_Normal, Some region)) ->
    get s id = None /\ me_regions (sr_meta s) !! id = None;
  (** no region has changed its state, and only what belongs to tombstones is gone *)
  rs_states : forall id, is_u64 id -> state_of (sr_kv s) id = state_of kv id;
  rs_kv : forall k, db_get (sr_kv s) k = db_get kv k \/ exists id region, tombstone id region /\ (k = ApplyStateKey id \/ k = RegionStateKey id);
  rs_raft : forall k, db_get (sr_raft s) k = db_get raft k \/ exists id region, tombstone id region /\
    (k = RaftStateKey id \/ exists i, k = RaftLogKey id i);
}.
Lemma tombstone_states b id : kv_kept b -> saved -> is_u64 id -> state_of (wb.WriteToDB b kv) id = state_of kv id.
Proof.
  intros Hb Hs Hid. unfold state_of. destruct (Hb (RegionStateKey id)) as [-> |(id' & region & (Hid' & Ht & Hi) & [Hk|[Hk Hg]])]; [done| |].
  - by apply region_apply_ne in Hk.
  - rewrite Hg. cbn. rewrite Hround. assert (id' = id) as ->.
    { symmetry. by apply region_key_inj. }
    symmetry. exact Ht.
Qed.
Lemma visit_all : visit (db_from kv RegionMetaMinKey).
Proof. split; [apply db_from_sorted|]. intros p Hp. by apply db_from_elem. Qed.
Lemma region_loaded id region rs s s' : saved -> is_u64 id -> loaded (db_from kv RegionMetaMinKey) s s' rs ->
  (region ∈ rs /\ rg_Id region = id <-> state_of kv id = Some (PeerState_Normal, Some region)).
Proof.
  intros Hs Hid Hl. rewrite (ld_regions _ _ _ _ Hl). split.
  - intros [([key val] & Hp & Hin & Hval) <-]. cbn [fst snd] in *. apply db_from_elem in Hp as [Hg _]. cbn in Hg.
    destruct (sv_meta Hs key val Hg Hin) as (st & r & Hu & -> & Hr). assert (r = region) as -> by congruence.
    unfold state_of. by rewrite Hg.
  - intros Hst. pose proof (state_of_id _ _ _ Hs Hid Hst) as Hri. split; [|done]. unfold state_of in Hst.
    destruct (db_get kv (RegionStateKey id)) as [val|] eqn:Hg; [|done]. exists (RegionStateKey id, val). split.
    + apply db_from_elem. split; [done|]. cbn. pose proof (RegionStateKey_in_meta id) as Hm. unfold in_meta in Hm.
      by destruct (key_lt _ RegionMetaMinKey).
    + split; [apply RegionStateKey_in_meta|exact Hst].
Qed.
Lemma started_peer rs ps r : Forall2 started rs ps -> r ∈ rs -> exists p, p ∈ ps /\ started r p.
Proof.
  induction 1 as [|r' p rs ps Hp _ IH]; [by intros ?%not_elem_of_nil|]. intros [-> |Hr]%elem_of_cons.
  - exists p. split; [left|done].
  - destruct (IH Hr) as (q & Hq & Hst). exists q. split; [by right|done].
Qed.
Lemma started_region rs ps p : Forall2 started rs ps -> p ∈ ps -> exists r, r ∈ rs /\ started r p.
Proof.
  induction 1 as [|r p' rs ps Hp _ IH]; [by intros ?%not_elem_of_nil|]. intros [-> |Hr]%elem_of_cons.
  - exists r. split; [left|done].
  - destruct (IH Hr) as (q & Hq & Hst). exists q. split; [by right|done].
Qed.
Lemma restored_ok s0 s1 b rb rs ps s : saved -> loaded (db_from kv RegionMetaMinKey) s0 s1 rs -> Forall2 started rs ps ->
  kv_kept b -> raft_kept rb -> sr_peers s0 = ∅ -> me_regions (sr_meta s0) = ∅ ->
  s = startWorkers (foldl register (s1 <| sr_kv := wb.WriteToDB b (sr_kv s1) |> <| sr_raft := wb.WriteToDB rb (sr_raft s1) |>) ps) ps ->
  restored s.
Proof.
  intros Hs Hl Hf Hb Hrb H1 H2 ->. set (s2 := s1 <| sr_kv := _ |> <| sr_raft := _ |>). unfold startWorkers. cbv zeta.
  destruct (ld_objs _ _ _ _ Hl) as (_ & Hpe & _). destruct (ld_engines _ _ _ _ Hl) as [Hkv Hra].
  destruct (foldl_register_keeps ps s2) as (K1 & K2 & K3 & _). cbn zeta in *.
  rewrite starts by (intros p Hp; destruct (registers_get ps s2 (pe_regionId p)) as (i & q & Hi & Hq & _); [by exists p|by exists i, q]).
  assert (Hreg : forall id region, is_u64 id -> (region ∈ rs /\ rg_Id region = id <-> state_of kv id = Some (PeerState_Normal, Some region)))
    by (intros; by eapply region_loaded).
  split; unfold get; cbn; rewrite ?K1, ?K2, ?K3; change (sr_meta s2) with (sr_meta s1); rewrite ?(ld_meta _ _ _ _ Hl).
  - intros id region Hid Hst. apply (Hreg id region Hid) in Hst as Hin. destruct Hin as [Hin Hri]. rewrite <- Hri at 1.
    destruct (started_peer _ _ _ Hf Hin) as (p & Hp & Hpi & _). split_and!.
    + apply inserts_get; [done|]. intros r' Hr' Heq.
      assert (Hx : state_of kv id = Some (PeerState_Normal, Some r')) by (apply Hreg; [done|by split; [|congruence]]). congruence.
    + apply elem_of_app. right. apply list_elem_of_fmap. exists p. split; [|done]. congruence.
    + destruct (registers_get ps s2 id) as (i & q & Hi & Hq & Hqp & Hqi); [exists p; split; [done|congruence]|].
      exists i, q. do 2 (split; [done|]). destruct (started_region _ _ _ Hf Hqp) as (r & Hr & Hri' & Hgr & Hw). split; [|done].
      assert (Hx : state_of kv id = Some (PeerState_Normal, Some r)) by (apply Hreg; [done|split; [done|congruence]]). congruence.
  - intros id Hid Hno. rewrite registers_none.
    + change (sr_peers s2) with (sr_peers s1). rewrite Hpe, H1. split; [apply lookup_empty|].
      rewrite inserts_none, H2; [apply lookup_empty|]. intros r Hr Heq. apply (Hno r). by apply Hreg.
    + intros p Hp Heq. destruct (started_region _ _ _ Hf Hp) as (r & Hr & Hpi & _). apply (Hno r). apply Hreg; [done|].
      split; [done|congruence].
  - intros id Hid. change (sr_kv s2) with (wb.WriteToDB b (sr_kv s1)). rewrite Hkv. by apply tombstone_states.
  - intros k. change (sr_kv s2) with (wb.WriteToDB b (sr_kv s1)). rewrite Hkv.
    destruct (Hb k) as [?|(id & r & Ht & [?|[? _]])]; [by left|right; exists id, r; auto..].
  - intros k. change (sr_raft s2) with (wb.WriteToDB rb (sr_raft s1)). rewrite Hra. apply Hrb.
Qed.
Lemma kv_kept_nil : kv_kept new_WriteBatch.
Proof. intros k. by left. Qed.
Lemma raft_kept_nil : raft_kept new_WriteBatch.
Proof. intros k. by left. Qed.
Lemma newStoreMeta_ok : exists m, newStoreMeta (E:=error) = Ret m /\ bt_ok regionLess (me_regionRanges m) /\ me_regions m = ∅.
Proof. eexists. split; [reflexivity|]. split; [|done]. split; cbn; [lia|constructor|done|done]. Qed.
Lemma start_restores mgr : saved -> exists s,
  start regionStateBytes regionStateOf snapRegion rand_Int cfg storeID kv raft mgr = Ret s /\ restored s.
Proof.
  intros Hs. unfold start. destruct Hcfg as [Hbase Hhb Hel].
  assert (Validate cfg = Ret tt) as ->.
  { unfold Validate. destruct (Z.eqb_spec (cf_RaftHeartbeatTicks cfg) 0); [lia|].
    by destruct (Z.leb_spec (cf_RaftElectionTimeoutTicks cfg) (cf_RaftHeartbeatTicks cfg)); [lia|]. }
  destruct newStoreMeta_ok as (m & -> & Hm & Hme). unfold newStoreTicker. apply Z.eqb_neq in Hbase as ->. cbv beta iota zeta.
  match goal with |- context [loadPeers _ _ _ _ _ ?x] => set (s0 := x) end. unfold loadPeers.
  destruct (loadLoop_ok _ s0 new_WriteBatch new_WriteBatch [] Hs visit_all eq_refl eq_refl eq_refl Hm kv_kept_nil raft_kept_nil)
    as (s1 & b & rb & rs & ps & Hload & Hl & Hf & Hb & Hrb).
  change (sr_kv s0) with kv. rewrite Hload. eexists. split; [reflexivity|]. by eapply restored_ok.
Qed.
End Start.

(** C16. Starting a store always succeeds when its engines are as a store leaves them, and
    gives back what was there: every region that is on disk and not a tombstone has exactly
    one peer, well formed and of that region, which is registered and told to start; no
    other region has one. No region changes its state, so a tombstone stays one, and all
    that is removed from the engines is what was left behind by the peers of tombstones. *)
Theorem restart_restores_peers {D} `{BadgerLaws D} regionStateBytes regionStateOf snapRegion rand_Int cfg storeID (kv raft : D) mgr :
  cfg_ok cfg -> (forall st r, regionStateBytes st r <> []) ->
  (forall st r, regionStateOf (regionStateBytes st r) = Some (st, Some r)) ->
  saved regionStateOf storeID kv raft ->
  exists s, start regionStateBytes regionStateOf snapRegion rand_Int cfg storeID kv raft mgr = Ret s
    /\ restored regionStateOf snapRegion kv raft s.
Proof. intros Hcfg Hb Hr Hs. by eapply start_restores. Qed.
