(* ===== verification/RaftStoreRun.v ===== *)
(** * RaftStoreRun: runs of a store

    A store over finite maps: samples for the theorems about the store, and two runs that
    show what goes wrong after a split and when a peer is destroyed. *)

From stdpp Require Import base option list strings gmap tactics.
From S2P Require Import Prelude.
From S2P Require Import Eraftpb.
From S2P Require Import EraftpbRound.
From S2P Require Import RaftServerpb.
From S2P Require Import RaftStorage.
From S2P Require Import Meta.
From S2P Require Import Metapb.
From S2P Require Import RegionInfo.
From S2P Require Import Store.
From S2P Require Import Engine.
From S2P Require Import EngineIter.
From S2P Require Import SnapFile.
From S2P Require Import PeerStorage.
From S2P Require Import PeerStorageProps.
From S2P Require Import RaftCmdpb.
From S2P Require Import SnapMgr.
From S2P Require Import RaftstoreUtil.
From S2P Require Import Peer.
From S2P Require Import PeerMsg.
From S2P Require Import PeerProps.
From S2P Require Import PeerSplit.
From S2P Require Import PeerRun.
From S2P Require Import Runner.
From S2P Require Import SnapRace.
From S2P Require Import RaftStore.
From S2P Require Import RaftStoreProps.
From S2P Require Import RaftStoreStart.

(** ** Encodings *)
Lemma get_put_list l rest : get_list (put_list l ++ rest) = (l, rest).
Proof. unfold get_list, put_list, len. cbn. rewrite Nat2Z.id. f_equal; [apply take_app_length|apply drop_app_length]. Qed.
Definition state_bytes (st : PeerState) (r : Region) : list Z :=
  [match st with PeerState_Normal => 0 | PeerState_Tombstone => 2 end; rg_Id r]
  ++ put_list (rg_StartKey r) ++ put_list (rg_EndKey r)
  ++ match rg_RegionEpoch r with Some e => [1; ep_ConfVer e; ep_Version e] | None => [0; 0; 0] end
  ++ concat (map (fun p => [p_Id p; p_StoreId p]) (rg_Peers r)).
Fixpoint peers_of (bs : list Z) : list Peer :=
  match bs with id :: store :: bs => mkPeer id store :: peers_of bs | _ => [] end.
Definition bytes_state (bs : list Z) : option (PeerState * option Region) :=
  match bs with
  | tag :: id :: bs =>
    let (start, bs) := get_list bs in
    let (stop, bs) := get_list bs in
    match bs with
    | has :: c :: v :: bs =>
      Some (if tag =? 0 then PeerState_Normal else PeerState_Tombstone,
            Some (mkRegion id start stop (if has =? 0 then None else Some (mkEpoch c v)) (peers_of bs)))
    | _ => None
    end
  | _ => None
  end.
Lemma bytes_state_bytes st r : bytes_state (state_bytes st r) = Some (st, Some r).
Proof.
  assert (Hp : forall ps, peers_of (concat (map (fun p => [p_Id p; p_StoreId p]) ps)) = ps).
  { induction ps as [|[id store] ps IH]; cbn; [done|by rewrite IH]. }
  destruct r as [id start stop epoch ps]. unfold state_bytes, bytes_state. cbn [app rg_Id rg_StartKey rg_EndKey rg_RegionEpoch rg_Peers].
  rewrite get_put_list. cbv iota. rewrite get_put_list. destruct epoch as [[c v]|], st; cbn; by rewrite Hp.
Qed.
Lemma state_bytes_nonempty st r : state_bytes st r <> [].
Proof. done. Qed.

(** A put of a key, or a split at a key of one byte with the ids of the new region and its peers. *)
Definition split_cmd (key id : Z) (peers : list Z) : RaftCmdRequest :=
  mkRequest (Some (demo_header 0)) [] (Some (mkAdmin AdminCmdType_Split None None None (Some (mkSplit [key] id peers)))).
Definition store_cmd (bytes : list Z) : option RaftCmdRequest :=
  match bytes with
  | 3 :: key :: id :: peers => Some (split_cmd key id peers)
  | _ => race_cmd bytes
  end.

(** ** A store *)
Abbreviation dstore := (raftstore db).
Definition d_start (kv raft : db) : outcome error dstore :=
  start state_bytes bytes_state noRegion demo_rand demo_cfg 1 kv raft race_manager.
Definition d_raft (n : nat) (s : dstore) : outcome error dstore :=
  raftWorker_run state_bytes noRegion demo_bytes store_cmd demo_rand demo_cfg race_meta_of (fun _ => false) n s.
Definition d_store (s : dstore) : outcome error dstore :=
  storeWorker_run bytes_state noRegion demo_rand demo_cfg race_meta_of s.

(** Region 1 has a peer on store 1 and one on store 2. *)
Definition region1 : Region := mkRegion 1 [] [] (Some (mkEpoch 1 1)) [mkPeer 1 1; mkPeer 2 2].
Definition disk1 : db := {[ RegionStateKey 1 := state_bytes PeerState_Normal region1 ]}.
(** A message of peer [from] of store 2. *)
Definition from_store2 (regionID : Z) (from to : Z) (epoch : RegionEpoch) (tombstone : bool) (start stop : list Z) (m : Message) : RaftMessage :=
  mkRaftMessage regionID (Some (mkPeer from 2)) (Some (mkPeer to 1))
    (Some (m <| m_From := from |> <| m_To := to |>)) (Some epoch) tombstone start stop.
(** The leader of region 1 has committed a split at key 50: the peers of region 2 are 11 and 12. *)
Definition split_msg : RaftMessage :=
  from_store2 1 2 1 (mkEpoch 1 1) false [] []
    (zero_Message <| m_MsgType := MsgAppend |> <| m_Term := 6 |> <| m_Index := 5 |> <| m_LogTerm := 5 |> <| m_Commit := 6 |>
       <| m_Entries := [zero_Entry <| e_Term := 6 |> <| e_Index := 6 |> <| e_Data := Some [3; 50; 2; 11; 12] |>] |>).
(** Peer 11 has been removed from region 2. *)
Definition gc_msg : RaftMessage := from_store2 2 12 11 (mkEpoch 2 1) true [] [] zero_Message.
(** A new peer 13 of region 2 on store 1 gets its first heartbeat. *)
Definition hello_msg : RaftMessage :=
  from_store2 2 12 13 (mkEpoch 3 1) false [50] [] (zero_Message <| m_MsgType := MsgHeartbeat |> <| m_Term := 7 |>).

Definition split_store : outcome error dstore :=
  let! s := d_start disk1 ∅ in
  let! s := d_raft 10 s in
  let! s := d_raft 10 (SendRaftMessage s split_msg) in
  d_raft 10 s.
Definition gone_store : outcome error dstore :=
  let! s := split_store in d_raft 10 (SendRaftMessage s gc_msg).
Definition blocked_store : outcome error (dstore * dstore) :=
  let! s := gone_store in
  let! blocked := d_store (s <| sr_storeCh := [MsgTypeStoreRaftMessage hello_msg] |>) in
  let! s := d_start (sr_kv s) (sr_raft s) in
  let! restarted := d_store (s <| sr_storeCh := [MsgTypeStoreRaftMessage hello_msg] |>) in
  Ret (blocked, restarted).

(** After a split, a store can refuse a replica of the new region for good. The split
    changes a copy of the old region and leaves the old range in the store's map of ranges.
    When the peer of the new region is removed from the store, its own entry goes, and the
    old range, which still covers it, is what a first message for another peer of the new
    region meets: the message is dropped as overlapping. After a restart, which reads the
    ranges from disk, the same message makes the peer. *)
Theorem split_blocks_replica : exists s, blocked_store = Ret s /\
  get s.1 2 = None /\ sr_peerCh s.1 = []
  /\ (rg_EndKey <$> me_regions (sr_meta s.1) !! 1) = Some [50] /\ me_regions (sr_meta s.1) !! 2 = None
  /\ get s.2 2 = Some 1%nat.
Proof. apply (run_sat _). by vm_compute. Qed.

(** A client writes to region 2 while peer 11 is destroyed. *)
Definition client_cmd : RaftCmdRequest :=
  mkRequest (Some (mkHeader 2 (Some (mkPeer 11 1)) (Some demo_epoch) 0))
    [mkReq CmdType_Put None (Some (mkPut CfDefault (Some [60]) (Some [1]))) None] None.
Definition command_store (batch : nat) : outcome error (dstore * bool) :=
  let! s := split_store in
  let! (s, ok) := SendRaftCommand (SendRaftMessage s gc_msg) client_cmd (Some 7) in
  let! s := d_raft batch s in
  let! s := d_raft 10 s in
  Ret (s, ok).
Definition answers (s : dstore) : list Z := omap (fun e => match e with EDone cb _ => Some cb | _ => None end) (sr_sent s).
Definition command_stores : outcome error (dstore * bool * (dstore * bool)) :=
  let! one := command_store 10 in let! two := command_store 1 in Ret (one, two).

(** A client's command can be lost without an answer. The router takes the command for a
    peer that is about to be destroyed. If both are handled in one batch the client is told;
    if the peer is destroyed in one batch and the command comes in the next, the raft worker
    finds no peer, drops the message, and nobody calls the client back. *)
Theorem destroyed_peer_drops_command : exists s, command_stores = Ret s /\
  s.1.2 = true /\ answers s.1.1 = [7] /\ s.2.2 = true /\ sr_peerCh s.2.1 = [] /\ answers s.2.1 = [].
Proof. apply (run_sat _). by vm_compute. Qed.

(** ** Witnesses *)
Abbreviation d_running := (running state_bytes bytes_state noRegion demo_bytes store_cmd demo_rand demo_cfg race_meta_of
  (fun _ => false) race_meta race_table race_ingest race_data (fun _ => 0) (fun _ => None) None (0, 0) 1).
Lemma router_live_witness : exists s, split_store = Ret s
  /\ exists o, sr_objs s !! 1%nat = Some o /\ po_closed o = false /\ pe_regionId (po_peer o) = 2 /\ pe_stopped (po_peer o) = false.
Proof.
  destruct (run_sat (fun s => get s 2 = Some 1%nat) split_store) as (s & Hs & Hg); [by vm_compute|]. exists s. split; [exact Hs|].
  assert (Hrun : d_running disk1 ∅ race_manager s).
  { unfold split_store in Hs. bind_inv Hs.
    eapply running_step; [|eapply step_raftWorker; exact Hs]. eapply running_step; [|eapply step_raftWorker; exact E1].
    eapply running_step; [|apply step_message]. eapply running_step; [|eapply step_raftWorker; exact E0].
    by apply running_start. }
  exact (router_live _ _ _ _ _ _ _ _ _ _ _ _ _ _ _ _ _ _ _ _ _ s Hrun 2 1%nat Hg).
Defined.

(** A stale request for a vote, from a store that is not a member, meets the tombstone. *)
Definition stale_vote : RaftMessage :=
  mkRaftMessage 2 (Some (mkPeer 14 4)) (Some (mkPeer 11 1))
    (Some (zero_Message <| m_MsgType := MsgRequestVote |> <| m_Term := 9 |> <| m_From := 14 |> <| m_To := 11 |>))
    (Some (mkEpoch 1 0)) false [] [].
Definition region2 : Region := mkRegion 2 [50] [] (Some (mkEpoch 1 1)) [mkPeer 11 1; mkPeer 12 2].
Lemma tombstone_not_resurrected_witness : exists s, gone_store = Ret s
  /\ handleMsg bytes_state noRegion demo_rand demo_cfg race_meta_of s (MsgTypeStoreRaftMessage stale_vote)
     = Ret (s <| sr_sent ::= fun l => l ++ [ESend (mkRaftMessage 2 (Some (mkPeer 11 1)) (Some (mkPeer 14 4)) None (Some (mkEpoch 1 1)) true [] [])] |>).
Proof.
  destruct (run_sat (fun s => (get s 2 = None /\ sr_id s = 1) /\ db_get (sr_kv s) (RegionStateKey 2) = Some (state_bytes PeerState_Tombstone region2)) gone_store)
    as (s & Hs & [[Hg Hid] Hk]); [by vm_compute|]. exists s. split; [exact Hs|].
  pose proof (tombstone_not_resurrected bytes_state noRegion demo_rand demo_cfg race_meta_of s stale_vote _ (mkPeer 14 4) (mkPeer 11 1)
    (mkEpoch 1 0) region2 (mkEpoch 1 1) eq_refl eq_refl eq_refl eq_refl Hg) as Ht.
  rewrite Hid in Ht. apply Ht; [|reflexivity|cbn; lia]. unfold GetRegionState.
  change (ms_RegionId stale_vote) with 2. rewrite Hk, bytes_state_bytes. reflexivity.
Defined.

(** Region 1 runs, and of the destroyed region 2 some of the Raft state is left. *)
Definition disk_kv : db :=
  {[ RegionStateKey 1 := state_bytes PeerState_Normal demo_region; RegionStateKey 2 := state_bytes PeerState_Tombstone region2;
     ApplyStateKey 1 := RaftApplyState_enc first_apply ]}.
Definition disk_raft : db :=
  {[ RaftStateKey 1 := RaftLocalState_enc first_state; RaftStateKey 2 := RaftLocalState_enc first_state; RaftLogKey 2 6 := [1] ]}.
Lemma disk_kv_get k v : disk_kv !! k = Some v ->
  (k = RegionStateKey 1 /\ v = state_bytes PeerState_Normal demo_region)
  \/ (k = RegionStateKey 2 /\ v = state_bytes PeerState_Tombstone region2) \/ k = ApplyStateKey 1.
Proof.
  unfold disk_kv. intros [[<- <-]|[_ [[<- <-]|[_ [<- <-]%lookup_singleton_Some]]%lookup_insert_Some]]%lookup_insert_Some; auto.
Qed.
Lemma disk_raft_get k v : disk_raft !! k = Some v -> k = RaftStateKey 1 \/ k = RaftStateKey 2 \/ k = RaftLogKey 2 6.
Proof.
  unfold disk_raft. intros [[<- _]|[_ [[<- _]|[_ [<- _]%lookup_singleton_Some]]%lookup_insert_Some]]%lookup_insert_Some; auto.
Qed.
Lemma disk_state id st r : is_u64 id -> state_of bytes_state disk_kv id = Some (st, Some r) ->
  (st = PeerState_Normal /\ r = demo_region) \/ (st = PeerState_Tombstone /\ r = region2 /\ id = 2).
Proof.
  intros Hid. unfold state_of. destruct (db_get disk_kv (RegionStateKey id)) as [v|] eqn:Hk; [|done]. cbn [mbind option_bind].
  destruct (disk_kv_get _ _ Hk) as [[Hi ->]|[[Hi ->]|Hi]].
  - rewrite bytes_state_bytes. intros [= <- <-]. by left.
  - rewrite bytes_state_bytes. intros [= <- <-]. right. split_and!; [done..|]. apply region_key_inj; [done|by vm_compute|done].
  - by apply region_apply_ne in Hi.
Qed.
Lemma state_key_last i : key_lt (RaftStateKey 2) (RaftLogKey 2 i) = false.
Proof.
  unfold RaftStateKey, RaftLogKey. rewrite makeRegionPrefix_eq, makeRegionKey_eq. unfold key_lt, Compare.
  rewrite bytes_compare_app, bytes_compare_refl by done. by rewrite bytes_compare_app, bytes_compare_refl by done.
Qed.
Lemma disk_saved : saved bytes_state 1 disk_kv disk_raft.
Proof.
  split.
  - intros k v Hk Hin. destruct (disk_kv_get _ _ Hk) as [[-> ->]|[[-> ->]| ->]].
    + exists PeerState_Normal, demo_region. split; [by vm_compute|]. split; [done|apply bytes_state_bytes].
    + exists PeerState_Tombstone, region2. split; [by vm_compute|]. split; [done|apply bytes_state_bytes].
    + by vm_compute in Hin.
  - intros id r Hid Hst. destruct (disk_state _ _ _ Hid Hst) as [[_ ->]|[? _]]; [|done].
    exists 5, first_state, first_apply, (mkPeer 1 1). split; [|done]. split; [by vm_compute|by vm_compute| | |by vm_compute].
    + split; try done; [by eexists| |  |by eexists].
      * intros i Hi. cbn in Hi. lia.
      * intros k v Hk Hge Hlt. exfalso. destruct (disk_raft_get k v Hk) as [-> |[-> | ->]].
        -- rewrite state_key_after in Hlt; [done|by vm_compute].
        -- by vm_compute in Hlt.
        -- by vm_compute in Hlt.
    + exists (mkHardState 5 0 5 None). by vm_compute.
  - intros id r Hid Hst. destruct (disk_state _ _ _ Hid Hst) as [[? _]|(_ & _ & ->)]; [done|]. right. exists first_state. by vm_compute.
  - intros id r last k v Hid Hst Hl Hk Hge Hlt. destruct (disk_state _ _ _ Hid Hst) as [[? _]|(_ & _ & ->)]; [done|].
    destruct (disk_raft_get k v Hk) as [-> |[-> | ->]].
    + by vm_compute in Hge.
    + by rewrite state_key_last in Hlt.
    + exists 6. by vm_compute.
Qed.
Lemma restart_restores_peers_witness : exists s, d_start disk_kv disk_raft = Ret s
  /\ is_Some (get s 1) /\ get s 2 = None /\ state_of bytes_state (sr_kv s) 2 = Some (PeerState_Tombstone, Some region2).
Proof.
  assert (H1 : is_u64 1) by (by vm_compute). assert (H2 : is_u64 2) by (by vm_compute).
  assert (S1 : state_of bytes_state disk_kv 1 = Some (PeerState_Normal, Some demo_region)) by (vm_compute; reflexivity).
  assert (S2 : state_of bytes_state disk_kv 2 = Some (PeerState_Tombstone, Some region2)) by (vm_compute; reflexivity).
  unfold d_start. destruct (restart_restores_peers state_bytes bytes_state noRegion demo_rand demo_cfg 1 disk_kv disk_raft race_manager)
    as (s & Hs & Hr).
  - split; [discriminate|vm_compute; reflexivity..].
  - exact state_bytes_nonempty.
  - exact bytes_state_bytes.
  - exact disk_saved.
  - exists s. split; [exact Hs|]. destruct Hr as [Hpeers Honly Hstates _ _].
    destruct (Hpeers 1 demo_region H1 S1) as (_ & _ & ps & _ & Hg & _). split; [exists ps; exact Hg|].
    split; [|rewrite (Hstates 2 H2); exact S2]. apply (Honly 2 H2). intros r Hr. rewrite S2 in Hr. discriminate Hr.
Defined.
