(* ===== verification/Node.v ===== *)
(** * Node: a store joins the cluster

    [kv/raftstore/bootstrap.go] and [node.go].  A node has the engines of its store and a
    client of the scheduler, of which only the interface is used.  [nd_left] is the number of
    effects, calls and writes to an engine, the process has before it dies; what it has done
    so far stays. *)

From stdpp Require Import base option list gmap tactics.
From S2P Require Import Prelude.
From S2P Require Import RaftServerpb.
From S2P Require Import Metapb.
From S2P Require Import Meta.
From S2P Require Import Engine.
From S2P Require Import RegionInfo.
From S2P Require Import Store.
From S2P Require Import PeerStorage.
From S2P Require Import SnapFile.
From S2P Require Import SnapMgr.
From S2P Require Import RaftstoreUtil.
From S2P Require Import Peer.
From S2P Require Import PeerMsg.
From S2P Require Import RaftStore.
From S2P Require Import SchedServer.
From S2P Require Import SchedClient.
From S2P Require Import GoMonad.

Inductive node_error :=
  | NodeCrashed
  | ErrClient (e : client_error)
  | ErrEngine (e : engine_error)
  | ErrMarshal (e : Wire.wire_error)
  | ErrClusterMismatch
  | ErrInvalidIdent
  | ErrNotEmpty
  | ErrCheckBootstrapped
  | ErrBootstrapFailed
  | ErrStart (e : RaftStorage.error).

Record node (W D : Type) := mkNode {
  nd_client : W;
  nd_kv : D;
  nd_raft : D;
  nd_left : option nat;
}.
Arguments mkNode {W D}.
Arguments nd_client {W D}.
Arguments nd_kv {W D}.
Arguments nd_raft {W D}.
Arguments nd_left {W D}.
#[export] Instance set_nd_client {W D} : Setter (@nd_client W D) := fun g s =>
  mkNode (g (nd_client s)) (nd_kv s) (nd_raft s) (nd_left s).
#[export] Instance set_nd_kv {W D} : Setter (@nd_kv W D) := fun g s =>
  mkNode (nd_client s) (g (nd_kv s)) (nd_raft s) (nd_left s).
#[export] Instance set_nd_raft {W D} : Setter (@nd_raft W D) := fun g s =>
  mkNode (nd_client s) (nd_kv s) (g (nd_raft s)) (nd_left s).
#[export] Instance set_nd_left {W D} : Setter (@nd_left W D) := fun g s =>
  mkNode (nd_client s) (nd_kv s) (nd_raft s) (g (nd_left s)).

(** ** [bootstrap.go] *)
Section Bootstrap.
Context {W D : Type} `{Badger D}.
Context (regionStateBytes : PeerState -> Region -> list Z).
Abbreviation prog A := (st node_error (node W D) A).

(** An effect of a process that may die before it. *)
Definition effect {A} (m : prog A) : prog A := fun n =>
  match nd_left n with
  | Some O => (n, Err NodeCrashed)
  | Some (S k) => m (n <| nd_left := Some k |>)
  | None => m n
  end.
Definition writeKV (f : D -> D) : prog unit := effect (modify (fun n => n <| nd_kv ::= f |>)).
Definition writeRaft (f : D -> D) : prog unit := effect (modify (fun n => n <| nd_raft ::= f |>)).

Definition isRangeEmpty (engine : D) (startKey endKey : list Z) : bool :=
  match db_from engine startKey with
  | [] => true
  | item :: _ => negb (Compare (fst item) endKey <? 0)
  end.
Definition BootstrapStore (clusterID storeID : Z) : prog unit :=
  do! n <- gets id;
  if negb (isRangeEmpty (nd_kv n) MinKey MaxKey) then fail ErrNotEmpty else
  if negb (isRangeEmpty (nd_raft n) MinKey MaxKey) then fail ErrNotEmpty else
  do! kv <- lift ErrMarshal (Engine.PutMeta (nd_kv n) StoreIdentKey (mkStoreIdent clusterID storeID None));
  writeKV (fun _ => kv).

(** [SetMeta] of a [RegionLocalState] with the state [Normal], which is the zero value. *)
Definition setRegionState (b : WriteBatch) (key : list Z) (region : Region) : WriteBatch :=
  let val := regionStateBytes PeerState_Normal region in wb.add b key val (len key + len val).
Definition PrepareBootstrapCluster (region : Region) : prog unit :=
  let kvWB := setRegionState new_WriteBatch PrepareBootstrapKey region in
  let kvWB := setRegionState kvWB (RegionStateKey (rg_Id region)) region in
  do! kvWB <- lift ErrStart (writeInitialApplyState kvWB (rg_Id region));
  writeKV (wb.WriteToDB kvWB) ;;
  do! raftWB <- lift ErrStart (writeInitialRaftState new_WriteBatch (rg_Id region));
  writeRaft (wb.WriteToDB raftWB).
Definition firstRegion (storeID regionID peerID : Z) : Region :=
  mkRegion regionID [] [] (Some (mkEpoch InitEpochConfVer InitEpochVer)) [mkPeer peerID storeID].
Definition PrepareBootstrap (storeID regionID peerID : Z) : prog Region :=
  let region := firstRegion storeID regionID peerID in
  PrepareBootstrapCluster region ;; ret region.
Definition ClearPrepareBootstrap (regionID : Z) : prog unit :=
  writeRaft (fun db => db_update db [(RaftStateKey regionID, None)]) ;;
  let wb := wb.DeleteMeta new_WriteBatch PrepareBootstrapKey in
  let wb := wb.DeleteMeta wb (RegionStateKey regionID) in
  let wb := wb.DeleteMeta wb (ApplyStateKey regionID) in
  writeKV (wb.WriteToDB wb).
Definition ClearPrepareBootstrapState : prog unit :=
  writeKV (fun db => db_update db [(PrepareBootstrapKey, None)]).
End Bootstrap.

(** ** [node.go] *)
Section Node.
Context {W D : Type} `{SchedulerClient W, Badger D}.
Context (regionStateBytes : PeerState -> Region -> list Z) (regionStateOf : list Z -> option (PeerState * option Region)).
Context (snapRegion : option (list Z) -> option (option Region)) (rand_Int : nat -> Z) (cfg : Config).
Abbreviation prog A := (st node_error (node W D) A).

(** A call of the client: its error is a value. *)
Definition remote {A} (m : st client_error W A) : prog (client_error + A) :=
  effect (fun n => let (w, o) := m (nd_client n) in
    (n <| nd_client := w |>,
     match o with Ret a => Ret (inr a) | Err e => Ret (inl e) | Panic => Panic | OutOfFuel => OutOfFuel end)).
Definition ask {A} (m : st client_error W A) : prog A :=
  do! r <- remote m; match r with inr a => ret a | inl e => fail (ErrClient e) end.
Definition clusterID (n : node W D) : Z := sc_GetClusterID (nd_client n).

Definition checkStore : prog Z :=
  do! n <- gets id;
  match Engine.GetMeta (T := StoreIdent) (nd_kv n) StoreIdentKey with
  | Err ErrKeyNotFound => ret 0
  | o => do! ident <- lift ErrEngine o;
         if negb (id_ClusterId ident =? clusterID n) then fail ErrClusterMismatch else
         if id_StoreId ident =? InvalidID then fail ErrInvalidIdent else ret (id_StoreId ident)
  end.
Definition allocID : prog Z := ask sc_AllocID.
Definition bootstrapStore : prog Z :=
  do! storeID <- allocID;
  do! cid <- gets clusterID;
  BootstrapStore cid storeID ;; ret storeID.

Definition MaxCheckClusterBootstrappedRetryCount : nat := 60.
Fixpoint checkClusterBootstrapped (i : nat) : prog bool :=
  match i with
  | O => fail ErrCheckBootstrapped
  | S i => do! r <- remote sc_IsBootstrapped;
           match r with inr bootstrapped => ret bootstrapped | inl _ => checkClusterBootstrapped i end
  end.
Definition prepareBootstrapCluster (storeID : Z) : prog Region :=
  do! regionID <- allocID;
  do! peerID <- allocID;
  PrepareBootstrap regionStateBytes storeID regionID peerID.
(** What was prepared before the process died is used again. *)
Definition checkOrPrepareBootstrapCluster (storeID : Z) : prog (option Region) :=
  do! kv <- gets nd_kv;
  match db_get kv PrepareBootstrapKey ≫= regionStateOf with
  | Some (_, region) => ret region
  | None =>
    do! bootstrapped <- checkClusterBootstrapped MaxCheckClusterBootstrappedRetryCount;
    if bootstrapped : bool then ret None else
    do! region <- prepareBootstrapCluster storeID; ret (Some region)
  end.
(** The region of another store was first when the scheduler knows another one, or none. *)
Fixpoint BootstrapCluster (retry : nat) (x : Store) (regionID : Z) : prog bool :=
  match retry with
  | O => fail ErrBootstrapFailed
  | S retry =>
    do! res <- remote (sc_Bootstrap x);
    match res with
    | inl _ => BootstrapCluster retry x regionID
    | inr (Reply _) => ClearPrepareBootstrapState ;; ret true
    | inr (Refused ALREADY_BOOTSTRAPPED) =>
      do! r <- remote (sc_GetRegion []);
      match r with
      | inl _ => BootstrapCluster retry x regionID
      | inr (region, _) =>
        if match region with Some r => rg_Id r | None => 0 end =? regionID
        then ClearPrepareBootstrapState ;; ret false
        else ClearPrepareBootstrap regionID ;; ret false
      end
    | inr (Refused _) => BootstrapCluster retry x regionID
    end
  end.
(** The raftstore takes over the engines. *)
Definition startNode (storeID : Z) (snapMgr : SnapManager) : prog (raftstore D) :=
  do! n <- gets id;
  lift ErrStart (RaftStore.start regionStateBytes regionStateOf snapRegion rand_Int cfg storeID (nd_kv n) (nd_raft n) snapMgr).
(** [address] is [cfg.StoreAddr]. *)
Definition Start (address : list Z) (snapMgr : SnapManager) : prog (raftstore D) :=
  do! storeID <- checkStore;
  do! storeID <- (if storeID =? InvalidID then bootstrapStore else ret storeID);
  let x := mkStore storeID address StoreState_Up in
  do! first <- checkOrPrepareBootstrapCluster storeID;
  do! _ <- match first with
           | Some region => BootstrapCluster MaxCheckClusterBootstrappedRetryCount x (rg_Id region)
           | None => ret false
           end;
  ask (sc_PutStore x) ;;
  startNode storeID snapMgr.
End Node.
