(* ===== verification/NodeProps.v ===== *)
(** * NodeProps: the first region of a cluster

    What a node leaves in its engines while it bootstraps the cluster, wherever it dies, and
    that the next start goes on from there: the store ends up with exactly the first region,
    which covers all keys.  The one place where it does not is between the scheduler's
    [Bootstrap] and the removal of the prepared state. *)

From stdpp Require Import base option list sorting strings gmap tactics.
From S2P Require Import Prelude.
From S2P Require Import Wire.
From S2P Require Import WireFacts.
From S2P Require Import Eraftpb.
From S2P Require Import RaftServerpb.
From S2P Require Import EraftpbRound.
From S2P Require Import GoHeap.
From S2P Require Import Meta.
From S2P Require Import Metapb.
From S2P Require Import Engine.
From S2P Require Import Store.
From S2P Require Import SnapFile.
From S2P Require Import PeerStorage.
From S2P Require Import PeerStorageProps.
From S2P Require Import SnapMgr.
From S2P Require Import RaftstoreUtil.
From S2P Require Import Peer.
From S2P Require Import PeerMsg.
From S2P Require Import PeerProps.
From S2P Require Import PeerSplit.
From S2P Require Import RaftStore.
From S2P Require Import RaftStoreStart.
From S2P Require Import SchedStorage.
From S2P Require Import SchedServer.
From S2P Require Import SchedClient.
From S2P Require Import GoMonad.
From S2P Require Import Node.

Lemma sovLoop_le n : forall x k, sovLoop n x k <= k + Z.of_nat n.
Proof.
  induction n as [|n IH]; intros x k; cbn [sovLoop]; [lia|]. destruct (_ =? 0); [lia|]. specialize (IH (Z.shiftr x 7) (k + 1)). lia.
Qed.
Lemma ident_short a b : len (StoreIdent_enc (mkStoreIdent a b None)) < two63.
Proof.
  unfold StoreIdent_enc. rewrite !len_app, !len_enc_varint. cbn [id_ClusterId id_StoreId id_XXX_unrecognized default].
  assert (Hs : forall v, size_varint v <= 11).
  { intros v. unfold size_varint, sov. destruct (negb _); [|lia]. pose proof (sovLoop_le 10 (uint64 v) 0). lia. }
  pose proof (Hs a). pose proof (Hs b). change (len ([] : list Z)) with 0. unfold two63. lia.
Qed.

(** ** What is in the engines *)
Section Engines.
Context {D : Type} `{BadgerLaws D}.
Context (regionStateBytes : PeerState -> Region -> list Z) (regionStateOf : list Z -> option (PeerState * option Region)).
Context (snapRegion : option (list Z) -> option (option Region)) (rand_Int : nat -> Z) (cfg : Peer.Config).
Context (Hbytes : forall st r, regionStateBytes st r <> []).
Context (Hround : forall st r, regionStateOf (regionStateBytes st r) = Some (st, Some r)).

Definition contents_are (db : D) (f : list Z -> option (list Z)) : Prop := forall k, db_get db k = f k.
Definition nothing (k : list Z) : option (list Z) := None.
Definition put_at (key val : list Z) (f : list Z -> option (list Z)) (k : list Z) : option (list Z) :=
  if bool_decide (k = key) then Some val else f k.
Definition ident_kv (cid sid : Z) : list Z -> option (list Z) :=
  put_at StoreIdentKey (StoreIdent_enc (mkStoreIdent cid sid None)) nothing.
Definition region_kv (cid sid : Z) (r : Region) : list Z -> option (list Z) :=
  put_at (RegionStateKey (rg_Id r)) (regionStateBytes PeerState_Normal r)
    (put_at (ApplyStateKey (rg_Id r)) (RaftApplyState_enc first_apply_state) (ident_kv cid sid)).
Definition prepared_kv (cid sid : Z) (r : Region) : list Z -> option (list Z) :=
  put_at PrepareBootstrapKey (regionStateBytes PeerState_Normal r) (region_kv cid sid r).
(** As [PrepareBootstrapCluster] writes it, and as [InitRaftLocalState] does where it is missing. *)
Definition late_raft_state : RaftLocalState := mkLocalState (Some (mkHardState 5 0 5 None)) 5 5 None.
Definition region_raft (r : Region) (st : RaftLocalState) : list Z -> option (list Z) :=
  put_at (RaftStateKey (rg_Id r)) (RaftLocalState_enc st) nothing.

Lemma region_keys_ne i : RegionStateKey i <> PrepareBootstrapKey /\ RegionStateKey i <> StoreIdentKey /\
  ApplyStateKey i <> PrepareBootstrapKey /\ ApplyStateKey i <> StoreIdentKey.
Proof. unfold ApplyStateKey. rewrite RegionStateKey_eq, makeRegionPrefix_eq. done. Qed.
Definition ok_id (id : Z) : Prop := is_u64 id /\ id <> 0.
Definition first_of (sid : Z) (r : Region) : Prop := exists rid pid, r = firstRegion sid rid pid /\ ok_id rid /\ ok_id pid.



Definition raft_of (raft : D) (r : Region) : Prop :=
  contents_are raft nothing \/ contents_are raft (region_raft r first_raft_state) \/ contents_are raft (region_raft r late_raft_state).
End Engines.

(** ** The scheduler, as a node sees it *)
(** Before the cluster is bootstrapped the client is in [J], and after it in [Jb].  Calls may fail; a call that
    fails has had no effect, but for a [Bootstrap] whose answer is lost, where [lossy] allows it.  A cluster that
    is bootstrapped may not know a region yet. *)
Record client_ok {W} `{SchedulerClient W} (cid : Z) (J Jb : W -> Prop) (lossy : Prop) : Prop := {
  co_cid : forall w, J w \/ Jb w -> sc_GetClusterID w = cid;
  co_alloc : forall I, I = J \/ I = Jb -> total I sc_AllocID (fun id w => ok_id id /\ I w) I;
  co_no : total J sc_IsBootstrapped (fun b w => b = false /\ J w) J;
  co_yes : total Jb sc_IsBootstrapped (fun b w => b = true /\ Jb w) Jb;
  co_boot : forall x, total J (sc_Bootstrap x) (fun r w => r = Reply tt /\ Jb w) (fun w => J w \/ lossy /\ Jb w);
  co_again : forall x, total Jb (sc_Bootstrap x) (fun r w => r = Refused ALREADY_BOOTSTRAPPED /\ Jb w) Jb;
  co_region : total Jb (sc_GetRegion []) (fun _ => Jb) Jb;
  co_put : forall x, total Jb (sc_PutStore x) (fun _ => Jb) Jb;
}.

Section Start.
Context {W D : Type} `{SchedulerClient W, BadgerLaws D}.
Context (regionStateBytes : PeerState -> Region -> list Z) (regionStateOf : list Z -> option (PeerState * option Region)).
Context (snapRegion : option (list Z) -> option (option Region)) (rand_Int : nat -> Z) (cfg : Peer.Config) (Hcfg : cfg_ok cfg).
Context (Hbytes : forall st r, regionStateBytes st r <> []).
Context (Hround : forall st r, regionStateOf (regionStateBytes st r) = Some (st, Some r)).
Context (cid : Z) (Hcid : is_u64 cid) (J Jb : W -> Prop) (lossy : Prop) (Hclient : client_ok cid J Jb lossy).
Implicit Types (n : node W D).

(** A property of the client and the engines. *)
Abbreviation on P := (fun n : node W D => P (nd_client n) (nd_kv n) (nd_raft n)).
Definition prepared (I : W -> Prop) (sid : Z) (r : Region) w (kv raft : D) : Prop :=
  ok_id sid /\ first_of sid r /\ I w /\ contents_are kv (prepared_kv regionStateBytes cid sid r) /\ raft_of raft r.



Lemma checkStore_ident n sid :
  db_get (nd_kv n) StoreIdentKey = Some (StoreIdent_enc (mkStoreIdent cid sid None)) -> ok_id sid ->
  sc_GetClusterID (nd_client n) = cid -> checkStore n = (n, Ret sid).
Proof.
  intros Hg [Hu Hne] Hc. unfold checkStore, bind, gets, Engine.GetMeta. cbn [id]. rewrite Hg.
  pose proof (c_round (mkStoreIdent cid sid None) (conj Hcid (conj Hu eq_refl))) as Hr.
  cbn [c_Unmarshal c_zero c_enc c_norm StoreIdent_codec] in Hr |- *. rewrite Hr.
  - unfold lift, clusterID. cbn [id_ClusterId id_StoreId]. rewrite Hc, Z.eqb_refl. cbn [negb]. change InvalidID with 0.
    rewrite (proj2 (Z.eqb_neq sid 0) Hne). done.
  - apply ident_short.
Qed.




Abbreviation checkOrPrepare := (checkOrPrepareBootstrapCluster regionStateBytes regionStateOf).
Lemma check_prepared_eq (I : W -> Prop) sid r n : on (prepared I sid r) n -> checkOrPrepare sid n = (n, Ret (Some r)).
Proof.
  intros (_ & _ & _ & Hkv & _). unfold checkOrPrepareBootstrapCluster, bind at 1, gets. rewrite Hkv.
  unfold prepared_kv, put_at. rewrite bool_decide_true by done. cbn [mbind option_bind]. rewrite Hround. done.
Qed.


Lemma clear_prepared_get sid r (db : D) :
  contents_are db (prepared_kv regionStateBytes cid sid r) ->
  contents_are (wb.WriteToDB (wb.DeleteMeta (wb.DeleteMeta (wb.DeleteMeta new_WriteBatch PrepareBootstrapKey) (RegionStateKey (rg_Id r))) (ApplyStateKey (rg_Id r))) db)
    (ident_kv cid sid).
Proof.
  intros Hdb k. rewrite WriteToDB_get, Hdb. cbn [wb_entries wb.DeleteMeta wb.add new_WriteBatch app foldl].
  destruct (region_keys_ne (rg_Id r)) as (N1 & N2 & N3 & N4).
  unfold after_entry, after_op, wb.op_of, prepared_kv, region_kv, ident_kv, put_at, nothing. cbn [fst snd].
  change (len ([] : list Z) =? 0) with true. cbv iota.
  repeat case_bool_decide; subst; done || congruence.
Qed.
Lemma no_region_start sid kv raft mgr :
  contents_are kv (ident_kv cid sid) ->
  exists s, RaftStore.start regionStateBytes regionStateOf snapRegion rand_Int cfg sid kv raft mgr = Ret s /\
    forall id, is_u64 id -> RaftStore.get s id = None.
Proof.
  intros Hkv.
  assert (Hm : forall key, in_meta key = true -> db_get kv key = None).
  { intros key Hk. rewrite Hkv. unfold ident_kv, put_at. case_bool_decide; [by subst key|done]. }
  assert (Hst : forall id, state_of regionStateOf kv id = None).
  { intros id. unfold state_of. by rewrite Hm by apply RegionStateKey_in_meta. }
  assert (Hs : saved regionStateOf sid kv raft).
  { split.
    - intros key val Hg Hk. rewrite (Hm key Hk) in Hg. done.
    - intros id region _ Hs. rewrite (Hst id) in Hs. done.
    - intros id region _ Hs. rewrite (Hst id) in Hs. done.
    - intros id region last key val _ Hs. rewrite (Hst id) in Hs. done. }
  destruct (start_restores regionStateBytes regionStateOf snapRegion rand_Int cfg Hcfg Hbytes Hround sid kv raft mgr Hs) as (s & Hst' & Hre).
  exists s. split; [done|]. intros id Hid. apply (rs_only _ _ _ _ _ Hre id Hid). intros region. by rewrite Hst.
Qed.

(** ** Starting *)
Abbreviation NStart := (Node.Start regionStateBytes regionStateOf snapRegion rand_Int cfg).
Lemma has_ident (I : W -> Prop) sid r w (kv raft : D) : (forall w, I w -> J w \/ Jb w) -> prepared I sid r w kv raft ->
  db_get kv StoreIdentKey = Some (StoreIdent_enc (mkStoreIdent cid sid None)) /\ ok_id sid /\ sc_GetClusterID w = cid.
Proof.
  intros HI (Hid & Hf & Hj & Hkv & _). destruct (region_keys_ne (rg_Id r)) as (N1 & N2 & N3 & N4).
  split_and!; [|apply Hid..|apply (co_cid _ _ _ _ Hclient); auto].
  rewrite Hkv. unfold prepared_kv, region_kv, ident_kv, put_at. rewrite 3!bool_decide_false by done. by rewrite bool_decide_true.
Qed.



(** ** The window *)
(** A node that dies after the scheduler has been bootstrapped and before it has removed the prepared state, or
    whose client did not get the answer, is told that the cluster is bootstrapped and, as no region has sent a
    heartbeat yet, that there is no region: it deletes the first region.  The cluster then has no region at all. *)
Theorem bootstrap_window_loses_region (address : list Z) (mgr : SnapManager) n sid r w1 w2 w3 :
  on (prepared Jb sid r) n -> nd_left n = None ->
  let x := mkStore sid address StoreState_Up in
  sc_Bootstrap x (nd_client n) = (w1, Ret (Refused ALREADY_BOOTSTRAPPED)) ->
  sc_GetRegion [] w1 = (w2, Ret (None, None)) -> sc_PutStore x w2 = (w3, Ret tt) ->
  exists n' s, NStart address mgr n = (n', Ret s) /\ contents_are (nd_kv n') (ident_kv cid sid) /\
    forall id, is_u64 id -> RaftStore.get s id = None.
Proof.
  intros Hn Hl x Hb Hg Hp. pose proof Hn as (Hid & (rid & pid & -> & Hrid & _) & Hj & Hkv & Hraft).
  set (r := firstRegion sid rid pid) in *.
  destruct (has_ident Jb sid r _ _ _ (fun w Hw => or_intror Hw) Hn) as (Hgi & _ & Hc).
  destruct n as [w kv raft left]. cbn [nd_client nd_kv nd_raft nd_left] in *. subst left.
  set (kv' := wb.WriteToDB (wb.DeleteMeta (wb.DeleteMeta (wb.DeleteMeta new_WriteBatch PrepareBootstrapKey) (RegionStateKey (rg_Id r))) (ApplyStateKey (rg_Id r))) kv).
  set (raft' := db_update raft [(RaftStateKey (rg_Id r), None)]).
  pose proof (clear_prepared_get sid r kv Hkv) as Hkv'. fold kv' in Hkv'.
  destruct (no_region_start sid kv' raft' mgr Hkv') as (s & Hs & Hno).
  exists (mkNode w3 kv' raft' None), s. split; [|done].
  assert (Hboot : forall k, BootstrapCluster (S k) x (rg_Id r) (mkNode w kv raft None) = (mkNode w2 kv' raft' None, Ret false)).
  { intros k. cbn [BootstrapCluster]. unfold bind at 1, remote at 1, effect. cbn [nd_left nd_client].
    rewrite Hb. cbv beta iota. unfold bind at 1, remote, effect. cbn [nd_left nd_client upd set_nd_client]. rewrite Hg. cbv beta iota.
    change (rg_Id r) with rid. destruct (Z.eqb_spec 0 rid) as [He|_]; [destruct Hrid; lia|]. done. }
  unfold Node.Start. unfold bind at 1. rewrite (checkStore_ident (mkNode w kv raft None) sid Hgi Hid Hc).
  change InvalidID with 0. rewrite (proj2 (Z.eqb_neq sid 0) (proj2 Hid)). unfold bind at 1, ret at 1. cbv zeta. unfold bind at 1.
  rewrite (check_prepared_eq Jb sid r (mkNode w kv raft None) Hn). unfold bind at 1. fold x. change MaxCheckClusterBootstrappedRetryCount with (S 59). rewrite (Hboot 59%nat).
  unfold bind at 1, ask, bind at 1, remote, effect. cbn [nd_left nd_client upd set_nd_client]. rewrite Hp. cbv beta iota.
  unfold ret, startNode, bind, gets, lift. cbn [id nd_kv nd_raft upd set_nd_client]. by rewrite Hs.
Qed.
End Start.
