(* ===== verification/NodeRun.v ===== *)
(** * NodeRun: the first node of a cluster

    A toy scheduler that keeps the contract of [NodeProps], and runs of a node against the
    scheduler of [SchedServer]: one in which all goes well, and one in which the answer to
    [Bootstrap] is lost. *)

From stdpp Require Import base option list strings gmap tactics.
From S2P Require Import Prelude.
From S2P Require Import GoHeap.
From S2P Require Import Metapb.
From S2P Require Import Meta.
From S2P Require Import Engine.
From S2P Require Import Store.
From S2P Require Import PeerStorageProps.
From S2P Require Import PeerRun.
From S2P Require Import Peer.
From S2P Require Import PeerSplit.
From S2P Require Import SnapRace.
From S2P Require Import RaftStore.
From S2P Require Import RaftStoreRun.
From S2P Require Import Cluster.
From S2P Require Import Etcd.
From S2P Require Import SchedStorage.
From S2P Require Import SchedServer.
From S2P Require Import SchedServerRun.
From S2P Require Import SchedClient.
From S2P Require Import GoMonad.
From S2P Require Import Node.
From S2P Require Import NodeProps.

(** ** A toy scheduler *)
Record toy := mkToy { toy_next : Z; toy_bootstrapped : bool }.
#[local] Instance toy_client : SchedulerClient toy := {|
  sc_GetClusterID _ := 7;
  sc_AllocID := fun t => if toy_next t <? 999 then (mkToy (toy_next t + 1) (toy_bootstrapped t), Ret (toy_next t)) else (t, Err ErrTooManyTimes);
  sc_Bootstrap _ := fun t => if toy_bootstrapped t then (t, Ret (Refused ALREADY_BOOTSTRAPPED)) else (mkToy (toy_next t) true, Ret (Reply tt));
  sc_IsBootstrapped := fun t => (t, Ret (toy_bootstrapped t));
  sc_PutStore _ := fun t => (t, Ret tt);
  sc_GetStore _ := fun t => (t, Err ErrLost);
  sc_GetRegion _ := fun t => (t, Ret (None, None));
  sc_GetRegionByID _ := fun t => (t, Ret (None, None));
  sc_AskSplit _ := fun t => (t, Err ErrLost);
  sc_StoreHeartbeat _ := fun t => (t, Ret tt) |}.
Abbreviation enode W := (node W db).

(** ** Against the scheduler *)
Definition leader : sserver :=
  fst (becomeLeader storeOfPlain metaOfPlain noFloat tt (new_server 7 3 [109] {[KLeader := [109]]} ∅)).
Abbreviation sclient := (client (gmap ekey (list Z)) (gmap (list Z) (list Z))).
#[local] Instance sclient_client : SchedulerClient sclient :=
  client_SchedulerClient plainStore storeOfPlain plainMeta metaOfPlain noFloat tt yes.
Definition scheduled (faults : list fault) : enode sclient := mkNode (mkClient 7 leader faults 5) ∅ ∅ None.
Definition scheduled_start (n : enode sclient) : enode sclient * outcome node_error dstore :=
  Node.Start state_bytes bytes_state noRegion demo_rand demo_cfg [49] race_manager n.
(** The regions of the store that has come up, those in its engine, the stores the scheduler knows, and whether
    it is bootstrapped. *)
Definition view (r : enode sclient * outcome node_error dstore) : option (list Z * list Region * list Store * bool) :=
  match r with
  | (n, Ret s) =>
    Some (map fst (map_to_list (sr_peers s)), omap (fun p => bytes_state p.2 ≫= snd) (db_from (sr_kv s) RegionMetaMinKey),
          match sv_core (cl_server (nd_client n)) with Some c => basic.GetMetaStores c | None => [] end,
          sv_running (cl_server (nd_client n)))
  | _ => None
  end.
Lemma first_node_comes_up : view (scheduled_start (scheduled [])) =
  Some ([2], [firstRegion 1 2 3], [mkStore 1 [49] StoreState_Up], true).
Proof. vm_compute. reflexivity. Qed.
(** The fifth call is [Bootstrap]: it is served, and its answer does not arrive. *)
Theorem lost_answer_loses_region :
  view (scheduled_start (scheduled [Delivered; Delivered; Delivered; Delivered; LostAnswer])) =
  Some ([], [], [mkStore 1 [49] StoreState_Up], true).
Proof. vm_compute. reflexivity. Qed.
